(* ===== verification/_CoqProject ===== *)
-Q . S2P
Prelude.v
Binary.v
Order.v
Float64.v
Identity.v
VersionVector.v
Text.v
GoStrings.v
WordList.v
NodeNames.v
Bodies.v
FileBody.v
DoorEvent.v
Records.v
Profiles.v
GossipWire.v
Schedule.v
GossipEngine.v
GossipFacts.v
Fountain.v
FountainCodec.v
Bundle.v
Airtime.v
Governor.v
BsmpOutbox.v
BsmpInbox.v
MeshFrame.v
MeshPeers.v
MeshSession.v
MeshLink.v
MeshLinkFacts.v
MeshStack.v
Succession.v
BlobStore.v
Sneakernet.v
Exchange.v
RecordLog.v
GossipStore.v
IpLink.v
Board.v
Areas.v
Files.v
FilesFacts.v
FileRequests.v
FileRequestsFacts.v
Service.v
FileService.v
Sftp.v
Leagues.v
LeaguesFacts.v
Base64.v
Armour.v
Keyring.v
Mail.v
MailFacts.v
Passkeys.v
WebLogin.v
WebLoginFacts.v
Doors.v
DoorRun.v
Dropfile.v
DoorApi.v
DoorApiFacts.v
Terminal.v
Survey.v
Telnet.v
Mux.v
Witness.v
TransportWitness.v
MeshWitness.v
BoardWitness.v
CarrierWitness.v
LogWitness.v
ServiceWitness.v
FileWitness.v
LeagueWitness.v
SessionWitness.v
WebWitness.v
MailWitness.v
DoorWitness.v
