(* ===== verification/Prelude.v ===== *)
(** * meshbbs: a verification development

    meshbbs is a bulletin-board system whose nodes federate over low-bandwidth
    radio. This library models the part of it that makes federation correct:
    what a record is and how it is signed, how the log keeps it, how two nodes find
    out what the other lacks, what they send, how a batch of records crosses a lossy
    link within the airtime the law allows, and how records and files travel on a
    stick instead. The sources are under src/internal/; each definition carries the
    name of the Go function, type or constant it translates, wherever Rocq allows it.

    ** The parts and the files that model them

    Shared ground:
    - Prelude (this file): the [result] type for Go's (value, error) pairs, bytes,
      fixed-width integers kept in Z with their wrap-around written out, fixed-size
      arrays as vectors, the prefix-taking parser steps, and the automation
      ([run] executes one parser step, [bind_Ok] and the [parse] hints take a
      successful run apart, [widths] closes goals about machine integers,
      [by_compute] decides closed propositions).
    - Binary: encoding/binary, big-endian integers and varints, with the canonical
      readers that packages vv, gossip and bundle each carry.
    - Order: the interface [StrictTotal] that every "less" of the code implements,
      and sorting by it; the wire forms rely on the sorted form being unique.
    - Float64: Go's float64 on SpecFloat, for intervals, loss and repair sizing.
    - Identity (identity/nodeid.go, base32.go): node IDs and their rendering.
    - GoStrings: the functions of package strings the code uses on names, and the
      comparison of a column declared COLLATE NOCASE.
    - WordList, NodeNames (identity/wordlist.go, words.go, nodeid.go, store/nodes.go):
      the six words of a node ID, parsing any rendering, and the table of aliases.

    Records and what a node holds:
    - VersionVector (vv/vv.go): what a node holds of an area. A vector is a finite
      map; merging is a semilattice, [Missing] is what one vector lacks of another,
      and the encoding is canonical.
    - Text, Bodies, FileBody, DoorEvent (record/node.go, profile.go, succession.go,
      file.go, door_event.go): label checks and the typed bodies of records.
    - Records (record/record.go, codec.go): the record, its canonical bytes, its
      content address, its signature, and the constructor and verifier per type.
    - Profiles (profile/profile.go): when a user's profile is published and the
      directory of those that arrived.
    - RecordLog (store/records.go, seq.go, nodes.go): the tables of signed records,
      sequence counters and the roster; GossipStore (store/gossipstore.go): the
      adapter through which the engine reads the log and the one way in for what
      peers send. A query is the list function its SQL denotes.
    - Succession (succession/succession.go): the registry of key rotations.
    - BlobStore (blobstore/blobstore.go): file contents under their hash, with
      uploads as interleaved steps that a power cut may stop anywhere.

    What a board does for its users:
    - Board (store/users.go and the rows of the other tables): one board's database
      beside the record log, its users and their capabilities, and finding accounts.
    - Areas (store/forum.go): forums, file areas and door leagues in one name space,
      their shares of the airtime, and posts.
    - Files (store/files.go): the file table, its blobs and the listing that joins it
      with the FILE records of the log; FilesFacts: the finite map they implement.
    - FileRequests (store/filerequests.go): the queue of files asked for, what a
      carrier is to ask for, arrivals and notices; FileRequestsFacts: its theorems.
    - Service, FileService (bbs/bbs.go): minting a record of this node's own, posting
      it, adding and describing files, and handing records to the federation, which is
      the interface [Publisher].
    - Sftp (sshd/sftp.go): the tree an SFTP client sees, and its requests over the
      catalog and the blob store.
    - Leagues (doorevent/doorevent.go, store/doorevents.go, bbs/doorevents.go,
      bbs/doorhost.go, cli/mesh_serve.go): the events door games report, from the
      queue through the batching policy into records, and polled back from the log;
      LeaguesFacts: its theorems.
    - Base64, Keyring, Armour (keyring/keyring.go, kdf.go, dmkey/armour.go): the keys
      mail is sealed to, and sealed mail as text; Mail (store/dm.go, auth.go,
      bbs/bbs.go): the index of mail, whose key is kept where, sending and opening;
      MailFacts: runs of all of it.
    - Passkeys (store/webauthn.go, auth/enrolcode.go), WebLogin (webd/session.go,
      limiter.go, user.go, auth.go): the tables of passkeys and enrolment codes, and the
      web server's sessions, limits and the handlers of signing in and enrolling;
      WebLoginFacts: runs of that server and what holds of each.
    - Doors (store/doors.go): installed doors, the state each keeps, the notices; DoorRun
      (door/door.go, limits.go, sshd/doors.go, tui/doors.go): who may run one, what it is
      launched with, the manager's slots and hourly limits, and when a run ends; Dropfile
      (door/dropfile.go): the files that tell an old door who is calling; DoorApi
      (door/api.go, bbs/doorhost.go): the socket a door asks the board over, as a server
      whose connections are served a line at a time, over [Publisher], the posts of
      Service, the mail of Mail and the queue of Leagues; DoorApiFacts: what a door can
      have changed.
    - Telnet, Mux (sshd/telnet.go, mux.go): telnet's commands taken out of the input,
      and the multiplexer that lends a session's connection to a door, as interleaved
      steps of its pump, its ports and the calls on it.
    - Terminal (term/cp437.go): code page 437, telling UTF-8 from it, and making text
      from elsewhere safe to write to a screen.

    Anti-entropy:
    - GossipWire (gossip/digest.go, wire.go): the four control messages.
    - Schedule (gossip/schedule.go): when a digest is due, as a state machine run.
    - GossipEngine (gossip/engine.go): the engine's state and every handler, in a
      state-and-error monad over two interfaces, the log [Store] and the
      transmitter [Outbox]; GossipFacts: its theorems, proved against those
      interfaces and against [OutboxLog], the refined interface that records what
      a transmitter accepted.

    From the engine to the air:
    - Fountain, FountainCodec (fountain/fountain.go, codec.go): symbols, masks,
      the encoder, the Gaussian-elimination decoder and repair sizing.
    - Bundle (bundle/bundle.go): the framing of a batch with its origin table, and
      the compressed form.
    - BsmpOutbox, BsmpInbox (bsmp/outbox.go, inbox.go): control messages as frames,
      batches as symbols of a bundle, and back; over the interface [Sender] and the
      engine as [Applier].
    - Airtime, Governor (airtime/airtime.go, governor/governor.go): the cost of a
      packet and the token buckets, reserves, quiet hours and duty cycle that decide
      whether it goes out.
    - MeshFrame, MeshSession (meshtastic/frame.go, session.go, hammode/hammode.go):
      the serial framing, the config exchange, the amateur-radio rule.
    - MeshPeers, MeshLink (meshlink/wire.go, peers.go, link.go, governor.go): signed
      announcements, the table of peers, and the link's operations with its
      goroutines as interleaved steps, over a radio connection [Conn] and a
      [LinkGovernor]; MeshLinkFacts: its theorems.
    - MeshStack: the outbox over the link over the governor, with the interfaces of
      each discharged by the next.
    - IpLink (iplink/link.go, cert.go): the link over mutually authenticated TLS: who a
      certificate names and who may connect, framing, and the link's operations and
      goroutines as interleaved steps.
    - Survey (survey/survey.go, report.go, census.go, radio.go): measuring how often a
      channel repeats a packet: counters, baseline, probes paced by their airtime, the
      figures and the verdict, over the interface [Radio].

    By hand:
    - Sneakernet, Exchange (sneakernet/carrier.go, stream.go, exchange.go): the
      manifest and stream of a carrier, what is exported and what an import does,
      over the interfaces [Exporter] and [Importer].

    Witness, TransportWitness, MeshWitness, BoardWitness, CarrierWitness, LogWitness,
    ServiceWitness, FileWitness, LeagueWitness, SessionWitness, WebWitness, MailWitness,
    DoorWitness: concrete instances of every parameter, and for
    each property with hypotheses an input at which they hold; also concrete runs that
    exhibit the defects found.

    ** What the theorems show

    Wire forms: every decoder accepts exactly the encodings of well-formed values
    (statements ending in [_iff]), so a value has one wire form and one hash. Records:
    what [New] signs survives the wire and verifies; verifiers accept exactly what the
    right key signed. The log: a record is kept as signed or refused for a reason,
    sequence numbers are given out once, a vector promises exactly what the log then
    serves, only what is signed gets in, and one exchange closes up to 256 records of
    every gap. Anti-entropy: [Missing] is exact, delta requests fit a packet and are
    read back, repeated rounds converge to the merge in at most one round per origin
    behind; handlers send exactly the message they should and nothing otherwise;
    diverged nodes ask; engine invariants hold in every reachable state. Fountain codes:
    the decoder never returns a wrong payload and succeeds as soon as the symbols
    determine it. Bundles: packing and unpacking. Transport: a batch arrives as sent,
    only genuine bundles are applied, retries resume where they stopped. Airtime: a
    packet goes out exactly when nothing refuses it, and the whole stack stays within a
    tenth of any hour. Mesh link: datagrams are attributed only to the node whose key
    signed for the radio, nothing goes out unpaid, a ham node never transmits encrypted,
    retrying ends. IP link: what a peer wrote is handed up in order, unrepeated and
    under the name its key proves, from peers dialled or allowed only. Profiles: the
    network is told of a user once per change, and asked to forget those it knows.
    Boards: every name of a node finds it, an area's name finds it and no area is
    replicated that should not be, a post is taken exactly when it may be and is then
    one signed record more; the file tables implement a map, a file added is announced
    as its row says, and content asked for is filed where it was asked and told of once;
    over SFTP a path names a catalog entry or nothing, every entry can be read, and an
    upload enters the catalog whole or not at all; a door's events wait, expire or go
    out in exactly one record, and polling delivers each once; mail opens with the
    passphrase its recipient has now, until the key is given up, and survives a
    terminal; nobody is signed in from a browser but by a passkey enrolled with a code
    given out for that account; a door writes only where it was granted to and in its
    own name or, where it may act for its player, as that player may and on the audit
    log; doors stay within their slots and hours, and what a caller types cannot move a
    line of a dropfile; a session's input loses and repeats no byte; what is shown of
    another's text holds no control character. The survey ends, and transmits only
    after a quiet baseline and no faster than its pace. Succession: hops are signed,
    stay and never turn in a circle. Carriers: what is written is read back,
    what is read is checked, imports apply what was exported.

    ** Parameters

    BLAKE3, Ed25519, zstd, math.Log, the random source, the radio connection, the
    surveyed radio ([Radio], with [RadioLaws]: its clock does not run back and a wait
    that is not cut short lasts as long as asked), SQLite's driver and its sums of floating-point numbers, the WebAuthn library, Unicode's upper
    case, the platform doors run on, JSON requests, the ciphers of mail and the parsing
    of certificates are not code of this repository: they are class arguments ([Blake3],
    [Ed25519], [Zstd], [Rng], [Uint64Source], [Conn], [SqlDriver], [SqlSum], [WebAuthn],
    [UpperHigh], [Platform], [RequestJson], [DmCrypto], [Certificates]), as are the
    interfaces one component promises another. What is assumed of them is named where it
    is used: [valid_key] (a pair verifies what it signs), [zstd_roundtrips]
    (decompression inverts compression), [login_sound] (a login is by one of the
    credentials handed over), [DmCryptoLaws] (both sides of an exchange agree, a
    ciphertext opens to what was sealed and to nothing else), the laws of the log
    classes ([OutboxLog], [ConnLog], [GovernorLog], [ImporterLog]), which record what an
    implementation accepted. The witness files instantiate each.

    ** Bounds and fuel

    A varint writer runs ten rounds, enough for 64 bits at seven bits a round; the
    mask generator runs one round per 32-entry batch; repair search runs to its own
    cap 12K+16; chains of successions run to MaxChain; the frame reader has one
    round more than the bytes it has left, each round consuming one; evicting blocks
    runs once per open block; connecting has a round per backoff that fits the retry
    window, and one more; a survey has a round per sample of its longest phase, and one
    per packet due; parser loops are structural on the count they read. Where
    the code loops until something happens, a theorem says that the fuel is enough.
    Times are nanoseconds and do not move inside an operation, except where a clock
    is part of the state. Maps that Go iterates in an unspecified order are folded in
    some order, and no theorem depends on which.

    ** Not modelled

    Mutexes, logging, metrics and the texts of errors and events; failures of the
    disk and of SQLite itself; password hashing and SSH logins;
    terminal screens, the SSH server and the rest of the web server; the terminals and
    processes of doors; serial ports, sockets and TLS itself (a connection that
    was closed is not read further); key files; the survey's printed report and its
    goroutines; the simulator and tools. *)

From stdpp Require Export base tactics numbers list gmap vector option sorting.
From Stdlib Require Export ZArith Lia.
From Stdlib Require Strings.Byte.

#[global] Open Scope Z_scope.
#[global] Set Default Proof Using "Type".

(** ** Results: Go's (value, error) pairs, with the error as a value *)

Inductive result (E A : Type) : Type :=
| Ok (a : A)
| Err (e : E).
Arguments Ok {E A} _.
Arguments Err {E A} _.

#[export] Instance result_ret (E : Type) : MRet (result E) := λ A a, Ok a.
#[export] Instance result_bind (E : Type) : MBind (result E) :=
  λ A B f m, match m with Ok a => f a | Err e => Err e end.
#[export] Instance result_fmap (E : Type) : FMap (result E) :=
  λ A B f m, match m with Ok a => Ok (f a) | Err e => Err e end.

(** [if !b { return err }] *)
Definition require {E : Type} (b : bool) (e : E) : result E unit :=
  if b then Ok tt else Err e.

(** Changing the error a callee reports, as [fmt.Errorf("...: %w", err)] does. *)
Definition wrap_err {E E' A : Type} (f : E → E') (m : result E A) : result E' A :=
  match m with Ok a => Ok a | Err e => Err (f e) end.

Definition is_ok {E A : Type} (m : result E A) : bool :=
  match m with Ok _ => true | Err _ => false end.

Lemma bind_Ok {E A B : Type} (f : A → result E B) (m : result E A) (b : B) :
  m ≫= f = Ok b ↔ ∃ a, m = Ok a ∧ f a = Ok b.
Proof.
  destruct m as [a|e]; cbn; split; [eauto|intros (?&[= ->]&?); done|done|intros (?&?&?); done].
Qed.

Lemma require_Ok {E : Type} (b : bool) (e : E) (u : unit) :
  require b e = Ok u ↔ b = true.
Proof. destruct b, u; cbn; naive_solver. Qed.

Lemma bind_step {E A B : Type} (f : A → result E B) (m : result E A) (a : A) (r : result E B) :
  m = Ok a → f a = r → m ≫= f = r.
Proof. by intros -> <-. Qed.

Lemma bind_unit_step {E B : Type} (f : unit → result E B) (m : result E unit) (r : result E B) :
  m = Ok tt → f tt = r → m ≫= f = r.
Proof. by intros -> <-. Qed.

Lemma bind_unit_Ok {E B : Type} (m : result E unit) (k : result E B) b :
  m ≫= (λ _, k) = Ok b ↔ m = Ok tt ∧ k = Ok b.
Proof. rewrite bind_Ok. split; [intros ([] & ? & ?); auto|intros [? ?]; by exists tt]. Qed.

Lemma require_neg_decide {E : Type} (P : Prop) `{Decision P} (e : E) (u : unit) :
  require (negb (bool_decide P)) e = Ok u ↔ ¬ P.
Proof. rewrite require_Ok, negb_true_iff, bool_decide_eq_false. done. Qed.

Lemma wrap_err_Ok {E E' A : Type} (f : E → E') (m : result E A) (a : A) :
  wrap_err f m = Ok a ↔ m = Ok a.
Proof. destruct m; cbn; naive_solver. Qed.

Lemma Ok_inj {E A : Type} (a b : A) : @Ok E A a = Ok b ↔ a = b.
Proof. naive_solver. Qed.

(** ** Bytes *)

Abbreviation byte := Byte.byte.
Abbreviation bytes := (list Byte.byte).

#[export] Instance byte_eq_dec : EqDecision byte := Byte.byte_eq_dec.
#[export] Instance byte_countable : Countable byte :=
  inj_countable Byte.to_N Byte.of_N Byte.of_to_N.
#[export] Instance byte_inhabited : Inhabited byte := populate Byte.x00.

(** [b2z] reads a byte as a number; [z2b] is Go's truncating conversion
    [byte(x)]. *)
Definition b2z (b : byte) : Z := Z.of_N (Byte.to_N b).
Definition z2b (z : Z) : byte :=
  default Byte.x00 (Byte.of_N (Z.to_N (z mod 256))).

Lemma b2z_range b : 0 ≤ b2z b < 256.
Proof. unfold b2z. pose proof (Byte.to_N_bounded b). lia. Qed.

Lemma b2z_z2b z : b2z (z2b z) = z mod 256.
Proof.
  unfold z2b, b2z. pose proof (Z.mod_pos_bound z 256 ltac:(lia)).
  destruct (Byte.of_N _) as [b|] eqn:E; cbn.
  - apply Byte.to_of_N in E. lia.
  - apply Byte.of_N_None_iff in E. lia.
Qed.

Lemma b2z_inj b c : b2z b = b2z c → b = c.
Proof.
  unfold b2z. intros H%N2Z.inj.
  pose proof (Byte.of_to_N b). pose proof (Byte.of_to_N c). congruence.
Qed.

Lemma z2b_b2z b : z2b (b2z b) = b.
Proof. apply b2z_inj. rewrite b2z_z2b. apply Z.mod_small, b2z_range. Qed.

Lemma b2z_z2b_small z : 0 ≤ z < 256 → b2z (z2b z) = z.
Proof. intros. rewrite b2z_z2b. by apply Z.mod_small. Qed.

(** Go's [len]. *)
Definition strlen (s : bytes) : Z := Z.of_nat (length s).

(** ** Machine integers, kept in Z with the wrap-around written out *)

Definition u8 (z : Z) : Z := z mod 2 ^ 8.
Definition u16 (z : Z) : Z := z mod 2 ^ 16.
Definition u32 (z : Z) : Z := z mod 2 ^ 32.
Definition u64 (z : Z) : Z := z mod 2 ^ 64.
Definition i64 (z : Z) : Z := (z + 2 ^ 63) mod 2 ^ 64 - 2 ^ 63.

Definition is_u8 (z : Z) : Prop := 0 ≤ z < 2 ^ 8.
Definition is_u16 (z : Z) : Prop := 0 ≤ z < 2 ^ 16.
Definition is_u32 (z : Z) : Prop := 0 ≤ z < 2 ^ 32.
Definition is_u64 (z : Z) : Prop := 0 ≤ z < 2 ^ 64.
Definition is_i64 (z : Z) : Prop := - 2 ^ 63 ≤ z < 2 ^ 63.

#[export] Instance is_u8_dec z : Decision (is_u8 z).
Proof. unfold is_u8. apply _. Defined.
#[export] Instance is_u16_dec z : Decision (is_u16 z).
Proof. unfold is_u16. apply _. Defined.
#[export] Instance is_u32_dec z : Decision (is_u32 z).
Proof. unfold is_u32. apply _. Defined.
#[export] Instance is_u64_dec z : Decision (is_u64 z).
Proof. unfold is_u64. apply _. Defined.
#[export] Instance is_i64_dec z : Decision (is_i64 z).
Proof. unfold is_i64. apply _. Defined.

Ltac unfold_widths :=
  unfold u8, u16, u32, u64, i64, is_u8, is_u16, is_u32, is_u64, is_i64 in *.
(** [widths] closes linear goals about fixed-width values. *)
Ltac widths := unfold_widths; lia.

Lemma u16_id z : is_u16 z → u16 z = z.
Proof. intros. apply Z.mod_small. widths. Qed.
Lemma u32_id z : is_u32 z → u32 z = z.
Proof. intros. apply Z.mod_small. widths. Qed.
Lemma u64_id z : is_u64 z → u64 z = z.
Proof. intros. apply Z.mod_small. widths. Qed.
Lemma u64_is_u64 z : is_u64 (u64 z).
Proof. unfold_widths. apply Z.mod_pos_bound. lia. Qed.
Lemma i64_id z : is_i64 z → i64 z = z.
Proof. intros. unfold_widths. rewrite Z.mod_small; lia. Qed.
Lemma i64_is_i64 z : is_i64 (i64 z).
Proof. unfold_widths. pose proof (Z.mod_pos_bound (z + 2^63) (2^64) ltac:(lia)). lia. Qed.

(** ** Fixed-size arrays: Go's [[n]byte] is a vector, so two values are equal
    exactly when their bytes are. [arr_of n l] is [copy(a[:], l)] into a zeroed
    array. *)

Abbreviation arr n := (vec Byte.byte n).

Fixpoint arr_of (n : nat) (l : bytes) : arr n :=
  match n with
  | O => [#]
  | S n' => (default Byte.x00 (head l)) ::: arr_of n' (tail l)
  end.

Definition zero_arr (n : nat) : arr n := arr_of n [].

Lemma arr_of_app n (v : arr n) (l : bytes) : arr_of n (vec_to_list v ++ l) = v.
Proof. induction v; cbn; congruence. Qed.

Lemma arr_of_vec n (v : arr n) : arr_of n (vec_to_list v) = v.
Proof. rewrite <- (app_nil_r (vec_to_list v)). apply arr_of_app. Qed.

Lemma vec_to_list_arr_of n (l : bytes) :
  length l = n → vec_to_list (arr_of n l) = l.
Proof.
  revert l. induction n as [|n IH]; intros [|x l] Hl; cbn in *; try lia; [done|].
  f_equal. apply IH. lia.
Qed.

Lemma vec_to_list_arr_of_take n (l : bytes) :
  (n ≤ length l)%nat → vec_to_list (arr_of n l) = take n l.
Proof.
  revert l. induction n as [|n IH]; intros [|x l] Hl; cbn in *; try lia; [done..|].
  f_equal. apply IH. lia.
Qed.

(** Arrays as map keys; the general instance for vectors does not evaluate. *)
#[export] Instance arr_countable n : Countable (arr n).
Proof.
  refine (inj_countable vec_to_list (λ l, Some (arr_of n l)) _).
  intros v. by rewrite arr_of_vec.
Defined.

(** Byte-wise lexicographic order, the loop every [less] of the code runs:
    the first differing byte decides. *)
Fixpoint less_bytes (a b : bytes) : bool :=
  match a, b with
  | x :: a', y :: b' => if decide (x = y) then less_bytes a' b' else b2z x <? b2z y
  | _, _ => false
  end.

Lemma less_bytes_irrefl a : less_bytes a a = false.
Proof. induction a; cbn; [done|]. by rewrite decide_True. Qed.

Lemma less_bytes_trans a b c :
  less_bytes a b = true → less_bytes b c = true → less_bytes a c = true.
Proof.
  revert b c. induction a as [|x a IH]; intros [|y b] [|z c]; cbn; try done.
  repeat case_decide; subst; try done; eauto; rewrite ?Z.ltb_lt; lia.
Qed.

Lemma less_bytes_total a b :
  length a = length b → less_bytes a b = true ∨ a = b ∨ less_bytes b a = true.
Proof.
  revert b. induction a as [|x a IH]; intros [|y b] Hl; cbn in *; try lia; [auto|].
  destruct (decide (x = y)) as [->|Hne].
  - rewrite decide_True by done. destruct (IH b) as [?|[->|?]]; auto.
  - rewrite decide_False by done.
    destruct (Z.ltb_spec (b2z x) (b2z y)); auto.
    right; right. apply Z.ltb_lt.
    assert (b2z x ≠ b2z y) by (intros ?%b2z_inj; done). lia.
Qed.

(** ** Taking a prefix of the input: [if p+n > len(b) { return err }] *)

Definition take_n {E : Type} (e : E) (n : nat) (b : bytes) : result E (bytes * bytes) :=
  if decide (length b < n)%nat then Err e else Ok (take n b, drop n b).

Lemma take_n_Ok {E : Type} (e : E) n b x r :
  take_n e n b = Ok (x, r) ↔ b = x ++ r ∧ length x = n.
Proof.
  unfold take_n. case_decide as H; split.
  - done.
  - intros [-> <-]. rewrite length_app in H. lia.
  - intros [= <- <-]. rewrite take_drop, length_take. split; [done|lia].
  - intros [-> <-]. by rewrite take_app_length, drop_app_length.
Qed.

Lemma take_n_app {E : Type} (e : E) x r n :
  length x = n → take_n e n (x ++ r) = Ok (x, r).
Proof. intros. by apply take_n_Ok. Qed.

Definition take_byte {E : Type} (e : E) (b : bytes) : result E (byte * bytes) :=
  match b with [] => Err e | x :: r => Ok (x, r) end.

Lemma take_byte_Ok {E : Type} (e : E) b x r :
  take_byte e b = Ok (x, r) ↔ b = x :: r.
Proof. destruct b; cbn; naive_solver. Qed.

(** [copy(a[:], b[p:p+n]); p += n] with its bounds check *)
Definition take_arr {E : Type} (e : E) (n : nat) (b : bytes) : result E (arr n * bytes) :=
  '(x, r) ← take_n e n b; Ok (arr_of n x, r).

Lemma take_arr_Ok {E : Type} (e : E) n b (v : arr n) r :
  take_arr e n b = Ok (v, r) ↔ b = vec_to_list v ++ r.
Proof.
  unfold take_arr. rewrite bind_Ok. split.
  - intros ([x r'] & Ht & [= <- <-]). apply take_n_Ok in Ht as [-> Hx].
    by rewrite vec_to_list_arr_of.
  - intros ->. exists (vec_to_list v, r). rewrite arr_of_vec.
    split; [|done]. apply take_n_app, length_vec_to_list.
Qed.

(** ** Automation *)

Create HintDb meshbbs discriminated.
#[export] Hint Resolve b2z_range u64_is_u64 i64_is_i64 : meshbbs.
Create Rewrite HintDb parse.
#[export] Hint Rewrite @bind_Ok @require_Ok @wrap_err_Ok @Ok_inj
  @take_n_Ok @take_byte_Ok @take_arr_Ok : parse.

(** [parse_inv] takes a successful run of a parser apart into the equations
    each step contributes. *)
Ltac parse_step :=
  match goal with
  | H : ∃ _, _ |- _ => destruct H
  | H : _ ∧ _ |- _ => destruct H
  | H : (_, _) = (_, _) |- _ => injection H as H; subst
  | H : Ok _ = Ok _ |- _ => injection H as H; subst
  | H : Err _ = Ok _ |- _ => discriminate H
  | H : _ ≫= _ = Ok _ |- _ => apply bind_Ok in H
  | H : require _ _ = Ok _ |- _ => apply require_Ok in H
  | H : wrap_err _ _ = Ok _ |- _ => apply wrap_err_Ok in H
  | H : take_n _ _ _ = Ok (_, _) |- _ => apply take_n_Ok in H
  | H : take_byte _ _ = Ok (_, _) |- _ => apply take_byte_Ok in H
  | H : take_arr _ _ _ = Ok (_, _) |- _ => apply take_arr_Ok in H
  | p : (_ * _)%type |- _ => destruct p
  | u : unit |- _ => destruct u
  end.

(** [run tac] executes the first step of a parser, [tac] proving what it returns. *)
Tactic Notation "run" tactic3(tac) :=
  lazymatch goal with
  | |- @mbind _ _ unit _ _ _ = _ => apply bind_unit_step
  | |- _ => eapply bind_step
  end; [solve [tac]|cbn beta iota].

(** [by_compute] proves a decidable proposition by evaluating its decision. *)
Ltac by_compute := apply (bool_decide_unpack _); vm_cast_no_check I.

Ltac parse_inv := repeat (parse_step; cbn beta iota in *; try subst).

#[export] Instance result_eq_dec {E A : Type} `{!EqDecision E, !EqDecision A} :
  EqDecision (result E A).
Proof. solve_decision. Defined.

(** ** Lists *)

Lemma length_bind_const {A B} (f : A → list B) k l : (∀ a, length (f a) = k) → length (l ≫= f) = (length l * k)%nat.
Proof. intros Hk. induction l as [|a l IH]; [done|]. cbn. rewrite length_app, Hk, IH. lia. Qed.

Lemma NoDup_snoc {A} (l : list A) x : NoDup l → x ∉ l → NoDup (l ++ [x]).
Proof. intros Hl Hx. apply NoDup_app. split_and!; [done| |apply NoDup_singleton]. intros y Hy ->%list_elem_of_singleton. done. Qed.

Lemma sublist_fmap_inv {A B} (f : A → B) ys l :
  ys `sublist_of` (f <$> l) → ∃ xs, ys = f <$> xs ∧ xs `sublist_of` l.
Proof.
  revert ys. induction l as [|x l IH]; intros ys; cbn [fmap list_fmap].
  { intros ->%sublist_nil_r. by exists []. }
  intros [H|(ys' & -> & H)]%sublist_cons_r; apply IH in H as (xs & -> & Hs).
  - exists xs. split; [done|by apply sublist_cons].
  - exists (x :: xs). split; [done|by apply sublist_skip].
Qed.

(** What differs in one projection differs in another, if that tells as much apart. *)
Lemma NoDup_fmap_by {A B C} (f : A → B) (g : A → C) l :
  NoDup (f <$> l) → (∀ x y, x ∈ l → y ∈ l → g x = g y → f x = f y) → NoDup (g <$> l).
Proof.
  induction l as [|a l IH]; cbn; [constructor|]. intros [Ha Hl]%NoDup_cons H. apply NoDup_cons. split; [|apply IH; [done|]; set_solver].
  intros (y & E & Hy)%list_elem_of_fmap. apply Ha. rewrite (H a y) by (done || by constructor). by apply list_elem_of_fmap_2.
Qed.

Lemma filter_fmap_length {A} (P Q : A → Prop) `{∀ x, Decision (P x), ∀ x, Decision (Q x)} (g : A → A) l :
  (∀ x, x ∈ l → P (g x) → Q x) → (length (filter P (g <$> l)) ≤ length (filter Q l))%nat.
Proof.
  induction l as [|a l IH]; intros Hg; [done|]. rewrite fmap_cons, !filter_cons.
  assert (IH' : (length (filter P (g <$> l)) ≤ length (filter Q l))%nat) by (apply IH; set_solver).
  destruct (decide (P (g a))) as [Hp|]; [rewrite decide_True by (apply Hg; [left|done]); cbn; lia|]. case_decide; cbn; lia.
Qed.

Lemma Forall_kept {A} (P Q : A → Prop) `{!∀ x, Decision (P x)} (l : list A) : Forall Q l → Forall Q (filter P l).
Proof. rewrite !Forall_forall. intros Hall x [_ Hx]%list_elem_of_filter. by apply Hall. Qed.

Lemma filter_fmap_same {A} (P : A → Prop) `{∀ x, Decision (P x)} (g : A → A) (l : list A) :
  (∀ x, x ∈ l → g x = x ∨ (¬ P x ∧ ¬ P (g x))) → filter P (g <$> l) = filter P l.
Proof.
  induction l as [|a l IH]; intros Hg; [done|]. rewrite fmap_cons, !filter_cons, IH by set_solver.
  destruct (Hg a) as [->|[H1 H2]]; [left|done|]. by rewrite !decide_False.
Qed.
