(* ===== verification/Binary.v ===== *)
(** * encoding/binary: big-endian integers and varints

    The parts of Go's [encoding/binary] the wire formats are written with:
    [BigEndian.AppendUint16/32/64] and their readers, [AppendUvarint],
    [Uvarint], [AppendVarint] and [Varint], with the laws the codecs share. *)

From S2P Require Import Prelude.

(** ** Big-endian integers *)

(** [BigEndian.AppendUintNN]: the low [n] bytes of [z], most significant
    first. *)
Fixpoint be_bytes (n : nat) (z : Z) : bytes :=
  match n with
  | O => []
  | S n' => be_bytes n' (Z.shiftr z 8) ++ [z2b z]
  end.

(** [BigEndian.UintNN] of a slice. *)
Definition be_val (l : bytes) : Z :=
  fold_left (λ acc b, Z.lor (Z.shiftl acc 8) (b2z b)) l 0.

Lemma testbit_high b k i : 0 ≤ b < 2 ^ k → 0 ≤ k ≤ i → Z.testbit b i = false.
Proof.
  intros Hb Hi. rewrite <- (Z.mod_small b (2 ^ k)) by done.
  by apply Z.mod_pow2_bits_high.
Qed.

Lemma lor_shiftl_add a b k :
  0 ≤ k → 0 ≤ b < 2 ^ k → Z.lor (Z.shiftl a k) b = a * 2 ^ k + b.
Proof.
  intros Hk Hb. rewrite <- (Z.shiftl_mul_pow2 a k) by done.
  assert (Z.land (Z.shiftl a k) b = 0) as Hl.
  { apply Z.bits_inj'. intros i Hi. rewrite Z.land_spec, Z.bits_0.
    destruct (decide (i < k)).
    - rewrite Z.shiftl_spec_low by lia. done.
    - rewrite (testbit_high b k) by lia. apply andb_false_r. }
  rewrite <- Z.lxor_lor by done. by rewrite Z.add_nocarry_lxor.
Qed.

Lemma be_val_snoc l b : be_val (l ++ [b]) = be_val l * 256 + b2z b.
Proof.
  unfold be_val. rewrite fold_left_app. cbn [fold_left].
  rewrite lor_shiftl_add; [done|lia|apply b2z_range].
Qed.

Lemma be_val_range l : 0 ≤ be_val l < 256 ^ (Z.of_nat (length l)).
Proof.
  induction l as [|b l IH] using rev_ind; [cbn; lia|].
  rewrite be_val_snoc, length_app. cbn [length].
  replace (Z.of_nat (length l + 1)) with (Z.of_nat (length l) + 1) by lia.
  rewrite Z.pow_add_r, Z.pow_1_r by lia. pose proof (b2z_range b). nia.
Qed.

Lemma be_val_range_len l n :
  length l = n → 0 ≤ be_val l < 256 ^ (Z.of_nat n).
Proof. intros <-. apply be_val_range. Qed.

Lemma length_be_bytes n z : length (be_bytes n z) = n.
Proof. revert z. induction n; intros; cbn; [done|]. rewrite length_app, IHn. cbn. lia. Qed.

Lemma be_val_be_bytes n z : be_val (be_bytes n z) = z mod 256 ^ (Z.of_nat n).
Proof.
  revert z. induction n as [|n IH]; intros z; cbn [be_bytes].
  - cbn. by rewrite Z.mod_1_r.
  - rewrite be_val_snoc, IH, b2z_z2b, Z.shiftr_div_pow2 by lia.
    rewrite Nat2Z.inj_succ, Z.pow_succ_r by lia.
    rewrite (Z.rem_mul_r z 256) by (pose proof (Z.pow_pos_nonneg 256 (Z.of_nat n)); lia).
    change (2 ^ 8) with 256. lia.
Qed.

Lemma be_val_be_bytes_id n z :
  0 ≤ z < 256 ^ (Z.of_nat n) → be_val (be_bytes n z) = z.
Proof. intros. rewrite be_val_be_bytes. by apply Z.mod_small. Qed.

Lemma be_bytes_be_val l : be_bytes (length l) (be_val l) = l.
Proof.
  induction l as [|b l IH] using rev_ind; [done|].
  rewrite length_app, Nat.add_comm. cbn [be_bytes length Nat.add].
  rewrite be_val_snoc, Z.shiftr_div_pow2 by lia.
  pose proof (b2z_range b).
  assert (((be_val l * 256 + b2z b) / 2 ^ 8) = be_val l) as ->.
  { change (2 ^ 8) with 256. rewrite Z.add_comm, Z.div_add, Z.div_small; lia. }
  rewrite IH. f_equal. f_equal. apply b2z_inj.
  rewrite b2z_z2b, Z.add_comm, Z.mod_add, Z.mod_small; lia.
Qed.

Lemma be_bytes_be_val_len n l : length l = n → be_bytes n (be_val l) = l.
Proof. intros <-. apply be_bytes_be_val. Qed.

(** [BigEndian.UintNN(b[p:])] with the bounds check in front of it *)
Definition take_be {E : Type} (e : E) (n : nat) (b : bytes) : result E (Z * bytes) :=
  '(x, r) ← take_n e n b; Ok (be_val x, r).

Lemma take_be_Ok {E : Type} (e : E) n b z r :
  take_be e n b = Ok (z, r) ↔ b = be_bytes n z ++ r ∧ 0 ≤ z < 256 ^ (Z.of_nat n).
Proof.
  unfold take_be. rewrite bind_Ok. split.
  - intros ([x r'] & Ht & [= <- <-]). apply take_n_Ok in Ht as [-> Hx].
    rewrite be_bytes_be_val_len by done. split; [done|]. by apply be_val_range_len.
  - intros [-> Hz]. exists (be_bytes n z, r).
    rewrite be_val_be_bytes_id by done. split; [|done].
    apply take_n_app, length_be_bytes.
Qed.

(** ** Unsigned varints *)

Definition MaxVarintLen64 : Z := 10.

(** [binary.AppendUvarint(nil, x)]. Ten rounds are enough for a 64-bit value:
    each shifts seven bits out. *)
Fixpoint append_uvarint_fuel (fuel : nat) (x : Z) : bytes :=
  match fuel with
  | O => [z2b x]
  | S fuel' =>
      if 0x80 <=? x
      then z2b (Z.lor (x mod 256) 0x80) :: append_uvarint_fuel fuel' (Z.shiftr x 7)
      else [z2b x]
  end.
Definition append_uvarint (x : Z) : bytes := append_uvarint_fuel 10 x.
#[global] Arguments append_uvarint : simpl never.

(** [binary.Uvarint(buf)]: the value and the number of bytes read; zero when
    the buffer is too small, negative on overflow. *)
Fixpoint uvarint_loop (i x s : Z) (buf : bytes) : Z * Z :=
  match buf with
  | [] => (0, 0)
  | c :: buf' =>
      let b := b2z c in
      if i =? MaxVarintLen64 then (0, - (i + 1))
      else if b <? 0x80 then
        if (i =? MaxVarintLen64 - 1) && (1 <? b) then (0, - (i + 1))
        else (Z.lor x (u64 (Z.shiftl b s)), i + 1)
      else uvarint_loop (i + 1) (Z.lor x (u64 (Z.shiftl (Z.land b 0x7f) s))) (s + 7) buf'
  end.
Definition uvarint (buf : bytes) : Z * Z := uvarint_loop 0 0 0 buf.

(** The value a varint's bytes denote, and which byte strings are varints:
    every byte but the last carries the continuation bit. *)
Fixpoint val7 (l : bytes) : Z :=
  match l with
  | [] => 0
  | c :: l' => b2z c mod 128 + 128 * val7 l'
  end.
Fixpoint is_varint (l : bytes) : Prop :=
  match l with
  | [] => False
  | [c] => b2z c < 128
  | c :: l' => 128 ≤ b2z c ∧ is_varint l'
  end.

Lemma is_varint_cons c l :
  l ≠ [] → is_varint (c :: l) ↔ 128 ≤ b2z c ∧ is_varint l.
Proof. by destruct l. Qed.

Lemma val7_nonneg l : 0 ≤ val7 l.
Proof. induction l as [|c l IH]; cbn; [lia|]. pose proof (Z.mod_pos_bound (b2z c) 128). lia. Qed.

Lemma lor_0x80 x : Z.lor (x mod 256) 0x80 = x mod 128 + 128.
Proof.
  change (Z.lor (x mod 256) (Z.shiftl 1 7) = x mod 128 + 128). rewrite Z.lor_comm.
  replace (x mod 256) with (Z.lor (Z.shiftl ((x / 128) mod 2) 7) (x mod 128)).
  2:{ rewrite lor_shiftl_add; [|lia|apply Z.mod_pos_bound; lia].
      change 256 with (128 * 2). rewrite (Z.rem_mul_r x 128 2) by lia.
      change (2 ^ 7) with 128. ring. }
  rewrite Z.lor_assoc, <- Z.shiftl_lor.
  assert (Z.lor 1 ((x / 128) mod 2) = 1) as ->.
  { pose proof (Z.mod_pos_bound (x / 128) 2 ltac:(lia)).
    assert ((x/128) mod 2 = 0 ∨ (x/128) mod 2 = 1) as [->| ->] by lia; done. }
  rewrite lor_shiftl_add; [change (2 ^ 7) with 128; ring|lia|apply Z.mod_pos_bound; lia].
Qed.

Lemma append_uvarint_fuel_eq fuel x :
  append_uvarint_fuel (S fuel) x =
    if 128 <=? x then z2b (x mod 128 + 128) :: append_uvarint_fuel fuel (x / 128)
    else [z2b x].
Proof.
  cbn [append_uvarint_fuel]. rewrite lor_0x80, Z.shiftr_div_pow2 by lia. done.
Qed.

Lemma pow128_succ (n : nat) : 128 ^ Z.of_nat (S n) = 128 * 128 ^ Z.of_nat n.
Proof. rewrite Nat2Z.inj_succ, Z.pow_succ_r; lia. Qed.

Lemma append_uvarint_fuel_spec fuel x :
  0 ≤ x < 128 ^ Z.of_nat (S fuel) →
  is_varint (append_uvarint_fuel fuel x) ∧ val7 (append_uvarint_fuel fuel x) = x.
Proof.
  revert x. induction fuel as [|fuel IH]; intros x Hx.
  - cbn in *. rewrite b2z_z2b_small by lia. rewrite Z.mod_small; lia.
  - rewrite append_uvarint_fuel_eq. rewrite pow128_succ in Hx.
    destruct (Z.leb_spec 128 x) as [Hge|Hlt].
    + destruct (IH (x / 128)) as [Hv Hval].
      { split; [apply Z.div_pos; lia|]. apply Z.div_lt_upper_bound; lia. }
      pose proof (Z.mod_pos_bound x 128 ltac:(lia)).
      rewrite is_varint_cons by (intros E; by rewrite E in Hv).
      cbn [val7]. rewrite Hval, b2z_z2b_small by lia.
      replace ((x mod 128 + 128) mod 128) with (x mod 128).
      2:{ rewrite <- (Z.mul_1_l 128) at 3. rewrite Z.mod_add by lia.
          rewrite Z.mod_mod by lia. done. }
      pose proof (Z.div_mod x 128). split; [split; [lia|done]|lia].
    + cbn [val7 is_varint]. rewrite b2z_z2b_small by lia.
      rewrite Z.mod_small; lia.
Qed.

Lemma append_uvarint_spec x :
  is_u64 x → is_varint (append_uvarint x) ∧ val7 (append_uvarint x) = x.
Proof. intros. apply append_uvarint_fuel_spec. widths. Qed.

(** The writer never uses more bytes than the value needs ... *)
Lemma append_uvarint_fuel_length fuel x k :
  (1 ≤ k)%nat → 0 ≤ x < 128 ^ Z.of_nat k → (length (append_uvarint_fuel fuel x) ≤ k)%nat.
Proof.
  revert x k. induction fuel as [|fuel IH]; intros x k Hk Hx; [cbn; lia|].
  rewrite append_uvarint_fuel_eq. destruct (Z.leb_spec 128 x); [|cbn; lia].
  destruct k as [|[|k]]; [lia|cbn in Hx; lia|].
  cbn [length]. apply le_n_S, IH; [lia|]. rewrite pow128_succ in Hx.
  split; [apply Z.div_pos; lia|apply Z.div_lt_upper_bound; lia].
Qed.

(** ... and writes the varint of the value with that length. *)
Lemma append_uvarint_fuel_unique fuel l :
  is_varint l → (length l ≤ S fuel)%nat →
  length (append_uvarint_fuel fuel (val7 l)) = length l →
  append_uvarint_fuel fuel (val7 l) = l.
Proof.
  revert l. induction fuel as [|fuel IH]; intros l Hl Hlen Heq.
  - destruct l as [|c [|]]; cbn in *; try lia; try done.
    pose proof (b2z_range c). rewrite Z.mod_small by lia. f_equal.
    rewrite Z.mul_0_r, Z.add_0_r. apply z2b_b2z.
  - rewrite append_uvarint_fuel_eq in *. destruct l as [|c l]; [done|].
    pose proof (b2z_range c) as Hc. cbn [val7] in *.
    destruct l as [|d l].
    + cbn in Hl. cbn [val7] in *. rewrite Z.mul_0_r, Z.add_0_r, Z.mod_small in * by lia.
      destruct (Z.leb_spec 128 (b2z c)); [lia|]. by rewrite z2b_b2z.
    + apply is_varint_cons in Hl as [Hge Hl]; [|done].
      pose proof (val7_nonneg (d :: l)).
      assert (b2z c mod 128 = b2z c - 128) as Hm.
      { rewrite <- (Z.mod_small (b2z c - 128) 128) by lia.
        rewrite <- (Z.mod_add (b2z c - 128) 1 128) by lia. f_equal. lia. }
      rewrite Hm in *. set (v := val7 (d :: l)) in *.
      destruct (Z.leb_spec 128 (b2z c - 128 + 128 * v)); [|cbn in Heq; lia].
      replace ((b2z c - 128 + 128 * v) / 128) with v in *.
      2:{ rewrite Z.mul_comm, Z.div_add, Z.div_small; lia. }
      f_equal.
      * apply b2z_inj. rewrite Z.mul_comm, Z.mod_add, Z.mod_small by lia.
        rewrite b2z_z2b_small; lia.
      * apply IH; [done|cbn in *; lia|fold v; cbn [length] in *; lia].
Qed.

Lemma append_uvarint_unique l :
  is_varint l → (length l ≤ 10)%nat →
  length (append_uvarint (val7 l)) = length l → append_uvarint (val7 l) = l.
Proof. intros. apply append_uvarint_fuel_unique; [done|lia|done]. Qed.

Lemma length_append_uvarint_k v k :
  (1 ≤ k)%nat → 0 ≤ v < 128 ^ Z.of_nat k → (length (append_uvarint v) ≤ k)%nat.
Proof. apply append_uvarint_fuel_length. Qed.

Lemma length_append_uvarint_pos v : (0 < length (append_uvarint v))%nat.
Proof. unfold append_uvarint. cbn. case_match; cbn; lia. Qed.

Lemma length_append_uvarint_le v : is_u64 v → (length (append_uvarint v) ≤ 10)%nat.
Proof. intros. apply length_append_uvarint_k; [lia|widths]. Qed.

(** What the reader accepts: a well-formed varint of at most ten bytes whose
    value fits, followed by anything. *)
Lemma land_0x7f b : Z.land b 0x7f = b mod 128.
Proof. change 0x7f with (Z.ones 7). rewrite Z.land_ones; [done|lia]. Qed.

Lemma pow7_succ i : 0 ≤ i → 2 ^ (7 * (i + 1)) = 128 * 2 ^ (7 * i).
Proof.
  intros. replace (7 * (i + 1)) with (7 + 7 * i) by lia.
  rewrite Z.pow_add_r by lia. done.
Qed.

(** [x | uint64(d)<<s] adds when nothing overflows. *)
Lemma lor_shift_in x d i :
  0 ≤ i → 0 ≤ x < 2 ^ (7 * i) → 0 ≤ d → d * 2 ^ (7 * i) < 2 ^ 64 →
  Z.lor x (u64 (Z.shiftl d (7 * i))) = x + 2 ^ (7 * i) * d.
Proof.
  intros Hi Hx Hd Hlt.
  rewrite u64_id by (unfold is_u64; rewrite Z.shiftl_mul_pow2 by lia; nia).
  rewrite Z.lor_comm, lor_shiftl_add by lia. lia.
Qed.

Lemma uvarint_loop_spec buf i x v n :
  0 ≤ i ≤ 10 → 0 ≤ x < 2 ^ (7 * i) →
  uvarint_loop i x (7 * i) buf = (v, n) → 0 < n →
  ∃ l r, buf = l ++ r ∧ is_varint l ∧ n = i + Z.of_nat (length l) ∧ n ≤ 10 ∧
    v = x + 2 ^ (7 * i) * val7 l ∧ is_u64 v.
Proof.
  revert i x. induction buf as [|c buf IH]; intros i x Hi Hx Hrun Hn; cbn in Hrun.
  { injection Hrun as <- <-. lia. }
  unfold MaxVarintLen64 in Hrun. pose proof (b2z_range c) as Hc.
  destruct (Z.eqb_spec i 10); [injection Hrun as <- <-; lia|].
  assert (Hi9 : 2 ^ (7 * i) ≤ 2 ^ 63) by (apply Z.pow_le_mono_r; lia).
  assert (Hsmall : i ≤ 8 → 2 ^ (7 * i) ≤ 2 ^ 56) by (intros; apply Z.pow_le_mono_r; lia).
  assert (Hp : 0 < 2 ^ (7 * i)) by (apply Z.pow_pos_nonneg; lia).
  destruct (Z.ltb_spec (b2z c) 0x80) as [Hb|Hb].
  - assert (Hfit : (i =? 10 - 1) && (1 <? b2z c) = false → x + 2 ^ (7 * i) * b2z c < 2 ^ 64).
    { destruct (Z.eqb_spec i (10 - 1)) as [->|]; destruct (Z.ltb_spec 1 (b2z c)); cbn [andb];
        intros; try done; nia. }
    destruct ((i =? 10 - 1) && (1 <? b2z c)); [injection Hrun as <- <-; lia|].
    specialize (Hfit eq_refl). rewrite lor_shift_in in Hrun by nia.
    injection Hrun as <- <-. exists [c], buf. cbn [val7 is_varint length].
    rewrite Z.mod_small by lia. repeat split; try done; try lia; try nia.
  - rewrite land_0x7f in Hrun.
    pose proof (Z.mod_pos_bound (b2z c) 128 ltac:(lia)) as Hm.
    destruct (decide (i = 9)) as [->|].
    { (* the tenth byte carries the continuation bit: the eleventh overflows *)
      destruct buf as [|d buf]; cbn in Hrun; injection Hrun as <- <-; lia. }
    specialize (Hsmall ltac:(lia)).
    rewrite lor_shift_in in Hrun by nia.
    replace (7 * i + 7) with (7 * (i + 1)) in Hrun by lia.
    apply IH in Hrun as (l & r & -> & Hl & -> & ? & -> & ?);
      [|lia|rewrite pow7_succ by lia; nia|lia].
    exists (c :: l), r. rewrite is_varint_cons by (by intros ->).
    cbn [val7 length app]. rewrite pow7_succ in * by lia.
    replace (x + 2 ^ (7 * i) * (b2z c mod 128 + 128 * val7 l)) with
      (x + 2 ^ (7 * i) * (b2z c mod 128) + 128 * 2 ^ (7 * i) * val7 l) by ring.
    split_and!; try done; lia.
Qed.

Lemma uvarint_loop_complete l r i x :
  0 ≤ i → is_varint l → i + Z.of_nat (length l) ≤ 10 →
  0 ≤ x < 2 ^ (7 * i) → x + 2 ^ (7 * i) * val7 l < 2 ^ 64 →
  uvarint_loop i x (7 * i) (l ++ r) = (x + 2 ^ (7 * i) * val7 l, i + Z.of_nat (length l)).
Proof.
  revert i x. induction l as [|c l IH]; intros i x Hi Hl Hlen Hx Hv; [done|].
  cbn [app uvarint_loop length val7] in *. unfold MaxVarintLen64.
  pose proof (b2z_range c) as Hc. pose proof (val7_nonneg l) as Hl0.
  destruct (Z.eqb_spec i 10); [lia|].
  assert (Hp : 0 < 2 ^ (7 * i)) by (apply Z.pow_pos_nonneg; lia).
  pose proof (Z.mod_pos_bound (b2z c) 128 ltac:(lia)).
  destruct l as [|d l].
  - cbn in Hl, Hv |- *. rewrite Z.mod_small in * by lia.
    destruct (Z.ltb_spec (b2z c) 0x80); [|lia].
    rewrite lor_shift_in by nia. rewrite Z.mul_0_r, Z.add_0_r in *.
    destruct (Z.eqb_spec i (10 - 1)) as [->|]; destruct (Z.ltb_spec 1 (b2z c)); cbn [andb];
      [change (2 ^ (7 * (10 - 1))) with (2 ^ 63) in *; lia|..]; f_equal; lia.
  - apply is_varint_cons in Hl as [Hge Hl]; [|done].
    destruct (Z.ltb_spec (b2z c) 0x80); [lia|].
    assert (0 ≤ 2 ^ (7 * i) * val7 (d :: l)) by nia.
    rewrite land_0x7f, lor_shift_in by nia.
    replace (7 * i + 7) with (7 * (i + 1)) by lia.
    cbn [length] in *.
    rewrite IH; rewrite ?pow7_succ by lia; [f_equal; [ring|lia]|lia|done|lia|nia|nia].
Qed.

Lemma val7_length_bound l : val7 l < 128 ^ Z.of_nat (length l).
Proof.
  induction l as [|c l IH]; [cbn; lia|]. cbn [val7 length]. rewrite pow128_succ.
  pose proof (Z.mod_pos_bound (b2z c) 128). lia.
Qed.

(** Reading back what was written. *)
Lemma uvarint_append x r :
  is_u64 x →
  uvarint (append_uvarint x ++ r) = (x, Z.of_nat (length (append_uvarint x))).
Proof.
  intros Hx. destruct (append_uvarint_spec x Hx) as [Hv Hval].
  pose proof (length_append_uvarint_le x Hx).
  unfold uvarint. change 0 with (7 * 0) at 3.
  rewrite uvarint_loop_complete by (first [done|lia|rewrite Hval; widths]).
  rewrite Hval. f_equal; lia.
Qed.

Lemma uvarint_sound buf v n :
  uvarint buf = (v, n) → 0 < n →
  ∃ l r, buf = l ++ r ∧ is_varint l ∧ n = Z.of_nat (length l) ∧ n ≤ 10 ∧
    v = val7 l ∧ is_u64 v.
Proof.
  intros H Hn. unfold uvarint in H. change 0 with (7 * 0) in H at 3.
  apply uvarint_loop_spec in H as (l & r & ? & ? & ? & ? & ? & ?); [|lia|cbn; lia|done].
  exists l, r. split_and!; try done; lia.
Qed.

(** [read_uvarint] is the shape every caller gives [binary.Uvarint]:
    [v, n := binary.Uvarint(b[p:]); if n <= 0 { return err }; p += n]. *)
Definition read_uvarint {E : Type} (e : E) (b : bytes) : result E (Z * bytes) :=
  let '(v, n) := uvarint b in
  if n <=? 0 then Err e else Ok (v, drop (Z.to_nat n) b).

Lemma read_uvarint_append {E : Type} (e : E) x r :
  is_u64 x → read_uvarint e (append_uvarint x ++ r) = Ok (x, r).
Proof.
  intros Hx. unfold read_uvarint. rewrite uvarint_append by done.
  pose proof (length_append_uvarint_pos x).
  destruct (Z.leb_spec (Z.of_nat (length (append_uvarint x))) 0); [lia|].
  by rewrite Nat2Z.id, drop_app_length.
Qed.

Lemma read_uvarint_sound {E : Type} (e : E) b v r :
  read_uvarint e b = Ok (v, r) → is_u64 v ∧ ∃ l, b = l ++ r ∧ is_varint l ∧ v = val7 l.
Proof.
  unfold read_uvarint. destruct (uvarint b) as [v' n] eqn:Hu.
  destruct (Z.leb_spec n 0); [done|]. intros [= <- <-].
  apply uvarint_sound in Hu as (l & r & -> & ? & -> & ? & -> & ?); [|done].
  rewrite Nat2Z.id, drop_app_length. eauto.
Qed.

(** [read_uvarint_canonical] is [canonicalUvarint] followed by [p += n]: the
    reader that also refuses any encoding longer than the shortest. The
    packages [vv], [gossip] and [bundle] each carry a copy of it with their own
    errors, which are the two arguments. *)
Definition canonical_uvarint {E : Type} (trunc : E) (noncanon : Z → Z → E)
    (b : bytes) : result E (Z * Z) :=
  let '(v, n) := uvarint b in
  if n <=? 0 then Err trunc
  else
    let want := append_uvarint v in
    if Z.of_nat (length want) =? n then Ok (v, n)
    else Err (noncanon n (Z.of_nat (length want))).

Definition read_uvarint_canonical {E : Type} (trunc : E) (noncanon : Z → Z → E)
    (b : bytes) : result E (Z * bytes) :=
  '(v, n) ← canonical_uvarint trunc noncanon b; Ok (v, drop (Z.to_nat n) b).

Lemma read_uvarint_canonical_Ok {E : Type} (t : E) (nc : Z → Z → E) b v r :
  read_uvarint_canonical t nc b = Ok (v, r) ↔ is_u64 v ∧ b = append_uvarint v ++ r.
Proof.
  unfold read_uvarint_canonical, canonical_uvarint. split.
  - destruct (uvarint b) as [v' n] eqn:Hu.
    destruct (Z.leb_spec n 0); [done|].
    destruct (Z.eqb_spec (Z.of_nat (length (append_uvarint v'))) n) as [Hlen|]; [|done].
    cbn. intros [= <- <-].
    apply uvarint_sound in Hu as (l & r & -> & ? & -> & ? & -> & ?); [|done].
    split; [done|]. rewrite Nat2Z.id, drop_app_length. f_equal. symmetry.
    apply append_uvarint_unique; [done|lia|]. by apply Nat2Z.inj.
  - intros [Hv ->]. rewrite uvarint_append by done.
    pose proof (length_append_uvarint_pos v).
    destruct (Z.leb_spec (Z.of_nat (length (append_uvarint v))) 0); [lia|].
    rewrite Z.eqb_refl. cbn -[drop]. by rewrite Nat2Z.id, drop_app_length.
Qed.

(** ** Signed varints *)

(** [ux := uint64(x) << 1; if x < 0 { ux = ^ux }] *)
Definition zigzag (x : Z) : Z :=
  let ux := u64 (Z.shiftl (u64 x) 1) in
  if x <? 0 then Z.lxor ux (2 ^ 64 - 1) else ux.
(** [x := int64(ux >> 1); if ux&1 != 0 { x = ^x }] *)
Definition unzigzag (ux : Z) : Z :=
  let x := i64 (Z.shiftr ux 1) in
  if Z.land ux 1 =? 0 then x else - x - 1.

Definition append_varint (x : Z) : bytes := append_uvarint (zigzag x).
Definition varint (buf : bytes) : Z * Z :=
  let '(ux, n) := uvarint buf in (unzigzag ux, n).

Lemma lxor_ones64 x : is_u64 x → Z.lxor x (2 ^ 64 - 1) = 2 ^ 64 - 1 - x.
Proof.
  intros Hx. assert (H : Z.lxor x (2 ^ 64 - 1) = Z.ldiff (Z.ones 64) x).
  { change (2 ^ 64 - 1) with (Z.ones 64). apply Z.bits_inj'. intros i Hi.
    rewrite Z.lxor_spec, Z.ldiff_spec. destruct (decide (i < 64)).
    - rewrite Z.ones_spec_low by lia. by destruct (Z.testbit x i).
    - rewrite Z.ones_spec_high by lia. cbn. rewrite xorb_false_r.
      destruct (decide (x = 0)) as [->|]; [apply Z.bits_0|].
      apply Z.bits_above_log2; [widths|].
      pose proof (Z.log2_lt_pow2 x 64). widths. }
  rewrite H. rewrite <- Z.sub_nocarry_ldiff; [done|].
  apply Z.bits_inj'. intros i Hi. rewrite Z.ldiff_spec, Z.bits_0.
  destruct (decide (i < 64)).
  - rewrite Z.ones_spec_low by lia. apply andb_false_r.
  - destruct (decide (x = 0)) as [->|]; [by rewrite Z.bits_0|].
    rewrite Z.bits_above_log2; [done|widths|].
    pose proof (Z.log2_lt_pow2 x 64). widths.
Qed.

Lemma zigzag_spec x : is_i64 x → zigzag x = if x <? 0 then - 2 * x - 1 else 2 * x.
Proof.
  intros Hx. unfold zigzag. rewrite Z.shiftl_mul_pow2 by lia.
  destruct (Z.ltb_spec x 0).
  - rewrite lxor_ones64 by apply u64_is_u64.
    replace (u64 x) with (x + 2 ^ 64).
    2:{ unfold u64. rewrite <- (Z.mod_add x 1) by lia.
        rewrite Z.mod_small; widths. }
    replace (u64 ((x + 2 ^ 64) * 2 ^ 1)) with (2 * x + 2 ^ 64).
    2:{ unfold u64. rewrite <- (Z.mod_add _ (-1)) by lia.
        rewrite Z.mod_small; widths. }
    lia.
  - rewrite (u64_id x) by widths. rewrite u64_id; widths.
Qed.

Lemma zigzag_u64 x : is_i64 x → is_u64 (zigzag x).
Proof. intros Hx. rewrite zigzag_spec by done. destruct (Z.ltb_spec x 0); widths. Qed.

Lemma land_1 x : Z.land x 1 = x mod 2.
Proof. change 1 with (Z.ones 1). rewrite Z.land_ones; [done|lia]. Qed.

Lemma unzigzag_spec ux : is_u64 ux →
  unzigzag ux = if Z.even ux then ux / 2 else - (ux / 2) - 1.
Proof.
  intros. unfold unzigzag. rewrite land_1, Z.shiftr_div_pow2 by lia.
  change (2 ^ 1) with 2. rewrite i64_id.
  2:{ unfold_widths. split; [apply Z.le_trans with 0; [lia|apply Z.div_pos; lia]|].
      apply Z.div_lt_upper_bound; lia. }
  pose proof (Zmod_even ux). destruct (Z.even ux); rewrite H0; done.
Qed.

Lemma unzigzag_zigzag x : is_i64 x → unzigzag (zigzag x) = x.
Proof.
  intros Hx. rewrite unzigzag_spec by (by apply zigzag_u64).
  rewrite zigzag_spec by done. destruct (Z.ltb_spec x 0).
  - replace (-2 * x - 1) with (1 + 2 * (- x - 1)) by lia.
    rewrite Z.even_add_mul_2. cbn [Z.even].
    rewrite (Z.mul_comm 2), Z.div_add by lia. change (1 / 2) with 0. lia.
  - rewrite Z.even_mul. cbn [Z.even orb]. rewrite Z.mul_comm, Z.div_mul by lia. done.
Qed.

Lemma zigzag_unzigzag ux : is_u64 ux → is_i64 (unzigzag ux) ∧ zigzag (unzigzag ux) = ux.
Proof.
  intros Hu. rewrite unzigzag_spec by done.
  pose proof (Z.div_mod ux 2 ltac:(lia)) as Hdm. rewrite Zmod_even in Hdm.
  assert (0 ≤ ux / 2 < 2 ^ 63).
  { split; [apply Z.div_pos; widths|apply Z.div_lt_upper_bound; widths]. }
  destruct (Z.even ux).
  - assert (is_i64 (ux / 2)) by widths. rewrite zigzag_spec by done.
    destruct (Z.ltb_spec (ux / 2) 0); [lia|]. split; [done|lia].
  - assert (is_i64 (- (ux / 2) - 1)) by widths. rewrite zigzag_spec by done.
    destruct (Z.ltb_spec (- (ux / 2) - 1) 0); [|lia]. split; [done|lia].
Qed.

(** [canonicalVarint] followed by [p += n]. *)
Definition canonical_varint {E : Type} (trunc : E) (noncanon : Z → Z → E)
    (b : bytes) : result E (Z * Z) :=
  let '(v, n) := varint b in
  if n <=? 0 then Err trunc
  else
    let want := append_varint v in
    if Z.of_nat (length want) =? n then Ok (v, n)
    else Err (noncanon n (Z.of_nat (length want))).

Definition read_varint_canonical {E : Type} (trunc : E) (noncanon : Z → Z → E)
    (b : bytes) : result E (Z * bytes) :=
  '(v, n) ← canonical_varint trunc noncanon b; Ok (v, drop (Z.to_nat n) b).

(** The signed reader is the unsigned one followed by the zigzag inverse. *)
Lemma read_varint_canonical_eq {E : Type} (t : E) (nc : Z → Z → E) b :
  read_varint_canonical t nc b =
    '(ux, r) ← read_uvarint_canonical t nc b; Ok (unzigzag ux, r).
Proof.
  unfold read_varint_canonical, canonical_varint, varint,
    read_uvarint_canonical, canonical_uvarint.
  destruct (uvarint b) as [ux n] eqn:Hub.
  destruct (Z.leb_spec n 0) as [|Hn]; [done|].
  apply uvarint_sound in Hub as (l & r & _ & _ & _ & _ & _ & Hux); [|done].
  destruct (zigzag_unzigzag ux Hux) as [_ Hz]. unfold append_varint. rewrite Hz.
  by case_match.
Qed.

Lemma read_varint_canonical_Ok {E : Type} (t : E) (nc : Z → Z → E) b v r :
  read_varint_canonical t nc b = Ok (v, r) ↔ is_i64 v ∧ b = append_varint v ++ r.
Proof.
  rewrite read_varint_canonical_eq, bind_Ok. split.
  - intros ([ux r'] & [Hux ->]%read_uvarint_canonical_Ok & [= <- <-]).
    destruct (zigzag_unzigzag ux Hux) as [? Hz]. unfold append_varint. by rewrite Hz.
  - intros [Hv ->]. exists (zigzag v, r). rewrite unzigzag_zigzag by done.
    split; [|done]. apply read_uvarint_canonical_Ok. split; [by apply zigzag_u64|done].
Qed.

#[global] Arguments uvarint : simpl never.
#[global] Arguments append_varint : simpl never.
#[global] Arguments varint : simpl never.
#[export] Hint Rewrite @take_be_Ok @read_uvarint_canonical_Ok @read_varint_canonical_Ok
  : parse.
Create Rewrite HintDb len.
#[export] Hint Rewrite length_be_bytes @length_vec_to_list @length_app : len.

Ltac parse_step ::=
  match goal with
  | H : ∃ _, _ |- _ => destruct H
  | H : _ ∧ _ |- _ => destruct H
  | H : (_, _) = (_, _) |- _ => injection H as H; subst
  | H : Ok _ = Ok _ |- _ => injection H as H; subst
  | H : Err _ = Ok _ |- _ => discriminate H
  | H : _ ≫= _ = Ok _ |- _ => apply bind_Ok in H
  | H : require _ _ = Ok _ |- _ => apply require_Ok in H
  | H : wrap_err _ _ = Ok _ |- _ => apply wrap_err_Ok in H
  | H : take_n _ _ _ = Ok (_, _) |- _ => apply take_n_Ok in H
  | H : take_byte _ _ = Ok (_, _) |- _ => apply take_byte_Ok in H
  | H : take_arr _ _ _ = Ok (_, _) |- _ => apply take_arr_Ok in H
  | H : take_be _ _ _ = Ok (_, _) |- _ => apply take_be_Ok in H
  | H : read_uvarint_canonical _ _ _ = Ok (_, _) |- _ => apply read_uvarint_canonical_Ok in H
  | H : read_varint_canonical _ _ _ = Ok (_, _) |- _ => apply read_varint_canonical_Ok in H
  | p : (_ * _)%type |- _ => destruct p
  | u : unit |- _ => destruct u
  end.
