(* ===== verification/Order.v ===== *)
(** * Ordered keys and sorted lists

    Go's [sort.Slice] over a strict total order of keys, shared by the wire
    codecs that keep their entries ascending. [sort.Slice] is not stable; where
    keys do not repeat the result is unique, which is what the lemmas use. *)

From S2P Require Import Prelude.

(** A [less] function that orders its keys totally. *)
Class StrictTotal {K : Type} (lt : K → K → bool) := {
  lt_irrefl a : lt a a = false;
  lt_trans a b c : lt a b = true → lt b c = true → lt a c = true;
  lt_total a b : lt a b = true ∨ a = b ∨ lt b a = true
}.

Definition less_arr {n : nat} (a b : arr n) : bool :=
  less_bytes (vec_to_list a) (vec_to_list b).

#[export] Instance less_arr_total n : StrictTotal (@less_arr n).
Proof.
  split; unfold less_arr.
  - intros. apply less_bytes_irrefl.
  - intros a b c. apply less_bytes_trans.
  - intros a b. destruct (less_bytes_total (vec_to_list a) (vec_to_list b)) as [?|[?|?]]; auto.
    { by rewrite !length_vec_to_list. }
    right; left. by apply vec_to_list_inj2.
Qed.

#[export] Instance ltb_total : StrictTotal Z.ltb.
Proof. split; intros *; rewrite ?Z.ltb_lt, ?Z.ltb_ge; lia. Qed.

(** First component decides, then the second:
    [if a.X != b.X { return less(a.X, b.X) }; return a.Y < b.Y]. *)
Definition less_pair {K L : Type} `{EqDecision K} (ltK : K → K → bool) (ltL : L → L → bool)
    (a b : K * L) : bool :=
  if decide (a.1 = b.1) then ltL a.2 b.2 else ltK a.1 b.1.

#[export] Instance less_pair_total {K L : Type} `{EqDecision K} (ltK : K → K → bool)
    (ltL : L → L → bool) `{!StrictTotal ltK, !StrictTotal ltL} :
  StrictTotal (less_pair ltK ltL).
Proof.
  split; unfold less_pair.
  - intros [a x]. cbn. rewrite decide_True by done. apply lt_irrefl.
  - intros [a x] [b y] [c z]. cbn. repeat case_decide; subst; try done; eauto using lt_trans.
    intros H1 H2. pose proof (lt_trans _ _ _ H1 H2) as Hx. by rewrite lt_irrefl in Hx.
  - intros [a x] [b y]. cbn. destruct (decide (a = b)) as [->|Hne].
    + rewrite decide_True by done. destruct (lt_total x y) as [?|[->|?]]; auto.
    + rewrite decide_False by done. destruct (lt_total a b) as [?|[?|?]]; [auto|done|auto].
Qed.

Section sort_by.
Context {A K : Type} (key : A → K) (lt : K → K → bool) `{HK : !StrictTotal lt}.

Set Default Proof Using "All".

Definition le_key (a b : A) : Prop := lt (key b) (key a) = false.
#[export] Instance le_key_dec a b : Decision (le_key a b).
Proof. unfold le_key. apply _. Defined.

Definition lt_key (a b : A) : Prop := lt (key a) (key b) = true.

Definition sort_by (l : list A) : list A := merge_sort le_key l.

(** The decoders' test: every key greater than the one before it. *)
Fixpoint ascending (prev : option K) (l : list A) : bool :=
  match l with
  | [] => true
  | a :: l' => match prev with None => true | Some p => lt p (key a) end &&
               ascending (Some (key a)) l'
  end.

#[export] Instance le_key_total : Total le_key.
Proof.
  intros a b. unfold le_key. destruct (lt (key b) (key a)) eqn:E1; [|auto]. right.
  destruct (lt (key a) (key b)) eqn:E2; [|done].
  pose proof (lt_trans _ _ _ E1 E2) as H. by rewrite lt_irrefl in H.
Qed.

Lemma le_key_cases a b : le_key a b ↔ lt_key a b ∨ key a = key b.
Proof.
  unfold le_key, lt_key. split.
  - intros H. destruct (lt_total (key a) (key b)) as [?|[?|?]]; auto. congruence.
  - intros [H| ->]; [|apply lt_irrefl]. destruct (lt (key b) (key a)) eqn:E; [|done].
    pose proof (lt_trans _ _ _ E H) as H'. by rewrite lt_irrefl in H'.
Qed.

#[export] Instance le_key_trans : Transitive le_key.
Proof.
  intros a b c. rewrite !le_key_cases. unfold lt_key.
  intros [H1|H1] [H2|H2].
  - left. by eapply lt_trans.
  - left. by rewrite <- H2.
  - left. by rewrite H1.
  - right. congruence.
Qed.

Lemma sort_by_Permutation l : sort_by l ≡ₚ l.
Proof. apply merge_sort_Permutation. Qed.

Lemma length_sort_by l : length (sort_by l) = length l.
Proof. by rewrite sort_by_Permutation. Qed.

Lemma sort_by_elem l x : x ∈ sort_by l ↔ x ∈ l.
Proof. by rewrite sort_by_Permutation. Qed.

Lemma NoDup_key_inj l a b : NoDup (key <$> l) → a ∈ l → b ∈ l → key a = key b → a = b.
Proof.
  intros Hnd Ha Hb E. apply list_elem_of_lookup in Ha as [i Hi]. apply list_elem_of_lookup in Hb as [j Hj].
  assert (i = j) as ->; [|congruence].
  eapply NoDup_lookup; [apply Hnd| |]; rewrite list_lookup_fmap; [by rewrite Hi|by rewrite Hj, E].
Qed.

(** Keys that do not repeat have one sorted order. *)
Lemma sort_by_unique l1 l2 :
  NoDup (key <$> l1) → StronglySorted le_key l2 → l1 ≡ₚ l2 → sort_by l1 = l2.
Proof.
  intros Hnd Hs Hp. eapply (StronglySorted_unique_strong le_key).
  - intros x y Hx Hy Hxy Hyx. apply (NoDup_key_inj l1); [done| | |].
    + by rewrite <- sort_by_Permutation.
    + by rewrite Hp.
    + apply le_key_cases in Hxy as [Hxy|?]; [|done]. unfold le_key, lt_key in *. congruence.
  - apply (StronglySorted_merge_sort le_key).
  - done.
  - by rewrite sort_by_Permutation.
Qed.

Lemma lt_sorted_le l : StronglySorted lt_key l → StronglySorted le_key l.
Proof.
  induction 1 as [|a l Hl IH Ha]; constructor; [done|].
  eapply Forall_impl; [done|]. intros b Hb. apply le_key_cases. auto.
Qed.

Lemma lt_sorted_NoDup l : StronglySorted lt_key l → NoDup (key <$> l).
Proof.
  induction 1 as [|a l Hl IH Ha]; cbn; constructor; [|done].
  intros (b & E & Hb)%list_elem_of_fmap. rewrite Forall_forall in Ha. apply Ha in Hb.
  unfold lt_key in Hb. by rewrite E, lt_irrefl in Hb.
Qed.

Lemma sort_by_id l : StronglySorted lt_key l → sort_by l = l.
Proof. intros H. apply sort_by_unique; auto using lt_sorted_le, lt_sorted_NoDup. Qed.

Lemma sort_by_strict l : NoDup (key <$> l) → StronglySorted lt_key (sort_by l).
Proof.
  intros Hnd. rewrite <- sort_by_Permutation in Hnd.
  pose proof (StronglySorted_merge_sort le_key l) as Hs. fold (sort_by l) in Hs.
  induction Hs as [|a l' Hl IH Ha]; [constructor|]. cbn in Hnd. apply NoDup_cons in Hnd as [Hni Hnd].
  constructor; [by apply IH|]. rewrite Forall_forall in *. intros b Hb.
  destruct (proj1 (le_key_cases a b) (Ha b Hb)) as [?|E]; [done|].
  exfalso. apply Hni. rewrite E. by apply list_elem_of_fmap_2.
Qed.

(** Any order the map is walked in sorts to the same list. *)
Lemma sort_by_perm_eq l1 l2 : NoDup (key <$> l1) → l1 ≡ₚ l2 → sort_by l1 = sort_by l2.
Proof.
  intros Hnd Hp. apply sort_by_unique; [done|apply (StronglySorted_merge_sort le_key)|].
  by rewrite sort_by_Permutation.
Qed.

Lemma ascending_from_sorted prev l :
  ascending prev l = true ↔
  StronglySorted lt_key l ∧ (∀ p a, prev = Some p → a ∈ l → lt p (key a) = true).
Proof.
  revert prev. induction l as [|a l IH]; intros prev; cbn.
  - split; [|done]. intros _. split; [constructor|]. intros ? ? _ H. by apply elem_of_nil in H.
  - rewrite andb_true_iff, IH. split.
    + intros [Hp [Hs Hall]]. split.
      * constructor; [done|]. apply Forall_forall. intros x Hx. by apply Hall.
      * intros p x -> [->|Hx]%elem_of_cons; [done|]. apply lt_trans with (key a); [done|by apply Hall].
    + intros [Hs Hp]. apply StronglySorted_inv in Hs as [Hs Ha]. rewrite Forall_forall in Ha.
      split_and!; [|done|intros p x [= <-] Hx; by apply Ha].
      destruct prev as [p|]; [|done]. apply (Hp p); [done|constructor].
Qed.

Lemma ascending_sorted l : ascending None l = true ↔ StronglySorted lt_key l.
Proof. rewrite ascending_from_sorted. naive_solver. Qed.
End sort_by.
