(* ===== verification/Float64.v ===== *)
(** * Go's float64

    IEEE 754 binary64 on the Standard Library's executable [SpecFloat], with the
    conversions the code uses. An operation rounds to nearest even, once: the
    compiler's freedom to fuse a product into a sum is not modelled. *)

From S2P Require Import Prelude.
From Stdlib Require Import Floats.SpecFloat.

Abbreviation float64 := spec_float.

Definition fadd : float64 → float64 → float64 := SFadd 53 1024.
Definition fsub : float64 → float64 → float64 := SFsub 53 1024.
Definition fmul : float64 → float64 → float64 := SFmul 53 1024.
Definition fdiv : float64 → float64 → float64 := SFdiv 53 1024.
Definition flt : float64 → float64 → bool := SFltb.
Definition fle : float64 → float64 → bool := SFleb.
Definition feq : float64 → float64 → bool := SFeqb.

(** [float64(n)] *)
Definition of_int (n : Z) : float64 := binary_normalize 53 1024 n 0 false.

(** A decimal constant [n/d]: the quotient of two integers binary64 holds
    exactly, which rounds once, as the compiler does. *)
Definition dec (n d : Z) : float64 := fdiv (of_int n) (of_int d).

Definition f0 : float64 := S754_zero false.

(** [int64(x)] truncates toward zero; out of range it is what amd64 gives. *)
Definition truncate (x : float64) : option Z :=
  match x with
  | S754_zero _ => Some 0
  | S754_finite s m e =>
      let a := if 0 <=? e then Z.pos m * 2 ^ e else Z.pos m / 2 ^ (- e) in
      Some (if s then - a else a)
  | _ => None
  end.
Definition to_int64 (x : float64) : Z :=
  match truncate x with
  | Some z => if decide (is_i64 z) then z else - 2 ^ 63
  | None => - 2 ^ 63
  end.

Lemma to_int64_range x : is_i64 (to_int64 x).
Proof. unfold to_int64. repeat case_match; try done; widths. Qed.

(** Neither NaN nor below zero. *)
Definition nonneg (x : float64) : bool :=
  match x with
  | S754_zero _ => true
  | S754_infinity s => negb s
  | S754_nan => false
  | S754_finite s _ _ => negb s
  end.

(** [math.Ceil]: the truncated integer, or the next one; both are held exactly. *)
Definition fceil (x : float64) : float64 :=
  match truncate x with
  | Some t => if flt (of_int t) x then of_int (t + 1) else of_int t
  | None => x
  end.

(** [math.Max(x, 0)] *)
Definition fmax0 (x : float64) : float64 :=
  match x with
  | S754_nan => S754_nan
  | _ => if flt f0 x then x else f0
  end.
