(* ===== verification/Identity.v ===== *)
(** * Node identity (internal/identity)

    Node IDs, their derivation from a public key, and the Crockford base32
    rendering of [base32.go]. BLAKE3 is not part of the repository: it is the
    parameter [blake3] below. *)

From stdpp Require Import strings.
From S2P Require Import Prelude Binary.

(** The hash the code imports, [blake3.Sum256]. *)
Class Blake3 := blake3_sum256 : bytes → arr 32.

(** A Go string constant, as its bytes. *)
Definition str (s : string) : bytes := String.list_byte_of_string s.

(** ** Node IDs (nodeid.go) *)

Definition NodeIDLen : nat := 8.
Definition NodeID : Type := arr 8.

#[export] Instance NodeID_eq_dec : EqDecision NodeID := vec_dec.
#[export] Instance NodeID_countable : Countable NodeID := arr_countable 8.

Definition NodeIDFromPublicKey `{Blake3} (pub : bytes) : NodeID :=
  arr_of 8 (take NodeIDLen (vec_to_list (blake3_sum256 pub))).

Definition Matches `{Blake3} (id : NodeID) (pub : bytes) : bool :=
  bool_decide (id = NodeIDFromPublicKey pub).

Definition zero_id : NodeID := zero_arr 8.
Definition IsZero (id : NodeID) : bool := bool_decide (id = zero_id).

(** The byte-wise comparison the packages [vv], [gossip] and [meshlink] each
    spell out: the first byte that differs decides. *)
Definition less_id (a b : NodeID) : bool := less_bytes (vec_to_list a) (vec_to_list b).

(** Ordered node IDs, as a strict total order. *)
Lemma less_id_irrefl a : less_id a a = false.
Proof. apply less_bytes_irrefl. Qed.
Lemma less_id_trans a b c : less_id a b = true → less_id b c = true → less_id a c = true.
Proof. apply less_bytes_trans. Qed.
Lemma less_id_total a b : less_id a b = true ∨ a = b ∨ less_id b a = true.
Proof.
  destruct (less_bytes_total (vec_to_list a) (vec_to_list b)) as [?|[E|?]]; auto.
  { by rewrite !length_vec_to_list. }
  right; left. by apply vec_to_list_inj2.
Qed.

(** ** Crockford base32 (base32.go) *)

Definition crockfordAlphabet : bytes := str "0123456789ABCDEFGHJKMNPQRSTVWXYZ".

Definition lowerOf (c : byte) : byte :=
  if (0x41 <=? b2z c) && (b2z c <=? 0x5a) then z2b (b2z c + 32) else c.

Fixpoint alphabet_index (i : Z) (l : bytes) (c : byte) : Z :=
  match l with
  | [] => -1
  | a :: l' =>
      if bool_decide (c = a) || bool_decide (c = lowerOf a) then i
      else alphabet_index (i + 1) l' c
  end.

(** The decode table, an entry at a time: the alphabet in both cases, then the
    letters read as the digits they resemble. -1 marks an invalid character. *)
Definition crockfordDecode (c : byte) : Z :=
  if bool_decide (c ∈ str "IiLl") then 1
  else if bool_decide (c ∈ str "Oo") then 0
  else alphabet_index 0 crockfordAlphabet c.

Definition base32Len (n : nat) : nat := (n * 8 + 4) `div` 5.

Definition symbol (v : Z) : byte := nth (Z.to_nat v) crockfordAlphabet Byte.x00.
#[global] Arguments symbol : simpl never.
#[global] Arguments crockfordDecode : simpl never.
#[global] Arguments crockfordAlphabet : simpl never.

(** [for bits >= 5 { bits -= 5; out = append(out, alphabet[(acc>>bits)&0x1f]) }]:
    the symbols appended and the bits left. Two rounds are enough, as fewer than
    five bits were pending before the eight of a byte came in. *)
Fixpoint emit5 (fuel : nat) (acc bits : Z) : bytes * Z :=
  match fuel with
  | O => ([], bits)
  | S f =>
      if 5 <=? bits then
        let bits := bits - 5 in
        let '(o, rem) := emit5 f acc bits in
        (symbol (Z.land (Z.shiftr acc bits) 0x1f) :: o, rem)
      else ([], bits)
  end.

Fixpoint encode_loop (acc bits : Z) (b : bytes) : bytes :=
  match b with
  | [] =>
      if 0 <? bits
      then [symbol (Z.land (u16 (Z.shiftl acc (5 - bits))) 0x1f)] else []
  | c :: b' =>
      let acc := Z.lor (u16 (Z.shiftl acc 8)) (b2z c) in
      let '(o, rem) := emit5 2 acc (bits + 8) in
      o ++ encode_loop acc rem b'
  end.

Definition EncodeBase32 (b : bytes) : bytes :=
  match b with [] => [] | _ => encode_loop 0 0 b end.

Inductive base32_error :=
| InvalidCharacter (c : byte)
| NoCharacters
| StrayBits (bits : Z).

(** The first loop: drop the separators, refuse anything not in the table. *)
Fixpoint clean_loop (s : bytes) : result base32_error bytes :=
  match s with
  | [] => Ok []
  | c :: s' =>
      if bool_decide (c = Byte.x2d) || bool_decide (c = Byte.x20) || bool_decide (c = Byte.x09)
      then clean_loop s'
      else if crockfordDecode c <? 0 then Err (InvalidCharacter c)
      else r ← clean_loop s'; Ok (c :: r)
  end.

(** The second loop, with the check on the bits left over after it. *)
Fixpoint decode_loop (acc bits : Z) (s : bytes) : result base32_error bytes :=
  match s with
  | [] =>
      if (0 <? bits) && negb (Z.land acc (Z.shiftl 1 bits - 1) =? 0)
      then Err (StrayBits bits) else Ok []
  | c :: s' =>
      let acc := Z.lor (u16 (Z.shiftl acc 5)) (crockfordDecode c) in
      let bits := bits + 5 in
      if 8 <=? bits then
        let bits := bits - 8 in
        r ← decode_loop acc bits s'; Ok (z2b (Z.shiftr acc bits) :: r)
      else decode_loop acc bits s'
  end.

Definition DecodeBase32 (s : bytes) : result base32_error bytes :=
  clean ← clean_loop s;
  match clean with
  | [] => Err NoCharacters
  | _ => decode_loop 0 0 clean
  end.

(** [Group] inserts hyphens: 13 characters become 4-4-5. *)
Definition Group (s : bytes) : bytes :=
  if decide (length s = 13)%nat then
    take 4 s ++ [Byte.x2d] ++ take 4 (drop 4 s) ++ [Byte.x2d] ++ drop 8 s
  else s.

Definition NodeID_String (id : NodeID) : bytes := Group (EncodeBase32 (vec_to_list id)).
Definition NodeID_Compact (id : NodeID) : bytes := EncodeBase32 (vec_to_list id).
Definition NodeID_Short (id : NodeID) : bytes := take 8 (EncodeBase32 (vec_to_list id)).

(** ** Bit strings: what the two loops compute *)

(** Most significant bit first. *)
Fixpoint bits_of (w : nat) (z : Z) : list bool :=
  match w with
  | O => []
  | S w' => Z.testbit z (Z.of_nat w') :: bits_of w' z
  end.
Fixpoint bits_val (l : list bool) : Z :=
  match l with
  | [] => 0
  | b :: l' => Z.b2z b * 2 ^ Z.of_nat (length l') + bits_val l'
  end.

Definition byte_bits (b : bytes) : list bool := b ≫= λ c, bits_of 8 (b2z c).
Definition symbol_bits (s : bytes) : list bool := s ≫= λ c, bits_of 5 (crockfordDecode c).

Lemma byte_bits_cons c b : byte_bits (c :: b) = bits_of 8 (b2z c) ++ byte_bits b.
Proof. done. Qed.
Lemma symbol_bits_cons c s :
  symbol_bits (c :: s) = bits_of 5 (crockfordDecode c) ++ symbol_bits s.
Proof. done. Qed.
Lemma symbol_bits_app s t : symbol_bits (s ++ t) = symbol_bits s ++ symbol_bits t.
Proof. apply bind_app. Qed.

Lemma length_bits_of w z : length (bits_of w z) = w.
Proof. induction w; cbn; congruence. Qed.

Lemma bits_val_range l : 0 ≤ bits_val l < 2 ^ Z.of_nat (length l).
Proof.
  induction l as [|b l IH]; cbn [bits_val length]; [cbn; lia|].
  rewrite Nat2Z.inj_succ, Z.pow_succ_r by lia. destruct b; cbn [Z.b2z]; lia.
Qed.

Lemma bits_val_app l k : bits_val (l ++ k) = bits_val l * 2 ^ Z.of_nat (length k) + bits_val k.
Proof.
  induction l as [|b l IH]; cbn [bits_val app length]; [lia|].
  rewrite IH, length_app, Nat2Z.inj_add, Z.pow_add_r by lia. lia.
Qed.

Lemma bits_val_of w z : bits_val (bits_of w z) = z mod 2 ^ Z.of_nat w.
Proof.
  induction w as [|w IH]; cbn [bits_of bits_val]; [cbn; by rewrite Z.mod_1_r|].
  rewrite IH, length_bits_of, Nat2Z.inj_succ, Z.pow_succ_r, Z.mul_comm by lia.
  rewrite (Z.mul_comm 2), Z.rem_mul_r by (pose proof (Z.pow_pos_nonneg 2 (Z.of_nat w)); lia).
  rewrite Z.testbit_spec' by lia. lia.
Qed.

Lemma bits_of_low n w x y :
  (w ≤ n)%nat → bits_of w (x * 2 ^ Z.of_nat n + y) = bits_of w y.
Proof.
  induction w as [|w IHw]; intros Hle; [done|]. cbn. f_equal; [|apply IHw; lia].
  rewrite <- (Z.mod_pow2_bits_low (x * 2 ^ Z.of_nat n + y) (Z.of_nat n)) by lia.
  rewrite Z.add_comm, Z.mod_add, Z.mod_pow2_bits_low by
    (first [lia|apply Z.pow_nonzero; lia]). done.
Qed.

Lemma bits_of_val l : bits_of (length l) (bits_val l) = l.
Proof.
  induction l as [|b l IH]; cbn [bits_val length bits_of]; [done|].
  pose proof (bits_val_range l). f_equal.
  - apply Z.b2z_inj. rewrite Z.testbit_spec' by lia.
    rewrite Z.div_add_l, Z.div_small, Z.add_0_r by lia. by destruct b.
  - transitivity (bits_of (length l) (bits_val l)); [|done]. by apply bits_of_low.
Qed.

Lemma bits_of_0 w : bits_of w 0 = repeat false w.
Proof. induction w as [|w IHw]; cbn; [done|]. by rewrite IHw, Z.bits_0. Qed.

Lemma bits_val_inj l k : length l = length k → bits_val l = bits_val k → l = k.
Proof. intros Hl Hv. rewrite <- (bits_of_val l), <- (bits_of_val k). congruence. Qed.

(** [pending acc p]: the low bits of the accumulator are the bit string [p]. *)
Definition pending (acc : Z) (p : list bool) : Prop :=
  0 ≤ acc ∧ acc mod 2 ^ Z.of_nat (length p) = bits_val p.

(** Pushing [w] bits into an accumulator of [n]. *)
Lemma pending_push_mod n acc p w c :
  pending acc p → (length p + w ≤ n)%nat → 0 ≤ c < 2 ^ Z.of_nat w →
  pending (Z.lor (Z.shiftl acc (Z.of_nat w) mod 2 ^ Z.of_nat n) c) (p ++ bits_of w c).
Proof.
  intros [H0 Hp] Hw Hc. unfold pending.
  rewrite Z.shiftl_mul_pow2 by lia.
  pose proof (Z.pow_pos_nonneg 2 (Z.of_nat w) ltac:(lia) ltac:(lia)) as Hpw.
  assert (Hsplit : (acc * 2 ^ Z.of_nat w) mod 2 ^ Z.of_nat n =
    Z.shiftl (acc mod 2 ^ (Z.of_nat n - Z.of_nat w)) (Z.of_nat w)).
  { rewrite Z.shiftl_mul_pow2 by lia.
    replace (2 ^ Z.of_nat n) with (2 ^ (Z.of_nat n - Z.of_nat w) * 2 ^ Z.of_nat w)
      by (rewrite <- Z.pow_add_r by lia; f_equal; lia).
    apply Zmult_mod_distr_r. }
  rewrite Hsplit, lor_shiftl_add by lia.
  assert (0 < 2 ^ (Z.of_nat n - Z.of_nat w)) by (apply Z.pow_pos_nonneg; lia).
  pose proof (Z.mod_pos_bound acc (2 ^ (Z.of_nat n - Z.of_nat w)) ltac:(lia)).
  split; [nia|].
  rewrite bits_val_app, bits_val_of, length_app, length_bits_of, (Z.mod_small c) by lia.
  rewrite Nat2Z.inj_add, Z.pow_add_r, (Z.mul_comm (2 ^ Z.of_nat (length p))) by lia.
  pose proof (Z.pow_pos_nonneg 2 (Z.of_nat (length p)) ltac:(lia) ltac:(lia)).
  rewrite Z.rem_mul_r by lia.
  rewrite (Z.add_comm (_ * _) c), Z.mod_add, Z.div_add, (Z.mod_small c), (Z.div_small c) by lia.
  rewrite Z.add_0_l, <- Hp.
  replace (2 ^ (Z.of_nat n - Z.of_nat w)) with
    (2 ^ Z.of_nat (length p) * 2 ^ (Z.of_nat n - Z.of_nat w - Z.of_nat (length p))) at 1
    by (rewrite <- Z.pow_add_r by lia; f_equal; lia).
  rewrite Z.mod_mod_divide by (exists (2 ^ (Z.of_nat n - Z.of_nat w - Z.of_nat (length p))); lia). lia.
Qed.

Lemma pending_push acc p w c :
  pending acc p → (length p + w ≤ 16)%nat → 0 ≤ c < 2 ^ Z.of_nat w →
  pending (Z.lor (u16 (Z.shiftl acc (Z.of_nat w))) c) (p ++ bits_of w c).
Proof. exact (pending_push_mod 16 acc p w c). Qed.

Lemma pending_pop acc h t :
  pending acc (h ++ t) →
  Z.shiftr acc (Z.of_nat (length t)) mod 2 ^ Z.of_nat (length h) = bits_val h ∧ pending acc t.
Proof.
  intros [H0 Hp]. rewrite length_app, Nat2Z.inj_add, Z.pow_add_r, bits_val_app in Hp by lia.
  pose proof (Z.pow_pos_nonneg 2 (Z.of_nat (length t)) ltac:(lia) ltac:(lia)).
  pose proof (Z.pow_pos_nonneg 2 (Z.of_nat (length h)) ltac:(lia) ltac:(lia)).
  rewrite (Z.mul_comm (2 ^ _)), Z.rem_mul_r in Hp by lia.
  rewrite Z.shiftr_div_pow2 by lia.
  pose proof (bits_val_range t). pose proof (Z.mod_pos_bound acc (2 ^ Z.of_nat (length t)) ltac:(lia)).
  destruct (Z.div_mod_unique (2 ^ Z.of_nat (length t))
    (acc / 2 ^ Z.of_nat (length t) mod 2 ^ Z.of_nat (length h)) (bits_val h)
    (acc mod 2 ^ Z.of_nat (length t)) (bits_val t)) as [Hh Ht]; [lia..|].
  unfold pending. done.
Qed.

(** *** The symbols of the alphabet *)

Definition valid_symbol (c : byte) : Prop :=
  0 ≤ crockfordDecode c < 32 ∧ c ≠ Byte.x2d ∧ c ≠ Byte.x20 ∧ c ≠ Byte.x09.
#[export] Instance valid_symbol_dec c : Decision (valid_symbol c).
Proof. unfold valid_symbol. apply _. Defined.

Lemma symbol_table :
  Forall (λ v, crockfordDecode (symbol v) = v ∧ valid_symbol (symbol v)) (seqZ 0 32).
Proof. apply (bool_decide_unpack _). by vm_compute. Qed.

Lemma symbol_ok v : 0 ≤ v < 32 → crockfordDecode (symbol v) = v ∧ valid_symbol (symbol v).
Proof. intros. pose proof symbol_table as H0. rewrite Forall_forall in H0. apply H0, elem_of_seqZ. lia. Qed.

Lemma crockfordDecode_range c : crockfordDecode c < 32.
Proof. destruct c; vm_compute; reflexivity. Qed.

Lemma repeat_false_app k l :
  bits_val (repeat false k ++ l) = bits_val l.
Proof. induction k as [|k IH]; cbn; [done|]. rewrite IH. lia. Qed.

Lemma bits_val_zero l : bits_val l = 0 ↔ l = repeat false (length l).
Proof.
  split.
  - intros H. apply bits_val_inj; [by rewrite repeat_length|].
    rewrite H, <- (app_nil_r (repeat _ _)). by rewrite repeat_false_app.
  - intros ->. by rewrite <- (app_nil_r (repeat _ _)), repeat_false_app.
Qed.

(** *** The encoder *)

Lemma emit5_spec acc p fuel o rem :
  pending acc p → (length p < 5 * S fuel)%nat →
  emit5 fuel acc (Z.of_nat (length p)) = (o, rem) →
  ∃ t, symbol_bits o ++ t = p ∧ rem = Z.of_nat (length t) ∧ (length t < 5)%nat ∧
    pending acc t ∧ Forall valid_symbol o ∧ (5 * length o + length t = length p)%nat.
Proof.
  revert p o rem. induction fuel as [|f IH]; intros p o rem Hp Hlen Hrun; cbn in Hrun.
  - injection Hrun as <- <-. exists p. cbn. split_and!; auto; lia.
  - destruct (Z.leb_spec 5 (Z.of_nat (length p))) as [Hge|Hlt].
    2:{ injection Hrun as <- <-. exists p. cbn. split_and!; auto; lia. }
    rewrite <- (take_drop 5 p) in Hp.
    assert (Hl5 : length (take 5 p) = 5%nat) by (rewrite length_take; lia).
    apply pending_pop in Hp as [Hh Ht]. rewrite Hl5 in Hh.
    replace (Z.of_nat (length p) - 5) with (Z.of_nat (length (drop 5 p))) in Hrun
      by (rewrite length_drop; lia).
    destruct (emit5 f acc _) as [o' rem'] eqn:He. injection Hrun as <- <-.
    apply IH in He as (t & Ht' & -> & ? & ? & ? & Hlt); [|done|rewrite length_drop; lia].
    exists t. change 0x1f with (Z.ones 5). rewrite Z.land_ones by lia.
    change (Z.of_nat 5) with 5 in Hh. rewrite Hh.
    pose proof (bits_val_range (take 5 p)) as Hr. rewrite Hl5 in Hr.
    destruct (symbol_ok (bits_val (take 5 p))) as [Hd Hv]; [done|].
    split_and!; auto.
    + rewrite symbol_bits_cons, Hd. rewrite <- Hl5 at 1.
      rewrite bits_of_val, <- app_assoc, Ht'. apply take_drop.
    + cbn [length]. rewrite length_drop in Hlt. lia.
Qed.

Lemma encode_loop_spec b acc p :
  pending acc p → (length p < 5)%nat →
  ∃ k, symbol_bits (encode_loop acc (Z.of_nat (length p)) b) =
         p ++ byte_bits b ++ repeat false k ∧ (k < 5)%nat ∧
       Forall valid_symbol (encode_loop acc (Z.of_nat (length p)) b) ∧
       (5 * length (encode_loop acc (Z.of_nat (length p)) b) = length p + 8 * length b + k)%nat.
Proof.
  revert acc p. induction b as [|c b IH]; intros acc p Hp Hlen; cbn [encode_loop].
  - destruct (Z.ltb_spec 0 (Z.of_nat (length p))) as [Hpos|Hz].
    2:{ exists 0%nat. destruct p; cbn in *; [|lia]. split_and!; auto; lia. }
    exists (5 - length p)%nat.
    set (w := (5 - length p)%nat).
    pose proof (pending_push acc p w 0 Hp ltac:(lia)
      ltac:(split; [lia|apply Z.pow_pos_nonneg; lia])) as [H0 Hv].
    rewrite Z.lor_0_r in *. replace (Z.of_nat w) with (5 - Z.of_nat (length p)) in * by lia.
    rewrite length_app, length_bits_of in Hv. replace (length p + w)%nat with 5%nat in Hv by lia.
    change 0x1f with (Z.ones 5). rewrite Z.land_ones by lia.
    change (Z.of_nat 5) with 5 in Hv. rewrite Hv.
    pose proof (bits_of_0 w) as Hz.
    assert (Hl : length (p ++ bits_of w 0) = 5%nat) by (rewrite length_app, length_bits_of; lia).
    pose proof (bits_val_range (p ++ bits_of w 0)) as Hr. rewrite Hl in Hr.
    destruct (symbol_ok (bits_val (p ++ bits_of w 0)) Hr) as [Hd Hvs].
    split_and!; [|lia|constructor; [done|constructor]|cbn; lia].
    rewrite symbol_bits_cons, Hd, <- Hl, bits_of_val, Hz. cbn. by rewrite app_nil_r.
  - pose proof (b2z_range c) as Hc.
    pose proof (pending_push acc p 8 (b2z c) Hp ltac:(lia) ltac:(cbn; lia)) as Hpc.
    change (Z.of_nat 8) with 8 in Hpc.
    replace (Z.of_nat (length p) + 8) with (Z.of_nat (length (p ++ bits_of 8 (b2z c))))
      by (rewrite length_app, length_bits_of; lia).
    destruct (emit5 2 _ _) as [o rem] eqn:He.
    apply emit5_spec in He as (t & Ht & -> & Hlt & Hpt & Hvo & Hlo);
      [|done|rewrite length_app, length_bits_of; lia].
    destruct (IH _ t Hpt Hlt) as (k & Hk & Hk5 & Hvk & Hlk). exists k. split_and!; auto.
    + by rewrite symbol_bits_app, Hk, app_assoc, Ht, byte_bits_cons, <- !app_assoc.
    + by apply Forall_app.
    + rewrite length_app in *. rewrite length_bits_of in Hlo. cbn [length]. lia.
Qed.

(** *** The decoder *)

Lemma clean_loop_Ok s r :
  clean_loop s = Ok r → Forall (λ c, 0 ≤ crockfordDecode c < 32) r.
Proof.
  revert r. induction s as [|c s IH]; intros r; cbn.
  - intros [= <-]. constructor.
  - case_match; [apply IH|].
    destruct (Z.ltb_spec (crockfordDecode c) 0); [done|].
    intros (r' & Hr & [= <-])%bind_Ok. constructor; [|by apply IH].
    split; [lia|apply crockfordDecode_range].
Qed.

Lemma clean_loop_valid s : Forall valid_symbol s → clean_loop s = Ok s.
Proof.
  induction 1 as [|c s (Hc & ? & ? & ?) _ IH]; [done|]. cbn.
  rewrite !bool_decide_eq_false_2 by done. cbn.
  destruct (Z.ltb_spec (crockfordDecode c) 0); [lia|]. by rewrite IH.
Qed.

(** The second loop succeeds exactly when the bits it was given are whole bytes
    followed by fewer than eight zeros. *)
Lemma decode_loop_spec s acc p b :
  Forall (λ c, 0 ≤ crockfordDecode c < 32) s → pending acc p → (length p < 8)%nat →
  decode_loop acc (Z.of_nat (length p)) s = Ok b ↔
  ∃ k, p ++ symbol_bits s = byte_bits b ++ repeat false k ∧ (k < 8)%nat.
Proof.
  intros Hs. revert acc p b. induction Hs as [|c s Hc Hs IH]; intros acc p b Hp Hlen; cbn [decode_loop].
  - rewrite app_nil_r.
    assert (Hmask : Z.land acc (Z.shiftl 1 (Z.of_nat (length p)) - 1) = bits_val p).
    { rewrite Z.shiftl_1_l, Z.sub_1_r, <- Z.ones_equiv, Z.land_ones by lia. apply Hp. }
    rewrite Hmask. clear Hmask. split.
    + destruct (Z.ltb_spec 0 (Z.of_nat (length p))), (Z.eqb_spec (bits_val p) 0) as [Hz|];
        cbn; intros [= <-]; exists (length p); cbn; split; auto.
      * by apply bits_val_zero.
      * by apply bits_val_zero.
      * destruct p; [done|cbn in *; lia].
    + intros (k & Hk & Hk8). destruct b as [|c b].
      2:{ exfalso. apply (f_equal length) in Hk.
          rewrite byte_bits_cons, !length_app, length_bits_of in Hk. lia. }
      cbn in Hk. subst p. rewrite repeat_length.
      rewrite <- (app_nil_r (repeat false k)), repeat_false_app. cbn.
      by rewrite andb_false_r.
  - pose proof (pending_push acc p 5 (crockfordDecode c) Hp ltac:(lia) ltac:(cbn; lia)) as Hpc.
    change (Z.of_nat 5) with 5 in Hpc.
    set (q := p ++ bits_of 5 (crockfordDecode c)) in *.
    assert (Hq : length q = (length p + 5)%nat) by (unfold q; by rewrite length_app, length_bits_of).
    replace (Z.of_nat (length p) + 5) with (Z.of_nat (length q)) by lia.
    rewrite symbol_bits_cons, app_assoc. fold q.
    destruct (Z.leb_spec 8 (Z.of_nat (length q))) as [Hge|Hlt].
    2:{ apply IH; [done|lia]. }
    assert (Hq8 : length (take 8 q) = 8%nat) by (rewrite length_take; lia).
    rewrite <- (take_drop 8 q) in Hpc. apply pending_pop in Hpc as [Hh Ht].
    rewrite Hq8 in Hh. change (Z.of_nat 8) with 8 in Hh.
    replace (Z.of_nat (length q) - 8) with (Z.of_nat (length (drop 8 q)))
      by (rewrite length_drop; lia).
    set (x := z2b _). assert (Hx : bits_of 8 (b2z x) = take 8 q).
    { unfold x. rewrite b2z_z2b. change 256 with (2 ^ 8). rewrite Hh. rewrite <- Hq8 at 1.
      apply bits_of_val. }
    rewrite bind_Ok. split.
    + intros (b' & Hb' & [= <-]). apply IH in Hb' as (k & Hk & Hk8); [|done|rewrite length_drop; lia].
      exists k. rewrite byte_bits_cons, Hx, <- app_assoc, <- Hk, app_assoc, take_drop. done.
    + intros (k & Hk & Hk8). destruct b as [|y b].
      { exfalso. apply (f_equal length) in Hk. rewrite length_app in Hk. cbn in Hk.
        rewrite repeat_length in Hk. lia. }
      rewrite byte_bits_cons in Hk. rewrite <- (take_drop 8 q), <- !app_assoc in Hk.
      apply app_inj_1 in Hk as [Hxy Hk]; [|by rewrite Hq8, length_bits_of].
      assert (y = x) as ->.
      { apply b2z_inj. rewrite <- (Z.mod_small (b2z y) (2 ^ Z.of_nat 8)) by apply b2z_range.
        rewrite <- (Z.mod_small (b2z x) (2 ^ Z.of_nat 8)) by apply b2z_range.
        by rewrite <- !bits_val_of, Hx, Hxy. }
      exists b. split; [|done]. apply IH; [done|rewrite length_drop; lia|]. eauto.
Qed.

Lemma pending_nil : pending 0 [].
Proof. by split. Qed.

(** ** Properties *)

(** [DecodeBase32] accepts exactly the strings whose symbols, separators
    dropped, carry whole bytes and then fewer than eight zero bits. *)
Lemma DecodeBase32_spec s b :
  DecodeBase32 s = Ok b ↔
  ∃ c k, clean_loop s = Ok c ∧ c ≠ [] ∧ (k < 8)%nat ∧
         symbol_bits c = byte_bits b ++ repeat false k.
Proof.
  unfold DecodeBase32. rewrite bind_Ok. split.
  - intros (c & Hc & Hd). pose proof (clean_loop_Ok s c Hc) as Hv. destruct c as [|x c]; [done|].
    apply (decode_loop_spec (x :: c) 0 [] b) in Hd as (k & Hk & ?);
      [|done|apply pending_nil|cbn; lia].
    exists (x :: c), k. done.
  - intros (c & k & Hc & Hne & Hk & Hbits). exists c. split; [done|].
    destruct c as [|x c]; [done|].
    apply (decode_loop_spec (x :: c) 0 [] b); [by apply clean_loop_Ok with s|apply pending_nil|cbn; lia|].
    eauto.
Qed.

Lemma EncodeBase32_spec b :
  ∃ k, symbol_bits (EncodeBase32 b) = byte_bits b ++ repeat false k ∧ (k < 5)%nat ∧
       Forall valid_symbol (EncodeBase32 b) ∧
       (5 * length (EncodeBase32 b) = 8 * length b + k)%nat.
Proof.
  destruct b as [|c b]; [exists 0%nat; cbn; split_and!; auto; lia|].
  destruct (encode_loop_spec (c :: b) 0 [] pending_nil) as (k & ? & ? & ? & ?); [cbn; lia|].
  exists k. cbn [EncodeBase32]. done.
Qed.

(** C: [DecodeBase32] inverts [EncodeBase32] on every non-empty byte string, and
    the rendering has exactly [base32Len] characters. *)
Theorem base32_roundtrip b :
  b ≠ [] →
  DecodeBase32 (EncodeBase32 b) = Ok b ∧ length (EncodeBase32 b) = base32Len (length b).
Proof.
  intros Hne. destruct (EncodeBase32_spec b) as (k & Hbits & Hk & Hv & Hlen). split.
  - apply DecodeBase32_spec. exists (EncodeBase32 b), k.
    split_and!; [by apply clean_loop_valid|intros HE; rewrite HE in Hlen; destruct b; [done|cbn in Hlen; lia]|lia|done].
  - unfold base32Len. apply (Nat.div_unique _ 5 _ (4 - k)); lia.
Qed.
