(* ===== verification/VersionVector.v ===== *)
(** * Version vectors (internal/vv)

    A [*vv.Vector] is modelled by its entries; a nil vector or nil map reads as
    the empty one, which is what every method of the package makes of it. A
    parameter the code tests against nil is an [option]. Go's map iteration
    order is unspecified, so loops over the entries are [map_fold]s whose lemmas
    do not depend on the order. *)

From S2P Require Import Prelude Binary Identity.

Abbreviation Vector := (gmap NodeID Z).

Definition New : Vector := ∅.

Definition FromMap (m : gmap NodeID Z) : Vector :=
  map_fold (λ k s v, if 0 <? s then <[k:=s]> v else v) New m.

Definition Get (v : Vector) (origin : NodeID) : Z := default 0 (v !! origin).

Definition Set_ (v : Vector) (origin : NodeID) (seq : Z) : Vector :=
  if Get v origin <? seq then <[origin:=seq]> v else v.

Definition Len (v : Vector) : Z := Z.of_nat (size v).

(** The order [Origins] sorts by. *)
Definition le_id (a b : NodeID) : Prop := a = b ∨ less_id a b = true.
#[export] Instance le_id_dec a b : Decision (le_id a b).
Proof. unfold le_id. apply _. Defined.

Definition Origins (v : Vector) : list NodeID := merge_sort le_id (map_to_list v).*1.

Definition Clone (v : Vector) : Vector := v.

Definition Merge (v : Vector) (other : option Vector) : Vector :=
  match other with
  | None => v
  | Some o => map_fold (λ k s acc, if Get acc k <? s then <[k:=s]> acc else acc) v o
  end.

Definition Merged (a b : Vector) : Vector := Merge (Clone a) (Some b).

Definition Equal (v other : Vector) : bool :=
  if negb (Len v =? Len other) then false
  else bool_decide (map_Forall (λ k s, Get other k = s) v).

Definition Dominates (v : Vector) (other : option Vector) : bool :=
  match other with
  | None => true
  | Some o => bool_decide (map_Forall (λ k s, ¬ Get v k < s) o)
  end.

Record Range := mkRange { Origin : NodeID; From : Z; To : Z }.

#[export] Instance Range_eq_dec : EqDecision Range.
Proof. solve_decision. Defined.

Definition Missing (v : Vector) (other : option Vector) : list Range :=
  match other with
  | None => []
  | Some o =>
      omap (λ origin,
        let theirs := Get o origin in
        let mine := Get v origin in
        if mine <? theirs then Some (mkRange origin (u64 (mine + 1)) theirs) else None)
        (Origins o)
  end.

Definition Count (v : Vector) : Z := map_fold (λ _ s n, u64 (n + s)) 0 v.

Definition Hash `{Blake3} (v : Vector) : arr 4 :=
  arr_of 4 (vec_to_list (blake3_sum256
    (Origins v ≫= λ o, vec_to_list o ++ be_bytes 8 (Get v o)))).

(** ** Wire encoding *)

Definition MaxOrigins : Z := 512.

Inductive vv_error :=
| ErrTruncated
| NonCanonicalVarint (got want : Z)
| TooManyOrigins (n : Z)
| OriginsNotAscending
| TrailingBytes (n : Z).

Definition Encode (v : Vector) : bytes :=
  append_uvarint (u64 (Z.of_nat (length (Origins v)))) ++
  (Origins v ≫= λ o, vec_to_list o ++ append_uvarint (Get v o)).

Definition canonicalUvarint (b : bytes) : result vv_error (Z * bytes) :=
  read_uvarint_canonical ErrTruncated NonCanonicalVarint b.

(** [for i := 0; i < n; i++]: [prev] is [None] on the first round only. *)
Fixpoint Decode_entries (n : nat) (prev : option NodeID) (v : Vector) (b : bytes)
    : result vv_error Vector :=
  match n with
  | O => if decide (b = []) then Ok v else Err (TrailingBytes (Z.of_nat (length b)))
  | S n' =>
      '(origin, b) ← take_arr ErrTruncated 8 b;
      '(seq, b) ← canonicalUvarint b;
      _ ← require (match prev with None => true | Some p => less_id p origin end)
            OriginsNotAscending;
      Decode_entries n' (Some origin) (<[origin:=seq]> v) b
  end.

Definition Decode (b : bytes) : result vv_error Vector :=
  '(n, b) ← canonicalUvarint b;
  if MaxOrigins <? n then Err (TooManyOrigins n)
  else Decode_entries (Z.to_nat n) None New b.

(** ** Invariants *)

(** Every stored sequence is positive: what [New], [FromMap], [Set] and [Merge]
    maintain. *)
Definition positive_vector (v : Vector) : Prop := map_Forall (λ _ s, 0 < s) v.
Definition wf_vector (v : Vector) : Prop := map_Forall (λ _ s, is_u64 s) v.

(** Vectors that answer every [Get] alike. *)
#[export] Instance vector_equiv : Equiv Vector := λ v w, ∀ o, Get v o = Get w o.
#[export] Instance vector_equivalence : Equivalence (≡@{Vector}).
Proof. split; repeat intro; [done|by symmetry|etransitivity; eauto]. Qed.

#[export] Instance le_id_total : Total le_id.
Proof. intros a b. unfold le_id. destruct (less_id_total a b) as [?|[?|?]]; auto. Qed.
#[export] Instance le_id_trans : Transitive le_id.
Proof. intros a b c [->|Hab] [->|Hbc]; unfold le_id; auto. right. by apply less_id_trans with b. Qed.
#[export] Instance le_id_antisymm : AntiSymm (=) le_id.
Proof.
  intros a b [->|Hab] [E|Hba]; auto.
  pose proof (less_id_trans _ _ _ Hab Hba) as H. by rewrite less_id_irrefl in H.
Qed.

(** ** Lookups *)

Lemma Get_insert v o s o' : Get (<[o:=s]> v) o' = if decide (o = o') then s else Get v o'.
Proof. unfold Get. rewrite lookup_insert. by case_decide. Qed.

Lemma Get_nonneg v o : wf_vector v → 0 ≤ Get v o.
Proof.
  intros Hv. unfold Get. destruct (v !! o) as [s|] eqn:E; cbn; [|lia].
  apply Hv in E. widths.
Qed.

Lemma Get_u64 v o : wf_vector v → is_u64 (Get v o).
Proof.
  intros Hv. unfold Get. destruct (v !! o) as [s|] eqn:E; cbn; [|widths].
  by apply Hv in E.
Qed.

Lemma Merge_lookup v o k :
  Merge v (Some o) !! k =
    match o !! k with
    | Some s => if Get v k <? s then Some s else v !! k
    | None => v !! k
    end.
Proof.
  cbn [Merge]. revert k. apply (map_fold_weak_ind (λ acc m, ∀ k, acc !! k =
    match m !! k with Some s => if Get v k <? s then Some s else v !! k | None => v !! k end)).
  - intros k. by rewrite lookup_empty.
  - intros j s m acc Hj IH k. rewrite lookup_insert.
    assert (Hget : Get acc j = Get v j) by (unfold Get; by rewrite IH, Hj).
    rewrite Hget. case_decide as E.
    + subst k. destruct (Get v j <? s); [by rewrite lookup_insert_eq|]. by rewrite IH, Hj.
    + destruct (Get v j <? s); [|apply IH]. rewrite lookup_insert_ne by done. apply IH.
Qed.

Lemma Merge_Get v o k :
  wf_vector v → Get (Merge v (Some o)) k = Z.max (Get v k) (Get o k).
Proof.
  intros Hv. pose proof (Get_nonneg v k Hv). unfold Get at 1. rewrite Merge_lookup.
  unfold Get at 2. unfold Get in *. destruct (o !! k) as [s|]; cbn; [|lia].
  destruct (Z.ltb_spec (default 0 (v !! k)) s); cbn; lia.
Qed.

Lemma Set_Get v o s k :
  Get (Set_ v o s) k = if decide (o = k) then Z.max (Get v o) s else Get v k.
Proof.
  unfold Set_. destruct (Z.ltb_spec (Get v o) s); [rewrite Get_insert|];
    case_decide; subst; lia.
Qed.

(** ** Invariant preservation *)

Lemma New_positive : positive_vector New.
Proof. apply map_Forall_empty. Qed.

Lemma FromMap_positive m : positive_vector (FromMap m).
Proof.
  unfold FromMap. apply (map_fold_weak_ind (λ v _, positive_vector v)); [apply New_positive|].
  intros k s m' v _ IH. destruct (Z.ltb_spec 0 s); [by apply map_Forall_insert_2|done].
Qed.

Lemma Set_positive v o s : wf_vector v → positive_vector v → positive_vector (Set_ v o s).
Proof.
  intros Hw Hp. unfold Set_. destruct (Z.ltb_spec (Get v o) s); [|done].
  apply map_Forall_insert_2; [|done]. pose proof (Get_nonneg v o Hw). lia.
Qed.

Lemma Merge_positive v o :
  positive_vector v → positive_vector o → positive_vector (Merge v (Some o)).
Proof.
  intros Hv Ho k s. rewrite Merge_lookup. destruct (o !! k) as [s'|] eqn:E; [|apply Hv].
  case_match; [|apply Hv]. intros [= <-]. by apply Ho in E.
Qed.

Lemma Merge_wf v o : wf_vector v → wf_vector o → wf_vector (Merge v (Some o)).
Proof.
  intros Hv Ho k s. rewrite Merge_lookup. destruct (o !! k) as [s'|] eqn:E; [|apply Hv].
  case_match; [|apply Hv]. intros [= <-]. by apply Ho in E.
Qed.

(** On positive vectors agreeing under [Get] is being equal. *)
Lemma positive_equiv_eq v w : positive_vector v → positive_vector w → v ≡ w → v = w.
Proof.
  intros Hv Hw Heq. apply map_eq. intros k. specialize (Heq k). unfold Get in Heq.
  destruct (v !! k) as [s|] eqn:Ev, (w !! k) as [t|] eqn:Ew; cbn in Heq; try congruence;
    [apply Hv in Ev|apply Hw in Ew]; cbn in *; lia.
Qed.

(** ** The merge laws *)

(** Pointwise maximum is commutative, associative and idempotent, as
    equality of vectors, and keeps vectors well-formed and positive. *)
Theorem merge_semilattice a b c :
  wf_vector a → wf_vector b → wf_vector c →
  positive_vector a → positive_vector b → positive_vector c →
  Merged a b = Merged b a ∧
  Merged a (Merged b c) = Merged (Merged a b) c ∧
  Merged a a = a ∧
  positive_vector (Merged a b) ∧ wf_vector (Merged a b).
Proof.
  intros Hwa Hwb Hwc Hpa Hpb Hpc. unfold Merged, Clone.
  split_and!; [apply positive_equiv_eq..| |]; eauto using Merge_positive, Merge_wf;
    intros k; rewrite ?Merge_Get by eauto using Merge_wf; lia.
Qed.

Lemma Dominates_spec v o :
  wf_vector v → Dominates v (Some o) = true ↔ ∀ k, Get o k ≤ Get v k.
Proof.
  intros Hv. unfold Dominates. rewrite bool_decide_eq_true. split.
  - intros H k. pose proof (Get_nonneg v k Hv). unfold Get at 1.
    destruct (o !! k) as [s|] eqn:E; cbn; [|lia]. apply H in E. lia.
  - intros H k s E. specialize (H k). unfold Get at 1 in H. rewrite E in H. cbn in H. lia.
Qed.

(** The merge is the least vector dominating both, and [Dominates] is the
    order it joins. *)
Theorem merge_least_upper_bound a b c :
  wf_vector a → wf_vector b → wf_vector c →
  Dominates (Merged a b) (Some a) = true ∧ Dominates (Merged a b) (Some b) = true ∧
  (Dominates c (Some (Merged a b)) = true ↔
     Dominates c (Some a) = true ∧ Dominates c (Some b) = true).
Proof.
  intros Ha Hb Hc. unfold Merged, Clone. rewrite !Dominates_spec by eauto using Merge_wf.
  pose proof (λ k, Merge_Get a b k Ha) as HG. setoid_rewrite HG. split_and!; [intros; lia..|].
  split; [intros H; split; intros k; specialize (H k); lia|].
  intros [H1 H2] k. specialize (H1 k). specialize (H2 k). lia.
Qed.

Lemma Equal_spec v w :
  positive_vector v → positive_vector w → Equal v w = true ↔ v = w.
Proof.
  intros Hv Hw. unfold Equal, Len. split; [|intros ->].
  - destruct (Z.eqb_spec (Z.of_nat (size v)) (Z.of_nat (size w))) as [Hs|]; [|done].
    cbn. rewrite bool_decide_eq_true. intros H. apply map_subseteq_size_eq; [|lia].
    apply map_subseteq_spec. intros k s E. pose proof (Hv _ _ E). apply H in E.
    unfold Get in E. destruct (w !! k); cbn in *; [congruence|lia].
  - rewrite Z.eqb_refl. cbn. apply bool_decide_eq_true. intros k s E. unfold Get. by rewrite E.
Qed.

(** ** The delta request *)

Lemma Origins_perm v : Origins v ≡ₚ (map_to_list v).*1.
Proof. apply merge_sort_Permutation. Qed.

Lemma elem_of_Origins v o : o ∈ Origins v ↔ is_Some (v !! o).
Proof.
  rewrite Origins_perm, list_elem_of_fmap. split.
  - intros ([k s] & -> & H%elem_of_map_to_list). by eexists.
  - intros [s H%elem_of_map_to_list]. by exists (o, s).
Qed.

Lemma Origins_NoDup v : NoDup (Origins v).
Proof. rewrite Origins_perm. apply NoDup_fst_map_to_list. Qed.

Lemma Origins_sorted v : StronglySorted le_id (Origins v).
Proof. apply (StronglySorted_merge_sort le_id). Qed.

Lemma elem_of_Missing v o r :
  wf_vector v → wf_vector o →
  r ∈ Missing v (Some o) ↔
    Get v (Origin r) < Get o (Origin r) ∧
    From r = Get v (Origin r) + 1 ∧ To r = Get o (Origin r).
Proof.
  intros Hv Ho. cbn [Missing]. rewrite list_elem_of_omap. split.
  - intros (k & _ & H). destruct (Z.ltb_spec (Get v k) (Get o k)); [|done].
    injection H as <-. cbn. pose proof (Get_u64 v k Hv). pose proof (Get_u64 o k Ho).
    rewrite u64_id by widths. done.
  - intros (Hlt & HF & HT). destruct r as [k f t]. cbn in *. subst. exists k. split.
    + apply elem_of_Origins. unfold Get in Hlt at 2. pose proof (Get_nonneg v k Hv).
      destruct (o !! k); cbn in *; [by eexists|lia].
    + destruct (Z.ltb_spec (Get v k) (Get o k)); [|lia].
      pose proof (Get_u64 v k Hv). pose proof (Get_u64 o k Ho). by rewrite u64_id by widths.
Qed.

Lemma Missing_origins_sorted v o : StronglySorted le_id (Origin <$> Missing v (Some o)).
Proof.
  cbn [Missing]. pose proof (Origins_sorted o) as H. induction H as [|k l Hl IH Hall]; [constructor|].
  cbn. destruct (Get v k <? Get o k); cbn; [|apply IH]. constructor; [apply IH|].
  rewrite Forall_forall in *. intros k' (r' & -> & (k2 & Hk2 & Hr)%list_elem_of_omap)%list_elem_of_fmap.
  case_match; [|done]. injection Hr as <-. by apply Hall.
Qed.

Lemma Missing_origins_NoDup v o : NoDup (Origin <$> Missing v (Some o)).
Proof.
  cbn [Missing]. pose proof (Origins_NoDup o) as H. induction H as [|k l Hk Hl IH]; [constructor|].
  cbn. destruct (Get v k <? Get o k); cbn; [|apply IH]. constructor; [|apply IH].
  intros (r & Hr & (k2 & Hk2 & Hr2)%list_elem_of_omap)%list_elem_of_fmap.
  case_match; [|done]. injection Hr2 as <-. cbn in Hr. by subst.
Qed.

(** Marking every requested range as received. *)
Definition fill (v : Vector) (rs : list Range) : Vector :=
  foldl (λ v r, Set_ v (Origin r) (To r)) v rs.

Lemma fill_Get v rs k :
  NoDup (Origin <$> rs) →
  Get (fill v rs) k =
    match list_find (λ r, Origin r = k) rs with
    | Some (_, r) => Z.max (Get v k) (To r)
    | None => Get v k
    end.
Proof.
  unfold fill. revert v. induction rs as [|r rs IH]; intros v Hnd; [done|].
  cbn in Hnd. apply NoDup_cons in Hnd as [Hr Hnd]. cbn [foldl]. rewrite IH by done.
  cbn [list_find]. rewrite Set_Get. case_decide as E.
  - subst k. assert (list_find (λ r', Origin r' = Origin r) rs = None) as ->; [|done].
    apply list_find_None, Forall_forall. intros r' Hr' E. apply Hr. rewrite <- E.
    by apply list_elem_of_fmap_2.
  - destruct (list_find _ rs) as [[]|]; done.
Qed.

Lemma Missing_nil_iff v o :
  wf_vector v → wf_vector o → Missing v (Some o) = [] ↔ Dominates v (Some o) = true.
Proof.
  intros Hv Ho. rewrite Dominates_spec by done. split.
  - intros H k. apply Z.nlt_ge. intros Hlt.
    assert (mkRange k (Get v k + 1) (Get o k) ∈ Missing v (Some o)) as Hin
      by (by apply elem_of_Missing).
    rewrite H in Hin. by apply elem_of_nil in Hin.
  - intros H. destruct (Missing v (Some o)) as [|r l] eqn:E; [done|].
    assert (r ∈ Missing v (Some o)) as (Hlt & _)%elem_of_Missing by (rewrite E; constructor);
      [|done..]. specialize (H (Origin r)). lia.
Qed.

(** [Missing] asks for exactly the sequences [v] lacks and [other] has, one
    range per origin in origin order; it is empty exactly when [v] dominates,
    and receiving what was asked for brings [v] to the merge. *)
Theorem Missing_exact v o :
  wf_vector v → wf_vector o →
  (∀ k s, (∃ r, r ∈ Missing v (Some o) ∧ Origin r = k ∧ From r ≤ s ≤ To r) ↔
          Get v k < s ≤ Get o k) ∧
  StronglySorted le_id (Origin <$> Missing v (Some o)) ∧
  (Missing v (Some o) = [] ↔ Dominates v (Some o) = true) ∧
  fill v (Missing v (Some o)) ≡ Merged v o.
Proof.
  intros Hv Ho. split_and!.
  - intros k s. split.
    + intros (r & Hr & <- & Hs). apply elem_of_Missing in Hr as (? & ? & ?); [lia|done..].
    + intros Hs. exists (mkRange k (Get v k + 1) (Get o k)).
      rewrite elem_of_Missing by done. cbn. split_and!; (done || lia).
  - apply Missing_origins_sorted.
  - by apply Missing_nil_iff.
  - intros k. unfold Merged, Clone. rewrite Merge_Get by done.
    rewrite fill_Get by apply Missing_origins_NoDup.
    destruct (list_find _ _) as [[i r]|] eqn:E.
    + apply list_find_Some in E as (Hr & <- & _).
      assert (r ∈ Missing v (Some o)) as (_ & _ & ->)%elem_of_Missing
        by (eapply list_elem_of_lookup_2; eauto); done.
    + apply list_find_None in E. rewrite Forall_forall in E.
      destruct (decide (Get v k < Get o k)); [|lia].
      exfalso. apply (E (mkRange k (Get v k + 1) (Get o k))); [|done].
      by apply elem_of_Missing.
Qed.

(** ** The wire form *)

Definition enc_entry (e : NodeID * Z) : bytes := vec_to_list e.1 ++ append_uvarint e.2.

(** Origins strictly ascending, from [prev] on. *)
Fixpoint ascending (prev : option NodeID) (l : list NodeID) : Prop :=
  match l with
  | [] => True
  | o :: l' => (match prev with None => True | Some p => less_id p o = true end) ∧
               ascending (Some o) l'
  end.

Definition insert_all (v : Vector) (l : list (NodeID * Z)) : Vector :=
  foldl (λ v e, <[e.1:=e.2]> v) v l.

Lemma canonicalUvarint_Ok b v r :
  canonicalUvarint b = Ok (v, r) ↔ is_u64 v ∧ b = append_uvarint v ++ r.
Proof. apply read_uvarint_canonical_Ok. Qed.

Lemma Decode_entries_Ok n prev v b w :
  Decode_entries n prev v b = Ok w ↔
  ∃ l, length l = n ∧ Forall (λ e, is_u64 e.2) l ∧ ascending prev l.*1 ∧
       b = l ≫= enc_entry ∧ w = insert_all v l.
Proof.
  revert prev v b. induction n as [|n IH]; intros prev v b; cbn [Decode_entries].
  - case_decide as Hb; split.
    + intros [= <-]. exists []. cbn. auto.
    + intros ([|e l] & ? & _ & _ & _ & ->); done.
    + done.
    + intros ([|e l] & ? & _ & _ & ? & ->); done.
  - rewrite bind_Ok. split.
    + intros ([o b1] & Ho & ([s b2] & Hs & (u & Hord & Hrec)%bind_Ok)%bind_Ok).
      apply take_arr_Ok in Ho as ->. apply canonicalUvarint_Ok in Hs as [Hs ->].
      apply require_Ok in Hord. apply IH in Hrec as (l & <- & Hl & Hasc & -> & ->).
      exists ((o, s) :: l). cbn. unfold enc_entry at 2. cbn. rewrite <- app_assoc.
      split_and!; auto. by destruct prev.
    + intros ([|[o s] l] & [= Hn] & Hl & Hasc & -> & ->). cbn in Hasc. destruct Hasc as [Hp Hasc].
      apply Forall_cons in Hl as [Hs Hl]. cbn in Hs.
      exists (o, append_uvarint s ++ (l ≫= enc_entry)). split.
      { apply take_arr_Ok. cbn. unfold enc_entry at 1. cbn. by rewrite <- app_assoc. }
      apply bind_Ok. exists (s, l ≫= enc_entry). split; [by apply canonicalUvarint_Ok|].
      apply bind_Ok. exists tt. split; [apply require_Ok; by destruct prev|].
      apply IH. exists l. auto.
Qed.

Lemma origins_ascending_sorted prev l :
  ascending prev l → StronglySorted (λ a b, less_id a b = true) l ∧
  (∀ p o, prev = Some p → o ∈ l → less_id p o = true).
Proof.
  revert prev. induction l as [|o l IH]; intros prev; cbn.
  - intros _. split; [constructor|]. intros ? ? _ H. by apply elem_of_nil in H.
  - intros [Hp Hl]. apply IH in Hl as [Hs Hall]. split.
    + constructor; [done|]. apply Forall_forall. intros x Hx. by apply Hall.
    + intros p x -> [->|Hx]%elem_of_cons; [done|]. apply less_id_trans with o; [done|by apply Hall].
Qed.

Lemma sorted_ascending prev l :
  StronglySorted (λ a b, less_id a b = true) l →
  (∀ p o, prev = Some p → o ∈ l → less_id p o = true) → ascending prev l.
Proof.
  intros Hs. revert prev. induction Hs as [|o l Hs IH Hall]; intros prev Hp; [done|]. cbn. split.
  - destruct prev as [p|]; [|done]. apply (Hp p); [done|constructor].
  - apply IH. intros p x [= <-] Hx. rewrite Forall_forall in Hall. by apply Hall.
Qed.

Lemma less_sorted_NoDup l : StronglySorted (λ a b, less_id a b = true) l → NoDup l.
Proof.
  induction 1 as [|o l Hs IH Hall]; constructor; [|done].
  intros Hin. rewrite Forall_forall in Hall. apply Hall in Hin. by rewrite less_id_irrefl in Hin.
Qed.

Lemma insert_all_union v l : NoDup l.*1 → insert_all v l = list_to_map l ∪ v.
Proof.
  unfold insert_all. revert v. induction l as [|[k s] l IH]; intros v Hnd; cbn.
  - by rewrite map_empty_union.
  - cbn in Hnd. apply NoDup_cons in Hnd as [Hk Hnd]. rewrite IH by done.
    rewrite <- insert_union_r by (by apply not_elem_of_list_to_map_1). apply insert_union_l.
Qed.

Lemma insert_all_list_to_map l : NoDup l.*1 → insert_all New l = list_to_map l.
Proof. intros. rewrite insert_all_union by done. apply map_union_empty. Qed.

Lemma Origins_list_to_map (l : list (NodeID * Z)) :
  StronglySorted (λ a b, less_id a b = true) l.*1 → Origins (list_to_map l) = l.*1.
Proof.
  intros Hs. pose proof (less_sorted_NoDup _ Hs) as Hnd.
  eapply (StronglySorted_unique le_id).
  - apply Origins_sorted.
  - clear Hnd. induction Hs as [|o k Hs IH Hall]; constructor; [done|].
    eapply Forall_impl; [done|]. intros x Hx. by right.
  - rewrite Origins_perm. by rewrite map_to_list_to_map.
Qed.

(** Any vector is the map of its own sorted entries. *)
Definition entries (v : Vector) : list (NodeID * Z) := (λ o, (o, Get v o)) <$> Origins v.

Lemma entries_fst v : (entries v).*1 = Origins v.
Proof. unfold entries. rewrite <- list_fmap_compose. apply list_fmap_id. Qed.

Lemma Origins_less_sorted v : StronglySorted (λ a b, less_id a b = true) (Origins v).
Proof.
  pose proof (Origins_sorted v) as Hs. pose proof (Origins_NoDup v) as Hnd.
  induction Hs as [|o l Hs IH Hall]; [constructor|]. apply NoDup_cons in Hnd as [Ho Hnd].
  constructor; [by apply IH|]. rewrite Forall_forall in *. intros x Hx.
  destruct (Hall x Hx) as [->|?]; done.
Qed.

Lemma list_to_map_entries v : list_to_map (entries v) = v.
Proof.
  apply map_eq. intros k. destruct (v !! k) as [s|] eqn:E.
  - apply elem_of_list_to_map; [rewrite entries_fst; apply Origins_NoDup|].
    apply list_elem_of_fmap. exists k. unfold Get. rewrite E. split; [done|].
    apply elem_of_Origins. by eexists.
  - apply not_elem_of_list_to_map. rewrite entries_fst, elem_of_Origins, E. by intros [].
Qed.

Lemma Encode_entries v :
  Encode v = append_uvarint (u64 (Z.of_nat (length (entries v)))) ++ (entries v ≫= enc_entry).
Proof.
  unfold Encode, entries. rewrite length_fmap. f_equal.
  induction (Origins v) as [|o l IH]; [done|]. cbn. by rewrite IH.
Qed.

Lemma length_entries v : length (entries v) = size v.
Proof.
  unfold entries. rewrite length_fmap, Origins_perm, length_fmap. apply length_map_to_list.
Qed.

Lemma entries_list_to_map (l : list (NodeID * Z)) :
  StronglySorted (λ a b, less_id a b = true) l.*1 → entries (list_to_map l) = l.
Proof.
  intros Hs. pose proof (less_sorted_NoDup _ Hs) as Hnd.
  unfold entries. rewrite Origins_list_to_map by done.
  rewrite <- list_fmap_compose. rewrite <- (list_fmap_id l) at 2.
  apply list_fmap_ext. intros i [o s] Hi. cbn. unfold Get.
  apply list_elem_of_lookup_2 in Hi. by rewrite (elem_of_list_to_map_1 l o s).
Qed.

Lemma Decode_spec b v :
  Decode b = Ok v ↔ wf_vector v ∧ Len v ≤ MaxOrigins ∧ b = Encode v.
Proof.
  unfold Decode, Len. rewrite bind_Ok. split.
  - intros ([n b'] & [Hn ->]%canonicalUvarint_Ok & H).
    destruct (Z.ltb_spec MaxOrigins n) as [|Hmax]; [done|].
    apply Decode_entries_Ok in H as (l & Hlen & Hu & [Hs _]%origins_ascending_sorted & -> & ->).
    rewrite insert_all_list_to_map by (by apply less_sorted_NoDup).
    rewrite <- length_entries, Encode_entries, entries_list_to_map by done.
    assert (Z.of_nat (length l) = n) as -> by (unfold is_u64 in *; lia).
    rewrite u64_id by done. split_and!; [|done..].
    intros k s Hk. apply elem_of_list_to_map_2 in Hk. rewrite Forall_forall in Hu.
    by apply Hu in Hk.
  - intros (Hw & Hlen & ->). rewrite <- length_entries in Hlen. unfold MaxOrigins in *.
    exists (Z.of_nat (length (entries v)), entries v ≫= enc_entry). split.
    + apply canonicalUvarint_Ok. rewrite Encode_entries, u64_id by widths. split; [widths|done].
    + destruct (Z.ltb_spec 512 (Z.of_nat (length (entries v)))); [lia|].
      rewrite Nat2Z.id. apply Decode_entries_Ok. exists (entries v).
      rewrite entries_fst. split_and!; [done| |apply sorted_ascending; [apply Origins_less_sorted|done]|done|].
      * apply Forall_fmap, Forall_forall. intros o _. by apply Get_u64.
      * rewrite insert_all_list_to_map, list_to_map_entries; [done|].
        rewrite entries_fst. apply Origins_NoDup.
Qed.

(** [Decode] accepts exactly the encodings of the vectors with at most
    [MaxOrigins] origins and 64-bit sequences: it inverts [Encode], and no other
    byte string decodes, so one vector has one wire form. *)
Theorem Decode_iff_Encode b v :
  Decode b = Ok v ↔ wf_vector v ∧ Len v ≤ MaxOrigins ∧ b = Encode v.
Proof. apply Decode_spec. Qed.

(** A decoded vector may carry a zero sequence, which [Set] never stores: it
    means what the empty vector means, yet it has another wire form and
    [Equal] tells the two apart, so two nodes holding the same records can
    hash their vectors differently. *)
Lemma Decode_admits_zero (o : NodeID) :
  let v : Vector := {[ o := 0 ]} in
  Decode (Encode v) = Ok v ∧ v ≡ New ∧ Encode v ≠ Encode New ∧ Equal v New = false.
Proof.
  cbv zeta. split_and!.
  - apply Decode_spec. split_and!; [|unfold Len; rewrite map_size_singleton; done|done].
    intros k s [_ <-]%lookup_singleton_Some. by_compute.
  - intros k. unfold Get, New. destruct (decide (o = k)) as [->|Hne].
    + by rewrite lookup_singleton_eq.
    + by rewrite lookup_singleton_ne.
  - unfold New. rewrite !Encode_entries, !length_entries, map_size_singleton. change (size (∅ : Vector)) with 0%nat. done.
  - unfold Equal, Len, New. by rewrite map_size_singleton.
Qed.
