(* ===== verification/Text.v ===== *)
(** * Text on the wire (internal/record/node.go, [validateLabel])

    Go's UTF-8 decoding, as far as [utf8.ValidString] and [strings.IndexFunc]
    use it, and the check every label of a record body passes. Strings are byte
    lists. *)

From S2P Require Import Prelude Binary Identity.

(** ** unicode/utf8 *)

Definition RuneError : Z := 0xFFFD.

Definition in_range (lo hi : Z) (b : byte) : bool := (lo <=? b2z b) && (b2z b <=? hi).
Definition is_cont (b : byte) : bool := in_range 0x80 0xBF b.

(** The second byte each leading byte allows: overlong forms, surrogates and
    values above U+10FFFF are excluded here. *)
Definition accept_second (b0 b1 : byte) : bool :=
  if b2z b0 =? 0xE0 then in_range 0xA0 0xBF b1
  else if b2z b0 =? 0xED then in_range 0x80 0x9F b1
  else if b2z b0 =? 0xF0 then in_range 0x90 0xBF b1
  else if b2z b0 =? 0xF4 then in_range 0x80 0x8F b1
  else is_cont b1.

Definition low6 (b : byte) : Z := Z.land (b2z b) 0x3F.

(** [utf8.DecodeRune]: the rune, its width, and whether it was well-formed. An
    ill-formed byte decodes as [RuneError] of width one. *)
Definition decode_rune (s : bytes) : Z * nat * bool :=
  let bad := (RuneError, 1%nat, false) in
  match s with
  | [] => (RuneError, 0%nat, false)
  | b0 :: s1 =>
      if b2z b0 <? 0x80 then (b2z b0, 1%nat, true)
      else match s1 with
      | b1 :: s2 =>
          if in_range 0xC2 0xDF b0 then
            if is_cont b1
            then (Z.lor (Z.shiftl (Z.land (b2z b0) 0x1F) 6) (low6 b1), 2%nat, true)
            else bad
          else match s2 with
          | b2 :: s3 =>
              if in_range 0xE0 0xEF b0 then
                if accept_second b0 b1 && is_cont b2
                then (Z.lor (Z.lor (Z.shiftl (Z.land (b2z b0) 0x0F) 12)
                        (Z.shiftl (low6 b1) 6)) (low6 b2), 3%nat, true)
                else bad
              else match s3 with
              | b3 :: _ =>
                  if in_range 0xF0 0xF4 b0 && accept_second b0 b1 && is_cont b2 && is_cont b3
                  then (Z.lor (Z.lor (Z.lor (Z.shiftl (Z.land (b2z b0) 0x07) 18)
                          (Z.shiftl (low6 b1) 12)) (Z.shiftl (low6 b2) 6)) (low6 b3), 4%nat, true)
                  else bad
              | [] => bad
              end
          | [] => bad
          end
      | [] => bad
      end
  end.

(** [utf8.AppendRune] to nothing. *)
Definition write_rune (r : Z) : bytes :=
  let r := if (r <? 0) || (0x10FFFF <? r) || ((0xD800 <=? r) && (r <=? 0xDFFF)) then RuneError else r in
  let tail k := z2b (Z.lor 0x80 (Z.land (Z.shiftr r k) 0x3F)) in
  if r <? 0x80 then [z2b r]
  else if r <? 0x800 then [z2b (Z.lor 0xC0 (Z.shiftr r 6)); tail 0]
  else if r <? 0x10000 then [z2b (Z.lor 0xE0 (Z.shiftr r 12)); tail 6; tail 0]
  else [z2b (Z.lor 0xF0 (Z.shiftr r 18)); tail 12; tail 6; tail 0].

(** [for i, r := range s]: each rune with its byte offset. Every round consumes
    a byte, so the length of the string is fuel enough. *)
Fixpoint runes_from (fuel : nat) (i : Z) (s : bytes) : list (Z * Z * bool) :=
  match fuel, s with
  | S fuel', _ :: _ =>
      let '(r, w, ok) := decode_rune s in
      (i, r, ok) :: runes_from fuel' (i + Z.of_nat w) (drop w s)
  | _, _ => []
  end.
Definition runes (s : bytes) : list (Z * Z * bool) := runes_from (length s) 0 s.

Definition ValidString (s : bytes) : bool := forallb snd (runes s).

(** [strings.IndexFunc]: the offset of the first rune satisfying [f], or -1. *)
Definition IndexFunc (s : bytes) (f : Z → bool) : Z :=
  match List.find (λ x, f x.1.2) (runes s) with
  | Some (i, _, _) => i
  | None => -1
  end.

(** ** validateLabel *)

(** The [what] argument, which only names the field in the error. *)
Inductive label :=
| LDisplayName | LSysopContact | LNick | LFileName | LFileDescription | LFileTag
| LDoorGame | LDoorActor | LDoorTarget.

Inductive label_error :=
| LabelTooLong (what : label) (len max : Z)
| LabelNotUTF8 (what : label)
| LabelControl (what : label) (at_ : Z).

#[export] Instance label_eq_dec : EqDecision label.
Proof. solve_decision. Defined.
#[export] Instance label_error_eq_dec : EqDecision label_error.
Proof. solve_decision. Defined.

Definition is_control (r : Z) : bool := (r <? 0x20) || (r =? 0x7f).

Definition validateLabel (what : label) (s : bytes) (max : Z) : result label_error unit :=
  if max <? Z.of_nat (length s) then Err (LabelTooLong what (Z.of_nat (length s)) max)
  else if negb (ValidString s) then Err (LabelNotUTF8 what)
  else
    let i := IndexFunc s is_control in
    if 0 <=? i then Err (LabelControl what i) else Ok tt.

(** ** Lemmas *)

Lemma in_range_true lo hi b : in_range lo hi b = true ↔ lo ≤ b2z b ≤ hi.
Proof. unfold in_range. rewrite andb_true_iff, !Z.leb_le. done. Qed.

Lemma accept_second_high b0 b1 : accept_second b0 b1 = true → 0x80 ≤ b2z b1.
Proof.
  unfold accept_second, is_cont. repeat case_match; rewrite in_range_true; lia.
Qed.

(** A well-formed rune is a single ASCII byte, or all its bytes are high. *)
Lemma decode_rune_bytes s r w :
  decode_rune s = (r, w, true) →
  (0 < w ≤ length s)%nat ∧
  ((∃ b, take w s = [b] ∧ r = b2z b ∧ b2z b < 0x80) ∨ Forall (λ b, 0x80 ≤ b2z b) (take w s)).
Proof.
  unfold decode_rune. destruct s as [|b0 s1]; [done|].
  destruct (Z.ltb_spec (b2z b0) 0x80).
  { intros [= <- <-]. cbn. split; [lia|]. left. eauto. }
  assert (H1 : ∀ b, is_cont b = true → 0x80 ≤ b2z b)
    by (intros b; unfold is_cont; rewrite in_range_true; lia).
  destruct s1 as [|b1 s2]; [done|]. destruct (in_range 0xC2 0xDF b0).
  { destruct (is_cont b1) eqn:E1; [|done]. intros [= <- <-]. cbn. split; [lia|].
    right. repeat constructor; auto. }
  destruct s2 as [|b2 s3]; [done|]. destruct (in_range 0xE0 0xEF b0).
  { destruct (accept_second b0 b1) eqn:E1, (is_cont b2) eqn:E2; cbn; try done.
    intros [= <- <-]. split; [lia|]. right. repeat constructor; eauto using accept_second_high. }
  destruct s3 as [|b3 s4]; [done|].
  destruct (in_range 0xF0 0xF4 b0), (accept_second b0 b1) eqn:E1, (is_cont b2) eqn:E2,
    (is_cont b3) eqn:E3; cbn; try done.
  intros [= <- <-]. split; [lia|]. right. repeat constructor; eauto using accept_second_high.
Qed.

Lemma validateLabel_Ok what s max :
  validateLabel what s max = Ok tt ↔
  Z.of_nat (length s) ≤ max ∧ ValidString s = true ∧ IndexFunc s is_control < 0.
Proof.
  unfold validateLabel. destruct (Z.ltb_spec max (Z.of_nat (length s))); [split; [done|lia]|].
  destruct (ValidString s); cbn; [|naive_solver].
  destruct (Z.leb_spec 0 (IndexFunc s is_control)); [split; [done|lia]|]. naive_solver.
Qed.

(** The label's name plays no part in the verdict. *)
Lemma validateLabel_any w w' s max :
  validateLabel w s max = Ok tt → validateLabel w' s max = Ok tt.
Proof. by rewrite !validateLabel_Ok. Qed.

Lemma validateLabel_length w s max :
  validateLabel w s max = Ok tt → Z.of_nat (length s) ≤ max.
Proof. rewrite validateLabel_Ok. tauto. Qed.

Lemma runes_from_no_control fuel i s :
  (length s ≤ fuel)%nat → 0 ≤ i →
  forallb snd (runes_from fuel i s) = true →
  (∀ x, List.find (λ x, is_control x.1.2) (runes_from fuel i s) = Some x → x.1.1 < 0) →
  Forall (λ b, 0x20 ≤ b2z b ∧ b2z b ≠ 0x7f) s.
Proof.
  revert i s. induction fuel as [|fuel IH]; intros i s Hlen Hi Hval Hfind.
  { destruct s; [constructor|cbn in *; lia]. }
  destruct s as [|b0 s]; [constructor|]. cbn [runes_from] in *.
  destruct (decode_rune (b0 :: s)) as [[r w] ok] eqn:Hd. cbn in Hval.
  apply andb_true_iff in Hval as [Hok Hval]. cbn in Hok. subst ok.
  apply decode_rune_bytes in Hd as [Hw Hbytes].
  cbn [List.find] in Hfind. cbn [fst snd] in Hfind.
  destruct (is_control r) eqn:Hc.
  { specialize (Hfind _ eq_refl). cbn in Hfind. lia. }
  rewrite <- (take_drop w (b0 :: s)). apply Forall_app. split.
  - destruct Hbytes as [(b & -> & -> & _)|Hhigh].
    + constructor; [|constructor]. unfold is_control in Hc.
      apply orb_false_iff in Hc as [Hc1%Z.ltb_ge Hc2%Z.eqb_neq]. done.
    + eapply Forall_impl; [done|]. cbn. lia.
  - apply (IH (i + Z.of_nat w)); [rewrite length_drop; cbn in *; lia|lia|done|done].
Qed.

(** A label the check accepts is short enough, is UTF-8, and contains no
    ASCII control byte, whatever the multi-byte runes around it. *)
Theorem validateLabel_no_control what s max :
  validateLabel what s max = Ok tt →
  Z.of_nat (length s) ≤ max ∧ ValidString s = true ∧
  Forall (λ b, 0x20 ≤ b2z b ∧ b2z b ≠ 0x7f) s.
Proof.
  rewrite validateLabel_Ok. intros (Hlen & Hv & Hi). split_and!; [done..|].
  apply (runes_from_no_control (length s) 0); [lia|lia|done|].
  intros [[i r] ok] Hf. unfold IndexFunc, runes in Hi. rewrite Hf in Hi. done.
Qed.

(** C1 controls are two bytes in UTF-8, both high: they pass. U+009B is the
    single-character form of the terminal's CSI. *)
Lemma validateLabel_admits_C1 :
  validateLabel LDisplayName [Byte.xc2; Byte.x9b] 32 = Ok tt ∧
  (runes [Byte.xc2; Byte.x9b]) = [(0, 0x9b, true)].
Proof. by vm_compute. Qed.

(** ** Writing runes *)

Lemma lor_shift k a x : 0 ≤ k → 0 ≤ x < 2 ^ k → Z.lor (Z.shiftl a k) x = a * 2 ^ k + x.
Proof.
  intros Hk Hx. assert (E : Z.land (Z.shiftl a k) x = 0).
  { apply Z.bits_inj'. intros i Hi. rewrite Z.land_spec, Z.shiftl_spec, Z.bits_0 by done. destruct (Z.lt_ge_cases i k) as [Hik|Hik].
    - by rewrite Z.testbit_neg_r by lia.
    - rewrite andb_comm. rewrite <- (Z.mod_small x (2 ^ k)) by done. by rewrite Z.mod_pow2_bits_high by lia. }
  rewrite <- Z.lxor_lor, <- Z.add_nocarry_lxor by done. by rewrite Z.shiftl_mul_pow2.
Qed.

Ltac dlia := Z.to_euclidean_division_equations; lia.

(** Unicode's scalar values. *)
Definition scalar (r : Z) : Prop := 0 ≤ r ≤ 0x10FFFF ∧ ¬ (0xD800 ≤ r ≤ 0xDFFF).

Lemma high_or m : 0 ≤ m < 64 → Z.lor 0x80 m = 128 + m.
Proof. intros Hm. change 0x80 with (Z.shiftl 2 6). by rewrite lor_shift. Qed.
Lemma tail_byte r k : 0 ≤ k → b2z (z2b (Z.lor 0x80 (Z.land (Z.shiftr r k) 0x3F))) = 128 + (r / 2 ^ k) mod 64.
Proof.
  intros Hk. change 0x3F with (Z.ones 6). rewrite Z.land_ones, Z.shiftr_div_pow2 by lia. change (2 ^ 6) with 64. generalize (r / 2 ^ k). intros q.
  pose proof (Z.mod_pos_bound q 64 ltac:(lia)). rewrite high_or by done. apply b2z_z2b_small. lia.
Qed.
Lemma lead_byte (n lead q w : Z) : lead = Z.shiftl w n → 0 ≤ n → 0 ≤ w → 0 ≤ q < 2 ^ n → w * 2 ^ n + 2 ^ n ≤ 256 → b2z (z2b (Z.lor lead q)) = lead + q.
Proof. intros -> Hn Hw Hq Hm. rewrite lor_shift by done. rewrite Z.shiftl_mul_pow2 by done. apply b2z_z2b_small. nia. Qed.
Lemma low6_tail r k : 0 ≤ k → low6 (z2b (Z.lor 0x80 (Z.land (Z.shiftr r k) 0x3F))) = (r / 2 ^ k) mod 64.
Proof.
  intros Hk. unfold low6. rewrite tail_byte by done. change 0x3F with (Z.ones 6). rewrite Z.land_ones by lia.
  change (2 ^ 6) with 64. pose proof (Z.mod_pos_bound (r / 2 ^ k) 64 ltac:(lia)) as Hm. rewrite <- Z.add_mod_idemp_l by lia. change (128 mod 64) with 0. rewrite Z.add_0_l. by rewrite Z.mod_mod.
Qed.
Lemma is_cont_tail r k : 0 ≤ k → is_cont (z2b (Z.lor 0x80 (Z.land (Z.shiftr r k) 0x3F))) = true.
Proof. intros Hk. unfold is_cont. rewrite in_range_true, tail_byte by done. pose proof (Z.mod_pos_bound (r / 2 ^ k) 64 ltac:(lia)) as Hm. lia. Qed.

(** A rune written is the rune read, whatever follows. *)
Lemma decode_write r s : scalar r → decode_rune (write_rune r ++ s) = (r, length (write_rune r), true).
Proof.
  intros [Hr Hs]. unfold write_rune. replace ((r <? 0) || (0x10FFFF <? r) || ((0xD800 <=? r) && (r <=? 0xDFFF))) with false by dlia.
  destruct (Z.ltb_spec r 0x80).
  { cbn [app decode_rune length]. rewrite b2z_z2b_small by dlia. by replace (r <? 128) with true by dlia. }
  destruct (Z.ltb_spec r 0x800).
  { set (t0 := z2b (Z.lor 0x80 _)). set (b0 := z2b (Z.lor 0xC0 _)).
    assert (E0 : b2z b0 = 0xC0 + r / 64) by (unfold b0; rewrite Z.shiftr_div_pow2 by dlia; apply (lead_byte 5 _ _ 6); [done|dlia|dlia| |dlia]; change (2 ^ 6) with 64; change (2 ^ 5) with 32; dlia).
    cbn [app decode_rune length]. rewrite E0. replace (0xC0 + r / 64 <? 0x80) with false by dlia.
    replace (in_range 0xC2 0xDF b0) with true by (symmetry; rewrite in_range_true, E0; dlia). unfold t0. rewrite is_cont_tail, low6_tail by dlia.
    f_equal. f_equal. change 0x1F with (Z.ones 5). rewrite Z.land_ones by dlia. replace ((0xC0 + r / 64) mod 2 ^ 5) with (r / 64) by (change (2 ^ 5) with 32; dlia).
    change (2 ^ 0) with 1. rewrite Z.div_1_r, lor_shift by dlia. change (2 ^ 6) with 64. dlia. }
  destruct (Z.ltb_spec r 0x10000).
  { set (t1 := z2b (Z.lor 0x80 (Z.land (Z.shiftr r 6) 63))). set (t0 := z2b (Z.lor 0x80 (Z.land (Z.shiftr r 0) 63))). set (b0 := z2b (Z.lor 0xE0 _)).
    assert (E0 : b2z b0 = 0xE0 + r / 4096) by (unfold b0; rewrite Z.shiftr_div_pow2 by dlia; apply (lead_byte 4 _ _ 14); [done|dlia|dlia| |dlia]; change (2 ^ 12) with 4096; change (2 ^ 4) with 16; dlia).
    assert (E1 : b2z t1 = 128 + (r / 64) mod 64) by (unfold t1; by rewrite tail_byte).
    cbn [app decode_rune length]. rewrite E0. replace (0xE0 + r / 4096 <? 0x80) with false by dlia.
    replace (in_range 0xC2 0xDF b0) with false by (symmetry; apply not_true_iff_false; rewrite in_range_true, E0; dlia).
    replace (in_range 0xE0 0xEF b0) with true by (symmetry; rewrite in_range_true, E0; dlia).
    replace (accept_second b0 t1) with true.
    2:{ symmetry. unfold accept_second. rewrite E0. repeat case_match; unfold is_cont; rewrite in_range_true, E1; dlia. }
    unfold t0, t1. rewrite is_cont_tail, !low6_tail by dlia. cbn [andb].
    f_equal. f_equal. change 0x0F with (Z.ones 4). rewrite Z.land_ones by dlia. replace ((0xE0 + r / 4096) mod 2 ^ 4) with (r / 4096) by (change (2 ^ 4) with 16; dlia).
    change (2 ^ 0) with 1. change (2 ^ 6) with 64. rewrite Z.div_1_r.
    rewrite <- Z.lor_assoc, (lor_shift 6) by dlia. rewrite lor_shift by dlia. change (2 ^ 12) with 4096. change (2 ^ 6) with 64. dlia. }
  set (t2 := z2b (Z.lor 0x80 (Z.land (Z.shiftr r 12) 63))). set (t1 := z2b (Z.lor 0x80 (Z.land (Z.shiftr r 6) 63))). set (t0 := z2b (Z.lor 0x80 (Z.land (Z.shiftr r 0) 63))). set (b0 := z2b (Z.lor 0xF0 _)).
  assert (E0 : b2z b0 = 0xF0 + r / 262144) by (unfold b0; rewrite Z.shiftr_div_pow2 by dlia; apply (lead_byte 3 _ _ 30); [done|dlia|dlia| |dlia]; change (2 ^ 18) with 262144; change (2 ^ 3) with 8; dlia).
  assert (E2 : b2z t2 = 128 + (r / 4096) mod 64) by (unfold t2; by rewrite tail_byte).
  cbn [app decode_rune length]. rewrite E0. replace (0xF0 + r / 262144 <? 0x80) with false by dlia.
  replace (in_range 0xC2 0xDF b0) with false by (symmetry; apply not_true_iff_false; rewrite in_range_true, E0; dlia).
  replace (in_range 0xE0 0xEF b0) with false by (symmetry; apply not_true_iff_false; rewrite in_range_true, E0; dlia).
  replace (in_range 0xF0 0xF4 b0) with true by (symmetry; rewrite in_range_true, E0; dlia).
  replace (accept_second b0 t2) with true.
  2:{ symmetry. unfold accept_second. rewrite E0. repeat case_match; unfold is_cont; rewrite in_range_true, E2; dlia. }
  unfold t0, t1, t2. rewrite !is_cont_tail, !low6_tail by dlia. cbn [andb].
  f_equal. f_equal. change 0x07 with (Z.ones 3). rewrite Z.land_ones by dlia. replace ((0xF0 + r / 262144) mod 2 ^ 3) with (r / 262144) by (change (2 ^ 3) with 8; dlia).
  change (2 ^ 0) with 1. change (2 ^ 6) with 64. change (2 ^ 12) with 4096. rewrite Z.div_1_r.
  rewrite <- !Z.lor_assoc, (lor_shift 6) by dlia. rewrite (lor_shift 12) by (change (2 ^ 12) with 4096; change (2 ^ 6) with 64; dlia).
  rewrite lor_shift by (change (2 ^ 12) with 4096; change (2 ^ 6) with 64; change (2 ^ 18) with 262144; dlia). change (2 ^ 18) with 262144. change (2 ^ 12) with 4096. change (2 ^ 6) with 64. dlia.
Qed.
