(* ===== verification/GoStrings.v ===== *)
(** * Strings (Go's package strings, and SQLite's NOCASE collation)

    What the code uses of them on names that people type: trimming, splitting,
    lower case, and the comparison of the text columns declared COLLATE NOCASE. *)

From S2P Require Import Prelude Binary Identity Order Text.

(** ** White space *)

(** The runes [unicode.IsSpace] accepts, in UTF-8. *)
Definition space_runes : list bytes :=
  [ [Byte.x20]; [Byte.x09]; [Byte.x0a]; [Byte.x0b]; [Byte.x0c]; [Byte.x0d]; [Byte.xc2; Byte.x85]; [Byte.xc2; Byte.xa0];
    [Byte.xe1; Byte.x9a; Byte.x80] ] ++
  ((λ c, [Byte.xe2; Byte.x80; z2b c]) <$> [0x80; 0x81; 0x82; 0x83; 0x84; 0x85; 0x86; 0x87; 0x88; 0x89; 0x8a; 0xa8; 0xa9; 0xaf]) ++
  [ [Byte.xe2; Byte.x81; Byte.x9f]; [Byte.xe3; Byte.x80; Byte.x80] ].

(** Drops one of the prefixes [ps]. *)
Definition strip_one (ps : list bytes) (s : bytes) : option bytes :=
  match filter (λ p, take (length p) s = p) ps with p :: _ => Some (drop (length p) s) | [] => None end.

(** And all there are; a round drops a byte at least, so the length is fuel enough. *)
Fixpoint strip (fuel : nat) (ps : list bytes) (s : bytes) : bytes :=
  match fuel with
  | O => s
  | S fuel' => match strip_one ps s with Some s' => strip fuel' ps s' | None => s end
  end.

Definition TrimLeft (s : bytes) : bytes := strip (length s) space_runes s.
Definition TrimRight (s : bytes) : bytes := reverse (strip (length s) (reverse <$> space_runes) (reverse s)).
Definition TrimSpace (s : bytes) : bytes := TrimRight (TrimLeft s).

(** ** Fields and case *)

(** [strings.FieldsFunc] for a predicate on ASCII: maximal runs without separators. *)
Fixpoint fields_from (sep : byte → bool) (cur : bytes) (s : bytes) : list bytes :=
  match s with
  | [] => match cur with [] => [] | _ => [cur] end
  | c :: s' =>
      if sep c then match cur with [] => fields_from sep [] s' | _ => cur :: fields_from sep [] s' end
      else fields_from sep (cur ++ [c]) s'
  end.
Definition FieldsFunc (sep : byte → bool) (s : bytes) : list bytes := fields_from sep [] s.

Definition is_upper (r : Z) : bool := (0x41 <=? r) && (r <=? 0x5a).
Definition is_lower (r : Z) : bool := (0x61 <=? r) && (r <=? 0x7a).
Definition is_digit (r : Z) : bool := (0x30 <=? r) && (r <=? 0x39).

(** [unicode.ToLower] where the result is ASCII: two runes beyond it go there. *)
Definition lower_rune (r : Z) : option Z :=
  if is_upper r then Some (r + 32)
  else if r <? 0x80 then Some r
  else if r =? 0x130 then Some 0x69
  else if r =? 0x212A then Some 0x6b
  else None.

(** [strings.ToLower] where the result is ASCII. *)
Definition ToLower_ascii (s : bytes) : option bytes :=
  mapM (λ x : Z * Z * bool, if x.2 then z2b <$> lower_rune x.1.2 else None) (runes s).

(** [strings.Cut] at a byte. *)
Fixpoint Cut (sep : byte) (s : bytes) : bytes * bytes * bool :=
  match s with
  | [] => ([], [], false)
  | c :: s' =>
      if bool_decide (c = sep) then ([], s', true)
      else let '(before, after, found) := Cut sep s' in (c :: before, after, found)
  end.

(** Names of areas and aliases are of letters, digits, [-], [_] and [.]. *)
Definition name_char (b : byte) : bool :=
  is_lower (b2z b) || is_upper (b2z b) || is_digit (b2z b) ||
  (b2z b =? 0x2d) || (b2z b =? 0x5f) || (b2z b =? 0x2e).
(** The first rune of [for _, r := range name] that is not one. *)
Definition bad_name_rune (s : bytes) : option Z :=
  snd ∘ fst <$> List.find (λ x : Z * Z * bool, negb ((x.1.2 <? 0x80) && name_char (z2b x.1.2))) (runes s).

(** ** COLLATE NOCASE: the 26 upper-case letters of ASCII are folded *)

Definition nocase (s : bytes) : bytes := lowerOf <$> s.

(** The order of strings: by the first byte that differs, else the shorter first. *)
Fixpoint less_text (a b : bytes) : bool :=
  match a, b with
  | _, [] => false
  | [], _ :: _ => true
  | x :: a', y :: b' => if decide (x = y) then less_text a' b' else b2z x <? b2z y
  end.

(** ** Lemmas *)

Lemma strip_none fuel ps s : strip_one ps s = None → strip fuel ps s = s.
Proof. intros H. destruct fuel; cbn; by rewrite ?H. Qed.

Lemma strip_one_none ps s : (∀ p, p ∈ ps → take (length p) s ≠ p) → strip_one ps s = None.
Proof.
  intros H. unfold strip_one. destruct (filter _ ps) as [|p l] eqn:E; [done|]. exfalso.
  assert (Hp : p ∈ p :: l) by left. rewrite <- E in Hp. apply list_elem_of_filter in Hp as [Ht Hp]. by apply (H p).
Qed.

(** A string that neither begins nor ends with a byte of a space rune is left alone. *)
Definition plain_byte (b : byte) : Prop := (0x21 ≤ b2z b < 0x7f).
#[export] Instance plain_byte_dec b : Decision (plain_byte b).
Proof. unfold plain_byte. apply _. Defined.

Lemma space_runes_firsts :
  Forall (λ p, match p with c :: _ => ¬ plain_byte c | [] => False end) space_runes ∧
  Forall (λ p, match p with c :: _ => ¬ plain_byte c | [] => False end) (reverse <$> space_runes).
Proof. split; repeat constructor; by_compute. Qed.

Lemma strip_plain (ps : list bytes) fuel s :
  Forall (λ p, match p with c :: _ => ¬ plain_byte c | [] => False end) ps →
  match s with c :: _ => plain_byte c | [] => True end → strip fuel ps s = s.
Proof.
  intros Hps Hs. apply strip_none, strip_one_none. intros p Hp E. rewrite Forall_forall in Hps. specialize (Hps p Hp).
  destruct p as [|c p]; [done|]. destruct s as [|d s]; [done|]. cbn in E. injection E as -> _. done.
Qed.

Lemma TrimSpace_plain s : Forall plain_byte s → TrimSpace s = s.
Proof.
  intros Hs. unfold TrimSpace, TrimRight, TrimLeft. destruct space_runes_firsts as [H1 H2].
  rewrite (strip_plain space_runes) by (done || by destruct Hs).
  rewrite strip_plain; [apply reverse_involutive|done|]. apply Forall_reverse in Hs. by destruct Hs.
Qed.

Lemma strip_none_after ps s fuel : [] ∉ ps → (length s ≤ fuel)%nat → strip_one ps (strip fuel ps s) = None.
Proof.
  intros Hps. revert s. induction fuel as [|fuel IH]; intros s Hl.
  - destruct s; [|cbn in Hl; lia]. cbn. apply strip_one_none. intros p Hp E. rewrite take_nil in E. by subst.
  - cbn. destruct (strip_one ps s) as [s'|] eqn:E; [|done]. apply IH. unfold strip_one in E.
    destruct (filter _ ps) as [|p l] eqn:Ef; [done|]. injection E as <-.
    assert (Hp : p ∈ p :: l) by left. rewrite <- Ef in Hp. apply list_elem_of_filter in Hp as [_ Hp].
    destruct p; [done|]. rewrite length_drop. cbn. lia.
Qed.

#[export] Instance less_text_total : StrictTotal less_text.
Proof.
  split.
  - intros a. induction a; cbn; [done|]. by rewrite decide_True.
  - intros a. induction a as [|x a IH]; intros [|y b] [|z c]; cbn; try done.
    repeat case_decide; subst; try done; eauto; rewrite ?Z.ltb_lt; lia.
  - intros a. induction a as [|x a IH]; intros [|y b]; cbn; auto.
    destruct (decide (x = y)) as [->|Hne].
    + rewrite decide_True by done. destruct (IH b) as [?|[->|?]]; auto.
    + rewrite decide_False by done. destruct (Z.ltb_spec (b2z x) (b2z y)); auto. right; right. apply Z.ltb_lt.
      assert (b2z x ≠ b2z y) by (intros ?%b2z_inj; done). lia.
Qed.

Lemma lowerOf_idem c : lowerOf (lowerOf c) = lowerOf c.
Proof. by destruct c. Qed.
Lemma nocase_idem s : nocase (nocase s) = nocase s.
Proof. unfold nocase. rewrite <- list_fmap_compose. apply list_fmap_ext. intros i c _. apply lowerOf_idem. Qed.
Lemma length_nocase s : length (nocase s) = length s.
Proof. apply length_fmap. Qed.

(** ** ASCII *)

Definition ascii (s : bytes) : Prop := Forall (λ c, b2z c < 0x80) s.

Lemma decode_rune_ascii c s : b2z c < 0x80 → decode_rune (c :: s) = (b2z c, 1%nat, true).
Proof. intros H. cbn [decode_rune]. by rewrite (proj2 (Z.ltb_lt _ _) H). Qed.

Lemma runes_from_ascii n i s : ascii s → (length s ≤ n)%nat → (λ x : Z * Z * bool, (x.1.2, x.2)) <$> runes_from n i s = (λ c, (b2z c, true)) <$> s.
Proof.
  intros Hs. revert n i. induction Hs as [|c s Hc Hs IH]; intros n i Hn; [by destruct n|].
  destruct n as [|n]; [cbn in Hn; lia|]. cbn [runes_from]. rewrite decode_rune_ascii by done. cbn [fmap list_fmap drop]. f_equal. apply IH. cbn in Hn. lia.
Qed.

Lemma runes_ascii s : ascii s → (λ x : Z * Z * bool, (x.1.2, x.2)) <$> runes s = (λ c, (b2z c, true)) <$> s.
Proof. intros Hs. by apply runes_from_ascii. Qed.

Lemma lower_rune_ascii c : b2z c < 0x80 → z2b <$> lower_rune (b2z c) = Some (lowerOf c).
Proof. destruct c; intros H; first [reflexivity|by vm_compute in H]. Qed.

Lemma ToLower_ascii_spec s : ascii s → ToLower_ascii s = Some (nocase s).
Proof.
  intros Hs. unfold ToLower_ascii. pose proof (runes_ascii s Hs) as Hr. revert Hs Hr. generalize (runes s) as l. intros l. revert s. induction l as [|x l IH]; intros [|c s] Hs Hr; try done.
  apply Forall_cons in Hs as [Hc Hs]. cbn [fmap list_fmap] in Hr. injection Hr as Hx1 Hx2 Hr. cbn [mapM]. rewrite Hx1, Hx2, lower_rune_ascii by done.
  cbn [mbind option_bind]. rewrite (IH s Hs Hr). done.
Qed.

Lemma plain_ascii s : Forall plain_byte s → ascii s.
Proof. intros H. eapply Forall_impl; [exact H|]. unfold plain_byte. intros c Hc. cbn. lia. Qed.

Lemma plain_lowerOf c : plain_byte (lowerOf c) ↔ plain_byte c.
Proof. unfold plain_byte. destruct c; vm_compute; split; intros [? ?]; split; (done || congruence). Qed.

Lemma plain_nocase s : Forall plain_byte (nocase s) ↔ Forall plain_byte s.
Proof. unfold nocase. rewrite Forall_fmap. apply Forall_iff. intros c. apply plain_lowerOf. Qed.

Lemma name_char_plain c : name_char c = true → plain_byte c.
Proof. destruct c; intros H; first [by vm_compute in H|by_compute]. Qed.

(** A well-formed rune of several bytes is not ASCII. *)
Lemma lor_high a b : 0 ≤ a → 0 ≤ b → 0x80 ≤ a ∨ 0x80 ≤ b → 0x80 ≤ Z.lor a b.
Proof.
  intros Ha Hb H. assert (Hn : 0 ≤ Z.lor a b) by (by apply Z.lor_nonneg). assert (Hp : 0 < Z.lor a b).
  { destruct (decide (Z.lor a b = 0)) as [E|]; [apply Z.lor_eq_0_iff in E; lia|lia]. }
  change 0x80 with (2 ^ 7). apply Z.log2_le_pow2; [done|]. rewrite Z.log2_lor by done.
  destruct H as [H|H]; change 0x80 with (2 ^ 7) in H; apply Z.log2_le_pow2 in H; lia.
Qed.

Lemma lead_bits b0 :
  (in_range 0xC2 0xDF b0 = true → 0x80 ≤ Z.shiftl (Z.land (b2z b0) 0x1F) 6) ∧
  (in_range 0xE0 0xEF b0 = true → b0 = Byte.xe0 ∨ 0x80 ≤ Z.shiftl (Z.land (b2z b0) 0x0F) 12) ∧
  (in_range 0xF0 0xF4 b0 = true → b0 = Byte.xf0 ∨ 0x80 ≤ Z.shiftl (Z.land (b2z b0) 0x07) 18).
Proof. destruct b0; vm_compute; split_and!; intros; first [done|by left|right; done]. Qed.

Lemma second_bits b1 :
  (in_range 0xA0 0xBF b1 = true → 0x80 ≤ Z.shiftl (low6 b1) 6) ∧ (in_range 0x90 0xBF b1 = true → 0x80 ≤ Z.shiftl (low6 b1) 12).
Proof. destruct b1; vm_compute; split; intros; done. Qed.

Lemma shiftl_land_nonneg b m k : 0 ≤ m → 0 ≤ Z.shiftl (Z.land (b2z b) m) k.
Proof. intros Hm. apply Z.shiftl_nonneg, Z.land_nonneg. by right. Qed.

Lemma decode_rune_high c s r w ok : 0x80 ≤ b2z c → decode_rune (c :: s) = (r, w, ok) → 0x80 ≤ r.
Proof.
  intros Hc. unfold decode_rune. rewrite (proj2 (Z.ltb_ge _ _) Hc).
  assert (Hbad : 0x80 ≤ RuneError) by done. destruct (lead_bits c) as (H2 & H3 & H4).
  assert (Hl : ∀ b, 0 ≤ low6 b) by (intros b; apply Z.land_nonneg; by right).
  assert (Hls : ∀ b k, 0 ≤ Z.shiftl (low6 b) k) by (intros; apply Z.shiftl_nonneg, Hl).
  destruct s as [|b1 s]; [by intros [= <- _ _]|]. destruct (in_range 0xC2 0xDF c).
  { destruct (is_cont b1); intros [= <- _ _]; [|done]. apply lor_high; [by apply shiftl_land_nonneg|done|left; by apply H2]. }
  destruct (second_bits b1) as [Hs3 Hs4]. destruct s as [|b2 s]; [by intros [= <- _ _]|]. destruct (in_range 0xE0 0xEF c) eqn:E3.
  { destruct (accept_second c b1) eqn:Ea, (is_cont b2); intros [= <- _ _]; try done.
    assert (Hor : 0x80 ≤ Z.lor (Z.shiftl (Z.land (b2z c) 0x0F) 12) (Z.shiftl (low6 b1) 6)).
    { apply lor_high; [by apply shiftl_land_nonneg|done|]. destruct (H3 eq_refl) as [->|?]; [right|by left]. by apply Hs3. }
    apply lor_high; [lia|done|by left]. }
  destruct s as [|b3 s]; [by intros [= <- _ _]|]. destruct (in_range 0xF0 0xF4 c) eqn:E4; [|by intros [= <- _ _]].
  destruct (accept_second c b1) eqn:Ea, (is_cont b2), (is_cont b3); intros [= <- _ _]; try done.
  assert (Hor : 0x80 ≤ Z.lor (Z.shiftl (Z.land (b2z c) 0x07) 18) (Z.shiftl (low6 b1) 12)).
  { apply lor_high; [by apply shiftl_land_nonneg|done|]. destruct (H4 eq_refl) as [->|?]; [right|by left]. by apply Hs4. }
  assert (Hor2 : 0x80 ≤ Z.lor (Z.lor (Z.shiftl (Z.land (b2z c) 0x07) 18) (Z.shiftl (low6 b1) 12)) (Z.shiftl (low6 b2) 6)) by (apply lor_high; [lia|done|by left]).
  apply lor_high; [lia|done|by left].
Qed.

Lemma bad_name_rune_None s : bad_name_rune s = None → Forall (λ c, name_char c = true) s.
Proof.
  unfold bad_name_rune. intros H. destruct (List.find _ (runes s)) as [x|] eqn:Hf; [done|]. clear H.
  assert (Ha : ∀ n i t, (length t ≤ n)%nat → (∀ x, x ∈ runes_from n i t → (x.1.2 <? 0x80) && name_char (z2b x.1.2) = true) → Forall (λ c, name_char c = true) t).
  { clear. intros n i t. revert i t. induction n as [|n IH]; intros i t Hn Hall; [destruct t; [constructor|cbn in Hn; lia]|].
    destruct t as [|c t]; [constructor|]. cbn [runes_from] in Hall. destruct (decode_rune (c :: t)) as [[r w] ok] eqn:Hd.
    pose proof (Hall _ (list_elem_of_here _ _)) as [Hr Hc]%andb_true_iff. cbn [fst snd] in Hr, Hc. apply Z.ltb_lt in Hr.
    destruct (Z.ltb_spec (b2z c) 0x80) as [Hlt|Hge].
    - rewrite decode_rune_ascii in Hd by done. injection Hd as <- <- _. constructor; [by rewrite z2b_b2z in Hc|].
      apply (IH (i + Z.of_nat 1)); [cbn in Hn; lia|]. intros x Hx. apply Hall. by right.
    - exfalso. pose proof (decode_rune_high c t r w ok Hge Hd). lia. }
  apply (Ha (length s) 0); [done|]. intros x Hx. apply list_elem_of_In in Hx. pose proof (List.find_none _ _ Hf x Hx) as Hn. by apply negb_false_iff in Hn.
Qed.

(** ** Fields *)

Definition no_sep (sep : byte → bool) (w : bytes) : Prop := w ≠ [] ∧ Forall (λ c, sep c = false) w.

Lemma fields_from_word sep cur w s : Forall (λ c, sep c = false) w → fields_from sep cur (w ++ s) = fields_from sep (cur ++ w) s.
Proof.
  intros H. revert cur. induction H as [|c w Hc _ IH]; intros cur; [by rewrite app_nil_r|]. cbn [app fields_from]. rewrite Hc, IH. by rewrite <- app_assoc.
Qed.

Lemma FieldsFunc_single sep w : no_sep sep w → FieldsFunc sep w = [w].
Proof. intros [Hne Hw]. unfold FieldsFunc. rewrite <- (app_nil_r w) at 1. rewrite fields_from_word by done. cbn. by destruct w. Qed.

Lemma FieldsFunc_cons sep w c s : no_sep sep w → sep c = true → FieldsFunc sep (w ++ c :: s) = w :: FieldsFunc sep s.
Proof. intros [Hne Hw] Hc. unfold FieldsFunc. rewrite fields_from_word by done. cbn. rewrite Hc. by destruct w. Qed.

Lemma fields_from_map sep f (cur s : list byte) : (∀ c, sep (f c) = sep c) →
  fields_from sep (fmap (M:=list) f cur) (fmap (M:=list) f s) = fmap (M:=list) (fmap (M:=list) f) (fields_from sep cur s).
Proof.
  intros Hf. revert cur. induction s as [|c s IH]; intros cur; [by destruct cur|].
  change (fmap (M:=list) f (c :: s)) with (f c :: fmap (M:=list) f s). cbn [fields_from]. rewrite Hf. destruct (sep c).
  - pose proof (IH []) as H0. destruct cur as [|d cur]; [exact H0|]. cbn [fields_from]. change (fmap (M:=list) f (d :: cur)) with (f d :: fmap (M:=list) f cur).
    change (fmap (M:=list) f []) with (@nil byte) in H0. by rewrite H0.
  - rewrite <- IH. by rewrite fmap_app.
Qed.

Lemma fields_from_Forall (P : byte → Prop) sep cur s : Forall P cur → Forall P s → Forall (Forall P) (fields_from sep cur s).
Proof.
  intros Hcur Hs. revert cur Hcur. induction Hs as [|c s Hc Hs IH]; intros cur Hcur; cbn [fields_from]; [destruct cur; [constructor|constructor; [done|constructor]]|].
  destruct (sep c); [destruct cur; [by apply IH|constructor; [done|by apply IH]]|]. apply IH, Forall_app. split; [done|by constructor].
Qed.

(** ** Trimming twice *)

Lemma strip_one_None ps s : strip_one ps s = None ↔ ∀ p, p ∈ ps → take (length p) s ≠ p.
Proof.
  split; [|apply strip_one_none]. unfold strip_one. destruct (filter _ ps) as [|p l] eqn:E; [|done]. intros _ p Hp Ht.
  assert (Hin : p ∈ filter (λ p, take (length p) s = p) ps) by (by apply list_elem_of_filter). rewrite E in Hin. by apply elem_of_nil in Hin.
Qed.

Lemma strip_suffix fuel ps s : ∃ k, strip fuel ps s = drop k s.
Proof.
  revert s. induction fuel as [|fuel IH]; intros s; [by exists 0%nat|]. cbn. destruct (strip_one ps s) as [s'|] eqn:E; [|by exists 0%nat].
  destruct (IH s') as [k ->]. unfold strip_one in E. destruct (filter _ ps) as [|p l]; [done|]. injection E as <-.
  rewrite drop_drop. by eexists.
Qed.

Lemma TrimRight_prefix s : ∃ k, TrimRight s = take k s.
Proof.
  unfold TrimRight. destruct (strip_suffix (length s) (reverse <$> space_runes) (reverse s)) as [k ->].
  exists (length s - k)%nat. by rewrite drop_reverse, reverse_involutive.
Qed.

Lemma no_empty_space : [] ∉ space_runes ∧ [] ∉ (reverse <$> space_runes).
Proof. split; by_compute. Qed.

Lemma TrimSpace_idem s : TrimSpace (TrimSpace s) = TrimSpace s.
Proof.
  destruct no_empty_space as [H1 H2]. unfold TrimSpace. set (t := TrimLeft s).
  assert (Ht : TrimLeft (TrimRight t) = TrimRight t).
  { unfold TrimLeft at 1. apply strip_none, strip_one_None. intros p Hp E.
    pose proof (strip_none_after space_runes s (length s) H1 (Nat.le_refl _)) as Hn. rewrite strip_one_None in Hn.
    destruct (TrimRight_prefix t) as [k Hk]. apply (Hn p Hp). change (strip (length s) space_runes s) with t.
    rewrite Hk, take_take in E. assert (length p ≤ k)%nat; [|by rewrite Nat.min_l in E].
    rewrite <- E at 1. rewrite length_take. lia. }
  rewrite Ht. unfold TrimRight at 1. rewrite strip_none; [apply reverse_involutive|].
  unfold TrimRight. rewrite reverse_involutive. apply strip_none_after; [done|]. by rewrite length_reverse.
Qed.
