(* ===== verification/NodeNames.v ===== *)
(** * Naming nodes (internal/identity/words.go, nodeid.go, internal/store/nodes.go)

    The six-word rendering of a node ID and its reader, the parser of typed node
    IDs, the sysop's aliases, and the resolution of a reference to a node. *)

From stdpp Require Import strings relations.
From S2P Require Import Prelude Binary Identity Order Text GoStrings WordList.

(** ** Six words (words.go) *)

Definition WordCount : nat := 6.
Definition bitsPerWord : Z := 11.
Definition checksumBits : Z := 2.

Definition word (i : Z) : bytes := nth (Z.to_nat i) wordList [].

(** [wordIndex]; no word is twice on the list. *)
Definition word_index (w : bytes) : option Z := (λ x : nat * bytes, Z.of_nat x.1) <$> list_find (λ v, v = w) wordList.

Section words.
Context `{HB : Blake3}.

Definition checksum (id : NodeID) : Z := Z.shiftr (b2z (nth 0 (vec_to_list (blake3_sum256 (vec_to_list id))) Byte.x00)) (8 - checksumBits).

(** [emit]: fewer than eleven bits are pending before eight come in, so a round is
    enough. *)
Fixpoint emit11 (fuel : nat) (acc bits : Z) : list bytes * Z :=
  match fuel with
  | O => ([], bits)
  | S f =>
      if bitsPerWord <=? bits then
        let bits := bits - bitsPerWord in
        let '(o, rem) := emit11 f acc bits in
        (word (Z.land (Z.shiftr acc bits) 0x7ff) :: o, rem)
      else ([], bits)
  end.

Fixpoint words_loop (chk acc bits : Z) (b : bytes) : list bytes :=
  match b with
  | [] => (emit11 1 (Z.lor (u32 (Z.shiftl acc checksumBits)) chk) (bits + checksumBits)).1
  | c :: b' =>
      let acc := Z.lor (u32 (Z.shiftl acc 8)) (b2z c) in
      let '(o, rem) := emit11 1 acc (bits + 8) in
      o ++ words_loop chk acc rem b'
  end.

Definition EncodeWords (id : NodeID) : list bytes := words_loop (checksum id) 0 0 (vec_to_list id).

Inductive words_error :=
| ExpectedWords (n : nat)
| NotInWordlist (i : Z) (w : bytes)
| DecodedBytes (n : nat)
| ChecksumMismatch.

(** [for bits >= 8]: eighteen bits at most, two rounds. *)
Fixpoint emit8 (fuel : nat) (acc bits : Z) : bytes * Z :=
  match fuel with
  | O => ([], bits)
  | S f =>
      if 8 <=? bits then
        let bits := bits - 8 in
        let '(o, rem) := emit8 f acc bits in (z2b (Z.shiftr acc bits) :: o, rem)
      else ([], bits)
  end.

Definition spoken (w : bytes) : option bytes := ToLower_ascii (TrimSpace w).

Fixpoint decode_words (i acc bits : Z) (ws : list bytes) : result words_error (bytes * Z) :=
  match ws with
  | [] => Ok ([], acc)
  | w :: ws' =>
      match spoken w ≫= word_index with
      | None => Err (NotInWordlist i w)
      | Some idx =>
          let acc := Z.lor (u32 (Z.shiftl acc bitsPerWord)) idx in
          let '(o, rem) := emit8 2 acc (bits + bitsPerWord) in
          '(out, acc) ← decode_words (i + 1) acc rem ws';
          Ok (o ++ out, acc)
      end
  end.

Definition DecodeWords (words : list bytes) : result words_error NodeID :=
  _ ← require (bool_decide (length words = WordCount)) (ExpectedWords (length words));
  '(out, acc) ← decode_words 1 0 0 words;
  _ ← require (bool_decide (length out = NodeIDLen)) (DecodedBytes (length out));
  let id := arr_of 8 out in
  _ ← require (Z.land (u16 acc) (Z.shiftl 1 checksumBits - 1) =? checksum id) ChecksumMismatch;
  Ok id.

Fixpoint join (sep : bytes) (l : list bytes) : bytes :=
  match l with [] => [] | [x] => x | x :: l' => x ++ sep ++ join sep l' end.

Definition NodeID_Words (id : NodeID) : bytes := join [Byte.x2d] (EncodeWords id).

(** ** Typed node IDs (nodeid.go) *)

Inductive id_error :=
| EmptyNodeID
| NotANodeID (e : base32_error)
| NodeIDLength (n : nat).

Definition id_sep (c : byte) : bool := bool_decide (c = Byte.x20) || bool_decide (c = Byte.x2d) || bool_decide (c = Byte.x09).

Definition parse_base32 (fields : list bytes) : result id_error NodeID :=
  b ← wrap_err NotANodeID (DecodeBase32 (concat fields));
  _ ← require (bool_decide (length b = NodeIDLen)) (NodeIDLength (length b));
  Ok (arr_of 8 b).

Definition ParseNodeID (s : bytes) : result id_error NodeID :=
  let trimmed := TrimSpace s in
  if bool_decide (trimmed = []) then Err EmptyNodeID
  else
    let fields := FieldsFunc id_sep trimmed in
    if bool_decide (length fields = WordCount) then
      match DecodeWords fields with Ok id => Ok id | Err _ => parse_base32 fields end
    else parse_base32 fields.

(** ** Aliases (store/nodes.go) *)

Definition MaxAliasLen : Z := 32.

Inductive alias_error :=
| EmptyAlias
| AliasTooLong (n : Z)
| AliasCharacter (r : Z)
| AliasIsNodeID (a : bytes)
| AliasNotFound
| NoNodeKnownAs (ref : bytes).

Record Alias := mkAlias { al_Alias : bytes; al_NodeID : NodeID }.

Definition ValidateAlias (alias : bytes) : result alias_error unit :=
  _ ← require (negb (bool_decide (alias = []))) EmptyAlias;
  _ ← require (strlen alias <=? MaxAliasLen) (AliasTooLong (strlen alias));
  _ ← match bad_name_rune alias with Some r => Err (AliasCharacter r) | None => Ok tt end;
  require (negb (is_ok (ParseNodeID alias))) (AliasIsNodeID alias).

(** The column is compared without regard to case. *)
Definition is_alias (alias : bytes) (a : Alias) : bool := bool_decide (nocase (al_Alias a) = nocase alias).

Definition SetAlias (alias : bytes) (id : NodeID) (t : list Alias) : result alias_error unit * list Alias :=
  let alias := TrimSpace alias in
  match ValidateAlias alias with
  | Err e => (Err e, t)
  | Ok _ =>
      if existsb (is_alias alias) t
      then (Ok tt, (λ a, if is_alias alias a then mkAlias (al_Alias a) id else a) <$> t)
      else (Ok tt, t ++ [mkAlias alias id])
  end.

Definition ResolveAlias (alias : bytes) (t : list Alias) : result alias_error NodeID :=
  match List.find (is_alias (TrimSpace alias)) t with Some a => Ok (al_NodeID a) | None => Err AliasNotFound end.

Definition RemoveAlias (alias : bytes) (t : list Alias) : result alias_error unit * list Alias :=
  let alias := TrimSpace alias in
  if existsb (is_alias alias) t then (Ok tt, filter (λ a, is_alias alias a = false) t) else (Err AliasNotFound, t).

Definition ListAliases (t : list Alias) : list Alias := sort_by (λ a, nocase (al_Alias a)) less_text t.

Definition ResolveNodeRef (ref : bytes) (t : list Alias) : result alias_error NodeID :=
  let ref := TrimSpace ref in
  match ParseNodeID ref with
  | Ok id => Ok id
  | Err _ =>
      match ResolveAlias ref t with
      | Err AliasNotFound => Err (NoNodeKnownAs ref)
      | r => r
      end
  end.
End words.

(** ** Words and indices *)

Lemma wordList_NoDup : NoDup wordList.
Proof. apply (bool_decide_unpack _). by vm_compute. Qed.

(** Every word is three to eight lower-case letters. *)
Definition word_like (w : bytes) : Prop := 3 ≤ strlen w ≤ 8 ∧ Forall (λ c, is_lower (b2z c) = true) w.
#[export] Instance word_like_dec w : Decision (word_like w).
Proof. unfold word_like. apply _. Defined.
Lemma wordList_words : Forall word_like wordList.
Proof. apply (bool_decide_unpack _). by vm_compute. Qed.

Lemma word_lookup i : 0 ≤ i < 2048 → wordList !! Z.to_nat i = Some (word i).
Proof.
  intros Hi. unfold word. destruct (nth_lookup_or_length wordList (Z.to_nat i) []) as [H|H]; [exact H|]. rewrite length_wordList in H. lia.
Qed.

Lemma word_index_Some w i : word_index w = Some i ↔ 0 ≤ i < 2048 ∧ w = word i.
Proof.
  unfold word_index. rewrite fmap_Some. split.
  - intros ([n v] & (Hn & -> & _)%list_find_Some & ->). cbn [fst].
    pose proof (lookup_lt_Some _ _ _ Hn) as Hl. rewrite length_wordList in Hl. split; [lia|].
    unfold word. rewrite Nat2Z.id. symmetry. by apply nth_lookup_Some.
  - intros [Hi ->]. pose proof (word_lookup i Hi) as Hw. exists (Z.to_nat i, word i). split; [|cbn; lia].
    apply list_find_Some. split_and!; [done|done|]. intros j y Hj Hlt ->.
    pose proof (NoDup_lookup _ _ _ _ wordList_NoDup Hj Hw). lia.
Qed.

Lemma word_inj i j : 0 ≤ i < 2048 → 0 ≤ j < 2048 → word i = word j → i = j.
Proof.
  intros Hi Hj E. pose proof (word_lookup i Hi) as H1. pose proof (word_lookup j Hj) as H2. rewrite E in H1.
  pose proof (NoDup_lookup _ _ _ _ wordList_NoDup H1 H2). lia.
Qed.

Definition is_index (i : Z) : Prop := 0 ≤ i < 2048.
Definition idx_bits (xs : list Z) : list bool := xs ≫= bits_of 11.

Lemma idx_bits_cons i xs : idx_bits (i :: xs) = bits_of 11 i ++ idx_bits xs.
Proof. done. Qed.
Lemma idx_bits_app xs ys : idx_bits (xs ++ ys) = idx_bits xs ++ idx_bits ys.
Proof. apply bind_app. Qed.

Lemma length_idx_bits xs : length (idx_bits xs) = (11 * length xs)%nat.
Proof. rewrite Nat.mul_comm. apply length_bind_const, length_bits_of. Qed.
Lemma length_byte_bits b : length (byte_bits b) = (8 * length b)%nat.
Proof. rewrite Nat.mul_comm. apply length_bind_const. intros. apply length_bits_of. Qed.

Lemma bits_of_inj w x y : 0 ≤ x < 2 ^ Z.of_nat w → 0 ≤ y < 2 ^ Z.of_nat w → bits_of w x = bits_of w y → x = y.
Proof. intros Hx Hy E. apply (f_equal bits_val) in E. by rewrite !bits_val_of, !Z.mod_small in E. Qed.

Lemma idx_bits_inj xs ys : Forall is_index xs → Forall is_index ys → idx_bits xs = idx_bits ys → xs = ys.
Proof.
  intros Hi. revert ys. induction Hi as [|i xs Hi _ IH]; intros [|j ys] Hj E.
  - done.
  - apply (f_equal length) in E. rewrite !length_idx_bits in E. cbn in E. lia.
  - apply (f_equal length) in E. rewrite !length_idx_bits in E. cbn in E. lia.
  - apply Forall_cons in Hj as [Hj Hys]. rewrite !idx_bits_cons in E. apply app_inj_1 in E as [E1 E2]; [|by rewrite !length_bits_of].
    f_equal; [|by apply IH]. by apply (bits_of_inj 11).
Qed.

Lemma byte_bits_inj b c : byte_bits b = byte_bits c → b = c.
Proof.
  revert c. induction b as [|x b IH]; intros [|y c] E; [done| | |].
  - apply (f_equal length) in E. rewrite !length_byte_bits in E. cbn in E. lia.
  - apply (f_equal length) in E. rewrite !length_byte_bits in E. cbn in E. lia.
  - rewrite !byte_bits_cons in E. apply app_inj_1 in E as [E1 E2]; [|by rewrite !length_bits_of]. f_equal; [|by apply IH].
    apply b2z_inj, (bits_of_inj 8); [apply b2z_range|apply b2z_range|done].
Qed.

(** ** The encoder *)

Section words_facts.
Context `{HB : Blake3}.

Lemma checksum_range id : 0 ≤ checksum id < 4.
Proof.
  unfold checksum. pose proof (b2z_range (nth 0 (vec_to_list (blake3_sum256 (vec_to_list id))) Byte.x00)) as H. change (8 - checksumBits) with 6.
  rewrite Z.shiftr_div_pow2 by lia. change (2 ^ 6) with 64.
  split; [apply Z.div_pos; lia|apply Z.div_lt_upper_bound; lia].
Qed.

Lemma emit11_spec acc p o rem :
  pending acc p → (length p < 22)%nat → emit11 1 acc (Z.of_nat (length p)) = (o, rem) →
  ∃ xs t, o = word <$> xs ∧ Forall is_index xs ∧ idx_bits xs ++ t = p ∧ rem = Z.of_nat (length t) ∧ (length t < 11)%nat ∧ pending acc t.
Proof.
  intros Hp Hlen. unfold emit11, bitsPerWord. destruct (Z.leb_spec 11 (Z.of_nat (length p))) as [Hge|Hlt].
  2:{ intros [= <- <-]. exists [], p. split_and!; (done || lia || by constructor). }
  intros [= <- <-]. pose proof Hp as Hp'. rewrite <- (take_drop 11 p) in Hp.
  assert (Hl : length (take 11 p) = 11%nat) by (rewrite length_take; lia).
  apply pending_pop in Hp as [Hh Ht]. rewrite Hl in Hh. change (Z.of_nat 11) with 11 in Hh.
  replace (Z.of_nat (length p) - 11) with (Z.of_nat (length (drop 11 p))) by (rewrite length_drop; lia).
  pose proof (bits_val_range (take 11 p)) as Hr. rewrite Hl in Hr.
  exists [bits_val (take 11 p)], (drop 11 p). change 0x7ff with (Z.ones 11). rewrite Z.land_ones, Hh by lia.
  split_and!; [done|constructor; [exact Hr|constructor]| |done|rewrite length_drop; lia|done].
  rewrite idx_bits_cons. change (idx_bits []) with (@nil bool). rewrite app_nil_r, <- Hl at 1. rewrite bits_of_val. apply take_drop.
Qed.

Lemma words_loop_spec chk b acc p :
  0 ≤ chk < 4 → pending acc p → (length p < 11)%nat →
  ∃ xs t, words_loop chk acc (Z.of_nat (length p)) b = word <$> xs ∧ Forall is_index xs ∧
    idx_bits xs ++ t = p ++ byte_bits b ++ bits_of 2 chk ∧ (length t < 11)%nat.
Proof.
  intros Hchk. revert acc p. induction b as [|c b IH]; intros acc p Hp Hlen; cbn [words_loop].
  - pose proof (pending_push_mod 32 acc p 2 chk Hp ltac:(lia) Hchk) as Hq. change (Z.of_nat 2) with checksumBits in Hq.
    replace (Z.of_nat (length p) + checksumBits) with (Z.of_nat (length (p ++ bits_of 2 chk))) by (rewrite length_app, length_bits_of; unfold checksumBits; lia).
    destruct (emit11 1 _ _) as [o rem] eqn:E. apply emit11_spec in E as (xs & t & -> & His & Ht & _ & Hlt & _); [|done|rewrite length_app, length_bits_of; lia].
    exists xs, t. done.
  - pose proof (b2z_range c) as Hc.
    pose proof (pending_push_mod 32 acc p 8 (b2z c) Hp ltac:(lia) ltac:(cbn; lia)) as Hq. change (Z.of_nat 8) with 8 in Hq.
    replace (Z.of_nat (length p) + 8) with (Z.of_nat (length (p ++ bits_of 8 (b2z c)))) by (rewrite length_app, length_bits_of; lia).
    destruct (emit11 1 _ _) as [o rem] eqn:E. apply emit11_spec in E as (xs & t & -> & His & Ht & -> & Hlt & Hpt); [|done|rewrite length_app, length_bits_of; lia].
    destruct (IH _ t Hpt Hlt) as (ys & t' & -> & Hys & Hb & Hlt'). exists (xs ++ ys), t'. split_and!.
    + by rewrite fmap_app.
    + by apply Forall_app.
    + by rewrite idx_bits_app, <- app_assoc, Hb, app_assoc, Ht, byte_bits_cons, <- !app_assoc.
    + done.
Qed.

(** The bits a rendering carries. *)
Definition id_bits (id : NodeID) : list bool := byte_bits (vec_to_list id) ++ bits_of 2 (checksum id).

Lemma length_id_bits id : length (id_bits id) = 66%nat.
Proof. unfold id_bits. rewrite length_app, length_byte_bits, length_bits_of, length_vec_to_list. done. Qed.

Lemma EncodeWords_spec id : ∃ xs, EncodeWords id = word <$> xs ∧ Forall is_index xs ∧ length xs = 6%nat ∧ idx_bits xs = id_bits id.
Proof.
  destruct (words_loop_spec (checksum id) (vec_to_list id) 0 [] (checksum_range id) pending_nil ltac:(cbn; lia)) as (xs & t & Hw & His & Hb & Ht).
  change (Z.of_nat (length (@nil bool))) with 0 in Hw. cbn [app] in Hb. fold (id_bits id) in Hb.
  pose proof (f_equal length Hb) as Hl. rewrite length_app, length_idx_bits, length_id_bits in Hl.
  assert (length xs = 6%nat) as H6 by lia. exists xs. split_and!; [exact Hw|done|done|]. destruct t; [by rewrite app_nil_r in Hb|cbn in Hl; lia].
Qed.
End words_facts.

(** ** The decoder *)

Section decode_facts.
Context `{HB : Blake3}.

Lemma emit8_spec fuel acc p o rem :
  pending acc p → (length p < 8 * S fuel)%nat → emit8 fuel acc (Z.of_nat (length p)) = (o, rem) →
  ∃ t, byte_bits o ++ t = p ∧ rem = Z.of_nat (length t) ∧ (length t < 8)%nat ∧ pending acc t.
Proof.
  revert p o rem. induction fuel as [|f IH]; intros p o rem Hp Hlen Hrun; cbn in Hrun.
  - injection Hrun as <- <-. exists p. split_and!; (done || lia).
  - destruct (Z.leb_spec 8 (Z.of_nat (length p))) as [Hge|Hlt]; [|injection Hrun as <- <-; exists p; split_and!; (done || lia)].
    rewrite <- (take_drop 8 p) in Hp. assert (Hl : length (take 8 p) = 8%nat) by (rewrite length_take; lia).
    apply pending_pop in Hp as [Hh Ht]. rewrite Hl in Hh. change (2 ^ Z.of_nat 8) with 256 in Hh.
    replace (Z.of_nat (length p) - 8) with (Z.of_nat (length (drop 8 p))) in Hrun by (rewrite length_drop; lia).
    destruct (emit8 f acc _) as [o' rem'] eqn:He. injection Hrun as <- <-.
    apply IH in He as (t & Hb & -> & Hlt & Hpt); [|done|rewrite length_drop; lia]. exists t. split_and!; [|done..].
    rewrite byte_bits_cons, b2z_z2b, Hh, <- app_assoc, Hb. rewrite <- Hl at 1. rewrite bits_of_val. apply take_drop.
Qed.

(** A word stands for an index. *)
Definition says (w : bytes) (x : Z) : Prop := spoken w = Some (word x) ∧ is_index x.

Lemma says_iff w x : spoken w ≫= word_index = Some x ↔ says w x.
Proof.
  unfold says, is_index. rewrite bind_Some. split.
  - intros (v & Hv & [Hx ->]%word_index_Some). done.
  - intros [Hv Hx]. exists (word x). split; [done|]. by apply word_index_Some.
Qed.

Lemma decode_words_Ok i ws acc p out acc' :
  pending acc p → (length p < 8)%nat → decode_words i acc (Z.of_nat (length p)) ws = Ok (out, acc') →
  ∃ xs t, Forall2 says ws xs ∧ p ++ idx_bits xs = byte_bits out ++ t ∧ (length t < 8)%nat ∧ pending acc' t.
Proof.
  revert i acc p out. induction ws as [|w ws IH]; intros i acc p out Hp Hlen; cbn [decode_words].
  - intros [= <- <-]. exists [], p. rewrite app_nil_r. done.
  - destruct (spoken w ≫= word_index) as [x|] eqn:Hw; [|done]. apply says_iff in Hw. pose proof Hw as [_ Hx].
    pose proof (pending_push_mod 32 acc p 11 x Hp ltac:(lia) Hx) as Hq. change (Z.of_nat 11) with bitsPerWord in Hq.
    replace (Z.of_nat (length p) + bitsPerWord) with (Z.of_nat (length (p ++ bits_of 11 x))) by (rewrite length_app, length_bits_of; unfold bitsPerWord; lia).
    destruct (emit8 2 _ _) as [o rem] eqn:E. apply emit8_spec in E as (t & Hb & -> & Ht & Hpt); [|done|rewrite length_app, length_bits_of; lia].
    intros ([out' acc''] & Hd & [= <- ->])%bind_Ok. apply IH in Hd as (xs & t' & Hxs & Hbits & Ht' & Hpt'); [|done|done].
    exists (x :: xs), t'. split_and!; [by constructor| |done|done].
    rewrite idx_bits_cons, app_assoc, <- Hb, <- app_assoc, Hbits, app_assoc. unfold byte_bits. by rewrite bind_app.
Qed.

Lemma decode_words_total i ws xs acc bits : Forall2 says ws xs → is_ok (decode_words i acc bits ws) = true.
Proof.
  intros H. revert i acc bits. induction H as [|w x ws xs Hw H IH]; intros i acc bits; cbn [decode_words]; [done|].
  apply says_iff in Hw as ->. destruct (emit8 2 _ _) as [o rem]. specialize (IH (i + 1) (Z.lor (u32 (Z.shiftl acc bitsPerWord)) x) rem).
  by destruct (decode_words (i + 1) _ _ ws) as [[? ?]|].
Qed.

Lemma land_low acc t : pending acc t → length t = 2%nat → Z.land (u16 acc) (Z.shiftl 1 checksumBits - 1) = bits_val t.
Proof.
  intros [_ Ht] Hl. rewrite Hl in Ht. change (Z.shiftl 1 checksumBits - 1) with (Z.ones 2). rewrite Z.land_ones by lia. unfold u16.
  change (2 ^ 16) with (2 ^ 2 * 2 ^ 14). rewrite <- Ht. change (Z.of_nat 2) with 2. rewrite Z.rem_mul_r by lia.
  rewrite Z.mul_comm, Z.mod_add, Z.mod_mod by lia. done.
Qed.

(** The words, whatever their case and the space around them, are those of the ID. *)
Definition spells (ws : list bytes) (id : NodeID) : Prop := Forall2 (λ w v, spoken w = Some v) ws (EncodeWords id).

Lemma DecodeWords_spec ws id : DecodeWords ws = Ok id ↔ spells ws id.
Proof.
  unfold DecodeWords, spells. destruct (EncodeWords_spec id) as (ys & -> & Hys & Hy6 & Hyb). split.
  - intros [Hl ([out acc] & Hd & [Hout [Hchk Hid]%bind_unit_Ok]%bind_unit_Ok)%bind_Ok]%bind_unit_Ok.
    assert (id = arr_of 8 out) as -> by congruence. clear Hid.
    apply require_Ok, bool_decide_eq_true in Hl, Hout. apply require_Ok, Z.eqb_eq in Hchk.
    destruct (decode_words_Ok 1 ws 0 [] out acc pending_nil ltac:(cbn; lia) Hd) as (xs & t & Hxs & Hb & Ht & Hpt). cbn [app] in Hb.
    pose proof (Forall2_length _ _ _ Hxs) as Hx6. pose proof (f_equal length Hb) as Hlen.
    rewrite length_app, length_idx_bits, length_byte_bits, Hout in Hlen. unfold WordCount, NodeIDLen in *. assert (Ht2 : length t = 2%nat) by lia.
    rewrite (land_low acc t Hpt Ht2) in Hchk. assert (Hv : vec_to_list (arr_of 8 out) = out) by (by apply vec_to_list_arr_of).
    assert (Hbits : idx_bits ys = idx_bits xs).
    { rewrite Hyb, Hb. unfold id_bits. rewrite Hv. f_equal. rewrite <- Hchk. rewrite <- Ht2. apply bits_of_val. }
    apply idx_bits_inj in Hbits as ->; [|done|eapply Forall2_Forall_r; [exact Hxs|]; apply Forall_forall; by intros w _ x [_ Hx]].
    apply Forall2_fmap_r. eapply Forall2_impl; [exact Hxs|]. by intros w x [Hw _].
  - intros Hs. apply Forall2_fmap_r in Hs. assert (Hxs : Forall2 says ws ys).
    { clear Hyb Hy6. induction Hs as [|w y ws ys Hw Hs IH]; [constructor|]. apply Forall_cons in Hys as [Hy Hys]. constructor; [done|by apply IH]. }
    pose proof (Forall2_length _ _ _ Hxs) as Hx6. rewrite bool_decide_true by (unfold WordCount; congruence). cbn [require mbind result_bind].
    pose proof (decode_words_total 1 ws ys 0 0 Hxs) as Hok. destruct (decode_words 1 0 0 ws) as [[out acc]|] eqn:Hd; [|done].
    destruct (decode_words_Ok 1 ws 0 [] out acc pending_nil ltac:(cbn; lia) Hd) as (xs & t & Hxs' & Hb & Ht & Hpt). cbn [app] in Hb.
    assert (xs = ys) as ->.
    { clear -Hxs Hxs'. revert ys Hxs. induction Hxs' as [|w x ws xs Hw Hxs' IH]; intros ys Hys; inversion Hys as [|? y ? ys' Hy Hys']; [done|]. subst. f_equal; [|by apply IH].
      destruct Hw as [Hw Hx], Hy as [Hy Hyi]. apply word_inj; [done|done|congruence]. }
    rewrite Hyb in Hb. pose proof (f_equal length Hb) as Hlen. rewrite length_id_bits, length_app, length_byte_bits in Hlen.
    unfold id_bits in Hb. symmetry in Hb. apply app_inj_1 in Hb as [Ho Htl]; [|rewrite !length_byte_bits, length_vec_to_list; lia].
    apply byte_bits_inj in Ho as ->. cbn [mbind result_bind]. rewrite length_vec_to_list, bool_decide_true by done. cbn [require mbind result_bind].
    rewrite arr_of_vec, (land_low acc t Hpt) by (rewrite Htl, length_bits_of; done). rewrite Htl, bits_val_of, Z.mod_small by apply checksum_range.
    by rewrite Z.eqb_refl.
Qed.
End decode_facts.

(** ** Typed IDs *)

Section parse_facts.
Context `{HB : Blake3}.

Lemma word_spoken v : v ∈ wordList → spoken v = Some v ∧ no_sep id_sep v.
Proof.
  intros Hv. pose proof wordList_words as H. rewrite Forall_forall in H. destruct (H v Hv) as [Hl Hc].
  assert (Hplain : Forall plain_byte v).
  { eapply Forall_impl; [exact Hc|]. intros c. unfold is_lower, plain_byte. rewrite andb_true_iff, !Z.leb_le. lia. }
  split.
  - unfold spoken. rewrite TrimSpace_plain by done. rewrite ToLower_ascii_spec by (by apply plain_ascii). f_equal. clear -Hc.
    induction Hc as [|c v Hc _ IH]; [done|]. unfold nocase in *. cbn. rewrite IH. f_equal.
    revert Hc. destruct c; vm_compute; done.
  - split; [intros ->; unfold strlen in Hl; cbn in Hl; lia|]. eapply Forall_impl; [exact Hc|]. intros c. by destruct c.
Qed.

Lemma EncodeWords_words id : Forall (λ v, v ∈ wordList) (EncodeWords id) ∧ length (EncodeWords id) = WordCount.
Proof.
  destruct (EncodeWords_spec id) as (xs & -> & Hxs & Hl & _). split; [|by rewrite length_fmap]. apply Forall_fmap. eapply Forall_impl; [exact Hxs|].
  intros x Hx. apply list_elem_of_lookup. exists (Z.to_nat x). by apply word_lookup.
Qed.

Lemma join_fields sep c ws : sep c = true → Forall (no_sep sep) ws → FieldsFunc sep (join [c] ws) = ws.
Proof.
  intros Hc Hw. induction Hw as [|w ws Hw Hws IH]; [done|]. destruct ws as [|w' ws]; [by apply FieldsFunc_single|].
  change (join [c] (w :: w' :: ws)) with (w ++ c :: join [c] (w' :: ws)). rewrite FieldsFunc_cons by done. by rewrite IH.
Qed.

Lemma join_plain ws : Forall (Forall plain_byte) ws → Forall plain_byte (join [Byte.x2d] ws).
Proof.
  induction 1 as [|w ws Hw Hws IH]; [constructor|]. destruct ws as [|w' ws]; [done|].
  change (join [Byte.x2d] (w :: w' :: ws)) with (w ++ Byte.x2d :: join [Byte.x2d] (w' :: ws)). apply Forall_app. split; [done|]. constructor; [by_compute|exact IH].
Qed.

Lemma valid_symbol_plain c : valid_symbol c → plain_byte c ∧ id_sep c = false.
Proof.
  destruct c; intros (H & _); first [exfalso; destruct H as [H _]; vm_compute in H; by apply H|split; [split; vm_compute; congruence|reflexivity]].
Qed.

Lemma symbols_facts s : Forall valid_symbol s → Forall plain_byte s ∧ Forall (λ c, id_sep c = false) s.
Proof. intros H. split; (eapply Forall_impl; [exact H|]); intros c Hc; by destruct (valid_symbol_plain c Hc). Qed.

Lemma compact_facts id : Forall valid_symbol (NodeID_Compact id) ∧ length (NodeID_Compact id) = 13%nat ∧ parse_base32 [NodeID_Compact id] = Ok id.
Proof.
  unfold NodeID_Compact. destruct (EncodeBase32_spec (vec_to_list id)) as (k & Hb & Hk & Hv & Hl). rewrite length_vec_to_list in Hl.
  split; [done|]. split; [lia|]. unfold parse_base32. cbn [concat]. rewrite app_nil_r.
  assert (Hd : DecodeBase32 (EncodeBase32 (vec_to_list id)) = Ok (vec_to_list id)).
  { apply DecodeBase32_spec. exists (EncodeBase32 (vec_to_list id)), k. split_and!; [by apply clean_loop_valid| |lia|exact Hb].
    intros E. rewrite E in Hl. cbn in Hl. lia. }
  rewrite Hd. cbn [wrap_err mbind result_bind]. rewrite length_vec_to_list, bool_decide_true by done. cbn [require mbind result_bind]. by rewrite arr_of_vec.
Qed.

Lemma parse_base32_concat fields : parse_base32 fields = parse_base32 [concat fields].
Proof. unfold parse_base32. cbn [concat]. by rewrite app_nil_r. Qed.

Lemma parse_base32_iff fields id :
  parse_base32 fields = Ok id ↔ ∃ b, DecodeBase32 (concat fields) = Ok b ∧ length b = NodeIDLen ∧ id = arr_of 8 b.
Proof.
  unfold parse_base32. rewrite bind_Ok. split.
  - intros (b & Hd & [Hl%require_Ok Hi]%bind_unit_Ok). apply bool_decide_eq_true in Hl. destruct (DecodeBase32 (concat fields)) as [b'|]; [|done].
    injection Hd as ->. exists b. split_and!; [done|done|congruence].
  - intros (b & -> & Hl & ->). exists b. split; [done|]. by rewrite bool_decide_true.
Qed.

Lemma compact_split id :
  ∃ a b c, NodeID_String id = join [Byte.x2d] [a; b; c] ∧ concat [a; b; c] = NodeID_Compact id ∧
    Forall (λ s, no_sep id_sep s ∧ Forall plain_byte s) [a; b; c].
Proof.
  destruct (compact_facts id) as (Hv & Hl & _). destruct (symbols_facts _ Hv) as [Hplain Hsep].
  exists (take 4 (NodeID_Compact id)), (take 4 (drop 4 (NodeID_Compact id))), (drop 8 (NodeID_Compact id)).
  assert (Hne : ∀ l : bytes, (0 < length l)%nat → l ≠ []) by (intros [|] H; cbn in H; (lia || done)). split_and!.
  - unfold NodeID_String, Group. fold (NodeID_Compact id). by rewrite decide_True.
  - cbn [concat]. rewrite app_nil_r. change 8%nat with (4 + 4)%nat. by rewrite <- drop_drop, !take_drop.
  - repeat (apply Forall_cons; split); [..|constructor]; (split; [split; [apply Hne; rewrite ?length_take, ?length_drop; lia|]|]);
      by repeat (apply Forall_take || apply Forall_drop).
Qed.

Lemma words_plain id : Forall (Forall plain_byte) (EncodeWords id).
Proof.
  destruct (EncodeWords_words id) as [Hw _]. eapply Forall_impl; [exact Hw|]. intros v Hv. pose proof wordList_words as Hwl. rewrite Forall_forall in Hwl.
  destruct (Hwl v Hv) as [_ Hc]. eapply Forall_impl; [exact Hc|]. intros c. unfold is_lower, plain_byte. rewrite andb_true_iff, !Z.leb_le. lia.
Qed.

Lemma forms_trimmed id :
  TrimSpace (NodeID_String id) = NodeID_String id ∧ TrimSpace (NodeID_Compact id) = NodeID_Compact id ∧ TrimSpace (NodeID_Words id) = NodeID_Words id.
Proof.
  destruct (compact_facts id) as (Hv & _). destruct (symbols_facts _ Hv) as [Hplain _]. destruct (compact_split id) as (a & b & c & -> & _ & Hall).
  split_and!; apply TrimSpace_plain; [|done|apply join_plain, words_plain]. apply join_plain. eapply Forall_impl; [exact Hall|]. by intros s [_ ?].
Qed.

(** Every rendering of an ID is read back as the ID. *)
Lemma ParseNodeID_forms id :
  ParseNodeID (NodeID_Compact id) = Ok id ∧ ParseNodeID (NodeID_String id) = Ok id ∧ ParseNodeID (NodeID_Words id) = Ok id.
Proof.
  destruct (compact_facts id) as (Hv & Hl & Hp). destruct (symbols_facts _ Hv) as [Hplain Hsep]. destruct (forms_trimmed id) as (T1 & T2 & T3).
  unfold ParseNodeID. rewrite T1, T2, T3. split_and!.
  - rewrite bool_decide_false by (intros E; by rewrite E in Hl).
    rewrite FieldsFunc_single; [|split; [intros E; by rewrite E in Hl|done]]. by rewrite bool_decide_false.
  - destruct (compact_split id) as (a & b & c & -> & Habc & Hall).
    assert (Hj : FieldsFunc id_sep (join [Byte.x2d] [a; b; c]) = [a; b; c]) by (apply join_fields; [done|]; eapply Forall_impl; [exact Hall|]; by intros s [? _]).
    rewrite bool_decide_false by (intros E; by rewrite E in Hj). rewrite Hj, bool_decide_false by done. by rewrite parse_base32_concat, Habc.
  - destruct (EncodeWords_words id) as [Hw Hl6].
    assert (Hj : FieldsFunc id_sep (NodeID_Words id) = EncodeWords id).
    { apply join_fields; [done|]. eapply Forall_impl; [exact Hw|]. intros v Hv'. by apply word_spoken. }
    rewrite bool_decide_false by (intros E; rewrite E in Hj; rewrite <- Hj in Hl6; done). rewrite Hj, bool_decide_true by done.
    assert (Hd : DecodeWords (EncodeWords id) = Ok id); [|by rewrite Hd].
    apply DecodeWords_spec. unfold spells. clear -Hw. induction Hw as [|v ws Hv _ IH]; constructor; [by apply word_spoken|done].
Qed.
End parse_facts.

(** A fourteenth character is taken, if it is a zero: an ID has more than one base32
    form, although a node ID is documented to have thirteen characters. *)
Lemma ParseNodeID_fourteen `{HB : Blake3} id : ParseNodeID (NodeID_Compact id ++ [Byte.x30]) = Ok id.
Proof.
  destruct (compact_facts id) as (Hv & Hl & _). assert (H0 : valid_symbol Byte.x30) by by_compute.
  assert (Hv' : Forall valid_symbol (NodeID_Compact id ++ [Byte.x30])) by (apply Forall_app; by split; [|constructor; [|constructor]]).
  destruct (symbols_facts _ Hv') as [Hplain Hsep]. unfold ParseNodeID. rewrite TrimSpace_plain by done.
  rewrite bool_decide_false by (by destruct (NodeID_Compact id)). rewrite FieldsFunc_single by (split; [by destruct (NodeID_Compact id)|done]).
  rewrite bool_decide_false by done. apply parse_base32_iff. exists (vec_to_list id). rewrite length_vec_to_list, arr_of_vec. split_and!; [|done|done].
  cbn [concat]. rewrite app_nil_r. apply DecodeBase32_spec. destruct (EncodeBase32_spec (vec_to_list id)) as (k & Hb & Hk & _ & Hlk).
  fold (NodeID_Compact id) in Hb, Hlk. rewrite length_vec_to_list, Hl in Hlk. assert (k = 1%nat) as -> by lia.
  exists (NodeID_Compact id ++ [Byte.x30]), 6%nat. split_and!; [by apply clean_loop_valid|by destruct (NodeID_Compact id)|lia|].
  rewrite symbol_bits_app, Hb, <- app_assoc. by f_equal.
Qed.

(** ** Aliases *)

Section alias_facts.
Context `{HB : Blake3}.

Lemma spoken_nocase w : Forall plain_byte w → spoken (nocase w) = spoken w.
Proof.
  intros Hw. unfold spoken. rewrite !TrimSpace_plain by (done || by apply plain_nocase).
  rewrite !ToLower_ascii_spec by (apply plain_ascii; (done || by apply plain_nocase)). by rewrite nocase_idem.
Qed.

Lemma spells_nocase ws id : Forall (Forall plain_byte) ws → spells (nocase <$> ws) id ↔ spells ws id.
Proof.
  intros Hp. unfold spells. rewrite Forall2_fmap_l. generalize (EncodeWords id). induction Hp as [|w ws Hw Hp IH]; intros vs.
  - split; intros H; inversion H; constructor.
  - split; intros H; inversion H as [|? v ? vs' Hv Hvs]; subst; (constructor; [|by apply IH]); cbn in Hv |- *; [by rewrite <- spoken_nocase|by rewrite spoken_nocase].
Qed.

Lemma crockford_lowerOf c : crockfordDecode (lowerOf c) = crockfordDecode c ∧ id_sep (lowerOf c) = id_sep c.
Proof. by destruct c. Qed.

Lemma clean_loop_nocase s c : clean_loop (nocase s) = Ok c ↔ ∃ c', clean_loop s = Ok c' ∧ c = nocase c'.
Proof.
  revert c. induction s as [|x s IH]; intros c; [split; [intros [= <-]; by exists []|by intros (c' & [= <-] & ->)]|].
  change (nocase (x :: s)) with (lowerOf x :: nocase s). cbn [clean_loop]. destruct (crockford_lowerOf x) as [Hx _]. rewrite Hx.
  assert (Hsep : bool_decide (lowerOf x = Byte.x2d) || bool_decide (lowerOf x = Byte.x20) || bool_decide (lowerOf x = Byte.x09) =
                 bool_decide (x = Byte.x2d) || bool_decide (x = Byte.x20) || bool_decide (x = Byte.x09)) by (by destruct x).
  rewrite Hsep. destruct (bool_decide (x = Byte.x2d) || bool_decide (x = Byte.x20) || bool_decide (x = Byte.x09)); [apply IH|]. destruct (crockfordDecode x <? 0); [split; [done|by intros (c' & ? & _)]|]. rewrite bind_Ok. split.
  - intros (r & (r' & Hr & ->)%IH & [= <-]). exists (x :: r'). by rewrite Hr.
  - intros (c' & (r & Hr & [= <-])%bind_Ok & ->). exists (nocase r). split; [apply IH; by exists r|done].
Qed.

Lemma symbol_bits_nocase c : symbol_bits (nocase c) = symbol_bits c.
Proof. induction c as [|x c IH]; [done|]. change (nocase (x :: c)) with (lowerOf x :: nocase c). rewrite !symbol_bits_cons, IH. by destruct (crockford_lowerOf x) as [-> _]. Qed.

Lemma DecodeBase32_nocase s b : DecodeBase32 (nocase s) = Ok b ↔ DecodeBase32 s = Ok b.
Proof.
  rewrite !DecodeBase32_spec. split.
  - intros (c & k & (c' & Hc & ->)%clean_loop_nocase & Hne & Hk & Hb). exists c', k. rewrite symbol_bits_nocase in Hb. split_and!; [done| |done|done].
    by intros ->.
  - intros (c & k & Hc & Hne & Hk & Hb). exists (nocase c), k. rewrite symbol_bits_nocase. split_and!; [apply clean_loop_nocase; by exists c| |done|done].
    intros E. apply Hne. by destruct c.
Qed.

Lemma parse_base32_nocase fields id : parse_base32 (nocase <$> fields) = Ok id ↔ parse_base32 fields = Ok id.
Proof.
  assert (Hc : concat (nocase <$> fields) = nocase (concat fields)).
  { induction fields as [|f fields IH]; [done|]. cbn. rewrite IH. unfold nocase. by rewrite fmap_app. }
  rewrite !parse_base32_iff, Hc. by setoid_rewrite DecodeBase32_nocase.
Qed.

Lemma DecodeWords_nocase ws id : Forall (Forall plain_byte) ws → DecodeWords (nocase <$> ws) = Ok id ↔ DecodeWords ws = Ok id.
Proof. intros Hp. rewrite !DecodeWords_spec. by apply spells_nocase. Qed.

(** An ID may be typed in capitals or not. *)
Lemma ParseNodeID_nocase s id : Forall plain_byte s → ParseNodeID (nocase s) = Ok id ↔ ParseNodeID s = Ok id.
Proof.
  intros Hs. unfold ParseNodeID. rewrite !TrimSpace_plain by (done || by apply plain_nocase).
  assert (Hf : FieldsFunc id_sep (nocase s) = nocase <$> FieldsFunc id_sep s).
  { apply (fields_from_map id_sep lowerOf [] s). intros c. by destruct (crockford_lowerOf c). }
  rewrite Hf, length_fmap. rewrite (bool_decide_ext (nocase s = []) (s = [])) by (destruct s; cbn; split; congruence).
  case_bool_decide; [done|]. case_bool_decide; [|apply parse_base32_nocase].
  assert (Hp : Forall (Forall plain_byte) (FieldsFunc id_sep s)) by (by apply fields_from_Forall).
  pose proof (DecodeWords_nocase (FieldsFunc id_sep s)) as Hd.
  destruct (DecodeWords (FieldsFunc id_sep s)) as [i|e].
  - by rewrite (proj2 (Hd i Hp) eq_refl).
  - destruct (DecodeWords (nocase <$> FieldsFunc id_sep s)) as [i|e']; [|apply parse_base32_nocase]. by pose proof (proj1 (Hd i Hp) eq_refl).
Qed.

Inductive alias_step : list Alias → list Alias → Prop :=
| alias_set alias id t : alias_step t (SetAlias alias id t).2
| alias_remove alias t : alias_step t (RemoveAlias alias t).2.

Definition alias_ok (t : list Alias) : Prop :=
  Forall (λ a, ValidateAlias (al_Alias a) = Ok tt) t ∧ NoDup (nocase ∘ al_Alias <$> t).

Lemma is_alias_true alias a : is_alias alias a = true ↔ nocase (al_Alias a) = nocase alias.
Proof. apply bool_decide_eq_true. Qed.

Lemma known_alias alias t : existsb (is_alias alias) t = true ↔ nocase alias ∈ (nocase ∘ al_Alias <$> t).
Proof.
  rewrite existsb_exists, list_elem_of_fmap. setoid_rewrite is_alias_true. setoid_rewrite <- list_elem_of_In. unfold compose. naive_solver.
Qed.

Lemma SetAlias_names alias id (t : list Alias) :
  nocase ∘ al_Alias <$> ((λ a, if is_alias alias a then mkAlias (al_Alias a) id else a) <$> t) = nocase ∘ al_Alias <$> t.
Proof. rewrite <- list_fmap_compose. apply list_fmap_ext. intros i a _. cbn. by destruct (is_alias alias a). Qed.

Lemma alias_step_ok t t' : alias_step t t' → alias_ok t → alias_ok t'.
Proof.
  intros Hs [Hv Hn]. destruct Hs as [alias id t|alias t].
  - unfold SetAlias. destruct (ValidateAlias (TrimSpace alias)) as [[]|e] eqn:Hva; [|done]. destruct (existsb _ t) eqn:He; cbn [snd].
    + split; [|by rewrite SetAlias_names]. apply Forall_fmap. eapply Forall_impl; [exact Hv|]. intros a Ha. cbn. by destruct (is_alias _ a).
    + split; [apply Forall_app; split; [done|by constructor]|]. rewrite fmap_app. apply NoDup_app. split_and!; [done| |apply NoDup_singleton].
      intros x Hx Hx'%list_elem_of_singleton. subst x. cbn in Hx. apply known_alias in Hx. congruence.
  - unfold RemoveAlias. destruct (existsb _ t); [|done]. cbn [snd]. split; [apply Forall_forall; intros a [_ Ha]%list_elem_of_filter; rewrite Forall_forall in Hv; by apply Hv|].
    eapply sublist_NoDup; [exact Hn|]. apply fmap_sublist, sublist_filter.
Qed.

Lemma alias_reachable_ok t : rtc alias_step [] t → alias_ok t.
Proof.
  intros Hs. assert (H : alias_ok []) by (split; [constructor|by apply NoDup_nil_2]). revert Hs H. generalize (@nil Alias). intros t0 Hs. induction Hs; eauto using alias_step_ok.
Qed.

Lemma ValidateAlias_Ok alias :
  ValidateAlias alias = Ok tt → Forall plain_byte alias ∧ alias ≠ [] ∧ is_ok (ParseNodeID alias) = false.
Proof.
  unfold ValidateAlias. intros [Hne%require_Ok [_ [Hc Hp%require_Ok]%bind_unit_Ok]%bind_unit_Ok]%bind_unit_Ok.
  destruct (bad_name_rune alias) eqn:Hb; [done|]. apply bad_name_rune_None in Hb. split_and!.
  - eapply Forall_impl; [exact Hb|]. intros c. apply name_char_plain.
  - by intros ->.
  - by apply negb_true_iff.
Qed.

(** An alias is found under every spelling. *)
Lemma ResolveNodeRef_alias t a ref :
  alias_ok t → a ∈ t → nocase (TrimSpace ref) = nocase (al_Alias a) → ResolveNodeRef ref t = Ok (al_NodeID a).
Proof.
  intros [Hv Hn] Ha Href. rewrite Forall_forall in Hv. destruct (ValidateAlias_Ok _ (Hv a Ha)) as (Hplain & _ & Hparse).
  assert (Hrp : Forall plain_byte (TrimSpace ref)) by (apply plain_nocase; rewrite Href; by apply plain_nocase).
  unfold ResolveNodeRef. destruct (ParseNodeID (TrimSpace ref)) as [i|e] eqn:E.
  { exfalso. apply (ParseNodeID_nocase _ _ Hrp) in E. rewrite Href in E. apply (ParseNodeID_nocase _ _ Hplain) in E. by rewrite E in Hparse. }
  unfold ResolveAlias. rewrite (TrimSpace_plain (TrimSpace ref)) by done.
  destruct (List.find _ t) as [a'|] eqn:Hf.
  - apply List.find_some in Hf as [Ha'%list_elem_of_In Hi%is_alias_true]. rewrite Href in Hi. do 2 f_equal.
    apply list_elem_of_lookup in Ha as [i Hai], Ha' as [j Haj].
    assert (i = j) as ->; [|congruence]. eapply NoDup_lookup; [exact Hn| |]; rewrite list_lookup_fmap; [by rewrite Hai|rewrite Haj; cbn; by rewrite Hi].
  - exfalso. pose proof (List.find_none _ _ Hf a (proj1 (list_elem_of_In _ _) Ha)) as H. apply not_true_iff_false in H. apply H, is_alias_true. by rewrite Href.
Qed.

Lemma SetAlias_spec alias id t t' :
  SetAlias alias id t = (Ok tt, t') →
  (∃ a, a ∈ t' ∧ nocase (al_Alias a) = nocase (TrimSpace alias) ∧ al_NodeID a = id) ∧
  (∀ a, a ∈ t → nocase (al_Alias a) ≠ nocase (TrimSpace alias) → a ∈ t').
Proof.
  unfold SetAlias. destruct (ValidateAlias (TrimSpace alias)) as [u|]; [|done]. destruct (existsb _ t) eqn:He; intros [= <-].
  - apply existsb_exists in He as (a & Ha%list_elem_of_In & Hi). split.
    + exists (mkAlias (al_Alias a) id). split_and!; [|by apply is_alias_true|done]. apply list_elem_of_fmap. exists a. by rewrite Hi.
    + intros b Hb Hne. apply list_elem_of_fmap. exists b. split; [|done]. destruct (is_alias (TrimSpace alias) b) eqn:E; [|done]. by apply is_alias_true in E.
  - split; [exists (mkAlias (TrimSpace alias) id); split_and!; [set_solver|done|done]|]. intros a Ha _. set_solver.
Qed.

(** C14: a node is found under every name it has, and no alias ever hides another. In
    every reachable alias table a node ID is resolved from each of its renderings, the
    grouped one, the compact one and the six words, whatever aliases there are; every
    alias is resolved to its node under any spelling of it in capitals or not and with
    space around it; a name that is neither is not known; and setting an alias binds
    it to the given node and leaves all others bound as they were. *)
Theorem names_resolve t :
  rtc alias_step [] t →
  (∀ id, ResolveNodeRef (NodeID_String id) t = Ok id ∧ ResolveNodeRef (NodeID_Compact id) t = Ok id ∧ ResolveNodeRef (NodeID_Words id) t = Ok id) ∧
  (∀ a ref, a ∈ t → nocase (TrimSpace ref) = nocase (al_Alias a) → ResolveNodeRef ref t = Ok (al_NodeID a)) ∧
  (∀ ref, is_ok (ParseNodeID (TrimSpace ref)) = false → (∀ a, a ∈ t → nocase (al_Alias a) ≠ nocase (TrimSpace (TrimSpace ref))) →
     ResolveNodeRef ref t = Err (NoNodeKnownAs (TrimSpace ref))) ∧
  (∀ alias id t', SetAlias alias id t = (Ok tt, t') → ∀ ref,
     (nocase (TrimSpace ref) = nocase (TrimSpace alias) → ResolveNodeRef ref t' = Ok id) ∧
     (∀ a, a ∈ t → nocase (al_Alias a) ≠ nocase (TrimSpace alias) → nocase (TrimSpace ref) = nocase (al_Alias a) → ResolveNodeRef ref t' = Ok (al_NodeID a))).
Proof.
  intros Hr. pose proof (alias_reachable_ok t Hr) as Hok. split_and!.
  - intros id. destruct (ParseNodeID_forms id) as (H1 & H2 & H3). destruct (forms_trimmed id) as (T1 & T2 & T3).
    unfold ResolveNodeRef. rewrite T1, T2, T3, H1, H2, H3. done.
  - intros a ref. by apply ResolveNodeRef_alias.
  - intros ref Hp Hno. unfold ResolveNodeRef. destruct (ParseNodeID (TrimSpace ref)) as [i|]; [done|]. unfold ResolveAlias.
    destruct (List.find _ t) as [a|] eqn:Hf; [|done]. apply List.find_some in Hf as [Ha%list_elem_of_In Hi%is_alias_true]. by destruct (Hno a Ha).
  - intros alias id t' Hset ref. pose proof (alias_step_ok _ _ (alias_set alias id t) Hok) as Hok'. rewrite Hset in Hok'. cbn [snd] in Hok'.
    destruct (SetAlias_spec alias id t t' Hset) as [(a & Ha & Hn & <-) Hrest]. split.
    + intros Href. apply ResolveNodeRef_alias; [done|done|congruence].
    + intros b Hb Hne Href. by apply ResolveNodeRef_alias; [|apply Hrest|].
Qed.
End alias_facts.
