(* ===== verification/Bodies.v ===== *)
(** * NODE, PROFILE and SUCCESSION record bodies
    (internal/record/node.go, profile.go, succession.go)

    Each body has a writer that validates before it writes and a reader that
    validates what it read. The main theorem of each Module says the reader
    accepts exactly what the writer produces. *)

From S2P Require Import Prelude Binary Identity Text.

(** The errors of package record, one constructor per return statement.
    [ErrTruncated] is the package's sentinel. *)
Inductive record_error :=
| ErrTruncated
| BadLabel (e : label_error)
| PublicKeyLength (n : Z)
| BodyTrailing (n : Z)
| EmptyNick
| ZeroDMKey
| ReservedFlags (f : Z)
| BodyLength (n : Z)
| ZeroSuccessor
| SuccessorMismatch (got want : NodeID)
| EmptyFileName
| PathSeparator
| DotName
| ZeroFileHash
| TooManyTags (n : Z)
| EmptyTag
| NonCanonicalBody
| NotReencodable (e : record_error)
| ShortHash (n : Z)
| NoActor
| TargetNodeWithoutTarget
| TargetOnNoNode
| PayloadTooLong (n : Z)
| NoGame
| NoEvents
| TooManyEvents (n : Z)
| DoorBodyTooLong (n : Z).

#[export] Instance record_error_eq_dec : EqDecision record_error.
Proof. solve_decision. Defined.

Definition check_label (w : label) (s : bytes) (max : Z) : result record_error unit :=
  wrap_err BadLabel (validateLabel w s max).

Definition byte_of_len (s : bytes) : byte := z2b (Z.of_nat (length s)).

Lemma check_label_Ok w s max u : check_label w s max = Ok u ↔ validateLabel w s max = Ok tt.
Proof. unfold check_label. rewrite wrap_err_Ok. by destruct u. Qed.

Lemma byte_of_len_id s : Z.of_nat (length s) < 256 → b2z (byte_of_len s) = Z.of_nat (length s).
Proof. intros. unfold byte_of_len. apply b2z_z2b_small. lia. Qed.

Lemma byte_of_len_eq s c : Z.of_nat (length s) = b2z c → byte_of_len s = c.
Proof. intros H. unfold byte_of_len. by rewrite H, z2b_b2z. Qed.

Lemma length_of_byte c (s : bytes) : length s = Z.to_nat (b2z c) ↔ Z.of_nat (length s) = b2z c.
Proof. pose proof (b2z_range c). lia. Qed.

(** A byte of length, then that many bytes: the form of every string. *)
Definition take_counted {E : Type} (e : E) (b : bytes) : result E (bytes * bytes) :=
  '(n, b) ← take_byte e b; take_n e (Z.to_nat (b2z n)) b.

Definition counted (s : bytes) : bytes := byte_of_len s :: s.

Lemma length_counted s : length (counted s) = S (length s).
Proof. done. Qed.

Lemma take_counted_Ok {E : Type} (e : E) b s r :
  take_counted e b = Ok (s, r) ↔ b = counted s ++ r ∧ Z.of_nat (length s) < 256.
Proof.
  unfold take_counted, counted. rewrite bind_Ok. split.
  - intros ([n b'] & ->%take_byte_Ok & [-> Hl]%take_n_Ok). apply length_of_byte in Hl.
    rewrite (byte_of_len_eq s n) by done. pose proof (b2z_range n). split; [done|lia].
  - intros [-> Hs]. exists (byte_of_len s, s ++ r). split; [done|].
    apply take_n_Ok. rewrite byte_of_len_id by done. split; [done|lia].
Qed.

(** ** NODE *)

Module Node.

Definition PublicKeySize : nat := 32.
Definition MaxDisplayNameLen : Z := 32.
Definition MaxSysopContactLen : Z := 64.

Record NodeBody := mkNodeBody {
  PublicKey : bytes;
  DisplayName : bytes;
  SysopContact : bytes;
  Incarnation : Z  (* uint32 *)
}.

Definition MarshalNodeBody (n : NodeBody) : result record_error bytes :=
  if negb (bool_decide (length (PublicKey n) = PublicKeySize))
  then Err (PublicKeyLength (Z.of_nat (length (PublicKey n))))
  else
    _ ← check_label LDisplayName (DisplayName n) MaxDisplayNameLen;
    _ ← check_label LSysopContact (SysopContact n) MaxSysopContactLen;
    Ok (PublicKey n ++ be_bytes 4 (Incarnation n) ++
        counted (DisplayName n) ++ counted (SysopContact n)).

(** The closure [readStr]: bounds, then the label rules. *)
Definition readStr (what : label) (max : Z) (b : bytes) : result record_error (bytes * bytes) :=
  '(s, b) ← take_counted ErrTruncated b;
  _ ← check_label what s max;
  Ok (s, b).

Definition UnmarshalNodeBody (b : bytes) : result record_error NodeBody :=
  if decide (length b < PublicKeySize + 4 + 2)%nat then Err ErrTruncated
  else
    '(pub, b) ← take_n ErrTruncated PublicKeySize b;
    '(inc, b) ← take_be ErrTruncated 4 b;
    '(name, b) ← readStr LDisplayName MaxDisplayNameLen b;
    '(contact, b) ← readStr LSysopContact MaxSysopContactLen b;
    _ ← require (bool_decide (b = [])) (BodyTrailing (Z.of_nat (length b)));
    Ok (mkNodeBody pub name contact inc).

Lemma readStr_Ok w max b s r :
  max < 256 →
  readStr w max b = Ok (s, r) ↔ b = counted s ++ r ∧ validateLabel w s max = Ok tt.
Proof.
  intros Hmax. unfold readStr. rewrite bind_Ok. split.
  - intros ([s' r'] & [-> _]%take_counted_Ok & (u & Hl & [= <- <-])%bind_Ok).
    by apply check_label_Ok in Hl.
  - intros [-> Hl]. exists (s, r). pose proof (validateLabel_length _ _ _ Hl).
    split; [apply take_counted_Ok; split; [done|lia]|].
    apply bind_Ok. exists tt. by rewrite check_label_Ok.
Qed.

Lemma MarshalNodeBody_Ok n b :
  MarshalNodeBody n = Ok b ↔
  length (PublicKey n) = PublicKeySize ∧
  validateLabel LDisplayName (DisplayName n) MaxDisplayNameLen = Ok tt ∧
  validateLabel LSysopContact (SysopContact n) MaxSysopContactLen = Ok tt ∧
  b = PublicKey n ++ be_bytes 4 (Incarnation n) ++
      counted (DisplayName n) ++ counted (SysopContact n).
Proof.
  unfold MarshalNodeBody. case_bool_decide as Hpk; cbn; [|naive_solver].
  rewrite bind_Ok. setoid_rewrite bind_Ok. setoid_rewrite check_label_Ok.
  split; [intros (_ & ? & _ & ? & [= <-]); done|].
  intros (_ & ? & ? & ->). by exists tt; split; [|exists tt].
Qed.

Lemma UnmarshalNodeBody_spec b n :
  UnmarshalNodeBody b = Ok n ↔ is_u32 (Incarnation n) ∧ MarshalNodeBody n = Ok b.
Proof.
  rewrite MarshalNodeBody_Ok. unfold UnmarshalNodeBody, PublicKeySize. split.
  - case_decide as Hlen; [done|].
    intros ([pub b1] & [-> Hpub]%take_n_Ok & ([inc b2] & [-> Hinc]%take_be_Ok &
      ([name b3] & [-> Hn]%readStr_Ok & ([contact b4] & [-> Hc]%readStr_Ok &
       (u & ->%require_Ok%bool_decide_eq_true & [= <-])%bind_Ok)%bind_Ok)%bind_Ok)%bind_Ok)%bind_Ok;
      [|done..]. cbn. by rewrite !app_nil_r.
  - intros (Hinc & Hpub & Hn & Hc & ->). case_decide as Hlen.
    { rewrite !length_app, length_be_bytes in Hlen. cbn in Hlen. lia. }
    rewrite take_n_app by done. cbn [mbind result_bind].
    rewrite (proj2 (take_be_Ok ErrTruncated 4 _ (Incarnation n) _)) by done. cbn [mbind result_bind].
    rewrite (proj2 (readStr_Ok LDisplayName MaxDisplayNameLen _ (DisplayName n) _ eq_refl)) by done. cbn [mbind result_bind].
    rewrite <- (app_nil_r (counted (SysopContact n))).
    rewrite (proj2 (readStr_Ok LSysopContact MaxSysopContactLen _ (SysopContact n) _ eq_refl)) by done.
    by destruct n.
Qed.

End Node.

(** ** PROFILE *)

Module Profile.

Definition MaxNickLen : Z := 24.
Definition X25519KeyLen : nat := 32.
Definition FlagUnlisted : Z := 1.

Record ProfileBody := mkProfileBody {
  Nick : bytes;
  DMKey : arr 32;
  Flags : byte
}.

Definition ProfileBodyLen (nick : bytes) : nat := 1 + length nick + X25519KeyLen + 1.

Definition MarshalProfileBody (p : ProfileBody) : result record_error bytes :=
  if decide (Nick p = []) then Err EmptyNick
  else
    _ ← check_label LNick (Nick p) MaxNickLen;
    if decide (DMKey p = zero_arr 32) then Err ZeroDMKey
    else Ok (counted (Nick p) ++ vec_to_list (DMKey p) ++ [Flags p]).

Definition UnmarshalProfileBody (b : bytes) : result record_error ProfileBody :=
  '(n, rest) ← take_byte ErrTruncated b;
  if b2z n =? 0 then Err EmptyNick
  else if negb (Z.of_nat (length b) =? 1 + b2z n + Z.of_nat X25519KeyLen + 1) then Err ErrTruncated
  else
    '(nick, rest) ← take_n ErrTruncated (Z.to_nat (b2z n)) rest;
    _ ← check_label LNick nick MaxNickLen;
    '(key, rest) ← take_arr ErrTruncated 32 rest;
    if decide (key = zero_arr 32) then Err ZeroDMKey
    else
      '(flags, _) ← take_byte ErrTruncated rest;
      if negb (Z.ldiff (b2z flags) FlagUnlisted =? 0) then Err (ReservedFlags (b2z flags))
      else Ok (mkProfileBody nick key flags).

Definition Unlisted (p : ProfileBody) : bool := negb (Z.land (b2z (Flags p)) FlagUnlisted =? 0).

(** Only the one defined flag bit is set. *)
Definition flags_known (p : ProfileBody) : Prop := Z.ldiff (b2z (Flags p)) FlagUnlisted = 0.

Lemma MarshalProfileBody_Ok p b :
  MarshalProfileBody p = Ok b ↔
  Nick p ≠ [] ∧ validateLabel LNick (Nick p) MaxNickLen = Ok tt ∧ DMKey p ≠ zero_arr 32 ∧
  b = counted (Nick p) ++ vec_to_list (DMKey p) ++ [Flags p].
Proof.
  unfold MarshalProfileBody. case_decide; [naive_solver|].
  rewrite bind_Ok. setoid_rewrite check_label_Ok.
  case_decide; [naive_solver|]. split; [intros (_ & ? & [= <-])|intros (_ & ? & _ & ->); exists tt]; done.
Qed.

Lemma UnmarshalProfileBody_spec b p :
  UnmarshalProfileBody b = Ok p ↔ MarshalProfileBody p = Ok b ∧ flags_known p.
Proof.
  rewrite MarshalProfileBody_Ok. unfold UnmarshalProfileBody, flags_known, X25519KeyLen. split.
  - intros ([n b1] & ->%take_byte_Ok & H)%bind_Ok.
    destruct (Z.eqb_spec (b2z n) 0) as [|Hn]; [done|].
    destruct (Z.eqb_spec (Z.of_nat (length (n :: b1))) (1 + b2z n + Z.of_nat 32 + 1)) as [Hlen|];
      cbn [negb] in H; [|done].
    apply bind_Ok in H as ([nick b2] & [-> Hnick]%take_n_Ok & (u & Hl & H)%bind_Ok).
    apply check_label_Ok in Hl. apply bind_Ok in H as ([key b3] & ->%take_arr_Ok & H).
    case_decide as Hz; [done|]. apply bind_Ok in H as ([f b4] & ->%take_byte_Ok & H).
    destruct (Z.eqb_spec (Z.ldiff (b2z f) FlagUnlisted) 0) as [Hf|]; cbn [negb] in H; [|done].
    injection H as <-. cbn. apply length_of_byte in Hnick. cbn [length] in Hlen.
    rewrite !length_app, length_vec_to_list in Hlen. cbn [length] in Hlen.
    assert (b4 = []) as -> by (destruct b4; [done|cbn in Hlen; lia]).
    unfold counted. rewrite (byte_of_len_eq nick n) by done.
    split_and!; [|done..]. intros ->. cbn in *. lia.
  - intros ((Hne & Hl & Hz & ->) & Hf). pose proof (validateLabel_length _ _ _ Hl) as Hlen.
    unfold MaxNickLen in Hlen. unfold counted. cbn [app take_byte mbind result_bind].
    rewrite byte_of_len_id by lia.
    destruct (Z.eqb_spec (Z.of_nat (length (Nick p))) 0) as [|].
    { by destruct (Nick p). }
    destruct (Z.eqb_spec (Z.of_nat (length (byte_of_len (Nick p) :: Nick p ++ vec_to_list (DMKey p) ++ [Flags p])))
      (1 + Z.of_nat (length (Nick p)) + Z.of_nat 32 + 1)) as [_|Hbad]; cbn [negb].
    2:{ exfalso. apply Hbad. cbn [length]. rewrite !length_app, length_vec_to_list. cbn. lia. }
    rewrite take_n_app by lia. cbn [mbind result_bind].
    rewrite (proj2 (check_label_Ok _ _ _ tt) Hl). cbn [mbind result_bind].
    rewrite (proj2 (take_arr_Ok _ _ _ (DMKey p) _)) by done. cbn [mbind result_bind].
    rewrite decide_False by done. cbn [take_byte mbind result_bind]. rewrite Hf. by destruct p.
Qed.

End Profile.

(** ** SUCCESSION *)

Module Succession.
Section with_blake3.
Context `{Blake3}.

Record SuccessionBody := mkSuccessionBody {
  Successor : NodeID;
  NewPublicKey : bytes;
  Effective : Z  (* uint32 *)
}.

Definition SuccessionBodyLen : nat := NodeIDLen + Node.PublicKeySize + 4.

Definition MarshalSuccessionBody (s : SuccessionBody) : result record_error bytes :=
  if negb (bool_decide (length (NewPublicKey s) = Node.PublicKeySize))
  then Err (PublicKeyLength (Z.of_nat (length (NewPublicKey s))))
  else
    let got := NodeIDFromPublicKey (NewPublicKey s) in
    if decide (got ≠ Successor s) then Err (SuccessorMismatch got (Successor s))
    else if IsZero (Successor s) then Err ZeroSuccessor
    else Ok (vec_to_list (Successor s) ++ NewPublicKey s ++ be_bytes 4 (Effective s)).

Definition UnmarshalSuccessionBody (b : bytes) : result record_error SuccessionBody :=
  if negb (bool_decide (length b = SuccessionBodyLen)) then Err ErrTruncated
  else
    '(succ, b) ← take_arr ErrTruncated 8 b;
    '(pub, b) ← take_n ErrTruncated Node.PublicKeySize b;
    '(eff, _) ← take_be ErrTruncated 4 b;
    if IsZero succ then Err ZeroSuccessor
    else
      let got := NodeIDFromPublicKey pub in
      if decide (got ≠ succ) then Err (SuccessorMismatch got succ)
      else Ok (mkSuccessionBody succ pub eff).

Lemma MarshalSuccessionBody_Ok s b :
  MarshalSuccessionBody s = Ok b ↔
  length (NewPublicKey s) = Node.PublicKeySize ∧
  NodeIDFromPublicKey (NewPublicKey s) = Successor s ∧ IsZero (Successor s) = false ∧
  b = vec_to_list (Successor s) ++ NewPublicKey s ++ be_bytes 4 (Effective s).
Proof.
  unfold MarshalSuccessionBody. case_bool_decide; cbn; [|naive_solver].
  case_decide as Hg; [naive_solver|].
  destruct (IsZero _); naive_solver.
Qed.

Lemma UnmarshalSuccessionBody_spec b s :
  UnmarshalSuccessionBody b = Ok s ↔ is_u32 (Effective s) ∧ MarshalSuccessionBody s = Ok b.
Proof.
  rewrite MarshalSuccessionBody_Ok. unfold UnmarshalSuccessionBody, SuccessionBodyLen, NodeIDLen, Node.PublicKeySize.
  split.
  - case_bool_decide as Hlen; cbn [negb]; [|done].
    intros ([suc b1] & ->%take_arr_Ok & ([pub b2] & [-> Hpub]%take_n_Ok &
      ([eff b3] & [-> He]%take_be_Ok & H1)%bind_Ok)%bind_Ok)%bind_Ok.
    destruct (IsZero suc) eqn:Hz; [done|]. case_decide as Hg; [done|].
    injection H1 as <-. cbn [Successor NewPublicKey Effective].
    rewrite !length_app, length_vec_to_list, length_be_bytes in Hlen.
    assert (b3 = []) as -> by (destruct b3; [done|cbn [length] in Hlen; lia]).
    rewrite app_nil_r. split_and!; [exact He|done..].
  - intros (He & Hpub & Hg & Hz & ->). rewrite bool_decide_eq_true_2.
    2:{ rewrite !length_app, length_vec_to_list, length_be_bytes. lia. }
    cbn [negb]. rewrite (proj2 (take_arr_Ok _ _ _ (Successor s) _)) by done. cbn [mbind result_bind].
    rewrite take_n_app by done. cbn [mbind result_bind].
    rewrite <- (app_nil_r (be_bytes 4 _)).
    rewrite (proj2 (take_be_Ok ErrTruncated 4 _ (Effective s) [])) by done. cbn [mbind result_bind].
    rewrite Hz. rewrite decide_False by (intros ?; done). by destruct s.
Qed.

End with_blake3.
Arguments SuccessionBody : clear implicits.
End Succession.
