(* ===== verification/FileBody.v ===== *)
(** * FILE record bodies (internal/record/file.go)

    The catalog entry a FILE record carries: its writer, its reader, the bound
    that keeps file content out of the log, and the helpers around them. *)

From S2P Require Import Prelude Binary Identity Text Bodies.

Definition MaxFileNameLen : Z := 64.
Definition MaxFileDescLen : Z := 80.
Definition MaxFileTags : Z := 3.
Definition MaxFileTagLen : Z := 12.
Definition FileHashLen : nat := 16.

Record FileBody := mkFileBody {
  Name : bytes;
  Size : Z;  (* uint64 *)
  Hash : arr 16;
  Description : bytes;
  Tags : list bytes
}.

#[export] Instance FileBody_eq_dec : EqDecision FileBody.
Proof. solve_decision. Defined.

Definition ValidateFileDescription (s : bytes) : result record_error unit :=
  check_label LFileDescription s MaxFileDescLen.

(** The loop of [uvarintLen], ten rounds being enough for 64 bits. *)
Fixpoint uvarintLen_loop (fuel : nat) (v n : Z) : Z :=
  match fuel with
  | O => n
  | S fuel' => if 0x80 <=? v then uvarintLen_loop fuel' (Z.shiftr v 7) (n + 1) else n
  end.
Definition uvarintLen (v : Z) : Z := uvarintLen_loop 10 v 1.

Definition FileBodyLen (f : FileBody) : Z :=
  foldl (λ n t, n + (1 + strlen t))
    (1 + strlen (Name f) + uvarintLen (Size f) + Z.of_nat FileHashLen +
     1 + strlen (Description f) + 1)
    (Tags f).

(** [for _, r := range f.Name { if r == '/' || r == '\\' ... }] *)
Definition has_separator (name : bytes) : bool :=
  existsb (λ x, (x.1.2 =? 0x2f) || (x.1.2 =? 0x5c)) (runes name).

Definition is_dot_name (name : bytes) : bool :=
  bool_decide (name = [Byte.x2e]) || bool_decide (name = [Byte.x2e; Byte.x2e]).

(** [for _, t := range f.Tags]: the writer's loop and the reader's. *)
Fixpoint check_tags (ts : list bytes) : result record_error unit :=
  match ts with
  | [] => Ok tt
  | t :: ts' =>
      _ ← require (negb (bool_decide (t = []))) EmptyTag;
      _ ← check_label LFileTag t MaxFileTagLen;
      check_tags ts'
  end.
Fixpoint check_tag_labels (ts : list bytes) : result record_error unit :=
  match ts with
  | [] => Ok tt
  | t :: ts' => _ ← check_label LFileTag t MaxFileTagLen; check_tag_labels ts'
  end.

Definition MarshalFileBody (f : FileBody) : result record_error bytes :=
  _ ← require (negb (bool_decide (Name f = []))) EmptyFileName;
  _ ← check_label LFileName (Name f) MaxFileNameLen;
  _ ← require (negb (has_separator (Name f))) PathSeparator;
  _ ← require (negb (is_dot_name (Name f))) DotName;
  _ ← ValidateFileDescription (Description f);
  _ ← require (negb (bool_decide (Hash f = zero_arr 16))) ZeroFileHash;
  _ ← require (Z.of_nat (length (Tags f)) <=? MaxFileTags)
        (TooManyTags (Z.of_nat (length (Tags f))));
  _ ← check_tags (Tags f);
  Ok (counted (Name f) ++ append_uvarint (Size f) ++ vec_to_list (Hash f) ++
      counted (Description f) ++
      z2b (Z.of_nat (length (Tags f))) :: concat (counted <$> Tags f)).

(** The reader's tag loop, [n] tags still to read. *)
Fixpoint read_tags (n : nat) (b : bytes) : result record_error (list bytes * bytes) :=
  match n with
  | O => Ok ([], b)
  | S n' =>
      '(l, b) ← take_byte ErrTruncated b;
      _ ← require (negb (b2z l =? 0)) EmptyTag;
      '(t, b) ← take_n ErrTruncated (Z.to_nat (b2z l)) b;
      '(ts, b) ← read_tags n' b;
      Ok (t :: ts, b)
  end.

Definition UnmarshalFileBody (b : bytes) : result record_error FileBody :=
  '(nameLen, rest) ← take_byte ErrTruncated b;
  _ ← require (negb (b2z nameLen =? 0)) EmptyFileName;
  '(name, rest) ← take_n ErrTruncated (Z.to_nat (b2z nameLen)) rest;
  '(size, rest) ← read_uvarint ErrTruncated rest;
  '(hash, rest) ← take_arr ErrTruncated 16 rest;
  '(desc, rest) ← take_counted ErrTruncated rest;
  '(tagCount, rest) ← take_byte ErrTruncated rest;
  _ ← require (b2z tagCount <=? MaxFileTags) (TooManyTags (b2z tagCount));
  '(tags, rest) ← read_tags (Z.to_nat (b2z tagCount)) rest;
  _ ← require (bool_decide (rest = [])) (BodyTrailing (strlen rest));
  _ ← check_label LFileName name MaxFileNameLen;
  _ ← require (negb (has_separator name)) PathSeparator;
  _ ← require (negb (is_dot_name name)) DotName;
  _ ← ValidateFileDescription desc;
  _ ← require (negb (bool_decide (hash = zero_arr 16))) ZeroFileHash;
  _ ← check_tag_labels tags;
  let f := mkFileBody name size hash desc tags in
  reencoded ← wrap_err NotReencodable (MarshalFileBody f);
  _ ← require (bool_decide (reencoded = b)) NonCanonicalBody;
  Ok f.

Definition TruncateFileHash (full : bytes) : result record_error (arr 16) :=
  if decide (length full < FileHashLen)%nat then Err (ShortHash (strlen full))
  else Ok (arr_of 16 (take FileHashLen full)).

Definition FileSize (f : FileBody) : Z := 64 + 8 + 8 + 4 + 1 + 4 + FileBodyLen f.

(** ** What the writer accepts and writes *)

Definition valid_tag (t : bytes) : Prop :=
  t ≠ [] ∧ validateLabel LFileTag t MaxFileTagLen = Ok tt.

Definition valid_file (f : FileBody) : Prop :=
  Name f ≠ [] ∧ validateLabel LFileName (Name f) MaxFileNameLen = Ok tt ∧
  has_separator (Name f) = false ∧ is_dot_name (Name f) = false ∧
  validateLabel LFileDescription (Description f) MaxFileDescLen = Ok tt ∧
  Hash f ≠ zero_arr 16 ∧ Z.of_nat (length (Tags f)) ≤ MaxFileTags ∧
  Forall valid_tag (Tags f).

Definition file_wire (f : FileBody) : bytes :=
  counted (Name f) ++ append_uvarint (Size f) ++ vec_to_list (Hash f) ++
  counted (Description f) ++
  z2b (Z.of_nat (length (Tags f))) :: concat (counted <$> Tags f).

Lemma check_tags_Ok ts u : check_tags ts = Ok u ↔ Forall valid_tag ts.
Proof.
  destruct u. induction ts as [|t ts IH]; cbn [check_tags].
  { split; [constructor|done]. }
  rewrite bind_Ok. setoid_rewrite bind_Ok. rewrite Forall_cons, <- IH.
  setoid_rewrite require_neg_decide. setoid_rewrite check_label_Ok.
  unfold valid_tag. split; [intros ([] & ? & [] & ? & ?); auto|].
  intros ((? & ?) & ?). exists tt. split; [done|]. by exists tt.
Qed.

Lemma check_tag_labels_Ok ts : Forall valid_tag ts → check_tag_labels ts = Ok tt.
Proof.
  induction 1 as [|t ts [_ Ht] _ IH]; [done|]. cbn.
  by rewrite (proj2 (check_label_Ok _ _ _ tt) Ht).
Qed.

Lemma MarshalFileBody_Ok f b : MarshalFileBody f = Ok b ↔ valid_file f ∧ b = file_wire f.
Proof.
  unfold MarshalFileBody, valid_file, ValidateFileDescription.
  rewrite !bind_unit_Ok, !require_neg_decide, !check_label_Ok, !require_Ok, !negb_true_iff,
    check_tags_Ok, Z.leb_le. fold (file_wire f). rewrite Ok_inj. naive_solver.
Qed.

(** ** The length function is the encoding's length *)

Lemma uvarintLen_loop_eq fuel v n :
  uvarintLen_loop fuel v n = n + Z.of_nat (length (append_uvarint_fuel fuel v)) - 1.
Proof.
  revert v n. induction fuel as [|fuel IH]; intros v n; [cbn; lia|].
  rewrite append_uvarint_fuel_eq. cbn [uvarintLen_loop].
  destruct (Z.leb_spec 0x80 v), (Z.leb_spec 128 v); try lia; [|cbn; lia].
  rewrite Z.shiftr_div_pow2, IH by lia. change (2 ^ 7) with 128. cbn [length]. lia.
Qed.

Lemma uvarintLen_eq v : uvarintLen v = Z.of_nat (length (append_uvarint v)).
Proof. unfold uvarintLen, append_uvarint. rewrite uvarintLen_loop_eq. lia. Qed.

Lemma length_tags_foldl ts n :
  foldl (λ n t, n + (1 + strlen t)) n ts = n + strlen (concat (counted <$> ts)).
Proof.
  revert n. induction ts as [|t ts IH]; intros n; cbn; [unfold strlen; cbn; lia|].
  rewrite IH. unfold strlen. cbn [length]. rewrite length_app. lia.
Qed.

Lemma FileBodyLen_wire f : FileBodyLen f = strlen (file_wire f).
Proof.
  unfold FileBodyLen, file_wire. rewrite length_tags_foldl, uvarintLen_eq.
  unfold strlen, FileHashLen.
  repeat (rewrite ?length_app, ?length_vec_to_list, ?length_counted; cbn [length]). lia.
Qed.

Lemma length_tags_bound ts :
  Forall valid_tag ts → strlen (concat (counted <$> ts)) ≤ Z.of_nat (length ts) * 13.
Proof.
  unfold strlen. induction 1 as [|t ts [_ Ht%validateLabel_length] _ IH]; cbn; [lia|].
  unfold MaxFileTagLen in Ht. rewrite length_app. lia.
Qed.

Lemma MarshalFileBody_bound f b :
  is_u64 (Size f) → MarshalFileBody f = Ok b → 20 ≤ strlen b ≤ 212.
Proof.
  intros Hs [(Hne & Hn%validateLabel_length & _ & _ & Hd%validateLabel_length & _ & Ht & Hts) ->]%MarshalFileBody_Ok.
  pose proof (length_tags_bound _ Hts).
  pose proof (length_append_uvarint_le _ Hs). pose proof (length_append_uvarint_pos (Size f)).
  unfold MaxFileNameLen, MaxFileDescLen, MaxFileTags in *.
  assert (length (Name f) ≠ 0%nat) by (by destruct (Name f)).
  unfold file_wire, strlen in *.
  repeat (rewrite ?length_app, ?length_vec_to_list, ?length_counted; cbn [length]). lia.
Qed.

(** What the writer emits is as long as [FileBodyLen] announces, so the
    buffer it sizes is exact, and no catalog entry exceeds 212 bytes: a FILE
    record is one packet's worth of metadata and cannot carry content. *)
Theorem MarshalFileBody_length f b :
  is_u64 (Size f) → MarshalFileBody f = Ok b →
  strlen b = FileBodyLen f ∧ 20 ≤ strlen b ≤ 212.
Proof.
  intros Hs Hm. split; [|by eapply MarshalFileBody_bound].
  apply MarshalFileBody_Ok in Hm as [_ ->]. by rewrite FileBodyLen_wire.
Qed.

(** ** The reader accepts the writer's output and nothing else *)

Lemma read_tags_wire ts r :
  Forall valid_tag ts →
  read_tags (length ts) (concat (counted <$> ts) ++ r) = Ok (ts, r).
Proof.
  induction 1 as [|t ts [Hne Ht%validateLabel_length] _ IH]; [done|].
  unfold MaxFileTagLen in Ht. rewrite fmap_cons. cbn [concat length read_tags counted app].
  cbn [take_byte mbind result_bind]. rewrite byte_of_len_id by lia.
  destruct (Z.eqb_spec (Z.of_nat (length t)) 0); [by destruct t|].
  cbn [negb require mbind result_bind]. rewrite Nat2Z.id, <- app_assoc, take_n_app by done.
  cbn [mbind result_bind]. by rewrite IH.
Qed.

Lemma UnmarshalFileBody_sound b f :
  UnmarshalFileBody b = Ok f → is_u64 (Size f) ∧ MarshalFileBody f = Ok b.
Proof.
  unfold UnmarshalFileBody. intros H.
  apply bind_Ok in H as ([c b1] & _ & H). apply bind_unit_Ok in H as [_ H].
  apply bind_Ok in H as ([name b2] & _ & H).
  apply bind_Ok in H as ([size b3] & [Hs _]%read_uvarint_sound & H).
  apply bind_Ok in H as ([hash b4] & _ & H). apply bind_Ok in H as ([desc b5] & _ & H).
  apply bind_Ok in H as ([n b6] & _ & H). apply bind_unit_Ok in H as [_ H].
  apply bind_Ok in H as ([tags b7] & _ & H).
  do 7 apply bind_unit_Ok in H as [_ H].
  apply bind_Ok in H as (re & Hre%wrap_err_Ok & H).
  apply bind_unit_Ok in H as [->%require_Ok%bool_decide_eq_true [= <-]]. done.
Qed.

Lemma UnmarshalFileBody_wire f :
  is_u64 (Size f) → valid_file f → UnmarshalFileBody (file_wire f) = Ok f.
Proof.
  intros Hs Hv. pose proof (proj2 (MarshalFileBody_Ok f _) (conj Hv eq_refl)) as Hm.
  destruct Hv as (Hne & Hn & Hsep & Hdot & Hd & Hh & Ht & Hts).
  pose proof (validateLabel_length _ _ _ Hn) as Hnl. pose proof (validateLabel_length _ _ _ Hd) as Hdl.
  unfold MaxFileNameLen, MaxFileDescLen, MaxFileTags in Hnl, Hdl, Ht.
  unfold UnmarshalFileBody, file_wire. cbn [counted app take_byte mbind result_bind].
  rewrite byte_of_len_id by lia.
  destruct (Z.eqb_spec (Z.of_nat (length (Name f))) 0); [by destruct (Name f)|].
  cbn [negb require mbind result_bind]. rewrite Nat2Z.id, take_n_app by done.
  cbn [mbind result_bind]. rewrite read_uvarint_append by done. cbn [mbind result_bind].
  rewrite (proj2 (take_arr_Ok _ _ _ (Hash f) _)) by done. cbn [mbind result_bind].
  rewrite (proj2 (take_counted_Ok _ _ (Description f) _)) by (split; [done|lia]).
  cbn [take_byte mbind result_bind]. rewrite b2z_z2b_small by lia.
  rewrite (proj2 (Z.leb_le _ _)) by (unfold MaxFileTags; lia). cbn [require mbind result_bind].
  rewrite Nat2Z.id. rewrite <- (app_nil_r (concat _)), read_tags_wire by done.
  cbn [mbind result_bind]. rewrite (bool_decide_eq_true_2 (@nil byte = [])) by done. cbn [require mbind result_bind].
  rewrite (proj2 (check_label_Ok _ _ _ tt) Hn). cbn [mbind result_bind].
  rewrite Hsep, Hdot. cbn [negb require mbind result_bind].
  unfold ValidateFileDescription. rewrite (proj2 (check_label_Ok _ _ _ tt) Hd). cbn [mbind result_bind].
  rewrite bool_decide_eq_false_2 by done. cbn [negb require mbind result_bind].
  rewrite check_tag_labels_Ok by done. cbn [mbind result_bind].
  replace (mkFileBody _ _ _ _ _) with f by (by destruct f). rewrite Hm.
  cbn [wrap_err mbind result_bind].
  rewrite app_nil_r, bool_decide_eq_true_2 by done. done.
Qed.

(** A FILE body is accepted exactly when it is the canonical encoding of the
    entry it is read as: in particular an overlong size, which the reader's
    varint accepts, is refused. *)
Lemma UnmarshalFileBody_spec b f :
  UnmarshalFileBody b = Ok f ↔ is_u64 (Size f) ∧ MarshalFileBody f = Ok b.
Proof.
  split; [apply UnmarshalFileBody_sound|].
  intros [Hs [Hv ->]%MarshalFileBody_Ok]. by apply UnmarshalFileBody_wire.
Qed.
