(* ===== verification/DoorEvent.v ===== *)
(** * DOOR_EVENT record bodies (internal/record/door_event.go)

    A batch of events about one door game: the per-event and per-body rules the
    writer and the reader share, the two codecs, and the size bound. *)

From S2P Require Import Prelude Binary Identity Text Bodies FileBody.

Definition MaxDoorGameLen : Z := 16.
Definition MaxDoorEventsPerRecord : Z := 8.
Definition MaxDoorEventPayloadLen : Z := 48.
Definition MaxDoorEventBodyLen : Z := 1024.

Record DoorEvent := mkDoorEvent {
  Kind : byte;
  Actor : bytes;
  Target : bytes;
  TargetNode : NodeID;
  Payload : bytes
}.

Record DoorEventBody := mkDoorEventBody {
  Game : bytes;
  Events : list DoorEvent
}.

#[export] Instance DoorEvent_eq_dec : EqDecision DoorEvent.
Proof. solve_decision. Defined.
#[export] Instance DoorEventBody_eq_dec : EqDecision DoorEventBody.
Proof. solve_decision. Defined.

Definition DoorEventBodyLen (d : DoorEventBody) : Z :=
  foldl (λ n e,
      let n := n + (4 + strlen (Actor e) + strlen (Payload e)) in
      if bool_decide (Target e = []) then n
      else n + (strlen (Target e) + Z.of_nat NodeIDLen))
    (1 + strlen (Game d) + 1) (Events d).

Definition validateDoorEvent (e : DoorEvent) : result record_error unit :=
  _ ← require (negb (bool_decide (Actor e = []))) NoActor;
  _ ← check_label LDoorActor (Actor e) Profile.MaxNickLen;
  _ ← (if bool_decide (Target e = []) then
         require (IsZero (TargetNode e)) TargetNodeWithoutTarget
       else
         _ ← check_label LDoorTarget (Target e) Profile.MaxNickLen;
         require (negb (IsZero (TargetNode e))) TargetOnNoNode);
  require (strlen (Payload e) <=? MaxDoorEventPayloadLen) (PayloadTooLong (strlen (Payload e))).

Fixpoint validateDoorEvents (es : list DoorEvent) : result record_error unit :=
  match es with
  | [] => Ok tt
  | e :: es' => _ ← validateDoorEvent e; validateDoorEvents es'
  end.

Definition validateDoorEventBody (d : DoorEventBody) : result record_error unit :=
  let count := Z.of_nat (length (Events d)) in
  _ ← require (negb (bool_decide (Game d = []))) NoGame;
  _ ← check_label LDoorGame (Game d) MaxDoorGameLen;
  _ ← require (negb (count =? 0)) NoEvents;
  _ ← require (count <=? MaxDoorEventsPerRecord) (TooManyEvents count);
  _ ← validateDoorEvents (Events d);
  require (DoorEventBodyLen d <=? MaxDoorEventBodyLen) (DoorBodyTooLong (DoorEventBodyLen d)).

Definition appendDoorEvent (e : DoorEvent) : bytes :=
  Kind e :: counted (Actor e) ++
  byte_of_len (Target e) ::
  (if bool_decide (Target e = []) then [] else Target e ++ vec_to_list (TargetNode e)) ++
  counted (Payload e).

Definition MarshalDoorEventBody (d : DoorEventBody) : result record_error bytes :=
  _ ← validateDoorEventBody d;
  Ok (counted (Game d) ++ z2b (Z.of_nat (length (Events d))) ::
      concat (appendDoorEvent <$> Events d)).

(** One round of the reader's loop. *)
Definition readDoorEvent (b : bytes) : result record_error (DoorEvent * bytes) :=
  '(kind, b) ← take_byte ErrTruncated b;
  '(actor, b) ← take_counted ErrTruncated b;
  '(targetLen, b) ← take_byte ErrTruncated b;
  '(target, node, b) ←
    (if 0 <? b2z targetLen then
       '(target, b) ← take_n ErrTruncated (Z.to_nat (b2z targetLen)) b;
       '(node, b) ← take_arr ErrTruncated 8 b;
       Ok (target, node, b)
     else Ok ([], zero_id, b));
  '(payload, b) ← take_counted ErrTruncated b;
  Ok (mkDoorEvent kind actor target node payload, b).

Fixpoint readDoorEvents (n : nat) (b : bytes) : result record_error (list DoorEvent * bytes) :=
  match n with
  | O => Ok ([], b)
  | S n' =>
      '(e, b) ← readDoorEvent b;
      '(es, b) ← readDoorEvents n' b;
      Ok (e :: es, b)
  end.

Definition UnmarshalDoorEventBody (b : bytes) : result record_error DoorEventBody :=
  '(game, rest) ← take_counted ErrTruncated b;
  '(count, rest) ← take_byte ErrTruncated rest;
  _ ← require (b2z count <=? MaxDoorEventsPerRecord) (TooManyEvents (b2z count));
  '(events, rest) ← readDoorEvents (Z.to_nat (b2z count)) rest;
  _ ← require (bool_decide (rest = [])) (BodyTrailing (strlen rest));
  let d := mkDoorEventBody game events in
  _ ← validateDoorEventBody d;
  reencoded ← wrap_err NotReencodable (MarshalDoorEventBody d);
  _ ← require (bool_decide (reencoded = b)) NonCanonicalBody;
  Ok d.

Definition DoorEventSize (d : DoorEventBody) : Z := 64 + 8 + 8 + 4 + 1 + 4 + DoorEventBodyLen d.

(** ** What the rules say *)

Definition valid_event (e : DoorEvent) : Prop :=
  Actor e ≠ [] ∧ validateLabel LDoorActor (Actor e) Profile.MaxNickLen = Ok tt ∧
  (Target e = [] ∧ TargetNode e = zero_id ∨
   Target e ≠ [] ∧ validateLabel LDoorTarget (Target e) Profile.MaxNickLen = Ok tt ∧
   TargetNode e ≠ zero_id) ∧
  strlen (Payload e) ≤ MaxDoorEventPayloadLen.

Definition valid_batch (d : DoorEventBody) : Prop :=
  Game d ≠ [] ∧ validateLabel LDoorGame (Game d) MaxDoorGameLen = Ok tt ∧
  Events d ≠ [] ∧ Z.of_nat (length (Events d)) ≤ MaxDoorEventsPerRecord ∧
  Forall valid_event (Events d).

Definition door_wire (d : DoorEventBody) : bytes :=
  counted (Game d) ++ z2b (Z.of_nat (length (Events d))) :: concat (appendDoorEvent <$> Events d).

Lemma IsZero_true id : IsZero id = true ↔ id = zero_id.
Proof. unfold IsZero. apply bool_decide_eq_true. Qed.

Lemma validateDoorEvent_Ok e u : validateDoorEvent e = Ok u ↔ valid_event e.
Proof.
  destruct u. unfold validateDoorEvent, valid_event.
  rewrite !bind_unit_Ok, require_neg_decide, check_label_Ok, require_Ok, Z.leb_le.
  case_bool_decide as Ht.
  - rewrite require_Ok, IsZero_true. naive_solver.
  - rewrite bind_unit_Ok, check_label_Ok, require_Ok, negb_true_iff.
    rewrite <- (not_true_iff_false (IsZero _)), IsZero_true. naive_solver.
Qed.

Lemma validateDoorEvents_Ok es u : validateDoorEvents es = Ok u ↔ Forall valid_event es.
Proof.
  destruct u. induction es as [|e es IH]; cbn [validateDoorEvents].
  { split; [constructor|done]. }
  by rewrite bind_unit_Ok, validateDoorEvent_Ok, IH, Forall_cons.
Qed.

(** ** Lengths *)

Lemma length_appendDoorEvent e :
  strlen (appendDoorEvent e) = 4 + strlen (Actor e) + strlen (Payload e) +
    (if bool_decide (Target e = []) then 0 else strlen (Target e) + 8).
Proof.
  unfold appendDoorEvent, strlen. case_bool_decide;
    repeat (rewrite ?length_app, ?length_vec_to_list, ?length_counted; cbn [length]); lia.
Qed.

Lemma length_events_foldl es n :
  foldl (λ n e,
      let n := n + (4 + strlen (Actor e) + strlen (Payload e)) in
      if bool_decide (Target e = []) then n
      else n + (strlen (Target e) + Z.of_nat NodeIDLen)) n es
  = n + strlen (concat (appendDoorEvent <$> es)).
Proof.
  revert n. induction es as [|e es IH]; intros n; [cbn; unfold strlen; cbn; lia|].
  rewrite fmap_cons. cbn [concat foldl]. rewrite IH.
  pose proof (length_appendDoorEvent e) as He. unfold strlen in *. rewrite length_app.
  unfold NodeIDLen. case_bool_decide; lia.
Qed.

Lemma DoorEventBodyLen_wire d : DoorEventBodyLen d = strlen (door_wire d).
Proof.
  unfold DoorEventBodyLen. rewrite length_events_foldl. unfold door_wire, strlen.
  repeat (rewrite ?length_app, ?length_counted; cbn [length]). lia.
Qed.

Lemma length_event_bound e : valid_event e → strlen (appendDoorEvent e) ≤ 108.
Proof.
  intros (_ & Ha%validateLabel_length & Ht & Hp). rewrite length_appendDoorEvent.
  unfold Profile.MaxNickLen, MaxDoorEventPayloadLen, strlen in *.
  destruct Ht as [[-> _]|(Hne & Ht%validateLabel_length & _)].
  - rewrite bool_decide_eq_true_2 by done. lia.
  - rewrite bool_decide_eq_false_2 by done. lia.
Qed.

Lemma length_events_bound es :
  Forall valid_event es →
  strlen (concat (appendDoorEvent <$> es)) ≤ Z.of_nat (length es) * 108.
Proof.
  induction 1 as [|e es He _ IH]; [done|]. apply length_event_bound in He.
  rewrite fmap_cons. cbn [concat length]. unfold strlen in *. rewrite length_app. lia.
Qed.

(** The field limits alone keep a batch to 882 bytes, so the whole-body ceiling
    of 1024 never refuses a batch the other rules admit. *)
Lemma valid_batch_length d : valid_batch d → DoorEventBodyLen d ≤ 882.
Proof.
  intros (_ & Hg%validateLabel_length & _ & Hc & He). rewrite DoorEventBodyLen_wire.
  apply length_events_bound in He. unfold MaxDoorGameLen, MaxDoorEventsPerRecord in *.
  unfold door_wire, strlen in *.
  repeat (rewrite ?length_app, ?length_counted; cbn [length]). lia.
Qed.

Lemma validateDoorEventBody_Ok d u : validateDoorEventBody d = Ok u ↔ valid_batch d.
Proof.
  assert (Hlen : valid_batch d → DoorEventBodyLen d ≤ MaxDoorEventBodyLen)
    by (intros ?%valid_batch_length; unfold MaxDoorEventBodyLen; lia).
  destruct u. unfold validateDoorEventBody, valid_batch in *.
  rewrite !bind_unit_Ok, require_neg_decide, check_label_Ok, !require_Ok,
    validateDoorEvents_Ok, !Z.leb_le, negb_true_iff, Z.eqb_neq.
  assert (Z.of_nat (length (Events d)) ≠ 0 ↔ Events d ≠ []) as ->; [|naive_solver].
  destruct (Events d); cbn [length]; split; intros; try done; lia.
Qed.

Lemma MarshalDoorEventBody_Ok d b :
  MarshalDoorEventBody d = Ok b ↔ valid_batch d ∧ b = door_wire d.
Proof.
  unfold MarshalDoorEventBody. fold (door_wire d).
  rewrite bind_unit_Ok, validateDoorEventBody_Ok, Ok_inj. naive_solver.
Qed.

(** Every batch the writer accepts is as long as [DoorEventBodyLen] says and
    fits 882 bytes, under the 1024-byte ceiling: the ceiling is redundant with
    the per-field limits, which is what its comment claims. *)
Theorem MarshalDoorEventBody_length d b :
  MarshalDoorEventBody d = Ok b → strlen b = DoorEventBodyLen d ∧ strlen b ≤ 882.
Proof.
  intros [Hv ->]%MarshalDoorEventBody_Ok. rewrite <- DoorEventBodyLen_wire.
  auto using valid_batch_length.
Qed.

(** ** Reading back *)

Lemma readDoorEvent_wire e r :
  valid_event e → readDoorEvent (appendDoorEvent e ++ r) = Ok (e, r).
Proof.
  intros (_ & Ha%validateLabel_length & Ht & Hp). unfold readDoorEvent, appendDoorEvent.
  unfold Profile.MaxNickLen, MaxDoorEventPayloadLen, strlen in *.
  cbn [app take_byte mbind result_bind]. rewrite <- app_assoc.
  run (apply take_counted_Ok; split; [done|lia]).
  cbn [app take_byte mbind result_bind]. rewrite <- app_assoc.
  eapply bind_step with (a := (Target e, TargetNode e, counted (Payload e) ++ r)); cbn beta iota.
  - destruct Ht as [[-> ->]|(Hne & Ht%validateLabel_length & _)].
    + rewrite bool_decide_eq_true_2 by done. done.
    + rewrite bool_decide_eq_false_2, byte_of_len_id by (done || lia).
      destruct (Z.ltb_spec 0 (Z.of_nat (length (Target e)))); [|destruct (Target e); [done|cbn in *; lia]].
      rewrite Nat2Z.id, <- app_assoc. run (apply take_n_app; done).
      run (apply take_arr_Ok; done). done.
  - run (apply take_counted_Ok; split; [done|lia]). by destruct e.
Qed.

Lemma readDoorEvents_wire es r :
  Forall valid_event es →
  readDoorEvents (length es) (concat (appendDoorEvent <$> es) ++ r) = Ok (es, r).
Proof.
  induction 1 as [|e es He _ IH]; [done|]. rewrite fmap_cons. cbn [concat length readDoorEvents].
  rewrite <- app_assoc. run (by apply readDoorEvent_wire). run (apply IH). done.
Qed.

Lemma UnmarshalDoorEventBody_wire d :
  valid_batch d → UnmarshalDoorEventBody (door_wire d) = Ok d.
Proof.
  intros Hv. pose proof Hv as (Hne & Hg%validateLabel_length & _ & Hc & He).
  unfold MaxDoorGameLen, MaxDoorEventsPerRecord in Hg, Hc.
  unfold UnmarshalDoorEventBody, door_wire.
  run (apply take_counted_Ok; split; [done|lia]). run (done).
  rewrite b2z_z2b_small by lia.
  run (apply require_Ok, Z.leb_le; unfold MaxDoorEventsPerRecord; lia). rewrite Nat2Z.id.
  run (rewrite <- (app_nil_r (concat _)); by apply readDoorEvents_wire). run (done).
  replace (mkDoorEventBody _ _) with d by (by destruct d).
  run (by apply (validateDoorEventBody_Ok d tt)).
  run (apply wrap_err_Ok, MarshalDoorEventBody_Ok; eauto).
  run (by apply require_Ok, bool_decide_eq_true). done.
Qed.

Lemma UnmarshalDoorEventBody_sound b d :
  UnmarshalDoorEventBody b = Ok d → MarshalDoorEventBody d = Ok b.
Proof.
  unfold UnmarshalDoorEventBody. intros H.
  apply bind_Ok in H as ([game b1] & _ & H). apply bind_Ok in H as ([c b2] & _ & H).
  apply bind_unit_Ok in H as [_ H]. apply bind_Ok in H as ([es b3] & _ & H).
  do 2 apply bind_unit_Ok in H as [_ H].
  apply bind_Ok in H as (re & Hre%wrap_err_Ok & H).
  apply bind_unit_Ok in H as [->%require_Ok%bool_decide_eq_true [= <-]]. done.
Qed.

(** A DOOR_EVENT body is accepted exactly when it is the encoding of the
    batch it is read as; a target node without a target, which the wire cannot
    carry, never comes out of the reader. *)
Lemma UnmarshalDoorEventBody_spec b d :
  UnmarshalDoorEventBody b = Ok d ↔ MarshalDoorEventBody d = Ok b.
Proof.
  split; [apply UnmarshalDoorEventBody_sound|].
  intros [Hv ->]%MarshalDoorEventBody_Ok. by apply UnmarshalDoorEventBody_wire.
Qed.
