(* ===== verification/Records.v ===== *)
(** * The signed record and its canonical encoding
    (internal/record/record.go, codec.go, dm.go, and the constructors and
    verifiers of node.go, profile.go, succession.go, file.go, door_event.go)

    BLAKE3 and Ed25519 are parameters: the first a function, the second the
    pair of functions [ed25519_sign] and [ed25519_verify]. What the code relies
    on of Ed25519 is [valid_key]: a key pair verifies what it signs. *)

From stdpp Require Import strings.
From S2P Require Import Prelude Binary Identity Text Bodies FileBody DoorEvent.

Definition FormatVersion : byte := Byte.x01.
Definition IDLen : nat := 16.
Definition MaxBodyLen : Z := 8192.
Definition SignatureSize : nat := 64.

Abbreviation ID := (arr 16).
Abbreviation AreaTag := (arr 4).

Definition zero_record_id : ID := zero_arr 16.
Definition ID_IsZero (id : ID) : bool := bool_decide (id = zero_record_id).

(** [Type] is a byte; these are the values the wire names. *)
Definition TypePost : byte := Byte.x01.
Definition TypeDM : byte := Byte.x02.
Definition TypeProfile : byte := Byte.x03.
Definition TypeNode : byte := Byte.x04.
Definition TypeSuccession : byte := Byte.x05.
Definition TypeArea : byte := Byte.x06.
Definition TypeFile : byte := Byte.x07.
Definition TypeTombstone : byte := Byte.x08.
Definition TypeVote : byte := Byte.x09.
Definition TypeDoorEvent : byte := Byte.x0a.

(** The keys of [typeNames]. *)
Definition known_types : list byte :=
  [TypePost; TypeDM; TypeProfile; TypeNode; TypeSuccession; TypeArea; TypeFile;
   TypeTombstone; TypeVote; TypeDoorEvent].
Definition Type_Valid (t : byte) : bool := bool_decide (t ∈ known_types).

Definition flagHasParent : Z := 1.

(** The fields a caller fills in. *)
Record Fields := mkFields {
  Origin : NodeID;
  Seq : Z;  (* uint64 *)
  TS : Z;   (* uint32 *)
  Type_ : byte;
  Area : AreaTag;
  Parent : ID;
  Body : bytes
}.

(** A built record: the fields and the three private ones. *)
Record Rec := mkRec {
  fields : Fields;
  id : ID;
  signed : bytes;
  sig : arr 64
}.

#[export] Instance Fields_eq_dec : EqDecision Fields.
Proof. solve_decision. Defined.
#[export] Instance Rec_eq_dec : EqDecision Rec.
Proof. solve_decision. Defined.

Inductive codec_error :=
| Truncated
| UnknownType (t : byte)
| BodyTooLong (n : Z)
| NoOrigin
| UnsupportedVersion (v : byte)
| UnknownFlags (f : Z)
| BadSeqVarint
| BadBodyVarint
| TrailingBytes (n : Z)
| NonCanonicalRecord
| NotACatalogEntry (e : record_error)
| NotABatch (e : record_error)
| WrongSigner (origin key : NodeID)
| BodyRefused (e : record_error)
| SelfSuccession.

Inductive verify_error :=
| NoSignedBytes
| KeyMismatch (origin : NodeID)
| BadSignature
| IDMismatch
| WrongType (got : byte)
| BadBody (e : record_error)
| EmbeddedKeyMismatch (got origin : NodeID)
| SucceedsItself.

#[export] Instance codec_error_eq_dec : EqDecision codec_error.
Proof. solve_decision. Defined.
#[export] Instance verify_error_eq_dec : EqDecision verify_error.
Proof. solve_decision. Defined.

(** crypto/ed25519: [sign private message], [verify public message signature]. *)
Class Ed25519 := {
  ed25519_sign : bytes → bytes → arr 64;
  ed25519_verify : bytes → bytes → arr 64 → bool
}.

Record NodeKey := mkNodeKey { Public : bytes; Private : bytes }.

(** What the key generator guarantees of a pair. *)
Definition valid_key `{Ed25519} (k : NodeKey) : Prop :=
  length (Public k) = Node.PublicKeySize ∧
  ∀ msg, ed25519_verify (Public k) msg (ed25519_sign (Private k) msg) = true.

#[local] Arguments arr_of : simpl never.

Section with_crypto.
Context `{HB : Blake3, HE : Ed25519}.

Definition NodeKey_ID (k : NodeKey) : NodeID := NodeIDFromPublicKey (Public k).
Definition Sign (k : NodeKey) (msg : bytes) : arr 64 := ed25519_sign (Private k) msg.

Definition AreaTagFor (name : bytes) : AreaTag := arr_of 4 (vec_to_list (blake3_sum256 name)).

Definition HasParent (r : Fields) : bool := negb (ID_IsZero (Parent r)).

Definition canonicalBytes (r : Fields) : result codec_error bytes :=
  _ ← require (Type_Valid (Type_ r)) (UnknownType (Type_ r));
  _ ← require (strlen (Body r) <=? MaxBodyLen) (BodyTooLong (strlen (Body r)));
  _ ← require (negb (IsZero (Origin r))) NoOrigin;
  let flags := if HasParent r then Z.lor 0 flagHasParent else 0 in
  Ok ([FormatVersion; z2b flags; Type_ r] ++
      vec_to_list (Origin r) ++
      append_uvarint (Seq r) ++
      be_bytes 4 (TS r) ++
      vec_to_list (Area r) ++
      (if HasParent r then vec_to_list (Parent r) else []) ++
      append_uvarint (strlen (Body r)) ++
      Body r).

Definition deriveID (canonical : bytes) : ID := arr_of 16 (vec_to_list (blake3_sum256 canonical)).

Definition checkNoFileContent (r : Fields) : result codec_error unit :=
  if decide (Type_ r ≠ TypeFile) then Ok tt
  else _ ← wrap_err NotACatalogEntry (UnmarshalFileBody (Body r)); Ok tt.

Definition checkDoorEventBody (r : Fields) : result codec_error unit :=
  if decide (Type_ r ≠ TypeDoorEvent) then Ok tt
  else _ ← wrap_err NotABatch (UnmarshalDoorEventBody (Body r)); Ok tt.

Definition with_origin (r : Fields) (o : NodeID) : Fields :=
  mkFields o (Seq r) (TS r) (Type_ r) (Area r) (Parent r) (Body r).

Definition New (key : NodeKey) (r : Fields) : result codec_error Rec :=
  let r := if IsZero (Origin r) then with_origin r (NodeKey_ID key) else r in
  _ ← require (bool_decide (Origin r = NodeKey_ID key)) (WrongSigner (Origin r) (NodeKey_ID key));
  canonical ← canonicalBytes r;
  _ ← checkNoFileContent r;
  _ ← checkDoorEventBody r;
  Ok (mkRec r (deriveID canonical) canonical (Sign key canonical)).

Definition verifySig (pub msg : bytes) (s : arr 64) : bool :=
  if decide (length pub ≠ Node.PublicKeySize) then false else ed25519_verify pub msg s.

Definition Verify (r : Rec) (pub : bytes) : result verify_error unit :=
  _ ← require (negb (bool_decide (signed r = []))) NoSignedBytes;
  _ ← require (Matches (Origin (fields r)) pub) (KeyMismatch (Origin (fields r)));
  _ ← require (verifySig pub (signed r) (sig r)) BadSignature;
  require (bool_decide (deriveID (signed r) = id r)) IDMismatch.

Definition Marshal (r : Rec) : bytes := signed r ++ vec_to_list (sig r).

Definition decodeCanonical (b : bytes) : result codec_error Fields :=
  '(hd, b) ← take_arr Truncated 3 b;
  let version := hd !!! 0%fin in
  let flags := b2z (hd !!! 1%fin) in
  let type_ := hd !!! 2%fin in
  _ ← require (bool_decide (version = FormatVersion)) (UnsupportedVersion version);
  _ ← require (Type_Valid type_) (UnknownType type_);
  _ ← require (Z.ldiff flags flagHasParent =? 0) (UnknownFlags (Z.ldiff flags flagHasParent));
  '(origin, b) ← take_arr Truncated 8 b;
  '(seq, b) ← read_uvarint BadSeqVarint b;
  '(ts, b) ← take_be Truncated 4 b;
  '(area, b) ← take_arr Truncated 4 b;
  '(parent, b) ←
    (if negb (Z.land flags flagHasParent =? 0) then take_arr Truncated 16 b
     else Ok (zero_record_id, b));
  '(bodyLen, b) ← read_uvarint BadBodyVarint b;
  _ ← require (bodyLen <=? MaxBodyLen) (BodyTooLong bodyLen);
  '(body, b) ← take_n Truncated (Z.to_nat bodyLen) b;
  _ ← require (bool_decide (b = [])) (TrailingBytes (strlen b));
  Ok (mkFields origin seq ts type_ area parent body).

Definition Unmarshal (b : bytes) : result codec_error Rec :=
  if decide (length b < SignatureSize + 8)%nat then Err Truncated
  else
    let sigOff := (length b - SignatureSize)%nat in
    let canonical := take sigOff b in
    r ← decodeCanonical canonical;
    reencoded ← canonicalBytes r;
    _ ← require (bool_decide (reencoded = canonical)) NonCanonicalRecord;
    _ ← checkNoFileContent r;
    _ ← checkDoorEventBody r;
    Ok (mkRec r (deriveID canonical) canonical (arr_of 64 (drop sigOff b))).

(** ** Constructors and verifiers of each kind *)

Definition zero_area : AreaTag := zero_arr 4.
Definition node_fields (key : NodeKey) (seq ts : Z) (t : byte) (area : AreaTag) (body : bytes) : Fields :=
  mkFields (NodeKey_ID key) seq ts t area zero_record_id body.

Definition NewNodeRecord (key : NodeKey) (seq ts : Z) (displayName contact : bytes)
    (incarnation : Z) : result codec_error Rec :=
  body ← wrap_err BodyRefused
    (Node.MarshalNodeBody (Node.mkNodeBody (Public key) displayName contact incarnation));
  New key (node_fields key seq ts TypeNode zero_area body).

Definition VerifyNodeRecord (r : Rec) : result verify_error Node.NodeBody :=
  _ ← require (bool_decide (Type_ (fields r) = TypeNode)) (WrongType (Type_ (fields r)));
  body ← wrap_err BadBody (Node.UnmarshalNodeBody (Body (fields r)));
  _ ← require (Matches (Origin (fields r)) (Node.PublicKey body))
        (EmbeddedKeyMismatch (NodeIDFromPublicKey (Node.PublicKey body)) (Origin (fields r)));
  _ ← Verify r (Node.PublicKey body);
  Ok body.

Definition ProfileArea : AreaTag := AreaTagFor (str "_directory"%string).
Definition DMArea : AreaTag := AreaTagFor (str "_mail"%string).

Definition NewProfileRecord (key : NodeKey) (seq ts : Z) (p : Profile.ProfileBody)
    : result codec_error Rec :=
  body ← wrap_err BodyRefused (Profile.MarshalProfileBody p);
  New key (node_fields key seq ts TypeProfile ProfileArea body).

(** The verifiers of PROFILE, FILE and DOOR_EVENT have one shape: the type, the
    body, then the signature under a key the caller already trusts. *)
Definition VerifyWith {A : Type} (t : byte) (parse : bytes → result record_error A)
    (r : Rec) (originPub : bytes) : result verify_error A :=
  _ ← require (bool_decide (Type_ (fields r) = t)) (WrongType (Type_ (fields r)));
  body ← wrap_err BadBody (parse (Body (fields r)));
  _ ← Verify r originPub;
  Ok body.

Definition VerifyProfileRecord := VerifyWith TypeProfile Profile.UnmarshalProfileBody.
Definition VerifyFileRecord := VerifyWith TypeFile UnmarshalFileBody.
Definition VerifyDoorEventRecord := VerifyWith TypeDoorEvent UnmarshalDoorEventBody.

Definition NewFileRecord (key : NodeKey) (seq ts : Z) (area : AreaTag) (f : FileBody)
    : result codec_error Rec :=
  body ← wrap_err BodyRefused (MarshalFileBody f);
  New key (node_fields key seq ts TypeFile area body).

Definition NewDoorEventRecord (key : NodeKey) (seq ts : Z) (area : AreaTag) (d : DoorEventBody)
    : result codec_error Rec :=
  body ← wrap_err BodyRefused (MarshalDoorEventBody d);
  New key (node_fields key seq ts TypeDoorEvent area body).

Definition NewSuccessionRecord (oldKey : NodeKey) (seq ts : Z) (successor : NodeID)
    (newPub : bytes) (effective : Z) : result codec_error Rec :=
  _ ← require (negb (bool_decide (successor = NodeKey_ID oldKey))) SelfSuccession;
  body ← wrap_err BodyRefused
    (Succession.MarshalSuccessionBody (Succession.mkSuccessionBody successor newPub effective));
  New oldKey (node_fields oldKey seq ts TypeSuccession zero_area body).

Definition VerifySuccessionRecord (r : Rec) (predecessorPub : bytes)
    : result verify_error Succession.SuccessionBody :=
  _ ← require (bool_decide (Type_ (fields r) = TypeSuccession)) (WrongType (Type_ (fields r)));
  body ← wrap_err BadBody (Succession.UnmarshalSuccessionBody (Body (fields r)));
  _ ← require (Matches (Origin (fields r)) predecessorPub)
        (EmbeddedKeyMismatch (NodeIDFromPublicKey predecessorPub) (Origin (fields r)));
  _ ← require (negb (bool_decide (Succession.Successor body = Origin (fields r)))) SucceedsItself;
  _ ← Verify r predecessorPub;
  Ok body.

(** ** The canonical encoding *)

Definition wire_flags (r : Fields) : byte := if HasParent r then Byte.x01 else Byte.x00.

Definition canonical_wire (r : Fields) : bytes :=
  [FormatVersion; wire_flags r; Type_ r] ++ vec_to_list (Origin r) ++
  append_uvarint (Seq r) ++ be_bytes 4 (TS r) ++ vec_to_list (Area r) ++
  (if HasParent r then vec_to_list (Parent r) else []) ++
  append_uvarint (strlen (Body r)) ++ Body r.

Lemma canonicalBytes_Ok r b :
  canonicalBytes r = Ok b ↔
  Type_Valid (Type_ r) = true ∧ strlen (Body r) ≤ MaxBodyLen ∧ Origin r ≠ zero_id ∧
  b = canonical_wire r.
Proof.
  unfold canonicalBytes. rewrite !bind_unit_Ok, !require_Ok, Z.leb_le, Ok_inj, negb_true_iff.
  rewrite <- (not_true_iff_false (IsZero _)), IsZero_true.
  assert (Hf : z2b (if HasParent r then Z.lor 0 flagHasParent else 0) = wire_flags r)
    by (unfold wire_flags; by destruct (HasParent r)).
  rewrite Hf. fold (canonical_wire r). naive_solver.
Qed.

Lemma HasParent_false r : HasParent r = false → Parent r = zero_record_id.
Proof.
  unfold HasParent, ID_IsZero. rewrite negb_false_iff. apply bool_decide_eq_true.
Qed.

Lemma length_canonical_wire r : (21 ≤ length (canonical_wire r))%nat.
Proof.
  unfold canonical_wire. pose proof (length_append_uvarint_pos (Seq r)).
  pose proof (length_append_uvarint_pos (strlen (Body r))).
  repeat (rewrite ?length_app, ?length_vec_to_list, ?length_be_bytes; cbn [length]). lia.
Qed.

Lemma decodeCanonical_wire r :
  Type_Valid (Type_ r) = true → strlen (Body r) ≤ MaxBodyLen →
  is_u64 (Seq r) → is_u32 (TS r) → decodeCanonical (canonical_wire r) = Ok r.
Proof.
  intros Ht Hb Hs Hts. unfold decodeCanonical, canonical_wire.
  run (apply (take_arr_Ok _ 3 _ [#FormatVersion; wire_flags r; Type_ r]); done).
  cbn [Vector.nth vector_lookup_total Vector.caseS].
  run (by apply require_Ok, bool_decide_eq_true). run (by apply require_Ok).
  run (unfold wire_flags; by destruct (HasParent r)).
  run (by apply take_arr_Ok). run (by apply read_uvarint_append).
  run (by apply take_be_Ok). run (by apply take_arr_Ok).
  eapply bind_step with (a := (Parent r, append_uvarint (strlen (Body r)) ++ Body r)).
  { unfold wire_flags. destruct (HasParent r) eqn:Hp; cbn; [by apply take_arr_Ok|].
    by rewrite HasParent_false. }
  cbn beta iota. unfold MaxBodyLen in *.
  run (apply read_uvarint_append; unfold strlen in *; widths).
  run (apply require_Ok, Z.leb_le; done).
  eapply bind_step with (a := (Body r, [])).
  { apply take_n_Ok. unfold strlen. by rewrite app_nil_r, Nat2Z.id. }
  cbn beta iota. run done. by destruct r.
Qed.

Lemma decodeCanonical_bounds b r : decodeCanonical b = Ok r → is_u64 (Seq r) ∧ is_u32 (TS r).
Proof.
  unfold decodeCanonical. intros H.
  apply bind_Ok in H as ([hd b1] & _ & H). do 3 apply bind_unit_Ok in H as [_ H].
  apply bind_Ok in H as ([o b2] & _ & H).
  apply bind_Ok in H as ([s b3] & [Hs _]%read_uvarint_sound & H).
  apply bind_Ok in H as ([ts b4] & [_ Hts]%take_be_Ok & H).
  apply bind_Ok in H as ([a b5] & _ & H). apply bind_Ok in H as ([p b6] & _ & H).
  apply bind_Ok in H as ([l b7] & _ & H). apply bind_unit_Ok in H as [_ H].
  apply bind_Ok in H as ([bd b8] & _ & H). by apply bind_unit_Ok in H as [_ [= <-]].
Qed.

(** ** Well-formed records: what [New] builds and [Unmarshal] accepts *)

Definition wf_rec (r : Rec) : Prop :=
  is_u64 (Seq (fields r)) ∧ is_u32 (TS (fields r)) ∧
  canonicalBytes (fields r) = Ok (signed r) ∧
  checkNoFileContent (fields r) = Ok tt ∧ checkDoorEventBody (fields r) = Ok tt ∧
  id r = deriveID (signed r).

Lemma Unmarshal_sound b r : Unmarshal b = Ok r → wf_rec r ∧ Marshal r = b.
Proof.
  unfold Unmarshal, SignatureSize. case_decide as Hlen; [done|]. intros H.
  apply bind_Ok in H as (f & Hd & H). apply bind_Ok in H as (re & Hre & H).
  apply bind_unit_Ok in H as [->%require_Ok%bool_decide_eq_true H].
  apply bind_unit_Ok in H as [Hf H]. apply bind_unit_Ok in H as [Hdo <-%Ok_inj].
  apply decodeCanonical_bounds in Hd as [? ?]. split; [done|].
  unfold Marshal. cbn. rewrite vec_to_list_arr_of; [apply take_drop|].
  rewrite length_drop. lia.
Qed.

Lemma Unmarshal_Marshal r : wf_rec r → Unmarshal (Marshal r) = Ok r.
Proof.
  intros (Hs & Hts & Hc & Hf & Hd & Hid). unfold Unmarshal, Marshal, SignatureSize.
  apply canonicalBytes_Ok in Hc as Hw. destruct Hw as (Ht & Hb & _ & Hsig).
  rewrite length_app, length_vec_to_list.
  pose proof (length_canonical_wire (fields r)) as Hl. rewrite <- Hsig in Hl.
  rewrite decide_False by lia. rewrite Nat.add_sub, take_app_length, drop_app_length.
  run (rewrite Hsig; by apply decodeCanonical_wire). run done.
  run (by apply require_Ok, bool_decide_eq_true). run done. run done.
  rewrite arr_of_vec, <- Hid. by destruct r.
Qed.

Lemma New_Ok k f r :
  New k f = Ok r →
  let f' := if IsZero (Origin f) then with_origin f (NodeKey_ID k) else f in
  fields r = f' ∧ Origin f' = NodeKey_ID k ∧ canonicalBytes f' = Ok (signed r) ∧
  checkNoFileContent f' = Ok tt ∧ checkDoorEventBody f' = Ok tt ∧
  id r = deriveID (signed r) ∧ sig r = Sign k (signed r).
Proof.
  unfold New. cbv zeta. intros H. apply bind_unit_Ok in H as [Ho%require_Ok%bool_decide_eq_true H].
  apply bind_Ok in H as (c & Hc & H). apply bind_unit_Ok in H as [Hf H].
  apply bind_unit_Ok in H as [Hd <-%Ok_inj]. done.
Qed.

Lemma New_wf k f r :
  is_u64 (Seq f) → is_u32 (TS f) → New k f = Ok r → wf_rec r.
Proof.
  intros ? ? (Hr & _ & Hc & Hf & Hd & Hi & _)%New_Ok. rewrite <- Hr in *.
  split_and!; try done; rewrite Hr; by case_match.
Qed.

Lemma signed_nonempty r : wf_rec r → signed r ≠ [].
Proof.
  intros (_ & _ & (_ & _ & _ & Hs)%canonicalBytes_Ok & _). rewrite Hs. done.
Qed.

Lemma Verify_Ok r pub :
  Verify r pub = Ok tt ↔
  signed r ≠ [] ∧ Origin (fields r) = NodeIDFromPublicKey pub ∧
  length pub = Node.PublicKeySize ∧ ed25519_verify pub (signed r) (sig r) = true ∧
  id r = deriveID (signed r).
Proof.
  unfold Verify. rewrite !bind_unit_Ok, !require_Ok, negb_true_iff, bool_decide_eq_false.
  unfold Matches, verifySig. rewrite !bool_decide_eq_true.
  case_decide; naive_solver.
Qed.

Lemma New_Verify k f r :
  valid_key k → New k f = Ok r → Verify r (Public k) = Ok tt.
Proof.
  intros [Hl Hk] (Hr & Ho & Hc & _ & _ & Hi & Hs)%New_Ok. apply Verify_Ok.
  apply canonicalBytes_Ok in Hc as (_ & _ & _ & Hw). rewrite Hr, Hs, Hw at 1.
  split_and!; try done.
Qed.

Lemma New_node_fields k seq ts t area body r :
  New k (node_fields k seq ts t area body) = Ok r →
  fields r = node_fields k seq ts t area body.
Proof.
  intros (Hr & _)%New_Ok. rewrite Hr. cbn. by destruct (IsZero _).
Qed.

(** ** Properties *)

(** C1: the wire form is read back exactly: a byte string is accepted if and only
    if it is the marshalled form of a well-formed record, which is then the
    record returned. There is no second wire form. *)
Theorem Unmarshal_iff b r : Unmarshal b = Ok r ↔ wf_rec r ∧ Marshal r = b.
Proof.
  split; [apply Unmarshal_sound|]. intros [Hw <-]. by apply Unmarshal_Marshal.
Qed.

(** A record built by [New] with a genuine key survives the wire and verifies
    under that key on the other side, and its origin is that key's node. *)
Theorem New_Marshal_Unmarshal_Verify k f r :
  valid_key k → is_u64 (Seq f) → is_u32 (TS f) → New k f = Ok r →
  Unmarshal (Marshal r) = Ok r ∧ Verify r (Public k) = Ok tt ∧
  Origin (fields r) = NodeKey_ID k.
Proof.
  intros Hk Hs Ht Hn. split; [eapply Unmarshal_Marshal, New_wf; eauto|].
  split; [by eapply New_Verify|]. apply New_Ok in Hn as (Hr & Ho & _). by rewrite Hr.
Qed.

(** The content address depends on the content only: two accepted byte
    strings that parse to the same fields carry the same signed bytes and so the
    same ID, whatever their signatures. *)
Theorem Unmarshal_content_address b1 b2 r1 r2 :
  Unmarshal b1 = Ok r1 → Unmarshal b2 = Ok r2 → fields r1 = fields r2 →
  signed r1 = signed r2 ∧ id r1 = id r2.
Proof.
  intros [(_ & _ & Hc1 & _ & _ & Hi1) _]%Unmarshal_sound
    [(_ & _ & Hc2 & _ & _ & Hi2) _]%Unmarshal_sound Hf.
  rewrite Hf, Hc2 in Hc1. injection Hc1 as Hc1. by rewrite Hi1, Hi2, Hc1.
Qed.

Lemma checkNoFileContent_bound f :
  checkNoFileContent f = Ok tt → Type_ f = TypeFile → strlen (Body f) ≤ 212.
Proof.
  unfold checkNoFileContent. intros H Ht. rewrite decide_False in H by (intros Hn; done).
  apply bind_Ok in H as (fb & Hu%wrap_err_Ok & _). apply UnmarshalFileBody_sound in Hu as [Hs Hm].
  apply MarshalFileBody_bound in Hm; [lia|done].
Qed.

Lemma checkDoorEventBody_bound f :
  checkDoorEventBody f = Ok tt → Type_ f = TypeDoorEvent → strlen (Body f) ≤ 882.
Proof.
  unfold checkDoorEventBody. intros H Ht. rewrite decide_False in H by (intros Hn; done).
  apply bind_Ok in H as (fb & Hu%wrap_err_Ok & _). apply UnmarshalDoorEventBody_sound in Hu.
  apply MarshalDoorEventBody_Ok in Hu as [Hv ->]. rewrite <- DoorEventBodyLen_wire.
  by apply valid_batch_length.
Qed.

(** No record a peer can send carries file content: an accepted FILE body is
    at most 212 bytes, a DOOR_EVENT body at most 882, any body at most 8192,
    and the type of the record is a known one. *)
Theorem Unmarshal_body_bounds b r :
  Unmarshal b = Ok r →
  Type_ (fields r) ∈ known_types ∧ strlen (Body (fields r)) ≤ 8192 ∧
  (Type_ (fields r) = TypeFile → strlen (Body (fields r)) ≤ 212) ∧
  (Type_ (fields r) = TypeDoorEvent → strlen (Body (fields r)) ≤ 882).
Proof.
  intros [(_ & _ & (Ht & Hb & _)%canonicalBytes_Ok & Hf & Hd & _) _]%Unmarshal_sound.
  apply bool_decide_eq_true in Ht. split_and!; [done|done| |].
  - by apply checkNoFileContent_bound.
  - by apply checkDoorEventBody_bound.
Qed.

Lemma Matches_true o pub : Matches o pub = true ↔ o = NodeIDFromPublicKey pub.
Proof. apply bool_decide_eq_true. Qed.

Lemma VerifyWith_New {A : Type} k seq ts t area body r (parse : bytes → result record_error A) a :
  valid_key k → New k (node_fields k seq ts t area body) = Ok r → parse body = Ok a →
  VerifyWith t parse r (Public k) = Ok a.
Proof.
  intros Hk Hn Hp. pose proof (New_node_fields _ _ _ _ _ _ _ Hn) as Hf.
  unfold VerifyWith. rewrite Hf. cbn [Type_ Body Origin node_fields].
  run (by apply require_Ok, bool_decide_eq_true).
  run (by apply wrap_err_Ok). run (by eapply New_Verify). done.
Qed.

(** A NODE record is its own proof of identity: it verifies, with no key
    given, exactly when its body is the encoding of what is returned, the key in
    the body hashes to the record's origin, and that key signed these bytes. *)
Theorem VerifyNodeRecord_iff r n :
  VerifyNodeRecord r = Ok n ↔
  Type_ (fields r) = TypeNode ∧
  is_u32 (Node.Incarnation n) ∧ Node.MarshalNodeBody n = Ok (Body (fields r)) ∧
  Origin (fields r) = NodeIDFromPublicKey (Node.PublicKey n) ∧
  ed25519_verify (Node.PublicKey n) (signed r) (sig r) = true ∧
  signed r ≠ [] ∧ id r = deriveID (signed r).
Proof.
  unfold VerifyNodeRecord. rewrite bind_unit_Ok, require_Ok, bool_decide_eq_true, bind_Ok.
  setoid_rewrite wrap_err_Ok. setoid_rewrite Node.UnmarshalNodeBody_spec.
  setoid_rewrite bind_unit_Ok. setoid_rewrite require_Ok. setoid_rewrite Matches_true.
  setoid_rewrite bind_unit_Ok. setoid_rewrite Verify_Ok. setoid_rewrite Ok_inj.
  split; [naive_solver|]. intros (Ht & Hi & Hm & Ho & Hv & Hs & Hid).
  split; [done|]. exists n. apply Node.MarshalNodeBody_Ok in Hm as Hpk. naive_solver.
Qed.

(** The NODE record a node builds for itself is accepted by every peer, as
    received from the wire, and gives back the body it announced. *)
Theorem NewNodeRecord_verifies k seq ts name contact inc r :
  valid_key k → is_u64 seq → is_u32 ts → is_u32 inc →
  NewNodeRecord k seq ts name contact inc = Ok r →
  Unmarshal (Marshal r) = Ok r ∧
  VerifyNodeRecord r = Ok (Node.mkNodeBody (Public k) name contact inc).
Proof.
  intros Hk Hs Hts Hi (body & Hm%wrap_err_Ok & Hn)%bind_Ok.
  split; [by eapply Unmarshal_Marshal, New_wf; last done|].
  pose proof (New_node_fields _ _ _ _ _ _ _ Hn) as Hf.
  unfold VerifyNodeRecord. rewrite Hf. cbn [Type_ Body Origin node_fields].
  run (by apply require_Ok, bool_decide_eq_true).
  eapply bind_step; [by apply wrap_err_Ok, Node.UnmarshalNodeBody_spec; split; cycle 1|].
  cbn beta iota.
  run (by apply require_Ok, Matches_true). run (by eapply New_Verify). done.
Qed.

(** A SUCCESSION is followed only when the predecessor's own key signed it,
    the successor's key is the one its ID names, and the two nodes differ. *)
Theorem VerifySuccessionRecord_iff r pub s :
  VerifySuccessionRecord r pub = Ok s ↔
  Type_ (fields r) = TypeSuccession ∧
  is_u32 (Succession.Effective s) ∧
  Succession.MarshalSuccessionBody s = Ok (Body (fields r)) ∧
  Origin (fields r) = NodeIDFromPublicKey pub ∧ length pub = Node.PublicKeySize ∧
  Succession.Successor s ≠ Origin (fields r) ∧
  ed25519_verify pub (signed r) (sig r) = true ∧
  signed r ≠ [] ∧ id r = deriveID (signed r).
Proof.
  unfold VerifySuccessionRecord. rewrite bind_unit_Ok, require_Ok, bool_decide_eq_true, bind_Ok.
  setoid_rewrite wrap_err_Ok. setoid_rewrite Succession.UnmarshalSuccessionBody_spec.
  setoid_rewrite bind_unit_Ok. setoid_rewrite require_Ok. setoid_rewrite Matches_true.
  setoid_rewrite bind_unit_Ok. setoid_rewrite require_neg_decide.
  setoid_rewrite bind_unit_Ok. setoid_rewrite Verify_Ok. setoid_rewrite Ok_inj.
  naive_solver.
Qed.

(** The three kinds a node signs on behalf of its users and games survive the
    wire and verify under its key, with the body it was built from. *)
Theorem NewRecords_verify k seq ts area p f d rp rf rd :
  valid_key k → is_u64 seq → is_u32 ts → is_u64 (Size f) → Profile.flags_known p →
  NewProfileRecord k seq ts p = Ok rp →
  NewFileRecord k seq ts area f = Ok rf →
  NewDoorEventRecord k seq ts area d = Ok rd →
  (Unmarshal (Marshal rp) = Ok rp ∧ VerifyProfileRecord rp (Public k) = Ok p) ∧
  (Unmarshal (Marshal rf) = Ok rf ∧ VerifyFileRecord rf (Public k) = Ok f) ∧
  (Unmarshal (Marshal rd) = Ok rd ∧ VerifyDoorEventRecord rd (Public k) = Ok d).
Proof.
  intros Hk Hs Hts Hsz Hres (bp & Hp%wrap_err_Ok & Hnp)%bind_Ok
    (bf & Hf%wrap_err_Ok & Hnf)%bind_Ok (bd & Hd%wrap_err_Ok & Hnd)%bind_Ok.
  split_and!.
  - by eapply Unmarshal_Marshal, New_wf; last done.
  - eapply VerifyWith_New; [done..|]. by apply Profile.UnmarshalProfileBody_spec.
  - by eapply Unmarshal_Marshal, New_wf; last done.
  - eapply VerifyWith_New; [done..|]. apply MarshalFileBody_Ok in Hf as [Hv ->].
    by apply UnmarshalFileBody_wire.
  - by eapply Unmarshal_Marshal, New_wf; last done.
  - eapply VerifyWith_New; [done..|]. apply MarshalDoorEventBody_Ok in Hd as [Hv ->].
    by apply UnmarshalDoorEventBody_wire.
Qed.

(** Each typed body is accepted exactly when it is the encoding of what it is
    read as, so no body has a second wire form: a NODE body, a PROFILE body that
    sets no reserved flag (its writer does not look at the flags), a SUCCESSION
    body (whose key hashes to the successor it names), a FILE entry with its
    canonical size, and a DOOR_EVENT batch. *)
Theorem body_codecs_iff b n p s f d :
  (Node.UnmarshalNodeBody b = Ok n ↔ is_u32 (Node.Incarnation n) ∧ Node.MarshalNodeBody n = Ok b) ∧
  (Profile.UnmarshalProfileBody b = Ok p ↔ Profile.MarshalProfileBody p = Ok b ∧ Profile.flags_known p) ∧
  (Succession.UnmarshalSuccessionBody b = Ok s ↔
     is_u32 (Succession.Effective s) ∧ Succession.MarshalSuccessionBody s = Ok b) ∧
  (UnmarshalFileBody b = Ok f ↔ is_u64 (Size f) ∧ MarshalFileBody f = Ok b) ∧
  (UnmarshalDoorEventBody b = Ok d ↔ MarshalDoorEventBody d = Ok b).
Proof.
  split_and!; [apply Node.UnmarshalNodeBody_spec|apply Profile.UnmarshalProfileBody_spec|
    apply Succession.UnmarshalSuccessionBody_spec|apply UnmarshalFileBody_spec|apply UnmarshalDoorEventBody_spec].
Qed.
End with_crypto.
