(* ===== verification/Profiles.v ===== *)
(** * Who the network is told of (internal/profile/profile.go)

    When a user's PROFILE record goes out, and the directory assembled from the records
    that arrive. The texts of the reasons are a constructor each. Searching the
    directory, which folds case over all of Unicode, is not modelled. *)

From stdpp Require Import strings relations.
From S2P Require Import Prelude Binary Identity Order Text GoStrings.
From S2P Require Import Bodies Records.
From S2P Require NodeNames.

Abbreviation ProfileBody := Bodies.Profile.ProfileBody.

(** ** The policy *)

Inductive Trigger := TriggerNone | TriggerFederatedPost | TriggerOffNodeDM | TriggerDirectoryRequest | TriggerFlagsChanged.
Record User := mkUser { u_Nick : bytes; u_DMKey : arr 32; u_Unlisted : bool }.
Inductive reason := NoDMKeyYet | NothingTriggered | NeverListed | ListingChanged | AlreadyTold | FirstActivity (t : Trigger).
Record Decision_ := mkDecision { Publish : bool; dn_Trigger : Trigger; Reason : reason; Bytes : Z }.

Definition ProfileSize (nick : bytes) : Z := 64 + 8 + 8 + 4 + 1 + 4 + Z.of_nat (Bodies.Profile.ProfileBodyLen nick).

Record Policy := mkPolicy { published : gmap bytes Z; suppressed : Z; emitted : Z }.
Definition NewPolicy : Policy := mkPolicy ∅ 0 0.
Definition suppress (p : Policy) : Policy := mkPolicy (published p) (suppressed p + 1) (emitted p).
Definition tell (nick : bytes) (flags : Z) (p : Policy) : Policy := mkPolicy (<[nick := flags]> (published p)) (suppressed p) (emitted p + 1).

Definition wantFlags (u : User) : Z := if u_Unlisted u then Z.lor 0 Bodies.Profile.FlagUnlisted else 0.

#[export] Instance Trigger_eq_dec : EqDecision Trigger.
Proof. solve_decision. Defined.

Definition Consider (u : User) (t : Trigger) (p : Policy) : Decision_ * Policy :=
  let cost := ProfileSize (u_Nick u) in
  if decide (u_DMKey u = zero_arr 32) then (mkDecision false t NoDMKeyYet cost, suppress p)
  else if decide (t = TriggerNone) then (mkDecision false t NothingTriggered cost, suppress p)
  else
    let prev := published p !! u_Nick u in
    if u_Unlisted u && bool_decide (prev = None) then (mkDecision false t NeverListed cost, suppress p)
    else match prev with
    | Some flags =>
        if bool_decide (flags = wantFlags u) then (mkDecision false t AlreadyTold cost, suppress p)
        else (mkDecision true TriggerFlagsChanged ListingChanged cost, tell (u_Nick u) (wantFlags u) p)
    | None => (mkDecision true t (FirstActivity t) cost, tell (u_Nick u) (wantFlags u) p)
    end.

Definition Published (nick : bytes) (p : Policy) : bool := bool_decide (is_Some (published p !! nick)).
(** True when a tombstone is needed. *)
Definition Forget (nick : bytes) (p : Policy) : bool * Policy := (Published nick p, mkPolicy (delete nick (published p)) (suppressed p) (emitted p)).
Definition Stats (p : Policy) : Z * Z := (emitted p, suppressed p).
Definition PublishedNicks (p : Policy) : list bytes := sort_by (λ n, n) less_text (map_to_list (published p)).*1.

(** ** The directory *)

Record Entry := mkEntry { e_Nick : bytes; e_Node : ID; e_Body : ProfileBody; e_Owner : bytes }.
Definition Directory : Type := gmap bytes Entry.
Definition qualified (nick : bytes) (node : NodeID) : bytes := nick ++ str "@"%string ++ NodeID_Compact node.

Definition Directory_Add (rec : Rec) (body : ProfileBody) (d : Directory) : Directory :=
  let q := qualified (Bodies.Profile.Nick body) (Origin (fields rec)) in
  if Bodies.Profile.Unlisted body then delete q d else <[q := mkEntry (Bodies.Profile.Nick body) (id rec) body q]> d.
Definition Lookup (q : bytes) (d : Directory) : option Entry := d !! q.
Definition Directory_Len (d : Directory) : Z := Z.of_nat (size d).

(** ** What the network has been told *)

(** What happened to a nick: its profile went out with flags, or the account is gone. *)
Inductive told := Told (nick : bytes) (flags : Z) | Forgotten (nick : bytes).
Definition effect (nick : bytes) (o : option Z) (e : told) : option Z :=
  match e with
  | Told n f => if decide (n = nick) then Some f else o
  | Forgotten n => if decide (n = nick) then None else o
  end.
(** The flags the network has for a nick. *)
Definition known (nick : bytes) (tr : list told) : option Z := foldl (effect nick) None tr.

Definition outcome (u : User) (d : Decision_) : list told := if Publish d then [Told (u_Nick u) (wantFlags u)] else [].

(** A run, with how often the policy was asked. *)
Inductive policy_run : list told → Z → Policy → Prop :=
| run_new : policy_run [] 0 NewPolicy
| run_consider tr n p u t : policy_run tr n p → policy_run (tr ++ outcome u (Consider u t p).1) (n + 1) (Consider u t p).2
| run_forget tr n p nick : policy_run tr n p → policy_run (tr ++ [Forgotten nick]) n (Forget nick p).2.

Definition is_told (e : told) : bool := match e with Told _ _ => true | Forgotten _ => false end.

Lemma known_snoc nick tr e : known nick (tr ++ [e]) = effect nick (known nick tr) e.
Proof. unfold known. by rewrite foldl_app. Qed.

(** The decision, whatever was decided before: a profile goes out exactly when the user
    has a key, did something that needs it, and is listed and unknown or known otherwise
    than they are listed now. *)
Lemma Consider_publish u t p :
  Publish (Consider u t p).1 = true ↔ u_DMKey u ≠ zero_arr 32 ∧ t ≠ TriggerNone ∧
    match published p !! u_Nick u with None => u_Unlisted u = false | Some flags => flags ≠ wantFlags u end.
Proof.
  unfold Consider. destruct (decide (u_DMKey u = _)); [naive_solver|]. destruct (decide (t = TriggerNone)); [naive_solver|]. cbv zeta.
  destruct (published p !! u_Nick u) as [flags|] eqn:E.
  - rewrite (bool_decide_false (Some flags = None)) by done. rewrite andb_false_r. case_bool_decide; naive_solver.
  - rewrite bool_decide_true by done. rewrite andb_true_r. destruct (u_Unlisted u); naive_solver.
Qed.

Lemma Consider_state u t p : (Consider u t p).2 = if Publish (Consider u t p).1 then tell (u_Nick u) (wantFlags u) p else suppress p.
Proof. unfold Consider. repeat case_match; done. Qed.

(** The policy knows at every moment what the network was told, tells nothing twice,
    never begins with a user who is unlisted, asks for a tombstone exactly for those the
    network knows, and counts truly. *)
Theorem policy_told tr n p : policy_run tr n p →
  (∀ nick, published p !! nick = known nick tr) ∧
  emitted p = Z.of_nat (length (filter (λ e, is_told e = true) tr)) ∧ emitted p + suppressed p = n ∧
  (∀ nick, (Forget nick p).1 = true ↔ is_Some (known nick tr)) ∧
  (∀ pre nick flags post, tr = pre ++ Told nick flags :: post → known nick pre ≠ Some flags ∧ (known nick pre = None → flags = 0)).
Proof.
  intros H. assert (Hf : ∀ q tr', (∀ nick, published q !! nick = known nick tr') → ∀ nick, (Forget nick q).1 = true ↔ is_Some (known nick tr')).
  { intros q tr' Hq nick. cbn. unfold Published. by rewrite bool_decide_eq_true, Hq. }
  induction H as [|tr n p u t _ (H1 & H2 & H3 & _ & H5)|tr n p nick _ (H1 & H2 & H3 & _ & H5)].
  - assert (H0 : ∀ nick, published NewPolicy !! nick = known nick []) by (intros; apply lookup_empty).
    split_and!; try done; [by apply Hf|]. intros [] ? ? ? ?; done.
  - rewrite Consider_state. unfold outcome. pose proof (Consider_publish u t p) as Hc. destruct (Publish (Consider u t p).1).
    + destruct (proj1 Hc eq_refl) as (_ & _ & Hd).
      assert (H0 : ∀ nick, published (tell (u_Nick u) (wantFlags u) p) !! nick = known nick (tr ++ [Told (u_Nick u) (wantFlags u)])).
      { intros nick. rewrite known_snoc. cbn. destruct (decide (u_Nick u = nick)) as [->|]; [by rewrite lookup_insert_eq|by rewrite lookup_insert_ne]. }
      split_and!; [exact H0| | |by apply Hf|].
      * cbn [tell emitted]. rewrite H2, filter_app, length_app, filter_cons, decide_True by done. cbn. lia.
      * cbn. lia.
      * intros pre nick flags post E. destruct post as [|e post' _] using rev_ind.
        -- apply app_inj_tail in E as [-> [= <- <-]]. rewrite H1 in Hd. destruct (known (u_Nick u) pre) as [f|]; [by split; [congruence|]|]. split; [done|]. intros _. unfold wantFlags. by rewrite Hd.
        -- rewrite app_comm_cons, app_assoc in E. apply app_inj_tail in E as [-> _]. by eapply H5.
    + rewrite app_nil_r. split_and!; [exact H1|exact H2|cbn; lia|by apply Hf|exact H5].
  - assert (H0 : ∀ nick', published (Forget nick p).2 !! nick' = known nick' (tr ++ [Forgotten nick])).
    { intros nick'. rewrite known_snoc. cbn. destruct (decide (nick = nick')) as [->|]; [by rewrite lookup_delete_eq|by rewrite lookup_delete_ne]. }
    split_and!; [exact H0| |done|by apply Hf|].
    + cbn [Forget emitted snd]. rewrite H2, filter_app, length_app, filter_cons, decide_False by done. cbn. lia.
    + intros pre nick' flags post E. destruct post as [|e post' _] using rev_ind; [by apply app_inj_tail in E as [_ ?]|].
      rewrite app_comm_cons, app_assoc in E. apply app_inj_tail in E as [-> _]. by eapply H5.
Qed.

(** ** What the directory shows *)

Lemma qualified_inj nick nick' node node' : qualified nick node = qualified nick' node' → nick = nick' ∧ node = node'.
Proof.
  unfold qualified. intros E. destruct (NodeNames.compact_facts node) as (_ & Hl & Hp). destruct (NodeNames.compact_facts node') as (_ & Hl' & Hp').
  rewrite !app_assoc in E. apply app_inj_2 in E as [E1 E2]; [|by rewrite Hl, Hl']. apply app_inj_tail in E1 as [-> _]. split; [done|]. rewrite E2 in Hp. congruence.
Qed.

(** The directory shows of a user what the record added last says, and nothing if that
    record is unlisted, whichever of them is newer. *)
Theorem directory_last rs rec body nick node :
  let add d x := Directory_Add x.1 x.2 d in
  Bodies.Profile.Nick body = nick → Origin (fields rec) = node →
  (∀ r b, (r, b) ∈ rs → (Bodies.Profile.Nick b, Origin (fields r)) ≠ (nick, node)) →
  ∀ before, Lookup (qualified nick node) (foldl add ∅ (before ++ (rec, body) :: rs)) =
    if Bodies.Profile.Unlisted body then None else Some (mkEntry nick (id rec) body (qualified nick node)).
Proof.
  cbv zeta. intros Hn Ho Hrs before. rewrite foldl_app. cbn [foldl fst snd]. set (d := foldl _ ∅ before). clearbody d.
  assert (H0 : Lookup (qualified nick node) (Directory_Add rec body d) = if Bodies.Profile.Unlisted body then None else Some (mkEntry nick (id rec) body (qualified nick node))).
  { unfold Lookup, Directory_Add. rewrite Hn, Ho. destruct (Bodies.Profile.Unlisted body); [apply lookup_delete_eq|apply lookup_insert_eq]. }
  revert H0. generalize (Directory_Add rec body d). clear d. revert Hrs. induction rs as [|[r b] rs IH]; intros Hrs d H0; [done|]. cbn [foldl fst snd]. apply IH.
  - intros r' b' Hin. apply Hrs. by right.
  - rewrite <- H0. assert (Hne : qualified (Bodies.Profile.Nick b) (Origin (fields r)) ≠ qualified nick node).
    { intros [E1 E2]%qualified_inj. apply (Hrs r b); [by left|congruence]. }
    unfold Lookup, Directory_Add. destruct (Bodies.Profile.Unlisted b); [by apply lookup_delete_ne|by apply lookup_insert_ne].
Qed.

(** So a record that arrives late undoes a later choice: the older one of the same user,
    listed, read after the newer, unlisted, lists them again. *)
Lemma opt_out_undone nick key old new :
  Origin (fields old) = Origin (fields new) →
  let listed := Bodies.Profile.mkProfileBody nick key Byte.x00 in
  let unlisted := Bodies.Profile.mkProfileBody nick key Byte.x01 in
  Lookup (qualified nick (Origin (fields new))) (Directory_Add new unlisted (Directory_Add old listed ∅)) = None ∧
  is_Some (Lookup (qualified nick (Origin (fields new))) (Directory_Add old listed (Directory_Add new unlisted ∅))).
Proof.
  intros Ho. cbv zeta. unfold Lookup, Directory_Add. cbn [Bodies.Profile.Nick Bodies.Profile.Unlisted Bodies.Profile.Flags]. rewrite Ho.
  split; [apply lookup_delete_eq|]. eexists. apply lookup_insert_eq.
Qed.
