(* ===== verification/GossipWire.v ===== *)
(** * The gossip wire (internal/gossip/digest.go, wire.go)

    The four control messages of anti-entropy, each with its writer and its
    reader, the packing of range requests into a packet, and the digest built
    from a node's vectors. Tags and origins are ordered byte-wise; a writer sorts
    and a reader insists on ascending order, so each message has one wire form. *)

From S2P Require Import Prelude Binary Identity VersionVector Order.

Abbreviation AreaTag := (arr 4).
Abbreviation Range := VersionVector.Range.
Abbreviation mkRange := VersionVector.mkRange.

Definition FormatVersion : byte := Byte.x02.
Definition MsgDigest : byte := Byte.x01.
Definition MsgVectorReq : byte := Byte.x02.
Definition MsgVector : byte := Byte.x03.
Definition MsgRangeReq : byte := Byte.x04.

Definition MsgType_Valid (m : byte) : bool :=
  bool_decide (m ∈ [MsgDigest; MsgVectorReq; MsgVector; MsgRangeReq]).

Definition MeshMTU : Z := 233.
Definition TransportOverhead : Z := 9.
Definition MaxControlMessage : Z := MeshMTU - TransportOverhead.
Definition digestHeader : Z := 4.
Definition MaxAreas : Z := (MaxControlMessage - digestHeader) / 10.
Definition MaxRanges : Z := 32.

Inductive gossip_error :=
| ErrTruncated
| ErrTooMany (n : Z)
| ErrNotCanonicalVarint (got want : Z)
| ErrNotCanonicalOrder
| ErrUnsupportedVersion (v : byte)
| WrongMsgType (t : byte)
| UnknownMsgType (t : byte)
| BadVector (e : VersionVector.vv_error)
| RangeFromZero
| TrailingAfterRanges (n : Z).

#[export] Instance vv_error_eq_dec : EqDecision VersionVector.vv_error.
Proof. solve_decision. Defined.
#[export] Instance gossip_error_eq_dec : EqDecision gossip_error.
Proof. solve_decision. Defined.

Definition canonicalUvarint (b : bytes) : result gossip_error (Z * bytes) :=
  read_uvarint_canonical ErrTruncated ErrNotCanonicalVarint b.

Lemma wire_uvarint_append x r :
  is_u64 x → canonicalUvarint (append_uvarint x ++ r) = Ok (x, r).
Proof. intros. by apply read_uvarint_canonical_Ok. Qed.

(** [lessTag] and [lessNode]: byte-wise on the arrays. *)
Definition lessTag (a b : AreaTag) : bool := less_arr a b.
Definition lessNode (a b : NodeID) : bool := less_arr a b.
#[export] Instance lessTag_total : StrictTotal lessTag := less_arr_total 4.
#[export] Instance lessNode_total : StrictTotal lessNode := less_arr_total 8.

(** Type and version, read before any structural check: the opening of each of
    the four decoders. *)
Definition read_header (t : byte) (b : bytes) : result gossip_error bytes :=
  match b with
  | t' :: v :: rest =>
      _ ← require (bool_decide (t' = t)) (WrongMsgType t');
      _ ← require (bool_decide (v = FormatVersion)) (ErrUnsupportedVersion v);
      Ok rest
  | _ => Err ErrTruncated
  end.

Definition PeekType (b : bytes) : result gossip_error byte :=
  match b with
  | t :: v :: _ =>
      _ ← require (MsgType_Valid t) (UnknownMsgType t);
      _ ← require (bool_decide (v = FormatVersion)) (ErrUnsupportedVersion v);
      Ok t
  | _ => Err ErrTruncated
  end.

Lemma read_header_Ok t b r : read_header t b = Ok r ↔ b = t :: FormatVersion :: r.
Proof.
  destruct b as [|t' [|v rest]]; cbn [read_header]; [naive_solver..|].
  rewrite !bind_unit_Ok, !require_Ok, !bool_decide_eq_true, Ok_inj. naive_solver.
Qed.

(** ** Digest *)

Record AreaState := mkAreaState {
  Tag : AreaTag;
  Hash_ : arr 4;
  Count_ : Z  (* uint16 *)
}.

Record Digest := mkDigest { Dictionary : byte; Areas : list AreaState }.

#[export] Instance AreaState_eq_dec : EqDecision AreaState.
Proof. solve_decision. Defined.
#[export] Instance Digest_eq_dec : EqDecision Digest.
Proof. solve_decision. Defined.

Definition SaturatingCount (n : Z) : Z := if 0xFFFF <? n then 0xFFFF else u16 n.

Definition AreaStateFrom `{Blake3} (tag : AreaTag) (v : Vector) : AreaState :=
  mkAreaState tag (VersionVector.Hash v) (SaturatingCount (VersionVector.Count v)).

Definition sort_areas (l : list AreaState) : list AreaState := sort_by Tag lessTag l.

Definition NewDigest `{Blake3} (areas : gmap AreaTag Vector) : Digest :=
  mkDigest Byte.x00 (sort_areas ((λ e, AreaStateFrom e.1 e.2) <$> map_to_list areas)).

Definition Digest_Get (d : Digest) (tag : AreaTag) : option AreaState :=
  List.find (λ a, bool_decide (Tag a = tag)) (Areas d).

Definition Digest_Size (d : Digest) : Z := digestHeader + 10 * Z.of_nat (length (Areas d)).

Definition encode_area (a : AreaState) : bytes :=
  vec_to_list (Tag a) ++ vec_to_list (Hash_ a) ++ be_bytes 2 (Count_ a).

Definition Digest_Encode (d : Digest) : bytes :=
  let areas := sort_areas (Areas d) in
  [MsgDigest; FormatVersion; Dictionary d; z2b (Z.of_nat (length areas))] ++
  (areas ≫= encode_area).

(** The loop of [DecodeDigest]; [prev] is [None] in the first round. *)
Fixpoint decode_areas (n : nat) (prev : option AreaTag) (b : bytes)
    : result gossip_error (list AreaState) :=
  match n with
  | O => Ok []
  | S n' =>
      '(tag, b) ← take_arr ErrTruncated 4 b;
      '(hash, b) ← take_arr ErrTruncated 4 b;
      '(count, b) ← take_be ErrTruncated 2 b;
      _ ← require (match prev with None => true | Some p => lessTag p tag end) ErrNotCanonicalOrder;
      areas ← decode_areas n' (Some tag) b;
      Ok (mkAreaState tag hash count :: areas)
  end.

Definition DecodeDigest (b : bytes) : result gossip_error Digest :=
  rest ← read_header MsgDigest b;
  _ ← require (digestHeader <=? strlen b) ErrTruncated;
  '(dict, rest) ← take_byte ErrTruncated rest;
  '(count, rest) ← take_byte ErrTruncated rest;
  let n := b2z count in
  _ ← require (n <=? MaxAreas) (ErrTooMany n);
  _ ← require (strlen b =? digestHeader + 10 * n) ErrTruncated;
  areas ← decode_areas (Z.to_nat n) None rest;
  Ok (mkDigest dict areas).

(** ** VectorReq and VectorMsg *)

Abbreviation VectorReq := (list AreaTag).

Definition sort_tags (l : list AreaTag) : list AreaTag := sort_by (λ t, t) lessTag l.

Definition VectorReq_Encode (r : VectorReq) : bytes :=
  let tags := sort_tags r in
  [MsgVectorReq; FormatVersion; z2b (Z.of_nat (length tags))] ++ (tags ≫= λ t, vec_to_list t).

Fixpoint decode_tags (n : nat) (prev : option AreaTag) (b : bytes)
    : result gossip_error (list AreaTag) :=
  match n with
  | O => Ok []
  | S n' =>
      '(t, b) ← take_arr ErrTruncated 4 b;
      _ ← require (match prev with None => true | Some p => lessTag p t end) ErrNotCanonicalOrder;
      tags ← decode_tags n' (Some t) b;
      Ok (t :: tags)
  end.

Definition DecodeVectorReq (b : bytes) : result gossip_error VectorReq :=
  rest ← read_header MsgVectorReq b;
  '(count, rest) ← take_byte ErrTruncated rest;
  let n := b2z count in
  _ ← require (n <=? MaxAreas) (ErrTooMany n);
  _ ← require (strlen b =? 3 + 4 * n) ErrTruncated;
  decode_tags (Z.to_nat n) None rest.

Record VectorMsg := mkVectorMsg { VM_Area : AreaTag; VM_Vector : Vector }.

Definition VectorMsg_Encode (m : VectorMsg) : bytes :=
  [MsgVector; FormatVersion] ++ vec_to_list (VM_Area m) ++ VersionVector.Encode (VM_Vector m).

Definition DecodeVectorMsg (b : bytes) : result gossip_error VectorMsg :=
  rest ← read_header MsgVector b;
  '(area, rest) ← take_arr ErrTruncated 4 rest;
  v ← wrap_err BadVector (VersionVector.Decode rest);
  Ok (mkVectorMsg area v).

(** ** RangeReq *)

Record RangeReq := mkRangeReq { RR_Area : AreaTag; RR_Ranges : list Range }.

#[export] Instance RangeReq_eq_dec : EqDecision RangeReq.
Proof. solve_decision. Defined.

(** The order of the sort, and of the reader's two checks: origin, then start. *)
Definition range_key (r : Range) : NodeID * Z := (VersionVector.Origin r, VersionVector.From r).
Definition less_range : NodeID * Z → NodeID * Z → bool := less_pair lessNode Z.ltb.
#[export] Instance less_range_total : StrictTotal less_range.
Proof. apply less_pair_total; apply _. Qed.
Definition sort_ranges (l : list Range) : list Range := sort_by range_key less_range l.

(** [rg.To-rg.From] is a 64-bit subtraction, and wraps. *)
Definition encode_range (r : Range) : bytes :=
  vec_to_list (VersionVector.Origin r) ++ append_uvarint (VersionVector.From r) ++
  append_uvarint (u64 (VersionVector.To r - VersionVector.From r)).

Definition RangeReq_Encode (r : RangeReq) : bytes :=
  let ranges := sort_ranges (RR_Ranges r) in
  [MsgRangeReq; FormatVersion] ++ vec_to_list (RR_Area r) ++
  [z2b (Z.of_nat (length ranges))] ++ (ranges ≫= encode_range).

Fixpoint decode_ranges (n : nat) (prev : option (NodeID * Z)) (b : bytes)
    : result gossip_error (list Range * bytes) :=
  match n with
  | O => Ok ([], b)
  | S n' =>
      '(origin, b) ← take_arr ErrTruncated 8 b;
      '(from, b) ← canonicalUvarint b;
      '(span, b) ← canonicalUvarint b;
      _ ← require (negb (from =? 0)) RangeFromZero;
      _ ← (match prev with
           | None => Ok tt
           | Some (po, pf) =>
               _ ← require (negb (bool_decide (origin = po) && (from <=? pf))) ErrNotCanonicalOrder;
               require (negb (negb (bool_decide (origin = po)) && negb (lessNode po origin)))
                 ErrNotCanonicalOrder
           end);
      '(rs, b) ← decode_ranges n' (Some (origin, from)) b;
      Ok (mkRange origin from (u64 (from + span)) :: rs, b)
  end.

Definition DecodeRangeReq (b : bytes) : result gossip_error RangeReq :=
  rest ← read_header MsgRangeReq b;
  _ ← require (7 <=? strlen b) ErrTruncated;
  '(area, rest) ← take_arr ErrTruncated 4 rest;
  '(count, rest) ← take_byte ErrTruncated rest;
  let n := b2z count in
  _ ← require (n <=? MaxRanges) (ErrTooMany n);
  '(ranges, rest) ← decode_ranges (Z.to_nat n) None rest;
  _ ← require (bool_decide (rest = [])) (TrailingAfterRanges (strlen rest));
  Ok (mkRangeReq area ranges).

(** [for n := len(ranges); n > 0; n--] *)
Fixpoint fit_loop (area : AreaTag) (ranges : list Range) (maxBytes : Z) (n : nat) : list Range :=
  match n with
  | O => []
  | S n' =>
      if strlen (RangeReq_Encode (mkRangeReq area (take n ranges))) <=? maxBytes
      then take n ranges
      else fit_loop area ranges maxBytes n'
  end.

Definition FitRanges (area : AreaTag) (ranges : list Range) (maxBytes : Z) : list Range :=
  let ranges := if MaxRanges <? Z.of_nat (length ranges) then take (Z.to_nat MaxRanges) ranges
                else ranges in
  fit_loop area ranges maxBytes (length ranges).

(** ** Lemmas on the sorted lists each message carries *)

Definition wf_digest (d : Digest) : Prop :=
  Z.of_nat (length (Areas d)) ≤ MaxAreas ∧
  Forall (λ a, is_u16 (Count_ a)) (Areas d) ∧
  StronglySorted (lt_key Tag lessTag) (Areas d).

Definition wf_vector_req (r : VectorReq) : Prop :=
  Z.of_nat (length r) ≤ MaxAreas ∧ StronglySorted (lt_key (λ t, t) lessTag) r.

Definition wf_range (r : Range) : Prop :=
  is_u64 (VersionVector.From r) ∧ VersionVector.From r ≠ 0 ∧ is_u64 (VersionVector.To r).

Definition wf_range_req (r : RangeReq) : Prop :=
  Z.of_nat (length (RR_Ranges r)) ≤ MaxRanges ∧ Forall wf_range (RR_Ranges r) ∧
  StronglySorted (lt_key range_key less_range) (RR_Ranges r).

Lemma decode_areas_Ok n prev b l :
  decode_areas n prev b = Ok l ↔
  length l = n ∧ Forall (λ a, is_u16 (Count_ a)) l ∧ ascending Tag lessTag prev l = true ∧
  ∃ r, b = (l ≫= encode_area) ++ r.
Proof.
  revert prev b l. induction n as [|n IH]; intros prev b l; cbn [decode_areas].
  { rewrite Ok_inj. split; [intros <-; eauto|]. by intros (?%length_zero_iff_nil & _). }
  rewrite bind_Ok. split.
  - intros ([tag b1] & ->%take_arr_Ok & ([hash b2] & ->%take_arr_Ok &
      ([c b3] & [-> Hc]%take_be_Ok & (Hp%require_Ok & H)%bind_unit_Ok)%bind_Ok)%bind_Ok).
    apply bind_Ok in H as (l' & (<- & Hf & Ha & r & ->)%IH & [= <-]).
    split_and!; [done|by constructor|by cbn; rewrite Hp|]. exists r.
    cbn. unfold encode_area at 2. cbn. by rewrite <- !app_assoc.
  - intros (Hl & Hf & Ha & r & ->). destruct l as [|[tag hash c] l]; [done|].
    injection Hl as Hl. apply Forall_cons in Hf as [Hc Hf]. cbn in Ha.
    apply andb_true_iff in Ha as [Hp Ha]. apply bind_Ok. cbn. unfold encode_area at 1. cbn [Tag Hash_ Count_].
    rewrite <- !app_assoc. run (by apply take_arr_Ok). run (by apply take_arr_Ok).
    run (by apply take_be_Ok). run (by apply require_Ok).
    run (apply IH; eauto). done.
Qed.

Lemma decode_areas_encode l :
  Forall (λ a, is_u16 (Count_ a)) l → StronglySorted (lt_key Tag lessTag) l →
  decode_areas (length l) None (l ≫= encode_area) = Ok l.
Proof.
  intros. apply decode_areas_Ok. split_and!; [done..|by apply (ascending_sorted Tag lessTag)|].
  exists []. by rewrite app_nil_r.
Qed.

Lemma decode_tags_Ok n prev b l :
  decode_tags n prev b = Ok l ↔
  length l = n ∧ ascending (λ t, t) lessTag prev l = true ∧
  ∃ r, b = (l ≫= λ t, vec_to_list t) ++ r.
Proof.
  revert prev b l. induction n as [|n IH]; intros prev b l; cbn [decode_tags].
  { rewrite Ok_inj. split; [intros <-; eauto|]. by intros (?%length_zero_iff_nil & _). }
  rewrite bind_Ok. split.
  - intros ([t b1] & ->%take_arr_Ok & (Hp%require_Ok & H)%bind_unit_Ok).
    apply bind_Ok in H as (l' & (<- & Ha & r & ->)%IH & [= <-]).
    split_and!; [done|by cbn; rewrite Hp|]. exists r. cbn. by rewrite <- !app_assoc.
  - intros (Hl & Ha & r & ->). destruct l as [|t l]; [done|]. injection Hl as Hl. cbn in Ha.
    apply andb_true_iff in Ha as [Hp Ha]. apply bind_Ok. cbn. rewrite <- !app_assoc.
    run (by apply take_arr_Ok). run (by apply require_Ok). run (apply IH; eauto). done.
Qed.

Lemma range_check_Ok origin from prev :
  (match prev with
   | None => Ok tt
   | Some (po, pf) =>
       _ ← require (negb (bool_decide (origin = po) && (from <=? pf))) ErrNotCanonicalOrder;
       require (negb (negb (bool_decide (origin = po)) && negb (lessNode po origin)))
         ErrNotCanonicalOrder
   end) = Ok tt ↔
  match prev with None => true | Some p => less_range p (origin, from) end = true.
Proof.
  destruct prev as [[po pf]|]; [|done]. rewrite bind_unit_Ok, !require_Ok.
  unfold less_range, less_pair. cbn [fst snd].
  destruct (decide (origin = po)) as [->|Hne].
  - rewrite bool_decide_eq_true_2, decide_True by done. cbn.
    destruct (Z.leb_spec from pf), (Z.ltb_spec pf from); cbn; intuition (try done; lia).
  - rewrite bool_decide_eq_false_2, decide_False by congruence. cbn.
    destruct (lessNode po origin); cbn; intuition done.
Qed.

Lemma decode_ranges_Ok n prev b l r :
  decode_ranges n prev b = Ok (l, r) ↔
  length l = n ∧ Forall wf_range l ∧ ascending range_key less_range prev l = true ∧
  b = (l ≫= encode_range) ++ r.
Proof.
  revert prev b l r. induction n as [|n IH]; intros prev b l r; cbn [decode_ranges].
  { rewrite Ok_inj. split; [intros [= <- ->]; eauto|].
    by intros (->%length_zero_iff_nil & _ & _ & ->). }
  rewrite bind_Ok. split.
  - intros ([o b1] & ->%take_arr_Ok & ([from b2] & [Hf ->]%read_uvarint_canonical_Ok &
      ([span b3] & [Hs ->]%read_uvarint_canonical_Ok &
      (Hz%require_Ok & (Hp%range_check_Ok & H)%bind_unit_Ok)%bind_unit_Ok)%bind_Ok)%bind_Ok).
    apply bind_Ok in H as ([l' r'] & (<- & Hw & Ha & ->)%IH & [= <- <-]).
    apply negb_true_iff, Z.eqb_neq in Hz.
    split_and!; [done|constructor; [|done]|cbn [ascending]; apply andb_true_iff; split; [exact Hp|exact Ha]|].
    + split_and!; [done|done|apply u64_is_u64].
    + cbn. unfold encode_range at 2. cbn.
      assert (u64 (u64 (from + span) - from) = span) as ->; [|by rewrite <- !app_assoc].
      unfold u64. rewrite Zminus_mod_idemp_l. replace (from + span - from) with span by lia.
      by apply u64_id.
  - intros (Hl & Hw & Ha & ->). destruct l as [|[o from to] l]; [done|]. injection Hl as Hl.
    apply Forall_cons in Hw as [(Hf & Hz & Ht) Hw]. cbn in Ha, Hf, Hz, Ht.
    apply andb_true_iff in Ha as [Hp Ha]. apply bind_Ok. cbn. unfold encode_range at 1.
    cbn [VersionVector.Origin VersionVector.From VersionVector.To]. rewrite <- !app_assoc.
    run (by apply take_arr_Ok). run (by apply wire_uvarint_append).
    run (apply wire_uvarint_append, u64_is_u64).
    run (by apply require_Ok, negb_true_iff, Z.eqb_neq). run (by apply range_check_Ok).
    run (apply IH; eauto).
    assert (u64 (from + u64 (to - from)) = to) as ->; [|done].
    unfold u64. rewrite Zplus_mod_idemp_r. replace (from + (to - from)) with to by lia.
    by apply u64_id.
Qed.

Lemma app_same_length_nil {A : Type} (l r : list A) : length (l ++ r) = length l → r = [].
Proof. rewrite length_app. destruct r; [done|cbn; lia]. Qed.

Lemma length_encode_area a : length (encode_area a) = 10%nat.
Proof. unfold encode_area. by rewrite !length_app, !length_vec_to_list, length_be_bytes. Qed.

Lemma Digest_Encode_wf d : wf_digest d →
  Digest_Encode d =
  [MsgDigest; FormatVersion; Dictionary d; z2b (Z.of_nat (length (Areas d)))] ++
  (Areas d ≫= encode_area).
Proof. intros (_ & _ & Hs). unfold Digest_Encode, sort_areas. by rewrite sort_by_id. Qed.

Lemma length_Digest_Encode d : strlen (Digest_Encode d) = Digest_Size d.
Proof.
  unfold Digest_Encode, Digest_Size, digestHeader, strlen. rewrite length_app.
  rewrite (length_bind_const _ 10) by apply length_encode_area.
  unfold sort_areas. rewrite length_sort_by. cbn. lia.
Qed.

Lemma DecodeDigest_spec b d : DecodeDigest b = Ok d ↔ wf_digest d ∧ Digest_Encode d = b.
Proof.
  unfold DecodeDigest. split.
  - intros (rest & ->%read_header_Ok & (_ & H)%bind_unit_Ok)%bind_Ok.
    apply bind_Ok in H as ([dict b1] & ->%take_byte_Ok & H).
    apply bind_Ok in H as ([c b2] & ->%take_byte_Ok & (Hn%require_Ok%Z.leb_le & H)%bind_unit_Ok).
    apply bind_unit_Ok in H as [Hl%require_Ok%Z.eqb_eq H].
    apply bind_Ok in H as (l & (Hlen & Hf & Ha & r & ->)%decode_areas_Ok & [= <-]).
    apply (ascending_sorted Tag lessTag) in Ha.
    pose proof (b2z_range c). assert (Hlz : Z.of_nat (length l) = b2z c) by lia.
    assert (Hwf : wf_digest (mkDigest dict l)) by (split_and!; cbn; [lia|done..]).
    split; [done|]. rewrite Digest_Encode_wf by done. cbn [Dictionary Areas app].
    rewrite Hlz, z2b_b2z. assert (r = []) as ->; [|by rewrite app_nil_r].
    apply (app_same_length_nil (l ≫= encode_area)).
    unfold strlen, digestHeader in Hl. cbn [length] in Hl.
    rewrite (length_bind_const _ 10) by apply length_encode_area. lia.
  - intros [Hwf <-]. pose proof (length_Digest_Encode d) as Hlen.
    rewrite Digest_Encode_wf in * by done. destruct Hwf as (Hm & Hf & Hs).
    change MaxAreas with 22 in Hm.
    run (by apply read_header_Ok).
    run (apply require_Ok, Z.leb_le; rewrite Hlen; unfold Digest_Size; lia).
    run done. run done. rewrite b2z_z2b_small by lia.
    run (by apply require_Ok, Z.leb_le). run (by apply require_Ok, Z.eqb_eq). rewrite Nat2Z.id.
    run (by apply decode_areas_encode).
    by destruct d.
Qed.

Lemma SaturatingCount_u16 n : is_u16 (SaturatingCount n).
Proof.
  unfold SaturatingCount. destruct (Z.ltb_spec 0xFFFF n); [widths|].
  unfold_widths. apply Z.mod_pos_bound. lia.
Qed.

Section digest.
Context `{HB : Blake3}.

Lemma NewDigest_tags (m : gmap AreaTag Vector) :
  NoDup (Tag <$> ((λ e, AreaStateFrom e.1 e.2) <$> map_to_list m)).
Proof.
  rewrite <- list_fmap_compose. replace (Tag ∘ _) with (@fst AreaTag Vector) by done.
  apply NoDup_fst_map_to_list.
Qed.

Lemma length_NewDigest m : length (Areas (NewDigest m)) = size m.
Proof.
  cbn. unfold sort_areas. by rewrite length_sort_by, length_fmap, length_map_to_list.
Qed.

Lemma NewDigest_wf m : Z.of_nat (size m) ≤ MaxAreas → wf_digest (NewDigest m).
Proof.
  intros Hm. split_and!; [by rewrite length_NewDigest| |by apply sort_by_strict, NewDigest_tags].
  cbn. unfold sort_areas. rewrite sort_by_Permutation. apply Forall_fmap, Forall_forall.
  intros e _. apply SaturatingCount_u16.
Qed.

Lemma find_tag (l : list AreaState) tag a :
  NoDup (Tag <$> l) → a ∈ l → Tag a = tag →
  List.find (λ a, bool_decide (Tag a = tag)) l = Some a.
Proof.
  intros Hnd Ha <-. destruct (List.find _ l) as [a'|] eqn:E.
  - apply List.find_some in E as [Ha' Ht%bool_decide_eq_true]. f_equal.
    apply (NoDup_key_inj Tag lessTag l); [done| |done|done]. by apply list_elem_of_In.
  - eapply List.find_none in E; [|by apply list_elem_of_In]. by apply bool_decide_eq_false in E.
Qed.

Lemma NewDigest_Get m tag :
  Digest_Get (NewDigest m) tag = AreaStateFrom tag <$> m !! tag.
Proof.
  unfold Digest_Get. cbn [Areas NewDigest]. pose proof (NewDigest_tags m) as Hnd.
  unfold sort_areas. rewrite <- (sort_by_Permutation Tag lessTag) in Hnd.
  destruct (m !! tag) as [v|] eqn:E; cbn.
  - apply find_tag; [done| |done]. rewrite sort_by_Permutation.
    apply list_elem_of_fmap. exists (tag, v). split; [done|]. by apply elem_of_map_to_list.
  - destruct (List.find _ _) as [a|] eqn:F; [|done]. exfalso.
    apply List.find_some in F as [Ha%list_elem_of_In Ht%bool_decide_eq_true].
    rewrite sort_by_Permutation in Ha.
    apply list_elem_of_fmap in Ha as ([k v] & -> & Hk%elem_of_map_to_list). cbn in Ht. congruence.
Qed.

(** The digest a node builds says, for each area, exactly what its vector
    says and nothing of any other area; the order the areas' map is walked in
    does not show; and with at most 22 areas it fits one mesh packet and is read
    back as it was built. *)
Theorem NewDigest_wire m :
  Z.of_nat (size m) ≤ MaxAreas →
  DecodeDigest (Digest_Encode (NewDigest m)) = Ok (NewDigest m) ∧
  strlen (Digest_Encode (NewDigest m)) ≤ MaxControlMessage ∧
  (∀ tag, Digest_Get (NewDigest m) tag = AreaStateFrom tag <$> m !! tag) ∧
  (∀ walk, walk ≡ₚ map_to_list m →
     sort_areas ((λ e, AreaStateFrom e.1 e.2) <$> walk) = Areas (NewDigest m)).
Proof.
  intros Hm. split_and!.
  - apply DecodeDigest_spec. split; [by apply NewDigest_wf|done].
  - rewrite length_Digest_Encode. unfold Digest_Size. rewrite length_NewDigest.
    change MaxAreas with 22 in Hm. change MaxControlMessage with 224. change digestHeader with 4. lia.
  - apply NewDigest_Get.
  - intros walk Hw. symmetry. apply sort_by_perm_eq; [apply NewDigest_tags|by rewrite Hw].
Qed.
End digest.

Lemma DecodeVectorReq_spec b r :
  DecodeVectorReq b = Ok r ↔ wf_vector_req r ∧ VectorReq_Encode r = b.
Proof.
  unfold DecodeVectorReq, VectorReq_Encode. split.
  - intros (rest & ->%read_header_Ok & H)%bind_Ok.
    apply bind_Ok in H as ([c b2] & ->%take_byte_Ok & (Hn%require_Ok%Z.leb_le & H)%bind_unit_Ok).
    apply bind_unit_Ok in H as [Hl%require_Ok%Z.eqb_eq H].
    apply decode_tags_Ok in H as (Hlen & Ha & q & ->).
    apply (ascending_sorted (λ t, t) lessTag) in Ha.
    pose proof (b2z_range c). split; [split; [lia|done]|].
    unfold sort_tags. rewrite sort_by_id by done. cbn [app].
    replace (Z.of_nat (length r)) with (b2z c) by lia. rewrite z2b_b2z.
    assert (q = []) as ->; [|by rewrite app_nil_r].
    apply (app_same_length_nil (r ≫= λ t, vec_to_list t)).
    unfold strlen in Hl. cbn [length] in Hl.
    rewrite (length_bind_const _ 4) by (intros; apply length_vec_to_list). lia.
  - intros [[Hm Hs] <-]. unfold sort_tags. rewrite sort_by_id by done.
    change MaxAreas with 22 in Hm.
    run (by apply read_header_Ok). run done. rewrite b2z_z2b_small by lia.
    run (by apply require_Ok, Z.leb_le).
    run (apply require_Ok, Z.eqb_eq; unfold strlen; cbn [length app];
      rewrite (length_bind_const _ 4) by (intros; apply length_vec_to_list); lia).
    rewrite Nat2Z.id. apply decode_tags_Ok. split_and!; [done|by apply (ascending_sorted (λ t, t) lessTag)|].
    exists []. by rewrite app_nil_r.
Qed.

Lemma DecodeVectorMsg_spec b m :
  DecodeVectorMsg b = Ok m ↔
  wf_vector (VM_Vector m) ∧ Len (VM_Vector m) ≤ MaxOrigins ∧ VectorMsg_Encode m = b.
Proof.
  unfold DecodeVectorMsg, VectorMsg_Encode. split.
  - intros (rest & ->%read_header_Ok & H)%bind_Ok.
    apply bind_Ok in H as ([area b1] & ->%take_arr_Ok & H).
    apply bind_Ok in H as (v & (? & ? & ->)%wrap_err_Ok%Decode_spec & [= <-]). done.
  - intros (Hw & Hl & <-). run (by apply read_header_Ok). run (by apply take_arr_Ok).
    run (by apply wrap_err_Ok, Decode_spec). by destruct m.
Qed.

Lemma DecodeRangeReq_spec b r : DecodeRangeReq b = Ok r ↔ wf_range_req r ∧ RangeReq_Encode r = b.
Proof.
  unfold DecodeRangeReq, RangeReq_Encode, MaxRanges. split.
  - intros (rest & ->%read_header_Ok & (_ & H)%bind_unit_Ok)%bind_Ok.
    apply bind_Ok in H as ([area b1] & ->%take_arr_Ok & H).
    apply bind_Ok in H as ([c b2] & ->%take_byte_Ok & (Hn%require_Ok%Z.leb_le & H)%bind_unit_Ok).
    apply bind_Ok in H as ([l q] & (Hlen & Hf & Ha & ->)%decode_ranges_Ok & H).
    apply bind_unit_Ok in H as [->%require_Ok%bool_decide_eq_true [= <-]].
    apply (ascending_sorted range_key less_range) in Ha. pose proof (b2z_range c).
    unfold wf_range_req, MaxRanges. cbn [RR_Area RR_Ranges]. split; [split_and!; [lia|done..]|].
    unfold sort_ranges. rewrite sort_by_id by done.
    replace (Z.of_nat (length l)) with (b2z c) by lia. by rewrite z2b_b2z, app_nil_r.
  - intros [(Hm & Hf & Hs) <-]. unfold sort_ranges. rewrite sort_by_id by done. unfold MaxRanges in Hm.
    run (by apply read_header_Ok).
    run (apply require_Ok, Z.leb_le; unfold strlen; rewrite !length_app, length_vec_to_list; cbn [length]; lia).
    run (by apply take_arr_Ok). run done. rewrite b2z_z2b_small by lia.
    run (by apply require_Ok, Z.leb_le). rewrite Nat2Z.id.
    eapply bind_step with (a := (RR_Ranges r, [])).
    { apply decode_ranges_Ok. split_and!; [done..|by apply (ascending_sorted range_key less_range)|].
      by rewrite app_nil_r. }
    cbn beta iota. run done. by destruct r.
Qed.

(** Each of the four control messages is accepted exactly when it is the
    encoding of what it is read as: a digest of at most 22 areas in strict order,
    a vector request, a vector, and a range request of at most 32 ranges, none
    from sequence 0, ordered by origin and start. So a message has one wire form. *)
Theorem control_messages_iff b d q m r :
  (DecodeDigest b = Ok d ↔ wf_digest d ∧ Digest_Encode d = b) ∧
  (DecodeVectorReq b = Ok q ↔ wf_vector_req q ∧ VectorReq_Encode q = b) ∧
  (DecodeVectorMsg b = Ok m ↔
     wf_vector (VM_Vector m) ∧ Len (VM_Vector m) ≤ MaxOrigins ∧ VectorMsg_Encode m = b) ∧
  (DecodeRangeReq b = Ok r ↔ wf_range_req r ∧ RangeReq_Encode r = b).
Proof.
  split_and!; [apply DecodeDigest_spec|apply DecodeVectorReq_spec|apply DecodeVectorMsg_spec|apply DecodeRangeReq_spec].
Qed.

(** The reader lets the end of a range wrap: [from + span] is a 64-bit sum, so a
    peer can send a range that ends before it starts. *)
Lemma DecodeRangeReq_wraps :
  let r := mkRangeReq (zero_arr 4) [mkRange zero_id 5 3] in
  DecodeRangeReq (RangeReq_Encode r) = Ok r.
Proof. by vm_compute. Qed.

(** ** Fitting ranges into a packet *)

Lemma length_RangeReq_Encode area l :
  strlen (RangeReq_Encode (mkRangeReq area l)) = 7 + strlen (l ≫= encode_range).
Proof.
  unfold RangeReq_Encode, strlen, sort_ranges. cbn [RR_Area RR_Ranges].
  rewrite !length_app, length_vec_to_list. cbn [length].
  assert (length (sort_by range_key less_range l ≫= encode_range) = length (l ≫= encode_range)) as ->;
    [|lia].
  by rewrite (sort_by_Permutation range_key less_range l).
Qed.

Lemma fit_loop_spec area ranges maxBytes n :
  (n ≤ length ranges)%nat →
  ∃ k, (k ≤ n)%nat ∧ fit_loop area ranges maxBytes n = take k ranges ∧
    ((0 < k)%nat → strlen (RangeReq_Encode (mkRangeReq area (take k ranges))) ≤ maxBytes) ∧
    ∀ m, (k < m ≤ n)%nat → maxBytes < strlen (RangeReq_Encode (mkRangeReq area (take m ranges))).
Proof.
  induction n as [|n IH]; intros Hn; cbn [fit_loop].
  { exists 0%nat. split_and!; [done|by rewrite take_0|lia..]. }
  destruct (Z.leb_spec (strlen (RangeReq_Encode (mkRangeReq area (take (S n) ranges)))) maxBytes) as [Hle|Hgt].
  - exists (S n). split_and!; [done..|lia].
  - destruct (IH ltac:(lia)) as (k & Hk & -> & Hfit & Hmax). exists k.
    split_and!; [lia|done..|]. intros m Hm. destruct (decide (m = S n)) as [->|]; [done|].
    apply Hmax. lia.
Qed.

Lemma FitRanges_min area ranges maxBytes :
  FitRanges area ranges maxBytes =
  fit_loop area (take 32 ranges) maxBytes (Nat.min 32 (length ranges)).
Proof.
  unfold FitRanges, MaxRanges. destruct (Z.ltb_spec 32 (Z.of_nat (length ranges))).
  - change (Z.to_nat 32) with 32%nat. by rewrite length_take.
  - rewrite take_ge by lia. by rewrite Nat.min_r by lia.
Qed.

Lemma FitRanges_spec area ranges maxBytes :
  ∃ k, FitRanges area ranges maxBytes = take k ranges ∧
    (k ≤ 32)%nat ∧ (k ≤ length ranges)%nat ∧
    ((0 < k)%nat → strlen (RangeReq_Encode (mkRangeReq area (take k ranges))) ≤ maxBytes) ∧
    ∀ m, (k < m ≤ length ranges)%nat → (m ≤ 32)%nat →
      maxBytes < strlen (RangeReq_Encode (mkRangeReq area (take m ranges))).
Proof.
  rewrite FitRanges_min.
  destruct (fit_loop_spec area (take 32 ranges) maxBytes (Nat.min 32 (length ranges)))
    as (k & Hk & -> & Hfit & Hmax); [by rewrite length_take|].
  exists k. rewrite take_take, Nat.min_l in * by lia. split_and!; [done|lia..|done|].
  intros m Hm Hm32. specialize (Hmax m ltac:(lia)). by rewrite take_take, Nat.min_l in Hmax by lia.
Qed.

(** C: [FitRanges] is the longest prefix of at most 32 ranges whose request fits
    the limit: it fits when it is not empty, and any longer prefix, up to 32
    ranges, would not. *)
Theorem FitRanges_longest area ranges maxBytes :
  ∃ k, FitRanges area ranges maxBytes = take k ranges ∧
    (k ≤ 32)%nat ∧ (k ≤ length ranges)%nat ∧
    ((0 < k)%nat → strlen (RangeReq_Encode (mkRangeReq area (take k ranges))) ≤ maxBytes) ∧
    ∀ m, (k < m ≤ length ranges)%nat → (m ≤ 32)%nat →
      maxBytes < strlen (RangeReq_Encode (mkRangeReq area (take m ranges))).
Proof. apply FitRanges_spec. Qed.
