(* ===== verification/Schedule.v ===== *)
(** * When to broadcast a digest (internal/gossip/schedule.go)

    Durations and times are nanoseconds. The clock does not move inside one
    operation, as under the simulator's virtual clock: [now] is its reading. The
    random source is a parameter, [Rng], whose [Float64] the jitter uses. *)

From S2P Require Import Prelude Float64.

Definition Second : Z := 1000000000.
Definition Minute : Z := 60 * Second.
Definition Hour : Z := 60 * Minute.
Definition Microsecond : Z := 1000.

(** rng.Source, as far as this package uses it. *)
Class Rng (R : Type) := Rng_Float64 : R → float64 * R.

Record ScheduleConfig := mkScheduleConfig {
  Base : Z;
  PeerDivisor : Z;
  ControlShare : float64;
  AirtimePerByte : Z;
  FloodMultiplier : float64;
  JitterFraction : float64;
  MaxInterval : Z
}.

Definition DefaultSchedule : ScheduleConfig :=
  mkScheduleConfig (30 * Minute) 5 (dec 1 100) (8600 * Microsecond) (of_int 4) (dec 20 100) (12 * Hour).

Definition DigestAirtime (c : ScheduleConfig) (sizeBytes : Z) : Z :=
  to_int64 (fmul (fmul (of_int sizeBytes) (of_int (AirtimePerByte c))) (FloodMultiplier c)).

Definition heuristic (c : ScheduleConfig) (peers : Z) : Z :=
  let peers := if peers <? 1 then 1 else peers in
  let div := if PeerDivisor c <? 1 then 1 else PeerDivisor c in
  let scale := fdiv (of_int peers) (of_int div) in
  let scale := if flt scale (of_int 1) then of_int 1 else scale in
  to_int64 (fmul (of_int (Base c)) scale).

Definition airtime_clamp (c : ScheduleConfig) (peers sizeBytes : Z) : Z :=
  let peers := if peers <? 1 then 1 else peers in
  if flt f0 (ControlShare c) then
    to_int64 (fdiv (fmul (of_int peers) (of_int (DigestAirtime c sizeBytes))) (ControlShare c))
  else 0.

Definition Interval (c : ScheduleConfig) (peers sizeBytes : Z) : Z :=
  let clamp := airtime_clamp c peers sizeBytes in
  let interval := heuristic c peers in
  let interval := if interval <? clamp then clamp else interval in
  if (0 <? MaxInterval c) && (MaxInterval c <? interval) then MaxInterval c else interval.

Definition ControlUtilisation (c : ScheduleConfig) (peers sizeBytes interval : Z) : float64 :=
  if interval <=? 0 then of_int 1
  else fdiv (fmul (of_int peers) (of_int (DigestAirtime c sizeBytes))) (of_int interval).

(** [cfg] is fixed for a scheduler's life, and [peers] is a callback: both are
    arguments of the operations. *)
Record Scheduler := mkScheduler {
  last : Z;
  due : Z;
  heardMatching : bool;
  suppressed : Z;
  sent : Z
}.

Section scheduler.
Context {R : Type} `{Rng R}.

Definition jittered (cfg : ScheduleConfig) (interval : Z) (rnd : R) : Z * R :=
  if flt f0 (JitterFraction cfg) then
    let span := fmul (of_int interval) (JitterFraction cfg) in
    let '(x, rnd) := Rng_Float64 rnd in
    let offset := fmul (fsub (fmul x (of_int 2)) (of_int 1)) span in
    (to_int64 (fadd (of_int interval) offset), rnd)
  else (interval, rnd).

Definition reschedule (cfg : ScheduleConfig) (peers now sizeBytes : Z) (s : Scheduler) (rnd : R)
    : Scheduler * R :=
  let sizeBytes := if sizeBytes <=? 0 then 103 else sizeBytes in
  let '(interval, rnd) := jittered cfg (Interval cfg peers sizeBytes) rnd in
  let interval := if interval <? Second then Second else interval in
  (mkScheduler (last s) (now + interval) (heardMatching s) (suppressed s) (sent s), rnd).

Definition NewScheduler (cfg : ScheduleConfig) (peers now : Z) (rnd : R) : Scheduler * R :=
  reschedule cfg peers now 0 (mkScheduler now 0 false 0 0) rnd.

Definition NoteTransmitted (cfg : ScheduleConfig) (peers now sizeBytes : Z) (s : Scheduler) (rnd : R)
    : Scheduler * R :=
  reschedule cfg peers now sizeBytes (mkScheduler now (due s) false (suppressed s) (sent s)) rnd.

Definition NoteHeard (matches : bool) (s : Scheduler) : Scheduler :=
  if matches then mkScheduler (last s) (due s) true (suppressed s) (sent s) else s.

Definition Due (cfg : ScheduleConfig) (peers now : Z) (s : Scheduler) (rnd : R)
    : bool * Scheduler * R :=
  if now <? due s then (false, s, rnd)
  else if heardMatching s then
    let '(s, rnd) :=
      reschedule cfg peers now 0 (mkScheduler (last s) (due s) false (suppressed s + 1) (sent s)) rnd in
    (false, s, rnd)
  else (true, s, rnd).

Definition MarkSent (cfg : ScheduleConfig) (peers now sizeBytes : Z) (s : Scheduler) (rnd : R)
    : Scheduler * R :=
  NoteTransmitted cfg peers now sizeBytes (mkScheduler (last s) (due s) (heardMatching s) (suppressed s) (sent s + 1)) rnd.

(** ** Properties *)

Lemma reschedule_spec cfg peers now size s rnd s' rnd' :
  reschedule cfg peers now size s rnd = (s', rnd') →
  now + Second ≤ due s' ∧ last s' = last s ∧ heardMatching s' = heardMatching s ∧
  suppressed s' = suppressed s ∧ sent s' = sent s.
Proof.
  unfold reschedule. destruct (jittered _ _ _) as [i r]. intros [= <- <-]. cbn.
  destruct (Z.ltb_spec i Second); split_and!; (done || lia).
Qed.

Lemma jittered_i64 cfg i rnd : is_i64 i → is_i64 (jittered cfg i rnd).1.
Proof.
  intros Hi. unfold jittered. destruct (flt _ _); [|done].
  destruct (Rng_Float64 rnd). apply to_int64_range.
Qed.

(** The interval is the larger of the heuristic and the airtime clamp, unless
    the configured maximum is smaller, in which case it is that maximum. *)
Theorem Interval_max cfg peers size :
  Interval cfg peers size =
    let m := Z.max (heuristic cfg peers) (airtime_clamp cfg peers size) in
    if 0 <? MaxInterval cfg then Z.min m (MaxInterval cfg) else m.
Proof.
  unfold Interval. cbv zeta.
  assert ((if heuristic cfg peers <? airtime_clamp cfg peers size
           then airtime_clamp cfg peers size else heuristic cfg peers)
          = Z.max (heuristic cfg peers) (airtime_clamp cfg peers size)) as ->.
  { destruct (Z.ltb_spec (heuristic cfg peers) (airtime_clamp cfg peers size)); lia. }
  destruct (0 <? MaxInterval cfg); cbn; [|done].
  destruct (Z.ltb_spec (MaxInterval cfg) (Z.max (heuristic cfg peers) (airtime_clamp cfg peers size))); lia.
Qed.

End scheduler.

(** ** What the scheduler lets on the air, as a run *)

Section runs.
Context {R : Type} `{Rng R} (cfg : ScheduleConfig).

(** The operations a node performs on its scheduler, each at a time: [Sent] when
    [Due] said yes and the digest went out, [Piggyback] for a bundle that carried
    one, [Heard] for a peer's digest. *)
Inductive event :=
| EvDue (now : Z) (answer : bool)
| EvSent (now size : Z)
| EvPiggyback (now size : Z)
| EvHeard (matches : bool).

Inductive step : Scheduler * R → event → Scheduler * R → Prop :=
| step_due peers now s rnd b s' rnd' :
    Due cfg peers now s rnd = (b, s', rnd') → step (s, rnd) (EvDue now b) (s', rnd')
| step_sent peers now size s rnd s' rnd' :
    MarkSent cfg peers now size s rnd = (s', rnd') → step (s, rnd) (EvSent now size) (s', rnd')
| step_piggyback peers now size s rnd s' rnd' :
    NoteTransmitted cfg peers now size s rnd = (s', rnd') →
    step (s, rnd) (EvPiggyback now size) (s', rnd')
| step_heard b s rnd :
    step (s, rnd) (EvHeard b) (NoteHeard b s, rnd).

Inductive run : Scheduler * R → list event → Scheduler * R → Prop :=
| run_nil c : run c [] c
| run_cons c e c' es c'' : step c e c' → run c' es c'' → run c (e :: es) c''.

Definition event_time (e : event) : option Z :=
  match e with
  | EvDue now _ | EvSent now _ | EvPiggyback now _ => Some now
  | EvHeard _ => None
  end.

(** The clock does not run backwards. *)
Fixpoint monotone (t : Z) (es : list event) : Prop :=
  match es with
  | [] => True
  | e :: es' => match event_time e with
                | Some now => t ≤ now ∧ monotone now es'
                | None => monotone t es'
                end
  end.

(** A beat that is not due now is never due earlier. *)
Lemma due_grows t c es c' :
  run c es c' → monotone t es → ∀ d, d ≤ due c.1 → d ≤ t + Second → d ≤ due c'.1.
Proof.
  intros Hrun. revert t. induction Hrun as [|c e c' es c'' Hs _ IH]; intros t Hm d Hd Hsec; [done|].
  cbn [monotone] in Hm. destruct Hs as [p now s rnd b s' rnd' E|p now sz s rnd s' rnd' E|p now sz s rnd s' rnd' E|b s rnd];
    cbn [event_time] in Hm.
  - destruct Hm as [Ht Hm]. apply (IH now); [done| |lia]. cbn in Hd |- *.
    unfold Due in E. destruct (Z.ltb_spec now (due s)); [by injection E as <- <- <-|].
    destruct (heardMatching s); [|by injection E as <- <- <-].
    destruct (reschedule _ _ _ _ _ _) as [s2 r2] eqn:E2. injection E as <- <- <-.
    apply reschedule_spec in E2 as [? _]. lia.
  - destruct Hm as [Ht Hm]. apply (IH now); [done| |lia]. apply reschedule_spec in E as [? _]. cbn. lia.
  - destruct Hm as [Ht Hm]. apply (IH now); [done| |lia]. apply reschedule_spec in E as [? _]. cbn. lia.
  - apply (IH t); [done| |done]. unfold NoteHeard. cbn. by destruct b.
Qed.

(** Once a digest has gone out, standalone or piggybacked, the scheduler does
    not ask for another within a second, whatever the jitter, the peer count or
    what is heard in between. *)
Theorem no_second_digest_within_a_second c e c1 es now c2 c3 t size :
  e = EvSent t size ∨ e = EvPiggyback t size →
  step c e c1 → run c1 es c2 → monotone t es → step c2 (EvDue now true) c3 →
  t + Second ≤ now.
Proof.
  intros He Hs Hrun Hm Hdue.
  assert (Hd : t + Second ≤ due c1.1).
  { destruct He as [-> | ->]; inversion Hs as [|p n z s r s' r' E| p n z s r s' r' E|]; subst;
      unfold MarkSent, NoteTransmitted in E; apply reschedule_spec in E as [? _]; done. }
  pose proof (due_grows t c1 es c2 Hrun Hm (t + Second) Hd ltac:(lia)) as Hd2.
  inversion Hdue as [p n s rnd b s' rnd' E| | |]; subst. cbn in Hd2.
  unfold Due in E. destruct (Z.ltb_spec now (due s)); [done|lia].
Qed.

(** A suppressed beat is skipped exactly once: when the beat is due and a peer
    announced matching state, the answer is no, the peer's announcement is used
    up, and the next beat moves into the future. *)
Theorem Due_suppression peers now s rnd :
  due s ≤ now → heardMatching s = true →
  ∃ s' rnd', Due cfg peers now s rnd = (false, s', rnd') ∧
    heardMatching s' = false ∧ suppressed s' = suppressed s + 1 ∧ now < due s' ∧ sent s' = sent s.
Proof.
  intros Hd Hh. unfold Due. rewrite Hh. destruct (Z.ltb_spec now (due s)); [lia|].
  destruct (reschedule _ _ _ _ _ _) as [s' r'] eqn:E. exists s', r'.
  apply reschedule_spec in E as (? & ? & ? & ? & ?). cbn in *. unfold Second in *.
  split_and!; (done || lia).
Qed.
End runs.

(** The intervals the documentation quotes for ten areas (103 bytes). *)
Example Interval_default_5 : Interval DefaultSchedule 5 103 / Minute = 30.
Proof. by vm_compute. Qed.
Example Interval_default_50 : Interval DefaultSchedule 50 103 / Minute = 300.
Proof. by vm_compute. Qed.
Example Interval_default_100 : Interval DefaultSchedule 100 103 / Minute = 600.
Proof. by vm_compute. Qed.
