(* ===== verification/GossipEngine.v ===== *)
(** * The gossip engine (internal/gossip/engine.go)

    One node's anti-entropy cycle as a state machine: [Tick], [Receive],
    [Publish] and [ApplyRecords] over an explicit engine state. The log and the
    network are interfaces, as they are in the code: [Store] and [Outbox] below.
    An operation is a function of the engine's state returning an outcome and the
    next state, which keeps what was changed before an error, as the code does.

    Times are nanoseconds and the clock does not move inside an operation. Maps
    of peers are walked in Go in an unspecified order; no theorem here depends on
    the order used. *)

From S2P Require Import Prelude Binary Identity VersionVector Order Float64 Schedule.
From S2P Require Records.
From S2P Require Import GossipWire.

Abbreviation Rec := Records.Rec.

(** ** Interfaces *)

Class Store (S SE : Type) := {
  st_Areas : S → list AreaTag;
  st_Vector : S → AreaTag → Vector;
  st_Records : S → AreaTag → Range → list Rec;
  st_Apply : S → AreaTag → list Rec → S * Z * option SE
}.

(** [SendMessage] and [SendRecords] report the error, if any; [CanSend] is
    [Budget().CanSend()]. [SetLossRate] is the optional LossAdapter, the identity
    for an outbox without it. *)
Class Outbox (O OE : Type) := {
  SendMessage : O → NodeID → bytes → O * option OE;
  SendRecords : O → AreaTag → list Rec → O * option OE;
  CanSend : O → bool;
  SetLossRate : O → float64 → O;
  LossRate : O → option float64
}.

(** What an outbox has accepted, for the theorems about what is sent: the
    refined interface a client may observe. *)
Inductive emission :=
| Message (to : NodeID) (payload : bytes)
| Bundle (area : AreaTag) (recs : list Rec).

Class OutboxLog (O OE : Type) `{Outbox O OE} := {
  sent_log : O → list emission;
  sent_SendMessage o to p o' : SendMessage o to p = (o', None) →
    sent_log o' = sent_log o ++ [Message to p];
  sent_SendRecords o a rs o' : SendRecords o a rs = (o', None) →
    sent_log o' = sent_log o ++ [Bundle a rs];
  sent_SendMessage_err o to p o' e : SendMessage o to p = (o', Some e) → sent_log o' = sent_log o;
  sent_SendRecords_err o a rs o' e : SendRecords o a rs = (o', Some e) → sent_log o' = sent_log o;
  sent_SetLossRate o x : sent_log (SetLossRate o x) = sent_log o
}.

(** ** State *)

Record Config := mkConfig {
  Schedule_ : ScheduleConfig;
  RequestDelay : Z;
  MaxRangesPerRequest : Z;
  MaxRecordsPerPush : Z;
  PeerTimeout : Z;
  ConfigDictionary : Z  (* uint8 *)
}.

Definition DefaultConfig : Config :=
  mkConfig DefaultSchedule (30 * Second) (MaxRanges - 2) 64 (24 * Hour) 0.

Record awaitedPush := mkAwaitedPush { want : Z; aw_at : Z }.

Record peerState := mkPeerState {
  p_id : NodeID;
  lastHeard : Z;
  lastDigest : gmap AreaTag AreaState;
  vectors : gmap AreaTag Vector;
  awaiting : gmap AreaTag awaitedPush;
  dictionary : Z;
  dictKnown : bool
}.

Record pendingAsk := mkPendingAsk {
  ask_peer : NodeID;
  ask_area : AreaTag;
  ask_at : Z;
  wantHash : arr 4
}.

(** The struct of counters, by field name. *)
Inductive stat :=
| DigestsSent | DigestsHeard | BundlesObserved | BundlesMissed | VectorReqsSent
| VectorReqsDropped | VectorsSent | RangeReqsSent | RecordsPushed | RecordsApplied | BytesSent.
#[export] Instance stat_eq_dec : EqDecision stat.
Proof. solve_decision. Defined.

Definition Stats := stat → Z.
Definition zero_stats : Stats := λ _, 0.
Definition bump (k : stat) (n : Z) (s : Stats) : Stats :=
  λ k', if decide (k = k') then s k + n else s k'.

Record Engine (S O R : Type) := mkEngine {
  store : S;
  out : O;
  rnd : R;
  sched : Scheduler;
  peers : gmap NodeID peerState;
  pending : list pendingAsk;
  lossEstimate : float64;
  stats : Stats
}.
Arguments mkEngine {S O R}.
Arguments store {S O R}. Arguments out {S O R}. Arguments rnd {S O R}. Arguments sched {S O R}.
Arguments peers {S O R}. Arguments pending {S O R}. Arguments lossEstimate {S O R}.
Arguments stats {S O R}.

Inductive engine_error (SE OE : Type) :=
| Wire (e : gossip_error)
| OutErr (e : OE)
| StoreErr (e : SE)
| Unhandled (t : byte).
Arguments Wire {SE OE}. Arguments OutErr {SE OE}. Arguments StoreErr {SE OE}. Arguments Unhandled {SE OE}.

Section engine.
Context {S SE O OE R : Type} `{HB : Blake3, HS : Store S SE, HO : Outbox O OE, HR : Rng R}.
Context (self : NodeID) (cfg : Config).

Abbreviation engine := (Engine S O R).

(** The state-and-error monad the handlers run in. *)
Definition M (A : Type) : Type := engine → result (engine_error SE OE) A * engine.
#[export] Instance M_ret : MRet M := λ A a e, (Ok a, e).
#[export] Instance M_bind : MBind M := λ A B f m e,
  match m e with
  | (Ok a, e) => f a e
  | (Err x, e) => (Err x, e)
  end.

Definition get : M engine := λ e, (Ok e, e).
Definition modify (f : engine → engine) : M unit := λ e, (Ok tt, f e).
Definition wire {A : Type} (r : result gossip_error A) : M A := λ e, (wrap_err Wire r, e).

Definition set_store (s : S) (e : engine) : engine :=
  mkEngine s (out e) (rnd e) (sched e) (peers e) (pending e) (lossEstimate e) (stats e).
Definition set_out (o : O) (e : engine) : engine :=
  mkEngine (store e) o (rnd e) (sched e) (peers e) (pending e) (lossEstimate e) (stats e).
Definition set_sched (s : Scheduler) (r : R) (e : engine) : engine :=
  mkEngine (store e) (out e) r s (peers e) (pending e) (lossEstimate e) (stats e).
Definition set_peers (p : gmap NodeID peerState) (e : engine) : engine :=
  mkEngine (store e) (out e) (rnd e) (sched e) p (pending e) (lossEstimate e) (stats e).
Definition set_pending (l : list pendingAsk) (r : R) (e : engine) : engine :=
  mkEngine (store e) (out e) r (sched e) (peers e) l (lossEstimate e) (stats e).
Definition set_loss (x : float64) (e : engine) : engine :=
  mkEngine (store e) (out e) (rnd e) (sched e) (peers e) (pending e) x (stats e).
Definition count (k : stat) (n : Z) (e : engine) : engine :=
  mkEngine (store e) (out e) (rnd e) (sched e) (peers e) (pending e) (lossEstimate e) (bump k n (stats e)).

Definition set_peer (id : NodeID) (f : peerState → peerState) (e : engine) : engine :=
  set_peers (alter f id (peers e)) e.

Definition send_message (to : NodeID) (payload : bytes) : M unit := λ e,
  let '(o, err) := SendMessage (out e) to payload in
  (match err with Some x => Err (OutErr x) | None => Ok tt end, set_out o e).
Definition send_records (area : AreaTag) (recs : list Rec) : M unit := λ e,
  let '(o, err) := SendRecords (out e) area recs in
  (match err with Some x => Err (OutErr x) | None => Ok tt end, set_out o e).

(** ** Peers *)

Definition heard_since (cutoff : Z) (p : peerState) : bool := cutoff <? lastHeard p.

Definition PeerCount (now : Z) (ps : gmap NodeID peerState) : Z :=
  if PeerTimeout cfg <=? 0 then Z.of_nat (size ps) + 1
  else
    let cutoff := now - PeerTimeout cfg in
    map_fold (λ _ p n, if heard_since cutoff p then n + 1 else n) 0 ps + 1.

(** The loop of [DictionaryFloor]: the level and who holds us to it. *)
Definition floor_step (now : Z) (p : peerState) (acc : Z * option NodeID) : Z * option NodeID :=
  if negb (dictKnown p) then acc
  else if (0 <? PeerTimeout cfg) && negb (heard_since (now - PeerTimeout cfg) p) then acc
  else if dictionary p <? acc.1 then (dictionary p, Some (p_id p)) else acc.

Definition DictionaryFloor (now : Z) (ps : gmap NodeID peerState) : Z * option NodeID * bool :=
  let '(floor, holder) := map_fold (λ _, floor_step now) (ConfigDictionary cfg, None) ps in
  (floor, holder, floor <? ConfigDictionary cfg).

(** ** Digest, federation *)

Definition own_vectors (s : S) : gmap AreaTag Vector :=
  foldl (λ m a, <[a := st_Vector s a]> m) ∅ (st_Areas s).

Definition OwnDigest (s : S) : Digest :=
  let d := NewDigest (own_vectors s) in
  mkDigest (z2b (ConfigDictionary cfg)) (Areas d).

Definition federates (s : S) (tag : AreaTag) : bool := bool_decide (tag ∈ st_Areas s).

Definition NotePiggybacked (now sizeBytes : Z) (e : engine) : engine :=
  let '(s, r) := NoteTransmitted (Schedule_ cfg) (PeerCount now (peers e)) now sizeBytes (sched e) (rnd e) in
  set_sched s r e.

Definition mark_sent (now sizeBytes : Z) (e : engine) : engine :=
  let '(s, r) := MarkSent (Schedule_ cfg) (PeerCount now (peers e)) now sizeBytes (sched e) (rnd e) in
  set_sched s r e.

(** ** The loss estimate *)

Definition lossClimbFactor : float64 := dec 15 10.
Definition lossClimbFloor : float64 := dec 5 100.
Definition lossDecayFactor : float64 := dec 92 100.
Definition lossCeiling : float64 := dec 5 10.
Definition maxSaturatedCount : Z := 0xFFFF.

Definition next_loss (landed : bool) (x : float64) : float64 :=
  if landed then
    let x := fmul x lossDecayFactor in
    if flt x (dec 1 1000) then f0 else x
  else
    let x := fadd (fmul x lossClimbFactor) lossClimbFloor in
    if flt lossCeiling x then lossCeiling else x.

Definition noteDelivery (landed : bool) (e : engine) : engine :=
  let before := lossEstimate e in
  let x := next_loss landed before in
  let e := set_loss x (count BundlesObserved 1 e) in
  let e := if landed then e else count BundlesMissed 1 e in
  if negb (feq x before) then set_out (SetLossRate (out e) x) e else e.

Definition settleAwaited (id : NodeID) (a : AreaState) (e : engine) : engine :=
  match peers e !! id ≫= λ p, awaiting p !! Tag a with
  | None => e
  | Some w =>
      let e := set_peer id (λ p, mkPeerState (p_id p) (lastHeard p) (lastDigest p) (vectors p)
                 (delete (Tag a) (awaiting p)) (dictionary p) (dictKnown p)) e in
      noteDelivery (want w <=? Count_ a) e
  end.

Definition await (area : AreaTag) (added now : Z) (p : peerState) : peerState :=
  match lastDigest p !! area with
  | None => p
  | Some last =>
      if maxSaturatedCount <=? Count_ last then p
      else
        let w := Count_ last + added in
        let w := if maxSaturatedCount <? w then maxSaturatedCount else w in
        mkPeerState (p_id p) (lastHeard p) (lastDigest p) (vectors p)
          (<[area := mkAwaitedPush w now]> (awaiting p)) (dictionary p) (dictKnown p)
  end.

Definition noteAwaited (now : Z) (area : AreaTag) (added : Z) (e : engine) : engine :=
  if added <=? 0 then e else set_peers (await area added now <$> peers e) e.

(** ** Asking *)

Definition asks (peer : NodeID) (area : AreaTag) (a : pendingAsk) : bool :=
  bool_decide (ask_peer a = peer) && bool_decide (ask_area a = area).

Definition scheduleAsk (now : Z) (peer : NodeID) (area : AreaTag) (h : arr 4) (e : engine) : engine :=
  if existsb (asks peer area) (pending e) then e
  else
    let '(delay, r) :=
      if 0 <? RequestDelay cfg then
        let '(x, r) := Rng_Float64 (rnd e) in (to_int64 (fmul x (of_int (RequestDelay cfg))), r)
      else (0, rnd e) in
    set_pending (pending e ++ [mkPendingAsk peer area (now + delay) h]) r e.

(** The loop of [firePending] over the asks still to look at. [keep] is the
    prefix of the backing array written so far: the code filters in place, so an
    error leaves [keep] over the front of the slice it started from. *)
Fixpoint fire_loop (now : Z) (original keep todo : list pendingAsk) : M unit :=
  match todo with
  | [] => modify (λ e, set_pending keep (rnd e) e)
  | ask :: todo' =>
      if now <? ask_at ask then fire_loop now original (keep ++ [ask]) todo'
      else
        e ← get;
        if decide (VersionVector.Hash (st_Vector (store e) (ask_area ask)) = wantHash ask) then
          _ ← modify (count VectorReqsDropped 1);
          fire_loop now original keep todo'
        else if negb (CanSend (out e)) then fire_loop now original (keep ++ [ask]) todo'
        else
          let payload := VectorReq_Encode [ask_area ask] in
          _ ← (λ e,
            match send_message (ask_peer ask) payload e with
            | (Err x, e) => (Err x, set_pending (keep ++ drop (length keep) original) (rnd e) e)
            | r => r
            end);
          _ ← modify (count VectorReqsSent 1);
          _ ← modify (count BytesSent (strlen payload));
          fire_loop now original keep todo'
  end.

Definition firePending (now : Z) : M unit :=
  e ← get;
  match pending e with
  | [] => mret tt
  | l => fire_loop now l [] l
  end.

Definition Broadcast : NodeID := zero_id.

(** [Tick] after the pending asks: the heartbeat digest. *)
Definition beat (now : Z) : M unit :=
  e ← get;
  let '(is_due, s, r) := Due (Schedule_ cfg) (PeerCount now (peers e)) now (sched e) (rnd e) in
  _ ← modify (set_sched s r);
  if negb is_due then mret tt
  else
    let d := OwnDigest (store e) in
    if decide (Areas d = []) then modify (mark_sent now 0)
    else if negb (CanSend (out e)) then mret tt
    else
      let payload := Digest_Encode d in
      _ ← send_message Broadcast payload;
      _ ← modify (count DigestsSent 1);
      _ ← modify (count BytesSent (strlen payload));
      modify (mark_sent now (strlen payload)).

Definition Tick (now : Z) : M unit := _ ← firePending now; beat now.

(** ** Handlers *)

(** One area of a peer's digest. *)
Definition on_area (now : Z) (from : NodeID) (a : AreaState) (acc : Z * Z * engine) : Z * Z * engine :=
  let '(shared, matching, e) := acc in
  let e := settleAwaited from a e in
  let e := set_peer from (λ p, mkPeerState (p_id p) (lastHeard p) (<[Tag a := a]> (lastDigest p))
             (vectors p) (awaiting p) (dictionary p) (dictKnown p)) e in
  let mine := st_Vector (store e) (Tag a) in
  if (Len mine =? 0) && negb (federates (store e) (Tag a)) then (shared, matching, e)
  else if decide (VersionVector.Hash mine = Hash_ a) then (shared + 1, matching + 1, e)
  else if Count_ a <? SaturatingCount (Count mine) then (shared + 1, matching, e)
  else (shared + 1, matching, scheduleAsk now from (Tag a) (Hash_ a) e).

Definition onDigest (now : Z) (from : NodeID) (payload : bytes) : M unit :=
  d ← wire (DecodeDigest payload);
  _ ← modify (count DigestsHeard 1);
  _ ← modify (set_peer from (λ p, mkPeerState (p_id p) (lastHeard p) (lastDigest p) (vectors p)
        (awaiting p) (b2z (Dictionary d)) true));
  modify (λ e,
    let '(shared, matching, e) := foldl (λ acc a, on_area now from a acc) (0, 0, e) (Areas d) in
    set_sched (NoteHeard ((0 <? shared) && (matching =? shared)) (sched e)) (rnd e) e).

Fixpoint answer_vectors (from : NodeID) (tags : list AreaTag) : M unit :=
  match tags with
  | [] => mret tt
  | tag :: tags' =>
      e ← get;
      if negb (federates (store e) tag) then answer_vectors from tags'
      else if negb (CanSend (out e)) then mret tt
      else
        let msg := VectorMsg_Encode (mkVectorMsg tag (st_Vector (store e) tag)) in
        _ ← send_message from msg;
        _ ← modify (count VectorsSent 1);
        _ ← modify (count BytesSent (strlen msg));
        answer_vectors from tags'
  end.

Definition onVectorReq (from : NodeID) (payload : bytes) : M unit :=
  req ← wire (DecodeVectorReq payload);
  answer_vectors from req.

(** [sort.Slice] by start; ranges that start alike keep some order. *)
Definition sort_by_from (l : list Range) : list Range := sort_by VersionVector.From Z.ltb l.

Definition delta_request (mine theirs : Vector) (area : AreaTag) : list Range :=
  let missing := sort_by_from (Missing mine (Some theirs)) in
  let missing :=
    if MaxRangesPerRequest cfg <? Z.of_nat (length missing)
    then take (Z.to_nat (MaxRangesPerRequest cfg)) missing else missing in
  FitRanges area missing MaxControlMessage.

Definition onVector (from : NodeID) (payload : bytes) : M unit :=
  msg ← wire (DecodeVectorMsg payload);
  e ← get;
  if negb (federates (store e) (VM_Area msg)) then mret tt
  else
    _ ← modify (set_peer from (λ p, mkPeerState (p_id p) (lastHeard p) (lastDigest p)
          (<[VM_Area msg := VM_Vector msg]> (vectors p)) (awaiting p) (dictionary p) (dictKnown p)));
    let ranges := delta_request (st_Vector (store e) (VM_Area msg)) (VM_Vector msg) (VM_Area msg) in
    if decide (ranges = []) then mret tt
    else if negb (CanSend (out e)) then mret tt
    else
      let payload := RangeReq_Encode (mkRangeReq (VM_Area msg) ranges) in
      _ ← send_message from payload;
      _ ← modify (count RangeReqsSent 1);
      modify (count BytesSent (strlen payload)).

(** The records a delta request is answered with. *)
Fixpoint gather (s : S) (area : AreaTag) (ranges : list Range) (acc : list Rec) : list Rec :=
  match ranges with
  | [] => acc
  | rg :: ranges' =>
      if MaxRecordsPerPush cfg <=? Z.of_nat (length acc) then acc
      else
        let recs := st_Records s area rg in
        let room := MaxRecordsPerPush cfg - Z.of_nat (length acc) in
        let recs := if room <? Z.of_nat (length recs) then take (Z.to_nat room) recs else recs in
        gather s area ranges' (acc ++ recs)
  end.

Definition push (now : Z) (area : AreaTag) (recs : list Rec) : M unit :=
  _ ← send_records area recs;
  _ ← modify (count RecordsPushed (Z.of_nat (length recs)));
  _ ← modify (noteAwaited now area (Z.of_nat (length recs)));
  modify (λ e, NotePiggybacked now (Digest_Size (OwnDigest (store e))) e).

Definition onRangeReq (now : Z) (from : NodeID) (payload : bytes) : M unit :=
  req ← wire (DecodeRangeReq payload);
  e ← get;
  if negb (federates (store e) (RR_Area req)) then mret tt
  else
    let recs := gather (store e) (RR_Area req) (RR_Ranges req) [] in
    if decide (recs = []) then mret tt
    else if negb (CanSend (out e)) then mret tt
    else push now (RR_Area req) recs.

Definition new_peer (from : NodeID) (now : Z) : peerState :=
  mkPeerState from now ∅ ∅ ∅ 0 false.

Definition hear (now : Z) (from : NodeID) (e : engine) : engine :=
  match peers e !! from with
  | None => set_peers (<[from := new_peer from now]> (peers e)) e
  | Some p => set_peers (<[from := mkPeerState (p_id p) now (lastDigest p) (vectors p) (awaiting p)
                                     (dictionary p) (dictKnown p)]> (peers e)) e
  end.

Definition Receive (now : Z) (from : NodeID) (payload : bytes) : M unit :=
  if decide (from = self) then mret tt
  else
    t ← wire (PeekType payload);
    _ ← modify (hear now from);
    if decide (t = MsgDigest) then onDigest now from payload
    else if decide (t = MsgVectorReq) then onVectorReq from payload
    else if decide (t = MsgVector) then onVector from payload
    else if decide (t = MsgRangeReq) then onRangeReq now from payload
    else λ e, (Err (Unhandled t), e).

Definition apply_store (area : AreaTag) (recs : list Rec) : M Z := λ e,
  let '(s, n, err) := st_Apply (store e) area recs in
  (match err with Some x => Err (StoreErr x) | None => Ok n end, set_store s e).

Definition Publish (now : Z) (area : AreaTag) (recs : list Rec) : M unit :=
  if decide (recs = []) then mret tt
  else
    _ ← apply_store area recs;
    e ← get;
    if negb (CanSend (out e)) then mret tt
    else push now area recs.

(** The count is added before the error is looked at. *)
Definition ApplyRecords (area : AreaTag) (recs : list Rec) : M Z := λ e,
  let '(s, n, err) := st_Apply (store e) area recs in
  let e := count RecordsApplied n (set_store s e) in
  (match err with Some x => Err (StoreErr x) | None => Ok n end, e).

Definition New (s : S) (o : O) (r : R) (now : Z) : engine :=
  let loss := default f0 (LossRate o) in
  let '(sc, r) := NewScheduler (Schedule_ cfg) (PeerCount now ∅) now r in
  mkEngine s o r sc ∅ [] loss zero_stats.
End engine.
