(* ===== verification/GossipFacts.v ===== *)
(** * What the gossip engine guarantees

    Theorems about [GossipEngine]: the queue of asks, the suppression window, who
    asks whom, what a delta request asks for and what answers it, the dictionary
    floor, and the invariant of every reachable engine state. *)

From S2P Require Import Prelude Binary Identity VersionVector Order Float64 Schedule.
From S2P Require Records.
From S2P Require Import GossipWire GossipEngine.

(** ** Dictionary floor *)

Section floor.
Context (cfg : Config) (now : Z).

(** A peer votes when it has sent a digest and has not timed out. *)
Definition votes (p : peerState) : Prop :=
  dictKnown p = true ∧ (0 < PeerTimeout cfg → now - PeerTimeout cfg < lastHeard p).

Lemma floor_step_cases p acc :
  (votes p ∧ dictionary p < acc.1 ∧ floor_step cfg now p acc = (dictionary p, Some (p_id p))) ∨
  ((votes p → acc.1 ≤ dictionary p) ∧ floor_step cfg now p acc = acc).
Proof.
  unfold floor_step, votes, heard_since. destruct (dictKnown p); cbn; [|right; naive_solver].
  destruct (Z.ltb_spec 0 (PeerTimeout cfg)); cbn;
    destruct (Z.ltb_spec (now - PeerTimeout cfg) (lastHeard p)); cbn;
    destruct (Z.ltb_spec (dictionary p) acc.1); first [left; split_and!; (done || lia)
      |right; split; [|done]; intros [_ Hv]; try specialize (Hv ltac:(lia)); lia].
Qed.

Lemma floor_fold (ps : gmap NodeID peerState) :
  let acc := map_fold (λ _, floor_step cfg now) (ConfigDictionary cfg, None) ps in
  acc.1 ≤ ConfigDictionary cfg ∧
  map_Forall (λ _ p, votes p → acc.1 ≤ dictionary p) ps ∧
  match acc.2 with
  | None => acc.1 = ConfigDictionary cfg
  | Some id => ∃ k p, ps !! k = Some p ∧ votes p ∧ p_id p = id ∧ dictionary p = acc.1 ∧
                      acc.1 < ConfigDictionary cfg
  end.
Proof.
  apply (map_fold_weak_ind (λ acc (ps : gmap NodeID peerState), acc.1 ≤ ConfigDictionary cfg ∧
    map_Forall (λ _ p, votes p → acc.1 ≤ dictionary p) ps ∧
    match acc.2 with
    | None => acc.1 = ConfigDictionary cfg
    | Some id => ∃ k p, ps !! k = Some p ∧ votes p ∧ p_id p = id ∧ dictionary p = acc.1 ∧
                        acc.1 < ConfigDictionary cfg
    end)).
  { split_and!; [done|apply map_Forall_empty|done]. }
  intros k p m acc Hk (Hle & Hall & Hh).
  destruct (floor_step_cases p acc) as [(Hv & Hlt & ->)|(Hv & ->)]; cbn.
  - split_and!; [lia| |].
    + apply map_Forall_insert_2; [lia|]. intros j q Hq Hvq. specialize (Hall j q Hq Hvq). lia.
    + exists k, p. rewrite lookup_insert_eq. split_and!; (done || lia).
  - split_and!; [done|by apply map_Forall_insert_2|].
    destruct acc as [lvl [id|]]; cbn in *; [|done]. destruct Hh as (j & q & Hj & ?).
    exists j, q. rewrite lookup_insert_ne by congruence. done.
Qed.

(** The dictionary a node may compress with is the highest that it and every
    voting peer hold: no voting peer holds less, and when it is below the node's
    own, the peer named is one that holds exactly that much. Peers that never
    sent a digest, or timed out, do not count. *)
Theorem DictionaryFloor_spec ps lvl holder held :
  DictionaryFloor cfg now ps = (lvl, holder, held) →
  lvl ≤ ConfigDictionary cfg ∧
  (∀ k p, ps !! k = Some p → votes p → lvl ≤ dictionary p) ∧
  (held = true ↔ lvl < ConfigDictionary cfg) ∧
  (held = true → ∃ k p, ps !! k = Some p ∧ votes p ∧ holder = Some (p_id p) ∧ dictionary p = lvl).
Proof.
  unfold DictionaryFloor. pose proof (floor_fold ps) as Hf. cbv zeta in Hf.
  destruct (map_fold _ _ ps) as [l h]. cbn in Hf. destruct Hf as (Hle & Hall & Hh).
  intros [= <- <- <-]. split_and!; [done|exact Hall|apply Z.ltb_lt|].
  intros Hlt%Z.ltb_lt. destruct h as [id|]; [|lia].
  destruct Hh as (k & p & ? & ? & <- & ? & ?). eauto 10.
Qed.
End floor.

(** ** Delta requests *)

Section delta.
Context (cfg : Config).

Lemma delta_request_prefix mine theirs area :
  ∃ k, delta_request cfg mine theirs area = take k (sort_by_from (Missing mine (Some theirs))) ∧
    (k ≤ 32)%nat ∧ ((0 < k)%nat →
      strlen (RangeReq_Encode (mkRangeReq area (delta_request cfg mine theirs area))) ≤ MaxControlMessage).
Proof.
  unfold delta_request. set (l := sort_by_from _).
  assert (∃ j, (if MaxRangesPerRequest cfg <? Z.of_nat (length l)
                then take (Z.to_nat (MaxRangesPerRequest cfg)) l else l) = take j l) as [j ->].
  { destruct (_ <? _); [by eexists|]. exists (length l). by rewrite take_ge. }
  destruct (FitRanges_spec area (take j l) MaxControlMessage) as (k & Hk & Hk32 & _ & Hfit & _).
  exists (Nat.min k j). rewrite Hk, take_take. split_and!; [done|lia|].
  intros Hpos. rewrite <- take_take, <- Hk. rewrite Hk. apply Hfit. lia.
Qed.

Lemma take_subset {A : Type} k (l : list A) x : x ∈ take k l → x ∈ l.
Proof. intros H. rewrite <- (take_drop k l). apply elem_of_app. auto. Qed.

Lemma delta_request_missing mine theirs area r :
  r ∈ delta_request cfg mine theirs area → r ∈ Missing mine (Some theirs).
Proof.
  destruct (delta_request_prefix mine theirs area) as (k & -> & _).
  intros H%take_subset. unfold sort_by_from in H.
  by rewrite (sort_by_Permutation VersionVector.From Z.ltb) in H.
Qed.

Lemma NoDup_take {A : Type} k (l : list A) : NoDup l → NoDup (take k l).
Proof. intros H. rewrite <- (take_drop k l) in H. by apply NoDup_app in H as [? _]. Qed.

Lemma delta_request_NoDup mine theirs area :
  NoDup (VersionVector.Origin <$> delta_request cfg mine theirs area).
Proof.
  destruct (delta_request_prefix mine theirs area) as (k & -> & _).
  rewrite fmap_take. apply NoDup_take. unfold sort_by_from.
  rewrite (sort_by_Permutation VersionVector.From Z.ltb). apply Missing_origins_NoDup.
Qed.

Lemma length_encode_range r :
  is_u64 (VersionVector.From r) → strlen (encode_range r) ≤ 28.
Proof.
  intros Hf. unfold encode_range, strlen. rewrite !length_app, length_vec_to_list.
  pose proof (length_append_uvarint_le _ Hf).
  pose proof (length_append_uvarint_le _ (u64_is_u64 (VersionVector.To r - VersionVector.From r))). lia.
Qed.

Lemma Missing_wf_range v o r :
  wf_vector v → wf_vector o → r ∈ Missing v (Some o) → wf_range r.
Proof.
  intros Hv Ho (Hlt & HF & HT)%elem_of_Missing; [|done..]. unfold wf_range. rewrite HF, HT.
  pose proof (Get_u64 v (VersionVector.Origin r) Hv). pose proof (Get_u64 o (VersionVector.Origin r) Ho).
  unfold_widths. lia.
Qed.

(** One range always fits a packet, so a node that is behind asks. *)
Lemma delta_request_nonempty mine theirs area :
  wf_vector mine → wf_vector theirs → 1 ≤ MaxRangesPerRequest cfg →
  Missing mine (Some theirs) ≠ [] → delta_request cfg mine theirs area ≠ [].
Proof.
  intros Hm Ht Hc Hne. unfold delta_request.
  pose proof (sort_by_Permutation VersionVector.From Z.ltb (Missing mine (Some theirs))) as Hperm.
  fold (sort_by_from (Missing mine (Some theirs))) in Hperm.
  destruct (sort_by_from (Missing mine (Some theirs))) as [|r l] eqn:E.
  { by apply Permutation_nil in Hperm. }
  assert (∃ l', (if MaxRangesPerRequest cfg <? Z.of_nat (length (r :: l))
     then take (Z.to_nat (MaxRangesPerRequest cfg)) (r :: l) else r :: l) = r :: l') as [l' ->].
  { destruct (_ <? _); [|by eexists].
    destruct (Z.to_nat (MaxRangesPerRequest cfg)) eqn:En; [lia|]. by eexists. }
  destruct (FitRanges_spec area (r :: l') MaxControlMessage) as (k & -> & _ & _ & _ & Hmax).
  destruct k; [|done]. exfalso. specialize (Hmax 1%nat ltac:(cbn [length]; lia) ltac:(lia)).
  cbn [take] in Hmax. rewrite length_RangeReq_Encode in Hmax. cbn [mbind list_bind] in Hmax.
  rewrite app_nil_r in Hmax. assert (wf_range r) as (Hf & _).
  { apply (Missing_wf_range mine theirs); [done..|]. rewrite <- Hperm. constructor. }
  apply length_encode_range in Hf. change MaxControlMessage with 224 in Hmax. lia.
Qed.

(** The request built from a delta is well formed, whatever order it is in. *)
Lemma DecodeRangeReq_delta mine theirs area :
  wf_vector mine → wf_vector theirs →
  let rs := delta_request cfg mine theirs area in
  DecodeRangeReq (RangeReq_Encode (mkRangeReq area rs)) = Ok (mkRangeReq area (sort_ranges rs)).
Proof.
  intros Hm Ht. cbv zeta. set (rs := delta_request cfg mine theirs area).
  assert (Hnd : NoDup (range_key <$> rs)).
  { apply (NoDup_fmap_1 fst). rewrite <- list_fmap_compose. apply delta_request_NoDup. }
  pose proof (sort_by_strict range_key less_range rs Hnd) as Hs.
  apply DecodeRangeReq_spec. split; [split_and!|]; cbn [RR_Ranges RR_Area].
  - unfold sort_ranges. rewrite length_sort_by.
    destruct (delta_request_prefix mine theirs area) as (k & Ek & Hk & _).
    unfold rs, MaxRanges. rewrite Ek, length_take. lia.
  - unfold sort_ranges. rewrite (sort_by_Permutation range_key less_range). apply Forall_forall.
    intros r Hr%delta_request_missing. by apply (Missing_wf_range mine theirs).
  - done.
  - unfold RangeReq_Encode, sort_ranges. cbn [RR_Ranges RR_Area].
    by rewrite (sort_by_id range_key less_range _ Hs).
Qed.

(** ** Rounds of reconciliation with one peer *)

(** What a node holds of an area after the records it asked for arrive. *)
Definition round (area : AreaTag) (theirs v : Vector) : Vector :=
  fill v (delta_request cfg v theirs area).

Lemma round_Get area theirs v k :
  wf_vector v → wf_vector theirs →
  (Get (round area theirs v) k = Get theirs k ∧ Get v k < Get theirs k ∧
     k ∈ VersionVector.Origin <$> delta_request cfg v theirs area) ∨
  (Get (round area theirs v) k = Get v k ∧
     k ∉ VersionVector.Origin <$> delta_request cfg v theirs area).
Proof.
  intros Hv Ht. unfold round. rewrite fill_Get by apply delta_request_NoDup.
  destruct (list_find _ _) as [[i r]|] eqn:E.
  - left. apply list_find_Some in E as (Hr & <- & _). apply list_elem_of_lookup_2 in Hr.
    pose proof (delta_request_missing _ _ _ _ Hr) as (Hlt & _ & ->)%elem_of_Missing; [|done..].
    split_and!; [lia|done|by apply list_elem_of_fmap_2].
  - right. split; [done|]. intros (r & -> & Hr)%list_elem_of_fmap.
    apply list_find_None in E. rewrite Forall_forall in E. by apply (E r).
Qed.

Lemma reconcile_round_wf area theirs v : wf_vector v → wf_vector theirs → wf_vector (round area theirs v).
Proof.
  intros Hv Ht. unfold round, fill.
  assert (Hall : Forall (λ r, is_u64 (VersionVector.To r)) (delta_request cfg v theirs area)).
  { apply Forall_forall. intros r Hr%delta_request_missing. by apply (Missing_wf_range v theirs). }
  clear Ht. revert v Hv Hall. generalize (delta_request cfg). intros dr v Hv.
  generalize (dr v theirs area). intros l. revert v Hv.
  induction l as [|r l IH]; intros v Hv Hall; [done|]. apply Forall_cons in Hall as [Hr Hall].
  cbn [foldl]. apply IH; [|done]. unfold Set_. case_match; [|done]. by apply map_Forall_insert_2.
Qed.

Lemma round_Merged area theirs v :
  wf_vector v → wf_vector theirs → Merged (round area theirs v) theirs ≡ Merged v theirs.
Proof.
  intros Hv Ht k. unfold Merged, Clone. rewrite !Merge_Get by auto using reconcile_round_wf.
  destruct (round_Get area theirs v k Hv Ht) as [(-> & ? & _)|[-> _]]; lia.
Qed.

Lemma length_lt_missing_one {A : Type} (l l' : list A) x :
  NoDup l' → (∀ y, y ∈ l' → y ∈ l) → x ∈ l → x ∉ l' → (length l' < length l)%nat.
Proof.
  intros Hnd Hsub Hx Hx'. assert (x :: l' ⊆+ l) as H%submseteq_length; [|cbn in H; lia].
  apply NoDup_submseteq; [by constructor|]. intros y [->|Hy]%elem_of_cons; auto.
Qed.

Lemma round_progress area theirs v :
  wf_vector v → wf_vector theirs → 1 ≤ MaxRangesPerRequest cfg →
  Missing v (Some theirs) ≠ [] →
  (length (Missing (round area theirs v) (Some theirs)) < length (Missing v (Some theirs)))%nat.
Proof.
  intros Hv Ht Hc Hne. pose proof (reconcile_round_wf area theirs v Hv Ht) as Hw.
  rewrite <- !(length_fmap VersionVector.Origin (Missing _ _)).
  destruct (delta_request cfg v theirs area) as [|r l] eqn:E.
  { by apply delta_request_nonempty in E. }
  apply (length_lt_missing_one _ _ (VersionVector.Origin r)).
  - apply Missing_origins_NoDup.
  - intros k (r' & -> & (Hlt & _ & _)%elem_of_Missing)%list_elem_of_fmap; [|done..].
    set (k := VersionVector.Origin r') in *. apply list_elem_of_fmap.
    exists (mkRange k (Get v k + 1) (Get theirs k)). split; [done|].
    apply elem_of_Missing; [done..|]. cbn. split_and!; [|done..].
    destruct (round_Get area theirs v k Hv Ht) as [(? & ? & _)|[? _]]; lia.
  - apply list_elem_of_fmap_2, (delta_request_missing v theirs area). rewrite E. constructor.
  - intros (r' & Hk & (Hlt & _ & _)%elem_of_Missing)%list_elem_of_fmap; [|done..].
    rewrite <- Hk in Hlt.
    destruct (round_Get area theirs v (VersionVector.Origin r) Hv Ht) as [(? & _ & _)|[_ Hn]]; [lia|].
    apply Hn. rewrite E. constructor.
Qed.

Lemma Missing_nil_Merged v theirs :
  wf_vector v → wf_vector theirs → Missing v (Some theirs) = [] → v ≡ Merged v theirs.
Proof.
  intros Hv Ht E k. unfold Merged, Clone. rewrite Merge_Get by done.
  destruct (decide (Get v k < Get theirs k)) as [Hlt|]; [|lia].
  assert (mkRange k (Get v k + 1) (Get theirs k) ∈ Missing v (Some theirs)) as Hin
    by (by apply elem_of_Missing).
  rewrite E in Hin. by apply elem_of_nil in Hin.
Qed.

End delta.

(** ** Reachable engine states *)

Section invariant.
Context {S SE O OE R : Type} `{HB : Blake3, HS : Store S SE, HO : Outbox O OE, HR : Rng R}.
Context (self : NodeID) (cfg : Config).

Abbreviation engine := (Engine S O R).
Abbreviation M := (GossipEngine.M (S:=S) (SE:=SE) (O:=O) (OE:=OE) (R:=R)).

Definition ask_key (a : pendingAsk) : NodeID * AreaTag := (ask_peer a, ask_area a).

Definition wf_peer (id : NodeID) (p : peerState) : Prop :=
  p_id p = id ∧ is_u8 (dictionary p) ∧
  map_Forall (λ _ w, is_u16 (want w)) (awaiting p) ∧
  map_Forall (λ t a, Tag a = t ∧ is_u16 (Count_ a)) (lastDigest p).

Definition wf_engine (e : engine) : Prop :=
  NoDup (ask_key <$> pending e) ∧ map_Forall wf_peer (peers e).

(** Both halves of the invariant only look at [pending] and [peers]. *)
Definition same_view (e e' : engine) : Prop := pending e = pending e' ∧ peers e = peers e'.

Lemma wf_same_view e e' : same_view e e' → wf_engine e → wf_engine e'.
Proof. unfold wf_engine. by intros [-> ->]. Qed.

Lemma wf_set_peer id f e :
  (∀ p, wf_peer id p → wf_peer id (f p)) → wf_engine e → wf_engine (set_peer id f e).
Proof.
  intros Hf [Hn Hp]. split; [done|]. intros k p. cbn. rewrite lookup_alter.
  case_decide as E; [|apply Hp]. subst k.
  destruct (peers e !! id) as [q|] eqn:Eq; [|done]. intros [= <-]. apply Hf, Hp, Eq.
Qed.

Lemma wf_scheduleAsk now peer area h e :
  wf_engine e → wf_engine (scheduleAsk cfg now peer area h e).
Proof.
  intros [Hn Hp]. unfold scheduleAsk. destruct (existsb _ _) eqn:E; [done|].
  destruct (if 0 <? RequestDelay cfg then _ else _) as [d r]. split; [|done]. cbn.
  rewrite fmap_app. apply NoDup_app. split_and!; [done| |apply NoDup_singleton].
  intros k (a & -> & Ha)%list_elem_of_fmap Hk. cbn in Hk. apply list_elem_of_singleton in Hk.
  injection Hk as Hk1 Hk2. apply not_true_iff_false in E. apply E, existsb_exists. exists a.
  split; [by apply list_elem_of_In|]. unfold asks. by rewrite !bool_decide_eq_true_2.
Qed.

Lemma wf_noteDelivery landed e : wf_engine e → wf_engine (noteDelivery landed e).
Proof.
  apply wf_same_view. unfold noteDelivery. destruct landed; by destruct (negb _).
Qed.

Lemma wf_settleAwaited id a e : wf_engine e → wf_engine (settleAwaited id a e).
Proof.
  intros He. unfold settleAwaited. destruct (_ ≫= _); [|done].
  apply wf_noteDelivery, wf_set_peer; [|done]. intros p (? & ? & Ha & ?). split_and!; [done..| |done].
  by apply map_Forall_delete.
Qed.

Lemma wf_await now area added id p :
  0 < added → wf_peer id p → wf_peer id (await area added now p).
Proof.
  intros Hadd (Hid & Hd & Ha & Hl). unfold await. destruct (lastDigest p !! area) as [l|] eqn:E; [|done].
  apply Hl in E as [_ Hc]. unfold maxSaturatedCount.
  destruct (Z.leb_spec 0xFFFF (Count_ l)); [done|]. split_and!; [done..| |done].
  apply map_Forall_insert_2; [|done]. cbn. destruct (Z.ltb_spec 0xFFFF (Count_ l + added)); widths.
Qed.

Lemma wf_noteAwaited now area added e : wf_engine e → wf_engine (noteAwaited now area added e).
Proof.
  intros [Hn Hp]. unfold noteAwaited. destruct (Z.leb_spec added 0); [done|].
  split; [done|]. intros k p. cbn. rewrite lookup_fmap.
  destruct (peers e !! k) as [q|] eqn:E; [|done]. intros [= <-]. apply wf_await; [lia|by apply Hp].
Qed.

Lemma wf_hear now from e : wf_engine e → wf_engine (hear now from e).
Proof.
  intros [Hn Hp]. unfold hear. destruct (peers e !! from) as [q|] eqn:E;
    (split; [done|]; apply map_Forall_insert_2; [|done]).
  - by apply Hp in E.
  - split_and!; [done|cbn; widths|apply map_Forall_empty..].
Qed.

Lemma wf_on_area now from a acc :
  is_u16 (Count_ a) → wf_engine acc.2 → wf_engine (on_area cfg now from a acc).2.
Proof.
  destruct acc as [[s m] e]. cbn [snd]. intros Ha He. unfold on_area.
  assert (Hw : wf_engine (set_peer from (λ p, mkPeerState (p_id p) (lastHeard p)
    (<[Tag a := a]> (lastDigest p)) (vectors p) (awaiting p) (dictionary p) (dictKnown p))
    (settleAwaited from a e))).
  { apply wf_set_peer; [|by apply wf_settleAwaited]. intros p (? & ? & ? & Hl).
    split_and!; [done..|]. by apply map_Forall_insert_2. }
  repeat case_match; cbn [snd]; auto using wf_scheduleAsk.
Qed.

Lemma wf_on_areas now from l acc :
  Forall (λ a, is_u16 (Count_ a)) l → wf_engine acc.2 →
  wf_engine (foldl (λ acc a, on_area cfg now from a acc) acc l).2.
Proof.
  intros Hl. revert acc. induction Hl as [|a l Ha Hl IH]; intros acc He; [done|].
  cbn [foldl]. by apply IH, wf_on_area.
Qed.

(** *** Handlers keep the invariant, whatever they return *)

Definition preserves {A : Type} (m : M A) : Prop :=
  ∀ e, wf_engine e → wf_engine (m e).2.

Lemma preserves_ret {A : Type} (a : A) : preserves (mret a).
Proof. by intros e He. Qed.
Lemma preserves_bind {A B : Type} (m : M A) (f : A → M B) :
  preserves m → (∀ a, preserves (f a)) → preserves (m ≫= f).
Proof.
  intros Hm Hf e He. unfold mbind, M_bind. specialize (Hm e He).
  destruct (m e) as [[a|x] e']; cbn in *; [by apply Hf|done].
Qed.
Lemma preserves_modify f : (∀ e, wf_engine e → wf_engine (f e)) → preserves (modify f).
Proof. intros Hf e He. by apply Hf. Qed.
Lemma preserves_wire {A : Type} (r : result gossip_error A) : preserves (wire r).
Proof. by intros e He. Qed.
Lemma preserves_get : preserves get.
Proof. by intros e He. Qed.
Lemma preserves_send_message to p : preserves (send_message to p).
Proof. intros e He. unfold send_message. by destruct (SendMessage _ _ _). Qed.
Lemma preserves_send_records a rs : preserves (send_records a rs).
Proof. intros e He. unfold send_records. by destruct (SendRecords _ _ _). Qed.
Lemma preserves_count k n : preserves (modify (count k n)).
Proof. by apply preserves_modify. Qed.
Lemma preserves_if {A : Type} (b : bool) (m1 m2 : M A) :
  preserves m1 → preserves m2 → preserves (if b then m1 else m2).
Proof. by destruct b. Qed.
Lemma preserves_decide {A : Type} (P : Prop) `{Decision P} (m1 m2 : M A) :
  preserves m1 → preserves m2 → preserves (if decide P then m1 else m2).
Proof. by case_decide. Qed.

Ltac preserve :=
  repeat lazymatch goal with
  | |- preserves (mret _) => apply preserves_ret
  | |- preserves (wire _) => apply preserves_wire
  | |- preserves get => apply preserves_get
  | |- preserves (send_message _ _) => apply preserves_send_message
  | |- preserves (send_records _ _) => apply preserves_send_records
  | |- preserves (modify (count _ _)) => apply preserves_count
  | |- preserves (if decide _ then _ else _) => apply preserves_decide
  | |- preserves (if _ then _ else _) => apply preserves_if
  | |- preserves (let _ := _ in _) => cbv zeta
  | |- preserves (mbind _ _) => apply preserves_bind; [|intros ?]
  end.

Lemma preserves_piggyback now f :
  preserves (modify (λ e : engine, NotePiggybacked cfg now (f e) e)).
Proof.
  apply preserves_modify. intros e. apply wf_same_view. unfold NotePiggybacked.
  by destruct (NoteTransmitted _ _ _ _ _ _).
Qed.

Lemma preserves_push now area recs : preserves (push cfg now area recs).
Proof.
  unfold push. preserve; [apply preserves_modify; intros; by apply wf_noteAwaited|].
  apply preserves_piggyback.
Qed.

Lemma preserves_answer_vectors from tags : preserves (answer_vectors from tags).
Proof. induction tags as [|t tags IH]; cbn [answer_vectors]; preserve; apply IH. Qed.

Lemma preserves_onDigest now from payload : preserves (onDigest cfg now from payload).
Proof.
  intros e He. unfold onDigest, mbind, M_bind, wire.
  destruct (DecodeDigest payload) as [d|x] eqn:Hd; [|done]. cbn.
  apply DecodeDigest_spec in Hd as [(_ & Hu & _) _].
  match goal with |- context [foldl ?f ?a ?l] => pose proof (wf_on_areas now from l a Hu) as Hw;
    destruct (foldl f a l) as [[s m] e'] end. cbn in *.
  apply (wf_same_view e'); [done|]. apply Hw. apply wf_set_peer; [|done].
  intros p (? & ? & ? & ?). split_and!; try done. apply b2z_range.
Qed.

Lemma preserves_Receive now from payload : preserves (Receive self cfg now from payload).
Proof.
  unfold Receive. preserve.
  - apply preserves_modify. intros; by apply wf_hear.
  - apply preserves_onDigest.
  - unfold onVectorReq. preserve. apply preserves_answer_vectors.
  - unfold onVector. preserve. apply preserves_modify. intros e' ?. apply wf_set_peer; [|done].
    by intros p (? & ? & ? & ?).
  - unfold onRangeReq. preserve. apply preserves_push.
  - by intros e He.
Qed.

Lemma preserves_Publish now area recs : preserves (Publish cfg now area recs).
Proof.
  unfold Publish. preserve; [|apply preserves_push].
  intros e He. unfold apply_store. by destruct (st_Apply _ _ _) as [[? ?] ?].
Qed.

Lemma preserves_ApplyRecords area recs : preserves (ApplyRecords area recs).
Proof. intros e He. unfold ApplyRecords. by destruct (st_Apply _ _ _) as [[? ?] ?]. Qed.

(** *** [firePending] *)

Lemma fire_loop_sublist now original keep todo (e : engine) u (e' : engine) :
  fire_loop (SE:=SE) now original keep todo e = (Ok u, e') →
  ∃ l, pending e' = keep ++ l ∧ l `sublist_of` todo ∧ peers e' = peers e.
Proof.
  revert keep e. induction todo as [|ask todo IH]; intros keep e; cbn [fire_loop].
  { intros [= _ <-]. exists []. by rewrite app_nil_r. }
  assert (Hkeep : ∀ e1 : engine, peers e1 = peers e → fire_loop (SE:=SE) now original (keep ++ [ask]) todo e1 = (Ok u, e') →
    ∃ l, pending e' = keep ++ l ∧ l `sublist_of` ask :: todo ∧ peers e' = peers e).
  { intros e1 E (l & -> & Hl & Hp)%IH. exists (ask :: l). rewrite <- app_assoc.
    split_and!; [done|by constructor|congruence]. }
  assert (Hskip : ∀ e1 : engine, peers e1 = peers e → fire_loop (SE:=SE) now original keep todo e1 = (Ok u, e') →
    ∃ l, pending e' = keep ++ l ∧ l `sublist_of` ask :: todo ∧ peers e' = peers e).
  { intros e1 E (l & -> & Hl & Hp)%IH. exists l. split_and!; [done|by constructor|congruence]. }
  destruct (now <? ask_at ask); [by apply Hkeep|].
  unfold mbind, M_bind, get, modify, send_message. case_decide; [by apply Hskip|].
  destruct (negb _); [by apply Hkeep|].
  destruct (SendMessage _ _ _) as [o [x|]]; cbn; [done|]. by apply Hskip.
Qed.

Lemma firePending_wf now e u e' :
  wf_engine e → firePending now e = (Ok u, e') → wf_engine e'.
Proof.
  intros [Hn Hp]. unfold firePending, mbind, M_bind, get.
  destruct (pending e) as [|a l] eqn:E; [by intros [= _ <-]; split; [rewrite E|]|].
  intros (l' & El & Hl & Ep)%fire_loop_sublist. unfold wf_engine. rewrite El, Ep. split; [|done].
  cbn. eapply sublist_NoDup; [apply Hn|by apply fmap_sublist].
Qed.

Lemma preserves_mark_sent now n : preserves (modify (mark_sent cfg now n)).
Proof.
  apply preserves_modify. intros e. apply wf_same_view. unfold mark_sent.
  by destruct (MarkSent _ _ _ _ _ _).
Qed.

Lemma preserves_beat now : preserves (beat cfg now).
Proof.
  unfold beat. preserve. destruct (Due _ _ _ _ _) as [[b s] r].
  preserve; [by apply preserves_modify|apply preserves_mark_sent..].
Qed.

Lemma Tick_wf now e u e' : wf_engine e → Tick cfg now e = (Ok u, e') → wf_engine e'.
Proof.
  intros He. unfold Tick, mbind, M_bind.
  destruct (firePending now e) as [[u1|x] e1] eqn:E1; [|done].
  apply firePending_wf in E1; [|done]. intros H.
  pose proof (preserves_beat now e1 E1) as Hw. by rewrite H in Hw.
Qed.

(** One operation of the engine. A [Tick] that fails is not among them: see
    [firePending_error_duplicates] in Witness. *)
Inductive step : engine → engine → Prop :=
| step_tick now e e' : Tick cfg now e = (Ok tt, e') → step e e'
| step_receive now from payload e : step e (Receive self cfg now from payload e).2
| step_publish now area recs e : step e (Publish cfg now area recs e).2
| step_apply area recs e : step e (ApplyRecords (SE:=SE) (OE:=OE) area recs e).2.

(** In every state the engine reaches, no peer has two asks queued for one
    area, every peer is filed under its own ID, and every count awaited or last
    heard fits the 16-bit field it is compared with. *)
Theorem reachable_wf s o r now e :
  rtc step (New cfg s o r now) e → wf_engine e.
Proof.
  intros Hr. assert (H0 : wf_engine (New cfg s o r now)).
  { unfold New. destruct (NewScheduler _ _ _ _) as [sc r']. split; [constructor|apply map_Forall_empty]. }
  revert H0. induction Hr as [|x y z Hs _ IH]; [done|]. intros Hx. apply IH. clear IH.
  destruct Hs as [now' e e' Ht| | |].
  - by eapply Tick_wf.
  - by apply preserves_Receive.
  - by apply preserves_Publish.
  - by apply preserves_ApplyRecords.
Qed.
End invariant.

(** ** What goes on the air *)

Section emissions.
Context {S SE O OE R : Type} `{HB : Blake3, HS : Store S SE, HO : Outbox O OE, HR : Rng R,
  HL : !OutboxLog O OE}.
Context (self : NodeID) (cfg : Config).

Abbreviation engine := (Engine S O R).
Abbreviation M := (GossipEngine.M (S:=S) (SE:=SE) (O:=O) (OE:=OE) (R:=R)).

Definition log_of (e : engine) : list emission := sent_log (out e).

(** *** The suppression window *)

Inductive fate := Kept | Dropped | Asked.

Definition answered (s : S) (a : pendingAsk) : Prop :=
  VersionVector.Hash (st_Vector s (ask_area a)) = wantHash a.

(** What may happen to an ask at time [now]. *)
Definition fate_ok (s : S) (now : Z) (a : pendingAsk) (f : fate) : Prop :=
  match f with
  | Kept => now < ask_at a ∨ ¬ answered s a
  | Dropped => ask_at a ≤ now ∧ answered s a
  | Asked => ask_at a ≤ now ∧ ¬ answered s a
  end.

Fixpoint kept (l : list pendingAsk) (fs : list fate) : list pendingAsk :=
  match l, fs with
  | a :: l', Kept :: fs' => a :: kept l' fs'
  | _ :: l', _ :: fs' => kept l' fs'
  | _, _ => []
  end.
Fixpoint asked (l : list pendingAsk) (fs : list fate) : list emission :=
  match l, fs with
  | a :: l', Asked :: fs' => Message (ask_peer a) (VectorReq_Encode [ask_area a]) :: asked l' fs'
  | _ :: l', _ :: fs' => asked l' fs'
  | _, _ => []
  end.

Lemma fire_loop_fates now original keep todo (e : engine) u (e' : engine) :
  fire_loop (SE:=SE) now original keep todo e = (Ok u, e') →
  ∃ fs, Forall2 (fate_ok (store e) now) todo fs ∧
    pending e' = keep ++ kept todo fs ∧ log_of e' = log_of e ++ asked todo fs ∧
    store e' = store e.
Proof.
  revert keep e. induction todo as [|ask todo IH]; intros keep e; cbn [fire_loop].
  { intros [= _ <-]. exists []. rewrite !app_nil_r. split_and!; [constructor|done..]. }
  assert (Hkeep : now < ask_at ask ∨ ¬ answered (store e) ask →
    fire_loop (SE:=SE) now original (keep ++ [ask]) todo e = (Ok u, e') →
    ∃ fs, Forall2 (fate_ok (store e) now) (ask :: todo) fs ∧
      pending e' = keep ++ kept (ask :: todo) fs ∧
      log_of e' = log_of e ++ asked (ask :: todo) fs ∧ store e' = store e).
  { intros Hok (fs & Hf & -> & -> & ->)%IH. exists (Kept :: fs). rewrite <- app_assoc.
    split_and!; [by constructor|done..]. }
  destruct (Z.ltb_spec now (ask_at ask)) as [|Hdue]; [apply Hkeep; lia|].
  unfold mbind, M_bind, get, modify, send_message. case_decide as Ha.
  { intros (fs & Hf & -> & -> & ->)%IH. exists (Dropped :: fs). split_and!; [|done..]. by constructor. }
  destruct (negb _); [by apply Hkeep; right|].
  destruct (SendMessage (out e) (ask_peer ask) (VectorReq_Encode [ask_area ask])) as [o [x|]] eqn:Es;
    cbn; [done|].
  intros (fs & Hf & -> & -> & ->)%IH. exists (Asked :: fs). split_and!; [by constructor|done| |done].
  unfold log_of. cbn [out set_out count]. rewrite (sent_SendMessage _ _ _ _ Es). by rewrite <- app_assoc.
Qed.

(** When the pending asks are fired, each is kept, dropped or sent: it is sent
    only when its window has expired and the node's vector still differs from the
    one that motivated it, dropped only when they have come to agree, and kept
    otherwise; what is sent is exactly one vector request per ask sent, in order,
    and nothing is lost. *)
Theorem firePending_spec now (e : engine) u (e' : engine) :
  firePending (SE:=SE) now e = (Ok u, e') →
  ∃ fs, Forall2 (fate_ok (store e) now) (pending e) fs ∧
    pending e' = kept (pending e) fs ∧ log_of e' = log_of e ++ asked (pending e) fs ∧
    store e' = store e.
Proof.
  unfold firePending, mbind, M_bind, get.
  destruct (pending e) as [|a l] eqn:E.
  - intros [= _ <-]. exists []. rewrite E, app_nil_r. split_and!; [constructor|done..].
  - intros (fs & ? & -> & ? & ?)%fire_loop_fates. by exists fs.
Qed.

(** *** Who asks *)

Definition is_asking (peer : NodeID) (area : AreaTag) (e : engine) : bool :=
  existsb (asks peer area) (pending e).

Lemma scheduleAsk_asks now peer area h (e : engine) : is_asking peer area (scheduleAsk cfg now peer area h e) = true.
Proof.
  unfold is_asking, scheduleAsk. destruct (existsb (asks peer area) (pending e)) eqn:E; [done|].
  destruct (if 0 <? RequestDelay cfg then _ else _) as [d r]. cbn [pending set_pending].
  apply existsb_exists. eexists. split; [apply in_or_app; right; by left|].
  unfold asks. cbn. by rewrite !bool_decide_eq_true_2.
Qed.

Lemma settleAwaited_store id a (e : engine) :
  store (settleAwaited id a e) = store e ∧ pending (settleAwaited id a e) = pending e.
Proof.
  unfold settleAwaited. destruct (_ ≫= _); [|done]. unfold noteDelivery.
  destruct (_ <=? _); by destruct (negb _).
Qed.

Lemma on_area_decides now from a sh ma (e : engine) :
  federates (store e) (Tag a) = true →
  VersionVector.Hash (st_Vector (store e) (Tag a)) ≠ Hash_ a →
  (Count_ a < SaturatingCount (Count (st_Vector (store e) (Tag a))) ∧
     pending (on_area cfg now from a (sh, ma, e)).2 = pending e) ∨
  (SaturatingCount (Count (st_Vector (store e) (Tag a))) ≤ Count_ a ∧
     is_asking from (Tag a) (on_area cfg now from a (sh, ma, e)).2 = true).
Proof.
  intros Hf Hh. destruct (settleAwaited_store from a e) as [Es Ep]. unfold on_area. cbn.
  rewrite Es, Hf, andb_false_r, decide_False by done.
  destruct (Z.ltb_spec (Count_ a) (SaturatingCount (Count (st_Vector (store e) (Tag a))))); cbn.
  - left. split; [done|]. by rewrite Ep.
  - right. split; [done|]. apply scheduleAsk_asks.
Qed.

(** Two nodes whose vectors for a shared area differ in hash do not both stay
    quiet: when each has heard the other's digest entry, at least one has an ask
    queued for the other; and when one is behind in a count that has not
    saturated, the other's queue is left alone. *)
Theorem divergence_is_asked_about nowA nowB idA idB tag (eA eB : engine) s m s' m' :
  let va := st_Vector (store eA) tag in
  let vb := st_Vector (store eB) tag in
  let eA' := (on_area cfg nowA idB (AreaStateFrom tag vb) (s, m, eA)).2 in
  let eB' := (on_area cfg nowB idA (AreaStateFrom tag va) (s', m', eB)).2 in
  federates (store eA) tag = true → federates (store eB) tag = true →
  VersionVector.Hash va ≠ VersionVector.Hash vb →
  (is_asking idB tag eA' = true ∨ is_asking idA tag eB' = true) ∧
  (SaturatingCount (Count va) < SaturatingCount (Count vb) →
     is_asking idB tag eA' = true ∧ pending eB' = pending eB).
Proof.
  cbv zeta. intros HA HB' Hne.
  pose proof (on_area_decides nowA idB (AreaStateFrom tag (st_Vector (store eB) tag)) s m eA HA Hne) as H1.
  pose proof (on_area_decides nowB idA (AreaStateFrom tag (st_Vector (store eA) tag)) s' m' eB HB' (not_eq_sym Hne)) as H2.
  cbn [Tag Count_ AreaStateFrom] in H1, H2.
  destruct H1 as [[H1 ?]|[H1 ?]], H2 as [[H2 ?]|[H2 ?]]; split; try (intros; exfalso; lia); auto; lia.
Qed.

(** *** Delta requests and answers *)

Lemma peek_range_req r : PeekType (RangeReq_Encode r) = Ok MsgRangeReq.
Proof. done. Qed.

(** The request a peer's vector leads to: it is empty exactly when the node
    lacks nothing, names only what it lacks, and is one packet its receiver
    decodes. *)
Lemma delta_request_spec mine theirs area :
  wf_vector mine → wf_vector theirs → 1 ≤ MaxRangesPerRequest cfg →
  let ranges := delta_request cfg mine theirs area in
  (ranges = [] ↔ Dominates mine (Some theirs) = true) ∧
  (∀ r, r ∈ ranges → r ∈ Missing mine (Some theirs)) ∧ (length ranges ≤ 32)%nat ∧
  (ranges ≠ [] → strlen (RangeReq_Encode (mkRangeReq area ranges)) ≤ MaxControlMessage) ∧
  DecodeRangeReq (RangeReq_Encode (mkRangeReq area ranges)) = Ok (mkRangeReq area (sort_ranges ranges)).
Proof.
  intros Hm Ht Hc. cbv zeta.
  destruct (delta_request_prefix cfg mine theirs area) as (k & Ek & Hk & Hfit).
  split_and!.
  - rewrite <- Missing_nil_iff by done. split; intros H.
    + destruct (decide (Missing mine (Some theirs) = [])) as [|Hne]; [done|].
      exfalso. by apply (delta_request_nonempty cfg mine theirs area) in Hne.
    + destruct (delta_request cfg mine theirs area) as [|r l] eqn:E; [done|].
      assert (r ∈ Missing mine (Some theirs)) as Hr
        by (apply (delta_request_missing cfg mine theirs area); rewrite E; constructor).
      rewrite H in Hr. by apply elem_of_nil in Hr.
  - intros r. apply delta_request_missing.
  - rewrite Ek, length_take. lia.
  - intros Hne. apply Hfit. destruct k; [|lia]. by rewrite take_0 in Ek.
  - by apply DecodeRangeReq_delta.
Qed.

(** Hearing a peer's vector for an area. A node that does not carry the area,
    lacks nothing or has no airtime sends nothing and reports no error; otherwise
    it sends exactly one message, a range request back to that peer, or reports
    the transmitter's error. The request names only sequences the node lacks and
    the peer has, is one packet long, and the peer's decoder reads it back. *)
Theorem onVector_asks_for_what_is_missing from v area (e : engine) r e' :
  wf_vector v → Len v ≤ MaxOrigins → wf_vector (st_Vector (store e) area) →
  1 ≤ MaxRangesPerRequest cfg →
  onVector (SE:=SE) cfg from (VectorMsg_Encode (mkVectorMsg area v)) e = (r, e') →
  let ranges := delta_request cfg (st_Vector (store e) area) v area in
  (if federates (store e) area && negb (Dominates (st_Vector (store e) area) (Some v)) && CanSend (out e)
   then (r = Ok tt ∧ log_of e' = log_of e ++ [Message from (RangeReq_Encode (mkRangeReq area ranges))]) ∨
        (∃ x, r = Err (OutErr x) ∧ log_of e' = log_of e)
   else r = Ok tt ∧ log_of e' = log_of e) ∧
  (∀ x, x ∈ ranges → x ∈ Missing (st_Vector (store e) area) (Some v)) ∧
  (ranges ≠ [] → strlen (RangeReq_Encode (mkRangeReq area ranges)) ≤ MaxControlMessage) ∧
  DecodeRangeReq (RangeReq_Encode (mkRangeReq area ranges)) = Ok (mkRangeReq area (sort_ranges ranges)).
Proof.
  intros Hv Hl Hm Hc H. cbv zeta.
  destruct (delta_request_spec _ _ area Hm Hv Hc) as (Hnil & Hin & _ & Hfit & Hdec).
  split; [|done]. revert H. unfold onVector.
  assert (DecodeVectorMsg (VectorMsg_Encode (mkVectorMsg area v)) = Ok (mkVectorMsg area v)) as ->
    by (by apply DecodeVectorMsg_spec).
  unfold mbind, M_bind, wire, get, modify, wrap_err. cbn [VM_Area VM_Vector].
  destruct (federates (store e) area); cbn [negb andb]; [|by intros [= <- <-]].
  set (ranges := delta_request _ _ _ _) in *. case_decide as Hne.
  { rewrite (proj1 Hnil Hne). cbn [negb andb]. by intros [= <- <-]. }
  destruct (Dominates _ _) eqn:Hdom; [by rewrite (proj2 Hnil eq_refl) in Hne|]. cbn [negb andb].
  unfold send_message. cbn [out set_peer set_peers].
  destruct (CanSend (out e)); cbn [negb]; [|by intros [= <- <-]].
  destruct (SendMessage _ _ _) as [o [x|]] eqn:Es; intros [= <- <-].
  - right. exists x. split; [done|]. unfold log_of. cbn. by eapply sent_SendMessage_err.
  - left. split; [done|]. unfold log_of. cbn. by rewrite (sent_SendMessage _ _ _ _ Es).
Qed.

Lemma gather_spec (s : S) area ranges acc :
  Z.of_nat (length acc) ≤ MaxRecordsPerPush cfg →
  gather cfg s area ranges acc =
    take (Z.to_nat (MaxRecordsPerPush cfg)) (acc ++ (ranges ≫= st_Records s area)).
Proof.
  revert acc. induction ranges as [|rg ranges IH]; intros acc Hacc; cbn [gather].
  { cbn. rewrite app_nil_r, take_ge by lia. done. }
  set (n := Z.to_nat (MaxRecordsPerPush cfg)).
  destruct (Z.leb_spec (MaxRecordsPerPush cfg) (Z.of_nat (length acc))) as [Hfull|Hroom].
  { rewrite take_app_le by (unfold n; lia). by rewrite take_ge by (unfold n; lia). }
  change ((rg :: ranges) ≫= st_Records s area)
    with (st_Records s area rg ++ (ranges ≫= st_Records s area)).
  destruct (Z.ltb_spec (MaxRecordsPerPush cfg - Z.of_nat (length acc))
    (Z.of_nat (length (st_Records s area rg)))) as [Hlong|Hshort].
  - rewrite IH by (rewrite length_app, length_take; lia). fold n.
    rewrite <- !app_assoc, !(take_app_ge acc) by (unfold n; lia). f_equal.
    rewrite !take_app_le by (rewrite ?length_take; unfold n; lia).
    rewrite take_take. f_equal. unfold n. lia.
  - rewrite IH by (rewrite length_app; lia). by rewrite <- app_assoc.
Qed.

(** Answering a range request. Its answer is the records the store has for
    the requested ranges, in the order requested, cut at [MaxRecordsPerPush]. A
    node that does not carry the area, has none of them or has no airtime stays
    quiet and unchanged; otherwise it broadcasts exactly one bundle of exactly
    those records, or reports the transmitter's error. *)
Theorem onRangeReq_answers now from payload req (e : engine) r e' :
  DecodeRangeReq payload = Ok req → 0 ≤ MaxRecordsPerPush cfg →
  onRangeReq (SE:=SE) cfg now from payload e = (r, e') →
  let recs := take (Z.to_nat (MaxRecordsPerPush cfg))
                (RR_Ranges req ≫= st_Records (store e) (RR_Area req)) in
  if federates (store e) (RR_Area req) && negb (Z.of_nat (length recs) =? 0) && CanSend (out e)
  then (r = Ok tt ∧ log_of e' = log_of e ++ [Bundle (RR_Area req) recs]) ∨
       (∃ x, r = Err (OutErr x) ∧ log_of e' = log_of e)
  else r = Ok tt ∧ e' = e.
Proof.
  intros Hd Hc. cbv zeta. unfold onRangeReq. rewrite Hd. unfold mbind, M_bind, wire, get. cbn [wrap_err].
  destruct (federates (store e) (RR_Area req)); cbn [negb andb]; [|by intros [= <- <-]].
  rewrite gather_spec by (cbn; lia). cbn [app].
  set (recs := take _ _). case_decide as Hne; [rewrite Hne; by intros [= <- <-]|].
  destruct (Z.eqb_spec (Z.of_nat (length recs)) 0) as [E|_]; [by destruct recs|]. cbn [negb andb].
  destruct (CanSend (out e)); cbn [negb]; [|by intros [= <- <-]].
  unfold push, mbind, M_bind, send_records, modify.
  destruct (SendRecords _ _ _) as [o [x|]] eqn:Es; intros [= <- <-].
  - right. exists x. split; [done|]. unfold log_of. cbn. by eapply sent_SendRecords_err.
  - left. split; [done|]. unfold log_of, NotePiggybacked, noteAwaited.
    destruct (NoteTransmitted _ _ _ _ _ _) as [sc r0]. cbn. rewrite <- (sent_SendRecords _ _ _ _ Es).
    by destruct (_ <=? 0).
Qed.
End emissions.
