(* ===== verification/Fountain.v ===== *)
(** * Fountain symbols and masks (internal/fountain/fountain.go)

    The symbol header codec, and the derivation of a repair symbol's mask from
    (sender, bundle, index) with BLAKE3 in counter mode. *)

From S2P Require Import Prelude Binary Identity.

Definition HeaderSize : nat := 8.
Definition MaxK : Z := 64.
Definition MaxSymbolSize : Z := 1400.

Record Symbol := mkSymbol {
  BundleID : Z;  (* uint32 *)
  Index : Z;     (* uint16 *)
  K : Z;         (* uint8 *)
  Data : bytes
}.

#[export] Instance Symbol_eq_dec : EqDecision Symbol.
Proof. solve_decision. Defined.

Inductive fountain_error :=
| ErrTruncated
| UnsupportedSymbolVersion (v : Z)
| ReservedBits (r : Z)
| ErrSymbolSize
| ErrBadK (k : Z)
| ErrMismatched
| ErrNotDecoded
| ImpossibleLength (n : Z).

#[export] Instance fountain_error_eq_dec : EqDecision fountain_error.
Proof. solve_decision. Defined.

Definition Symbol_Encode (s : Symbol) : bytes :=
  [z2b (Z.shiftl 1 6)] ++ be_bytes 4 (BundleID s) ++
  [z2b (Z.land (Index s) 0xff); z2b (K s); z2b (Z.shiftr (Index s) 8)] ++ Data s.

Definition DecodeSymbol (b : bytes) : result fountain_error Symbol :=
  '(hd, payload) ← take_n ErrTruncated HeaderSize b;
  let at_ i := b2z (nth i hd Byte.x00) in
  let version := Z.shiftr (at_ 0%nat) 6 in
  _ ← require (version =? 1) (UnsupportedSymbolVersion version);
  let reserved := Z.land (at_ 0%nat) 0x3f in
  _ ← require (reserved =? 0) (ReservedBits reserved);
  _ ← require (negb (bool_decide (payload = [])) && (strlen payload <=? MaxSymbolSize)) ErrSymbolSize;
  let k := at_ 6%nat in
  _ ← require (negb (k =? 0) && (k <=? MaxK)) (ErrBadK k);
  Ok (mkSymbol (be_val (take 4 (drop 1 hd)))
        (Z.lor (at_ 5%nat) (Z.shiftl (at_ 7%nat) 8)) k payload).

(** ** Masks *)

Section masks.
Context `{Blake3}.

(** The counter-mode generator: the next counter and the unread pool. *)
Definition prng : Type := Z * bytes.

Definition next_u32 (seed : bytes) (g : prng) : Z * prng :=
  let '(counter, pool) := g in
  let '(counter, pool) :=
    if decide (length pool < 4)%nat
    then (u32 (counter + 1), vec_to_list (blake3_sum256 (seed ++ be_bytes 4 counter)))
    else (counter, pool) in
  (be_val (take 4 pool), (counter, drop 4 pool)).

(** Bits [0..n) of [bits]. *)
Definition batch (n : nat) (bits : Z) : list bool := (λ j, Z.testbit bits (Z.of_nat j)) <$> seq 0 n.

(** [for i := 0; i < k; i += 32], [left] symbols still to draw for. *)
Fixpoint mask_loop (fuel : nat) (seed : bytes) (left : nat) (g : prng) : list bool * prng :=
  match fuel with
  | O => ([], g)
  | S fuel' =>
      if decide (left = 0)%nat then ([], g)
      else
        let '(bits, g) := next_u32 seed g in
        let n := Nat.min 32 left in
        let '(rest, g) := mask_loop fuel' seed (left - n) g in
        (batch n bits ++ rest, g)
  end.

Definition mask_seed (sender : NodeID) (bundleID index : Z) : bytes :=
  vec_to_list (blake3_sum256 (vec_to_list sender ++ be_bytes 4 bundleID ++ be_bytes 2 index)).

Definition mask (sender : NodeID) (bundleID index : Z) (k : nat) : list bool :=
  let seed := mask_seed sender bundleID index in
  if decide (k = 1)%nat then [true]
  else
    let '(out, g) := mask_loop k seed k (0, []) in
    if existsb (λ x, x) out then out
    else
      let '(v, _) := next_u32 seed g in
      <[Z.to_nat (v mod Z.of_nat k) := true]> out.

Definition Mask := mask.

Lemma length_batch n bits : length (batch n bits) = n.
Proof. unfold batch. by rewrite length_fmap, length_seq. Qed.

Lemma length_mask_loop fuel seed left g :
  (left ≤ fuel)%nat → length (mask_loop fuel seed left g).1 = left.
Proof.
  revert left g. induction fuel as [|fuel IH]; intros left g Hl; cbn [mask_loop]; [cbn; lia|].
  case_decide as E; [by rewrite E|]. destruct (next_u32 seed g) as [bits g'].
  specialize (IH (left - Nat.min 32 left)%nat g' ltac:(lia)).
  destruct (mask_loop _ _ _ _) as [rest g'']. cbn [fst] in *. rewrite length_app, length_batch. lia.
Qed.

Lemma length_mask sender bid idx k : length (mask sender bid idx k) = k.
Proof.
  unfold mask. case_decide as E; [by rewrite E|].
  pose proof (length_mask_loop k (mask_seed sender bid idx) k (0, []) ltac:(lia)) as Hl.
  destruct (mask_loop _ _ _ _) as [out g]. cbn in Hl. destruct (existsb _ _); [done|].
  destruct (next_u32 _ _). by rewrite length_insert.
Qed.

(** A mask has one entry per source symbol and always at least one member, so
    no repair symbol is wasted on the all-zero combination. *)
Theorem mask_nonzero sender bid idx k :
  (0 < k)%nat → length (mask sender bid idx k) = k ∧ true ∈ mask sender bid idx k.
Proof.
  intros Hk. split; [apply length_mask|]. unfold mask. case_decide as E; [by left|].
  pose proof (length_mask_loop k (mask_seed sender bid idx) k (0, []) ltac:(lia)) as Hl.
  destruct (mask_loop _ _ _ _) as [out g]. cbn in Hl. destruct (existsb _ out) eqn:Ex.
  - apply existsb_exists in Ex as (x & Hx & ->). by apply list_elem_of_In.
  - destruct (next_u32 _ _) as [v g']. apply list_elem_of_lookup_2 with (Z.to_nat (v mod Z.of_nat k)).
    apply list_lookup_insert_eq. rewrite Hl.
    pose proof (Z.mod_pos_bound v (Z.of_nat k) ltac:(lia)). lia.
Qed.
End masks.

(** ** The symbol codec *)

Definition wf_symbol (s : Symbol) : Prop :=
  is_u32 (BundleID s) ∧ is_u16 (Index s) ∧ 1 ≤ K s ≤ MaxK ∧
  Data s ≠ [] ∧ strlen (Data s) ≤ MaxSymbolSize.

Lemma index_split i : is_u16 i →
  b2z (z2b (Z.land i 0xff)) = i mod 256 ∧ b2z (z2b (Z.shiftr i 8)) = i / 256.
Proof.
  intros Hi. change 0xff with (Z.ones 8). rewrite Z.land_ones, Z.shiftr_div_pow2 by lia.
  change (2 ^ 8) with 256. rewrite !b2z_z2b_small; [done| |apply Z.mod_pos_bound; lia].
  split; [apply Z.div_pos; widths|apply Z.div_lt_upper_bound; widths].
Qed.

Lemma index_join lo hi : 0 ≤ lo < 256 → 0 ≤ hi < 256 →
  Z.lor lo (Z.shiftl hi 8) = hi * 256 + lo.
Proof. intros. rewrite Z.lor_comm, lor_shiftl_add by lia. done. Qed.

Lemma header_byte0 c :
  Z.shiftr (b2z c) 6 = 1 → Z.land (b2z c) 0x3f = 0 → c = z2b (Z.shiftl 1 6).
Proof.
  intros H1 H2. apply b2z_inj. change 0x3f with (Z.ones 6) in H2.
  rewrite Z.land_ones in H2 by lia. rewrite Z.shiftr_div_pow2 in H1 by lia.
  pose proof (Z.div_mod (b2z c) (2 ^ 6) ltac:(lia)). rewrite H1, H2 in *. done.
Qed.

Lemma DecodeSymbol_spec b s : DecodeSymbol b = Ok s ↔ wf_symbol s ∧ Symbol_Encode s = b.
Proof.
  unfold DecodeSymbol, HeaderSize. split.
  - intros ([hd payload] & [-> Hlen]%take_n_Ok & H)%bind_Ok.
    do 8 (destruct hd as [|? hd]; [done|]). destruct hd; [|done]. cbn [nth take drop] in H.
    apply bind_unit_Ok in H as [Hv%require_Ok%Z.eqb_eq H].
    apply bind_unit_Ok in H as [Hr%require_Ok%Z.eqb_eq H].
    apply bind_unit_Ok in H as [Hp%require_Ok H]. apply andb_true_iff in Hp as [Hp1%negb_true_iff Hp2%Z.leb_le].
    apply bool_decide_eq_false in Hp1.
    apply bind_unit_Ok in H as [Hk%require_Ok H]. apply andb_true_iff in Hk as [Hk1%negb_true_iff%Z.eqb_neq Hk2%Z.leb_le].
    injection H as <-.
    rewrite index_join by apply b2z_range.
    match goal with |- context [mkSymbol (be_val ?l) (b2z ?h * 256 + b2z ?lo) (b2z ?k) _] =>
      pose proof (be_val_range_len l 4 eq_refl) as Hbv; pose proof (b2z_range h); pose proof (b2z_range lo);
      pose proof (b2z_range k); assert (Hi : is_u16 (b2z h * 256 + b2z lo)) by widths;
      pose proof (be_bytes_be_val_len 4 l eq_refl) as Hbe end.
    split.
    + split_and!; cbn; try done; lia.
    + unfold Symbol_Encode. cbn [BundleID Index K Data].
      rewrite Hbe. destruct (index_split _ Hi) as [Hlo Hhi].
      rewrite (header_byte0 _ Hv Hr) at 1. cbn [app]. rewrite z2b_b2z.
      do 6 f_equal; [apply b2z_inj; rewrite Hlo|f_equal; f_equal; apply b2z_inj; rewrite Hhi].
      * rewrite Z.add_comm, Z.mod_add by lia. by apply Z.mod_small.
      * rewrite Z.div_add_l by lia. rewrite Z.div_small by lia. lia.
  - intros [(Hb & Hi & Hk & Hne & Hlen) <-]. unfold Symbol_Encode. rewrite !app_assoc.
    run (apply take_n_app; by rewrite !length_app, length_be_bytes).
    destruct (be_bytes 4 (BundleID s)) as [|c1 [|c2 [|c3 [|c4 [|]]]]] eqn:Ebe;
      pose proof (length_be_bytes 4 (BundleID s)) as Hl; rewrite Ebe in Hl; try done.
    cbn [app nth take drop]. destruct (index_split _ Hi) as [Hlo Hhi].
    run done. run done.
    run (apply require_Ok; rewrite bool_decide_eq_false_2 by done; by apply Z.leb_le).
    unfold MaxK in Hk. rewrite (b2z_z2b_small (K s)) by lia.
    run (apply require_Ok, andb_true_iff; split; [apply negb_true_iff, Z.eqb_neq; lia|apply Z.leb_le; unfold MaxK; lia]).
    rewrite <- Ebe, be_val_be_bytes_id by done. rewrite Hlo, Hhi, index_join.
    + rewrite Z.add_comm, (Z.mul_comm _ 256), Z.add_comm, <- Z.div_mod by lia. by destruct s.
    + apply Z.mod_pos_bound. lia.
    + split; [apply Z.div_pos; widths|apply Z.div_lt_upper_bound; widths].
Qed.

(** A symbol is accepted exactly when it is the encoding of what it is read
    as: version 1, no reserved bit set, K between 1 and 64, and a payload the
    link can carry. One symbol, one wire form. *)
Theorem DecodeSymbol_iff b s : DecodeSymbol b = Ok s ↔ wf_symbol s ∧ Symbol_Encode s = b.
Proof. apply DecodeSymbol_spec. Qed.
