(* ===== verification/FountainCodec.v ===== *)
(** * The fountain encoder and decoder (internal/fountain/codec.go)

    [NewEncoder] and [Symbol_] on one side, [NewDecoder], [Add] and [Payload] on
    the other, with [trySolve]'s Gauss-Jordan elimination over GF(2) written out.
    The elimination is shown sound (what it solves is the block) and complete (it
    fails only when the equations gathered fit two different blocks). *)

From S2P Require Import Prelude Binary Identity Float64 Fountain.
From Stdlib Require Import Floats.SpecFloat.

(** [xorInto] and [xorBytes] *)
Definition xor_byte (a b : byte) : byte := z2b (Z.lxor (b2z a) (b2z b)).
Definition xorBytes (dst src : bytes) : bytes := zip_with xor_byte dst src.
Definition xorInto (dst src : list bool) : list bool := zip_with xorb dst src.

Definition zeros (n : nat) : bytes := replicate n Byte.x00.

(** ** The encoder *)

Record Encoder := mkEncoder {
  e_sender : NodeID;
  e_bundleID : Z;
  e_k : nat;
  e_symSize : nat;
  source : list bytes;
  e_origLen : nat
}.

(** [make([]byte, symSize)] with [copy] of the i-th slice of the payload. *)
Definition chunk (payload : bytes) (symSize i : nat) : bytes :=
  let c := take symSize (drop (i * symSize) payload) in
  c ++ zeros (symSize - length c).

Definition NewEncoder (sender : NodeID) (bundleID : Z) (payload : bytes) (symSize : Z)
    : result fountain_error Encoder :=
  _ ← require (negb ((symSize <=? 0) || (MaxSymbolSize <? symSize))) ErrSymbolSize;
  _ ← require (negb (bool_decide (payload = []))) (ErrBadK 0);
  let k := (strlen payload + symSize - 1) / symSize in
  _ ← require (negb (MaxK <? k)) (ErrBadK k);
  let sz := Z.to_nat symSize in
  Ok (mkEncoder sender bundleID (Z.to_nat k) sz (chunk payload sz <$> seq 0 (Z.to_nat k))
        (length payload)).

Section codec.
Context `{HB : Blake3}.

(** The loop of [Symbol]: XOR in the members of the mask. *)
Definition combine (sz : nat) (m : list bool) (xs : list bytes) : bytes :=
  foldl (λ acc p, if p.1 : bool then xorBytes acc p.2 else acc) (zeros sz) (zip m xs).

Definition Symbol_ (e : Encoder) (index : Z) : Symbol :=
  if index <? Z.of_nat (e_k e) then
    mkSymbol (e_bundleID e) index (Z.of_nat (e_k e)) (nth (Z.to_nat index) (source e) [])
  else
    mkSymbol (e_bundleID e) index (Z.of_nat (e_k e))
      (combine (e_symSize e) (mask (e_sender e) (e_bundleID e) index (e_k e)) (source e)).

Definition Transmission (e : Encoder) (repair : Z) : list Symbol :=
  ((λ i, Symbol_ e (u16 (Z.of_nat i))) <$> seq 0 (e_k e)) ++
  ((λ i, Symbol_ e (u16 (Z.of_nat (e_k e) + Z.of_nat i))) <$> seq 0 (Z.to_nat repair)).

(** ** The decoder *)

Record equation := mkEquation { eq_mask : list bool; eq_data : bytes }.

Record Decoder := mkDecoder {
  d_sender : NodeID;
  d_bundleID : Z;
  d_k : nat;
  d_symSize : nat;
  d_origLen : nat;
  rows : list equation;
  seen : gset Z;
  solved : list bytes;
  done_ : bool
}.

Definition NewDecoder (sender : NodeID) (bundleID k symSize origLen : Z)
    : result fountain_error Decoder :=
  _ ← require (negb ((k <=? 0) || (MaxK <? k))) (ErrBadK k);
  _ ← require (negb ((symSize <=? 0) || (MaxSymbolSize <? symSize))) ErrSymbolSize;
  _ ← require (negb ((origLen <=? 0) || (k * symSize <? origLen))) (ImpossibleLength origLen);
  Ok (mkDecoder sender bundleID (Z.to_nat k) (Z.to_nat symSize) (Z.to_nat origLen) [] ∅ [] false).

Definition bit (e : equation) (col : nat) : bool := nth col (eq_mask e) false.

(** The first row at or below [row] with a 1 in [col]. *)
Definition find_pivot (rs : list equation) (row col : nat) : option nat :=
  match list_find (λ e, bit e col = true) (drop row rs) with
  | Some (i, _) => Some (row + i)%nat
  | None => None
  end.

Definition xor_eq (a b : equation) : equation :=
  mkEquation (xorInto (eq_mask a) (eq_mask b)) (xorBytes (eq_data a) (eq_data b)).

Definition swap (rs : list equation) (i j : nat) : list equation :=
  match rs !! i, rs !! j with
  | Some a, Some b => <[j := a]> (<[i := b]> rs)
  | _, _ => rs
  end.

(** XOR the pivot row into every other row with a 1 in the column. *)
Definition clear_column (rs : list equation) (row col : nat) : list equation :=
  match rs !! row with
  | Some p => imap (λ r e, if negb (bool_decide (r = row)) && bit e col then xor_eq e p else e) rs
  | None => rs
  end.

(** [for col := 0; col < n && row < len(masks); col++]; [piv] is [pivotRow]. *)
Fixpoint eliminate (cols : list nat) (rs : list equation) (row : nat) (piv : list (option nat))
    : list equation * nat * list (option nat) :=
  match cols with
  | [] => (rs, row, piv)
  | col :: cols' =>
      if decide (row < length rs)%nat then
        match find_pivot rs row col with
        | None => eliminate cols' rs row piv
        | Some sel =>
            let rs := clear_column (swap rs row sel) row col in
            eliminate cols' rs (S row) (<[col := Some row]> piv)
        end
      else (rs, row, piv)
  end.

(** [trySolve]: the data of each column's pivot row, when every column has one. *)
Definition solve (n : nat) (rs : list equation) : option (list bytes) :=
  let '(rs, _, piv) := eliminate (seq 0 n) rs 0 (replicate n None) in
  mapM (λ p, r ← p; e ← rs !! r; Some (eq_data e)) piv.

Definition trySolve (d : Decoder) : Decoder :=
  match solve (d_k d) (rows d) with
  | None => d
  | Some xs => mkDecoder (d_sender d) (d_bundleID d) (d_k d) (d_symSize d) (d_origLen d)
                 (rows d) (seen d) xs true
  end.

Definition unit_mask (k i : nat) : list bool := <[i := true]> (replicate k false).

Definition Add (d : Decoder) (s : Symbol) : Decoder * result fountain_error bool :=
  if done_ d then (d, Ok true)
  else if negb ((BundleID s =? d_bundleID d) && (K s =? Z.of_nat (d_k d))) then (d, Err ErrMismatched)
  else if negb (strlen (Data s) =? Z.of_nat (d_symSize d)) then (d, Err ErrSymbolSize)
  else if decide (Index s ∈ seen d) then (d, Ok (done_ d))
  else
    let m := if Index s <? Z.of_nat (d_k d) then unit_mask (d_k d) (Z.to_nat (Index s))
             else mask (d_sender d) (d_bundleID d) (Index s) (d_k d) in
    let d := mkDecoder (d_sender d) (d_bundleID d) (d_k d) (d_symSize d) (d_origLen d)
               (rows d ++ [mkEquation m (Data s)]) ({[Index s]} ∪ seen d) (solved d) (done_ d) in
    let d := if decide (d_k d ≤ length (rows d))%nat then trySolve d else d in
    (d, Ok (done_ d)).

Definition Done (d : Decoder) : bool := done_ d.
Definition Received (d : Decoder) : Z := Z.of_nat (size (seen d)).

Definition Payload (d : Decoder) : result fountain_error bytes :=
  if negb (done_ d) then Err ErrNotDecoded
  else Ok (take (d_origLen d) (concat (solved d))).

(** ** Repair sizing *)

Definition epsilonPlateau : float64 := dec 34 10.
Definition epsilonFor (k : Z) : float64 :=
  if k =? 1 then f0 else if k =? 2 then dec 9 10 else if k =? 3 then of_int 2
  else if k =? 4 then dec 25 10 else epsilonPlateau.
Definition failureTarget : float64 := dec 2 100.
Definition zScore : float64 := dec 18 10.
Definition fsqrt : float64 → float64 := SFsqrt 53 1024.

(** [int(math.Ceil(x))], for values an int holds. *)
Definition ceil_int (x : float64) : Z :=
  let t := to_int64 x in if flt (of_int t) x then t + 1 else t.

Fixpoint repair_search (fuel : nat) (k n maxN : Z) (target lossRate : float64) : Z :=
  match fuel with
  | O => maxN - k
  | S fuel' =>
      if maxN <? n then maxN - k
      else
        let keep := fsub (of_int 1) lossRate in
        let mean := fmul (of_int n) keep in
        let sd := fsqrt (fmul (fmul (of_int n) lossRate) keep) in
        if fle target (fsub mean (fmul zScore sd)) then n - k
        else repair_search fuel' k (n + 1) maxN target lossRate
  end.

(** [math.Log] is an argument. *)
Definition RepairCount (Log : float64 → float64) (k : Z) (lossRate : float64) : Z :=
  if fle lossRate f0 then 1
  else
    let lossRate := if flt (dec 9 10) lossRate then dec 9 10 else lossRate in
    if k =? 1 then
      let n := ceil_int (fdiv (Log failureTarget) (Log lossRate)) in
      let n := if n <? 2 then 2 else n in
      n - 1
    else
      let target := fadd (of_int k) (epsilonFor k) in
      let maxN := k * 12 + 16 in
      repair_search (Z.to_nat (maxN - k)) k (k + 1) maxN target lossRate.

End codec.

(** ** XOR algebra on blocks *)

Lemma length_zeros n : length (zeros n) = n.
Proof. apply length_replicate. Qed.

Lemma xor_byte_b2z a b : b2z (xor_byte a b) = Z.lxor (b2z a) (b2z b).
Proof.
  unfold xor_byte. apply b2z_z2b_small. pose proof (b2z_range a). pose proof (b2z_range b).
  split; [apply Z.lxor_nonneg; lia|].
  destruct (Z.eq_dec (Z.lxor (b2z a) (b2z b)) 0) as [->|Hne]; [lia|].
  apply (Z.log2_lt_pow2 _ 8).
  { assert (0 ≤ Z.lxor (b2z a) (b2z b)) by (apply Z.lxor_nonneg; lia). lia. }
  eapply Z.le_lt_trans; [apply Z.log2_lxor; lia|]. apply Z.max_lub_lt.
  - destruct (Z.eq_dec (b2z a) 0) as [->|]; [done|]. apply Z.log2_lt_pow2; lia.
  - destruct (Z.eq_dec (b2z b) 0) as [->|]; [done|]. apply Z.log2_lt_pow2; lia.
Qed.

Lemma xor_byte_comm a b : xor_byte a b = xor_byte b a.
Proof. apply b2z_inj. by rewrite !xor_byte_b2z, Z.lxor_comm. Qed.
Lemma xor_byte_assoc a b c : xor_byte (xor_byte a b) c = xor_byte a (xor_byte b c).
Proof. apply b2z_inj. by rewrite !xor_byte_b2z, Z.lxor_assoc. Qed.
Lemma xor_byte_self a : xor_byte a a = Byte.x00.
Proof. apply b2z_inj. by rewrite xor_byte_b2z, Z.lxor_nilpotent. Qed.
Lemma xor_byte_0_r a : xor_byte a Byte.x00 = a.
Proof. apply b2z_inj. rewrite xor_byte_b2z. apply Z.lxor_0_r. Qed.

Lemma length_xorBytes a b : length (xorBytes a b) = Nat.min (length a) (length b).
Proof. apply length_zip_with. Qed.

Lemma xorBytes_comm a b : xorBytes a b = xorBytes b a.
Proof. unfold xorBytes. revert b. induction a; intros []; cbn; [done..|]. by rewrite xor_byte_comm, IHa. Qed.
Lemma xorBytes_assoc a b c : xorBytes (xorBytes a b) c = xorBytes a (xorBytes b c).
Proof.
  unfold xorBytes. revert b c. induction a; intros [] []; cbn; [done..|]. by rewrite xor_byte_assoc, IHa.
Qed.
Lemma xorBytes_self a : xorBytes a a = zeros (length a).
Proof. unfold xorBytes. induction a; cbn; [done|]. by rewrite xor_byte_self, IHa. Qed.
Lemma xorBytes_0_r n a : length a = n → xorBytes a (zeros n) = a.
Proof.
  intros <-. unfold xorBytes, zeros. induction a; cbn; [done|]. by rewrite xor_byte_0_r, IHa.
Qed.
Lemma xorBytes_0_l n a : length a = n → xorBytes (zeros n) a = a.
Proof. intros. rewrite xorBytes_comm. by apply xorBytes_0_r. Qed.

(** A block: [k] symbols of [sz] bytes. *)
Definition block (k sz : nat) (xs : list bytes) : Prop :=
  length xs = k ∧ Forall (λ x, length x = sz) xs.

Lemma combine_acc sz m xs acc :
  Forall (λ x, length x = sz) xs → length acc = sz →
  foldl (λ acc p, if p.1 : bool then xorBytes acc p.2 else acc) acc (zip m xs) =
    xorBytes acc (combine sz m xs) ∧ length (combine sz m xs) = sz.
Proof.
  intros Hxs. revert m acc. induction Hxs as [|x xs Hx Hxs IH]; intros m acc Hacc.
  { destruct m; cbn; rewrite xorBytes_0_r, length_zeros; done. }
  destruct m as [|b m]; [by cbn; rewrite xorBytes_0_r, length_zeros|].
  unfold combine. cbn [zip zip_with foldl fst snd].
  assert (Hz : length (zeros sz) = sz) by apply length_zeros.
  destruct b.
  - destruct (IH m (xorBytes acc x)) as [-> _]; [rewrite length_xorBytes; lia|].
    destruct (IH m (xorBytes (zeros sz) x)) as [-> Hl]; [rewrite length_xorBytes; lia|].
    rewrite xorBytes_0_l by done. rewrite xorBytes_assoc. split; [done|].
    rewrite length_xorBytes. lia.
  - destruct (IH m acc Hacc) as [-> Hl]. fold (combine sz m xs). done.
Qed.

Lemma combine_cons sz b m x xs :
  length x = sz → Forall (λ x, length x = sz) xs →
  combine sz (b :: m) (x :: xs) = if b then xorBytes x (combine sz m xs) else combine sz m xs.
Proof.
  intros Hx Hxs. unfold combine at 1. cbn [zip zip_with foldl fst snd]. destruct b; [|done].
  rewrite (xorBytes_0_l sz x) by done. by apply combine_acc.
Qed.

Lemma length_combine sz m xs : Forall (λ x, length x = sz) xs → length (combine sz m xs) = sz.
Proof. intros H. by apply (combine_acc sz m xs (zeros sz) H), length_zeros. Qed.

(** Combining is linear in the mask ... *)
Lemma combine_xor_mask sz m1 m2 xs :
  length m1 = length m2 → Forall (λ x, length x = sz) xs →
  combine sz (xorInto m1 m2) xs = xorBytes (combine sz m1 xs) (combine sz m2 xs).
Proof.
  intros Hm Hxs. revert m1 m2 Hm. induction Hxs as [|x xs Hx Hxs IH]; intros m1 m2 Hm.
  { assert (∀ m, combine sz m [] = zeros sz) as Hz by (by intros []).
    rewrite !Hz, xorBytes_0_r; [done|apply length_zeros]. }
  destruct m1 as [|b1 m1], m2 as [|b2 m2]; try done.
  { cbn. rewrite xorBytes_0_r; [done|apply length_zeros]. }
  injection Hm as Hm. unfold xorInto. cbn [zip_with]. fold (xorInto m1 m2).
  rewrite !combine_cons, IH by done.
  pose proof (length_combine sz m1 xs Hxs) as H1. pose proof (length_combine sz m2 xs Hxs) as H2.
  destruct b1, b2; cbn [xorb].
  - rewrite xorBytes_assoc, <- (xorBytes_assoc (combine sz m1 xs) x).
    rewrite (xorBytes_comm (combine sz m1 xs) x), xorBytes_assoc.
    rewrite <- (xorBytes_assoc x x), xorBytes_self, Hx.
    by rewrite xorBytes_0_l by (rewrite length_xorBytes; lia).
  - by rewrite xorBytes_assoc.
  - rewrite <- !xorBytes_assoc. by rewrite (xorBytes_comm x).
  - done.
Qed.

(** ... and in the block. *)
Lemma combine_xor_block sz m xs ys :
  length xs = length ys → Forall (λ x, length x = sz) xs → Forall (λ x, length x = sz) ys →
  combine sz m (zip_with xorBytes xs ys) = xorBytes (combine sz m xs) (combine sz m ys).
Proof.
  intros Hl Hxs. revert m ys Hl. induction Hxs as [|x xs Hx Hxs IH]; intros m [|y ys] Hl Hys; try done.
  { assert (∀ m, combine sz m [] = zeros sz) as Hz by (by intros []).
    rewrite !Hz, xorBytes_0_r; [done|apply length_zeros]. }
  injection Hl as Hl. apply Forall_cons in Hys as [Hy Hys].
  assert (Hz : Forall (λ x, length x = sz) (zip_with xorBytes xs ys)).
  { clear -Hxs Hys. revert ys Hys. induction Hxs as [|x xs Hx Hxs IH]; intros [|y ys] Hys; cbn; try constructor.
    - rewrite length_xorBytes. apply Forall_cons in Hys as [? _]. lia.
    - apply IH. by apply Forall_cons in Hys as [_ ?]. }
  destruct m as [|b m]; [cbn; rewrite xorBytes_0_r; [done|apply length_zeros]|].
  cbn [zip_with]. rewrite !combine_cons by (rewrite ?length_xorBytes; done || lia).
  rewrite IH by done. pose proof (length_combine sz m xs Hxs). pose proof (length_combine sz m ys Hys).
  destruct b; [|done].
  rewrite !xorBytes_assoc. f_equal. rewrite <- !xorBytes_assoc. by rewrite (xorBytes_comm y).
Qed.

Lemma combine_false sz n xs : Forall (λ x, length x = sz) xs → combine sz (replicate n false) xs = zeros sz.
Proof.
  intros Hxs. revert n. induction Hxs as [|x xs Hx Hxs IH]; intros [|n]; try done.
  cbn [replicate]. by rewrite combine_cons.
Qed.

(** A unit mask picks one symbol. *)
Lemma combine_unit sz k i xs x :
  Forall (λ x, length x = sz) xs → (i < k)%nat → length xs = k → xs !! i = Some x →
  combine sz (unit_mask k i) xs = x.
Proof.
  intros Hxs. unfold unit_mask. revert k i. induction Hxs as [|y xs Hy Hxs IH]; intros k i Hi Hl Hx; [done|].
  destruct k as [|k]; [done|]. injection Hl as Hl. cbn [replicate]. destruct i as [|i].
  - injection Hx as ->.
    change (<[0%nat:=true]> (false :: replicate k false)) with (true :: replicate k false).
    rewrite combine_cons, combine_false by done. by apply xorBytes_0_r.
  - change (<[S i:=true]> (false :: replicate k false)) with (false :: <[i:=true]> (replicate k false)).
    rewrite combine_cons by done. apply IH; [lia|done|done].
Qed.

(** ** Equations *)

Definition sat (sz : nat) (xs : list bytes) (e : equation) : Prop :=
  eq_data e = combine sz (eq_mask e) xs.

Definition wf_eq (n sz : nat) (e : equation) : Prop :=
  length (eq_mask e) = n ∧ length (eq_data e) = sz.

Lemma xor_eq_wf n sz a b : wf_eq n sz a → wf_eq n sz b → wf_eq n sz (xor_eq a b).
Proof.
  intros [? ?] [? ?]. unfold wf_eq, xor_eq, xorInto, xorBytes. cbn.
  rewrite !length_zip_with. lia.
Qed.

Lemma xor_eq_sat n sz xs a b :
  block n sz xs → wf_eq n sz a → wf_eq n sz b → sat sz xs a → sat sz xs b → sat sz xs (xor_eq a b).
Proof.
  intros [_ Hxs] [Ha _] [Hb _] Hsa Hsb. unfold sat, xor_eq in *. cbn [eq_mask eq_data].
  rewrite combine_xor_mask by congruence. by rewrite Hsa, Hsb.
Qed.

Lemma xorInto_involutive m1 m2 : length m1 = length m2 → xorInto (xorInto m1 m2) m2 = m1.
Proof.
  unfold xorInto. revert m2. induction m1 as [|b1 m1 IH]; intros [|b2 m2] Hl; try done. cbn.
  injection Hl as Hl. rewrite IH by done. by destruct b1, b2.
Qed.

Lemma bit_xor n sz a b c : wf_eq n sz a → wf_eq n sz b → bit (xor_eq a b) c = xorb (bit a c) (bit b c).
Proof.
  intros [Ha _] [Hb _]. unfold bit, xor_eq, xorInto. cbn. rewrite <- Hb in Ha. clear Hb.
  revert c Ha. generalize (eq_mask b). generalize (eq_mask a).
  intros l1. induction l1 as [|x l1 IH]; intros [|y l2] [|c] Hl; try done. cbn. apply IH. by injection Hl.
Qed.

(** ** One round of the elimination *)

Lemma find_pivot_Some rs row col sel :
  find_pivot rs row col = Some sel →
  (row ≤ sel)%nat ∧ ∃ e, rs !! sel = Some e ∧ bit e col = true.
Proof.
  unfold find_pivot. destruct (list_find _ _) as [[i e]|] eqn:E; [|done]. intros [= <-].
  apply list_find_Some in E as (Hi & Hb & _). rewrite lookup_drop in Hi.
  split; [lia|]. by exists e.
Qed.

Lemma find_pivot_None rs row col :
  find_pivot rs row col = None → ∀ r e, (row ≤ r)%nat → rs !! r = Some e → bit e col = false.
Proof.
  unfold find_pivot. destruct (list_find _ _) as [[]|] eqn:E; [done|]. intros _ r e Hr He.
  apply list_find_None in E. rewrite Forall_forall in E. apply not_true_is_false, E.
  apply list_elem_of_lookup. exists (r - row)%nat. rewrite lookup_drop. by rewrite <- He; f_equal; lia.
Qed.

(** The row that ends up at [r] after the swap. *)
Definition swapped (i j r : nat) : nat :=
  if decide (r = j) then i else if decide (r = i) then j else r.

Lemma swap_lookup rs i j r :
  (i < length rs)%nat → (j < length rs)%nat → swap rs i j !! r = rs !! swapped i j r.
Proof.
  intros Hi Hj. destruct (lookup_lt_is_Some_2 rs i Hi) as [a Ea].
  destruct (lookup_lt_is_Some_2 rs j Hj) as [b Eb]. unfold swap, swapped. rewrite Ea, Eb.
  rewrite list_lookup_insert, length_insert. case_decide as E1.
  - destruct E1 as [-> ?]. by rewrite decide_True.
  - rewrite list_lookup_insert. repeat case_decide; subst; try done; naive_solver lia.
Qed.

Lemma length_swap rs i j : length (swap rs i j) = length rs.
Proof. unfold swap. repeat case_match; by rewrite ?length_insert. Qed.

Lemma length_clear_column rs row col : length (clear_column rs row col) = length rs.
Proof. unfold clear_column. case_match; [apply length_imap|done]. Qed.

(** The new row [r], in terms of the old rows: the pivot is row [sel]. *)
Lemma round_lookup rs row sel col p r :
  (row < length rs)%nat → rs !! sel = Some p →
  clear_column (swap rs row sel) row col !! r =
    (λ e, if negb (bool_decide (r = row)) && bit e col then xor_eq e p else e)
      <$> rs !! swapped row sel r.
Proof.
  intros Hrow Hp. pose proof (lookup_lt_Some _ _ _ Hp) as Hsel. unfold clear_column.
  assert (swap rs row sel !! row = Some p) as ->.
  { rewrite swap_lookup by done. unfold swapped. by repeat case_decide; subst. }
  rewrite list_lookup_imap, swap_lookup by done. done.
Qed.

Lemma swapped_involutive i j r : swapped i j (swapped i j r) = r.
Proof. unfold swapped. repeat case_decide; subst; congruence. Qed.

(** A block whose combination under a mask is zero: adding it changes nothing
    the equation can see. *)
Definition ker (sz : nat) (zs : list bytes) (e : equation) : Prop :=
  combine sz (eq_mask e) zs = zeros sz.

(** What the elimination maintains after [col] columns. *)
Record Inv (n sz : nat) (rs : list equation) (row : nat) (piv : list (option nat)) (col : nat)
    : Prop := {
  inv_len : length piv = n;
  inv_wf : Forall (wf_eq n sz) rs;
  inv_row : (row ≤ length rs)%nat;
  inv_past : ∀ c p, piv !! c = Some (Some p) → (c < col)%nat ∧ (p < row)%nat;
  inv_pivot : ∀ c p r e, piv !! c = Some (Some p) → rs !! r = Some e → bit e c = bool_decide (r = p);
  inv_surj : ∀ p, (p < row)%nat → ∃ c, piv !! c = Some (Some p);
  inv_inj : ∀ c c' p, piv !! c = Some (Some p) → piv !! c' = Some (Some p) → c = c';
  inv_free : ∀ c r e, (c < col)%nat → piv !! c = Some None → (row ≤ r)%nat →
    rs !! r = Some e → bit e c = false
}.

Section one_round.
Context (n sz : nat) (rs : list equation) (row col sel : nat) (p : equation).
Context (Hwf : Forall (wf_eq n sz) rs) (Hrow : (row < length rs)%nat) (Hp : rs !! sel = Some p).
Context (Hsel : (row ≤ sel)%nat) (Hbit : bit p col = true).

#[local] Set Default Proof Using "All".

Let rs' := clear_column (swap rs row sel) row col.

Lemma round_row r e' :
  rs' !! r = Some e' → ∃ e, rs !! swapped row sel r = Some e ∧ wf_eq n sz e ∧
    e' = if negb (bool_decide (r = row)) && bit e col then xor_eq e p else e.
Proof.
  unfold rs'. rewrite (round_lookup _ _ _ _ p) by done.
  destruct (rs !! swapped row sel r) as [e|] eqn:E; [|done]. intros [= <-]. exists e.
  split_and!; [done|by eapply Forall_lookup_1|done].
Qed.

Lemma round_pivot_row : rs' !! row = Some p.
Proof.
  unfold rs'. rewrite (round_lookup _ _ _ _ p) by done.
  assert (swapped row sel row = sel) as ->.
  { unfold swapped. by repeat case_decide. }
  rewrite Hp. cbn. by rewrite bool_decide_eq_true_2.
Qed.

Lemma round_wf : Forall (wf_eq n sz) rs'.
Proof.
  assert (wf_eq n sz p) by (by eapply Forall_lookup_1).
  apply Forall_lookup. intros r e' (e & _ & He & ->)%round_row.
  destruct (_ && _); [by apply xor_eq_wf|done].
Qed.

Lemma round_sat xs : block n sz xs → Forall (sat sz xs) rs → Forall (sat sz xs) rs'.
Proof.
  intros Hxs Hall. assert (wf_eq n sz p) by (by eapply Forall_lookup_1).
  apply Forall_lookup. intros r e' (e & He & Hwe & ->)%round_row.
  assert (sat sz xs e) by (by eapply Forall_lookup_1).
  destruct (_ && _); [|done]. eapply xor_eq_sat; eauto. by eapply Forall_lookup_1.
Qed.

Lemma round_ker zs : block n sz zs → Forall (ker sz zs) rs' → Forall (ker sz zs) rs.
Proof.
  intros [_ Hzs] Hall. assert (Hwp : wf_eq n sz p) by (by eapply Forall_lookup_1).
  assert (Hkp : ker sz zs p) by (eapply Forall_lookup_1; [done|apply round_pivot_row]).
  apply Forall_lookup. intros q e He.
  assert (Hq : rs' !! swapped row sel q =
    Some (if negb (bool_decide (swapped row sel q = row)) && bit e col then xor_eq e p else e)).
  { unfold rs'. rewrite (round_lookup _ _ _ _ p) by done. by rewrite swapped_involutive, He. }
  apply (Forall_lookup_1 _ _ _ _ Hall) in Hq. destruct (_ && _); [|done].
  assert (wf_eq n sz e) as [Hle _] by (by eapply Forall_lookup_1). destruct Hwp as [Hlp _].
  unfold ker, xor_eq in *. cbn [eq_mask] in Hq. rewrite combine_xor_mask, Hkp in Hq by congruence.
  by rewrite xorBytes_0_r in Hq by (by apply length_combine).
Qed.

(** A column in which the pivot row is clear is only permuted. *)
Lemma round_other_column c r e' :
  bit p c = false → rs' !! r = Some e' →
  ∃ e, rs !! swapped row sel r = Some e ∧ bit e' c = bit e c.
Proof.
  intros Hc (e & He & Hwe & ->)%round_row. exists e. split; [done|].
  assert (wf_eq n sz p) by (by eapply Forall_lookup_1).
  destruct (_ && _); [|done]. by rewrite (bit_xor n sz), Hc, xorb_false_r.
Qed.

(** The pivot's own column is a unit column. *)
Lemma round_pivot_column r e' : rs' !! r = Some e' → bit e' col = bool_decide (r = row).
Proof.
  intros (e & He & Hwe & ->)%round_row.
  assert (wf_eq n sz p) by (by eapply Forall_lookup_1).
  destruct (decide (r = row)) as [->|Hne].
  - rewrite bool_decide_eq_true_2 by done. cbn.
    assert (swapped row sel row = sel) as Es by (unfold swapped; by repeat case_decide).
    rewrite Es, Hp in He. by injection He as <-.
  - rewrite bool_decide_eq_false_2 by done. cbn. destruct (bit e col) eqn:Eb; [|done].
    by rewrite (bit_xor n sz), Eb, Hbit.
Qed.
End one_round.

Lemma Inv_step n sz rs row piv col sel :
  Inv n sz rs row piv col → (col < n)%nat → (row < length rs)%nat →
  find_pivot rs row col = Some sel →
  Inv n sz (clear_column (swap rs row sel) row col) (S row) (<[col := Some row]> piv) (S col).
Proof.
  intros [Hlen Hwf Hr Hpast Hpiv Hsurj Hinj Hfree] Hcol Hrow (Hsel & p & Hp & Hb)%find_pivot_Some.
  (* The pivot row is clear in every earlier column. *)
  assert (Hclear : ∀ c, (c < col)%nat → bit p c = false).
  { intros c Hc. destruct (piv !! c) as [[q|]|] eqn:Eq.
    - rewrite (Hpiv _ _ _ _ Eq Hp). apply Hpast in Eq. apply bool_decide_eq_false. lia.
    - by eapply Hfree.
    - apply lookup_ge_None in Eq. lia. }
  assert (Hlk : ∀ c q, <[col:=Some row]> piv !! c = Some q →
    c = col ∧ q = Some row ∨ c ≠ col ∧ piv !! c = Some q).
  { intros c q. rewrite list_lookup_insert. case_decide as E; [destruct E as [<- _]|]; [naive_solver|].
    intros. right. split; [|done]. intros ->. apply E. split; [done|lia]. }
  split.
  - by rewrite length_insert.
  - by eapply round_wf.
  - rewrite length_clear_column, length_swap. lia.
  - intros c q [[-> [= ->]]|[Hne Hq]]%Hlk; [lia|]. apply Hpast in Hq. lia.
  - intros c q r e [[-> [= ->]]|[Hne Hq]]%Hlk He; [by eapply round_pivot_column|].
    pose proof (Hpast _ _ Hq) as [Hc Hqr].
    eapply round_other_column in He as (e0 & He0 & ->); eauto.
    rewrite (Hpiv _ _ _ _ Hq He0). apply bool_decide_ext. unfold swapped.
    repeat case_decide; subst; lia.
  - intros q Hq. destruct (decide (q = row)) as [->|Hne].
    + exists col. rewrite list_lookup_insert_eq; [done|lia].
    + destruct (Hsurj q ltac:(lia)) as [c Hc]. exists c. rewrite list_lookup_insert_ne; [done|].
      apply Hpast in Hc. lia.
  - intros c c' q [[-> [= ->]]|[Hne Hq]]%Hlk [[-> E]|[Hne' Hq']]%Hlk; [done| | |by eapply Hinj].
    + apply Hpast in Hq'. lia.
    + injection E as ->. apply Hpast in Hq. lia.
  - intros c r e Hc [[_ ?]|[Hne Hq]]%Hlk Hle He; [done|].
    assert (Hc' : (c < col)%nat) by lia.
    eapply round_other_column in He as (e0 & He0 & ->); eauto.
    eapply Hfree; [done|done| |done]. unfold swapped. repeat case_decide; lia.
Qed.

Lemma eliminate_spec n sz m col rs row piv rs' row' piv' :
  (col + m = n)%nat → Inv n sz rs row piv col →
  eliminate (seq col m) rs row piv = (rs', row', piv') →
  ∃ col', Inv n sz rs' row' piv' col' ∧ (col' = n ∨ row' = length rs') ∧
    (∀ xs, block n sz xs → Forall (sat sz xs) rs → Forall (sat sz xs) rs') ∧
    (∀ zs, block n sz zs → Forall (ker sz zs) rs' → Forall (ker sz zs) rs).
Proof.
  revert col rs row piv. induction m as [|m IH]; intros col rs row piv Hm HI; cbn [seq eliminate].
  { intros [= <- <- <-]. exists col. split_and!; auto. left. lia. }
  case_decide as Hrow.
  2:{ intros [= <- <- <-]. exists col. split_and!; auto. right. destruct HI. lia. }
  destruct (find_pivot rs row col) as [sel|] eqn:Ef.
  - intros He. pose proof (Inv_step _ _ _ _ _ _ _ HI ltac:(lia) Hrow Ef) as HI'.
    apply find_pivot_Some in Ef as (Hsel & p & Hp & Hb).
    destruct (IH (S col) _ _ _ ltac:(lia) HI' He) as (col' & ? & ? & Hs & Hk).
    exists col'. split_and!; [done..| |].
    + intros xs Hxs Hall. apply Hs; [done|]. eapply round_sat; eauto using inv_wf.
    + intros zs Hzs Hall. eapply round_ker; eauto using inv_wf.
  - intros He. apply (IH (S col)) in He; [done|lia|]. destruct HI as [? ? ? Hpast ? ? ? Hfree].
    split; try done.
    + intros c p Hc. apply Hpast in Hc. lia.
    + intros c r e Hc Hq Hr. destruct (decide (c = col)) as [->|].
      * by eapply find_pivot_None.
      * eapply Hfree; [lia|done|done].
Qed.

Lemma Inv_init n sz rs : Forall (wf_eq n sz) rs → Inv n sz rs 0 (replicate n None) 0.
Proof.
  assert (Hno : ∀ c p, replicate n (@None nat) !! c = Some (Some p) → False).
  { intros c p [? _]%lookup_replicate_1. done. }
  intros Hwf. split; try done; try lia.
  - apply length_replicate.
  - by intros c p ?%Hno.
  - by intros c p r e ?%Hno.
  - by intros c c' p ?%Hno.
Qed.

Lemma unit_mask_eq n c m :
  length m = n → (∀ i, (i < n)%nat → nth i m false = bool_decide (i = c)) → m = unit_mask n c.
Proof.
  intros Hl Hm. unfold unit_mask. apply list_eq_same_length with n; [by rewrite length_insert, length_replicate|done|].
  intros i x y Hi Hx Hy. specialize (Hm i Hi). rewrite (nth_lookup_Some _ _ _ _ Hx) in Hm. subst x.
  rewrite list_lookup_insert in Hy. rewrite length_replicate in Hy. case_decide as E.
  - destruct E as [-> _]. injection Hy as <-. by rewrite bool_decide_eq_true_2.
  - apply lookup_replicate_1 in Hy as [-> _]. apply bool_decide_eq_false. intros ->. naive_solver.
Qed.

(** A pivot row of a fully pivoted matrix is a unit row. *)
Lemma pivot_row_unit n sz rs row piv col c p e :
  Inv n sz rs row piv col → (∀ i, (i < n)%nat → ∃ q, piv !! i = Some (Some q)) →
  piv !! c = Some (Some p) → rs !! p = Some e → eq_mask e = unit_mask n c.
Proof.
  intros HI Hall Hc He. pose proof (Forall_lookup_1 _ _ _ _ (inv_wf _ _ _ _ _ _ HI) He) as [Hl _].
  apply unit_mask_eq; [done|]. intros i Hi. destruct (Hall i Hi) as [q Hq].
  change (nth i (eq_mask e) false) with (bit e i). rewrite (inv_pivot _ _ _ _ _ _ HI _ _ _ _ Hq He).
  apply bool_decide_ext. split; [|by intros ->; rewrite Hc in Hq; injection Hq].
  intros ->. by eapply (inv_inj _ _ _ _ _ _ HI).
Qed.

Lemma solve_sound n sz rs xs ys :
  Forall (wf_eq n sz) rs → block n sz xs → Forall (sat sz xs) rs →
  solve n rs = Some ys → ys = xs.
Proof.
  intros Hwf Hxs Hsat. unfold solve.
  destruct (eliminate _ _ _ _) as [[rs' row'] piv'] eqn:Ee.
  apply (eliminate_spec n sz n 0) in Ee as (col' & HI & _ & Hs & _); [|lia|by apply Inv_init].
  specialize (Hs xs Hxs Hsat). intros Hm%mapM_Some.
  assert (Hall : ∀ i, (i < n)%nat → ∃ q, piv' !! i = Some (Some q)).
  { intros i Hi. rewrite <- (inv_len _ _ _ _ _ _ HI) in Hi.
    destruct (lookup_lt_is_Some_2 piv' i Hi) as [q Hq].
    destruct (Forall2_lookup_l _ _ _ _ _ Hm Hq) as (y & _ & Hy). destruct q as [q|]; [|done]. eauto. }
  destruct Hxs as [Hlx Hxs]. apply list_eq_same_length with n.
  - done.
  - by rewrite <- (Forall2_length _ _ _ Hm), (inv_len _ _ _ _ _ _ HI).
  - intros i y x Hi Hy Hx. destruct (Hall i Hi) as [q Hq].
    pose proof (Forall2_lookup_lr _ _ _ _ _ _ Hm Hq Hy) as He.
    apply bind_Some in He as (q' & [= <-] & (e & He & [= <-])%bind_Some).
    pose proof (Forall_lookup_1 _ _ _ _ Hs He) as Hse. unfold sat in Hse. rewrite Hse.
    rewrite (pivot_row_unit n sz rs' row' piv' col' i q e) by done.
    by apply combine_unit.
Qed.

(** ** When it fails, the block is not determined *)

Definition parity (l : list bool) : bool := foldr xorb false l.

Lemma parity_insert l i v b :
  l !! i = Some b → parity (<[i := v]> l) = xorb (xorb b v) (parity l).
Proof.
  revert i. induction l as [|x l IH]; intros [|i] Hi; try done.
  - injection Hi as ->. change (xorb v (parity l) = xorb (xorb b v) (xorb b (parity l))).
    by destruct b, v, (parity l).
  - change (xorb x (parity (<[i:=v]> l)) = xorb (xorb b v) (xorb x (parity l))).
    rewrite (IH i Hi). by destruct x, b, v, (parity l).
Qed.

Lemma parity_false n : parity (replicate n false) = false.
Proof. by induction n. Qed.

(** Two equal entries and nothing else cancel. *)
Lemma parity_pair l n c1 c2 v :
  length l = n → c1 ≠ c2 → (c1 < n)%nat → (c2 < n)%nat →
  (∀ i b, l !! i = Some b → b = if bool_decide (i = c1 ∨ i = c2) then v else false) →
  parity l = false.
Proof.
  intros Hl Hne H1 H2 Hall.
  assert (l = <[c1 := v]> (<[c2 := v]> (replicate n false))) as ->.
  { apply list_eq_same_length with n; [by rewrite !length_insert, length_replicate|done|].
    intros i x y Hi Hx Hy. rewrite (Hall i x Hx).
    destruct (decide (i = c1)) as [->|N1]; [|destruct (decide (i = c2)) as [->|N2]].
    - rewrite list_lookup_insert_eq in Hy by (rewrite length_insert, length_replicate; lia).
      injection Hy as <-. by rewrite bool_decide_eq_true_2 by auto.
    - rewrite list_lookup_insert_ne, list_lookup_insert_eq in Hy
        by (rewrite ?length_replicate; done || lia).
      injection Hy as <-. by rewrite bool_decide_eq_true_2 by auto.
    - rewrite !list_lookup_insert_ne in Hy by done. apply lookup_replicate_1 in Hy as [-> _].
      by rewrite bool_decide_eq_false_2 by naive_solver. }
  rewrite (parity_insert _ _ _ false), (parity_insert _ _ _ false), parity_false.
  - by destruct v.
  - by apply lookup_replicate_2.
  - rewrite list_lookup_insert_ne by done. by apply lookup_replicate_2.
Qed.

Lemma parity_all_false l : Forall (λ b, b = false) l → parity l = false.
Proof. induction 1 as [|b l -> _ IH]; [done|]. cbn. by fold (parity l). Qed.

(** The block with [D] at the chosen columns. *)
Definition choose (sz : nat) (D : bytes) (bs : list bool) : list bytes :=
  (λ b : bool, if b then D else zeros sz) <$> bs.

Lemma choose_lengths sz D bs : length D = sz → Forall (λ x, length x = sz) (choose sz D bs).
Proof. intros HD. apply Forall_fmap, Forall_forall. intros b _. destruct b; [done|apply length_zeros]. Qed.

Lemma combine_choose sz D m bs :
  length D = sz →
  combine sz m (choose sz D bs) = if parity (zip_with andb m bs) then D else zeros sz.
Proof.
  intros HD. revert bs. induction m as [|x m IH]; intros [|b bs]; try done.
  change (choose sz D (b :: bs)) with ((if b then D else zeros sz) :: choose sz D bs).
  rewrite combine_cons by (first [by apply choose_lengths|destruct b; [done|apply length_zeros]]).
  rewrite IH. change (parity (zip_with andb (x :: m) (b :: bs)))
    with (xorb (andb x b) (parity (zip_with andb m bs))).
  destruct x, b, (parity _); cbn; try done.
  - by rewrite xorBytes_self, HD.
  - by apply xorBytes_0_r.
  - by apply xorBytes_0_l.
  - apply xorBytes_0_r, length_zeros.
Qed.

(** The columns in which a kernel block differs from zero: the free column [c],
    and every pivot whose row has a 1 in [c]. *)
Definition kernel_col (rs : list equation) (piv : list (option nat)) (c i : nat) : bool :=
  match piv !! i with
  | Some (Some p) => match rs !! p with Some e => bit e c | None => false end
  | _ => bool_decide (i = c)
  end.
Definition kernel_cols (n : nat) (rs : list equation) (piv : list (option nat)) (c : nat) : list bool :=
  kernel_col rs piv c <$> seq 0 n.

Lemma kernel_cols_lookup n rs piv c i b :
  kernel_cols n rs piv c !! i = Some b → (i < n)%nat ∧ b = kernel_col rs piv c i.
Proof.
  unfold kernel_cols. rewrite list_lookup_fmap. intros (j & Hj & ->)%fmap_Some.
  by apply lookup_seq in Hj as [-> ?].
Qed.

Lemma kernel_row n sz rs row piv col c r e :
  Inv n sz rs row piv col → (col = n ∨ row = length rs) → piv !! c = Some None →
  rs !! r = Some e → parity (zip_with andb (eq_mask e) (kernel_cols n rs piv c)) = false.
Proof.
  intros HI Hend Hc He. destruct HI as [Hlen Hwf Hrow Hpast Hpiv Hsurj Hinj Hfree].
  pose proof (Forall_lookup_1 _ _ _ _ Hwf He) as [Hl _].
  assert (Hcn : (c < n)%nat) by (rewrite <- Hlen; by eapply lookup_lt_Some).
  assert (Hz : ∀ i b, zip_with andb (eq_mask e) (kernel_cols n rs piv c) !! i = Some b →
    (i < n)%nat ∧ b = bit e i && kernel_col rs piv c i).
  { intros i b. rewrite lookup_zip_with. intros (x & Hx & (y & Hy & [= <-])%bind_Some)%bind_Some.
    apply kernel_cols_lookup in Hy as [Hi ->]. split; [done|]. unfold bit.
    by rewrite (nth_lookup_Some _ _ _ _ Hx). }
  destruct (decide (row ≤ r)%nat) as [Hge|Hlt].
  - (* Below the pivots every relevant entry is already clear. *)
    assert (Hcc : bit e c = false).
    { destruct Hend as [->| ->]; [by eapply Hfree|]. apply lookup_lt_Some in He. lia. }
    apply parity_all_false, Forall_lookup. intros i b (Hi & ->)%Hz. unfold kernel_col.
    destruct (piv !! i) as [[p|]|] eqn:Ei.
    + rewrite (Hpiv _ _ _ _ Ei He). apply Hpast in Ei. by rewrite bool_decide_eq_false_2 by lia.
    + case_bool_decide; [subst; by rewrite Hcc|apply andb_false_r].
    + apply lookup_ge_None in Ei. lia.
  - destruct (Hsurj r ltac:(lia)) as [cr Hcr].
    apply (parity_pair _ n cr c (bit e c)); [|congruence| |done|].
    + rewrite length_zip_with. unfold kernel_cols. rewrite length_fmap, length_seq. lia.
    + rewrite <- Hlen. by eapply lookup_lt_Some.
    + intros i b (Hi & ->)%Hz. unfold kernel_col. destruct (piv !! i) as [[p|]|] eqn:Ei.
      * rewrite (Hpiv _ _ _ _ Ei He). destruct (decide (r = p)) as [<-|Hne].
        -- rewrite He, bool_decide_eq_true_2 by done. cbn.
           by rewrite bool_decide_eq_true_2 by (left; by eapply Hinj).
        -- rewrite bool_decide_eq_false_2 by done. cbn.
           rewrite bool_decide_eq_false_2; [done|]. intros [->| ->]; congruence.
      * destruct (decide (i = c)) as [->|Hne].
        -- rewrite !bool_decide_eq_true_2 by auto. apply andb_true_r.
        -- rewrite !bool_decide_eq_false_2; [apply andb_false_r| |done].
           intros [->| ->]; congruence.
      * apply lookup_ge_None in Ei. lia.
Qed.

Lemma mapM_None_witness {A B : Type} (f : A → option B) l :
  mapM f l = None → ∃ i x, l !! i = Some x ∧ f x = None.
Proof.
  induction l as [|x l IH]; cbn; [done|]. destruct (f x) as [y|] eqn:E; cbn.
  - destruct (mapM f l); cbn; [done|]. intros _. destruct (IH eq_refl) as (i & z & ? & ?).
    by exists (S i), z.
  - intros _. by exists 0%nat, x.
Qed.

Lemma solve_complete n sz rs xs :
  (0 < sz)%nat → Forall (wf_eq n sz) rs → block n sz xs → Forall (sat sz xs) rs →
  solve n rs = None → ∃ ys, block n sz ys ∧ Forall (sat sz ys) rs ∧ ys ≠ xs.
Proof.
  intros Hsz Hwf Hxs Hsat. unfold solve.
  destruct (eliminate _ _ _ _) as [[rs' row'] piv'] eqn:Ee.
  apply (eliminate_spec n sz n 0) in Ee as (col' & HI & Hend & _ & Hk); [|lia|by apply Inv_init].
  intros (c & q & Hc & Hq)%mapM_None_witness.
  assert (Hcn : (c < n)%nat) by (rewrite <- (inv_len _ _ _ _ _ _ HI); by eapply lookup_lt_Some).
  destruct q as [q|].
  { exfalso. cbn in Hq. pose proof (inv_past _ _ _ _ _ _ HI _ _ Hc) as [_ Hlt].
    pose proof (inv_row _ _ _ _ _ _ HI).
    destruct (lookup_lt_is_Some_2 rs' q ltac:(lia)) as [e He]. by rewrite He in Hq. }
  set (D := replicate sz Byte.x01). assert (HD : length D = sz) by apply length_replicate.
  set (zs := choose sz D (kernel_cols n rs' piv' c)).
  assert (Hzs : block n sz zs).
  { split; [|by apply choose_lengths]. unfold zs, choose, kernel_cols.
    by rewrite !length_fmap, length_seq. }
  assert (Hker : Forall (ker sz zs) rs).
  { apply Hk; [done|]. apply Forall_lookup. intros r e He. unfold ker, zs.
    rewrite combine_choose by done. by rewrite (kernel_row n sz rs' row' piv' col' c r e). }
  destruct Hxs as [Hlx Hxs], Hzs as [Hlz Hzs].
  exists (zip_with xorBytes xs zs). split_and!.
  - split; [rewrite length_zip_with; lia|]. apply Forall_lookup. intros i y.
    rewrite lookup_zip_with. intros (x & Hx & (z & Hz & [= <-])%bind_Some)%bind_Some.
    rewrite length_xorBytes, (Forall_lookup_1 _ _ _ _ Hxs Hx), (Forall_lookup_1 _ _ _ _ Hzs Hz). lia.
  - apply Forall_forall. intros e He. rewrite Forall_forall in Hsat, Hker.
    specialize (Hsat e He). specialize (Hker e He). unfold sat, ker in *.
    rewrite combine_xor_block by (done || lia). rewrite Hker, <- Hsat.
    rewrite Forall_forall in Hwf. apply Hwf in He as [_ Hd]. by rewrite xorBytes_0_r.
  - intros E. destruct (lookup_lt_is_Some_2 xs c ltac:(lia)) as [x Hx].
    assert (Hzc : zs !! c = Some D).
    { unfold zs, choose, kernel_cols. rewrite !list_lookup_fmap, lookup_seq_lt by lia. cbn.
      unfold kernel_col. rewrite Hc, bool_decide_eq_true_2 by done. done. }
    assert (Hxc : zip_with xorBytes xs zs !! c = Some (xorBytes x D)).
    { rewrite lookup_zip_with, Hx. cbn. by rewrite Hzc. }
    rewrite E, Hx in Hxc. injection Hxc as Hxc.
    assert (xorBytes x x = xorBytes x (xorBytes x D)) as H2 by (by rewrite <- Hxc).
    rewrite <- xorBytes_assoc, !xorBytes_self in H2.
    rewrite (xorBytes_0_l _ D) in H2 by (rewrite HD; symmetry; by apply (Forall_lookup_1 _ _ _ _ Hxs Hx)).
    rewrite (Forall_lookup_1 _ _ _ _ Hxs Hx) in H2. unfold D, zeros in H2. destruct sz; [lia|done].
Qed.

(** Fewer equations than symbols never solve. *)
Lemma solve_length n sz rs ys :
  Forall (wf_eq n sz) rs → solve n rs = Some ys → (n ≤ length rs)%nat.
Proof.
  intros Hwf. unfold solve. destruct (eliminate _ _ _ _) as [[rs' row'] piv'] eqn:Ee.
  assert (Hlen : length rs' = length rs).
  { clear Hwf. revert Ee. generalize 0%nat at 2. generalize (replicate n (@None nat)). revert rs.
    induction (seq 0 n) as [|c cs IH]; intros rs piv row; cbn [eliminate]; [by intros [= <- _ _]|].
    case_decide; [|by intros [= <- _ _]]. destruct (find_pivot _ _ _); intros E%IH; [|done].
    by rewrite E, length_clear_column, length_swap. }
  apply (eliminate_spec n sz n 0) in Ee as (col' & HI & _ & _ & _); [|lia|by apply Inv_init].
  intros Hm%mapM_Some. rewrite <- Hlen.
  assert (Hincl : seq 0 n ⊆+ ((λ p, default 0%nat (list_find (λ q, q = Some p) piv' ≫= λ r, Some r.1)) <$> seq 0 row')).
  { apply NoDup_submseteq; [apply NoDup_seq|]. intros i Hi%elem_of_seq.
    destruct (lookup_lt_is_Some_2 piv' i) as [q Hq]; [rewrite (inv_len _ _ _ _ _ _ HI); lia|].
    destruct (Forall2_lookup_l _ _ _ _ _ Hm Hq) as (y & _ & Hy). destruct q as [p|]; [|done].
    apply list_elem_of_fmap. exists p. split.
    - destruct (list_find (λ q, q = Some p) piv') as [[j q]|] eqn:Ef; cbn.
      + apply list_find_Some in Ef as (Hj & -> & _). by eapply (inv_inj _ _ _ _ _ _ HI).
      + apply list_find_None in Ef. rewrite Forall_forall in Ef.
        exfalso. apply (Ef (Some p)); [|done]. by eapply list_elem_of_lookup_2.
    - apply elem_of_seq. pose proof (inv_past _ _ _ _ _ _ HI _ _ Hq). lia. }
  apply submseteq_length in Hincl. rewrite length_fmap, !length_seq in Hincl.
  pose proof (inv_row _ _ _ _ _ _ HI). lia.
Qed.

(** ** The encoder's blocks *)

Lemma zeros_app m n : zeros m ++ zeros n = zeros (m + n).
Proof. unfold zeros. by rewrite replicate_add. Qed.

Lemma length_chunk p sz i : length (chunk p sz i) = sz.
Proof.
  unfold chunk. rewrite length_app, length_zeros. pose proof (length_take (drop (i * sz) p) sz). lia.
Qed.

Lemma concat_chunks p sz m i :
  concat (chunk p sz <$> seq i m) =
    take (m * sz) (drop (i * sz) p) ++ zeros (m * sz - length (drop (i * sz) p)).
Proof.
  revert i. induction m as [|m IH]; intros i; [done|].
  cbn [seq]. rewrite fmap_cons. cbn [concat]. rewrite IH. unfold chunk.
  replace (S i * sz)%nat with (i * sz + sz)%nat by lia. rewrite <- drop_drop.
  set (l := drop (i * sz) p). rewrite length_take, length_drop. cbn [Nat.mul].
  destruct (decide (sz ≤ length l)%nat) as [Hle|Hgt].
  - rewrite Nat.min_l, Nat.sub_diag by lia. cbn [zeros replicate]. rewrite app_nil_r, app_assoc.
    rewrite take_take_drop. do 2 f_equal. lia.
  - rewrite Nat.min_r by lia. rewrite (take_ge l sz) by lia. rewrite (drop_ge l sz) by lia.
    rewrite take_nil. cbn [app]. rewrite (take_ge l (sz + m * sz)) by lia.
    rewrite <- app_assoc, zeros_app. do 2 f_equal. lia.
Qed.

Lemma NewEncoder_Ok sender bid p sz e :
  NewEncoder sender bid p sz = Ok e →
  block (e_k e) (e_symSize e) (source e) ∧ (0 < e_symSize e)%nat ∧ (0 < e_k e)%nat ∧
  Z.of_nat (e_k e) ≤ MaxK ∧ Z.of_nat (e_symSize e) ≤ MaxSymbolSize ∧
  e_sender e = sender ∧ e_bundleID e = bid ∧ Z.of_nat (e_symSize e) = sz ∧
  e_origLen e = length p ∧ p ≠ [] ∧ (length p ≤ e_k e * e_symSize e)%nat ∧
  take (length p) (concat (source e)) = p.
Proof.
  unfold NewEncoder. intros H. apply bind_unit_Ok in H as [Hs%require_Ok%negb_true_iff H].
  apply orb_false_iff in Hs as [Hs1%Z.leb_gt Hs2%Z.ltb_ge].
  apply bind_unit_Ok in H as [Hp%require_neg_decide H].
  apply bind_unit_Ok in H as [Hk%require_Ok%negb_true_iff%Z.ltb_ge [= <-]].
  set (k := (strlen p + sz - 1) / sz) in *.
  assert (Hlen : 0 < strlen p) by (unfold strlen; destruct p; [done|cbn; lia]).
  assert (Hkp : strlen p ≤ k * sz /\ 0 < k).
  { pose proof (Z.div_mod (strlen p + sz - 1) sz ltac:(lia)).
    pose proof (Z.mod_pos_bound (strlen p + sz - 1) sz ltac:(lia)). fold k in H. nia. }
  cbn [e_k e_symSize source e_sender e_bundleID e_origLen].
  assert (Hn : (length p ≤ Z.to_nat k * Z.to_nat sz)%nat) by (unfold strlen in *; nia).
  split_and!; try done; try lia.
  - split; [by rewrite length_fmap, length_seq|]. apply Forall_fmap, Forall_forall. intros i _.
    apply length_chunk.
  - rewrite concat_chunks. change (0 * Z.to_nat sz)%nat with 0%nat. rewrite drop_0.
    rewrite (take_ge p) by done. by rewrite take_app_length.
Qed.

Section decoding.
Context `{HB : Blake3}.

(** The mask of symbol [idx], as both ends compute it. *)
Definition symbol_mask (e : Encoder) (idx : Z) : list bool :=
  if idx <? Z.of_nat (e_k e) then unit_mask (e_k e) (Z.to_nat idx)
  else mask (e_sender e) (e_bundleID e) idx (e_k e).

Definition with_source (e : Encoder) (xs : list bytes) : Encoder :=
  mkEncoder (e_sender e) (e_bundleID e) (e_k e) (e_symSize e) xs (e_origLen e).

Lemma length_symbol_mask e idx : length (symbol_mask e idx) = e_k e.
Proof.
  unfold symbol_mask, unit_mask. destruct (_ <? _); [|apply length_mask].
  by rewrite length_insert, length_replicate.
Qed.

Lemma Symbol_data e idx :
  0 ≤ idx → block (e_k e) (e_symSize e) (source e) →
  Data (Symbol_ e idx) = combine (e_symSize e) (symbol_mask e idx) (source e).
Proof.
  intros Hi [Hl Hs]. unfold Symbol_, symbol_mask.
  destruct (Z.ltb_spec idx (Z.of_nat (e_k e))); [|done]. cbn [Data].
  destruct (lookup_lt_is_Some_2 (source e) (Z.to_nat idx) ltac:(lia)) as [x Hx].
  rewrite (nth_lookup_Some _ _ _ _ Hx). symmetry. apply combine_unit; [done|lia|done|done].
Qed.

(** What an encoder emits has a wire form. *)
Lemma Symbol_wf sender bid p sz e idx :
  NewEncoder sender bid p sz = Ok e → is_u32 bid → is_u16 idx → wf_symbol (Symbol_ e idx).
Proof.
  intros (Hb & Hsz & Hk & HkM & HsM & _ & <- & _)%NewEncoder_Ok Hbid Hidx.
  assert (HD : length (Data (Symbol_ e idx)) = e_symSize e)
    by (rewrite Symbol_data by (done || widths); by apply length_combine, Hb).
  assert (Hf : BundleID (Symbol_ e idx) = e_bundleID e ∧ Index (Symbol_ e idx) = idx ∧
    K (Symbol_ e idx) = Z.of_nat (e_k e)) by (unfold Symbol_; by destruct (_ <? _)).
  unfold wf_symbol. destruct Hf as (-> & -> & ->). split_and!; [done|done|lia|lia| |].
  - intros H. rewrite H in HD. cbn in HD. lia.
  - unfold strlen. lia.
Qed.

Definition feed (d : Decoder) (ss : list Symbol) : Decoder := foldl (λ d s, (Add d s).1) d ss.

(** What holds of a decoder that has been given symbols of [e] only. *)
Record fed (e : Encoder) (d : Decoder) : Prop := {
  fed_sender : d_sender d = e_sender e;
  fed_bundle : d_bundleID d = e_bundleID e;
  fed_k : d_k d = e_k e;
  fed_size : d_symSize d = e_symSize e;
  fed_len : d_origLen d = e_origLen e;
  fed_wf : Forall (wf_eq (e_k e) (e_symSize e)) (rows d);
  fed_sat : Forall (sat (e_symSize e) (source e)) (rows d);
  fed_seen : ∀ i, i ∈ seen d → 0 ≤ i ∧ mkEquation (symbol_mask e i) (Data (Symbol_ e i)) ∈ rows d;
  fed_done : done_ d = true → solved d = source e;
  fed_open : done_ d = false → solve (e_k e) (rows d) = None
}.

Lemma solve_nil n : (0 < n)%nat → solve n [] = None.
Proof. destruct n; [lia|]. done. Qed.

Lemma fed_New sender bid p sz e d :
  NewEncoder sender bid p sz = Ok e →
  NewDecoder sender bid (Z.of_nat (e_k e)) sz (strlen p) = Ok d → fed e d.
Proof.
  intros (Hb & _ & Hk & _ & _ & <- & <- & <- & Hl & _)%NewEncoder_Ok. unfold NewDecoder.
  intros H. do 3 apply bind_unit_Ok in H as [_ H]. injection H as <-.
  split; cbn; try done; unfold strlen; rewrite ?Nat2Z.id; try done.
  intros _. by apply solve_nil.
Qed.

Lemma Add_fed e d idx :
  block (e_k e) (e_symSize e) (source e) → 0 ≤ idx → fed e d →
  fed e (Add d (Symbol_ e idx)).1 ∧
  (Add d (Symbol_ e idx)).2 = Ok (done_ (Add d (Symbol_ e idx)).1) ∧
  (done_ (Add d (Symbol_ e idx)).1 = false → seen (Add d (Symbol_ e idx)).1 = {[idx]} ∪ seen d).
Proof.
  intros Hb Hi Hf. pose proof Hb as [Hl Hs]. unfold Add.
  destruct (done_ d) eqn:Hd; [cbn; rewrite Hd; by split_and!|].
  assert (Hsym : BundleID (Symbol_ e idx) = e_bundleID e ∧ K (Symbol_ e idx) = Z.of_nat (e_k e) ∧
    Index (Symbol_ e idx) = idx) by (unfold Symbol_; destruct (_ <? _); done).
  destruct Hsym as (Hsb & HsK & HsI). destruct Hf as [Hfs Hfb Hfk Hfz Hfl Hfw Hfsat Hfseen Hfd Hfo].
  rewrite Hsb, HsK, HsI, Hfb, Hfk, !Z.eqb_refl. cbn [andb negb].
  pose proof (Symbol_data e idx Hi Hb) as Hdata.
  assert (Hdl : length (Data (Symbol_ e idx)) = e_symSize e) by (rewrite Hdata; by apply length_combine).
  unfold strlen. rewrite Hdl, Hfz, Z.eqb_refl. cbn [negb].
  case_decide as Hseen.
  { cbn [fst snd]. split_and!; [by split|by rewrite Hd|]. intros _. apply leibniz_equiv. set_solver. }
  rewrite Hfs. fold (symbol_mask e idx). set (r := mkEquation (symbol_mask e idx) (Data (Symbol_ e idx))).
  assert (Hwr : wf_eq (e_k e) (e_symSize e) r) by (split; [apply length_symbol_mask|done]).
  assert (Hwf : Forall (wf_eq (e_k e) (e_symSize e)) (rows d ++ [r])) by (apply Forall_app_2; [done|by apply Forall_singleton]).
  assert (Hsat : Forall (sat (e_symSize e) (source e)) (rows d ++ [r])).
  { apply Forall_app_2; [done|]. apply Forall_singleton. exact Hdata. }
  assert (Hsn : ∀ i, i ∈ {[idx]} ∪ seen d → 0 ≤ i ∧ mkEquation (symbol_mask e i) (Data (Symbol_ e i)) ∈ rows d ++ [r]).
  { intros i [->%elem_of_singleton|Hin]%elem_of_union.
    - split; [done|]. apply elem_of_app. right. by constructor.
    - destruct (Hfseen i Hin). split; [done|]. apply elem_of_app. by left. }
  cbn [d_k rows]. case_decide as Hn.
  - unfold trySolve. cbn [d_k rows]. destruct (solve (e_k e) (rows d ++ [r])) as [xs|] eqn:Es; cbn [fst snd].
    + split_and!; [|done|done]. pose proof (solve_sound _ _ _ _ _ Hwf Hb Hsat Es) as ->.
      by split.
    + split_and!; [|done|done]. by split.
  - split_and!; [|done|done]. split; cbn; try done; try congruence. intros _.
    destruct (solve (e_k e) (rows d ++ [r])) as [xs|] eqn:Es; [|done].
    apply (solve_length _ _ _ _ Hwf) in Es. lia.
Qed.

Lemma feed_fed e d idxs :
  block (e_k e) (e_symSize e) (source e) → Forall (λ i, 0 ≤ i) idxs → fed e d →
  fed e (feed d (Symbol_ e <$> idxs)) ∧
  (done_ (feed d (Symbol_ e <$> idxs)) = false →
     ∀ i, i ∈ idxs ∨ i ∈ seen d → i ∈ seen (feed d (Symbol_ e <$> idxs))).
Proof.
  intros Hb Hidx. revert d. induction Hidx as [|i idxs Hi Hidx IH]; intros d Hf.
  { split; [done|]. intros _ i [Hi|Hi]; [by apply elem_of_nil in Hi|done]. }
  unfold feed. cbn [fmap list_fmap foldl]. fold (feed (Add d (Symbol_ e i)).1 (Symbol_ e <$> idxs)).
  destruct (Add_fed e d i Hb Hi Hf) as (Hf' & _ & Hseen).
  destruct (IH _ Hf') as [Hf2 Hall]. split; [done|]. intros Hd j Hj.
  destruct (done_ (Add d (Symbol_ e i)).1) eqn:Ed.
  { exfalso. assert (Hstay : ∀ ss d', done_ d' = true → done_ (feed d' ss) = true).
    { intros ss. induction ss as [|s ss IHs]; intros d' Hd'; [done|]. apply IHs. unfold Add. by rewrite Hd'. }
    apply (Hstay (Symbol_ e <$> idxs)) in Ed. congruence. }
  apply (Hall Hd). rewrite (Hseen eq_refl). set_solver.
Qed.

(** A finished decoder holds the payload. *)
Lemma fed_payload sender bid p sz e d :
  NewEncoder sender bid p sz = Ok e → fed e d → done_ d = true → Payload d = Ok p.
Proof.
  intros He Hf Hdone. apply NewEncoder_Ok in He as (_ & _ & _ & _ & _ & _ & _ & _ & Hol & _ & _ & Hp).
  unfold Payload. rewrite Hdone. cbn [negb].
  rewrite (fed_done _ _ Hf Hdone), (fed_len _ _ Hf), Hol. by rewrite Hp.
Qed.

(** An unfinished decoder cannot tell the block from another one. *)
Lemma fed_ambiguous sender bid p sz e d :
  NewEncoder sender bid p sz = Ok e → fed e d → done_ d = false →
  ∃ ys, block (e_k e) (e_symSize e) ys ∧ ys ≠ source e ∧
    ∀ i, i ∈ seen d → Data (Symbol_ (with_source e ys) i) = Data (Symbol_ e i).
Proof.
  intros He Hf Hdone. apply NewEncoder_Ok in He as (Hb & Hsz & _).
  destruct (solve_complete _ _ _ (source e) Hsz (fed_wf _ _ Hf) Hb (fed_sat _ _ Hf) (fed_open _ _ Hf Hdone))
    as (ys & Hbys & Hsat & Hne). exists ys. split_and!; [done..|]. intros i Hi.
  destruct (fed_seen _ _ Hf i Hi) as [Hpos Hrow].
  rewrite Forall_forall in Hsat. specialize (Hsat _ Hrow). unfold sat in Hsat. cbn in Hsat.
  rewrite Symbol_data by done. by rewrite Hsat.
Qed.

(** The systematic symbols are the block. *)
Lemma systematic_determine e ys :
  block (e_k e) (e_symSize e) (source e) → block (e_k e) (e_symSize e) ys →
  (∀ i, 0 ≤ i < Z.of_nat (e_k e) → Data (Symbol_ (with_source e ys) i) = Data (Symbol_ e i)) →
  ys = source e.
Proof.
  intros [Hl Hs] [Hly Hys] Hsame. apply list_eq_same_length with (e_k e); [done..|]. intros i y x Hi Hy Hx.
  specialize (Hsame (Z.of_nat i) ltac:(lia)). unfold Symbol_ in Hsame. cbn in Hsame.
  destruct (Z.ltb_spec (Z.of_nat i) (Z.of_nat (e_k e))); [|lia]. cbn in Hsame. rewrite Nat2Z.id in Hsame.
  by rewrite (nth_lookup_Some _ _ _ _ Hy), (nth_lookup_Some _ _ _ _ Hx) in Hsame.
Qed.

Lemma fed_systematic sender bid p sz e d :
  NewEncoder sender bid p sz = Ok e → fed e d →
  (∀ i, 0 ≤ i < Z.of_nat (e_k e) → i ∈ seen d) → done_ d = true.
Proof.
  intros He Hf Hall. apply not_false_iff_true. intros Hdone.
  destruct (fed_ambiguous _ _ _ _ _ _ He Hf Hdone) as (ys & Hb & Hne & Hsame).
  apply NewEncoder_Ok in He as (Hbe & _). apply Hne, systematic_determine; auto.
Qed.

(** C3: whatever symbols of a block arrive, in whatever order and however often,
    the decoder reports no error, and when it says it is done the payload it
    gives is the one that was encoded. *)
Theorem decode_sound sender bid p sz e d idxs :
  NewEncoder sender bid p sz = Ok e →
  NewDecoder sender bid (Z.of_nat (e_k e)) sz (strlen p) = Ok d →
  Forall (λ i, 0 ≤ i) idxs →
  (∀ i, 0 ≤ i → is_ok (Add (feed d (Symbol_ e <$> idxs)) (Symbol_ e i)).2 = true) ∧
  (Done (feed d (Symbol_ e <$> idxs)) = true → Payload (feed d (Symbol_ e <$> idxs)) = Ok p).
Proof.
  intros He Hd Hidx. pose proof (fed_New _ _ _ _ _ _ He Hd) as Hf.
  pose proof (NewEncoder_Ok _ _ _ _ _ He) as (Hb & _).
  destruct (feed_fed e d idxs Hb Hidx Hf) as [Hf' _]. split.
  - intros i Hi. by destruct (Add_fed e _ i Hb Hi Hf') as (_ & -> & _).
  - intros Hdone. by eapply fed_payload.
Qed.

(** C4: the decoder is as good as any: while it is not done, the symbols it has
    been given are also the symbols of a different block, so no decoder could
    tell the two apart; and once every systematic symbol has arrived, in any
    order, it is done. *)
Theorem decode_complete sender bid p sz e d idxs :
  NewEncoder sender bid p sz = Ok e →
  NewDecoder sender bid (Z.of_nat (e_k e)) sz (strlen p) = Ok d →
  Forall (λ i, 0 ≤ i) idxs →
  (Done (feed d (Symbol_ e <$> idxs)) = false →
     ∃ ys, block (e_k e) (e_symSize e) ys ∧ ys ≠ source e ∧
       ∀ i, i ∈ idxs → Data (Symbol_ (with_source e ys) i) = Data (Symbol_ e i)) ∧
  ((∀ i, 0 ≤ i < Z.of_nat (e_k e) → i ∈ idxs) → Done (feed d (Symbol_ e <$> idxs)) = true).
Proof.
  intros He Hd Hidx. pose proof (fed_New _ _ _ _ _ _ He Hd) as Hf.
  pose proof (NewEncoder_Ok _ _ _ _ _ He) as (Hb & _).
  destruct (feed_fed e d idxs Hb Hidx Hf) as [Hf' Hseen]. split.
  - intros Hdone. destruct (fed_ambiguous _ _ _ _ _ _ He Hf' Hdone) as (ys & Hbys & Hne & Hsame).
    exists ys. split_and!; [done..|]. intros i Hi. apply Hsame, Hseen; auto.
  - intros Hall. apply not_false_iff_true. intros Hdone.
    destruct (fed_ambiguous _ _ _ _ _ _ He Hf' Hdone) as (ys & Hbys & Hne & Hsame).
    apply Hne, systematic_determine; [done..|]. intros i Hi. apply Hsame, (Hseen Hdone). auto.
Qed.
End decoding.

(** ** Repair sizing *)

(** The test of the search: [n] symbols leave enough after loss. *)
Definition suffices (k : Z) (lossRate : float64) (n : Z) : bool :=
  let keep := fsub (of_int 1) lossRate in
  let mean := fmul (of_int n) keep in
  let sd := fsqrt (fmul (fmul (of_int n) lossRate) keep) in
  fle (fadd (of_int k) (epsilonFor k)) (fsub mean (fmul zScore sd)).

Lemma repair_search_spec fuel k n maxN lossRate :
  maxN < n + Z.of_nat fuel → n ≤ maxN + 1 →
  let r := repair_search fuel k n maxN (fadd (of_int k) (epsilonFor k)) lossRate in
  (∀ m, n ≤ m < k + r → suffices k lossRate m = false) ∧
  ((n ≤ k + r ≤ maxN ∧ suffices k lossRate (k + r) = true) ∨
   (r = maxN - k ∧ ∀ m, n ≤ m ≤ maxN → suffices k lossRate m = false)).
Proof.
  revert n. induction fuel as [|fuel IH]; intros n Hf Hn; cbn [repair_search].
  { split; [intros; lia|]. right. split; [done|intros; lia]. }
  destruct (Z.ltb_spec maxN n); [split; [intros; lia|]; right; split; [done|intros; lia]|].
  fold (suffices k lossRate n). destruct (suffices k lossRate n) eqn:Es.
  - split; [intros; lia|]. left. replace (k + (n - k)) with n by lia. split; [lia|done].
  - destruct (IH (n + 1) ltac:(lia) ltac:(lia)) as [H1 H2]. cbv zeta in *. split.
    + intros m Hm. destruct (decide (m = n)) as [->|]; [done|]. apply H1. lia.
    + destruct H2 as [[? ?]|[Hr H2]]; [left; split; [lia|done]|]. right. split; [done|].
      intros m Hm. destruct (decide (m = n)) as [->|]; [done|]. apply H2. lia.
Qed.

Lemma RepairCount_pos Log k lossRate : 1 ≤ k → 1 ≤ RepairCount Log k lossRate.
Proof.
  intros Hk. unfold RepairCount. destruct (fle lossRate f0); [done|].
  set (p := if flt _ _ then _ else _). destruct (Z.eqb_spec k 1) as [->|Hk1].
  { destruct (Z.ltb_spec (ceil_int (fdiv (Log failureTarget) (Log p))) 2); lia. }
  pose proof (repair_search_spec (Z.to_nat (k * 12 + 16 - k)) k (k + 1) (k * 12 + 16) p ltac:(lia) ltac:(lia))
    as [_ H2]. cbv zeta in H2. set (r := repair_search _ _ _ _ _ _) in *. lia.
Qed.

(** Repair sizing always sends at least one spare symbol and never an unbounded
    transmission: beyond one-symbol blocks it is at most 11K + 16, and on a lossy
    link it is the least count that passes the loss test, or the cap when none
    below it does. *)
Theorem RepairCount_least Log k lossRate :
  1 ≤ k →
  let r := RepairCount Log k lossRate in
  1 ≤ r ∧
  (k ≠ 1 → r ≤ 11 * k + 16) ∧
  (k ≠ 1 → fle lossRate f0 = false →
   let p := if flt (dec 9 10) lossRate then dec 9 10 else lossRate in
   (∀ m, k + 1 ≤ m < k + r → suffices k p m = false) ∧
   (suffices k p (k + r) = true ∨ r = 11 * k + 16)).
Proof.
  intros Hk. cbv zeta. split; [by apply RepairCount_pos|].
  unfold RepairCount. destruct (fle lossRate f0); [split; (done || lia)|].
  set (p := if flt _ _ then _ else _). destruct (Z.eqb_spec k 1) as [->|Hk1]; [done|].
  pose proof (repair_search_spec (Z.to_nat (k * 12 + 16 - k)) k (k + 1) (k * 12 + 16) p ltac:(lia) ltac:(lia))
    as [H1 H2]. cbv zeta in *. set (r := repair_search _ _ _ _ _ _) in *.
  destruct H2 as [[Hr Hs]|[Hr _]].
  - split; [lia|]. intros _ _. split; [done|by left].
  - split; [lia|]. intros _ _. split; [done|]. right. lia.
Qed.
