(* ===== verification/Bundle.v ===== *)
(** * Record bundles (internal/bundle/bundle.go)

    The framing of a batch of records under one area, with its origin table, and
    the compressed form with its header. The zstd library is a parameter: an
    encoder and a decoder for each dictionary's options. *)

From S2P Require Import Prelude Binary Identity Order Records.

Definition FormatVersion : byte := Byte.x01.
Definition MaxRecords : Z := 256.
Definition MaxOrigins : Z := 64.
Definition MaxDecompressed : Z := 1048576.

Record Bundle := mkBundle {
  B_Area : AreaTag;
  BaseTS : Z;  (* uint32 *)
  DictID : byte;
  B_Records : list Rec
}.

Inductive bundle_error :=
| ErrTruncated
| ErrTooMany (n : Z)
| ErrBomb (n : Z)
| ErrEmptyBatch
| ErrNotCanonicalVarint (got want : Z)
| RepeatedOrigin (o : NodeID)
| NotFirstAppearance (idx next : Z)
| UnusedOrigins (declared used : Z)
| OriginOutOfTable (idx n : Z)
| BadRecord (e : codec_error)
| OriginDisagrees (table rec : NodeID)
| DeltaDisagrees
| TrailingAfterBundle (n : Z)
| UnsupportedBundleVersion (v : byte)
| ErrUnknownDictionary (id : byte)
| DecompressFailed
| BadDictionary.

#[export] Instance bundle_error_eq_dec : EqDecision bundle_error.
Proof. solve_decision. Defined.

Definition canonicalUvarint (b : bytes) : result bundle_error (Z * bytes) :=
  read_uvarint_canonical ErrTruncated ErrNotCanonicalVarint b.
Definition canonicalVarint (b : bytes) : result bundle_error (Z * bytes) :=
  read_varint_canonical ErrTruncated ErrNotCanonicalVarint b.

Lemma canonicalUvarint_append x r :
  is_u64 x → canonicalUvarint (append_uvarint x ++ r) = Ok (x, r).
Proof. intros. by apply read_uvarint_canonical_Ok. Qed.
Lemma canonicalVarint_append x r :
  is_i64 x → canonicalVarint (append_varint x ++ r) = Ok (x, r).
Proof. intros. by apply read_varint_canonical_Ok. Qed.

(** ** Writing the body *)

(** The origin table, in first-appearance order. *)
Definition add_origin (t : list NodeID) (r : Rec) : list NodeID :=
  if decide (Origin (fields r) ∈ t) then t else t ++ [Origin (fields r)].
Definition origin_table (t : list NodeID) (rs : list Rec) : list NodeID := foldl add_origin t rs.

(** [index[r.Origin]]: the position in the table. *)
Definition index_of (t : list NodeID) (o : NodeID) : nat :=
  match list_find (λ x, x = o) t with Some (i, _) => i | None => O end.

Definition encode_record (base : Z) (t : list NodeID) (r : Rec) : bytes :=
  let raw := Marshal r in
  z2b (Z.of_nat (index_of t (Origin (fields r)))) ::
  append_varint (i64 (TS (fields r) - base)) ++ append_uvarint (strlen raw) ++ raw.

Definition encodeBody (b : Bundle) : result bundle_error bytes :=
  let origins := origin_table [] (B_Records b) in
  let n := Z.of_nat (length origins) in
  _ ← require (negb (MaxOrigins <? n)) (ErrTooMany n);
  Ok (vec_to_list (B_Area b) ++ be_bytes 4 (BaseTS b) ++ [z2b n] ++
      (origins ≫= λ o, vec_to_list o) ++
      append_uvarint (Z.of_nat (length (B_Records b))) ++
      (B_Records b ≫= encode_record (BaseTS b) origins)).

(** ** Reading it *)

Section reading.
Context `{HB : Blake3, HE : Ed25519}.

Fixpoint read_origins (n : nat) (seen : list NodeID) (b : bytes)
    : result bundle_error (list NodeID * bytes) :=
  match n with
  | O => Ok (seen, b)
  | S n' =>
      '(o, b) ← take_arr ErrTruncated 8 b;
      _ ← require (negb (bool_decide (o ∈ seen))) (RepeatedOrigin o);
      read_origins n' (seen ++ [o]) b
  end.

(** The record loop; [next] is [nextExpected]. *)
Fixpoint read_records (base : Z) (origins : list NodeID) (n next : nat) (b : bytes)
    : result bundle_error (list Rec * nat * bytes) :=
  match n with
  | O => Ok ([], next, b)
  | S n' =>
      '(c, b) ← take_byte ErrTruncated b;
      let idx := Z.to_nat (b2z c) in
      _ ← require (bool_decide (idx < length origins)%nat)
            (OriginOutOfTable (Z.of_nat idx) (Z.of_nat (length origins)));
      _ ← require (bool_decide (idx ≤ next)%nat) (NotFirstAppearance (Z.of_nat idx) (Z.of_nat next));
      let next := if decide (idx = next) then S next else next in
      '(delta, b) ← canonicalVarint b;
      '(recLen, b) ← canonicalUvarint b;
      _ ← require (recLen <=? strlen b) ErrTruncated;
      '(raw, b) ← take_n ErrTruncated (Z.to_nat recLen) b;
      r ← wrap_err BadRecord (Unmarshal raw);
      let o := nth idx origins zero_id in
      _ ← require (bool_decide (Origin (fields r) = o)) (OriginDisagrees o (Origin (fields r)));
      _ ← require (TS (fields r) =? i64 (base + delta)) DeltaDisagrees;
      '(rs, next, b) ← read_records base origins n' next b;
      Ok (r :: rs, next, b)
  end.

Definition decodeBody (b : bytes) : result bundle_error Bundle :=
  _ ← require (9 <=? strlen b) ErrTruncated;
  '(area, b) ← take_arr ErrTruncated 4 b;
  '(base, b) ← take_be ErrTruncated 4 b;
  '(c, b) ← take_byte ErrTruncated b;
  let originCount := b2z c in
  _ ← require (negb ((originCount =? 0) || (MaxOrigins <? originCount))) (ErrTooMany originCount);
  _ ← require (originCount * Z.of_nat NodeIDLen <=? strlen b) ErrTruncated;
  '(origins, b) ← read_origins (Z.to_nat originCount) [] b;
  '(count, b) ← canonicalUvarint b;
  _ ← require (negb (count =? 0)) ErrEmptyBatch;
  _ ← require (count <=? MaxRecords) (ErrTooMany count);
  '(rs, next, b) ← read_records base origins (Z.to_nat count) 0 b;
  _ ← require (bool_decide (next = length origins))
        (UnusedOrigins originCount (Z.of_nat next));
  _ ← require (bool_decide (b = [])) (TrailingAfterBundle (strlen b));
  Ok (mkBundle area base Byte.x00 rs).

(** ** The compressed form *)

(** What a zstd encoder and decoder are built with: nothing, the product of
    [zstd --train], or a raw corpus under an identifier. *)
Inductive zstd_options :=
| PlainZstd
| TrainedDict (trained : bytes)
| RawDict (id : Z) (content : bytes).

#[export] Instance zstd_options_eq_dec : EqDecision zstd_options.
Proof. solve_decision. Defined.

(** A dictionary; [codec] stands for its [encoder] and [decoder] fields, a pair
    the library built from those options. *)
Record Dictionary := mkDictionary { dict_id : byte; dict_raw : bytes; codec : zstd_options }.

(** klauspost/compress/zstd: whether the library accepts the options, and the
    two directions of the codec it builds, the decoder limited to
    [MaxDecompressed] of memory. *)
Class Zstd := {
  zstd_accepts : zstd_options → bool;
  EncodeAll : zstd_options → bytes → bytes;
  DecodeAll : zstd_options → bytes → option bytes
}.

Context `{HZ : Zstd}.

Definition newDictionary (id : byte) (raw : bytes) (o : zstd_options) : result bundle_error Dictionary :=
  _ ← require (zstd_accepts o) BadDictionary;
  Ok (mkDictionary id raw o).

Definition NewDictionary (id : byte) (trained : bytes) : result bundle_error Dictionary :=
  newDictionary id trained (if 0 <? strlen trained then TrainedDict trained else PlainZstd).

Definition NewRawDictionary (id : byte) (content : bytes) : result bundle_error Dictionary :=
  if strlen content =? 0 then NewDictionary id []
  else newDictionary id content (RawDict (b2z id) content).

Definition Compress (d : Dictionary) (payload : bytes) : bytes := EncodeAll (codec d) payload.

Definition Decompress (d : Dictionary) (data : bytes) (declared : Z) : result bundle_error bytes :=
  if (declared <? 0) || (MaxDecompressed <? declared) then Err (ErrBomb declared)
  else
    match DecodeAll (codec d) data with
    | None => Err DecompressFailed
    | Some out => if strlen out =? declared then Ok out else Err (ErrBomb (strlen out))
    end.

Abbreviation DictionarySet := (gmap byte Dictionary).

(** Dictionary 0 is plain zstd; later entries of the same ID replace earlier. *)
Definition NewDictionarySet (dicts : list Dictionary) : result bundle_error DictionarySet :=
  plain ← NewDictionary Byte.x00 [];
  Ok (foldl (λ s d, <[dict_id d := d]> s) {[ Byte.x00 := plain ]} dicts).

Definition DictionarySet_Get (s : DictionarySet) (id : byte) : result bundle_error Dictionary :=
  match s !! id with Some d => Ok d | None => Err (ErrUnknownDictionary id) end.

Definition Highest (s : DictionarySet) : Z :=
  map_fold (λ id _ m, if m <? b2z id then b2z id else m) 0 s.

Definition IDs (s : DictionarySet) : list byte := sort_by b2z Z.ltb (map_to_list s).*1.

Definition Pack (b : Bundle) (dict : Dictionary) : result bundle_error bytes :=
  let n := Z.of_nat (length (B_Records b)) in
  _ ← require (negb (n =? 0)) ErrEmptyBatch;
  _ ← require (negb (MaxRecords <? n)) (ErrTooMany n);
  payload ← encodeBody b;
  Ok ([FormatVersion; dict_id dict] ++ append_uvarint (strlen payload) ++ Compress dict payload).

Definition Unpack (data : bytes) (dicts : DictionarySet) : result bundle_error Bundle :=
  _ ← require (3 <=? strlen data) ErrTruncated;
  '(v, rest) ← take_byte ErrTruncated data;
  _ ← require (bool_decide (v = FormatVersion)) (UnsupportedBundleVersion v);
  '(dictID, rest) ← take_byte ErrTruncated rest;
  '(declared, rest) ← read_uvarint ErrTruncated rest;
  _ ← require (declared <=? MaxDecompressed) (ErrBomb declared);
  dict ← DictionarySet_Get dicts dictID;
  payload ← Decompress dict rest declared;
  decodeBody payload.

(** ** The origin table *)

Lemma origin_table_prefix t rs : t `prefix_of` origin_table t rs.
Proof.
  unfold origin_table. revert t. induction rs as [|r rs IH]; intros t; [done|]. cbn [foldl].
  etrans; [|apply IH]. unfold add_origin. case_decide; [done|]. by apply prefix_app_r.
Qed.

Lemma origin_table_NoDup t rs : NoDup t → NoDup (origin_table t rs).
Proof.
  unfold origin_table. revert t. induction rs as [|r rs IH]; intros t Ht; [done|]. cbn [foldl].
  apply IH. unfold add_origin. case_decide; [done|]. apply NoDup_app.
  split_and!; [done| |apply NoDup_singleton]. by intros x Hx ->%list_elem_of_singleton.
Qed.

Lemma index_of_lookup t o : o ∈ t → t !! index_of t o = Some o ∧ (index_of t o < length t)%nat.
Proof.
  intros Ho. unfold index_of. destruct (list_find (λ x, x = o) t) as [[i x]|] eqn:E.
  - apply list_find_Some in E as (Hi & -> & _). split; [done|]. by eapply lookup_lt_Some.
  - apply list_find_None in E. rewrite Forall_forall in E. by destruct (E o Ho).
Qed.

Lemma index_of_eq t o i : NoDup t → t !! i = Some o → index_of t o = i.
Proof.
  intros Hnd Hi. destruct (index_of_lookup t o) as [Hx _]; [by eapply list_elem_of_lookup_2|].
  by eapply NoDup_lookup.
Qed.

Lemma read_origins_Ok n seen b t r :
  NoDup seen →
  read_origins n seen b = Ok (t, r) ↔
  ∃ l, length l = n ∧ t = seen ++ l ∧ NoDup t ∧ b = (l ≫= λ o, vec_to_list o) ++ r.
Proof.
  revert seen b. induction n as [|n IH]; intros seen b Hnd; cbn [read_origins].
  { rewrite Ok_inj. split.
    - intros [= <- ->]. exists []. by rewrite app_nil_r.
    - intros (l & ->%length_zero_iff_nil & -> & _ & ->). by rewrite app_nil_r. }
  split.
  - intros ([o b1] & ->%take_arr_Ok & (Ho%require_neg_decide & H)%bind_unit_Ok)%bind_Ok.
    apply IH in H as (l & <- & -> & Ht & ->).
    2:{ apply NoDup_app. split_and!; [done| |apply NoDup_singleton].
        by intros x Hx ->%list_elem_of_singleton. }
    exists (o :: l). cbn. rewrite <- !app_assoc in *. done.
  - intros ([|o l] & Hl & -> & Ht & ->); [done|]. injection Hl as Hl.
    assert (NoDup (seen ++ [o]) ∧ o ∉ seen) as [Hnd' Ho].
    { rewrite cons_middle, app_assoc in Ht. apply NoDup_app in Ht as [Ht _]. split; [done|].
      apply NoDup_app in Ht as (_ & Hd & _). intros Hin. apply (Hd o Hin). constructor. }
    cbn. rewrite <- app_assoc. run (by apply take_arr_Ok).
    run (by apply require_neg_decide). apply IH; [done|]. exists l. rewrite <- app_assoc. done.
Qed.

(** A well-formed record's wire form is short. *)
Lemma length_Marshal r : wf_rec r → 85 ≤ strlen (Marshal r) ≤ 8311.
Proof.
  intros (Hs & _ & (_ & Hb & _ & Hw)%canonicalBytes_Ok & _). unfold Marshal. rewrite Hw.
  pose proof (length_canonical_wire (fields r)).
  assert (strlen (canonical_wire (fields r)) ≤ 8247); unfold strlen in *;
    rewrite ?length_app, ?length_vec_to_list; [|lia].
  unfold canonical_wire, strlen. pose proof (length_append_uvarint_le _ Hs).
  assert (Hu : is_u64 (Z.of_nat (length (Body (fields r))))) by (unfold MaxBodyLen in Hb; widths).
  pose proof (length_append_uvarint_le _ Hu). unfold MaxBodyLen in Hb.
  repeat (rewrite ?length_app, ?length_vec_to_list, ?length_be_bytes; cbn [length]).
  destruct (HasParent (fields r)); rewrite ?length_vec_to_list; cbn [length]; lia.
Qed.

Lemma delta_wrap base delta ts :
  is_u32 base → is_u32 ts → is_i64 delta → ts = i64 (base + delta) → delta = i64 (ts - base).
Proof.
  intros Hb Ht Hd E. unfold i64, is_i64 in *. unfold_widths.
  pose proof (Z.mod_pos_bound (base + delta + 2 ^ 63) (2 ^ 64) ltac:(lia)).
  pose proof (Z.div_mod (base + delta + 2 ^ 63) (2 ^ 64) ltac:(lia)).
  rewrite Z.mod_small by lia. nia.
Qed.

Lemma encode_record_read base t r c rest :
  is_u32 base → wf_rec r → c = z2b (Z.of_nat (index_of t (Origin (fields r)))) →
  encode_record base t r ++ rest =
    c :: append_varint (i64 (TS (fields r) - base)) ++
         append_uvarint (strlen (Marshal r)) ++ Marshal r ++ rest.
Proof. intros _ _ ->. unfold encode_record. cbn. by rewrite <- !app_assoc. Qed.

Lemma take_S_snoc {A : Type} (l : list A) i x : l !! i = Some x → take (S i) l = take i l ++ [x].
Proof. apply take_S_r. Qed.

(** The table after one more record, as a prefix of the whole. *)
Lemma add_origin_step origins ne idx r :
  NoDup origins → origins !! idx = Some (Origin (fields r)) → (idx ≤ ne)%nat →
  add_origin (take ne origins) r = take (if decide (idx = ne) then S ne else ne) origins.
Proof.
  intros Hnd Hi Hle. unfold add_origin. destruct (decide (idx = ne)) as [->|Hne].
  - rewrite decide_False, (take_S_snoc _ _ _ Hi); [done|].
    intros (j & Hj)%list_elem_of_lookup. apply lookup_take_Some in Hj as [Hj Hlt].
    pose proof (NoDup_lookup _ _ _ _ Hnd Hi Hj). lia.
  - rewrite decide_True; [done|]. apply list_elem_of_lookup. exists idx.
    apply lookup_take_Some. split; [done|lia].
Qed.

Lemma add_origin_inv origins ne ne' r rs :
  NoDup origins → origin_table (take ne origins) (r :: rs) = take ne' origins →
  ∃ idx, origins !! idx = Some (Origin (fields r)) ∧ (idx ≤ ne)%nat.
Proof.
  intros Hnd Ht. unfold origin_table in Ht. cbn [foldl] in Ht.
  pose proof (origin_table_prefix (add_origin (take ne origins) r) rs) as [k Hk].
  unfold origin_table in Hk. rewrite Ht in Hk. unfold add_origin in Hk. case_decide as Hin.
  - apply list_elem_of_lookup in Hin as [i Hi]. apply lookup_take_Some in Hi as [Hi Hlt].
    exists i. split; [done|lia].
  - exists (length (take ne origins)). split; [|rewrite length_take; lia].
    assert (take ne' origins !! length (take ne origins) = Some (Origin (fields r))) as Hl.
    { rewrite Hk, <- app_assoc. by rewrite lookup_app_r, Nat.sub_diag by lia. }
    by apply lookup_take_Some in Hl as [Hl _].
Qed.

Lemma read_records_Ok base origins n ne b rs ne' rest :
  is_u32 base → NoDup origins → Z.of_nat (length origins) ≤ MaxOrigins → (ne ≤ length origins)%nat →
  read_records base origins n ne b = Ok (rs, ne', rest) ↔
  length rs = n ∧ Forall wf_rec rs ∧ (ne' ≤ length origins)%nat ∧
  origin_table (take ne origins) rs = take ne' origins ∧
  b = (rs ≫= encode_record base origins) ++ rest.
Proof.
  intros Hbase Hnd Hmax. revert ne b rs. unfold MaxOrigins in Hmax.
  induction n as [|n IH]; intros ne b rs Hne; cbn [read_records].
  { rewrite Ok_inj. split.
    - intros [= <- <- ->]. done.
    - intros (->%length_zero_iff_nil & _ & Hn' & Ht & ->). cbn in Ht.
      apply (f_equal length) in Ht. rewrite !length_take in Ht. do 3 f_equal. lia. }
  split.
  - intros ([c b1] & ->%take_byte_Ok & (Hlt%require_Ok%bool_decide_eq_true & H)%bind_unit_Ok)%bind_Ok.
    apply bind_unit_Ok in H as [Hle%require_Ok%bool_decide_eq_true H].
    apply bind_Ok in H as ([delta b2] & [Hd ->]%read_varint_canonical_Ok & H).
    apply bind_Ok in H as ([len b3] & [Hl ->]%read_uvarint_canonical_Ok & H).
    apply bind_unit_Ok in H as [_ H]. apply bind_Ok in H as ([raw b4] & [-> Hraw]%take_n_Ok & H).
    apply bind_Ok in H as (r & [Hw Hm]%wrap_err_Ok%Unmarshal_sound & H).
    apply bind_unit_Ok in H as [Ho%require_Ok%bool_decide_eq_true H].
    apply bind_unit_Ok in H as [Hts%require_Ok%Z.eqb_eq H].
    apply bind_Ok in H as ([[rs' ne1] b5] & Hrec & [= <- <- <-]).
    set (idx := Z.to_nat (b2z c)) in *.
    destruct (lookup_lt_is_Some_2 origins idx Hlt) as [o Hoi].
    rewrite (nth_lookup_Some _ _ _ _ Hoi) in Ho. subst o.
    apply IH in Hrec as (<- & Hws & Hn1 & Ht & ->); [|case_decide; lia].
    split_and!; [done|by constructor|done| |].
    + unfold origin_table. cbn [foldl]. by rewrite (add_origin_step origins ne idx).
    + change ((r :: rs') ≫= encode_record base origins)
        with (encode_record base origins r ++ (rs' ≫= encode_record base origins)).
      rewrite <- app_assoc, (encode_record_read _ _ _ c); [|done..|].
      * assert (Htsu : is_u32 (TS (fields r))) by apply Hw.
        rewrite <- (delta_wrap base delta) by done. subst raw.
        assert (len = strlen (Marshal r)) as -> by (unfold strlen, is_u64 in *; lia). done.
      * rewrite (index_of_eq _ _ _ Hnd Hoi). unfold idx. rewrite Z2Nat.id by apply b2z_range.
        by rewrite z2b_b2z.
  - intros (Hl & Hws & Hn' & Ht & ->). destruct rs as [|r rs]; [done|]. injection Hl as Hl.
    apply Forall_cons in Hws as [Hw Hws].
    destruct (add_origin_inv _ _ _ _ _ Hnd Ht) as (idx & Hoi & Hle).
    pose proof (lookup_lt_Some _ _ _ Hoi) as Hlt. pose proof (index_of_eq _ _ _ Hnd Hoi) as Hix.
    change ((r :: rs) ≫= encode_record base origins)
      with (encode_record base origins r ++ (rs ≫= encode_record base origins)).
    rewrite <- app_assoc, (encode_record_read _ _ _ (z2b (Z.of_nat idx))); [|done..|by rewrite Hix].
    run done. rewrite b2z_z2b_small, Nat2Z.id by lia.
    run (by apply require_Ok, bool_decide_eq_true). run (by apply require_Ok, bool_decide_eq_true).
    run (apply canonicalVarint_append, i64_is_i64).
    pose proof (length_Marshal r Hw) as Hlm.
    run (apply canonicalUvarint_append; widths).
    run (apply require_Ok, Z.leb_le; unfold strlen; rewrite length_app; lia).
    run (apply take_n_app; unfold strlen; by rewrite Nat2Z.id).
    run (by apply wrap_err_Ok, Unmarshal_Marshal).
    rewrite (nth_lookup_Some _ _ _ _ Hoi). run (by apply require_Ok, bool_decide_eq_true).
    assert (Htsu : is_u32 (TS (fields r))) by apply Hw.
    run (apply require_Ok, Z.eqb_eq; rewrite (i64_id (TS _ - base)) by widths;
      rewrite i64_id by widths; lia).
    unfold origin_table in Ht. cbn [foldl] in Ht. rewrite (add_origin_step origins ne idx) in Ht by done.
    eapply bind_step; [apply IH; [case_decide; lia|]; split_and!; [exact Hl|exact Hws|exact Hn'|exact Ht|reflexivity]|].
    done.
Qed.

(** The bundles that have a body: what [decodeBody] returns. *)
Definition wf_bundle (bd : Bundle) : Prop :=
  is_u32 (BaseTS bd) ∧ DictID bd = Byte.x00 ∧
  1 ≤ Z.of_nat (length (B_Records bd)) ≤ MaxRecords ∧
  Z.of_nat (length (origin_table [] (B_Records bd))) ≤ MaxOrigins ∧
  Forall wf_rec (B_Records bd).

Lemma encodeBody_Ok bd b :
  encodeBody bd = Ok b ↔
  Z.of_nat (length (origin_table [] (B_Records bd))) ≤ MaxOrigins ∧
  b = vec_to_list (B_Area bd) ++ be_bytes 4 (BaseTS bd) ++
      [z2b (Z.of_nat (length (origin_table [] (B_Records bd))))] ++
      (origin_table [] (B_Records bd) ≫= λ o, vec_to_list o) ++
      append_uvarint (Z.of_nat (length (B_Records bd))) ++
      (B_Records bd ≫= encode_record (BaseTS bd) (origin_table [] (B_Records bd))).
Proof.
  unfold encodeBody. rewrite bind_unit_Ok, require_Ok, negb_true_iff, Z.ltb_ge, Ok_inj.
  naive_solver.
Qed.

Lemma origin_table_nonempty r rs : (1 ≤ length (origin_table [] (r :: rs)))%nat.
Proof.
  change (origin_table [] (r :: rs)) with (origin_table [Origin (fields r)] rs).
  destruct (origin_table_prefix [Origin (fields r)] rs) as [k ->].
  rewrite length_app. cbn. lia.
Qed.

Lemma decodeBody_sound b bd : decodeBody b = Ok bd → wf_bundle bd ∧ encodeBody bd = Ok b.
Proof.
  unfold decodeBody. intros [_ H]%bind_unit_Ok.
  apply bind_Ok in H as ([area b1] & ->%take_arr_Ok & H).
  apply bind_Ok in H as ([base b2] & [-> Hbase]%take_be_Ok & H).
  apply bind_Ok in H as ([c b3] & ->%take_byte_Ok & H).
  apply bind_unit_Ok in H as [Hc%require_Ok%negb_true_iff%orb_false_iff H].
  destruct Hc as [Hc0%Z.eqb_neq Hc1%Z.ltb_ge].
  apply bind_unit_Ok in H as [_ H]. apply bind_Ok in H as ([origins b4] & Ho & H).
  apply read_origins_Ok in Ho as (l & Hl & -> & Hnd & ->); [|constructor]. cbn [app] in *.
  apply bind_Ok in H as ([count b5] & [Hcount ->]%read_uvarint_canonical_Ok & H).
  apply bind_unit_Ok in H as [Hn0%require_Ok%negb_true_iff%Z.eqb_neq H].
  apply bind_unit_Ok in H as [Hn1%require_Ok%Z.leb_le H].
  apply bind_Ok in H as ([[rs ne] b6] & Hr & H).
  apply bind_unit_Ok in H as [Hne%require_Ok%bool_decide_eq_true H]. subst ne.
  apply bind_unit_Ok in H as [->%require_Ok%bool_decide_eq_true [= <-]].
  assert (is_u64 count) as Hcu by done. pose proof (b2z_range c).
  apply read_records_Ok in Hr as (Hlen & Hws & _ & Ht & ->); [|done|done|lia|lia].
  rewrite take_0, take_ge in Ht by lia. rewrite app_nil_r.
  assert (Z.of_nat (length rs) = count) as Hcnt by widths.
  split.
  - split_and!; cbn [BaseTS DictID B_Records]; [done|done|widths|lia|rewrite Ht; lia|done].
  - apply encodeBody_Ok. cbn [B_Area BaseTS B_Records]. rewrite Ht, Hcnt, Hl, Z2Nat.id by lia.
    rewrite z2b_b2z. split; [lia|]. done.
Qed.

Lemma length_concat_ids (l : list NodeID) :
  length (l ≫= λ o, vec_to_list o) = (8 * length l)%nat.
Proof.
  induction l as [|o l IH]; [done|]. rewrite bind_cons, length_app, length_vec_to_list, IH.
  cbn [length]. lia.
Qed.

Lemma decodeBody_complete b bd : wf_bundle bd → encodeBody bd = Ok b → decodeBody b = Ok bd.
Proof.
  destruct bd as [area base id rs]. unfold wf_bundle. cbn [BaseTS DictID B_Records].
  intros (Hb & -> & Hn & Ho & Hws) [_ ->]%encodeBody_Ok. cbn [B_Area BaseTS B_Records].
  set (t := origin_table [] rs) in *. unfold MaxOrigins, MaxRecords in *.
  assert (Ht1 : (1 ≤ length t)%nat).
  { destruct rs as [|r rs]; [cbn in Hn; lia|]. apply origin_table_nonempty. }
  assert (Hnd : NoDup t) by (apply origin_table_NoDup; constructor).
  unfold decodeBody.
  run (apply require_Ok, Z.leb_le; unfold strlen;
       rewrite !length_app, length_vec_to_list, length_be_bytes; cbn [length]; lia).
  run (by apply take_arr_Ok). run (by apply take_be_Ok). run (by apply take_byte_Ok).
  rewrite b2z_z2b_small by lia.
  run (apply require_Ok, negb_true_iff, orb_false_iff; split;
       [apply Z.eqb_neq|apply Z.ltb_ge]; unfold MaxOrigins; lia).
  run (apply require_Ok, Z.leb_le; unfold strlen, NodeIDLen;
       rewrite !length_app, length_concat_ids; lia).
  eapply (bind_step _ _ (t, _)).
  { apply read_origins_Ok; [constructor|]. exists t. rewrite Nat2Z.id. done. }
  cbn beta iota.
  run (apply canonicalUvarint_append; widths).
  run (apply require_Ok, negb_true_iff, Z.eqb_neq; lia).
  run (apply require_Ok, Z.leb_le; unfold MaxRecords; lia).
  eapply (bind_step _ _ (rs, length t, [])).
  { apply read_records_Ok; [done|done|unfold MaxOrigins; lia|lia|].
    rewrite take_0, (take_ge t), Nat2Z.id, app_nil_r by lia. done. }
  cbn beta iota. run (by apply require_Ok, bool_decide_eq_true).
  run (by apply require_Ok, bool_decide_eq_true). done.
Qed.

(** The uncompressed framing is canonical. The bodies [decodeBody] accepts
    are exactly what [encodeBody] writes for a well-formed bundle, and the
    decoded bundle is that one: a batch has one wire form, and the bundle
    identifier derived from it is stable. *)
Theorem decodeBody_iff b bd : decodeBody b = Ok bd ↔ wf_bundle bd ∧ encodeBody bd = Ok b.
Proof. split; [apply decodeBody_sound|]. intros []. by apply decodeBody_complete. Qed.

(** ** The compressed form round-trips *)

Lemma DictionarySet_Get_Ok s id d : DictionarySet_Get s id = Ok d ↔ s !! id = Some d.
Proof. unfold DictionarySet_Get. destruct (s !! id); naive_solver. Qed.

Lemma Decompress_Ok d data declared out :
  Decompress d data declared = Ok out ↔
  0 ≤ declared ≤ MaxDecompressed ∧ DecodeAll (codec d) data = Some out ∧ strlen out = declared.
Proof.
  unfold Decompress. destruct (Z.ltb_spec declared 0), (Z.ltb_spec MaxDecompressed declared);
    cbn [orb]; [split; [done|lia]..|].
  destruct (DecodeAll (codec d) data) as [o|]; [|naive_solver].
  destruct (Z.eqb_spec (strlen o) declared); naive_solver.
Qed.

(** What [Unpack] returns, step by step. *)
Lemma Unpack_Ok data dicts bd :
  Unpack data dicts = Ok bd ↔
  ∃ id rest declared frame d payload,
    data = FormatVersion :: id :: rest ∧ (1 ≤ length rest)%nat ∧
    read_uvarint ErrTruncated rest = Ok (declared, frame) ∧
    dicts !! id = Some d ∧ Decompress d frame declared = Ok payload ∧ decodeBody payload = Ok bd.
Proof.
  unfold Unpack. split.
  - intros [Hl%require_Ok%Z.leb_le H]%bind_unit_Ok.
    apply bind_Ok in H as ([v r1] & ->%take_byte_Ok & H).
    apply bind_unit_Ok in H as [->%require_Ok%bool_decide_eq_true H].
    apply bind_Ok in H as ([id r2] & ->%take_byte_Ok & H).
    apply bind_Ok in H as ([declared r3] & Hd & H). apply bind_unit_Ok in H as [_ H].
    apply bind_Ok in H as (d & Hg%DictionarySet_Get_Ok & H).
    apply bind_Ok in H as (payload & Hp & H). unfold strlen in Hl. cbn [length] in Hl.
    exists id, r2, declared, r3, d, payload. split_and!; try done. lia.
  - intros (id & rest & declared & frame & d & payload & -> & Hl & Hd & Hg & Hp & H).
    run (apply require_Ok, Z.leb_le; unfold strlen; cbn [length]; lia).
    run done. run (by apply require_Ok, bool_decide_eq_true). run done. run (exact Hd).
    apply Decompress_Ok in Hp as Hp'. run (apply require_Ok, Z.leb_le; lia).
    run (by apply DictionarySet_Get_Ok). run (exact Hp). done.
Qed.

Lemma Unpack_wf data dicts bd : Unpack data dicts = Ok bd → wf_bundle bd.
Proof. intros (?&?&?&?&?&?&_&_&_&_&_&[H _]%decodeBody_sound)%Unpack_Ok. done. Qed.

(** The decompression bound and the integrity of an unpacked batch.
    Whatever bytes a peer sends, a bundle [Unpack] returns is well formed, is
    the one its payload encodes, and that payload is no longer than
    [MaxDecompressed] and exactly as long as the uncompressed header said. *)
Theorem Unpack_sound data dicts bd :
  Unpack data dicts = Ok bd →
  wf_bundle bd ∧ ∃ payload frame rest,
    encodeBody bd = Ok payload ∧ strlen payload ≤ MaxDecompressed ∧
    read_uvarint ErrTruncated rest = Ok (strlen payload, frame) ∧ drop 2 data = rest.
Proof.
  intros (id & rest & declared & frame & d & payload & -> & _ & Hd & _ & Hp & H)%Unpack_Ok.
  apply Decompress_Ok in Hp as (Hm & _ & <-). apply decodeBody_sound in H as [Hwf He].
  split; [done|]. exists payload, frame, rest. split_and!; [done|lia|done|done].
Qed.

(** zstd's contract for one dictionary: what it compressed decompresses to
    what went in. *)
Definition zstd_roundtrips (o : zstd_options) : Prop :=
  ∀ payload, DecodeAll o (EncodeAll o payload) = Some payload.

Lemma Pack_Unpack_spec bd d dicts :
  wf_bundle bd → zstd_roundtrips (codec d) → dicts !! dict_id d = Some d →
  ∃ payload data, encodeBody bd = Ok payload ∧ Pack bd d = Ok data ∧
    (strlen payload < 2 ^ 63 →
     Unpack data dicts = if strlen payload <=? MaxDecompressed then Ok bd
                         else Err (ErrBomb (strlen payload))).
Proof.
  intros Hwf Hz Hd. pose proof Hwf as (_ & _ & Hn & Ho & _).
  assert (∃ payload, encodeBody bd = Ok payload) as [payload He].
  { eexists. apply encodeBody_Ok. split; [done|reflexivity]. }
  exists payload, ([FormatVersion; dict_id d] ++ append_uvarint (strlen payload) ++ Compress d payload).
  split; [done|]. split.
  { unfold Pack. run (apply require_Ok, negb_true_iff, Z.eqb_neq; lia).
    run (apply require_Ok, negb_true_iff, Z.ltb_ge; lia). by run (exact He). }
  intros Hlt. assert (Hu : is_u64 (strlen payload)) by (unfold strlen in *; widths).
  destruct (Z.leb_spec (strlen payload) MaxDecompressed) as [Hm|Hm].
  - apply Unpack_Ok. eexists _, _, (strlen payload), (Compress d payload), d, payload.
    split; [reflexivity|]. split_and!; [|by apply read_uvarint_append|done| |by apply decodeBody_complete].
    + rewrite length_app. pose proof (length_append_uvarint_pos (strlen payload)). lia.
    + apply Decompress_Ok. split_and!; [unfold strlen; lia|done|apply Hz|done].
  - unfold Unpack.
    run (apply require_Ok, Z.leb_le; unfold strlen; rewrite !length_app; cbn [length];
         pose proof (length_append_uvarint_pos (strlen payload)); unfold strlen in *; lia).
    run done. run (by apply require_Ok, bool_decide_eq_true). run done.
    run (by apply read_uvarint_append). unfold require.
    by rewrite (proj2 (Z.leb_gt _ _) Hm).
Qed.

(** Packing and unpacking. A well-formed batch packs; the receiver that
    holds the dictionary gets back exactly that batch, unless the framing is
    longer than [MaxDecompressed], which [Pack] does not check and every
    [Unpack] refuses. *)
Theorem Pack_Unpack bd d dicts :
  wf_bundle bd → zstd_roundtrips (codec d) → dicts !! dict_id d = Some d →
  ∃ payload data, encodeBody bd = Ok payload ∧ Pack bd d = Ok data ∧
    (strlen payload < 2 ^ 63 →
     Unpack data dicts = if strlen payload <=? MaxDecompressed then Ok bd
                         else Err (ErrBomb (strlen payload))).
Proof. apply Pack_Unpack_spec. Qed.

(** The header's declared length is read with [binary.Uvarint], which accepts
    a padded encoding: the same bundle has a second wire form, hence a second
    bundle identifier, although one logical bundle is meant to have one. *)
Lemma Unpack_overlong_header x id frame dicts :
  0 ≤ x < 128 →
  Unpack ([FormatVersion; id; z2b (x + 128); Byte.x00] ++ frame) dicts =
  Unpack ([FormatVersion; id; z2b x] ++ frame) dicts.
Proof.
  intros Hx. assert (Hshort : append_uvarint x = [z2b x]).
  { unfold append_uvarint. cbn [append_uvarint_fuel].
    destruct (Z.leb_spec 0x80 x); [lia|done]. }
  assert (read_uvarint ErrTruncated (z2b (x + 128) :: Byte.x00 :: frame) =@{result bundle_error _}
          Ok (x, frame)) as Hlong.
  { unfold read_uvarint, uvarint. change 0 with (7 * 0) at 3.
    change (z2b (x + 128) :: Byte.x00 :: frame) with ([z2b (x + 128); Byte.x00] ++ frame).
    assert (val7 [z2b (x + 128); Byte.x00] = x) as Hv.
    { cbn [val7]. rewrite b2z_z2b_small by lia. change (b2z Byte.x00) with 0.
      change (0 mod 128) with 0. replace (x + 128) with (x + 1 * 128) by lia.
      rewrite Z.mod_add, Z.mod_small by lia. lia. }
    rewrite uvarint_loop_complete, Hv; [f_equal; f_equal; lia|lia| |cbn; lia|cbn; lia|rewrite Hv; lia].
    cbn [is_varint]. rewrite b2z_z2b_small by lia. split; [lia|done]. }
  pose proof (read_uvarint_append (E := bundle_error) ErrTruncated x frame ltac:(widths)) as Hs.
  rewrite Hshort in Hs. cbn [app] in Hs |- *. unfold Unpack.
  do 2 (rewrite (proj2 (Z.leb_le 3 _)) by (unfold strlen; cbn [length]; lia)).
  cbn [require mbind result_bind take_byte]. rewrite !bool_decide_true by done.
  cbn [require mbind result_bind take_byte]. by rewrite Hlong, Hs.
Qed.
(** [Highest] is the largest identifier held, and nothing is held only in the
    empty set: a digest advertising it never promises more than the node has. *)
Lemma Highest_spec (s : DictionarySet) :
  (∀ id, is_Some (s !! id) → b2z id ≤ Highest s) ∧
  (s ≠ ∅ → ∃ id, is_Some (s !! id) ∧ b2z id = Highest s).
Proof.
  cut ((∀ id, is_Some (s !! id) → b2z id ≤ Highest s) ∧
       (s ≠ ∅ → ∃ id, is_Some (s !! id) ∧ b2z id = Highest s) ∧ (s = ∅ → Highest s = 0)); [naive_solver|].
  unfold Highest. revert s.
  refine (map_fold_weak_ind (λ m (s : DictionarySet),
    (∀ id, is_Some (s !! id) → b2z id ≤ m) ∧ (s ≠ ∅ → ∃ id, is_Some (s !! id) ∧ b2z id = m) ∧
    (s = ∅ → m = 0)) _ 0 _ _).
  { split; [|done]. intros id [x Hx]. by rewrite lookup_empty in Hx. }
  intros i x m r Hi (Hle & Hex & He). pose proof (b2z_range i). split_and!.
  - intros id. destruct (decide (i = id)) as [->|Hne].
    + intros _. destruct (Z.ltb_spec r (b2z id)); lia.
    + rewrite lookup_insert_ne by done. intros Hid%Hle. destruct (Z.ltb_spec r (b2z i)); lia.
  - intros _. destruct (Z.ltb_spec r (b2z i)) as [Hlt|Hge].
    { exists i. rewrite lookup_insert_eq. eauto. }
    destruct (decide (m = ∅)) as [->|Hne].
    { exists i. rewrite lookup_insert_eq. specialize (He eq_refl). split; [eauto|lia]. }
    destruct (Hex Hne) as (id & Hid & Hr). exists id. rewrite lookup_insert_ne; [done|].
    intros ->. rewrite Hi in Hid. by destruct Hid.
  - intros Hin. by apply insert_non_empty in Hin.
Qed.

End reading.
