(* ===== verification/Airtime.v ===== *)
(** * LoRa time on air (internal/airtime/airtime.go)

    Semtech's formula in float64, as the code evaluates it, in nanoseconds. *)

From stdpp Require Import strings.
From S2P Require Import Prelude Float64 Identity Schedule.

Record Preset := mkPreset {
  Name : bytes;
  BandwidthHz : Z;
  SpreadFactor : Z;
  CodingRate : Z
}.

#[export] Instance Preset_eq_dec : EqDecision Preset.
Proof. solve_decision. Defined.

Definition LongFast : Preset := mkPreset (str "LONG_FAST") 250000 11 5.
Definition LongSlow : Preset := mkPreset (str "LONG_SLOW") 125000 12 8.
Definition MediumFast : Preset := mkPreset (str "MEDIUM_FAST") 250000 9 5.
Definition MediumSlow : Preset := mkPreset (str "MEDIUM_SLOW") 250000 10 5.
Definition ShortFast : Preset := mkPreset (str "SHORT_FAST") 250000 7 5.
Definition ShortSlow : Preset := mkPreset (str "SHORT_SLOW") 250000 8 5.
Definition ShortTurbo : Preset := mkPreset (str "SHORT_TURBO") 500000 7 5.
Definition VeryLongSlow : Preset := mkPreset (str "VERY_LONG_SLOW") 62500 12 8.

Definition presets : list Preset :=
  [LongFast; LongSlow; MediumFast; MediumSlow; ShortFast; ShortSlow; ShortTurbo; VeryLongSlow].

Inductive airtime_error :=
| UnknownPreset (name : bytes)
| SpreadFactorRange (sf : Z)
| CodingRateRange (cr : Z)
| BandwidthRange (hz : Z).

Definition PresetByName (name : bytes) : result airtime_error Preset :=
  match list_find (λ p, Name p = name) presets with
  | Some (_, p) => Ok p
  | None => Err (UnknownPreset name)
  end.

Definition Custom (bandwidthHz spreadFactor codingRate : Z) : result airtime_error Preset :=
  _ ← require (negb ((spreadFactor <? 7) || (12 <? spreadFactor))) (SpreadFactorRange spreadFactor);
  _ ← require (negb ((codingRate <? 5) || (8 <? codingRate))) (CodingRateRange codingRate);
  _ ← require (negb (bandwidthHz <=? 0)) (BandwidthRange bandwidthHz);
  Ok (mkPreset (str "CUSTOM") bandwidthHz spreadFactor codingRate).

Definition preambleSymbols : Z := 16.
Definition implicitHeader : Z := 0.
Definition crcOn : Z := 1.
Definition HeaderBytes : Z := 256 - 233.

(** [math.Exp2] of a whole number, which is exact: spread factors are 7 to 12. *)
Definition Exp2 (sf : Z) : float64 := of_int (2 ^ sf).

Definition Raw (p : Preset) (n : Z) : Z :=
  let sf := of_int (SpreadFactor p) in
  let ts := fdiv (Exp2 (SpreadFactor p)) (of_int (BandwidthHz p)) in
  let de := if flt (dec 1638 100000) ts then of_int 1 else f0 in
  let tPreamble := fmul (dec (preambleSymbols * 100 + 425) 100) ts in
  let num := fsub (fadd (fadd (fsub (fmul (of_int 8) (of_int n)) (fmul (of_int 4) sf)) (of_int 28))
                        (of_int (16 * crcOn))) (of_int (20 * implicitHeader)) in
  let den := fmul (of_int 4) (fsub sf (fmul (of_int 2) de)) in
  let payloadSymbols := fadd (of_int 8) (fmax0 (fmul (fceil (fdiv num den)) (of_int (CodingRate p)))) in
  to_int64 (fmul (fadd tPreamble (fmul payloadSymbols ts)) (of_int Second)).

Definition Packet (p : Preset) (n : Z) : Z := Raw p (n + HeaderBytes).

Definition Cost (p : Preset) (n : Z) (floodMultiplier : float64) : Z :=
  let r := if flt floodMultiplier (of_int 1) then of_int 1 else floodMultiplier in
  to_int64 (fmul (of_int (Packet p n)) r).

(** ** The figures the design quotes *)

(** A full packet on the default preset, to the nanosecond. *)
Example Packet_LongFast_full : Packet LongFast 233 = 2156544000.
Proof. by vm_compute. Qed.
Example Raw_LongFast_233 : Raw LongFast 233 = 1992704000.
Proof. by vm_compute. Qed.

(** ** The shape of the curve, for every preset and every payload a packet holds *)

Definition packet_facts (p : Preset) (n : nat) : bool :=
  let a := Packet p (Z.of_nat n) in
  (0 <? a) && (a <=? Packet p (Z.of_nat (S n))) && (a <? 60 * Second) &&
  (Packet p (Z.of_nat (2 * n)) <=? 2 * a).

Lemma packet_facts_all : forallb (λ p, forallb (packet_facts p) (seq 0 234)) presets = true.
Proof. vm_cast_no_check (eq_refl true). Qed.

Lemma packet_facts_at p n : p ∈ presets → (n ≤ 233)%nat → packet_facts p n = true.
Proof.
  intros Hp Hn. pose proof packet_facts_all as H. rewrite forallb_forall in H.
  specialize (H p (proj1 (list_elem_of_In _ _) Hp)). rewrite forallb_forall in H.
  apply H, in_seq. lia.
Qed.

(** Time on air is positive, under a minute and non-decreasing in the payload
    for every preset the firmware ships and every payload a packet can hold; and
    it is not superlinear: twice the payload never costs more than twice the
    time, because every packet pays a fixed price first. That is why budgets
    are charged per packet. *)
Theorem Packet_shape p n :
  p ∈ presets → 0 ≤ n ≤ 233 →
  0 < Packet p n < 60 * Second ∧ Packet p n ≤ Packet p (n + 1) ∧
  Packet p (2 * n) ≤ 2 * Packet p n.
Proof.
  intros Hp Hn. pose proof (packet_facts_at p (Z.to_nat n) Hp ltac:(lia)) as H.
  unfold packet_facts in H. rewrite !andb_true_iff, !Z.ltb_lt, !Z.leb_le in H.
  rewrite Nat2Z.inj_succ, Nat2Z.inj_mul, Z2Nat.id in H by lia.
  replace (Z.succ n) with (n + 1) in H by lia. change (Z.of_nat 2) with 2 in H. lia.
Qed.

Lemma Packet_nonneg p n : p ∈ presets → 0 ≤ n ≤ 233 → 0 ≤ Packet p n.
Proof.
  intros Hp Hn. pose proof (packet_facts_at p (Z.to_nat n) Hp ltac:(lia)) as H.
  unfold packet_facts in H. rewrite !andb_true_iff, Z.ltb_lt in H. rewrite Z2Nat.id in H by lia. lia.
Qed.
