(* ===== verification/Governor.v ===== *)
(** * The airtime governor (internal/governor/governor.go)

    A token bucket in channel time, with a reserve per traffic class, a bucket
    per area, quiet hours, telemetry back-off and a regional duty cycle. Times
    and durations are nanoseconds; [now] is the clock's reading, which does not
    move inside an operation. Local time of day, for quiet hours, is a parameter.
    What the sysop is told in words ([Explain]) is not modelled. *)

From stdpp Require Import strings.
From S2P Require Import Prelude Float64 Identity Schedule Airtime.

(** ** Classes and charges *)

Inductive Class :=
| ClassControl | ClassDM | ClassForum | ClassFileCatalog | ClassDoorEvent.
#[export] Instance Class_eq_dec : EqDecision Class.
Proof. solve_decision. Defined.

Abbreviation Tag4 := (arr 4).

Record Charge := mkCharge { ch_Class : Class; ch_Area : Tag4 }.

(** The map [reserve]. *)
Definition reserve (c : Class) : float64 :=
  match c with
  | ClassControl => f0
  | ClassDM => dec 10 100
  | ClassForum => dec 35 100
  | ClassFileCatalog => dec 60 100
  | ClassDoorEvent => dec 70 100
  end.

Definition DefaultCeilingPercent : float64 := of_int 5.
Definition MaxCeilingPercent : float64 := of_int 15.
Definition DefaultFloodMultiplier : float64 := of_int 4.
Definition DefaultInstanceCount : Z := 50.
Definition backoffThreshold : float64 := of_int 25.
Definition silenceThreshold : float64 := of_int 40.
Definition maxPenalty : float64 := of_int 32.

(** Quiet hours: durations since local midnight. *)
Record Window := mkWindow { w_Start : Z; w_End : Z }.

(** [since] is the time of day, to the second. *)
Definition Contains (w : Window) (since : Z) : bool :=
  if w_Start w <=? w_End w then (w_Start w <=? since) && (since <? w_End w)
  else (w_Start w <=? since) || (since <? w_End w).

Record Config := mkConfig {
  cfg_Preset : Preset;
  Region : bytes;
  CeilingPercent : float64;
  Instances : Z;
  FloodMultiplier : float64;
  FloodMultiplierOverride : bool;
  QuietHours : list Window;
  Burst : Z;
  InboundQuotaPerHour : Z;
  AreaShares : gmap Tag4 float64
}.

Definition duty_regions : list bytes := [str "EU_433"; str "EU_868"; str "UA_433"; str "UA_868"].
(** The map [dutyCycleLimit]. *)
Definition dutyCycleLimit (region : bytes) : option float64 :=
  if decide (region ∈ duty_regions) then Some (dec 10 100) else None.

Record areaBucket := mkAreaBucket { share : float64; b_tokens : Z; b_capacity : Z; b_last : Z }.
Record txRecord := mkTx { tx_at : Z; tx_air : Z }.
Record inboundRec := mkInbound { windowStart : Z; in_bytes : Z; alerted : bool }.

Inductive refusal := errQuiet | errBusy | errDuty | errBudget | errArea.
#[export] Instance refusal_eq_dec : EqDecision refusal.
Proof. solve_decision. Defined.

Record Stats := mkStats {
  Allowed : Z;
  Refused : refusal → Z;  (* RefusedBudget, RefusedQuiet, ... *)
  InboundAlerts : Z;
  ChargedChannel : Z
}.

Record Governor := mkGovernor {
  cfg : Config;
  tokens : Z;
  capacity : Z;
  last : Z;
  penalty : float64;
  chanUtil : float64;
  airUtilTx : float64;
  haveTelemetry : bool;
  localTX : list txRecord;
  inbound : gmap NodeID inboundRec;
  sentPackets : Z;
  echoes : Z;
  r : float64;
  areaShares : gmap Tag4 float64;
  areaBuckets : gmap Tag4 areaBucket;
  stats : Stats
}.

(** Field updates. *)
Definition set_bucket (tok lst : Z) (tx : list txRecord) (g : Governor) : Governor :=
  mkGovernor (cfg g) tok (capacity g) lst (penalty g) (chanUtil g) (airUtilTx g) (haveTelemetry g)
    tx (inbound g) (sentPackets g) (echoes g) (r g) (areaShares g) (areaBuckets g) (stats g).
Definition set_tx (tx : list txRecord) (g : Governor) : Governor := set_bucket (tokens g) (last g) tx g.
Definition set_areas (sh : gmap Tag4 float64) (bs : gmap Tag4 areaBucket) (g : Governor) : Governor :=
  mkGovernor (cfg g) (tokens g) (capacity g) (last g) (penalty g) (chanUtil g) (airUtilTx g) (haveTelemetry g)
    (localTX g) (inbound g) (sentPackets g) (echoes g) (r g) sh bs (stats g).
Definition set_stats (s : Stats) (g : Governor) : Governor :=
  mkGovernor (cfg g) (tokens g) (capacity g) (last g) (penalty g) (chanUtil g) (airUtilTx g) (haveTelemetry g)
    (localTX g) (inbound g) (sentPackets g) (echoes g) (r g) (areaShares g) (areaBuckets g) s.
Definition set_radio (pen util tx : float64) (have : bool) (g : Governor) : Governor :=
  mkGovernor (cfg g) (tokens g) (capacity g) (last g) pen util tx have
    (localTX g) (inbound g) (sentPackets g) (echoes g) (r g) (areaShares g) (areaBuckets g) (stats g).
Definition set_counts (sent ech : Z) (R : float64) (g : Governor) : Governor :=
  mkGovernor (cfg g) (tokens g) (capacity g) (last g) (penalty g) (chanUtil g) (airUtilTx g) (haveTelemetry g)
    (localTX g) (inbound g) sent ech R (areaShares g) (areaBuckets g) (stats g).
Definition set_inbound (m : gmap NodeID inboundRec) (g : Governor) : Governor :=
  mkGovernor (cfg g) (tokens g) (capacity g) (last g) (penalty g) (chanUtil g) (airUtilTx g) (haveTelemetry g)
    (localTX g) m (sentPackets g) (echoes g) (r g) (areaShares g) (areaBuckets g) (stats g).
Definition set_config (c : Config) (tok cap : Z) (g : Governor) : Governor :=
  mkGovernor c tok cap (last g) (penalty g) (chanUtil g) (airUtilTx g) (haveTelemetry g)
    (localTX g) (inbound g) (sentPackets g) (echoes g) (r g) (areaShares g) (areaBuckets g) (stats g).

Definition refuse (why : refusal) (s : Stats) : Stats :=
  mkStats (Allowed s) (λ w, if decide (w = why) then Refused s w + 1 else Refused s w)
    (InboundAlerts s) (ChargedChannel s).
Definition allow_stat (cost : Z) (s : Stats) : Stats :=
  mkStats (Allowed s + 1) (Refused s) (InboundAlerts s) (ChargedChannel s + cost).
Definition alert_stat (s : Stats) : Stats :=
  mkStats (Allowed s) (Refused s) (InboundAlerts s + 1) (ChargedChannel s).

(** ** Rates and costs *)

Definition shareFraction (c : Config) : float64 :=
  fdiv (fdiv (CeilingPercent c) (of_int 100)) (of_int (Instances c)).

(** [time.Duration(float64(d) * x)] *)
Definition scale (d : Z) (x : float64) : Z := to_int64 (fmul (of_int d) x).

Definition packet_cost (c : Config) (R : float64) (n : Z) : Z := scale (Packet (cfg_Preset c) n) R.
Definition costLocked (g : Governor) (n : Z) : Z := packet_cost (cfg g) (r g) n.

Definition burst (c : Config) (R : float64) : Z :=
  if 0 <? Burst c then Burst c
  else
    let hourly := to_int64 (fmul (shareFraction c) (of_int Hour)) in
    let floor := 3 * packet_cost c R 233 in
    if hourly <? floor then floor else hourly.

(** ** Construction *)

Inductive governor_error := NoPreset.

(** The defaults [New] fills in. *)
Definition normalise (c : Config) : Config :=
  let ceil := if fle (CeilingPercent c) f0 then DefaultCeilingPercent else CeilingPercent c in
  let ceil := if flt MaxCeilingPercent ceil then MaxCeilingPercent else ceil in
  mkConfig (cfg_Preset c) (Region c) ceil
    (if Instances c <? 1 then DefaultInstanceCount else Instances c)
    (if flt (FloodMultiplier c) (of_int 1) then DefaultFloodMultiplier else FloodMultiplier c)
    (FloodMultiplierOverride c) (QuietHours c) (Burst c)
    (if InboundQuotaPerHour c <=? 0 then 32 * 1024 else InboundQuotaPerHour c)
    (AreaShares c).

Definition positive_shares (m : gmap Tag4 float64) : gmap Tag4 float64 := filter (λ e, flt f0 e.2 = true) m.

Definition New (c : Config) (now : Z) : result governor_error Governor :=
  let c := normalise c in
  _ ← require (negb (SpreadFactor (cfg_Preset c) =? 0)) NoPreset;
  let cap := burst c (FloodMultiplier c) in
  Ok (mkGovernor c cap cap now (of_int 1) f0 f0 false [] ∅ 0 0 (FloodMultiplier c)
        (positive_shares (AreaShares c)) ∅ (mkStats 0 (λ _, 0) 0 0)).

(** ** Refill and duty cycle *)

Definition pruneTX (now : Z) (tx : list txRecord) : list txRecord :=
  filter (λ t, now - Hour < tx_at t) tx.

(** What the bucket earns in [elapsed]. *)
Definition accrual (g : Governor) (elapsed : Z) : Z :=
  scale elapsed (fdiv (shareFraction (cfg g)) (penalty g)).

Definition refill (now : Z) (g : Governor) : Governor :=
  let elapsed := now - last g in
  if elapsed <=? 0 then g
  else
    let tok := tokens g + accrual g elapsed in
    let tok := if capacity g <? tok then capacity g else tok in
    set_bucket tok now (pruneTX now (localTX g)) g.

Definition total_air (tx : list txRecord) : Z := foldr (λ t n, tx_air t + n) 0 tx.

(** [dutyAllows], with the pruned list it leaves behind. *)
Definition dutyAllows (now air : Z) (g : Governor) : bool * Governor :=
  match dutyCycleLimit (Region (cfg g)) with
  | None => (true, g)
  | Some limit =>
      let g := set_tx (pruneTX now (localTX g)) g in
      (total_air (localTX g) + air <=? to_int64 (fmul limit (of_int Hour)), g)
  end.

Section clocked.
(** The time of day, in the clock's location, that an instant shows. *)
Context (tod : Z → Z).

(** [check]: the first rule that refuses, and the state it leaves. *)
Definition check (now n : Z) (class : Class) (g : Governor) : option refusal * Governor :=
  let g := refill now g in
  if existsb (λ w, Contains w (tod now)) (QuietHours (cfg g)) then (Some errQuiet, g)
  else if haveTelemetry g && fle silenceThreshold (chanUtil g) && negb (bool_decide (class = ClassDM))
  then (Some errBusy, g)
  else
    let air := Packet (cfg_Preset (cfg g)) n in
    let '(ok, g) := dutyAllows now air g in
    if negb ok then (Some errDuty, g)
    else if tokens g <? scale air (r g) + to_int64 (fmul (reserve class) (of_int (capacity g)))
    then (Some errBudget, g)
    else (None, g).

Definition Would (now n : Z) (class : Class) (g : Governor) : bool * Governor :=
  let '(e, g) := check now n class g in (bool_decide (e = None), g).

(** ** Area buckets *)

Definition bucket_size (sh : float64) (g : Governor) : Z :=
  let cap := to_int64 (fmul sh (of_int (capacity g))) in
  let floor := costLocked g 233 in
  if cap <? floor then floor else cap.

(** The area's bucket after refilling, when the area has a share. *)
Definition bucketFor (area : Tag4) (now : Z) (g : Governor) : option areaBucket :=
  match areaShares g !! area with
  | None => None
  | Some sh =>
      if fle sh f0 then None
      else Some
        match areaBuckets g !! area with
        | None => let cap := bucket_size sh g in mkAreaBucket sh cap cap now
        | Some b =>
            let elapsed := now - b_last b in
            if 0 <? elapsed then
              let rate := fdiv (fmul (shareFraction (cfg g)) (share b)) (penalty g) in
              let tok := b_tokens b + scale elapsed rate in
              let tok := if b_capacity b <? tok then b_capacity b else tok in
              mkAreaBucket (share b) tok (b_capacity b) now
            else b
        end
  end.

Definition put_bucket (area : Tag4) (b : option areaBucket) (g : Governor) : Governor :=
  match b with
  | None => g
  | Some b => set_areas (areaShares g) (<[area := b]> (areaBuckets g)) g
  end.

Definition spend_bucket (cost : Z) (b : areaBucket) : areaBucket :=
  mkAreaBucket (share b) (b_tokens b - cost) (b_capacity b) (b_last b).

(** [AllowCharge]: what it answers, and the state it leaves; the refusal is what
    its counters record. *)
Definition AllowCharge (now n : Z) (ch : Charge) (withArea : bool) (g : Governor)
    : option refusal * Governor :=
  match check now n (ch_Class ch) g with
  | (Some why, g) => (Some why, set_stats (refuse why (stats g)) g)
  | (None, g) =>
      let air := Packet (cfg_Preset (cfg g)) n in
      let cost := scale air (r g) in
      let b := if withArea then bucketFor (ch_Area ch) now g else None in
      let g := put_bucket (ch_Area ch) b g in
      match b with
      | Some b' =>
          if b_tokens b' <? cost then (Some errArea, set_stats (refuse errArea (stats g)) g)
          else
            let g := put_bucket (ch_Area ch) (Some (spend_bucket cost b')) g in
            let g := set_bucket (tokens g - cost) (last g) (localTX g ++ [mkTx now air]) g in
            (None, set_stats (allow_stat cost (stats g)) (set_counts (sentPackets g + 1) (echoes g) (r g) g))
      | None =>
          let g := set_bucket (tokens g - cost) (last g) (localTX g ++ [mkTx now air]) g in
          (None, set_stats (allow_stat cost (stats g)) (set_counts (sentPackets g + 1) (echoes g) (r g) g))
      end
  end.

Definition zero_tag : Tag4 := zero_arr 4.

Definition Allow (now n : Z) (class : Class) (g : Governor) : option refusal * Governor :=
  AllowCharge now n (mkCharge class zero_tag) false g.

End clocked.

(** A bucket under new shares: dropped, kept, or resized without being refilled. *)
Definition reshare (shares : gmap Tag4 float64) (g : Governor) (area : Tag4) (b : areaBucket)
    : option areaBucket :=
  match shares !! area with
  | None => None
  | Some sh =>
      if feq sh (share b) then Some b
      else
        let cap := bucket_size sh g in
        Some (mkAreaBucket sh (if cap <? b_tokens b then cap else b_tokens b) cap (b_last b))
  end.

Definition SetAreaShares (shares : gmap Tag4 float64) (g : Governor) : Governor :=
  let sh := positive_shares shares in
  set_areas sh (map_imap (reshare sh g) (areaBuckets g)) g.

(** ** Telemetry and the flood multiplier *)

Definition Observe (now : Z) (channelUtilization airUtil : float64) (g : Governor) : Governor :=
  let g := refill now g in
  let p :=
    if fle backoffThreshold channelUtilization then
      let p := fmul (penalty g) (of_int 2) in if flt maxPenalty p then maxPenalty else p
    else
      let p := fdiv (penalty g) (of_int 2) in if flt p (of_int 1) then of_int 1 else p in
  set_radio p channelUtilization airUtil true g.

Definition reestimate (g : Governor) : Governor :=
  if FloodMultiplierOverride (cfg g) || (sentPackets g <? 20) then g
  else
    let observed := fadd (of_int 1) (fdiv (of_int (echoes g)) (of_int (sentPackets g))) in
    if flt (r g) observed then set_counts (sentPackets g) (echoes g) observed g else g.

Definition NoteEcho (g : Governor) : Governor :=
  reestimate (set_counts (sentPackets g) (echoes g + 1) (r g) g).

(** ** Inbound quotas *)

Definition NoteInbound (now : Z) (peer : NodeID) (n : Z) (g : Governor) : bool * Governor :=
  let rec0 :=
    match inbound g !! peer with
    | None => mkInbound now 0 false
    | Some i => if Hour <=? now - windowStart i then mkInbound now 0 false else i
    end in
  let i := mkInbound (windowStart rec0) (in_bytes rec0 + n) (alerted rec0) in
  if in_bytes i <=? InboundQuotaPerHour (cfg g) then (true, set_inbound (<[peer := i]> (inbound g)) g)
  else if alerted i then (false, set_inbound (<[peer := i]> (inbound g)) g)
  else
    let g := set_inbound (<[peer := mkInbound (windowStart i) (in_bytes i) true]> (inbound g)) g in
    (false, set_stats (alert_stat (stats g)) g).

(** ** Reporting *)

(** link.Budget *)
Record Budget := mkBudget { Available : Z; PerDatagram : Z; Backpressure : bool }.
Definition Budget_CanSend (b : Budget) : bool := negb (Backpressure b) && (PerDatagram b <=? Available b).

Definition Governor_Budget (now : Z) (g : Governor) : Budget * Governor :=
  let g := refill now g in
  let per := costLocked g 233 in
  let busy := haveTelemetry g && fle silenceThreshold (chanUtil g) in
  (mkBudget (tokens g) per (busy || (tokens g <? per)), g).

Definition with_instances (n : Z) (c : Config) : Config :=
  mkConfig (cfg_Preset c) (Region c) (CeilingPercent c) n (FloodMultiplier c)
    (FloodMultiplierOverride c) (QuietHours c) (Burst c) (InboundQuotaPerHour c) (AreaShares c).

Definition SetInstances (now n : Z) (g : Governor) : Governor :=
  if n <? 1 then g
  else
    let g := refill now g in
    let c := with_instances n (cfg g) in
    let cap := burst c (r g) in
    set_config c (if cap <? tokens g then cap else tokens g) cap g.

Definition AreaPacketsPerDay (area : Tag4) (g : Governor) : float64 :=
  let perDay := fmul (of_int 86400) (shareFraction (cfg g)) in
  let perDay :=
    match areaShares g !! area with
    | Some sh => if flt f0 sh then fmul perDay sh else perDay
    | None => perDay
    end in
  let full := fdiv (fmul (of_int (Packet (cfg_Preset (cfg g)) 233)) (r g)) (of_int Second) in
  if fle full f0 then f0 else fdiv perDay full.

(** ** What a check establishes *)

Definition duty_limit (limit : float64) : Z := to_int64 (fmul limit (of_int Hour)).
Definition class_reserve (c : Class) (cap : Z) : Z := to_int64 (fmul (reserve c) (of_int cap)).

Lemma pruneTX_idemp now tx : pruneTX now (pruneTX now tx) = pruneTX now tx.
Proof. unfold pruneTX. rewrite list_filter_filter. apply list_filter_iff. intros t. tauto. Qed.

Lemma refill_fields now g :
  let g' := refill now g in
  cfg g' = cfg g ∧ capacity g' = capacity g ∧ penalty g' = penalty g ∧ r g' = r g ∧
  areaShares g' = areaShares g ∧ areaBuckets g' = areaBuckets g ∧ stats g' = stats g ∧
  chanUtil g' = chanUtil g ∧ haveTelemetry g' = haveTelemetry g ∧ inbound g' = inbound g ∧
  sentPackets g' = sentPackets g ∧ last g' = Z.max (last g) now ∧
  pruneTX now (localTX g') = pruneTX now (localTX g).
Proof.
  cbv zeta. unfold refill. destruct (Z.leb_spec (now - last g) 0); cbn; split_and!;
    (done || lia || apply pruneTX_idemp).
Qed.

Section facts.
Context (tod : Z → Z).

Definition quiet (now : Z) (g : Governor) : bool :=
  existsb (λ w, Contains w (tod now)) (QuietHours (cfg g)).
Definition silenced (c : Class) (g : Governor) : bool :=
  haveTelemetry g && fle silenceThreshold (chanUtil g) && negb (bool_decide (c = ClassDM)).

(** Every rule passed: the conditions under which a packet may go out, in terms
    of the state before the check and the refilled bucket. *)
Definition may_send (now n : Z) (c : Class) (g : Governor) : Prop :=
  let air := Packet (cfg_Preset (cfg g)) n in
  quiet now g = false ∧ silenced c g = false ∧
  (∀ limit, dutyCycleLimit (Region (cfg g)) = Some limit →
     total_air (pruneTX now (localTX g)) + air ≤ duty_limit limit) ∧
  scale air (r g) + class_reserve c (capacity g) ≤ tokens (refill now g).

Lemma check_spec now n c g e g' :
  check tod now n c g = (e, g') →
  (∃ tx, g' = set_tx tx (refill now g) ∧ pruneTX now tx = pruneTX now (localTX g)) ∧
  (e = None ↔ may_send now n c g).
Proof.
  unfold check, may_send, dutyAllows, duty_limit, quiet, silenced, class_reserve.
  destruct (refill_fields now g) as (Hc & Hcap & Hpen & Hr & _ & _ & _ & Hu & Ht & _ & _ & Hl & Htx).
  rewrite Hc, Hu, Ht.
  assert (Hself : ∃ tx, refill now g = set_tx tx (refill now g) ∧ pruneTX now tx = pruneTX now (localTX g)).
  { exists (localTX (refill now g)). split; [by destruct (refill now g)|done]. }
  destruct (existsb _ _); [intros [= <- <-]; split; [done|split; [done|by intros [? _]]]|].
  destruct (_ && _ && _); [intros [= <- <-]; split; [done|split; [done|by intros (_ & ? & _)]]|].
  destruct (dutyCycleLimit (Region (cfg g))) as [limit|].
  - assert (Htx' : localTX (set_tx (pruneTX now (localTX (refill now g))) (refill now g)) =
                   pruneTX now (localTX g)) by (cbn; done).
    rewrite Htx'. cbn [tokens capacity r set_tx set_bucket]. rewrite Hr, Hcap.
    assert (Hpr : ∃ tx, set_tx (pruneTX now (localTX (refill now g))) (refill now g) = set_tx tx (refill now g) ∧
       pruneTX now tx = pruneTX now (localTX g)).
    { eexists. split; [done|]. by rewrite Htx, pruneTX_idemp. }
    destruct (Z.leb_spec (total_air (pruneTX now (localTX g)) + Packet (cfg_Preset (cfg g)) n)
      (to_int64 (fmul limit (of_int Hour)))) as [Hd|Hd]; cbn [negb].
    + destruct (Z.ltb_spec (tokens (refill now g)) (scale (Packet (cfg_Preset (cfg g)) n) (r g) +
        to_int64 (fmul (reserve c) (of_int (capacity g))))); intros [= <- <-]; (split; [done|]); split;
        [done|intros (_ & _ & _ & ?); lia| |done].
      intros _. split_and!; [done..| |lia]. by intros limit' [= <-].
    + intros [= <- <-]. split; [done|]. split; [done|]. intros (_ & _ & Hall & _).
      specialize (Hall limit eq_refl). lia.
  - cbn [negb]. rewrite Hr, Hcap.
    destruct (Z.ltb_spec (tokens (refill now g)) (scale (Packet (cfg_Preset (cfg g)) n) (r g) +
      to_int64 (fmul (reserve c) (of_int (capacity g))))); intros [= <- <-]; (split; [done|]); split;
      [done|intros (_ & _ & _ & ?); lia| |done].
    intros _. split_and!; [done..|lia].
Qed.

Lemma bucketFor_refill area now tx g :
  bucketFor area now (set_tx tx (refill now g)) = bucketFor area now g.
Proof. unfold refill. by destruct (now - last g <=? 0). Qed.

Lemma put_bucket_fields area b g :
  let g' := put_bucket area b g in
  cfg g' = cfg g ∧ tokens g' = tokens g ∧ last g' = last g ∧ capacity g' = capacity g ∧
  localTX g' = localTX g ∧ stats g' = stats g ∧ r g' = r g ∧ penalty g' = penalty g ∧
  areaShares g' = areaShares g.
Proof. cbv zeta. by destruct b. Qed.

Lemma prune_snoc now tx air :
  pruneTX now (tx ++ [mkTx now air]) = pruneTX now tx ++ [mkTx now air].
Proof.
  unfold pruneTX. rewrite filter_app. f_equal. rewrite filter_cons_True; [done|].
  unfold Hour, Minute, Second. cbn. lia.
Qed.

(** The area's own limit, when the packet is billed to one that has a share. *)
Definition area_bucket (now : Z) (ch : Charge) (withArea : bool) (g : Governor) : option areaBucket :=
  if withArea then bucketFor (ch_Area ch) now g else None.
Definition affords (cost : Z) (b : option areaBucket) : Prop :=
  match b with Some b => cost ≤ b_tokens b | None => True end.

Lemma AllowCharge_spec now n ch withArea g e g' :
  AllowCharge tod now n ch withArea g = (e, g') →
  let air := Packet (cfg_Preset (cfg g)) n in
  let cost := scale air (r g) in
  let b := area_bucket now ch withArea g in
  (e = None ↔ may_send now n (ch_Class ch) g ∧ affords cost b) ∧
  match e with
  | None =>
      tokens g' = tokens (refill now g) - cost ∧ class_reserve (ch_Class ch) (capacity g) ≤ tokens g' ∧
      pruneTX now (localTX g') = pruneTX now (localTX g) ++ [mkTx now air] ∧
      Allowed (stats g') = Allowed (stats g) + 1 ∧
      ChargedChannel (stats g') = ChargedChannel (stats g) + cost ∧
      (∀ b', b = Some b' → areaBuckets g' !! ch_Area ch = Some (spend_bucket cost b') ∧
                           0 ≤ b_tokens (spend_bucket cost b')) ∧
      cfg g' = cfg g ∧ last g' = Z.max (last g) now ∧ penalty g' = penalty g
  | Some why =>
      tokens g' = tokens (refill now g) ∧ pruneTX now (localTX g') = pruneTX now (localTX g) ∧
      Allowed (stats g') = Allowed (stats g) ∧ ChargedChannel (stats g') = ChargedChannel (stats g) ∧
      Refused (stats g') why = Refused (stats g) why + 1
  end.
Proof.
  cbv zeta. unfold AllowCharge. destruct (check tod now n (ch_Class ch) g) as [e0 g0] eqn:Hck.
  apply check_spec in Hck as [(tx & -> & Htx) Hiff].
  destruct (refill_fields now g) as (Hc & Hcap & Hpen & Hr & _ & _ & Hs & _ & _ & _ & _ & Hl & _).
  destruct e0 as [why|].
  { intros [= <- <-]. split; [split; [done|]; intros [Hm%Hiff _]; done|]. cbn [tokens localTX stats set_stats set_tx set_bucket refuse].
    rewrite Hs. cbn. rewrite decide_True by done. done. }
  destruct (proj1 Hiff eq_refl) as (Hq & Hsil & Hd & Htok).
  cbn [cfg r set_tx set_bucket]. rewrite Hc, Hr.
  set (cost := scale (Packet (cfg_Preset (cfg g)) n) (r g)) in *.
  assert ((if withArea then bucketFor (ch_Area ch) now (set_tx tx (refill now g)) else None) =
          area_bucket now ch withArea g) as -> by (unfold area_bucket; destruct withArea; [apply bucketFor_refill|done]).
  assert (Hms : may_send now n (ch_Class ch) g) by done.
  destruct (area_bucket now ch withArea g) as [b|]; cbn [affords put_bucket].
  - destruct (Z.ltb_spec (b_tokens b) cost) as [Hlow|Hhigh]; intros [= <- <-].
    + split; [split; [done|intros [_ ?]; lia]|]. cbn. rewrite Hs, decide_True by done. done.
    + split; [done|]. cbn -[pruneTX]. rewrite Hs, prune_snoc, Htx. split_and!; try done; [lia|].
      intros b' [= <-]. rewrite lookup_insert_eq. split; [done|]. lia.
  - intros [= <- <-]. split; [done|]. cbn -[pruneTX]. rewrite Hs, prune_snoc, Htx.
    split_and!; try done. lia.
Qed.


(** A packet goes out exactly when every rule lets it: no quiet hour, no busy
    channel except for mail, the regional hour not exceeded, the bucket above
    the class's reserve, and the area within its share. What goes out is charged
    once to the node and once to the area, leaves the reserve untouched and is
    remembered for the duty cycle; a refusal charges nobody and counts one
    reason. *)
Theorem AllowCharge_iff now n ch withArea g e g' :
  AllowCharge tod now n ch withArea g = (e, g') →
  let air := Packet (cfg_Preset (cfg g)) n in
  let cost := scale air (r g) in
  let b := area_bucket now ch withArea g in
  (e = None ↔ may_send now n (ch_Class ch) g ∧ affords cost b) ∧
  match e with
  | None =>
      tokens g' = tokens (refill now g) - cost ∧ class_reserve (ch_Class ch) (capacity g) ≤ tokens g' ∧
      pruneTX now (localTX g') = pruneTX now (localTX g) ++ [mkTx now air] ∧
      Allowed (stats g') = Allowed (stats g) + 1 ∧
      ChargedChannel (stats g') = ChargedChannel (stats g) + cost ∧
      (∀ b', b = Some b' → areaBuckets g' !! ch_Area ch = Some (spend_bucket cost b') ∧
                           0 ≤ b_tokens (spend_bucket cost b'))
  | Some why =>
      tokens g' = tokens (refill now g) ∧ pruneTX now (localTX g') = pruneTX now (localTX g) ∧
      Allowed (stats g') = Allowed (stats g) ∧ ChargedChannel (stats g') = ChargedChannel (stats g) ∧
      Refused (stats g') why = Refused (stats g) why + 1
  end.
Proof.
  intros H. cbv zeta. pose proof (AllowCharge_spec now n ch withArea g e g' H) as Hs. cbv zeta in Hs.
  destruct e; [exact Hs|]. destruct Hs as [Hi (H1 & H2 & H3 & H4 & H5 & H6 & _)]. done.
Qed.

(** ** Runs *)

Definition earned (now : Z) (g : Governor) : Z :=
  if now - last g <=? 0 then 0 else accrual g (now - last g).

(** One operation at time [t]: what it transmitted, what the bucket earned. *)
Inductive step (t : Z) (g : Governor) : list txRecord → Z → Governor → Prop :=
| step_allow n ch wa g' :
    0 ≤ n ≤ 233 → AllowCharge tod t n ch wa g = (None, g') →
    step t g [mkTx t (Packet (cfg_Preset (cfg g)) n)] (earned t g) g'
| step_refused n ch wa why g' :
    AllowCharge tod t n ch wa g = (Some why, g') → step t g [] (earned t g) g'
| step_would n c : step t g [] (earned t g) (Would tod t n c g).2
| step_budget : step t g [] (earned t g) (Governor_Budget t g).2
| step_observe u a : step t g [] (earned t g) (Observe t u a g)
| step_instances n : step t g [] (if n <? 1 then 0 else earned t g) (SetInstances t n g)
| step_echo : step t g [] 0 (NoteEcho g)
| step_inbound p n : step t g [] 0 (NoteInbound t p n g).2
| step_shares sh : step t g [] 0 (SetAreaShares sh g).

(** A governor's life: everything transmitted so far, the clock, and everything
    earned since it was built. The clock does not run backwards. *)
Inductive life (c : Config) : list txRecord → Z → Z → Governor → Prop :=
| life_new now g : New c now = Ok g → life c [] now 0 g
| life_step hist t m g t' out m' g' :
    life c hist t m g → t ≤ t' → step t' g out m' g' → life c (hist ++ out) t' (m + m') g'.

Definition hour_before (T : Z) (hist : list txRecord) : list txRecord :=
  filter (λ x, T - Hour < tx_at x ∧ tx_at x ≤ T) hist.

Definition penalties : list float64 := of_int <$> [1; 2; 4; 8; 16; 32].

Record Inv (c : Config) (hist : list txRecord) (t m : Z) (g : Governor) : Prop := {
  inv_cfg : cfg_Preset (cfg g) = cfg_Preset c ∧ Region (cfg g) = Region c;
  inv_last : last g ≤ t;
  inv_hist : Forall (λ x, tx_at x ≤ last g ∧ 0 ≤ tx_air x) hist;
  inv_tx : pruneTX (last g) (localTX g) = pruneTX (last g) hist;
  inv_duty limit : dutyCycleLimit (Region c) = Some limit →
    Forall (λ x, total_air (hour_before (tx_at x) hist) ≤ duty_limit limit) hist;
  inv_penalty : penalty g ∈ penalties;
  inv_money : ChargedChannel (stats g) + tokens g
    ≤ burst (normalise c) (FloodMultiplier (normalise c)) + m
}.

(** What an operation that transmits nothing may do. *)
Definition idle (t : Z) (g : Governor) (m : Z) (g' : Governor) : Prop :=
  cfg_Preset (cfg g') = cfg_Preset (cfg g) ∧ Region (cfg g') = Region (cfg g) ∧
  last g ≤ last g' ≤ Z.max (last g) t ∧
  pruneTX (last g') (localTX g') = pruneTX (last g') (localTX g) ∧
  (penalty g ∈ penalties → penalty g' ∈ penalties) ∧
  ChargedChannel (stats g') + tokens g' ≤ ChargedChannel (stats g) + tokens g + m.

Lemma refill_idle t g : last g ≤ t → idle t g (earned t g) (refill t g) ∧ last (refill t g) = t.
Proof.
  intros Hl. unfold idle, refill, earned. destruct (Z.leb_spec (t - last g) 0); cbn -[pruneTX].
  - split; [|lia]. split_and!; (done || lia).
  - rewrite pruneTX_idemp. destruct (Z.ltb_spec (capacity g) (tokens g + accrual g (t - last g)));
      split_and!; (done || lia).
Qed.

Lemma refill_tokens t g : tokens (refill t g) ≤ tokens g + earned t g.
Proof.
  unfold refill, earned. destruct (_ <=? 0); cbn; [lia|].
  destruct (Z.ltb_spec (capacity g) (tokens g + accrual g (t - last g))); lia.
Qed.

Lemma penalties_closed p (u : bool) : p ∈ penalties →
  (if u then (let q := fmul p (of_int 2) in if flt maxPenalty q then maxPenalty else q)
   else (let q := fdiv p (of_int 2) in if flt q (of_int 1) then of_int 1 else q)) ∈ penalties.
Proof.
  unfold penalties. cbn [fmap list_fmap]. intros Hp.
  repeat (apply elem_of_cons in Hp as [->|Hp]); try by apply elem_of_nil in Hp.
  all: destruct u; vm_compute; repeat first [by left|right].
Qed.

Lemma idle_trans_same t g m g1 g2 :
  idle t g m g1 → cfg_Preset (cfg g2) = cfg_Preset (cfg g1) → Region (cfg g2) = Region (cfg g1) →
  last g2 = last g1 → pruneTX (last g1) (localTX g2) = pruneTX (last g1) (localTX g1) →
  (penalty g1 ∈ penalties → penalty g2 ∈ penalties) →
  ChargedChannel (stats g2) + tokens g2 ≤ ChargedChannel (stats g1) + tokens g1 → idle t g m g2.
Proof.
  intros (Hp & Hr & Hl & Htx & Hpen & Hm) Hp' Hr' Hl' Htx' Hpen' Hm'.
  unfold idle. rewrite Hl', Htx', Htx. split_and!; try congruence; auto; lia.
Qed.

Lemma check_idle t n c g e g' :
  last g ≤ t → check tod t n c g = (e, g') → idle t g (earned t g) g' ∧ last g' = t.
Proof.
  intros Hl [(tx & -> & Htx) _]%check_spec. destruct (refill_idle t g Hl) as [Hi Hlast].
  split; [|done]. eapply idle_trans_same; [exact Hi|done|done|done| |auto|cbn; lia].
  rewrite Hlast. cbn [localTX set_tx set_bucket]. rewrite Htx.
  symmetry. apply (refill_fields t g).
Qed.

Lemma idle_here t g g' :
  cfg g' = cfg g → last g' = last g → localTX g' = localTX g → penalty g' = penalty g →
  tokens g' = tokens g → ChargedChannel (stats g') = ChargedChannel (stats g) → idle t g 0 g'.
Proof.
  intros Hc Hl Htx Hp Ht Hch. unfold idle. rewrite Hc, Hl, Htx, Hp, Ht, Hch.
  split_and!; (done || lia).
Qed.

(** Everything but a transmission is idle. *)
Lemma step_idle t g m g' : last g ≤ t → step t g [] m g' → idle t g m g'.
Proof.
  intros Hl Hs. inversion Hs as [| n ch wa why g0 Ha | n c | | u a | n | | p n | sh]; subst.
  - revert Ha. unfold AllowCharge. destruct (check tod t n (ch_Class ch) g) as [e0 g1] eqn:Hck.
    apply check_idle in Hck as [Hi Hlast]; [|done]. destruct e0 as [w|].
    + intros [= _ <-]. eapply idle_trans_same; [exact Hi|done..|auto|cbn; lia].
    + destruct (if wa then _ else _) as [b|]; [|done]. cbn [put_bucket].
      destruct (b_tokens b <? _); [|done]. intros [= _ <-]. eapply idle_trans_same; [exact Hi|done..|auto|cbn; lia].
  - unfold Would. destruct (check tod t n c g) as [e0 g1] eqn:Hck. by apply check_idle in Hck as [Hi _].
  - apply (refill_idle t g Hl).
  - destruct (refill_idle t g Hl) as [Hi _]. unfold Observe.
    eapply idle_trans_same; [exact Hi|done|done|done|done| |cbn; lia]. cbn [penalty set_radio].
    intros Hp. by apply (penalties_closed _ (fle backoffThreshold u)).
  - unfold SetInstances. destruct (n <? 1); [by apply idle_here|].
    destruct (refill_idle t g Hl) as [Hi _]. eapply idle_trans_same; [exact Hi|done..|auto|].
    cbn [tokens stats set_config]. destruct (Z.ltb_spec (burst (with_instances n (cfg (refill t g))) (r (refill t g)))
      (tokens (refill t g))); lia.
  - unfold NoteEcho, reestimate. destruct (_ || _); [by apply idle_here|].
    destruct (flt _ _); by apply idle_here.
  - unfold NoteInbound. destruct (inbound g !! p) as [i|]; [destruct (Hour <=? _)|];
      destruct (_ <=? _); cbn -[Z.leb]; try (by apply idle_here); cbn; try (by apply idle_here).
    by destruct (alerted i); apply idle_here.
  - by apply idle_here.
Qed.

Lemma hour_before_snoc T hist x : T < tx_at x → hour_before T (hist ++ [x]) = hour_before T hist.
Proof.
  intros Hx. unfold hour_before. rewrite filter_app, (filter_cons_False _ x), filter_nil, app_nil_r; [done|lia].
Qed.

Lemma pruneTX_window T hist : Forall (λ x, tx_at x ≤ T) hist → pruneTX T hist = hour_before T hist.
Proof.
  unfold pruneTX, hour_before. induction 1 as [|x l Hx _ IH]; [done|].
  destruct (decide (T - Hour < tx_at x)).
  - rewrite !filter_cons_True by done. by rewrite IH.
  - rewrite !filter_cons_False by (done || lia). done.
Qed.

Lemma total_air_app a b : total_air (a ++ b) = total_air a + total_air b.
Proof. unfold total_air. induction a as [|x a IH]; cbn [app foldr]; lia. Qed.

Lemma pruneTX_later T T' a b : T ≤ T' → pruneTX T a = pruneTX T b → pruneTX T' a = pruneTX T' b.
Proof.
  intros HT H. assert (∀ l, pruneTX T' l = pruneTX T' (pruneTX T l)) as Hl.
  { intros l. unfold pruneTX. rewrite list_filter_filter. apply list_filter_iff. intros x. lia. }
  by rewrite Hl, H, <- Hl.
Qed.

Lemma total_air_nonneg l : Forall (λ x, 0 ≤ tx_air x) l → 0 ≤ total_air l.
Proof. unfold total_air. induction 1; cbn [foldr]; lia. Qed.

Lemma Inv_idle c hist t m g t' m' g' :
  Inv c hist t m g → t ≤ t' → idle t' g m' g' → Inv c hist t' (m + m') g'.
Proof.
  intros [[Hp Hr] Hl Hh Htx Hd Hpen Hm] Ht (Hp' & Hr' & Hl' & Htx' & Hpen' & Hm').
  split; [split; congruence|lia| | |exact Hd|by apply Hpen'|lia].
  - eapply Forall_impl; [exact Hh|]. cbn. lia.
  - rewrite Htx'. eapply pruneTX_later; [|exact Htx]. lia.
Qed.

Lemma Inv_New c now g : New c now = Ok g → Inv c [] now 0 g.
Proof.
  unfold New. intros [_ [= <-]]%bind_unit_Ok. split; cbn -[burst penalties].
  - done.
  - lia.
  - constructor.
  - done.
  - constructor.
  - unfold penalties. cbn [fmap list_fmap]. by left.
  - lia.
Qed.

Lemma Inv_allow c hist t m g t' n ch wa g' :
  cfg_Preset c ∈ presets → Inv c hist t m g → t ≤ t' → 0 ≤ n ≤ 233 →
  AllowCharge tod t' n ch wa g = (None, g') →
  Inv c (hist ++ [mkTx t' (Packet (cfg_Preset (cfg g)) n)]) t' (m + earned t' g) g'.
Proof.
  intros Hpre [[Hp Hr] Hl Hh Htx Hd Hpen Hm] Ht Hn Ha.
  apply AllowCharge_spec in Ha as [Hiff Hout]. cbv zeta in *.
  destruct (proj1 Hiff eq_refl) as [(_ & _ & Hduty & _) _].
  destruct Hout as (Htok & _ & Hpr & _ & Hch & _ & Hc & Hlast & Hpen').
  rewrite Z.max_r in Hlast by lia. set (air := Packet (cfg_Preset (cfg g)) n) in *.
  assert (Hair : 0 ≤ air) by (unfold air; rewrite Hp; by apply Packet_nonneg).
  assert (Hold : Forall (λ x, tx_at x ≤ t') hist) by (eapply Forall_impl; [exact Hh|]; cbn; lia).
  assert (Hwin : pruneTX t' (localTX g) = hour_before t' hist).
  { rewrite <- pruneTX_window by done. eapply pruneTX_later; [|exact Htx]. lia. }
  split; rewrite ?Hc, ?Hlast, ?Hpen'; [done|lia| | | |done|].
  - apply Forall_app. split; [|by repeat constructor; cbn]. eapply Forall_impl; [exact Hh|]. cbn. lia.
  - rewrite Hpr, prune_snoc. f_equal. eapply pruneTX_later; [|exact Htx]. lia.
  - intros limit Hlim. specialize (Hd limit Hlim). rewrite <- Hr in Hlim. specialize (Hduty limit Hlim).
    rewrite Hwin in Hduty.
    assert (Hnew : total_air (hour_before t' (hist ++ [mkTx t' air])) ≤ duty_limit limit).
    { rewrite <- pruneTX_window by (apply Forall_app; split; [done|by repeat constructor; cbn; lia]).
      rewrite prune_snoc, pruneTX_window, total_air_app by done. cbn. lia. }
    apply Forall_app. split; [|by repeat constructor].
    apply Forall_forall. intros x Hx. rewrite Forall_forall in Hold, Hd.
    destruct (decide (tx_at x = t')) as [->|Hne]; [done|].
    rewrite hour_before_snoc; [by apply Hd|]. specialize (Hold x Hx). cbn in *. lia.
  - pose proof (refill_tokens t' g). lia.
Qed.

Lemma life_Inv c hist t m g : cfg_Preset c ∈ presets → life c hist t m g → Inv c hist t m g.
Proof.
  intros Hpre. induction 1 as [now g Hn|hist t m g t' out m' g' Hl IH Ht Hs]; [by apply Inv_New|].
  destruct (decide (out = [])) as [->|Hne].
  - rewrite app_nil_r. eapply Inv_idle; [exact IH|done|]. apply step_idle; [|done].
    destruct IH. lia.
  - inversion Hs; subst; try done. by eapply Inv_allow.
Qed.

Lemma total_air_filter (P Q : txRecord → Prop) `{!∀ x, Decision (P x), !∀ x, Decision (Q x)} l :
  Forall (λ x, 0 ≤ tx_air x) l → Forall (λ x, P x → Q x) l →
  total_air (filter P l) ≤ total_air (filter Q l).
Proof.
  induction 1 as [|x l Hx _ IH]; intros HPQ; [done|]. apply Forall_cons in HPQ as [HPQ Hl].
  specialize (IH Hl). destruct (decide (P x)).
  - rewrite !filter_cons_True by auto. unfold total_air in *. cbn [foldr]. lia.
  - rewrite (filter_cons_False P) by done. destruct (decide (Q x)).
    + rewrite filter_cons_True by done. unfold total_air in *. cbn [foldr]. lia.
    + by rewrite filter_cons_False.
Qed.

Lemma exists_last (l : list txRecord) : l ≠ [] → ∃ x, x ∈ l ∧ Forall (λ y, tx_at y ≤ tx_at x) l.
Proof.
  induction l as [|x l IH]; [done|]. intros _. destruct (decide (l = [])) as [->|Hne].
  { exists x. split; [by left|]. by repeat constructor. }
  destruct (IH Hne) as (y & Hy & Hall). destruct (decide (tx_at y ≤ tx_at x)).
  - exists x. split; [by left|]. constructor; [done|]. eapply Forall_impl; [exact Hall|]. cbn. lia.
  - exists y. split; [by right|]. constructor; [lia|done].
Qed.

(** C34: the regional duty cycle holds over every rolling hour, not only where it
    is checked: whatever operations a governor goes through, while its clock does
    not run backwards, the air time it let out in the hour before any instant is
    within a tenth of that hour. *)
Theorem duty_cycle c hist t m g limit T :
  cfg_Preset c ∈ presets → dutyCycleLimit (Region c) = Some limit → life c hist t m g →
  total_air (hour_before T hist) ≤ duty_limit limit ∧ duty_limit limit = Hour / 10.
Proof.
  intros Hpre Hlim Hlife. pose proof (life_Inv _ _ _ _ _ Hpre Hlife) as [_ _ Hh _ Hd _ _].
  specialize (Hd limit Hlim).
  assert (duty_limit limit = Hour / 10) as Hval.
  { unfold dutyCycleLimit in Hlim. case_decide; [|done]. injection Hlim as <-. by vm_compute. }
  split; [|done]. destruct (decide (hour_before T hist = [])) as [->|Hne].
  { rewrite Hval. by compute. }
  destruct (exists_last _ Hne) as (x & Hx & Hall).
  unfold hour_before in Hx. apply list_elem_of_filter in Hx as [[_ HxT] Hxh].
  rewrite Forall_forall in Hd. etransitivity; [|by apply (Hd x)].
  apply total_air_filter; [eapply Forall_impl; [exact Hh|]; cbn; lia|].
  apply Forall_forall. intros y Hy [Hlo Hhi]. split; [lia|].
  rewrite Forall_forall in Hall. apply Hall. unfold hour_before. by apply list_elem_of_filter.
Qed.

(** A governor never spends what it has not got: all it ever charged, plus
    what is left, is at most the full bucket it started with plus what it earned,
    and it earns at the configured share divided by a penalty between 1 and 32. *)
Theorem spending_is_bounded c hist t m g :
  cfg_Preset c ∈ presets → life c hist t m g →
  ChargedChannel (stats g) + tokens g ≤ burst (normalise c) (FloodMultiplier (normalise c)) + m ∧
  penalty g ∈ of_int <$> [1; 2; 4; 8; 16; 32].
Proof. intros Hpre Hl. by destruct (life_Inv _ _ _ _ _ Hpre Hl). Qed.

(** ** What a full bucket admits *)

(** A governor with the defaults: five percent, fifty instances, R of four. *)
Definition default_config (p : Preset) : Config := normalise (mkConfig p [] f0 0 f0 false [] 0 0 ∅).
Definition default_capacity (p : Preset) : Z := burst (default_config p) DefaultFloodMultiplier.
Definition admits_full (p : Preset) (c : Class) (n : Z) : bool :=
  packet_cost (default_config p) DefaultFloodMultiplier n + class_reserve c (default_capacity p)
    <=? default_capacity p.

Definition slow_presets : list Preset :=
  [LongFast; LongSlow; MediumFast; MediumSlow; ShortSlow; VeryLongSlow].

Lemma admits_upper_classes :
  forallb (λ p, forallb (λ c, admits_full p c 233) [ClassControl; ClassDM; ClassForum; ClassFileCatalog])
    presets = true.
Proof. vm_cast_no_check (eq_refl true). Qed.
Lemma refuses_door_events :
  forallb (λ p, forallb (λ n, negb (admits_full p ClassDoorEvent (Z.of_nat n))) (seq 225 9))
    slow_presets = true.
Proof. vm_cast_no_check (eq_refl true). Qed.

Lemma refill_capacity now g : tokens g ≤ capacity g → tokens (refill now g) ≤ capacity g.
Proof.
  intros H. unfold refill. destruct (_ <=? 0); cbn; [done|].
  destruct (Z.ltb_spec (capacity g) (tokens g + accrual g (now - last g))); lia.
Qed.

(** With the default budget of a fifty-instance mesh the bucket holds three
    full packets, and a full bucket admits a full packet of every class but the
    last: the door events' reserve of 0.70 leaves less than one packet, so on
    the six slower presets a frame of the link's MTU (225 bytes) or more, which
    every fountain symbol is, is refused in every state, however long it waits. *)
Theorem door_events_starve now p n ch withArea g e g' :
  p ∈ slow_presets → 225 ≤ n ≤ 233 → ch_Class ch = ClassDoorEvent →
  cfg g = default_config p → r g = DefaultFloodMultiplier →
  capacity g = default_capacity p → tokens g ≤ capacity g →
  AllowCharge tod now n ch withArea g = (e, g') →
  e ≠ None ∧ ∀ c, c ≠ ClassDoorEvent → admits_full p c 233 = true.
Proof.
  intros Hp Hn Hc Hcfg Hr Hcap Htok Ha. split.
  - intros ->. apply AllowCharge_spec in Ha as [[Hiff _] _].
    destruct (Hiff eq_refl) as [(_ & _ & _ & Hbudget) _].
    pose proof (refill_capacity now g Htok) as Hfull.
    pose proof refuses_door_events as H. rewrite forallb_forall in H.
    specialize (H p (proj1 (list_elem_of_In _ _) Hp)). rewrite forallb_forall in H.
    specialize (H (Z.to_nat n)). rewrite negb_true_iff in H. unfold admits_full in H.
    rewrite Z2Nat.id, Z.leb_gt in H by lia. rewrite Hcfg, Hr, Hc, Hcap in *.
    change (cfg_Preset (default_config p)) with p in *. unfold packet_cost in H.
    change (cfg_Preset (default_config p)) with p in H. cut (In (Z.to_nat n) (seq 225 9)).
    + intros Hin. specialize (H Hin). lia.
    + apply in_seq. lia.
  - intros c Hne. pose proof admits_upper_classes as H. rewrite forallb_forall in H.
    assert (p ∈ presets) as Hpp.
    { revert Hp. unfold slow_presets, presets. rewrite !elem_of_cons. tauto. }
    specialize (H p (proj1 (list_elem_of_In _ _) Hpp)). rewrite forallb_forall in H.
    apply H. destruct c; cbn; tauto.
Qed.

End facts.

