(* ===== verification/BsmpOutbox.v ===== *)
(** * Sending over a link (internal/bsmp/outbox.go, internal/link/link.go)

    The transmitter behind the gossip engine: control messages as single frames,
    record batches as fountain symbols of a packed bundle, with a cursor per
    bundle so that an interrupted transmission resumes. The link is an interface,
    [Sender]; [Outbox] is shown to implement the engine's transmitter interface.
    [math.Log] is an argument of repair sizing. *)

From S2P Require Import Prelude Binary Float64 Identity Schedule.
From S2P Require Airtime Records GossipWire GossipEngine.
From S2P Require Import Governor Bundle Fountain FountainCodec.

Abbreviation Rec := Records.Rec.
Abbreviation AreaTag := (arr 4).

(** ** The link *)

Definition FrameControl : byte := Byte.x01.
Definition FrameSymbol : byte := Byte.x02.
Definition FrameAnnounce : byte := Byte.x03.
Definition FrameWhoIs : byte := Byte.x04.
Definition Broadcast : NodeID := zero_id.

Inductive link_error (E : Type) :=
| ErrNoBudget
| ErrTooLarge
| ErrClosed
| OtherLinkErr (e : E).
Arguments ErrNoBudget {E}. Arguments ErrTooLarge {E}. Arguments ErrClosed {E}. Arguments OtherLinkErr {E}.

(** [Sender], and [SendCharged] when the link implements ChargeSender. *)
Class Sender (L E : Type) := {
  link_Send : L → NodeID → bytes → L * option (link_error E);
  link_SendCharged : option (L → NodeID → bytes → Charge → L * option (link_error E));
  link_MTU : L → Z;
  link_Budget : L → Budget
}.

(** What a link put on the air: the refined interface its clients may observe.
    A refused or failed send adds nothing, and the MTU does not change. *)
Class SenderLog (L E : Type) `{Sender L E} := {
  on_air : L → list (NodeID * bytes);
  on_air_Send l to p l' e : link_Send l to p = (l', e) →
    link_MTU l' = link_MTU l ∧
    on_air l' = if decide (e = None) then on_air l ++ [(to, p)] else on_air l;
  on_air_SendCharged f l to p ch l' e : link_SendCharged = Some f → f l to p ch = (l', e) →
    link_MTU l' = link_MTU l ∧
    on_air l' = if decide (e = None) then on_air l ++ [(to, p)] else on_air l
}.

(** ** State *)

Definition frameOverhead : Z := 1 + 4.
Definition maxSymbolsPerBundle : Z := 4 * MaxK.
Definition maxLossRate : float64 := dec 5 10.

Inductive outbox_error (E : Type) :=
| LinkFailed (e : link_error E)
| FrameTooLong (n mtu : Z)
| MTUTooSmall (mtu : Z)
| PackFailed (e : bundle_error)
| EncodeFailed (e : fountain_error)
| NoNodeID
| LossRateRange.
Arguments LinkFailed {E}. Arguments FrameTooLong {E}. Arguments MTUTooSmall {E}.
Arguments PackFailed {E}. Arguments EncodeFailed {E}. Arguments NoNodeID {E}. Arguments LossRateRange {E}.

Inductive outbox_stat :=
| MessagesSent | SymbolsSent | BundlesSent | RefusedCount | Abandoned | RefusedHamMode.
#[export] Instance outbox_stat_eq_dec : EqDecision outbox_stat.
Proof. solve_decision. Defined.

(** [allowDMs] is what the AllowEncryptedDMs callback answers now, if there is
    one; it may change between calls. *)
Record Outbox (L : Type) := mkOutbox {
  o_self : NodeID;
  o_link : L;
  classify : AreaTag → Class;
  allowDMs : option bool;
  cursor : gmap Z Z;
  lossRate : float64;
  dict : Dictionary;
  o_stats : outbox_stat → Z
}.
Arguments mkOutbox {L}. Arguments o_self {L}. Arguments o_link {L}. Arguments classify {L}.
Arguments allowDMs {L}. Arguments cursor {L}. Arguments lossRate {L}. Arguments dict {L}. Arguments o_stats {L}.

Section outbox.
Context {L E : Type} `{HB : Blake3, HE : Records.Ed25519, HZ : Zstd, HS : Sender L E}.
Context (Log : float64 → float64).

Abbreviation outbox := (Outbox L).
Abbreviation error := (outbox_error E).

Definition with_link (l : L) (o : outbox) : outbox :=
  mkOutbox (o_self o) l (classify o) (allowDMs o) (cursor o) (lossRate o) (dict o) (o_stats o).
Definition with_cursor (c : gmap Z Z) (o : outbox) : outbox :=
  mkOutbox (o_self o) (o_link o) (classify o) (allowDMs o) c (lossRate o) (dict o) (o_stats o).
Definition count (k : outbox_stat) (o : outbox) : outbox :=
  mkOutbox (o_self o) (o_link o) (classify o) (allowDMs o) (cursor o) (lossRate o) (dict o)
    (λ k', if decide (k = k') then o_stats o k + 1 else o_stats o k').

Definition NewOutbox (self : NodeID) (l : L) (d : Dictionary) (cls : option (AreaTag → Class))
    (loss : float64) (allow : option bool) : result error outbox :=
  _ ← require (negb (IsZero self)) NoNodeID;
  _ ← require (negb (flt loss f0 || fle (of_int 1) loss)) LossRateRange;
  Ok (mkOutbox self l (default (λ _, ClassForum) cls) allow ∅ loss d (λ _, 0)).

(** [send]: through SendCharged when the link understands priorities. *)
Definition send (l : L) (to : NodeID) (frame : bytes) (ch : Charge) : L * option (link_error E) :=
  match link_SendCharged with
  | Some f => f l to frame ch
  | None => link_Send l to frame
  end.

Definition control_charge : Charge := mkCharge ClassControl (zero_arr 4).

Definition SendMessage (o : outbox) (to : NodeID) (payload : bytes) : outbox * option error :=
  let frame := FrameControl :: payload in
  if link_MTU (o_link o) <? strlen frame
  then (o, Some (FrameTooLong (strlen frame) (link_MTU (o_link o))))
  else
    let '(l, err) := send (o_link o) to frame control_charge in
    let o := with_link l o in
    match err with
    | Some ErrNoBudget => (count RefusedCount o, None)
    | Some e => (o, Some (LinkFailed e))
    | None => (count MessagesSent o, None)
    end.

Definition bundleIDFor (packed : bytes) : Z := be_val (take 4 (vec_to_list (blake3_sum256 packed))).

Lemma bundleIDFor_u32 packed : is_u32 (bundleIDFor packed).
Proof.
  unfold bundleIDFor. pose proof (be_val_range_len (take 4 (vec_to_list (blake3_sum256 packed))) 4).
  rewrite length_take, length_vec_to_list in *. specialize (H eq_refl). widths.
Qed.

(** One symbol as the link sees it. *)
Definition symbol_frame (e : Encoder) (i : Z) : bytes :=
  FrameSymbol :: be_bytes 4 (u32 (Z.of_nat (e_origLen e))) ++ Symbol_Encode (Symbol_ e (u16 i)).

(** The loop over symbols [i], [i+1], ..., [n] of them. *)
Fixpoint send_symbols (n : nat) (i total : Z) (e : Encoder) (bid : Z) (ch : Charge) (o : outbox)
    : outbox * option error :=
  match n with
  | O => (count BundlesSent (with_cursor (<[bid := total]> (cursor o)) o), None)
  | S n' =>
      let '(l, err) := send (o_link o) Broadcast (symbol_frame e i) ch in
      let o := with_link l o in
      match err with
      | Some ErrNoBudget => (count RefusedCount (with_cursor (<[bid := i]> (cursor o)) o), None)
      | Some x => (with_cursor (<[bid := i]> (cursor o)) o, Some (LinkFailed x))
      | None => send_symbols n' (i + 1) total e bid ch (count SymbolsSent o)
      end
  end.

(** How far a transmission that starts at [start] goes. *)
Definition transmission_end (k start : Z) (loss : float64) : Z :=
  let total := k + RepairCount Log k loss in
  let total := if total <=? start then start + RepairCount Log k loss else total in
  if maxSymbolsPerBundle <? total then maxSymbolsPerBundle else total.

Definition SendRecords (o : outbox) (area : AreaTag) (recs : list Rec) : outbox * option error :=
  match Pack (mkBundle area 0 (dict_id (dict o)) recs) (dict o) with
  | Err e => (o, Some (PackFailed e))
  | Ok packed =>
      let bundleID := bundleIDFor packed in
      let symSize := link_MTU (o_link o) - frameOverhead - Z.of_nat HeaderSize in
      if symSize <=? 0 then (o, Some (MTUTooSmall (link_MTU (o_link o))))
      else
        match NewEncoder (o_self o) bundleID packed symSize with
        | Err e => (o, Some (EncodeFailed e))
        | Ok enc =>
            let start := default 0 (cursor o !! bundleID) in
            if maxSymbolsPerBundle <=? start then (count Abandoned o, None)
            else
              let total := transmission_end (Z.of_nat (e_k enc)) start (lossRate o) in
              let class := classify o area in
              if bool_decide (class = ClassDM) && bool_decide (allowDMs o = Some false)
              then (count RefusedHamMode o, None)
              else send_symbols (Z.to_nat (total - start)) start total enc bundleID (mkCharge class area) o
        end
  end.

Definition Outbox_Budget (o : outbox) : Budget := link_Budget (o_link o).
Definition Forget (bundleID : Z) (o : outbox) : outbox := with_cursor (delete bundleID (cursor o)) o.
Definition SetDictionary (d : option Dictionary) (o : outbox) : outbox :=
  match d with
  | None => o
  | Some d => mkOutbox (o_self o) (o_link o) (classify o) (allowDMs o) (cursor o) (lossRate o) d (o_stats o)
  end.
Definition SetLossRate (rate : float64) (o : outbox) : outbox :=
  let rate := if flt rate f0 then f0 else rate in
  let rate := if flt maxLossRate rate then maxLossRate else rate in
  mkOutbox (o_self o) (o_link o) (classify o) (allowDMs o) (cursor o) rate (dict o) (o_stats o).

(** The engine's transmitter. *)
#[export] Instance bsmp_outbox : GossipEngine.Outbox outbox error := {
  SendMessage := SendMessage;
  SendRecords := SendRecords;
  CanSend o := Budget_CanSend (Outbox_Budget o);
  SetLossRate o x := SetLossRate x o;
  LossRate o := Some (lossRate o)
}.
End outbox.

(** ** What goes out, and that it is never repeated *)

Section sending.
Context {L E : Type} `{HB : Blake3, HE : Records.Ed25519, HZ : Zstd, HS : Sender L E, HL : !SenderLog L E}.
Context (Log : float64 → float64).
#[local] Set Default Proof Using "All".

Abbreviation outbox := (Outbox L).

Definition air (o : outbox) : list (NodeID * bytes) := on_air (o_link o).

Lemma on_air_send l to p ch l' e :
  send l to p ch = (l', e) →
  link_MTU l' = link_MTU l ∧ on_air l' = if decide (e = None) then on_air l ++ [(to, p)] else on_air l.
Proof.
  unfold send. destruct link_SendCharged as [f|] eqn:Hf; [by apply on_air_SendCharged|apply on_air_Send].
Qed.

(** A control message is one frame. It is sent whole, or refused by the
    budget without an error, or reported; it is never split, and nothing else
    goes out. *)
Theorem SendMessage_one_frame o to payload o' err :
  SendMessage o to payload = (o', err) →
  (err = None ∧ o_stats o' MessagesSent = o_stats o MessagesSent + 1 ∧
     strlen payload < link_MTU (o_link o) ∧ air o' = air o ++ [(to, FrameControl :: payload)]) ∨
  (o_stats o' MessagesSent = o_stats o MessagesSent ∧ air o' = air o ∧
     (err = None → o_stats o' RefusedCount = o_stats o RefusedCount + 1)).
Proof.
  unfold SendMessage. destruct (Z.ltb_spec (link_MTU (o_link o)) (strlen (FrameControl :: payload))) as [|Hfit].
  { intros [= <- <-]. by right. }
  destruct (send _ _ _ _) as [l e] eqn:Es. apply on_air_send in Es as [_ Ea].
  unfold air. destruct e as [[]|]; intros [= <- <-]; cbn in *;
    rewrite ?decide_False in Ea by done; rewrite ?decide_True in Ea by done;
    [right|right|right|right|left]; rewrite Ea; split_and!; try done.
  unfold strlen in *. cbn [length] in Hfit. lia.
Qed.

Lemma send_symbols_spec n i total e bid ch o o' err :
  total = i + Z.of_nat n →
  send_symbols n i total e bid ch o = (o', err) →
  ∃ k : nat, (k ≤ n)%nat ∧
    air o' = air o ++ ((λ j, (Broadcast, symbol_frame e j)) <$> seqZ i (Z.of_nat k)) ∧
    cursor o' = <[bid := i + Z.of_nat k]> (cursor o) ∧
    o_self o' = o_self o ∧ dict o' = dict o ∧ classify o' = classify o ∧ allowDMs o' = allowDMs o ∧
    link_MTU (o_link o') = link_MTU (o_link o) ∧
    ((k < n)%nat → o_stats o' RefusedCount = o_stats o RefusedCount + 1 ∨ err ≠ None).
Proof.
  revert i o. induction n as [|n IH]; intros i o Ht; cbn [send_symbols].
  { intros [= <- <-]. exists O. rewrite Ht, Z.add_0_r, app_nil_r. split_and!; try done. lia. }
  destruct (send _ _ _ _) as [l x] eqn:Es. apply on_air_send in Es as [Hm Ea].
  assert (Hstop : x ≠ None → on_air l = air o) by (intros Hx; by rewrite decide_False in Ea).
  destruct x as [[]|].
  1-4: specialize (Hstop ltac:(done)); intros [= <- <-]; exists O; unfold air in *;
       cbn [o_link with_link with_cursor count cursor o_self dict classify allowDMs o_stats];
       rewrite Hstop, Z.add_0_r, app_nil_r; split_and!; try done; try lia; auto.
  clear Hstop. rewrite decide_True in Ea by done. intros H.
  apply IH in H as (k & Hk & Ha & Hc & H1 & H2 & H3 & H4 & H5 & H6); [|lia].
  exists (S k). split; [lia|]. rewrite (seqZ_cons i) by lia.
  replace (Z.pred (Z.of_nat (S k))) with (Z.of_nat k) by lia.
  replace (i + Z.of_nat (S k)) with (i + 1 + Z.of_nat k) by lia.
  rewrite <- Z.add_1_r in *. unfold air in *.
  cbn [o_link with_link with_cursor count cursor o_self dict classify allowDMs o_stats fmap list_fmap] in *.
  rewrite Ha, Ea, <- app_assoc. split_and!; try done; [congruence|]. intros Hlt. by apply H6; lia.
Qed.

(** The block a batch is sent as, with the outbox's dictionary and link. *)
Definition batch_encoder (o : outbox) (area : AreaTag) (recs : list Rec) : option Encoder :=
  match Pack (mkBundle area 0 (dict_id (dict o)) recs) (dict o) with
  | Err _ => None
  | Ok packed =>
      let symSize := link_MTU (o_link o) - frameOverhead - Z.of_nat HeaderSize in
      if symSize <=? 0 then None
      else match NewEncoder (o_self o) (bundleIDFor packed) packed symSize with
           | Ok e => Some e
           | Err _ => None
           end
  end.

Definition progress (o : outbox) (bid : Z) : Z := default 0 (cursor o !! bid).
Definition frames (e : Encoder) (i n : Z) : list (NodeID * bytes) :=
  (λ j, (Broadcast, symbol_frame e j)) <$> seqZ i n.

(** Refused by the amateur-licence rule. *)
Definition dm_refused (o : outbox) (area : AreaTag) : bool :=
  bool_decide (classify o area = ClassDM) && bool_decide (allowDMs o = Some false).

Lemma NewEncoder_bundleID sender bid p sz e :
  NewEncoder sender bid p sz = Ok e → e_bundleID e = bid ∧ 1 ≤ Z.of_nat (e_k e).
Proof.
  intros H. pose proof (NewEncoder_Ok _ _ _ _ _ H) as Hs. revert H. unfold NewEncoder.
  intros [Hsz%require_Ok%negb_true_iff%orb_false_iff H]%bind_unit_Ok.
  apply bind_unit_Ok in H as [Hp%require_neg_decide H].
  apply bind_unit_Ok in H as [_ [= <-]]. cbn. split; [done|].
  destruct Hsz as [Hsz%Z.leb_gt _]. assert (1 ≤ (strlen p + sz - 1) / sz); [|lia].
  apply Z.div_le_lower_bound; [lia|]. destruct p; [done|]. unfold strlen. cbn [length]. lia.
Qed.

Lemma transmission_end_bounds k start loss :
  1 ≤ k → 0 ≤ start < maxSymbolsPerBundle →
  start < transmission_end Log k start loss ≤ maxSymbolsPerBundle.
Proof.
  intros Hk Hs. unfold transmission_end. pose proof (RepairCount_pos Log k loss Hk).
  destruct (Z.leb_spec (k + RepairCount Log k loss) start);
    destruct (Z.ltb_spec maxSymbolsPerBundle (start + RepairCount Log k loss));
    destruct (Z.ltb_spec maxSymbolsPerBundle (k + RepairCount Log k loss)); lia.
Qed.

Lemma SendRecords_spec o area recs e o' err :
  batch_encoder o area recs = Some e → SendRecords Log o area recs = (o', err) →
  let start := progress o (e_bundleID e) in
  0 ≤ start ≤ maxSymbolsPerBundle →
  ∃ n, 0 ≤ n ∧ progress o' (e_bundleID e) = start + n ∧ start + n ≤ maxSymbolsPerBundle ∧
    air o' = air o ++ frames e start n ∧
    (∀ b, b ≠ e_bundleID e → progress o' b = progress o b) ∧
    batch_encoder o' area recs = Some e ∧
    (err = None → o_stats o' RefusedCount = o_stats o RefusedCount → dm_refused o area = false →
     start < maxSymbolsPerBundle →
     start + n = transmission_end Log (Z.of_nat (e_k e)) start (lossRate o)).
Proof.
  unfold batch_encoder, SendRecords.
  destruct (Pack _ _) as [packed|] eqn:Hpk; [|done].
  destruct (_ <=? 0) eqn:Hsz; [done|].
  destruct (NewEncoder _ _ _ _) as [e1|] eqn:He; [|done]. intros [= ->].
  destruct (NewEncoder_bundleID _ _ _ _ _ He) as [Hbid Hk]. rewrite <- Hbid in *.
  fold (progress o (e_bundleID e)). set (start := progress o (e_bundleID e)).
  intros H. cbv zeta. intros Hs. revert H.
  assert (Hstay : ∀ k, batch_encoder (count k o) area recs = Some e ∧
    progress (count k o) (e_bundleID e) = start + 0 ∧ air (count k o) = air o ++ frames e start 0).
  { intros k. unfold batch_encoder. cbn [dict o_link o_self count]. rewrite Hpk, Hsz, <- Hbid, He.
    unfold frames. rewrite Z.add_0_r, app_nil_r. done. }
  destruct (Z.leb_spec maxSymbolsPerBundle start) as [Hfull|Hroom].
  { intros [= <- <-]. destruct (Hstay Abandoned) as (Hb & Hp & Ha). exists 0.
    split_and!; try done; lia. }
  fold (dm_refused o area). destruct (dm_refused o area).
  { intros [= <- <-]. destruct (Hstay RefusedHamMode) as (Hb & Hp & Ha). exists 0. split_and!; try done; lia. }
  pose proof (transmission_end_bounds _ _ (lossRate o) Hk (conj (proj1 Hs) Hroom)) as Hend.
  set (total := transmission_end Log (Z.of_nat (e_k e)) start (lossRate o)) in *.
  intros (k & Hkn & Ha & Hc & H1 & H2 & _ & _ & H3 & H4)%send_symbols_spec; [|lia].
  exists (Z.of_nat k). split_and!; [lia| |lia|done| | |].
  - unfold progress. by rewrite Hc, lookup_insert_eq.
  - intros b Hb. unfold progress. by rewrite Hc, lookup_insert_ne by done.
  - unfold batch_encoder. rewrite H1, H2, H3, Hpk, Hsz, <- Hbid, He. done.
  - intros -> Hr _ _. destruct (decide (k < Z.to_nat (total - start))%nat) as [Hlt|]; [|lia].
    destruct (H4 Hlt) as [Hx|Hx]; [lia|done].
Qed.

(** Sending the same batch again and again, the loss estimate moving in between. *)
Definition resend (area : AreaTag) (recs : list Rec) (o : outbox) (losses : list float64) : outbox :=
  foldl (λ o x, (SendRecords Log (SetLossRate x o) area recs).1) o losses.

(** A transmission resumes where it stopped. However often a batch is offered
    again, whatever the budget refuses or the link fails to send and however the
    loss estimate moves in between, the symbols that go out are consecutive and
    none goes out twice, no more than [maxSymbolsPerBundle] ever do, and the
    cursors of other bundles stay where they are. *)
Theorem retries_resume o area recs e losses :
  batch_encoder o area recs = Some e → 0 ≤ progress o (e_bundleID e) ≤ maxSymbolsPerBundle →
  let o' := resend area recs o losses in
  let start := progress o (e_bundleID e) in
  let stop := progress o' (e_bundleID e) in
  start ≤ stop ≤ maxSymbolsPerBundle ∧ air o' = air o ++ frames e start (stop - start) ∧
  (∀ b, b ≠ e_bundleID e → progress o' b = progress o b).
Proof.
  cbv zeta. unfold resend. revert o. induction losses as [|x losses IH]; intros o He Hs; cbn [foldl].
  { rewrite Z.sub_diag. unfold frames. rewrite app_nil_r. split_and!; (done || lia). }
  destruct (SendRecords Log (SetLossRate x o) area recs) as [o1 err] eqn:Hsr.
  assert (Hxe : batch_encoder (SetLossRate x o) area recs = Some e) by done.
  destruct (SendRecords_spec _ _ _ _ _ _ Hxe Hsr Hs) as (n & Hn & Hp & Hmax & Ha & Ho & He1 & _).
  change (progress (SetLossRate x o) (e_bundleID e)) with (progress o (e_bundleID e)) in *.
  change (air (SetLossRate x o)) with (air o) in *. cbn [fst].
  destruct (IH o1 He1 ltac:(lia)) as (Hb & Hair & Hoth). split_and!; [lia|lia| |].
  - rewrite Hair, Ha, <- app_assoc, Hp. f_equal. unfold frames. rewrite <- fmap_app. f_equal.
    rewrite <- seqZ_app by lia. f_equal. lia.
  - intros b Hb'. rewrite Hoth by done. by apply Ho.
Qed.
End sending.
