(* ===== verification/BsmpInbox.v ===== *)
(** * Receiving from a link (internal/bsmp/inbox.go)

    Datagrams into control messages and fountain symbols, symbols into blocks,
    blocks into bundles, bundles into records handed to the engine. The engine
    is an interface, [Applier]. What the event callback prints is not modelled.
    When more than [maxOpenDecoders] blocks are open the stalest goes; among
    equally stale ones Go's map order decides, here the map's own. *)

From S2P Require Import Prelude Binary Float64 Identity Schedule.
From S2P Require Records GossipEngine.
From S2P Require Import Governor Bundle Fountain FountainCodec BsmpOutbox.

Definition maxOrigLen : Z := 1048576.
Definition maxOpenDecoders : Z := 64.
Definition decoderTTL : Z := 6 * Hour.

Record Datagram := mkDatagram { dg_From : NodeID; dg_Data : bytes }.

(** [Receive] and [ApplyRecords] report the error, if any; the latter also how
    many records were new. *)
Class Applier (G GE : Type) := {
  ap_Receive : G → NodeID → bytes → G * option GE;
  ap_ApplyRecords : G → AreaTag → list Rec → G * Z * option GE
}.

(** What an engine was asked to apply: every attempt, whatever it answered. *)
Class ApplierLog (G GE : Type) `{Applier G GE} := {
  applied : G → list (AreaTag * list Rec);
  applied_Receive g from p : applied (ap_Receive g from p).1 = applied g;
  applied_ApplyRecords g a rs : applied (ap_ApplyRecords g a rs).1.1 = applied g ++ [(a, rs)]
}.

Abbreviation decKey := (NodeID * Z)%type.

Record openDecoder := mkOpen { od_dec : Decoder; started : Z; touched : Z }.

Inductive inbox_stat :=
| Control | Symbols | Decoded | RecordsAdded | Rejected | Corrupt | UnknownDictionary
| Duplicates | Evicted.
#[export] Instance inbox_stat_eq_dec : EqDecision inbox_stat.
Proof. solve_decision. Defined.

Record Inbox (G : Type) := mkInbox {
  engine : G;
  decoders : gmap decKey openDecoder;
  done : gmap decKey Z;
  i_stats : inbox_stat → Z
}.
Arguments mkInbox {G}. Arguments engine {G}. Arguments decoders {G}. Arguments done {G}. Arguments i_stats {G}.

(** What [Deliver] returns an error for: the engine's. *)
Inductive inbox_error (GE : Type) :=
| ReceiveFailed (e : GE)
| ApplyFailed (e : GE).
Arguments ReceiveFailed {GE}. Arguments ApplyFailed {GE}.

Section inbox.
Context {G GE : Type} `{HB : Blake3, HE : Records.Ed25519, HZ : Zstd, HA : Applier G GE}.
Context (dicts : gmap byte Dictionary).

Abbreviation inbox := (Inbox G).

Definition NewInbox (g : G) : inbox := mkInbox g ∅ ∅ (λ _, 0).

Definition with_engine (g : G) (i : inbox) : inbox := mkInbox g (decoders i) (done i) (i_stats i).
Definition with_decoders (d : gmap decKey openDecoder) (i : inbox) : inbox :=
  mkInbox (engine i) d (done i) (i_stats i).
Definition with_done (d : gmap decKey Z) (i : inbox) : inbox := mkInbox (engine i) (decoders i) d (i_stats i).
Definition bump (k : inbox_stat) (n : Z) (i : inbox) : inbox :=
  mkInbox (engine i) (decoders i) (done i) (λ k', if decide (k = k') then i_stats i k + n else i_stats i k').

Definition fresh_enough (now at_ : Z) : Prop := ¬ decoderTTL < now - at_.

Definition expire (now : Z) (i : inbox) : inbox :=
  let keep := filter (λ e, fresh_enough now (touched e.2)) (decoders i) in
  let i := bump Evicted (Z.of_nat (size (decoders i)) - Z.of_nat (size keep)) i in
  with_done (filter (λ e, fresh_enough now e.2) (done i)) (with_decoders keep i).

(** The scan for the least recently touched decoder. *)
Definition older (k : decKey) (od : openDecoder) (acc : option (decKey * Z)) : option (decKey * Z) :=
  match acc with
  | None => Some (k, touched od)
  | Some (_, at_) => if touched od <? at_ then Some (k, touched od) else acc
  end.
Definition oldest (m : gmap decKey openDecoder) : option (decKey * Z) := map_fold older None m.

(** [fuel]: each round removes one decoder. *)
Fixpoint evict (fuel : nat) (i : inbox) : inbox :=
  match fuel with
  | O => i
  | S fuel' =>
      if maxOpenDecoders <? Z.of_nat (size (decoders i)) then
        match oldest (decoders i) with
        | None => i
        | Some (k, _) => evict fuel' (bump Evicted 1 (with_decoders (delete k (decoders i)) i))
        end
      else i
  end.
Definition evictToCap (i : inbox) : inbox := evict (size (decoders i)) i.

(** The bundle of a finished block, outside the lock. *)
Definition apply_bundle (packed : bytes) (i : inbox) : inbox * option (inbox_error GE) :=
  match Unpack packed dicts with
  | Err (ErrUnknownDictionary _) => (bump UnknownDictionary 1 i, None)
  | Err _ => (bump Rejected 1 i, None)
  | Ok b =>
      let '(g, added, err) := ap_ApplyRecords (engine i) (B_Area b) (B_Records b) in
      let i := with_engine g i in
      match err with
      | Some e => (i, Some (ApplyFailed e))
      | None => (bump RecordsAdded added i, None)
      end
  end.

(** A block that says it is finished. *)
Definition finish (now : Z) (key : decKey) (dec : Decoder) (i : inbox) : inbox * option (inbox_error GE) :=
  let i := with_decoders (delete key (decoders i)) i in
  match Payload dec with
  | Err _ => (bump Rejected 1 i, None)
  | Ok packed =>
      if negb (bundleIDFor packed =? key.2) then (bump Corrupt 1 i, None)
      else apply_bundle packed (bump Decoded 1 (with_done (<[key := now]> (done i)) i))
  end.

(** The open decoder a symbol belongs to, opened if need be and touched. *)
Definition open_for (now : Z) (key : decKey) (sym : Symbol) (origLen : Z) (i : inbox)
    : option (openDecoder) :=
  match decoders i !! key with
  | Some od => Some (mkOpen (od_dec od) (started od) now)
  | None =>
      match NewDecoder key.1 (BundleID sym) (K sym) (strlen (Data sym)) origLen with
      | Err _ => None
      | Ok dec => Some (mkOpen dec now now)
      end
  end.

Definition add_symbol (now : Z) (from : NodeID) (sym : Symbol) (origLen : Z) (i : inbox)
    : inbox * option (inbox_error GE) :=
  let key := (from, BundleID sym) in
  if decide (is_Some (done i !! key)) then (bump Duplicates 1 i, None)
  else
    let i := expire now i in
    match open_for now key sym origLen i with
    | None => (bump Rejected 1 i, None)
    | Some od =>
        let i := evictToCap (with_decoders (<[key := od]> (decoders i)) i) in
        (* [od] is a pointer: the symbol is added to it whether or not the map
           still holds it *)
        let '(dec, res) := Add (od_dec od) sym in
        let i := with_decoders (alter (λ _, mkOpen dec (started od) (touched od)) key (decoders i)) i in
        match res with
        | Err _ => (bump Rejected 1 i, None)
        | Ok _ =>
            let i := bump Symbols 1 i in
            if negb (Done dec) then (i, None) else finish now key dec i
        end
    end.

(** The header of a symbol frame: the length of its bundle and the symbol. *)
Definition read_symbol (data : bytes) : option (Z * Symbol) :=
  if strlen data <? frameOverhead + Z.of_nat HeaderSize then None
  else
    let origLen := be_val (take 4 (drop 1 data)) in
    if (origLen <=? 0) || (maxOrigLen <? origLen) then None
    else
      match DecodeSymbol (drop (Z.to_nat frameOverhead) data) with
      | Err _ => None
      | Ok sym => Some (origLen, sym)
      end.

Definition symbol (now : Z) (dg : Datagram) (i : inbox) : inbox * option (inbox_error GE) :=
  match read_symbol (dg_Data dg) with
  | None => (bump Rejected 1 i, None)
  | Some (origLen, sym) => add_symbol now (dg_From dg) sym origLen i
  end.

Definition Deliver (now : Z) (dg : Datagram) (i : inbox) : inbox * option (inbox_error GE) :=
  match dg_Data dg with
  | [] => (i, None)
  | t :: rest =>
      if decide (t = FrameControl) then
        let i := bump Control 1 i in
        let '(g, err) := ap_Receive (engine i) (dg_From dg) rest in
        (with_engine g i, ReceiveFailed <$> err)
      else if decide (t = FrameSymbol) then symbol now dg i
      else (bump Rejected 1 i, None)
  end.

Definition Pending (i : inbox) : Z := Z.of_nat (size (decoders i)).
End inbox.

(** The gossip engine, as the inbox sees it at one instant. *)
#[export] Instance engine_applier {S SE O OE R : Type} `{HB : Blake3, HS : GossipEngine.Store S SE,
    HO : GossipEngine.Outbox O OE, HR : Rng R} (self : NodeID) (cfg : GossipEngine.Config) (now : Z) :
  Applier (GossipEngine.Engine S O R) (GossipEngine.engine_error SE OE) := {
  ap_Receive e from p :=
    match GossipEngine.Receive (SE := SE) (OE := OE) self cfg now from p e with
    | (Ok _, e') => (e', None)
    | (Err x, e') => (e', Some x)
    end;
  ap_ApplyRecords e a rs :=
    match GossipEngine.ApplyRecords (SE := SE) (OE := OE) a rs e with
    | (Ok n, e') => (e', n, None)
    | (Err x, e') => (e', 0, Some x)
    end
}.

(** ** What a run of the inbox does *)

Section receiving.
Context {G GE : Type} `{HB : Blake3, HE : Records.Ed25519, HZ : Zstd, HA : Applier G GE, HL : !ApplierLog G GE}.
Context (dicts : gmap byte Dictionary).
#[local] Set Default Proof Using "All".

Abbreviation inbox := (Inbox G).

Definition applied_by (i : inbox) : list (AreaTag * list Rec) := applied (engine i).

(** A bundle handed to the engine: whose it was, its bytes and what they held. *)
Record handed := mkHanded { h_key : decKey; h_at : Z; h_packed : bytes; h_bundle : Bundle }.
Definition contents (h : handed) : AreaTag * list Rec := (B_Area (h_bundle h), B_Records (h_bundle h)).

(** The bytes hash to the ID their symbols carried and hold a well-formed batch. *)
Definition genuine (h : handed) : Prop :=
  bundleIDFor (h_packed h) = (h_key h).2 ∧ Unpack (h_packed h) dicts = Ok (h_bundle h) ∧
  wf_bundle (h_bundle h).

Lemma apply_bundle_spec packed i i' err key now :
  apply_bundle dicts packed i = (i', err) → bundleIDFor packed = key.2 →
  ∃ h : option handed,
    applied_by i' = applied_by i ++ (contents <$> option_list h) ∧
    decoders i' = decoders i ∧ done i' = done i ∧
    (∀ b, Unpack packed dicts = Ok b → h = Some (mkHanded key now packed b)) ∧
    (∀ x, h = Some x → h_key x = key ∧ h_at x = now ∧ genuine x).
Proof.
  unfold apply_bundle, applied_by. destruct (Unpack packed dicts) as [b|e] eqn:Hu.
  - destruct (ap_ApplyRecords _ _ _) as [[g added] er] eqn:Ea. intros H Hid.
    exists (Some (mkHanded key now packed b)).
    assert (engine i' = g ∧ decoders i' = decoders i ∧ done i' = done i) as (-> & -> & ->)
      by (destruct er; injection H as <- <-; done).
    pose proof (applied_ApplyRecords (engine i) (B_Area b) (B_Records b)) as Hl. rewrite Ea in Hl.
    cbn in *. split_and!; [done..|by intros ? [= ->]|]. intros x [= <-]. split_and!; [done..|].
    split_and!; [done..|]. by apply Unpack_wf in Hu.
  - intros H _. exists None. rewrite app_nil_r.
    destruct e; injection H as <- <-; split_and!; done.
Qed.

Lemma finish_spec now key dec i i' err :
  finish dicts now key dec i = (i', err) →
  ∃ h : option handed,
    applied_by i' = applied_by i ++ (contents <$> option_list h) ∧
    decoders i' = delete key (decoders i) ∧
    (∀ packed b, Payload dec = Ok packed → bundleIDFor packed = key.2 → Unpack packed dicts = Ok b →
       h = Some (mkHanded key now packed b)) ∧
    match h with
    | Some x => h_key x = key ∧ h_at x = now ∧ genuine x ∧ done i' = <[key := now]> (done i)
    | None => done i' = done i ∨ done i' = <[key := now]> (done i)
    end.
Proof.
  unfold finish. destruct (Payload dec) as [packed|] eqn:Hp.
  2:{ intros [= <- <-]. exists None. cbn. rewrite app_nil_r. split_and!; [done..|by left]. }
  destruct (Z.eqb_spec (bundleIDFor packed) key.2) as [Hid|Hne]; cbn [negb].
  2:{ intros [= <- <-]. exists None. cbn. rewrite app_nil_r. split_and!; [done|done| |by left].
      by intros ?? [= <-]. }
  intros (h & Ha & Hd & Hn & Hu & Hh)%(apply_bundle_spec _ _ _ _ key now); [|done].
  exists h. split_and!; [done|done| |].
  - intros ?? [= <-] _. apply Hu.
  - destruct h as [x|]; [|right; by rewrite Hn]. destruct (Hh x eq_refl) as (?&?&?). by rewrite Hn.
Qed.

Lemma evict_spec fuel (i : inbox) :
  engine (evict fuel i) = engine i ∧ done (evict fuel i) = done i ∧
  decoders (evict fuel i) ⊆ decoders i ∧
  (Z.of_nat (size (decoders i)) ≤ maxOpenDecoders → decoders (evict fuel i) = decoders i) ∧
  (Z.of_nat (size (decoders i)) ≤ maxOpenDecoders + Z.of_nat fuel →
   Z.of_nat (size (decoders (evict fuel i))) ≤ maxOpenDecoders).
Proof.
  revert i. induction fuel as [|fuel IH]; intros i; cbn [evict]; [split_and!; (done || lia)|].
  destruct (Z.ltb_spec maxOpenDecoders (Z.of_nat (size (decoders i)))); [|split_and!; (done || lia)].
  assert (Hold : ∀ m : gmap decKey openDecoder, match oldest m with
      | Some (k, _) => is_Some (m !! k) | None => m = ∅ end).
  { intros m. unfold oldest. revert m. apply (map_fold_weak_ind (λ acc m, match acc with
      | Some (k, _) => is_Some (m !! k) | None => m = ∅ end)); [done|].
    intros k od m [[k' at_]|] Hk Hacc; cbn.
    - destruct (_ <? _); [by rewrite lookup_insert_eq|]. rewrite lookup_insert_is_Some'. by right.
    - by rewrite lookup_insert_eq. }
  specialize (Hold (decoders i)). destruct (oldest (decoders i)) as [[k at_]|].
  - destruct (IH (bump Evicted 1 (with_decoders (delete k (decoders i)) i))) as (He & Hd & Hs & _ & Hc).
    cbn in *. rewrite map_size_delete_Some in Hc by done.
    unfold maxOpenDecoders in *. split_and!; [done..| |intros; lia|intros; apply Hc; lia].
    etransitivity; [exact Hs|apply delete_subseteq].
  - rewrite Hold, map_size_empty in *. unfold maxOpenDecoders in *. lia.
Qed.
Definition capped (i : inbox) : Prop := Z.of_nat (size (decoders i)) ≤ maxOpenDecoders.

(** What a delivery leaves of the memory of finished bundles. *)
Definition remembers (now : Z) (i i' : inbox) : Prop :=
  ∀ k at_, done i !! k = Some at_ → fresh_enough now at_ → done i' !! k = Some at_.

(** One step: nothing is handed over, or one genuine bundle not seen before. *)
Definition step_ok (now : Z) (from : NodeID) (i i' : inbox) : Prop :=
  ∃ h : option handed,
    applied_by i' = applied_by i ++ (contents <$> option_list h) ∧
    (capped i → capped i') ∧ remembers now i i' ∧
    ∀ x, h = Some x → (h_key x).1 = from ∧ h_at x = now ∧ genuine x ∧
      done i !! h_key x = None ∧ done i' !! h_key x = Some now.

Lemma step_ok_idle now from i i' :
  applied_by i' = applied_by i → decoders i' = decoders i → done i' = done i → step_ok now from i i'.
Proof.
  intros Ha Hd Hn. exists None. unfold capped, remembers. rewrite Ha, Hd, Hn, app_nil_r. by split_and!.
Qed.

Lemma capped_insert_evict (i : inbox) m :
  Z.of_nat (size m) ≤ maxOpenDecoders + 1 → capped (evictToCap (with_decoders m i)).
Proof. intros Hm. unfold evictToCap. apply evict_spec. cbn. unfold maxOpenDecoders in *. lia. Qed.

Lemma expire_spec now (i : inbox) :
  engine (expire now i) = engine i ∧
  (∀ k, decoders (expire now i) !! k = od ← decoders i !! k; if decide (fresh_enough now (touched od)) then Some od else None) ∧
  (∀ k, done (expire now i) !! k = at_ ← done i !! k; if decide (fresh_enough now at_) then Some at_ else None) ∧
  decoders (expire now i) ⊆ decoders i.
Proof.
  split_and!; [done| | |apply map_filter_subseteq]; intros k; cbn; rewrite map_lookup_filter.
  - destruct (decoders i !! k); [|done]. cbn. unfold guard. by repeat case_decide.
  - destruct (done i !! k); [|done]. cbn. unfold guard. by repeat case_decide.
Qed.

Lemma add_symbol_ok now from sym ol i i' err :
  add_symbol dicts now from sym ol i = (i', err) → step_ok now from i i'.
Proof.
  unfold add_symbol. set (key := (from, BundleID sym)). case_decide as Hseen.
  { intros [= <- <-]. by apply step_ok_idle. }
  apply eq_None_not_Some in Hseen. destruct (expire_spec now i) as (He & _ & Hdn & Hsub).
  set (i1 := expire now i) in *. clearbody i1.
  assert (Hrem : remembers now i i1).
  { intros k at_ Hk Hf. rewrite Hdn, Hk. cbn. by rewrite decide_True. }
  assert (Hnone : done i1 !! key = None) by (by rewrite Hdn, Hseen).
  assert (Hcap1 : capped i → capped i1).
  { unfold capped. apply map_subseteq_size in Hsub. lia. }
  destruct (open_for now key sym ol i1) as [od|].
  2:{ intros [= <- <-]. exists None. unfold applied_by. cbn. rewrite He, app_nil_r. by split_and!. }
  set (m := <[key := od]> (decoders i1)). set (i2 := evictToCap (with_decoders m i1)).
  assert (H2 : engine i2 = engine i1 ∧ done i2 = done i1)
    by (destruct (evict_spec (size m) (with_decoders m i1)) as (?&?&_); done).
  assert (Hcap2 : capped i → capped i2).
  { intros Hc%Hcap1. apply capped_insert_evict. unfold capped, m in *.
    rewrite map_size_insert. destruct (decoders i1 !! key); cbn; lia. }
  clearbody i2. destruct H2 as [He2 Hd2]. destruct (Add (od_dec od) sym) as [dec res].
  set (i3 := with_decoders (alter _ key (decoders i2)) i2).
  assert (Hcap3 : capped i → capped i3).
  { intros Hc%Hcap2. unfold capped, i3 in *. cbn. by rewrite <- size_dom, dom_alter_L, size_dom. }
  assert (H3 : applied_by i3 = applied_by i ∧ done i3 = done i1).
  { unfold applied_by, i3. cbn. by rewrite He2, He, Hd2. }
  clearbody i3. destruct H3 as [Ha3 Hn3].
  assert (Hidle : ∀ k, step_ok now from i (bump k 1 i3)).
  { intros k. exists None. unfold remembers, capped. cbn. rewrite <- Ha3, app_nil_r, Hn3. by split_and!. }
  destruct res as [b|e]; [|intros [= <- <-]; apply Hidle].
  destruct (negb (Done dec)); [intros [= <- <-]; apply Hidle|].
  intros (h & Ha & Hd & _ & Hh)%finish_spec. exists h. cbn in *. split_and!.
  - by rewrite Ha, <- Ha3.
  - intros Hc%Hcap3. unfold capped in *. rewrite Hd. cbn.
    pose proof (map_subseteq_size _ _ (delete_subseteq (decoders i3) key)). cbn in *. lia.
  - intros k at_ Hk Hf. pose proof (Hrem k at_ Hk Hf) as H1.
    assert (k ≠ key) by congruence.
    destruct h as [x|]; [destruct Hh as (_ & _ & _ & ->)|destruct Hh as [->| ->]];
      rewrite ?lookup_insert_ne by done; by rewrite Hn3.
  - intros x ->. destruct Hh as (-> & -> & Hg & ->). rewrite lookup_insert_eq. by split_and!.
Qed.

Lemma Deliver_ok now dg i i' err :
  Deliver dicts now dg i = (i', err) → step_ok now (dg_From dg) i i'.
Proof.
  unfold Deliver. destruct (dg_Data dg) as [|t rest] eqn:Hdata.
  { intros [= <- <-]. by apply step_ok_idle. }
  case_decide.
  { destruct (ap_Receive _ _ _) as [g er] eqn:Er. intros [= <- <-].
    pose proof (applied_Receive (engine i) (dg_From dg) rest) as Hl. cbn in Er. rewrite Er in Hl.
    by apply step_ok_idle. }
  case_decide; [|intros [= <- <-]; by apply step_ok_idle].
  unfold symbol. destruct (read_symbol _) as [[ol sym]|]; [|intros [= <- <-]; by apply step_ok_idle].
  apply add_symbol_ok.
Qed.

(** A run of deliveries, each at its time. *)
Definition deliver_all (evs : list (Z * Datagram)) (i : inbox) : inbox :=
  foldl (λ i ev, (Deliver dicts ev.1 ev.2 i).1) i evs.

(** The same sender's bundle comes back only after the memory of it expired. *)
Definition spaced (log : list handed) : Prop :=
  ∀ a b x y, (a < b)%nat → log !! a = Some x → log !! b = Some y → h_key x = h_key y →
    decoderTTL < h_at y - h_at x.

Definition remembered (now : Z) (i : inbox) (log : list handed) : Prop :=
  ∀ x, x ∈ log → done i !! h_key x = Some (h_at x) ∨ decoderTTL < now - h_at x.

Lemma remembered_step now now' i i' log :
  remembered now i log → now ≤ now' → remembers now' i i' → remembered now' i' log.
Proof.
  intros Hr Hn Hm x Hx. destruct (Hr x Hx) as [Hd|]; [|right; lia].
  destruct (decide (fresh_enough now' (h_at x))) as [Hf|Hf]; [left; by apply Hm|].
  right. unfold fresh_enough in Hf. lia.
Qed.

Lemma spaced_snoc now i log y :
  spaced log → remembered now i log → done i !! h_key y = None → now ≤ h_at y → spaced (log ++ [y]).
Proof.
  intros Hs Hr Hy Hn a b x y' Hab Hx Hb Hk.
  destruct (decide (b < length log)%nat) as [Hlt|Hge].
  - rewrite !lookup_app_l in Hx, Hb by lia. exact (Hs a b x y' Hab Hx Hb Hk).
  - assert (b = length log) as ->.
    { apply lookup_lt_Some in Hb. rewrite length_app in Hb. cbn in Hb. lia. }
    rewrite lookup_app_r, Nat.sub_diag in Hb by lia. injection Hb as <-.
    rewrite lookup_app_l in Hx by lia. apply list_elem_of_lookup_2 in Hx.
    destruct (Hr x Hx) as [Hd|]; [congruence|lia].
Qed.

Lemma deliver_all_log evs now i log0 :
  StronglySorted Z.le (now :: evs.*1) → capped i → spaced log0 → remembered now i log0 →
  ∃ log, applied_by (deliver_all evs i) = applied_by i ++ (contents <$> log) ∧
    capped (deliver_all evs i) ∧ spaced (log0 ++ log) ∧
    Forall (λ h, genuine h ∧ ∃ dg, (h_at h, dg) ∈ evs ∧ dg_From dg = (h_key h).1) log.
Proof.
  revert now i log0. induction evs as [|[t dg] evs IH]; intros now i log0 Hs Hc Hsp Hr.
  { exists []. cbn. rewrite !app_nil_r. split_and!; [done..|constructor]. }
  cbn in Hs. apply StronglySorted_inv in Hs as [Hs Hle]. apply Forall_cons in Hle as [Ht _].
  cbn [deliver_all foldl fst snd]. destruct (Deliver dicts t dg i) as [i1 err] eqn:Ed.
  destruct (Deliver_ok _ _ _ _ _ Ed) as (h & Ha & Hcap & Hm & Hh). cbn [fst].
  assert (Hr1 : remembered t i1 log0) by (by eapply remembered_step).
  destruct (IH t i1 (log0 ++ option_list h)) as (log & Hl & Hc1 & Hs1 & Hf); [done|by apply Hcap| | |].
  - destruct h as [x|]; cbn; [|by rewrite app_nil_r]. destruct (Hh x eq_refl) as (_ & Hat & _ & Hn & _).
    apply (spaced_snoc now i); [done..|lia].
  - destruct h as [x|]; cbn; [|by rewrite app_nil_r]. destruct (Hh x eq_refl) as (_ & Hat & _ & _ & Hn).
    intros y [Hy| ->%list_elem_of_singleton]%elem_of_app; [by apply Hr1|]. left. by rewrite Hat.
  - exists (option_list h ++ log). unfold deliver_all in *. rewrite Hl, Ha, fmap_app, <- !app_assoc in *.
    split_and!; [done..|]. apply Forall_app. split.
    + destruct h as [x|]; cbn; [|constructor]. destruct (Hh x eq_refl) as (Hk & Hat & Hg & _).
      apply Forall_singleton. split; [done|]. exists dg. rewrite Hat, Hk. split; [by left|done].
    + eapply Forall_impl; [exact Hf|]. cbn. intros x (Hg & d & Hd & Hk). split; [done|].
      exists d. split; [by right|done].
Qed.

(** C6: whatever datagrams arrive, from whoever and in whatever order, the engine
    is only ever asked to apply genuine bundles: their bytes hash to the bundle
    ID their symbols carried, they unpack to the well-formed batch that is
    applied, and they complete on a datagram of the sender they are filed under.
    The same bundle of the same sender is not applied again within six hours,
    and no more than [maxOpenDecoders] blocks are ever held open. *)
Theorem only_genuine_bundles evs now i :
  StronglySorted Z.le (now :: evs.*1) → capped i →
  ∃ log, applied_by (deliver_all evs i) = applied_by i ++ (contents <$> log) ∧
    capped (deliver_all evs i) ∧ spaced log ∧
    Forall (λ h, genuine h ∧ ∃ dg, (h_at h, dg) ∈ evs ∧ dg_From dg = (h_key h).1) log.
Proof.
  intros Hs Hc. apply (deliver_all_log evs now i []); [done..| |].
  - intros a b x y _ Hx. done.
  - intros x Hx. by apply elem_of_nil in Hx.
Qed.

(** A block that decodes is remembered as finished whatever becomes of it: also
    when it does not unpack or the engine's store fails. From then on, for six
    hours, its symbols are only counted as duplicates, so a batch the store
    failed to take cannot be delivered again by the same sender. *)
Lemma finish_remembers now key dec packed (i : inbox) :
  Payload dec = Ok packed → bundleIDFor packed = key.2 →
  let i' := (finish dicts now key dec i).1 in
  done i' !! key = Some now ∧
  ∀ t s ol, (key.1, BundleID s) = key →
    add_symbol dicts t key.1 s ol i' = (bump Duplicates 1 i', None).
Proof.
  intros Hp Hid. unfold finish. rewrite Hp, Hid, Z.eqb_refl. cbn [negb]. cbv zeta.
  set (i1 := bump Decoded 1 _). destruct (apply_bundle dicts packed i1) as [i' err] eqn:Ea.
  destruct (apply_bundle_spec _ _ _ _ key now Ea Hid) as (_ & _ & _ & Hd & _). cbn [fst].
  assert (Hk : done i' !! key = Some now) by (rewrite Hd; cbn; by rewrite lookup_insert_eq).
  split; [done|]. intros t s ol Hs. unfold add_symbol. rewrite Hs. by rewrite decide_True by (by exists now).
Qed.
End receiving.

(** ** A batch that is sent arrives *)

Lemma read_symbol_append ol s :
  0 < ol ≤ maxOrigLen → wf_symbol s →
  read_symbol (FrameSymbol :: be_bytes 4 ol ++ Symbol_Encode s) = Some (ol, s).
Proof.
  intros Hol Hw. unfold maxOrigLen in Hol.
  pose proof (proj2 (DecodeSymbol_spec _ _) (conj Hw eq_refl)) as Hd.
  unfold read_symbol, frameOverhead, HeaderSize, strlen. change (Z.to_nat (1 + 4)) with 5%nat.
  cbn [drop length].
  rewrite !drop_0, length_app, length_be_bytes, take_app_length', drop_app_length' by by rewrite length_be_bytes.
  rewrite be_val_be_bytes_id by lia. rewrite Hd.
  assert (Hl : (8 ≤ length (Symbol_Encode s))%nat).
  { unfold Symbol_Encode. rewrite !length_app, length_be_bytes. cbn. lia. }
  rewrite (proj2 (Z.ltb_ge _ _)) by lia. unfold maxOrigLen.
  by rewrite (proj2 (Z.leb_gt _ _)), (proj2 (Z.ltb_ge _ _)) by lia.
Qed.

(** The block a datagram's symbol belongs to, if it is one. *)
Definition block_of (dg : Datagram) : option decKey :=
  match dg_Data dg with
  | t :: _ =>
      if decide (t = FrameSymbol)
      then match read_symbol (dg_Data dg) with Some (_, s) => Some (dg_From dg, BundleID s) | None => None end
      else None
  | [] => None
  end.

(** The channel: what claims to be of the block [k] is one of its symbols, and
    all arrive in one window. Other traffic is arbitrary, within a set [ks] of
    blocks that may be open at once. *)
Definition channel `{Blake3} (k : decKey) (e : Encoder) (t0 : Z) (ks : gset decKey)
    (evs : list (Z * Datagram)) : Prop :=
  Forall (λ ev, t0 ≤ ev.1 ≤ t0 + decoderTTL ∧
    (∀ k', block_of ev.2 = Some k' → k' ∈ ks) ∧
    (block_of ev.2 = Some k → ∃ j, is_u16 j ∧ ev.2 = mkDatagram k.1 (symbol_frame e j))) evs.

(** Nothing but this block agrees with the symbols at these indices. *)
Definition determined `{Blake3} (e : Encoder) (js : Z → Prop) : Prop :=
  ∀ ys, block (e_k e) (e_symSize e) ys →
    (∀ j, js j → Data (Symbol_ (with_source e ys) j) = Data (Symbol_ e j)) → ys = source e.

Section delivery.
Context {G GE : Type} `{HB : Blake3, HE : Records.Ed25519, HZ : Zstd, HA : Applier G GE, HL : !ApplierLog G GE}.
Context (dicts : gmap byte Dictionary).
#[local] Set Default Proof Using "All".

Abbreviation inbox := (Inbox G).

(** A block in flight: who sends it, its bytes, what a receiver finds in them. *)
Context (self : NodeID) (packed : bytes) (sz : Z) (e : Encoder) (b : Bundle).
Context (Henc : NewEncoder self (bundleIDFor packed) packed sz = Ok e).
Context (Hun : Unpack packed dicts = Ok b).

Definition key : decKey := (self, bundleIDFor packed).

Lemma packed_len : 0 < strlen packed ≤ 89600 ∧ e_origLen e = length packed.
Proof.
  apply NewEncoder_Ok in Henc as (_ & Hsz & Hk & HkM & HsM & _ & _ & _ & Hol & Hne & Hlen & _).
  change MaxK with 64 in HkM. change MaxSymbolSize with 1400 in HsM.
  unfold strlen. destruct packed; [done|]. cbn [length] in *. split; [nia|done].
Qed.

Lemma symbol_frame_eq j : is_u16 j →
  symbol_frame e j = FrameSymbol :: be_bytes 4 (strlen packed) ++ Symbol_Encode (Symbol_ e j).
Proof.
  intros Hj. destruct packed_len as [Hp Hol]. unfold symbol_frame. rewrite Hol, u16_id by done.
  fold (strlen packed). rewrite u32_id; [done|widths].
Qed.

Lemma read_symbol_frame j : is_u16 j → read_symbol (symbol_frame e j) = Some (strlen packed, Symbol_ e j).
Proof.
  intros Hj. rewrite symbol_frame_eq by done. destruct packed_len as [Hp _].
  apply read_symbol_append; [unfold maxOrigLen; lia|].
  eapply Symbol_wf; [exact Henc|apply bundleIDFor_u32|done].
Qed.

Lemma NewDecoder_frame j : is_u16 j →
  ∃ d, NewDecoder self (bundleIDFor packed) (K (Symbol_ e j)) (strlen (Data (Symbol_ e j))) (strlen packed) = Ok d ∧
    fed e d ∧ Done d = false.
Proof.
  intros Hj. destruct packed_len as [Hp _]. pose proof (NewEncoder_Ok _ _ _ _ _ Henc) as He.
  destruct He as (Hb & Hsz & Hk & HkM & HsM & _ & _ & Hszz & _ & _ & Hlen & _).
  assert (HD : strlen (Data (Symbol_ e j)) = sz).
  { unfold strlen. rewrite Symbol_data by (done || widths). rewrite length_combine by apply Hb. done. }
  assert (HK : K (Symbol_ e j) = Z.of_nat (e_k e)) by (unfold Symbol_; by destruct (_ <? _)).
  rewrite HD, HK.
  assert (∃ d, NewDecoder self (bundleIDFor packed) (Z.of_nat (e_k e)) sz (strlen packed) = Ok d ∧ Done d = false)
    as (d & Hd & Hn).
  { eexists. split; [|shelve]. unfold NewDecoder.
    run (apply require_Ok, negb_true_iff, orb_false_iff; split; [apply Z.leb_gt|apply Z.ltb_ge]; lia).
    run (apply require_Ok, negb_true_iff, orb_false_iff; split; [apply Z.leb_gt|apply Z.ltb_ge]; lia).
    run (apply require_Ok, negb_true_iff, orb_false_iff; split; [apply Z.leb_gt|apply Z.ltb_ge]; unfold strlen in *; nia).
    reflexivity. Unshelve. done. }
  exists d. split; [exact Hd|]. split; [|exact Hn]. by eapply fed_New.
Qed.

(** Below the cap nothing is evicted and the symbol goes to its block. *)
Lemma add_symbol_room now from sym ol (i : inbox) od :
  done i !! (from, BundleID sym) = None →
  open_for now (from, BundleID sym) sym ol (expire now i) = Some od →
  Z.of_nat (size (<[(from, BundleID sym) := od]> (decoders (expire now i)))) ≤ maxOpenDecoders →
  add_symbol dicts now from sym ol i =
    let '(dec, res) := Add (od_dec od) sym in
    let i := with_decoders (<[(from, BundleID sym) := mkOpen dec (started od) (touched od)]>
               (decoders (expire now i))) (expire now i) in
    match res with
    | Err _ => (bump Rejected 1 i, None)
    | Ok _ => if Done dec then finish dicts now (from, BundleID sym) dec (bump Symbols 1 i)
              else (bump Symbols 1 i, None)
    end.
Proof.
  intros Hn Ho Hs. unfold add_symbol. rewrite decide_False by (by apply eq_None_not_Some). rewrite Ho.
  unfold evictToCap. set (m := <[_ := od]> _) in *.
  assert (He : ∀ fuel j, decoders j = m → evict fuel j = (j : inbox)).
  { intros [|fuel] j Hj; [done|]. cbn [evict]. rewrite Hj. by rewrite (proj2 (Z.ltb_ge _ _) Hs). }
  rewrite He by done. destruct (Add (od_dec od) sym) as [dec [|]]; unfold m; cbn [with_decoders decoders];
    rewrite alter_insert_eq; [by destruct (Done dec)|done].
Qed.

(** The window the block has to arrive in, and the blocks that may be open in it. *)
Context (t0 : Z) (ks : gset decKey) (Hks : Z.of_nat (size ks) ≤ maxOpenDecoders) (Hkey : key ∈ ks).

(** The receiver is collecting the block and holds what was delivered of it. *)
Record waiting (ds : list Z) (i : inbox) : Prop := {
  wt_done : done i !! key = None;
  wt_room : dom (decoders i) ⊆ ks;
  wt_open : match decoders i !! key with
            | None => ds = []
            | Some od => fed e (od_dec od) ∧ Done (od_dec od) = false ∧ t0 ≤ touched od ∧
                         ∀ j, j ∈ ds → j ∈ seen (od_dec od)
            end
}.

Lemma waiting_expire t ds i : t0 ≤ t ≤ t0 + decoderTTL → waiting ds i → waiting ds (expire t i).
Proof.
  intros Ht [Hd Hr Ho]. destruct (expire_spec dicts t i) as (_ & Hdec & Hdn & Hsub). split.
  - by rewrite Hdn, Hd.
  - apply subseteq_dom in Hsub. set_solver.
  - rewrite Hdec. destruct (decoders i !! key) as [od|]; [|done]. cbn.
    rewrite decide_True; [done|]. destruct Ho as (_ & _ & Htt & _). unfold fresh_enough. lia.
Qed.

Lemma room_insert (k : decKey) (od : openDecoder) (m : gmap decKey openDecoder) :
  k ∈ ks → dom m ⊆ ks → Z.of_nat (size (<[k := od]> m)) ≤ maxOpenDecoders.
Proof.
  intros Hk Hm. rewrite <- size_dom, dom_insert_L.
  assert (size ({[k]} ∪ dom m) ≤ size ks)%nat by (apply subseteq_size; set_solver). lia.
Qed.

Lemma finish_other now k dec (i : inbox) :
  k ≠ key → let i' := (finish dicts now k dec i).1 in
  done i' !! key = done i !! key ∧ decoders i' = delete k (decoders i).
Proof.
  intros Hk. destruct (finish dicts now k dec i) as [i' err] eqn:Ef. cbn.
  destruct (finish_spec dicts _ _ _ _ _ _ Ef) as (h & _ & Hd & _ & Hh). split; [|done].
  destruct h as [x|]; [destruct Hh as (_ & _ & _ & ->)|destruct Hh as [-> | ->]];
    by rewrite ?lookup_insert_ne by done.
Qed.

Lemma waiting_other t from sym ol ds i :
  t0 ≤ t ≤ t0 + decoderTTL → waiting ds i → (from, BundleID sym) ≠ key → (from, BundleID sym) ∈ ks →
  waiting ds (add_symbol dicts t from sym ol i).1.
Proof.
  intros Ht Hw Hne Hin. set (k := (from, BundleID sym)) in *.
  destruct (done i !! k) eqn:Hdk.
  { unfold add_symbol. rewrite decide_True by (eexists; exact Hdk). cbn. by destruct Hw. }
  pose proof (waiting_expire t ds i Ht Hw) as Hw1.
  destruct (open_for t k sym ol (expire t i)) as [od|] eqn:Ho.
  2:{ unfold add_symbol. fold k. rewrite decide_False by (by apply eq_None_not_Some). rewrite Ho.
      cbn. by destruct Hw1. }
  set (i1 := expire t i) in *. destruct Hw1 as [Hd1 Hr1 Ho1].
  rewrite (add_symbol_room t from sym ol i od Hdk Ho) by (by apply room_insert). fold i1 k.
  destruct (Add (od_dec od) sym) as [dec res].
  set (od' := mkOpen dec _ _). set (i3 := with_decoders (<[k := od']> (decoders i1)) i1).
  assert (Hw3 : ∀ n, waiting ds (bump n 1 i3)).
  { intros n. split; cbn; [done| |by rewrite lookup_insert_ne].
    rewrite dom_insert_L. set_solver. }
  destruct res; [|apply Hw3]. destruct (Done dec); [|apply Hw3].
  destruct (finish_other t k dec (bump Symbols 1 i3) Hne) as [Hfd Hfm].
  specialize (Hw3 Symbols). destruct Hw3 as [Hd3 Hr3 Ho3]. split; cbn in *.
  - rewrite Hfd. exact Hd3.
  - rewrite Hfm. rewrite dom_delete_L. set_solver.
  - rewrite Hfm. by rewrite lookup_delete_ne.
Qed.

Definition arrived (i : inbox) : Prop := (B_Area b, B_Records b) ∈ applied_by i.

Lemma waiting_own t j ds i :
  t0 ≤ t ≤ t0 + decoderTTL → waiting ds i → is_u16 j →
  let i' := (add_symbol dicts t self (Symbol_ e j) (strlen packed) i).1 in
  waiting (j :: ds) i' ∨ arrived i'.
Proof.
  intros Ht Hw Hj. pose proof (NewEncoder_Ok _ _ _ _ _ Henc) as (Hblk & _ & _ & _ & _ & _ & Hbid & _).
  assert (Hk : (self, BundleID (Symbol_ e j)) = key).
  { unfold key, Symbol_. rewrite Hbid. by destruct (_ <? _). }
  destruct (waiting_expire t ds i Ht Hw) as [Hd1 Hr1 Ho1]. set (i1 := expire t i) in *.
  assert (∃ od, open_for t key (Symbol_ e j) (strlen packed) i1 = Some od ∧ fed e (od_dec od) ∧
    Done (od_dec od) = false ∧ touched od = t ∧ ∀ x, x ∈ ds → x ∈ seen (od_dec od))
    as (od & Ho & Hf & Hnd & Hto & Hseen).
  { unfold open_for. destruct (decoders i1 !! key) as [od|].
    - destruct Ho1 as (? & ? & _ & ?). eexists. by split_and!.
    - destruct (NewDecoder_frame j Hj) as (d & Hd & Hf & Hdd). cbn [key fst].
      replace (BundleID (Symbol_ e j)) with (bundleIDFor packed) by (by injection Hk).
      rewrite Hd. eexists. split_and!; [done..|]. subst ds. intros x Hx. by apply elem_of_nil in Hx. }
  cbv zeta. rewrite (add_symbol_room t self (Symbol_ e j) (strlen packed) i od);
    rewrite Hk; [|by destruct Hw|exact Ho|by apply room_insert].
  destruct (Add_fed e (od_dec od) j Hblk ltac:(widths) Hf) as (Hf' & Hres & Hsn).
  destruct (Add (od_dec od) (Symbol_ e j)) as [dec res]. cbn [fst snd] in *. rewrite Hres.
  set (i2 := bump Symbols 1 _). fold i1 in i2. cbv zeta. destruct (Done dec) eqn:Hdone.
  - right. destruct (finish dicts t key dec i2) as [i' err] eqn:Efin. cbn [fst].
    destruct (finish_spec dicts _ _ _ _ _ _ Efin) as (h & Ha & _ & Hu & _).
    rewrite (Hu packed b) in Ha by (done || by eapply fed_payload).
    unfold arrived. rewrite Ha. apply elem_of_app. right. by left.
  - left. split; cbn; [done| |].
    + rewrite dom_insert_L. set_solver.
    + rewrite lookup_insert_eq. cbn. split_and!; [done|done|lia|].
      intros x [->|Hx]%elem_of_cons; rewrite (Hsn Hdone); set_solver.
Qed.

Lemma deliver_waiting t dg ds (i : inbox) :
  t0 ≤ t ≤ t0 + decoderTTL → waiting ds i →
  (∀ k, block_of dg = Some k → k ∈ ks) → block_of dg ≠ Some key →
  waiting ds (Deliver dicts t dg i).1.
Proof.
  intros Ht Hw Hin Hne. unfold Deliver. unfold block_of in *.
  destruct (dg_Data dg) as [|ty rest] eqn:Hdata; [done|].
  destruct (decide (ty = FrameControl)). { destruct (ap_Receive _ _ _) as [g er]. destruct Hw; by split. }
  destruct (decide (ty = FrameSymbol)); [|cbn; destruct Hw; by split]. unfold symbol. rewrite Hdata.
  destruct (read_symbol (ty :: rest)) as [[ol s]|]; [|cbn; destruct Hw; by split].
  apply waiting_other; [done|done|congruence|by apply Hin].
Qed.

Lemma deliver_arrived t dg (i : inbox) : arrived i → arrived (Deliver dicts t dg i).1.
Proof.
  intros Ha. destruct (Deliver dicts t dg i) as [i' err] eqn:Ed.
  destruct (Deliver_ok dicts _ _ _ _ _ Ed) as (h & Hl & _). unfold arrived in *. cbn.
  rewrite Hl. apply elem_of_app. by left.
Qed.

Lemma block_of_frame j : is_u16 j → block_of (mkDatagram self (symbol_frame e j)) = Some key.
Proof.
  intros Hj. pose proof (read_symbol_frame j Hj) as Hr. unfold block_of. cbn [dg_Data dg_From].
  rewrite symbol_frame_eq in * by done. rewrite decide_True by done. rewrite Hr.
  pose proof (NewEncoder_Ok _ _ _ _ _ Henc) as (_ & _ & _ & _ & _ & _ & Hbid & _).
  unfold key, Symbol_. rewrite Hbid. by destruct (_ <? _).
Qed.

Lemma Deliver_frame t j (i : inbox) : is_u16 j →
  Deliver dicts t (mkDatagram self (symbol_frame e j)) i =
  add_symbol dicts t self (Symbol_ e j) (strlen packed) i.
Proof.
  intros Hj. pose proof (read_symbol_frame j Hj) as Hr. unfold Deliver. cbn [dg_Data dg_From].
  rewrite symbol_frame_eq in * by done. rewrite decide_False, decide_True by done.
  unfold symbol. cbn [dg_Data dg_From]. by rewrite Hr.
Qed.

Lemma deliver_all_arrived evs (i : inbox) : arrived i → arrived (deliver_all dicts evs i).
Proof.
  revert i. induction evs as [|[t dg] evs IH]; intros i Ha; [done|].
  apply IH. by apply deliver_arrived.
Qed.

Lemma channel_run evs ds (i : inbox) :
  channel key e t0 ks evs → waiting ds i →
  arrived (deliver_all dicts evs i) ∨
  ∃ ds', waiting ds' (deliver_all dicts evs i) ∧ (∀ j, j ∈ ds → j ∈ ds') ∧
    ∀ t j, is_u16 j → (t, mkDatagram self (symbol_frame e j)) ∈ evs → j ∈ ds'.
Proof.
  intros Hc. revert ds i. induction Hc as [|[t dg] evs (Ht & Hin & Hown) Hc IH]; intros ds i Hw.
  { right. exists ds. split_and!; [done..|]. intros t j _ Hx. by apply elem_of_nil in Hx. }
  unfold deliver_all in *. cbn [foldl fst snd] in *.
  destruct (decide (block_of dg = Some key)) as [Hb|Hb].
  - destruct (Hown Hb) as (j & Hj & ->). change key.1 with self in *. rewrite Deliver_frame by done.
    destruct (waiting_own t j ds i Ht Hw Hj) as [Hw1|Ha]; [|left; by apply deliver_all_arrived].
    destruct (IH _ _ Hw1) as [?|(ds' & Hw' & Hds & Hall)]; [by left|]. right. exists ds'.
    split_and!; [done| |]. { intros x Hx. apply Hds. by right. }
    intros t' j' Hj' [Hp|Hx]%elem_of_cons; [|by eapply Hall].
    assert (Heq : symbol_frame e j' = symbol_frame e j) by exact (f_equal (λ p, dg_Data p.2) Hp).
    apply Hds. assert (j' = j) as ->; [|by left].
    pose proof (read_symbol_frame j' Hj') as Hrs. rewrite Heq, read_symbol_frame in Hrs by done.
    injection Hrs as Hs.
    assert (Index (Symbol_ e j') = Index (Symbol_ e j)) as Hidx by (by rewrite Hs).
    unfold Symbol_ in Hidx. by destruct (_ <? _), (_ <? _).
  - pose proof (deliver_waiting t dg ds i Ht Hw Hin Hb) as Hw1.
    destruct (IH _ _ Hw1) as [?|(ds' & Hw' & Hds & Hall)]; [by left|]. right. exists ds'.
    split_and!; [done..|]. intros t' j' Hj' [Hp|Hx]%elem_of_cons; [|by eapply Hall].
    assert (Heq : mkDatagram self (symbol_frame e j') = dg) by exact (f_equal snd Hp).
    by rewrite <- Heq, block_of_frame in Hb.
Qed.

Lemma delivery_spec evs (i : inbox) :
  channel key e t0 ks evs → done i !! key = None → decoders i !! key = None → dom (decoders i) ⊆ ks →
  determined e (λ j, is_u16 j ∧ ∃ t, (t, mkDatagram self (symbol_frame e j)) ∈ evs) →
  arrived (deliver_all dicts evs i).
Proof.
  intros Hc Hd Hdec Hr Hdet. destruct (channel_run evs [] i Hc) as [|(ds & Hw & _ & Hall)]; [|done|].
  { split; [done|done|by rewrite Hdec]. }
  destruct Hw as [_ _ Ho]. destruct (decoders (deliver_all dicts evs i) !! key) as [od|].
  - destruct Ho as (Hf & Hnd & _ & Hseen). exfalso.
    destruct (fed_ambiguous _ _ _ _ _ _ Henc Hf Hnd) as (ys & Hb & Hne & Hsame).
    apply Hne, Hdet; [done|]. intros j [Hj [t Ht]]. apply Hsame, Hseen. by eapply Hall.
  - exfalso. subst ds. destruct (NewDecoder_frame 0 ltac:(widths)) as (d & Hnd & Hf & Hdn).
    assert (Hempty : ∀ j, j ∈ seen d → False).
    { revert Hnd. unfold NewDecoder. intros [_ Hn]%bind_unit_Ok.
      do 2 apply bind_unit_Ok in Hn as [_ Hn]. injection Hn as <-. cbn. set_solver. }
    destruct (fed_ambiguous _ _ _ _ _ _ Henc Hf Hdn) as (ys & Hb & Hne & _).
    apply Hne, Hdet; [done|]. intros j [Hj [t Ht]]. by apply Hall, elem_of_nil in Ht.
Qed.
End delivery.

(** ** From one node's outbox to another's engine *)

Section transport.
Context {L E G GE : Type} `{HB : Blake3, HE : Records.Ed25519, HZ : Zstd, HS : Sender L E}.
Context `{HA : Applier G GE, HL : !ApplierLog G GE}.
Context (dicts : gmap byte Dictionary).
#[local] Set Default Proof Using "All".

(** The symbols of a block that a run of deliveries holds. *)
Definition delivered (self : NodeID) (e : Encoder) (evs : list (Z * Datagram)) (j : Z) : Prop :=
  is_u16 j ∧ ∃ t, (t, mkDatagram self (symbol_frame e j)) ∈ evs.

Lemma systematic_determined (self : NodeID) packed sz e evs :
  NewEncoder self (bundleIDFor packed) packed sz = Ok e →
  (∀ j, 0 ≤ j < Z.of_nat (e_k e) → delivered self e evs j) → determined e (delivered self e evs).
Proof.
  intros (Hb & _)%NewEncoder_Ok Hall ys Hys Hsame. apply systematic_determine; auto.
Qed.

End transport.
