(* ===== verification/MeshFrame.v ===== *)
(** * Framing on the local wire (internal/meshtastic/frame.go)

    Frames interleaved with the radio's debug text, and the reader that finds
    them again. A stream is the bytes still to come and the error they end in,
    which then persists. [onText] is a flag: what it was given is kept as a
    list. The reader's buffer holds any header it peeks at, so peeking is
    looking at the next four bytes. *)

From S2P Require Import Prelude Binary.

Definition start1 : byte := Byte.x94.
Definition start2 : byte := Byte.xc3.
Definition headerLen : nat := 4.
Definition MaxFrame : Z := 512.
Definition MTU : Z := 233.
Definition maxLogLine : Z := 512.

Inductive frame_error := ErrFrameTooLarge (n : Z).

Definition frame_header (n : Z) : bytes := [start1; start2; z2b (Z.shiftr n 8); z2b n].

Definition AppendFrame (dst payload : bytes) : result frame_error bytes :=
  _ ← require (negb (MaxFrame <? strlen payload)) (ErrFrameTooLarge (strlen payload));
  Ok (dst ++ frame_header (strlen payload) ++ payload).

(** ** The reader *)

(** How a stream ends, and what [ReadFrame] reports of it. *)
Inductive stream_end := EndOfFile | Broken.
Inductive read_error := EOF | UnexpectedEOF | ReadFailed.
Definition stream_error (e : stream_end) : read_error :=
  match e with EndOfFile => EOF | Broken => ReadFailed end.

Record FrameReader := mkReader {
  unread : bytes;
  skipped : Z;
  frames : Z;
  line : bytes;
  texts : list bytes
}.

Definition NewFrameReader (stream : bytes) : FrameReader := mkReader stream 0 0 [] [].

Definition sanitise (b : byte) : byte :=
  if (b2z b <? 0x20) || (b2z b =? 0x7f) then Byte.x2e else b.
Definition sanitiseText (s : bytes) : bytes :=
  if existsb (λ b, (b2z b <? 0x20) || (b2z b =? 0x7f)) s then sanitise <$> s else s.

Section reader.
Context (onText : bool) (ending : stream_end).

Definition flushLine (fr : FrameReader) : FrameReader :=
  if negb onText || bool_decide (line fr = []) then fr
  else mkReader (unread fr) (skipped fr) (frames fr) [] (texts fr ++ [line fr]).

(** The byte is consumed, counted, and goes to the current line. *)
Definition skipByte (fr : FrameReader) : FrameReader :=
  match unread fr with
  | [] => fr
  | b :: rest =>
      let fr := mkReader rest (skipped fr + 1) (frames fr) (line fr) (texts fr) in
      if negb onText then fr
      else if decide (b = Byte.x0a) then flushLine fr
      else if decide (b = Byte.x0d) then fr
      else if strlen (line fr) <? maxLogLine
      then mkReader rest (skipped fr) (frames fr) (line fr ++ [sanitise b]) (texts fr)
      else fr
  end.

Definition header_length (hi lo : byte) : Z := Z.lor (Z.shiftl (b2z hi) 8) (b2z lo).

(** A complete header was read: discard it, then read the payload whole. *)
Definition read_payload (n : Z) (fr : FrameReader) : result read_error bytes * FrameReader :=
  let fr := mkReader (drop headerLen (unread fr)) (skipped fr) (frames fr) (line fr) (texts fr) in
  let fr := flushLine fr in
  if strlen (unread fr) <? n then
    (Err match ending with EndOfFile => UnexpectedEOF | Broken => ReadFailed end,
     mkReader [] (skipped fr) (frames fr) (line fr) (texts fr))
  else
    (Ok (take (Z.to_nat n) (unread fr)),
     mkReader (drop (Z.to_nat n) (unread fr)) (skipped fr) (frames fr + 1) (line fr) (texts fr)).

(** Fewer than four bytes are left. *)
Definition partial_header (fr : FrameReader) : option (read_error * FrameReader) :=
  match unread fr with
  | [] => Some (stream_error ending, flushLine fr)
  | b :: rest =>
      if negb (bool_decide (b = start1)) ||
         match rest with [] => false | b' :: _ => negb (bool_decide (b' = start2)) end
      then None
      else match ending with
           | EndOfFile => Some (UnexpectedEOF, flushLine (Nat.iter (length (unread fr)) skipByte fr))
           | Broken => Some (ReadFailed, flushLine fr)
           end
  end.

(** [fuel]: each round but the last consumes a byte. *)
Fixpoint read_loop (fuel : nat) (fr : FrameReader) : option (result read_error bytes * FrameReader) :=
  match fuel with
  | O => None
  | S fuel' =>
      match unread fr with
      | b1 :: b2 :: hi :: lo :: _ =>
          if negb (bool_decide (b1 = start1)) || negb (bool_decide (b2 = start2))
          then read_loop fuel' (skipByte fr)
          else
            let n := header_length hi lo in
            if MaxFrame <? n then read_loop fuel' (skipByte fr)
            else Some (read_payload n fr)
      | _ =>
          match partial_header fr with
          | None => read_loop fuel' (skipByte fr)
          | Some (e, fr) => Some (Err e, fr)
          end
      end
  end.

Definition ReadFrame (fr : FrameReader) : option (result read_error bytes * FrameReader) :=
  read_loop (S (length (unread fr))) fr.
End reader.

Definition Skipped (fr : FrameReader) : Z := skipped fr.
Definition Frames (fr : FrameReader) : Z := frames fr.

Example read_after_stray :
  ReadFrame true EndOfFile (NewFrameReader [Byte.x6f; Byte.x6b; Byte.x94; Byte.x94; Byte.xc3; Byte.x00; Byte.x01; Byte.x41])
  = Some (Ok [Byte.x41], mkReader [] 3 1 [] [[Byte.x6f; Byte.x6b; Byte.x94]]).
Proof. by vm_compute. Qed.

(** ** What the reader finds *)

(** A complete header whose length is acceptable starts here. *)
Definition frame_at (b : bytes) : option Z :=
  match b with
  | b1 :: b2 :: hi :: lo :: _ =>
      if bool_decide (b1 = start1) && bool_decide (b2 = start2) && (header_length hi lo <=? MaxFrame)
      then Some (header_length hi lo) else None
  | _ => None
  end.

Lemma header_length_range hi lo : 0 ≤ header_length hi lo < 2 ^ 16.
Proof.
  unfold header_length. pose proof (b2z_range hi). pose proof (b2z_range lo).
  rewrite lor_shiftl_add by lia. lia.
Qed.

Lemma header_length_encode n : is_u16 n → header_length (z2b (Z.shiftr n 8)) (z2b n) = n.
Proof.
  intros Hn. unfold header_length. rewrite Z.shiftr_div_pow2 by lia. change (2 ^ 8) with 256.
  rewrite (b2z_z2b_small (n / 256)) by (split; [apply Z.div_pos|apply Z.div_lt_upper_bound]; widths).
  rewrite b2z_z2b. rewrite lor_shiftl_add by (pose proof (Z.mod_pos_bound n 256); lia).
  change (2 ^ 8) with 256. pose proof (Z.div_mod n 256 ltac:(lia)). lia.
Qed.

Lemma frame_at_iff b n :
  frame_at b = Some n ↔ ∃ rest, b = frame_header n ++ rest ∧ 0 ≤ n ≤ MaxFrame.
Proof.
  split.
  - unfold frame_at. destruct b as [|b1 [|b2 [|hi [|lo rest]]]]; try done.
    destruct (bool_decide_reflect (b1 = start1)) as [->|]; [|done].
    destruct (bool_decide_reflect (b2 = start2)) as [->|]; [|done]. cbn [andb].
    destruct (Z.leb_spec (header_length hi lo) MaxFrame) as [Hle|]; [|done]. intros [= <-].
    pose proof (header_length_range hi lo) as Hr. exists rest. split; [|lia].
    unfold frame_header. cbn [app]. do 2 f_equal. unfold header_length in *.
    pose proof (b2z_range hi). pose proof (b2z_range lo).
    rewrite lor_shiftl_add in * by lia. rewrite Z.shiftr_div_pow2 by lia. change (2 ^ 8) with 256 in *.
    f_equal; [|f_equal]; apply b2z_inj; rewrite b2z_z2b.
    + rewrite Z.div_add_l, Z.div_small, Z.add_0_r, Z.mod_small by lia. done.
    + rewrite Z.add_comm, Z.mod_add, Z.mod_small by lia. done.
  - intros (rest & -> & Hn). unfold frame_at, frame_header. cbn [app].
    rewrite !bool_decide_eq_true_2 by done. unfold MaxFrame in *. rewrite header_length_encode by widths.
    by rewrite (proj2 (Z.leb_le _ _)) by lia.
Qed.

Section facts.
Context (onText : bool) (ending : stream_end).

Lemma flushLine_fields fr :
  let fr' := flushLine onText fr in unread fr' = unread fr ∧ skipped fr' = skipped fr ∧ frames fr' = frames fr.
Proof. cbv zeta. unfold flushLine. by destruct (_ || _). Qed.

Lemma skipByte_fields fr :
  let fr' := skipByte onText fr in
  unread fr' = tail (unread fr) ∧ frames fr' = frames fr ∧
  skipped fr' = skipped fr + Z.of_nat (Nat.min 1 (length (unread fr))).
Proof.
  cbv zeta. unfold skipByte. destruct (unread fr) as [|b rest] eqn:Hu; [split_and!; (done || cbn; lia)|].
  set (fr1 := mkReader rest _ _ _ _). pose proof (flushLine_fields fr1) as Hfl. cbv zeta in Hfl.
  assert (Hmin : Z.of_nat (Nat.min 1 (length (b :: rest))) = 1) by (cbn; lia). rewrite Hmin.
  destruct onText; cbn [negb]; [|done].
  destruct (decide (b = Byte.x0a)); [destruct Hfl as (-> & -> & ->); done|].
  destruct (decide (b = Byte.x0d)); [done|]. by destruct (_ <? _).
Qed.

Lemma skip_iter k fr :
  (k ≤ length (unread fr))%nat →
  let fr' := Nat.iter k (skipByte onText) fr in
  unread fr' = drop k (unread fr) ∧ frames fr' = frames fr ∧ skipped fr' = skipped fr + Z.of_nat k.
Proof.
  cbv zeta. induction k as [|k IH]; intros Hk; [cbn; split_and!; (done || lia)|].
  destruct (IH ltac:(lia)) as (Hu & Hf & Hs). rewrite Nat.iter_succ.
  edestruct skipByte_fields as (-> & -> & ->). rewrite Hu, Hf, Hs, length_drop.
  split_and!; [|done|lia].
  change (drop 1 (drop k (unread fr)) = drop (S k) (unread fr)). rewrite drop_drop. f_equal. lia.
Qed.

(** A position that is not a frame is skipped. *)
Lemma read_loop_skip fuel fr :
  frame_at (unread fr) = None → (4 ≤ length (unread fr))%nat →
  read_loop onText ending (S fuel) fr = read_loop onText ending fuel (skipByte onText fr).
Proof.
  intros Hn Hl. cbn [read_loop]. destruct (unread fr) as [|b1 [|b2 [|hi [|lo rest]]]]; cbn in Hl; try lia.
  unfold frame_at in Hn. destruct (bool_decide (b1 = start1)), (bool_decide (b2 = start2)); cbn in *; try done.
  destruct (Z.leb_spec (header_length hi lo) MaxFrame); [done|]. by rewrite (proj2 (Z.ltb_lt _ _)).
Qed.

Definition clear_until (k : nat) (b : bytes) : Prop := ∀ i, (i < k)%nat → frame_at (drop i b) = None.

Lemma read_loop_found k fuel fr n :
  frame_at (drop k (unread fr)) = Some n → clear_until k (unread fr) → (k < fuel)%nat →
  read_loop onText ending fuel fr = Some (read_payload onText ending n (Nat.iter k (skipByte onText) fr)).
Proof.
  revert k fr. induction fuel as [|fuel IH]; intros k fr Hf Hc Hk; [lia|].
  destruct k as [|k].
  - rewrite drop_0 in Hf. cbn [Nat.iter]. cbn [read_loop]. unfold frame_at in Hf.
    destruct (unread fr) as [|b1 [|b2 [|hi [|lo rest]]]]; try done.
    destruct (bool_decide (b1 = start1)), (bool_decide (b2 = start2)); cbn in *; try done.
    destruct (Z.leb_spec (header_length hi lo) MaxFrame); [|done]. injection Hf as <-.
    by rewrite (proj2 (Z.ltb_ge _ _)).
  - assert (Hl : (4 + S k ≤ length (unread fr))%nat).
    { apply frame_at_iff in Hf as (rest & Hr & _). apply (f_equal length) in Hr.
      rewrite length_drop, length_app in Hr. cbn in Hr. lia. }
    specialize (Hc 0%nat ltac:(lia)) as H0. rewrite drop_0 in H0.
    rewrite read_loop_skip by (done || lia).
    destruct (skipByte_fields fr) as (Hu & _ & _).
    rewrite (IH k); [| |intros i Hi|lia].
    + by rewrite Nat.iter_succ_r.
    + rewrite Hu. destruct (unread fr); [cbn in Hl; lia|]. exact Hf.
    + rewrite Hu. specialize (Hc (S i) ltac:(lia)). destruct (unread fr); [cbn in Hl; lia|]. exact Hc.
Qed.

Lemma first_frame b :
  (∀ i, frame_at (drop i b) = None) ∨ ∃ k n, frame_at (drop k b) = Some n ∧ clear_until k b.
Proof.
  induction b as [|x b IH]; [left; intros i; by rewrite drop_nil|].
  destruct (frame_at (x :: b)) as [n|] eqn:Hf.
  { right. exists 0%nat, n. split; [done|]. intros i Hi. lia. }
  destruct IH as [Hnone|(k & n & Hk & Hc)].
  - left. intros [|i]; [done|apply Hnone].
  - right. exists (S k), n. split; [done|]. intros [|i] Hi; [done|]. apply Hc. lia.
Qed.

Lemma partial_header_skip fr :
  partial_header onText ending fr = None → (length (unread (skipByte onText fr)) < length (unread fr))%nat.
Proof.
  unfold partial_header. destruct (skipByte_fields fr) as (-> & _). destruct (unread fr); [done|]. cbn. lia.
Qed.

Lemma read_loop_none fuel fr :
  (∀ i, frame_at (drop i (unread fr)) = None) → (length (unread fr) < fuel)%nat →
  ∃ e fr', read_loop onText ending fuel fr = Some (Err e, fr').
Proof.
  revert fr. induction fuel as [|fuel IH]; intros fr Hn Hl; [lia|].
  assert (Hnext : ∀ i, frame_at (drop i (unread (skipByte onText fr))) = None).
  { intros i. destruct (skipByte_fields fr) as (-> & _). destruct (unread fr) as [|x b] eqn:Hu.
    - cbn [tail]. by rewrite drop_nil. - exact (Hn (S i)). }
  destruct (decide (4 ≤ length (unread fr))%nat) as [H4|H4].
  - rewrite read_loop_skip by (done || exact (Hn 0%nat)). apply IH; [done|].
    destruct (skipByte_fields fr) as (-> & _). destruct (unread fr); cbn in *; lia.
  - cbn [read_loop]. pose proof (partial_header_skip fr) as Hp.
    assert (Hgo : ∃ e fr', match partial_header onText ending fr with
      | None => read_loop onText ending fuel (skipByte onText fr)
      | Some (e, fr) => Some (Err e, fr) end = Some (Err e, fr')).
    { destruct (partial_header onText ending fr) as [[e fr']|]; [by eauto|].
      apply IH; [done|]. specialize (Hp eq_refl). lia. }
    destruct (unread fr) as [|? [|? [|? [|]]]]; cbn in H4; (done || lia).
Qed.

(** The first frame is the only one that can be read. *)
Lemma frame_unique b k n rest0 p rest pre :
  frame_at (drop k b) = Some n → clear_until k b → drop k b = frame_header n ++ rest0 →
  b = pre ++ frame_header (strlen p) ++ p ++ rest → strlen p ≤ MaxFrame → clear_until (length pre) b →
  length pre = k ∧ strlen p = n ∧ rest0 = p ++ rest.
Proof.
  intros Hk Hc Hd Hup Hp Hcp.
  assert (Hfp : frame_at (drop (length pre) b) = Some (strlen p)).
  { rewrite Hup, drop_app_length. apply frame_at_iff. exists (p ++ rest). unfold strlen in *. split; [done|lia]. }
  assert (length pre = k) as Hpk.
  { destruct (lt_eq_lt_dec (length pre) k) as [[Hlt|]|Hlt]; [|done|].
    - specialize (Hc _ Hlt). congruence. - specialize (Hcp _ Hlt). congruence. }
  rewrite Hpk, Hk in Hfp. injection Hfp as ->. split_and!; [done..|].
  rewrite Hup, <- Hpk, drop_app_length in Hd. by apply app_inv_head in Hd.
Qed.

Lemma ReadFrame_spec fr :
  ∃ r fr', ReadFrame onText ending fr = Some (r, fr') ∧
    (∀ p rest, (r = Ok p ∧ unread fr' = rest) ↔
       ∃ pre, unread fr = pre ++ frame_header (strlen p) ++ p ++ rest ∧ strlen p ≤ MaxFrame ∧
              clear_until (length pre) (unread fr)) ∧
    (∀ p, r = Ok p → frames fr' = frames fr + 1 ∧
       strlen (unread fr) = (skipped fr' - skipped fr) + 4 + strlen p + strlen (unread fr')).
Proof.
  unfold ReadFrame. destruct (first_frame (unread fr)) as [Hn|(k & n & Hk & Hc)].
  - destruct (read_loop_none (S (length (unread fr))) fr Hn ltac:(lia)) as (e & fr' & ->).
    exists (Err e), fr'. split; [done|]. split; [|done]. intros p rest. split; [intros [? _]; done|].
    intros (pre & Hu & Hp & _). exfalso. specialize (Hn (length pre)).
    rewrite Hu, drop_app_length in Hn. assert (Hs : frame_at (frame_header (strlen p) ++ p ++ rest) = Some (strlen p)).
    { apply frame_at_iff. exists (p ++ rest). unfold strlen in *. split; [done|lia]. }
    congruence.
  - pose proof Hk as Hk'. apply frame_at_iff in Hk' as (rest0 & Hd & Hnr).
    assert (Hlen : (k + 4 + length rest0 = length (unread fr))%nat).
    { apply (f_equal length) in Hd. rewrite length_drop, length_app in Hd. cbn in Hd. lia. }
    rewrite (read_loop_found k _ fr n) by (done || lia).
    destruct (skip_iter k fr ltac:(lia)) as (Hu & Hf & Hs). set (fr1 := Nat.iter k _ fr) in *.
    unfold read_payload. rewrite Hu, Hd. change (drop headerLen (frame_header n ++ rest0)) with rest0.
    set (fr2 := mkReader rest0 _ _ _ _). destruct (flushLine_fields fr2) as (Hu2 & Hs2 & Hf2).
    rewrite Hu2. cbn [unread fr2]. 
    pose proof (λ p rest pre, frame_unique (unread fr) k n rest0 p rest pre Hk Hc Hd) as Huniq.
    destruct (Z.ltb_spec (strlen rest0) n) as [Hshort|Hok].
    + eexists _, _. split; [reflexivity|]. split; [|done]. intros p rest. split; [intros [? _]; done|].
      intros (pre & Hup & Hp & Hcp). destruct (Huniq p rest pre Hup Hp Hcp) as (_ & <- & ->).
      unfold strlen in Hshort. rewrite length_app in Hshort. lia.
    + eexists _, _. split; [reflexivity|]. cbn [unread skipped frames]. unfold strlen in *. split.
      * intros p rest. split.
        -- intros [[= <-] <-]. exists (take k (unread fr)).
           rewrite length_take, Nat.min_l, length_take, Nat.min_l, Z2Nat.id by lia.
           rewrite take_drop, <- Hd, take_drop. split_and!; [done|lia|done].
        -- intros (pre & Hup & Hp & Hcp). destruct (Huniq p rest pre Hup Hp Hcp) as (_ & <- & ->).
           rewrite Nat2Z.id, take_app_length, drop_app_length. done.
      * intros p [= <-]. rewrite Hs2, Hf2. cbn [skipped frames fr2]. rewrite Hs, Hf, length_take, length_drop. lia.
Qed.

(** The reader finds every frame and nothing else. On any stream it returns
    (it never spins), and it returns the payload [p], leaving [rest], exactly when
    the stream is a prefix without any acceptable header, then the frame of [p],
    then [rest]: a stray start byte, a log line or an impossible length only cost
    the bytes they are made of. What it skips and what it reads add up to what it
    consumed. *)
Theorem ReadFrame_iff fr :
  ∃ r fr', ReadFrame onText ending fr = Some (r, fr') ∧
    (∀ p rest, (r = Ok p ∧ unread fr' = rest) ↔
       ∃ pre, unread fr = pre ++ frame_header (strlen p) ++ p ++ rest ∧ strlen p ≤ MaxFrame ∧
              clear_until (length pre) (unread fr)) ∧
    (∀ p, r = Ok p → Frames fr' = Frames fr + 1 ∧
       strlen (unread fr) = (Skipped fr' - Skipped fr) + 4 + strlen p + strlen (unread fr')).
Proof. apply ReadFrame_spec. Qed.

(** Reading [n] frames in a row. *)
Fixpoint read_frames (n : nat) (fr : FrameReader) : option (list bytes * FrameReader) :=
  match n with
  | O => Some ([], fr)
  | S n' =>
      match ReadFrame onText ending fr with
      | Some (Ok p, fr') => '(ps, fr'') ← read_frames n' fr'; Some (p :: ps, fr'')
      | _ => None
      end
  end.

(** Noise in which, whatever frame follows, no header appears. *)
Definition harmless (noise : bytes) : Prop :=
  ∀ i x, (i < length noise)%nat → frame_at (drop i (noise ++ start1 :: start2 :: x)) = None.

Lemma harmless_text noise : Forall (λ b, b ≠ start1) noise → harmless noise ∧ harmless (noise ++ [start1]).
Proof.
  intros Hn. assert (Hhead : ∀ i y, (i < length noise)%nat → frame_at (drop i (noise ++ y)) = None).
  { intros i y Hi. rewrite drop_app_le by lia. destruct (drop i noise) as [|b l] eqn:Hd.
    - apply (f_equal length) in Hd. rewrite length_drop in Hd. cbn in Hd. lia.
    - assert (b ≠ start1) as Hb.
      { rewrite Forall_forall in Hn. apply Hn. apply list_elem_of_lookup. exists i.
        rewrite <- (Nat.add_0_r i), <- lookup_drop, Hd. done. }
      cbn [app]. unfold frame_at. destruct (l ++ y) as [|? [|? [|]]]; try done.
      by rewrite bool_decide_eq_false_2. }
  split; intros i x Hi; [by apply Hhead|]. rewrite length_app in Hi. cbn in Hi.
  destruct (decide (i < length noise)%nat) as [Hlt|]; [rewrite <- app_assoc; by apply Hhead|].
  assert (i = length noise) as -> by lia. rewrite <- app_assoc, drop_app_length. cbn [app].
  by destruct x.
Qed.

Definition wire (segs : list (bytes * bytes)) : bytes :=
  segs ≫= λ s, s.1 ++ frame_header (strlen s.2) ++ s.2.

(** Framing round trip: payloads of at most [MaxFrame] bytes, each written by
    [AppendFrame], come back in order and unchanged from a stream that carries
    any harmless noise between them (such as text, or text cut off after a start
    byte), and the noise is exactly what is counted as skipped. *)
Theorem frames_roundtrip segs tail fr :
  Forall (λ s, harmless s.1 ∧ strlen s.2 ≤ MaxFrame) segs → unread fr = wire segs ++ tail →
  (∀ s, s ∈ segs → AppendFrame s.1 s.2 = Ok (s.1 ++ frame_header (strlen s.2) ++ s.2)) ∧
  (∀ noise, Forall (λ b, b ≠ start1) noise → harmless noise ∧ harmless (noise ++ [start1])) ∧
  ∃ fr', read_frames (length segs) fr = Some (segs.*2, fr') ∧ unread fr' = tail ∧
    Frames fr' = Frames fr + Z.of_nat (length segs) ∧
    Skipped fr' = Skipped fr + strlen (concat segs.*1).
Proof.
  intros Hs Hu. split_and!; [|apply harmless_text|].
  { intros s Hin. rewrite Forall_forall in Hs. destruct (Hs s Hin) as [_ Hl]. unfold AppendFrame.
    run (by apply require_Ok, negb_true_iff, Z.ltb_ge). done. }
  revert fr Hu. induction Hs as [|[noise p] segs [Hn Hp] Hs IH]; intros fr Hu.
  { exists fr. cbn. rewrite Hu. unfold Frames, Skipped, strlen. cbn. split_and!; (done || lia). }
  cbn [wire mbind list_bind fst snd] in *. cbn [length read_frames].
  destruct (ReadFrame_spec fr) as (r & fr' & -> & Hiff & Hcount).
  fold (wire segs) in Hu. rewrite <- !app_assoc in Hu.
  destruct (proj2 (Hiff p (wire segs ++ tail))) as [-> Hu'].
  { exists noise. split_and!; [done|done|]. intros i Hi. rewrite Hu. by apply Hn. }
  destruct (IH fr' Hu') as (fr'' & -> & Ht & Hf & Hsk). cbn [mbind option_bind].
  destruct (Hcount p eq_refl) as [Hf' Hc]. exists fr''. unfold Frames, Skipped, strlen in *.
  cbn [fmap list_fmap fst snd concat] in *. rewrite Hu, Hu', !length_app in *.
  change (length (frame_header (Z.of_nat (length p)))) with 4%nat in *.
  split_and!; [done|done|lia|lia].
Qed.

(** ** The device log *)

Definition printable (b : byte) : Prop := 0x20 ≤ b2z b ∧ b2z b ≠ 0x7f.
Definition log_ok (fr : FrameReader) : Prop :=
  strlen (line fr) ≤ maxLogLine ∧ Forall printable (line fr) ∧
  Forall (λ t, t ≠ [] ∧ strlen t ≤ maxLogLine ∧ Forall printable t) (texts fr).

Lemma sanitise_printable b : printable (sanitise b).
Proof.
  unfold printable, sanitise. destruct (Z.ltb_spec (b2z b) 0x20); [done|].
  destruct (Z.eqb_spec (b2z b) 0x7f); [done|]. cbn. lia.
Qed.

Lemma flushLine_log fr : log_ok fr → log_ok (flushLine onText fr).
Proof.
  intros (Hl & Hp & Ht). unfold flushLine. destruct onText; cbn [negb orb]; [|done].
  case_bool_decide; [done|]. split_and!; [done|constructor|]. cbn [texts].
  apply Forall_app. split; [done|]. by apply Forall_singleton.
Qed.

Lemma skipByte_log fr : log_ok fr → log_ok (skipByte onText fr).
Proof.
  intros Hl. unfold skipByte. destruct (unread fr) as [|b rest]; [done|].
  set (fr1 := mkReader rest _ _ _ _). assert (H1 : log_ok fr1) by done.
  destruct (negb onText); [done|].
  destruct (decide (b = Byte.x0a)); [by apply flushLine_log|]. destruct (decide (b = Byte.x0d)); [done|].
  destruct (Z.ltb_spec (strlen (line fr1)) maxLogLine); [|done]. destruct H1 as (H1 & H2 & H3).
  split_and!; cbn; [|apply Forall_app; split; [done|]; repeat constructor; apply sanitise_printable|done].
  unfold strlen in *. rewrite length_app. cbn in *. lia.
Qed.

Lemma skip_iter_log k fr : log_ok fr → log_ok (Nat.iter k (skipByte onText) fr).
Proof. intros Hl. induction k; [done|]. rewrite Nat.iter_succ. by apply skipByte_log. Qed.

Lemma partial_header_log fr e fr' :
  log_ok fr → partial_header onText ending fr = Some (e, fr') → log_ok fr'.
Proof.
  intros Hl. unfold partial_header. destruct (unread fr) as [|b rest].
  { intros [= _ <-]. by apply flushLine_log. }
  destruct (_ || _); [done|]. destruct ending; intros [= _ <-]; apply flushLine_log; [|done].
  exact (skip_iter_log (S (length rest)) fr Hl).
Qed.

Lemma read_loop_log fuel fr r fr' :
  log_ok fr → read_loop onText ending fuel fr = Some (r, fr') → log_ok fr'.
Proof.
  revert fr. induction fuel as [|fuel IH]; intros fr Hl; [done|]. cbn [read_loop].
  assert (Hskip : read_loop onText ending fuel (skipByte onText fr) = Some (r, fr') → log_ok fr')
    by (apply IH; by apply skipByte_log).
  assert (Hpart : match partial_header onText ending fr with
      | None => read_loop onText ending fuel (skipByte onText fr)
      | Some (e, fr) => Some (Err e, fr) end = Some (r, fr') → log_ok fr').
  { destruct (partial_header onText ending fr) as [[e f]|] eqn:Hp; [|done].
    intros [= _ <-]. by eapply partial_header_log. }
  destruct (unread fr) as [|b1 [|b2 [|hi [|lo rest]]]] eqn:Hu; try exact Hpart.
  destruct (_ || _); [done|]. destruct (_ <? _); [done|]. intros [= Hr]. revert Hr. unfold read_payload.
  set (fr1 := mkReader _ _ _ _ _). pose proof (flushLine_log fr1 Hl) as H1.
  destruct (_ <? _); intros [= _ <-]; exact H1.
Qed.

(** Whatever a radio writes between frames, every line handed to the sysop's
    terminal is free of ASCII control bytes, so no escape character reaches it, is
    not empty and is at most [maxLogLine] bytes, over any number of reads. *)
Theorem device_log_is_safe stream fr :
  rtc (λ a b, ∃ r, ReadFrame onText ending a = Some (r, b)) (NewFrameReader stream) fr →
  Forall (λ t, t ≠ [] ∧ strlen t ≤ maxLogLine ∧ Forall printable t) (texts fr).
Proof.
  intros H. cut (log_ok fr); [by intros (_ & _ & ?)|]. revert H.
  assert (Hnew : log_ok (NewFrameReader stream)) by (split_and!; [done|constructor|constructor]).
  revert Hnew. generalize (NewFrameReader stream). intros fr0 H0 Hr.
  induction Hr as [fr0|a b c (r & Hr) _ IH]; [done|]. apply IH. by eapply read_loop_log.
Qed.
End facts.

(** C1 controls are not among the bytes replaced: U+009B, which a terminal may take
    for an escape introducer, passes. *)
Lemma sanitise_admits_C1 : sanitiseText [Byte.xc2; Byte.x9b] = [Byte.xc2; Byte.x9b].
Proof. done. Qed.
