(* ===== verification/MeshPeers.v ===== *)
(** * Who is behind which radio (internal/meshlink/wire.go, peers.go)

    Signed announcements that bind a node ID to a radio number, the table of
    learned bindings, and the limiter on asking. Times are nanoseconds since the
    Unix epoch. *)

From S2P Require Import Prelude Binary Order Identity Schedule.
From S2P Require Import Records BsmpOutbox.

(** ** Frames *)

Definition PublicKeySize : nat := 32.
Definition SignatureSize : nat := 64.
Definition announceBodyLen : nat := 1 + PublicKeySize + 4 + 4.
Definition announceLen : nat := announceBodyLen + SignatureSize.
Definition whoIsLen : nat := 1 + 4.

Inductive announce_error :=
| ErrMalformedAnnounce (n : Z)
| ErrBadSignature
| ErrRadioMismatch (claimed from : Z)
| ErrStaleAnnounce
| ErrMalformedWhoIs (n : Z).

Record Announcement := mkAnnouncement { an_ID : NodeID; an_PublicKey : bytes; an_Radio : Z; an_At : Z }.

Section wire.
Context `{HB : Blake3, HE : Ed25519}.

(** The signed part; [secs] is [uint32(at.Unix())]. *)
Definition announceBody (pub : bytes) (radio secs : Z) : bytes :=
  [FrameAnnounce] ++ pub ++ be_bytes 4 radio ++ be_bytes 4 secs.

Definition EncodeAnnounce (key : NodeKey) (radio at_ : Z) : bytes :=
  let buf := announceBody (Public key) (u32 radio) (u32 (at_ / Second)) in
  buf ++ vec_to_list (Sign key buf).

Definition DecodeAnnounce (payload : bytes) (from : Z) : result announce_error Announcement :=
  _ ← require (bool_decide (length payload = announceLen) && bool_decide (head payload = Some FrameAnnounce))
        (ErrMalformedAnnounce (strlen payload));
  let body := take announceBodyLen payload in
  let sig := drop announceBodyLen payload in
  let pub := take PublicKeySize (drop 1 body) in
  _ ← require (ed25519_verify pub body (arr_of 64 sig)) ErrBadSignature;
  let claimed := be_val (take 4 (drop (1 + PublicKeySize) body)) in
  _ ← require (claimed =? from) (ErrRadioMismatch claimed from);
  let secs := be_val (take 4 (drop (1 + PublicKeySize + 4) body)) in
  Ok (mkAnnouncement (NodeIDFromPublicKey pub) pub claimed (secs * Second)).

Definition EncodeWhoIs (target : Z) : bytes := FrameWhoIs :: be_bytes 4 target.

Definition DecodeWhoIs (payload : bytes) : result announce_error Z :=
  _ ← require (bool_decide (length payload = whoIsLen) && bool_decide (head payload = Some FrameWhoIs))
        (ErrMalformedWhoIs (strlen payload));
  Ok (be_val (drop 1 payload)).

(** The holder of [id]'s key signed that it is at [radio] at [at_]. *)
Definition announced (id : NodeID) (radio at_ : Z) : Prop :=
  ∃ pub secs sig, id = NodeIDFromPublicKey pub ∧ length pub = PublicKeySize ∧ is_u32 radio ∧ is_u32 secs ∧
    at_ = secs * Second ∧ ed25519_verify pub (announceBody pub radio secs) sig = true.
End wire.

(** ** The table *)

Definition maxClockSkew : Z := 24 * Hour.

Record binding := mkBinding { b_radio : Z; b_at : Z }.
Record peerTable := mkPeers { byID : gmap NodeID binding; byRadio : gmap Z NodeID }.

Definition newPeerTable : peerTable := mkPeers ∅ ∅.

(** The error, if any, and the table left. *)
Definition learn (a : Announcement) (now : Z) (t : peerTable) : option announce_error * peerTable :=
  if now + maxClockSkew <? an_At a then (Some ErrStaleAnnounce, t)
  else
    let known := byID t !! an_ID a in
    if match known with Some old => negb (b_at old <? an_At a) | None => false end
    then (Some ErrStaleAnnounce, t)
    else
      let radios := match known with Some old => delete (b_radio old) (byRadio t) | None => byRadio t end in
      let ids := match radios !! an_Radio a with
                 | Some prev => if decide (prev ≠ an_ID a) then delete prev (byID t) else byID t
                 | None => byID t
                 end in
      (None, mkPeers (<[an_ID a := mkBinding (an_Radio a) (an_At a)]> ids) (<[an_Radio a := an_ID a]> radios)).

Definition radioFor (t : peerTable) (id : NodeID) : option Z := b_radio <$> byID t !! id.
Definition idFor (t : peerTable) (radio : Z) : option NodeID := byRadio t !! radio.

Record Binding := mkBindingRow { bd_ID : NodeID; bd_Radio : Z; bd_Announced : Z }.

(** [sortBindings] is an insertion sort by ID; the sorted form is unique. *)
Definition sortBindings (l : list Binding) : list Binding := sort_by bd_ID less_arr l.
Definition bindings (t : peerTable) : list Binding :=
  sortBindings ((λ e : NodeID * binding, mkBindingRow e.1 (b_radio e.2) (b_at e.2)) <$> map_to_list (byID t)).

(** ** The limiter *)

Record askRate := mkAskRate { ask_last : gmap Z Z; every : Z }.
Definition newAskRate (every : Z) : askRate := mkAskRate ∅ every.

Definition allow (radio now : Z) (a : askRate) : bool * askRate :=
  match ask_last a !! radio with
  | Some prev =>
      if now - prev <? every a then (false, a)
      else (true, mkAskRate (<[radio := now]> (ask_last a)) (every a))
  | None => (true, mkAskRate (<[radio := now]> (ask_last a)) (every a))
  end.

(** ** The frames, both ways *)

Section wire_facts.
Context `{HB : Blake3, HE : Ed25519}.

Lemma length_announceBody pub radio secs : length pub = PublicKeySize → length (announceBody pub radio secs) = announceBodyLen.
Proof. intros Hp. unfold announceBody. rewrite !length_app, Hp, !length_be_bytes. done. Qed.

Lemma announceBody_fields pub radio secs :
  length pub = PublicKeySize → is_u32 radio → is_u32 secs →
  let body := announceBody pub radio secs in
  take PublicKeySize (drop 1 body) = pub ∧
  be_val (take 4 (drop (1 + PublicKeySize) body)) = radio ∧
  be_val (take 4 (drop (1 + PublicKeySize + 4) body)) = secs.
Proof.
  intros Hp Hr Hs. cbv zeta. unfold announceBody. cbn [app drop Nat.add].
  rewrite drop_0, <- Hp, take_app_length, drop_app_length.
  rewrite <- (drop_drop _ 4 (length pub)) || rewrite <- drop_drop.
  rewrite drop_app_length. rewrite take_app_length', drop_app_length' by (by rewrite length_be_bytes).
  rewrite take_ge by (by rewrite length_be_bytes). rewrite !be_val_be_bytes_id by widths. done.
Qed.

(** Taking a body of the right length apart. *)
Lemma announceBody_split body :
  length body = announceBodyLen → head body = Some FrameAnnounce →
  body = announceBody (take PublicKeySize (drop 1 body)) (be_val (take 4 (drop (1 + PublicKeySize) body)))
           (be_val (take 4 (drop (1 + PublicKeySize + 4) body))).
Proof.
  intros Hl Hh. destruct body as [|t b]; [done|]. injection Hh as ->.
  unfold announceBodyLen, PublicKeySize in *. cbn [length Nat.add] in Hl. assert (Hb : length b = 40%nat) by lia. clear Hl.
  unfold announceBody. cbn [app drop Nat.add]. f_equal. rewrite drop_0.
  rewrite !be_bytes_be_val_len by (rewrite length_take, length_drop; lia).
  rewrite (take_ge (drop 36 b)) by (rewrite length_drop; lia).
  rewrite <- (take_drop 32 b) at 1. f_equal.
  rewrite <- (take_drop 4 (drop 32 b)) at 1. f_equal. by rewrite drop_drop.
Qed.

Lemma DecodeAnnounce_spec payload from a :
  DecodeAnnounce payload from = Ok a ↔
  ∃ pub secs sig, length pub = PublicKeySize ∧ is_u32 from ∧ is_u32 secs ∧
    payload = announceBody pub from secs ++ vec_to_list (sig : arr 64) ∧
    ed25519_verify pub (announceBody pub from secs) sig = true ∧
    a = mkAnnouncement (NodeIDFromPublicKey pub) pub from (secs * Second).
Proof.
  unfold DecodeAnnounce. split.
  - intros [Hc%require_Ok%andb_true_iff H]%bind_unit_Ok. destruct Hc as [Hl%bool_decide_eq_true Hh%bool_decide_eq_true].
    apply bind_unit_Ok in H as [Hv%require_Ok H]. apply bind_unit_Ok in H as [Hf%require_Ok%Z.eqb_eq [= <-]].
    set (body := take announceBodyLen payload) in *.
    assert (Hbl : length body = announceBodyLen) by (unfold body; rewrite length_take, Hl; done).
    assert (Hbh : head body = Some FrameAnnounce) by (unfold body; destruct payload; done).
    pose proof (announceBody_split body Hbl Hbh) as Hb.
    set (pub := take PublicKeySize (drop 1 body)) in *. set (secs := be_val (take 4 (drop (1 + PublicKeySize + 4) body))) in *.
    rewrite Hf in Hb. exists pub, secs, (arr_of 64 (drop announceBodyLen payload)).
    assert (Hu : ∀ l : bytes, length l = 4%nat → is_u32 (be_val l)).
    { intros l Hl4. pose proof (be_val_range_len l 4 Hl4). widths. }
    split_and!.
    + unfold pub. rewrite length_take, length_drop, Hbl. done.
    + rewrite <- Hf. apply Hu. rewrite length_take, length_drop, Hbl. done.
    + apply Hu. rewrite length_take, length_drop, Hbl. done.
    + rewrite <- Hb, vec_to_list_arr_of by (rewrite length_drop, Hl; done). unfold body. by rewrite take_drop.
    + by rewrite <- Hb.
    + change (drop (S PublicKeySize) body) with (drop (1 + PublicKeySize) body). by rewrite Hf.
  - intros (pub & secs & sig & Hp & Hr & Hs & -> & Hv & ->).
    pose proof (length_announceBody pub from secs Hp) as Hbl.
    destruct (announceBody_fields pub from secs Hp Hr Hs) as (H1 & H2 & H3). cbv zeta in H1, H2, H3.
    run (apply require_Ok, andb_true_iff; split; apply bool_decide_eq_true;
         [by rewrite length_app, Hbl, length_vec_to_list|done]).
    rewrite take_app_length', drop_app_length', arr_of_vec, H1, H2, H3 by done.
    run (by apply require_Ok). by run (apply require_Ok, Z.eqb_refl).
Qed.

(** An announcement is believed exactly when it is the frame a key holder
    signed for the very radio it arrived from: nothing else is accepted, the ID
    is the hash of the key that signed, and what [EncodeAnnounce] writes for a
    genuine key is accepted from its own radio and from no other. *)
Theorem DecodeAnnounce_iff payload from a :
  (DecodeAnnounce payload from = Ok a ↔
   ∃ pub secs sig, length pub = PublicKeySize ∧ is_u32 from ∧ is_u32 secs ∧
     payload = announceBody pub from secs ++ vec_to_list (sig : arr 64) ∧
     ed25519_verify pub (announceBody pub from secs) sig = true ∧
     a = mkAnnouncement (NodeIDFromPublicKey pub) pub from (secs * Second)) ∧
  (∀ key radio at_, valid_key key → is_u32 radio → is_u32 (at_ / Second) →
   DecodeAnnounce (EncodeAnnounce key radio at_) radio =
     Ok (mkAnnouncement (NodeKey_ID key) (Public key) radio (at_ / Second * Second)) ∧
   ∀ other, other ≠ radio → is_ok (DecodeAnnounce (EncodeAnnounce key radio at_) other) = false).
Proof.
  split; [apply DecodeAnnounce_spec|]. intros key radio at_ [Hl Hk] Hr Ht.
  assert (Hd : DecodeAnnounce (EncodeAnnounce key radio at_) radio =
     Ok (mkAnnouncement (NodeKey_ID key) (Public key) radio (at_ / Second * Second))).
  { apply DecodeAnnounce_spec. exists (Public key), (at_ / Second), (Sign key (announceBody (Public key) radio (at_ / Second))).
    unfold EncodeAnnounce. rewrite !u32_id by done. split_and!; done. }
  split; [done|]. intros other Ho. destruct (DecodeAnnounce _ other) as [a'|] eqn:Ha; [|done]. exfalso.
  apply DecodeAnnounce_spec in Ha as (p1 & s1 & g1 & Hp1 & Hr1 & Hs1 & He & _).
  apply DecodeAnnounce_spec in Hd as (p2 & s2 & g2 & Hp2 & _ & Hs2 & He' & _).
  rewrite He' in He. apply app_inj_1 in He as [He _]; [|by rewrite !length_announceBody].
  destruct (announceBody_fields p1 other s1 Hp1 Hr1 Hs1) as (_ & H1 & _).
  destruct (announceBody_fields p2 radio s2 Hp2 Hr Hs2) as (_ & H2 & _). congruence.
Qed.

Lemma DecodeWhoIs_spec payload target :
  DecodeWhoIs payload = Ok target ↔ is_u32 target ∧ payload = EncodeWhoIs target.
Proof.
  unfold DecodeWhoIs, EncodeWhoIs. rewrite bind_unit_Ok, require_Ok, andb_true_iff, !bool_decide_eq_true, Ok_inj.
  split.
  - intros [[Hl Hh] <-]. destruct payload as [|t b]; [done|]. injection Hh as ->. injection Hl as Hl.
    cbn [drop]. rewrite drop_0. split; [|by rewrite be_bytes_be_val_len].
    pose proof (be_val_range_len b 4 Hl). widths.
  - intros [Ht ->]. cbn [drop length head]. rewrite drop_0, length_be_bytes, be_val_be_bytes_id by widths. done.
Qed.

Lemma DecodeAnnounce_announced payload from a :
  DecodeAnnounce payload from = Ok a → an_Radio a = from ∧ announced (an_ID a) (an_Radio a) (an_At a).
Proof.
  intros (pub & secs & sig & Hp & Hr & Hs & _ & Hv & ->)%DecodeAnnounce_spec. split; [done|].
  exists pub, secs, sig. split_and!; done.
Qed.
End wire_facts.

(** ** The table *)

(** The two maps are views of one binding. *)
Definition consistent (t : peerTable) : Prop :=
  ∀ id radio, radioFor t id = Some radio ↔ idFor t radio = Some id.

Lemma learn_ok a now t t' :
  learn a now t = (None, t') → consistent t →
  (∀ id, byID t' !! id =
     if decide (id = an_ID a) then Some (mkBinding (an_Radio a) (an_At a))
     else if decide (radioFor t id = Some (an_Radio a)) then None else byID t !! id) ∧
  (∀ radio, byRadio t' !! radio =
     if decide (radio = an_Radio a) then Some (an_ID a)
     else if decide (radioFor t (an_ID a) = Some radio) then None else byRadio t !! radio) ∧
  an_At a ≤ now + maxClockSkew ∧ ∀ old, byID t !! an_ID a = Some old → b_at old < an_At a.
Proof.
  unfold learn, consistent, radioFor, idFor. destruct (Z.ltb_spec (now + maxClockSkew) (an_At a)) as [|Hskew]; [done|].
  destruct (byID t !! an_ID a) as [old|] eqn:Hold.
  - destruct (Z.ltb_spec (b_at old) (an_At a)) as [Hlt|]; [|done]. cbn [negb]. intros [= <-] Hc.
    split_and!; [| |done|by intros ? [= <-]].
    + intros id. cbn [byID]. case_decide as Hid; [subst; by rewrite lookup_insert_eq|].
      rewrite lookup_insert_ne by done.
      case_decide as Hr.
      * apply Hc in Hr as Hr'. destruct (decide (b_radio old = an_Radio a)) as [He|He].
        { exfalso. apply Hid. assert (byRadio t !! an_Radio a = Some (an_ID a)) by (apply Hc; rewrite Hold; cbn; congruence). congruence. }
        rewrite lookup_delete_ne by done. rewrite Hr'. rewrite decide_True by done. by rewrite lookup_delete_eq.
      * destruct (delete (b_radio old) (byRadio t) !! an_Radio a) as [prev|] eqn:Hp; [|done].
        apply lookup_delete_Some in Hp as [_ Hp]. case_decide; [|done].
        destruct (decide (prev = id)) as [->|]; [|by rewrite lookup_delete_ne]. by apply Hc in Hp.
    + intros radio. cbn [byRadio]. case_decide as Hr; [subst; by rewrite lookup_insert_eq|].
      rewrite lookup_insert_ne by done. cbn. case_decide as He.
      * injection He as <-. apply lookup_delete_eq.
      * rewrite lookup_delete_ne; [done|]. congruence.
  - intros [= <-] Hc. split_and!; [| |done|done].
    + intros id. cbn [byID]. case_decide as Hid; [subst; by rewrite lookup_insert_eq|].
      rewrite lookup_insert_ne by done. case_decide as Hr.
      * apply Hc in Hr as Hr'. rewrite Hr'. rewrite decide_True by done. by rewrite lookup_delete_eq.
      * destruct (byRadio t !! an_Radio a) as [prev|] eqn:Hp; [|done]. case_decide; [|done].
        destruct (decide (prev = id)) as [->|]; [|by rewrite lookup_delete_ne]. by apply Hc in Hp.
    + intros radio. cbn [byRadio]. case_decide as Hr; [subst; by rewrite lookup_insert_eq|].
      rewrite lookup_insert_ne by done. cbn. by rewrite decide_False.
Qed.

Lemma learn_error a now t e t' : learn a now t = (Some e, t') → t' = t.
Proof. unfold learn. destruct (_ <? _); [by intros [= _ <-]|]. destruct (match _ with Some _ => _ | _ => _ end); [by intros [= _ <-]|done]. Qed.

Lemma learn_consistent a now t e t' : learn a now t = (e, t') → consistent t → consistent t'.
Proof.
  destruct e as [e|]; [by intros ->%learn_error|]. intros Hl Hc.
  destruct (learn_ok _ _ _ _ Hl Hc) as (Hid & Hrad & _). intros id radio. unfold radioFor, idFor in *.
  rewrite Hid, Hrad. destruct (decide (id = an_ID a)) as [->|Hne]; cbn.
  - destruct (decide (radio = an_Radio a)) as [->|Hr]; [done|].
    split; [intros [= He]; congruence|]. case_decide as Ho; [done|]. intros Hx. by apply Hc in Hx.
  - case_decide as Ho.
    + destruct (decide (radio = an_Radio a)) as [->|Hr]; [split; [done|congruence]|].
      split; [done|]. case_decide; [done|]. intros Hx. apply Hc in Hx. unfold radioFor in *. congruence.
    + destruct (decide (radio = an_Radio a)) as [->|Hr]; [split; [done|congruence]|].
      case_decide as Hold; [|apply Hc]. split; [|done]. intros Hx. exfalso. apply Hne.
      apply Hc in Hx, Hold. unfold idFor in *. congruence.
Qed.

(** A table fed a sequence of announcements, each at its time. *)
Definition learn_all (l : list (Announcement * Z)) (t : peerTable) : peerTable :=
  foldl (λ t x, (learn x.1 x.2 t).2) t l.

Definition from_list (l : list (Announcement * Z)) (t : peerTable) : Prop :=
  ∀ id b, byID t !! id = Some b →
    ∃ a now, (a, now) ∈ l ∧ an_ID a = id ∧ an_Radio a = b_radio b ∧ an_At a = b_at b ∧ an_At a ≤ now + maxClockSkew.

Lemma learn_from_list a now t e t' l :
  learn a now t = (e, t') → consistent t → from_list l t → from_list (l ++ [(a, now)]) t'.
Proof.
  intros Hl Hc Hf. assert (Hold : from_list (l ++ [(a, now)]) t).
  { intros id b Hb. destruct (Hf id b Hb) as (a' & n' & Hin & ?). exists a', n'. split; [|done].
    apply elem_of_app. by left. }
  destruct e as [e|]; [apply learn_error in Hl as ->; done|].
  destruct (learn_ok _ _ _ _ Hl Hc) as (Hid & _ & Hskew & _). intros id b. rewrite Hid.
  case_decide as He; [|case_decide; [done|apply Hold]]. intros [= <-]. exists a, now. split_and!; try done.
  apply elem_of_app. right. by left.
Qed.

Lemma learn_all_ok l :
  consistent (learn_all l newPeerTable) ∧ from_list l (learn_all l newPeerTable).
Proof.
  induction l as [|[a now] l [IHc IHf]] using rev_ind.
  { split; [|by intros id b]. intros id radio. unfold radioFor, idFor. cbn. by rewrite !lookup_empty. }
  unfold learn_all in *. rewrite foldl_app. cbn [foldl fst snd].
  destruct (learn a now _) as [e t'] eqn:Hl. cbn [snd]. split.
  - by eapply learn_consistent.
  - by eapply learn_from_list.
Qed.

(** The table of bindings is sound. After any sequence of announcements its two
    maps are inverse views of one set of bindings, each binding is one of the
    announcements heard and was not dated more than a day ahead of its arrival;
    and one announcement more either changes nothing, or binds its sender where
    it says, unbinds at most the node that held that radio, moves the sender
    forward in its own time and leaves everybody else alone. *)
Theorem peer_table_sound l a now :
  let t := learn_all l newPeerTable in
  let '(e, t') := learn a now t in
  consistent t ∧ from_list l t ∧
  match e with
  | Some _ => t' = t
  | None =>
      radioFor t' (an_ID a) = Some (an_Radio a) ∧ idFor t' (an_Radio a) = Some (an_ID a) ∧
      (∀ old, byID t !! an_ID a = Some old → b_at old < an_At a) ∧
      ∀ id, id ≠ an_ID a → byID t' !! id = byID t !! id ∨
        (idFor t (an_Radio a) = Some id ∧ byID t' !! id = None)
  end.
Proof.
  cbv zeta. destruct (learn_all_ok l) as [Hc Hf]. destruct (learn a now _) as [e t'] eqn:Hl.
  split_and!; [done..|]. destruct e as [e|]; [by apply learn_error in Hl|].
  destruct (learn_ok _ _ _ _ Hl Hc) as (Hid & Hrad & _ & Hold). unfold radioFor at 1, idFor at 1. rewrite Hid, Hrad.
  rewrite !decide_True by done. split_and!; [done..|]. intros id Hne. rewrite Hid, decide_False by done.
  case_decide as Hr; [|by left]. right. split; [by apply Hc|done].
Qed.

(** A node that loses its radio number to another node is forgotten together with
    the time of its last announcement, so an old announcement of its own, replayed
    from the radio it was made for, moves it back to a radio it has left. *)
Lemma displaced_peer_replays :
  let id := zero_id in
  let first := mkAnnouncement id [] 1 (100 * Second) in
  let moved := mkAnnouncement id [] 2 (200 * Second) in
  let usurper := mkAnnouncement (arr_of 8 [Byte.x01]) [] 2 (150 * Second) in
  let now := 300 * Second in
  (learn first now (learn_all [(first, now); (moved, now)] newPeerTable)).1 = Some ErrStaleAnnounce ∧
  radioFor (learn_all [(first, now); (moved, now); (usurper, now); (first, now)] newPeerTable) id = Some 1.
Proof. by vm_compute. Qed.

(** ** Asking *)

(** Questions put to one radio are at least [every] apart. *)
Fixpoint ask_all (radio : Z) (times : list Z) (a : askRate) : list Z * askRate :=
  match times with
  | [] => ([], a)
  | now :: times' =>
      let '(ok, a) := allow radio now a in
      let '(asked, a) := ask_all radio times' a in
      ((if ok then [now] else []) ++ asked, a)
  end.

Definition apart (d : Z) (ts : list Z) : Prop :=
  ∀ i s t, ts !! i = Some s → ts !! S i = Some t → d ≤ t - s.

Lemma ask_all_spec radio times a asked a' :
  ask_all radio times a = (asked, a') →
  apart (every a) asked ∧ (∀ t last, head asked = Some t → ask_last a !! radio = Some last → every a ≤ t - last).
Proof.
  revert a asked a'. induction times as [|now times IH]; intros a asked a'; cbn [ask_all].
  { intros [= <- <-]. split; [|done]. intros i s t Hs. done. }
  unfold allow. destruct (ask_last a !! radio) as [prev|] eqn:Hp.
  - destruct (Z.ltb_spec (now - prev) (every a)) as [Hlt|Hge].
    + destruct (ask_all radio times a) as [as1 a1] eqn:He. intros [= <- <-]. cbn [app].
      destruct (IH _ _ _ He) as [H1 H2]. rewrite Hp in H2. done.
    + destruct (ask_all radio times _) as [as1 a1] eqn:He. intros [= <- <-]. cbn [app].
      destruct (IH _ _ _ He) as [H1 H2]. cbn [every ask_last] in *. rewrite lookup_insert_eq in H2. split.
      * intros [|i] s t; cbn; [|apply H1]. intros [= <-] Ht. apply H2; [|done]. by destruct as1.
      * intros t last [= <-] [= <-]. done.
  - destruct (ask_all radio times _) as [as1 a1] eqn:He. intros [= <- <-]. cbn [app].
    destruct (IH _ _ _ He) as [H1 H2]. cbn [every ask_last] in *. rewrite lookup_insert_eq in H2. split; [|done].
    intros [|i] s t; cbn; [|apply H1]. intros [= <-] Ht. apply H2; [|done]. by destruct as1.
Qed.
