(* ===== verification/MeshSession.v ===== *)
(** * The config exchange and the amateur-radio rule
      (internal/meshtastic/session.go, internal/hammode/hammode.go)

    Protobuf is a parameter of nothing here: a message is what its accessors
    return, one constructor per variant the code looks at. Names and log text
    pass through [sanitiseText]. *)

From S2P Require Import Prelude Binary MeshFrame.

Record ChannelInfo := mkChannel { ch_Index : Z; ch_Name : bytes; ch_Role : bytes; Encrypted : bool }.
Record DeviceMetrics := mkMetrics {
  ChannelUtilization : Z; AirUtilTx : Z; UptimeSecs : Z; BatteryPct : Z  (* the first two are float32 bits *)
}.
Record LoraConfig := mkLora {
  lo_Region : bytes; lo_ModemPreset : bytes; lo_UsePreset : bool; lo_Bandwidth : Z; lo_SpreadFactor : Z;
  lo_CodingRate : Z; lo_HopLimit : Z; lo_TxEnabled : bool
}.

Record RadioInfo := mkRadio {
  NodeNum : Z;
  FirmwareVersion : bytes;
  HardwareModel : bytes;
  Lora : LoraConfig;
  Channels : list ChannelInfo;
  IsLicensed : bool;
  Metrics : option DeviceMetrics;
  TelemetryIntervalSecs : Z
}.
Definition no_lora : LoraConfig := mkLora [] [] false 0 0 0 0 false.
Definition empty_info : RadioInfo := mkRadio 0 [] [] no_lora [] false None 0.

(** What the radio sends. [Packet] carries a mesh packet of type [P]. *)
Inductive FromRadio (P : Type) :=
| ConfigCompleteId (id : Z)
| MyInfo (num : Z)
| Metadata (firmware hardware : bytes)
| LoraMsg (l : LoraConfig)
| TelemetryMsg (interval : Z)
| NodeInfo (num : Z) (m : option DeviceMetrics) (licensed : bool)
| ChannelMsg (index : Z) (name role psk : bytes)
| LogRecord (message : bytes)
| Packet (p : P)
| RebootedMsg (b : bool)
| OtherMsg.
Arguments ConfigCompleteId {P}. Arguments MyInfo {P}. Arguments Metadata {P}. Arguments LoraMsg {P}.
Arguments TelemetryMsg {P}. Arguments NodeInfo {P}. Arguments ChannelMsg {P}. Arguments LogRecord {P}.
Arguments Packet {P}. Arguments RebootedMsg {P}. Arguments OtherMsg {P}.

Inductive config_error := ZeroConfigID | RecvFailed | NodeRebooted.

Section session.
Context {P : Type}.

(** What one message changes: the switch of [readConfig] after the first case. *)
Definition note_config (m : FromRadio P) (i : RadioInfo) : RadioInfo :=
  match m with
  | MyInfo n => mkRadio n (FirmwareVersion i) (HardwareModel i) (Lora i) (Channels i) (IsLicensed i)
                  (Metrics i) (TelemetryIntervalSecs i)
  | Metadata fw hw => mkRadio (NodeNum i) (sanitiseText fw) hw (Lora i) (Channels i) (IsLicensed i)
                        (Metrics i) (TelemetryIntervalSecs i)
  | LoraMsg l => mkRadio (NodeNum i) (FirmwareVersion i) (HardwareModel i) l (Channels i) (IsLicensed i)
                   (Metrics i) (TelemetryIntervalSecs i)
  | TelemetryMsg t => mkRadio (NodeNum i) (FirmwareVersion i) (HardwareModel i) (Lora i) (Channels i)
                        (IsLicensed i) (Metrics i) t
  | NodeInfo num m lic =>
      if negb (NodeNum i =? 0) && (num =? NodeNum i)
      then mkRadio (NodeNum i) (FirmwareVersion i) (HardwareModel i) (Lora i) (Channels i) lic
             (match m with Some d => Some d | None => Metrics i end) (TelemetryIntervalSecs i)
      else i
  | ChannelMsg idx name role psk =>
      mkRadio (NodeNum i) (FirmwareVersion i) (HardwareModel i) (Lora i)
        (Channels i ++ [mkChannel idx (sanitiseText name) role (0 <? strlen psk)]) (IsLicensed i)
        (Metrics i) (TelemetryIntervalSecs i)
  | _ => i
  end.

Definition config_log (m : FromRadio P) : list bytes :=
  match m with
  | LogRecord s => if decide (sanitiseText s = []) then [] else [sanitiseText s]
  | _ => []
  end.
Definition config_packet (m : FromRadio P) : list P := match m with Packet p => [p] | _ => [] end.

(** [readConfig] over the messages that arrive before the stream fails: the
    outcome, the device log, the packets handed to [OnPacket], what is unread. *)
Fixpoint readConfig (id : Z) (ms : list (FromRadio P)) (i : RadioInfo)
    : result config_error RadioInfo * list bytes * list P * list (FromRadio P) :=
  match ms with
  | [] => (Err RecvFailed, [], [], [])
  | ConfigCompleteId n :: ms' =>
      if negb (n =? 0) && (n =? id) then (Ok i, [], [], ms') else readConfig id ms' i
  | RebootedMsg true :: ms' => (Err NodeRebooted, [], [], ms')
  | m :: ms' =>
      let '(r, logs, ps, rest) := readConfig id ms' (note_config m i) in
      (r, config_log m ++ logs, config_packet m ++ ps, rest)
  end.

(** [Configure], when the deadline does not interrupt it and the request is sent. *)
Definition Configure (id : Z) (ms : list (FromRadio P)) :=
  if id =? 0 then (Err ZeroConfigID, [], [], ms) else readConfig id ms empty_info.

(** ** What the exchange collects *)

Definition ends_config (id : Z) (m : FromRadio P) : bool :=
  match m with
  | ConfigCompleteId n => negb (n =? 0) && (n =? id)
  | RebootedMsg b => b
  | _ => false
  end.

Lemma readConfig_spec id ms i info logs ps rest :
  readConfig id ms i = (Ok info, logs, ps, rest) ↔
  ∃ before, id ≠ 0 ∧ ms = before ++ ConfigCompleteId id :: rest ∧
    Forall (λ m, ends_config id m = false) before ∧
    info = foldl (λ i m, note_config m i) i before ∧
    logs = before ≫= config_log ∧ ps = before ≫= config_packet.
Proof.
  revert i info logs ps rest. induction ms as [|m ms IH]; intros i info logs ps rest.
  { split; [done|]. intros (before & _ & H & _). by destruct before. }
  assert (Hcons : ends_config id m = false →
    ((let '(r, logs', ps', rest') := readConfig id ms (note_config m i) in
      (r, config_log m ++ logs', config_packet m ++ ps', rest')) = (Ok info, logs, ps, rest) ↔
     ∃ before, id ≠ 0 ∧ m :: ms = before ++ ConfigCompleteId id :: rest ∧
       Forall (λ m, ends_config id m = false) before ∧
       info = foldl (λ i m, note_config m i) i before ∧
       logs = before ≫= config_log ∧ ps = before ≫= config_packet)).
  { intros Hm. destruct (readConfig id ms (note_config m i)) as [[[r l] p] rs] eqn:Hr. split.
    - intros [= -> <- <- <-]. apply IH in Hr as (before & Hid & -> & Hb & -> & -> & ->).
      exists (m :: before). split_and!; try done. by constructor.
    - intros ([|m' before] & Hid & Heq & Hb & -> & -> & ->).
      + injection Heq as -> _. cbn in Hm. rewrite Z.eqb_refl, (proj2 (Z.eqb_neq _ _) Hid) in Hm. done.
      + injection Heq as <- ->. apply Forall_cons in Hb as [_ Hb].
        assert (Hok : readConfig id (before ++ ConfigCompleteId id :: rest) (note_config m i) =
          (Ok (foldl (λ i m, note_config m i) (note_config m i) before), before ≫= config_log,
           before ≫= config_packet, rest)) by (apply IH; by exists before).
        rewrite Hok in Hr. injection Hr as <- <- <- <-. done. }
  destruct m as [n| | | | | | | | |[]|]; try (by apply Hcons).
  - cbn [readConfig]. destruct (negb (n =? 0) && (n =? id)) eqn:Hn.
    + apply andb_true_iff in Hn as [Hn0%negb_true_iff%Z.eqb_neq ->%Z.eqb_eq]. split.
      * intros [= <- <- <- <-]. exists []. split_and!; done.
      * intros ([|m' before] & _ & Heq & Hb & -> & -> & ->); [by injection Heq as ->|].
        injection Heq as <- _. apply Forall_cons in Hb as [Hb _]. cbn in Hb.
        rewrite Z.eqb_refl, (proj2 (Z.eqb_neq _ _) Hn0) in Hb. done.
    + rewrite <- Hcons by done. cbn [note_config config_log config_packet app].
      by destruct (readConfig id ms i) as [[[? ?] ?] ?].
  - cbn [readConfig]. split; [done|]. intros ([|m' before] & _ & Heq & Hb & _); [done|].
    injection Heq as <- _. by apply Forall_cons in Hb as [? _].
Qed.
End session.

(** ** Part 97 *)

Record Policy := mkPolicy { Licensed : bool; Override : bool }.

Definition FromRadioInfo (info : option RadioInfo) (override : bool) : Policy :=
  match info with
  | None => mkPolicy false override
  | Some i => mkPolicy (IsLicensed i) override
  end.
Definition Restricted (p : Policy) : bool := Licensed p && negb (Override p).
Definition AllowsEncryptedDMs (p : Policy) : bool := negb (Restricted p).

(** The slot of the offending channel, if [CheckChannel] refuses. *)
Definition CheckChannel (p : Policy) (channels : list ChannelInfo) (name : bytes) : option Z :=
  if negb (Restricted p) then None
  else match list_find (λ ch, ch_Name ch = name ∧ Encrypted ch = true) channels with
       | Some (_, ch) => Some (ch_Index ch)
       | None => None
       end.

Lemma CheckChannel_None p channels name :
  CheckChannel p channels name = None ↔
  (Restricted p = true → ∀ ch, ch ∈ channels → ch_Name ch = name → Encrypted ch = false).
Proof.
  unfold CheckChannel. destruct (Restricted p); cbn [negb]; [|done].
  destruct (list_find _ channels) as [[i ch]|] eqn:Hf.
  - apply list_find_Some in Hf as (Hl & [Hn He] & _). split; [done|]. intros H.
    rewrite (H eq_refl ch) in He; [done| |done]. by eapply list_elem_of_lookup_2.
  - apply list_find_None in Hf. rewrite Forall_forall in Hf. split; [|done].
    intros _ _ ch Hin Hn. specialize (Hf ch Hin). destruct (Encrypted ch); [|done]. by exfalso; apply Hf.
Qed.
