(* ===== verification/MeshLink.v ===== *)
(** * The mesh link (internal/meshlink/link.go, governor.go)

    One link over one radio: sending through the governor, telling received
    packets apart, learning and asking who is who, attaching and reattaching. The
    radio connection, the governor and the source of packet identifiers are
    interfaces. An operation happens at one instant [now]; goroutines are the
    operations' interleaving, which the lock makes a sequence. [OnEvent] and
    [OnTrace] texts are not modelled. *)

From stdpp Require Import strings.
From S2P Require Import Prelude Binary Float64 Identity Schedule.
From S2P Require Import Records.
From S2P Require Governor BsmpInbox MeshFrame.
From S2P Require Import BsmpOutbox MeshPeers MeshSession.

Definition broadcastAddr : Z := 0xFFFFFFFF.
Definition mtuReserve : Z := 8.
Definition MaxPayload : Z := MeshFrame.MTU - mtuReserve.
Definition PRIVATE_APP : Z := 256.

(** ** What the link needs *)

(** A packet handed to the radio, and one it hands to us; a payload the radio
    could not decrypt has no [rx_Decoded]. *)
Record MeshPacket := mkPacket {
  mp_To : Z; mp_Channel : Z; mp_Id : Z; mp_HopLimit : Z; mp_WantAck : bool; mp_Payload : bytes
}.
Record RxPacket := mkRx {
  rx_From : Z; rx_To : Z; rx_Channel : Z; rx_PkiEncrypted : bool; rx_Decoded : option (Z * bytes)
}.

Class Conn (C CE : Type) := { conn_Send : C → MeshPacket → C * option CE }.

(** What a connection put on the air: a failed send adds nothing. *)
Class ConnLog (C CE : Type) `{Conn C CE} := {
  transmitted : C → list MeshPacket;
  transmitted_Send c p c' e : conn_Send c p = (c', e) →
    transmitted c' = if decide (e = None) then transmitted c ++ [p] else transmitted c
}.

(** [Governor], with its optional capabilities EchoWatcher and InboundLimiter. *)
Class LinkGovernor (V : Type) := {
  gv_AllowCharge : V → Z → Governor.Charge → bool → bool * V;
  gv_Budget : V → Governor.Budget * V;
  gv_NoteEcho : option (V → V);
  gv_NoteInbound : option (V → NodeID → Z → bool * V)
}.

(** [rng.Source], as far as packet identifiers use it. *)
Class Uint64Source (R : Type) := next_uint64 : R → Z * R.

(** ** Configuration and state *)

Record Config := mkConfig {
  Key : NodeKey;
  Channel : bytes;
  Part97Override : bool;
  HopLimit : Z;
  AnnounceInterval : Z;
  AskInterval : Z;
  AnswerInterval : Z;
  HeartbeatInterval : Z;
  ConnectRetryWindow : Z;
  ConnectTimeout : Z;
  RxTimeout : Z;
  InboxSize : Z;
  ReconnectBackoff : Z;
  MaxReconnectBackoff : Z
}.

Definition or_default (x d : Z) : Z := if x <=? 0 then d else x.
(** Negative turns the feature off, zero is the default. *)
Definition off_or_default (x d : Z) : Z := if x <? 0 then 0 else if x =? 0 then d else x.

(** The defaults [New] fills in. *)
Definition normalise (c : Config) : Config :=
  let rb := or_default (ReconnectBackoff c) Second in
  let mb := or_default (MaxReconnectBackoff c) Minute in
  mkConfig (Key c) (Channel c) (Part97Override c) (HopLimit c)
    (or_default (AnnounceInterval c) (12 * Hour)) (or_default (AskInterval c) (15 * Minute))
    (or_default (AnswerInterval c) Minute) (or_default (HeartbeatInterval c) (5 * Minute))
    (off_or_default (ConnectRetryWindow c) (45 * Second)) (or_default (ConnectTimeout c) (30 * Second))
    (off_or_default (RxTimeout c) (5 * Minute)) (or_default (InboxSize c) 256)
    rb (if mb <? rb then rb else mb).

Inductive link_stat :=
| Sent | Received | Refused | Undecryptable | WrongChannel | Unattributed | Reconnects | RxStalls | AnnouncesSent.
#[export] Instance link_stat_eq_dec : EqDecision link_stat.
Proof. solve_decision. Defined.

Record Link (C V R : Type) := mkLink {
  peers : peerTable;
  asks : askRate;
  answers : askRate;
  inbox : list BsmpInbox.Datagram;
  conn : option C;
  radio : option RadioInfo;
  policy : Policy;
  chanIdx : Z;
  hopLimit : Z;
  closed : bool;
  connected : bool;
  gov : option V;
  packetIDs : R;
  counters : link_stat → Z;
  lastRx : Z;
  sessionRx : bool
}.
Arguments mkLink {C V R}. Arguments peers {C V R}. Arguments asks {C V R}. Arguments answers {C V R}.
Arguments inbox {C V R}. Arguments conn {C V R}. Arguments radio {C V R}. Arguments policy {C V R}.
Arguments chanIdx {C V R}. Arguments hopLimit {C V R}. Arguments closed {C V R}. Arguments connected {C V R}.
Arguments gov {C V R}. Arguments packetIDs {C V R}. Arguments counters {C V R}. Arguments lastRx {C V R}.
Arguments sessionRx {C V R}.

Inductive error (CE : Type) :=
| ErrUnknownPeer
| ErrNotConnected
| ErrReservedFrame (t : byte)
| EmptyPayload
| NoGovernor  (* wraps link.ErrNoBudget *)
| OverBudget  (* link.ErrNoBudget *)
| TooLarge    (* link.ErrTooLarge *)
| LinkClosed  (* link.ErrClosed *)
| Cancelled
| ConnFailed (e : CE).
Arguments ErrUnknownPeer {CE}. Arguments ErrNotConnected {CE}. Arguments ErrReservedFrame {CE}.
Arguments EmptyPayload {CE}. Arguments NoGovernor {CE}. Arguments OverBudget {CE}. Arguments TooLarge {CE}.
Arguments LinkClosed {CE}. Arguments Cancelled {CE}. Arguments ConnFailed {CE}.

Section link.
Context {C CE V R : Type} `{HB : Blake3, HE : Ed25519, HC : Conn C CE, HV : LinkGovernor V, HR : Uint64Source R}.
Context (cfg : Config).

Abbreviation link := (Link C V R).

Definition self : NodeID := NodeKey_ID (Key cfg).

(** Field updates. *)
Definition set_peers (t : peerTable) (l : link) : link :=
  mkLink t (asks l) (answers l) (inbox l) (conn l) (radio l) (policy l) (chanIdx l) (hopLimit l) (closed l)
    (connected l) (gov l) (packetIDs l) (counters l) (lastRx l) (sessionRx l).
Definition set_rates (a b : askRate) (l : link) : link :=
  mkLink (peers l) a b (inbox l) (conn l) (radio l) (policy l) (chanIdx l) (hopLimit l) (closed l)
    (connected l) (gov l) (packetIDs l) (counters l) (lastRx l) (sessionRx l).
Definition set_inbox (i : list BsmpInbox.Datagram) (l : link) : link :=
  mkLink (peers l) (asks l) (answers l) i (conn l) (radio l) (policy l) (chanIdx l) (hopLimit l) (closed l)
    (connected l) (gov l) (packetIDs l) (counters l) (lastRx l) (sessionRx l).
Definition set_conn (c : option C) (up : bool) (l : link) : link :=
  mkLink (peers l) (asks l) (answers l) (inbox l) c (radio l) (policy l) (chanIdx l) (hopLimit l) (closed l)
    up (gov l) (packetIDs l) (counters l) (lastRx l) (sessionRx l).
Definition set_gov (g : V) (l : link) : link :=
  mkLink (peers l) (asks l) (answers l) (inbox l) (conn l) (radio l) (policy l) (chanIdx l) (hopLimit l) (closed l)
    (connected l) (Some g) (packetIDs l) (counters l) (lastRx l) (sessionRx l).
Definition set_ids (r : R) (l : link) : link :=
  mkLink (peers l) (asks l) (answers l) (inbox l) (conn l) (radio l) (policy l) (chanIdx l) (hopLimit l) (closed l)
    (connected l) (gov l) r (counters l) (lastRx l) (sessionRx l).
Definition set_rx (t : Z) (b : bool) (l : link) : link :=
  mkLink (peers l) (asks l) (answers l) (inbox l) (conn l) (radio l) (policy l) (chanIdx l) (hopLimit l) (closed l)
    (connected l) (gov l) (packetIDs l) (counters l) t b.
Definition set_closed (l : link) : link :=
  mkLink (peers l) (asks l) (answers l) (inbox l) None (radio l) (policy l) (chanIdx l) (hopLimit l) true
    false (gov l) (packetIDs l) (counters l) (lastRx l) (sessionRx l).
(** What [connect] stores once a radio answered. *)
Definition attach (c : C) (info : RadioInfo) (p : Policy) (idx hop : Z) (l : link) : link :=
  mkLink (peers l) (asks l) (answers l) (inbox l) (Some c) (Some info) p idx hop (closed l)
    true (gov l) (packetIDs l) (counters l) (lastRx l) (sessionRx l).
Definition add_stat (k : link_stat) (n : Z) (l : link) : link :=
  mkLink (peers l) (asks l) (answers l) (inbox l) (conn l) (radio l) (policy l) (chanIdx l) (hopLimit l) (closed l)
    (connected l) (gov l) (packetIDs l) (λ k', if decide (k = k') then counters l k + n else counters l k')
    (lastRx l) (sessionRx l).

(** A link that is not yet connected. *)
Definition fresh_link (g : option V) (r : R) : link :=
  mkLink newPeerTable (newAskRate (AskInterval cfg)) (newAskRate (AnswerInterval cfg))
    [] None None (mkPolicy false false) 0 0 false false g r (λ _, 0) 0 false.

(** ** Sending *)

(** [cancelled]: the caller's context has ended. *)
Definition sendFrame (cancelled : bool) (to : Z) (payload : bytes) (wantAck : bool) (l : link)
    : option (error CE) * link :=
  match conn l with
  | None => (Some ErrNotConnected, l)
  | Some c =>
      if cancelled then (Some Cancelled, l)
      else
        let '(id, r) := next_uint64 (packetIDs l) in
        let '(c, e) := conn_Send c (mkPacket to (chanIdx l) (u32 id) (hopLimit l) wantAck payload) in
        (ConnFailed <$> e, set_conn (Some c) (connected l) (set_ids r l))
  end.

(** Counted before the send, refunded when it fails. *)
Definition counted_send (k : link_stat) (cancelled : bool) (to : Z) (payload : bytes) (wantAck : bool) (l : link)
    : option (error CE) * link :=
  match sendFrame cancelled to payload wantAck (add_stat k 1 l) with
  | (Some e, l) => (Some e, add_stat k (-1) l)
  | (None, l) => (None, l)
  end.

Definition own_radio (l : link) : Z := match radio l with Some i => NodeNum i | None => 0 end.

Definition announcement (now : Z) (l : link) : bytes := EncodeAnnounce (Key cfg) (own_radio l) now.
Definition announce (now : Z) (cancelled : bool) (l : link) : option (error CE) * link :=
  counted_send AnnouncesSent cancelled broadcastAddr (announcement now l) false l.

(** The radio address of a peer, or everyone's. *)
Definition destination (to : NodeID) (l : link) : option Z :=
  if decide (to = Broadcast) then Some broadcastAddr else radioFor (peers l) to.

Definition SendCharged (cancelled : bool) (to : NodeID) (payload : bytes) (ch : Governor.Charge) (l : link)
    : option (error CE) * link :=
  if MaxPayload <? strlen payload then (Some TooLarge, l)
  else
    match payload with
    | [] => (Some EmptyPayload, l)
    | t :: _ =>
        if decide (t = FrameAnnounce ∨ t = FrameWhoIs) then (Some (ErrReservedFrame t), l)
        else
          match destination to l with
          | None => (Some ErrUnknownPeer, l)
          | Some dest =>
              match gov l with
              | None => (Some NoGovernor, l)
              | Some g =>
                  if negb (connected l) then (Some ErrNotConnected, l)
                  else
                    let '(ok, g) := gv_AllowCharge g (strlen payload) ch true in
                    let l := set_gov g l in
                    if negb ok then (Some OverBudget, add_stat Refused 1 l)
                    else
                      let wantAck := negb (dest =? broadcastAddr) && bool_decide (t = FrameControl) in
                      counted_send Sent cancelled dest payload wantAck l
              end
          end
    end.

Definition Send (cancelled : bool) (to : NodeID) (payload : bytes) (l : link) : option (error CE) * link :=
  let class := if decide (head payload = Some FrameControl) then Governor.ClassControl else Governor.ClassForum in
  SendCharged cancelled to payload (Governor.mkCharge class (zero_arr 4)) l.

Definition Budget (l : link) : Governor.Budget * link :=
  match gov l with
  | None => (Governor.mkBudget 0 0 true, l)
  | Some g => let '(b, g) := gv_Budget g in (b, set_gov g l)
  end.

(** ** Receiving *)

Definition onAnnounce (now : Z) (payload : bytes) (from : Z) (l : link) : link :=
  match DecodeAnnounce payload from with
  | Err _ => l
  | Ok a => if decide (an_ID a = self) then l else set_peers (learn a now (peers l)).2 l
  end.

Definition onWhoIs (now : Z) (payload : bytes) (own : Z) (l : link) : link :=
  match DecodeWhoIs payload with
  | Err _ => l
  | Ok target =>
      if negb (target =? own) then l
      else
        let '(ok, a) := allow broadcastAddr now (answers l) in
        let l := set_rates (asks l) a l in
        if negb ok then l else (announce now false l).2
  end.

Definition askWhoIs (now : Z) (r : Z) (l : link) : link :=
  if negb (connected l) then l
  else
    let '(ok, a) := allow r now (asks l) in
    let l := set_rates a (answers l) l in
    if negb ok then l else (sendFrame false broadcastAddr (EncodeWhoIs r) false l).2.

(** The channel the packet came on is ours, or it was encrypted to our key. *)
Definition for_us (p : RxPacket) (l : link) : bool :=
  (rx_Channel p =? chanIdx l) || (rx_PkiEncrypted p && (rx_To p =? own_radio l)).

Definition note_echo (l : link) : link :=
  match gov l, gv_NoteEcho with
  | Some g, Some f => set_gov (f g) l
  | _, _ => l
  end.

(** The inbound quota, when the governor keeps one. *)
Definition within_quota (from : NodeID) (n : Z) (l : link) : bool * link :=
  match gov l, gv_NoteInbound with
  | Some g, Some f => let '(ok, g) := f g from n in (ok, set_gov g l)
  | _, _ => (true, l)
  end.

Definition hand_up (from : NodeID) (payload : bytes) (l : link) : link :=
  let l := add_stat Received 1 l in
  if Z.of_nat (length (inbox l)) <? InboxSize cfg
  then set_inbox (inbox l ++ [BsmpInbox.mkDatagram from payload]) l
  else l.

Definition deliver (now : Z) (p : RxPacket) (l : link) : link :=
  match rx_Decoded p with
  | None => add_stat Undecryptable 1 l
  | Some (port, payload) =>
      if negb (port =? PRIVATE_APP) then l
      else if negb (for_us p l) then add_stat WrongChannel 1 l
      else if rx_From p =? own_radio l then note_echo l
      else
        match payload with
        | [] => l
        | t :: _ =>
            if decide (t = FrameAnnounce) then onAnnounce now payload (rx_From p) l
            else if decide (t = FrameWhoIs) then onWhoIs now payload (own_radio l) l
            else
              match idFor (peers l) (rx_From p) with
              | None => askWhoIs now (rx_From p) (add_stat Unattributed 1 l)
              | Some from =>
                  let '(ok, l) := within_quota from (strlen payload) l in
                  if ok then hand_up from payload l else l
              end
        end
  end.

(** One message in the read loop. *)
Definition receive (now : Z) (cancelled : bool) (m : FromRadio RxPacket) (l : link) : link :=
  let l := set_rx now true l in
  match m with
  | Packet p => if cancelled then l else deliver now p l
  | _ => l
  end.

(** The engine takes the next datagram. *)
Definition Recv (l : link) : option BsmpInbox.Datagram * link :=
  match inbox l with
  | [] => (None, l)
  | d :: rest => (Some d, set_inbox rest l)
  end.

(** ** Attaching *)

Inductive connect_error :=
| DialFailed | ConfigureTimedOut | ConfigureFailed (e : config_error)
| NoSuchChannel | EncryptedChannel (slot : Z) | ConnectClosed.

(** [errNotRetryable] *)
Definition retryable (e : connect_error) : bool :=
  match e with NoSuchChannel | EncryptedChannel _ => false | _ => true end.

(** A connection [Dial] returned: what it will say, and whether the request went
    out and the dump ended in time. *)
Record Dialed := mkDialed { dl_conn : C; dl_msgs : list (FromRadio RxPacket); dl_timely : bool }.

Definition DISABLED : bytes := str "DISABLED".
Definition channelIndex (info : RadioInfo) (name : bytes) : option Z :=
  match list_find (λ ch, ch_Role ch ≠ DISABLED ∧ ch_Name ch = name) (Channels info) with
  | Some (_, ch) => Some (u32 (ch_Index ch))
  | None => None
  end.

Definition connect (now : Z) (cancelled : bool) (d : option Dialed) (l : link) : option connect_error * link :=
  match d with
  | None => (Some DialFailed, l)
  | Some d =>
      let '(id, r) := next_uint64 (packetIDs l) in
      let l := set_ids r l in
      if negb (dl_timely d) then (Some ConfigureTimedOut, l)
      else
        let '(res, _, pending, _) := Configure (Z.lor (u32 id) 1) (dl_msgs d) in
        match res with
        | Err e => (Some (ConfigureFailed e), l)
        | Ok info =>
            match channelIndex info (Channel cfg) with
            | None => (Some NoSuchChannel, l)
            | Some idx =>
                let p := FromRadioInfo (Some info) (Part97Override cfg) in
                match CheckChannel p (Channels info) (Channel cfg) with
                | Some slot => (Some (EncryptedChannel slot), l)
                | None =>
                    let hop := if HopLimit cfg =? 0 then lo_HopLimit (Lora info) else HopLimit cfg in
                    if closed l then (Some ConnectClosed, l)
                    else
                      let l := set_rx now false (attach (dl_conn d) info p idx hop l) in
                      let l := (announce now cancelled l).2 in
                      (None, foldl (λ l p, deliver now p l) l pending)
                end
            end
        end
  end.

(** The read loop ended: [supervise] drops the connection. *)
Definition connection_lost (l : link) : link := set_conn None false l.

(** [supervise]'s delay before the next attempt: reset only after a session that
    carried something. *)
Definition next_backoff (delivered : bool) (backoff : Z) : Z :=
  if delivered then ReconnectBackoff cfg
  else if MaxReconnectBackoff cfg <? backoff * 2 then MaxReconnectBackoff cfg else backoff * 2.

(** One attempt of [supervise] to come back, after its wait: whether it did, the
    delay before the next attempt, and the link. *)
Definition reconnect (now : Z) (cancelled delivered : bool) (d : option Dialed) (backoff : Z) (l : link)
    : bool * Z * link :=
  match connect now cancelled d l with
  | (None, l) => (true, next_backoff delivered backoff, add_stat Reconnects 1 l)
  | (Some _, l) => (false, next_backoff false backoff, l)
  end.

Definition Close (l : link) : link := if closed l then l else set_closed l.

(** ** Keeping alive *)

Definition watchdogTick : Z :=
  let tick := HeartbeatInterval cfg in
  let tick := if (0 <? RxTimeout cfg) && (RxTimeout cfg / 3 <? tick) then RxTimeout cfg / 3 else tick in
  if tick <=? 0 then Second else tick.

Definition rxStalled (now : Z) (l : link) : bool :=
  if RxTimeout cfg <=? 0 then false
  else if lastRx l =? 0 then false
  else RxTimeout cfg <? now - lastRx l.

Record timers := mkTimers { untilAnnounce : Z; untilHeartbeat : Z }.
Inductive keep := KeepGoing (t : timers) | HeartbeatFailed | Stalled.

(** One wake-up of [keepalive] on the current connection: [beat] is whether a
    heartbeat can be written. On [Stalled] the connection is closed. *)
Definition keepalive_tick (now : Z) (cancelled beat : bool) (t : timers) (l : link) : keep * link :=
  let h := untilHeartbeat t - watchdogTick in
  if (h <=? 0) && negb beat then (HeartbeatFailed, l)
  else
    let h := if h <=? 0 then HeartbeatInterval cfg else h in
    if rxStalled now l then (Stalled, add_stat RxStalls 1 l)
    else
      let a := untilAnnounce t - watchdogTick in
      if a <=? 0 then (KeepGoing (mkTimers (AnnounceInterval cfg) h), (announce now cancelled l).2)
      else (KeepGoing (mkTimers a h), l).

(** [keepalive] while nothing else happens to the link: its first [n] wake-ups
    after [now], the answer, if it returned, with the time. *)
Fixpoint keepalive (n : nat) (now : Z) (beat : Z → bool) (t : timers) (l : link) : option (keep * Z) * link :=
  match n with
  | O => (None, l)
  | S n' =>
      let now := now + watchdogTick in
      match keepalive_tick now false (beat now) t l with
      | (KeepGoing t, l) => keepalive n' now beat t l
      | (k, l) => (Some (k, now), l)
      end
  end.
End link.

(** ** The first connection *)

Definition retry_cap : Z := Minute.

(** [connectWithRetry]: attempt number [n] takes [attempt n].1 and ends with
    [attempt n].2; [ends] is when the caller's context ends, if it does (at a tie
    with the wait's end, the context is seen first). [fuel] bounds the attempts;
    the result is the outcome, the time and the number of attempts. *)
Definition ended (ends : option Z) (t : Z) : bool :=
  match ends with Some e => e <=? t | None => false end.
Definition next_retry (backoff : Z) : Z := if retry_cap <? backoff * 2 then retry_cap else backoff * 2.

Fixpoint connectWithRetry (fuel n : nat) (attempt : nat → Z * option connect_error) (ends : option Z)
    (deadline t backoff : Z) : option (option connect_error * Z * nat) :=
  match fuel with
  | O => None
  | S fuel' =>
      let '(d, e) := attempt n in
      let t := t + d in
      match e with
      | None => Some (None, t, S n)
      | Some err =>
          if negb (retryable err) || ended ends t || negb (t + backoff <? deadline) then Some (Some err, t, S n)
          else if ended ends (t + backoff) then Some (Some err, default t ends, S n)
          else connectWithRetry fuel' (S n) attempt ends deadline (t + backoff) (next_retry backoff)
      end
  end.
