(* ===== verification/MeshLinkFacts.v ===== *)
(** * What the mesh link guarantees

    Theorems about MeshLink, proved against the interfaces it uses: the radio
    connection with its log of transmitted packets, and a governor with a log of
    what it charged. *)

From stdpp Require Import relations.
From S2P Require Import Prelude Binary Identity Schedule.
From S2P Require Import Records.
From S2P Require Governor BsmpInbox MeshFrame.
From S2P Require Import BsmpOutbox MeshPeers MeshSession MeshLink.

(** A governor that can tell the sizes it charged for: only an allowed packet is
    charged. [gv_ok] is an invariant of its own, and [gv_elsewhere] what may happen
    to it apart from this link: time, telemetry, new shares. *)
Class GovernorLog (V : Type) `{LinkGovernor V} := {
  charges : V → list Z;
  gv_ok : V → Prop;
  gv_elsewhere : V → V → Prop;
  charges_AllowCharge g n ch w ok g' : 0 < n ≤ MaxPayload → gv_AllowCharge g n ch w = (ok, g') →
    charges g' = (if ok then charges g ++ [n] else charges g) ∧ (gv_ok g → gv_ok g');
  charges_Budget g : charges (gv_Budget g).2 = charges g ∧ (gv_ok g → gv_ok (gv_Budget g).2);
  charges_NoteEcho f g : gv_NoteEcho = Some f → charges (f g) = charges g ∧ (gv_ok g → gv_ok (f g));
  charges_NoteInbound f g from n : gv_NoteInbound = Some f →
    charges (f g from n).2 = charges g ∧ (gv_ok g → gv_ok (f g from n).2);
  charges_elsewhere g g' : gv_elsewhere g g' → charges g' = charges g ∧ (gv_ok g → gv_ok g')
}.

Section facts.
Context {C CE V R : Type} `{HB : Blake3, HE : Ed25519, HC : Conn C CE, HV : LinkGovernor V, HR : Uint64Source R}.
Context `{HCL : !ConnLog C CE, HVL : !GovernorLog V}.
Context (cfg : Config).

Abbreviation link := (Link C V R).

(** What went out on the current connection, and what was ever charged. *)
Definition air (l : link) : list MeshPacket := match conn l with Some c => transmitted c | None => [] end.
Definition charged (l : link) : list Z := match gov l with Some g => charges g | None => [] end.

Definition gov_ok (l : link) : Prop := match gov l with Some g => gv_ok g | None => True end.

Definition owned (t : byte) : Prop := t = FrameAnnounce ∨ t = FrameWhoIs.
#[export] Instance owned_dec t : Decision (owned t).
Proof. unfold owned. apply _. Defined.
(** A frame of the link's own kinds. *)
Definition own_frame (p : MeshPacket) : Prop :=
  match head (mp_Payload p) with Some t => owned t | None => False end.
#[export] Instance own_frame_dec p : Decision (own_frame p).
Proof. unfold own_frame. destruct (head _); apply _. Defined.

Definition sizes (ps : list MeshPacket) : list Z :=
  (λ p, strlen (mp_Payload p)) <$> filter (λ p, ¬ own_frame p) ps.

(** ** Sending *)

Definition outgoing (to : Z) (payload : bytes) (wantAck : bool) (id : Z) (l : link) : MeshPacket :=
  mkPacket to (chanIdx l) id (hopLimit l) wantAck payload.

(** [l'] is [l] but for counters, rates, identifiers, timers and what the
    connection has transmitted. *)
Record kept (l l' : link) : Prop := mkKept {
  kept_peers : peers l' = peers l;
  kept_inbox : inbox l' = inbox l;
  kept_radio : radio l' = radio l;
  kept_policy : policy l' = policy l;
  kept_chanIdx : chanIdx l' = chanIdx l;
  kept_hopLimit : hopLimit l' = hopLimit l;
  kept_closed : closed l' = closed l;
  kept_connected : connected l' = connected l;
  kept_charged : charged l' = charged l;
  kept_gov : gov_ok l → gov_ok l';
  kept_conn : conn l' = None ↔ conn l = None
}.
#[export] Instance kept_preorder : PreOrder kept.
Proof. split; [by constructor|]. intros l1 l2 l3 [] []. constructor; first [solve [auto]|etransitivity; eassumption]. Qed.

Definition over_budget (e : option (error CE)) : bool := match e with Some OverBudget => true | _ => false end.

Definition outcome (e : option (error CE)) (to : Z) (payload : bytes) (wantAck cancelled : bool) (l l' : link) : Prop :=
  match e with
  | None => conn l ≠ None ∧ cancelled = false ∧
      ∃ id, is_u32 id ∧ air l' = air l ++ [outgoing to payload wantAck id l]
  | Some _ => air l' = air l ∧ over_budget e = false
  end.

Lemma sendFrame_spec cancelled to payload wantAck l e l' :
  sendFrame cancelled to payload wantAck l = (e, l') →
  kept l l' ∧ counters l' = counters l ∧ outcome e to payload wantAck cancelled l l'.
Proof.
  unfold sendFrame, outcome, air. destruct (conn l) as [c|] eqn:Hc; [|by intros [= <- <-]; rewrite Hc].
  destruct cancelled; [by intros [= <- <-]; rewrite Hc|].
  destruct (next_uint64 (packetIDs l)) as [id r]. destruct (conn_Send c _) as [c' e'] eqn:Hs.
  intros [= <- <-]. split; [by constructor; cbn; rewrite ?Hc|]. split; [done|]. cbn [conn set_conn set_ids].
  apply transmitted_Send in Hs. destruct e' as [e'|]; cbn; [by rewrite Hs, decide_False by done|].
  split; [done|]. split; [done|]. exists (u32 id). split; [|by rewrite Hs].
  unfold_widths. apply Z.mod_pos_bound. lia.
Qed.

Lemma counted_send_spec k cancelled to payload wantAck l e l' :
  counted_send k cancelled to payload wantAck l = (e, l') →
  kept l l' ∧ (∀ k', counters l' k' = counters l k' + if decide (k' = k ∧ e = None) then 1 else 0) ∧
  outcome e to payload wantAck cancelled l l'.
Proof.
  unfold counted_send. destruct (sendFrame _ _ _ _ (add_stat k 1 l)) as [e1 l1] eqn:Hs.
  apply sendFrame_spec in Hs as (Hk & Hc & Hm).
  destruct e1 as [e1|]; intros [= <- <-]; split_and!; try exact Hm.
  - destruct Hk; by constructor.
  - intros k'. cbn. rewrite !Hc. cbn. rewrite (decide_False (P := k' = k ∧ _)) by naive_solver.
    destruct (decide (k = k')) as [->|]; [rewrite decide_True by done|]; lia.
  - destruct Hk; by constructor.
  - intros k'. rewrite Hc. cbn.
    destruct (decide (k = k')) as [->|]; [rewrite decide_True by done|rewrite decide_False by naive_solver]; lia.
Qed.

(** When a frame of the layer above may go out at all. *)
Definition sendable (payload : bytes) : Prop :=
  0 < strlen payload ≤ MaxPayload ∧ ∀ t, head payload = Some t → ¬ owned t.

Lemma SendCharged_spec cancelled to payload ch l e l' :
  SendCharged cancelled to payload ch l = (e, l') →
  (∃ dest g g' ok, sendable payload ∧ destination to l = Some dest ∧ gov l = Some g ∧ connected l = true ∧
     gv_AllowCharge g (strlen payload) ch true = (ok, g') ∧
     charged l' = (if ok then charged l ++ [strlen payload] else charged l) ∧ kept (set_gov g' l) l' ∧ (gov_ok l → gov_ok l') ∧
     if ok
     then outcome e dest payload (negb (dest =? broadcastAddr) && bool_decide (head payload = Some FrameControl)) cancelled l l'
        ∧ ∀ k, counters l' k = counters l k + if decide (k = Sent ∧ e = None) then 1 else 0
     else e = Some OverBudget ∧ air l' = air l ∧
        ∀ k, counters l' k = counters l k + if decide (k = Refused) then 1 else 0) ∨
  (l' = l ∧ e ≠ None ∧ over_budget e = false ∧
   ¬ (sendable payload ∧ destination to l ≠ None ∧ gov l ≠ None ∧ connected l = true)).
Proof.
  unfold SendCharged, sendable. destruct (Z.ltb_spec MaxPayload (strlen payload)) as [|Hle].
  { intros [= <- <-]. right. split_and!; try done. intros ((? & _) & _). lia. }
  destruct payload as [|t payload].
  { intros [= <- <-]. right. split_and!; try done. intros (([H _] & _) & _). by cbn in H. }
  destruct (decide (t = FrameAnnounce ∨ t = FrameWhoIs)) as [Ho|Ho].
  { intros [= <- <-]. right. split_and!; try done. intros ((_ & H) & _). by apply (H t). }
  assert (Hs : 0 < strlen (t :: payload) ≤ MaxPayload ∧ ∀ t', head (t :: payload) = Some t' → ¬ owned t').
  { split; [split; [unfold strlen; cbn [length]; lia|done]|]. by intros t' [= <-]. }
  destruct (destination to l) as [dest|]; [|by intros [= <- <-]; right; naive_solver].
  destruct (gov l) as [g|] eqn:Hg; [|by intros [= <- <-]; right; naive_solver].
  destruct (connected l) eqn:Hc; cbn [negb]; [|by intros [= <- <-]; right; naive_solver].
  destruct (gv_AllowCharge g _ ch true) as [ok g'] eqn:Ha.
  pose proof (charges_AllowCharge _ _ _ _ _ _ (proj1 Hs) Ha) as [Hch Hgk].
  assert (Hgo : gov_ok l → gv_ok g') by (unfold gov_ok; by rewrite Hg). clear Hgk. assert (Hcl : charged l = charges g) by (unfold charged; by rewrite Hg). rewrite <- Hcl in Hch.
  destruct ok; cbn [negb].
  - intros Hsend. apply counted_send_spec in Hsend as (Hk & Hcnt & Ho'). left. exists dest, g, g', true.
    split_and!; try done; try apply Hs.
    + by rewrite (kept_charged _ _ Hk).
    + intros Hl. apply (kept_gov _ _ Hk). by apply Hgo.
    + rewrite (bool_decide_ext (head (t :: payload) = Some FrameControl) (t = FrameControl)) by (cbn; naive_solver).
      done.
  - intros [= <- <-]. left. exists dest, g, g', false. split_and!; try done; try apply Hs.
    intros k. cbn. destruct (decide (Refused = k)) as [<-|]; [by rewrite decide_True by done|].
    rewrite decide_False by congruence. lia.
Qed.

(** What a charged send does, in every case. A frame that is empty, too long or
    of the link's own kinds, an unknown addressee, a missing governor or radio is
    refused before anything changes. Otherwise the governor is asked once: refused,
    nothing is sent and the refusal is counted; allowed, it is charged for exactly
    this payload, and the send either succeeds with exactly this packet on the air,
    on the link's channel, asking for an acknowledgement only for a control frame
    to one radio, and is counted, or fails with nothing on the air and no count. *)
Theorem SendCharged_accounts cancelled to payload ch l :
  let '(e, l') := SendCharged cancelled to payload ch l in
  let ready := sendable payload ∧ destination to l ≠ None ∧ gov l ≠ None ∧ connected l = true in
  (¬ ready → l' = l ∧ e ≠ None) ∧
  (ready → charged l' = if over_budget e then charged l else charged l ++ [strlen payload]) ∧
  counters l' Sent = counters l Sent + (if decide (e = None) then 1 else 0) ∧
  counters l' Refused = counters l Refused + (if over_budget e then 1 else 0) ∧
  match e with
  | None => ready ∧ cancelled = false ∧ ∃ dest id, destination to l = Some dest ∧ is_u32 id ∧
      air l' = air l ++ [mkPacket dest (chanIdx l) id (hopLimit l)
        (negb (dest =? broadcastAddr) && bool_decide (head payload = Some FrameControl)) payload]
  | Some _ => air l' = air l
  end.
Proof.
  destruct (SendCharged cancelled to payload ch l) as [e l'] eqn:Hs. cbv zeta.
  apply SendCharged_spec in Hs as [(dest & g & g' & ok & Hp & Hd & Hg & Hc & _ & Hch & _ & _ & Hr)|(-> & He & Ho & Hn)].
  - assert (Hready : sendable payload ∧ destination to l ≠ None ∧ gov l ≠ None ∧ connected l = true)
      by (rewrite Hd, Hg; done).
    destruct ok.
    + destruct Hr as [Hout Hcnt]. rewrite (Hcnt Sent), (Hcnt Refused), Hch.
      assert (Hob : over_budget e = false) by (destruct e; [by apply Hout|done]). rewrite Hob.
      rewrite (decide_False (P := Refused = Sent ∧ _)) by naive_solver.
      split; [done|]. split; [done|]. split; [by destruct e|]. split; [done|].
      destruct e; [by destruct Hout|]. destruct Hout as (_ & Hcn & id & Hid & Ha). split; [done|]. split; [done|].
      by exists dest, id.
    + destruct Hr as (-> & Ha & Hcnt). rewrite (Hcnt Sent), (Hcnt Refused), Hch. cbn. split_and!; done.
  - destruct e; [|done]. rewrite Ho, !Z.add_0_r. split_and!; done.
Qed.

(** ** The life of a link *)

Abbreviation self := (self cfg).

(** One operation of the link, at an instant. *)
Inductive step : link → link → Prop :=
| step_receive now cancelled m l : step l (receive cfg now cancelled m l)
| step_send cancelled to payload ch l : step l (SendCharged cancelled to payload ch l).2
| step_budget l : step l (Budget l).2
| step_recv l : step l (Recv l).2
| step_announce now cancelled l : step l (announce cfg now cancelled l).2
| step_keepalive now cancelled beat t l : step l (keepalive_tick cfg now cancelled beat t l).2
| step_lost l : step l (connection_lost l)
| step_connect now cancelled d l : (∀ c, d = Some c → transmitted (dl_conn c) = []) →
    step l (connect cfg now cancelled d l).2
| step_reconnect now cancelled delivered d backoff l : (∀ c, d = Some c → transmitted (dl_conn c) = []) →
    step l (reconnect cfg now cancelled delivered d backoff l).2
| step_close l : step l (Close l)
| step_elsewhere g g' l : gov l = Some g → gv_elsewhere g g' → step l (set_gov g' l).

Definition reachable (l : link) : Prop :=
  ∃ g r, (∀ g', g = Some g' → gv_ok g' ∧ charges g' = []) ∧ rtc step (fresh_link cfg g r) l.

(** Everybody in the table signed for the radio the table gives, and none is us. *)
Definition peers_ok (t : peerTable) : Prop :=
  consistent t ∧ ∀ id b, byID t !! id = Some b → announced id (b_radio b) (b_at b) ∧ id ≠ self.

(** A packet as the link sends them. *)
Definition proper (l : link) (p : MeshPacket) : Prop :=
  mp_Channel p = chanIdx l ∧ mp_HopLimit p = hopLimit l ∧ is_u32 (mp_Id p) ∧
  (mp_WantAck p = true → mp_To p ≠ broadcastAddr ∧ head (mp_Payload p) = Some FrameControl) ∧
  (if decide (own_frame p)
   then mp_To p = broadcastAddr ∧ ((∃ t, mp_Payload p = EncodeAnnounce (Key cfg) (own_radio l) t) ∨
                                   ∃ r, mp_Payload p = EncodeWhoIs r)
   else 0 < strlen (mp_Payload p) ≤ MaxPayload).

(** The channel the link is attached to, as its radio described it. *)
Definition attached (l : link) : Prop :=
  ∃ info ch, radio l = Some info ∧ policy l = FromRadioInfo (Some info) (Part97Override cfg) ∧
    ch ∈ Channels info ∧ ch_Name ch = Channel cfg ∧ ch_Role ch ≠ DISABLED ∧ chanIdx l = u32 (ch_Index ch) ∧
    (Restricted (policy l) = true → Encrypted ch = false).

Record link_ok (l : link) : Prop := mkLinkOk {
  ok_peers : peers_ok (peers l);
  ok_inbox : inbox l = [] ∨ Z.of_nat (length (inbox l)) ≤ InboxSize cfg;
  ok_proper : Forall (proper l) (air l);
  ok_paid : sizes (air l) `sublist_of` charged l;
  ok_gov : gov_ok l;
  ok_attached : conn l ≠ None → attached l;
  ok_connected : connected l = true → conn l ≠ None ∧ closed l = false
}.

(** ** Every operation keeps the invariant *)

Record static (l l' : link) : Prop := mkStatic {
  st_radio : radio l' = radio l;
  st_policy : policy l' = policy l;
  st_chanIdx : chanIdx l' = chanIdx l;
  st_hopLimit : hopLimit l' = hopLimit l;
  st_closed : closed l' = closed l;
  st_connected : connected l' = connected l;
  st_conn : conn l' = None ↔ conn l = None
}.
Lemma kept_static l l' : kept l l' → static l l'.
Proof. intros []. by constructor. Qed.

Lemma proper_static l l' p : static l l' → proper l p → proper l' p.
Proof. intros []. unfold proper, own_radio. by rewrite st_radio0, st_chanIdx0, st_hopLimit0. Qed.

(** An operation that sends [ps] and is charged for [cs]. *)
Lemma ok_step l l' ps cs :
  static l l' → peers_ok (peers l') → (inbox l' = [] ∨ Z.of_nat (length (inbox l')) ≤ InboxSize cfg) →
  air l' = air l ++ ps → Forall (proper l) ps → charged l' = charged l ++ cs → sizes ps `sublist_of` cs →
  (gov_ok l → gov_ok l') → link_ok l → link_ok l'.
Proof.
  intros Hst Hp Hi Ha Hps Hc Hs Hg []. constructor; [done|done|..].
  - rewrite Ha. apply Forall_app. split; eapply Forall_impl; try eassumption; intros p; by apply proper_static.
  - rewrite Ha, Hc. unfold sizes. rewrite filter_app, fmap_app. by apply sublist_app.
  - auto.
  - destruct Hst. rewrite st_conn0. unfold attached. by rewrite st_radio0, st_policy0, st_chanIdx0.
  - destruct Hst. rewrite st_conn0, st_closed0, st_connected0. done.
Qed.

Lemma ok_quiet l l' : kept l l' → air l' = air l → link_ok l → link_ok l'.
Proof.
  intros Hk Ha Hok. apply (ok_step l l' [] []); try done; [by apply kept_static|..].
  - rewrite (kept_peers _ _ Hk). apply Hok.
  - rewrite (kept_inbox _ _ Hk). apply Hok.
  - by rewrite app_nil_r.
  - by rewrite app_nil_r, (kept_charged _ _ Hk).
  - apply Hk.
Qed.

(** The link's own frames need no charge. *)
Lemma ok_own l l' e payload cancelled :
  kept l l' → outcome e broadcastAddr payload false cancelled l l' →
  (∃ t, payload = EncodeAnnounce (Key cfg) (own_radio l) t) ∨ (∃ r, payload = EncodeWhoIs r) →
  link_ok l → link_ok l'.
Proof.
  intros Hk Ho Hp Hok. destruct e as [e|]; [by apply (ok_quiet l); [|apply Ho|]|].
  destruct Ho as (_ & _ & id & Hid & Ha).
  assert (Hown : own_frame (outgoing broadcastAddr payload false id l)).
  { unfold own_frame. destruct Hp as [[t ->]|[r ->]]; [by left|by right]. }
  apply (ok_step l l' [outgoing broadcastAddr payload false id l] []); [by apply kept_static|..].
  - rewrite (kept_peers _ _ Hk). apply Hok.
  - rewrite (kept_inbox _ _ Hk). apply Hok.
  - done.
  - constructor; [|done]. split_and!; try done. by rewrite decide_True.
  - by rewrite app_nil_r, (kept_charged _ _ Hk).
  - unfold sizes. rewrite filter_cons_False by (by intros ?). done.
  - apply Hk.
  - done.
Qed.

Lemma announce_ok now cancelled l : link_ok l → link_ok (announce cfg now cancelled l).2.
Proof.
  unfold announce. destruct (counted_send _ _ _ _ _ l) as [e l'] eqn:Hs. apply counted_send_spec in Hs as (Hk & _ & Ho).
  apply (ok_own l l' e _ _ Hk Ho). left. by exists now.
Qed.

Lemma SendCharged_ok cancelled to payload ch l : link_ok l → link_ok (SendCharged cancelled to payload ch l).2.
Proof.
  intros Hok. destruct (SendCharged cancelled to payload ch l) as [e l'] eqn:Hs. cbn [snd].
  apply SendCharged_spec in Hs as [(dest & g & g' & ok & Hp & _ & Hg & _ & _ & Hch & Hk & Hgo & Hr)|(-> & _)]; [|done].
  assert (Hst : static l l') by (destruct Hk; by constructor).
  assert (Hpe : peers_ok (peers l')) by (rewrite (kept_peers _ _ Hk); apply Hok).
  assert (Hin : inbox l' = [] ∨ Z.of_nat (length (inbox l')) ≤ InboxSize cfg) by (rewrite (kept_inbox _ _ Hk); apply Hok).
  destruct ok.
  - destruct Hr as [Ho _]. destruct e as [e|].
    + apply (ok_step l l' [] [strlen payload]); try done; [|apply sublist_nil_l]. rewrite app_nil_r. apply Ho.
    + destruct Ho as (_ & _ & id & Hid & Ha). set (p := outgoing _ _ _ _ _) in Ha.
      assert (Hno : ¬ own_frame p).
      { unfold own_frame, p. cbn. destruct payload as [|t pl]; [tauto|]. cbn. by apply Hp. }
      apply (ok_step l l' [p] [strlen payload]); try done.
      * constructor; [|done]. unfold proper. rewrite decide_False by done. split_and!; try done; try apply Hp.
        cbn. intros [H1%negb_true_iff%Z.eqb_neq H2%bool_decide_eq_true]%andb_true_iff. done.
      * unfold sizes. rewrite filter_cons_True by done. done.
  - destruct Hr as (_ & Ha & _). apply (ok_step l l' [] []); try done; by rewrite app_nil_r.
Qed.

(** Changes the invariant does not see. *)
Lemma ok_set_gov g g' l :
  gov l = Some g → charges g' = charges g ∧ (gv_ok g → gv_ok g') → link_ok l → link_ok (set_gov g' l).
Proof.
  intros Hg [Hc Hk]. assert (charged (set_gov g' l) = charged l) by (unfold charged; cbn; by rewrite Hg).
  assert (gov_ok l → gov_ok (set_gov g' l)) by (unfold gov_ok; cbn; by rewrite Hg).
  apply ok_quiet; [by constructor|done].
Qed.
Lemma ok_add_stat k n l : link_ok l → link_ok (add_stat k n l).
Proof. apply ok_quiet; [by constructor|done]. Qed.
Lemma ok_set_rates a b l : link_ok l → link_ok (set_rates a b l).
Proof. apply ok_quiet; [by constructor|done]. Qed.
Lemma ok_set_rx t b l : link_ok l → link_ok (set_rx t b l).
Proof. apply ok_quiet; [by constructor|done]. Qed.
Lemma ok_set_inbox i l : (i = [] ∨ Z.of_nat (length i) ≤ InboxSize cfg) → link_ok l → link_ok (set_inbox i l).
Proof. intros Hi Hok. apply (ok_step l _ [] []); try done; rewrite ?app_nil_r; try done. apply Hok. Qed.
Create HintDb link discriminated.
#[local] Hint Resolve ok_add_stat ok_set_rates ok_set_rx announce_ok SendCharged_ok : link.

Lemma note_echo_ok (l : link) : link_ok l → link_ok (note_echo l).
Proof.
  unfold note_echo. destruct (gov l) as [g|] eqn:Hg; [|done]. destruct gv_NoteEcho as [f|] eqn:Hf; [|done].
  apply (ok_set_gov g); [done|]. by apply charges_NoteEcho.
Qed.

Lemma within_quota_spec from n (l : link) ok l' :
  within_quota from n l = (ok, l') → (∃ g, l' = set_gov g l) ∨ l' = l.
Proof.
  unfold within_quota. destruct (gov l), gv_NoteInbound as [f|]; try (by intros [= _ <-]; right).
  destruct (f _ _ _) as [b g]. intros [= _ <-]. left. by exists g.
Qed.
Lemma within_quota_ok from n (l : link) : link_ok l → link_ok (within_quota from n l).2.
Proof.
  unfold within_quota. destruct (gov l) as [g|] eqn:Hg; [|done]. destruct gv_NoteInbound as [f|] eqn:Hf; [|done].
  pose proof (charges_NoteInbound f g from n Hf) as Hc. destruct (f g from n) as [b g'].
  by apply (ok_set_gov g).
Qed.

Lemma learn_peers_ok a now t :
  peers_ok t → announced (an_ID a) (an_Radio a) (an_At a) → an_ID a ≠ self → peers_ok (learn a now t).2.
Proof.
  intros [Hc Hp] Ha Hs. destruct (learn a now t) as [e t'] eqn:Hl. cbn [snd]. split; [by eapply learn_consistent|].
  destruct e as [e|]; [by apply learn_error in Hl as ->|].
  destruct (learn_ok _ _ _ _ Hl Hc) as [Hid _]. intros id b. rewrite Hid.
  case_decide as He; [|case_decide; [done|apply Hp]]. intros [= <-]. by subst.
Qed.

Lemma onAnnounce_ok now payload from l : link_ok l → link_ok (onAnnounce cfg now payload from l).
Proof.
  intros Hok. unfold onAnnounce. destruct (DecodeAnnounce payload from) as [a|] eqn:Ha; [|done].
  case_decide as Hs; [done|]. apply DecodeAnnounce_announced in Ha as [_ Ha].
  apply (ok_step l _ [] []); try done; rewrite ?app_nil_r; try done; [|apply Hok].
  apply learn_peers_ok; [apply Hok|done..].
Qed.

Lemma onWhoIs_ok now payload own l : link_ok l → link_ok (onWhoIs cfg now payload own l).
Proof.
  intros Hok. unfold onWhoIs. destruct (DecodeWhoIs payload); [|done]. destruct (negb _); [done|].
  destruct (allow _ _ _) as [[] a']; cbn [negb]; auto with link.
Qed.

Lemma askWhoIs_ok now r l : link_ok l → link_ok (askWhoIs now r l).
Proof.
  intros Hok. unfold askWhoIs. destruct (negb _); [done|]. destruct (allow r now (asks l)) as [[] a]; cbn [negb]; [|auto with link].
  destruct (sendFrame _ _ _ _ _) as [e l'] eqn:Hs. apply sendFrame_spec in Hs as (Hk & _ & Ho).
  apply (ok_own _ _ e _ _ Hk Ho); [|auto with link]. right. by exists r.
Qed.

Lemma hand_up_ok from payload l : link_ok l → link_ok (hand_up cfg from payload l).
Proof.
  intros Hok. unfold hand_up. cbn [inbox add_stat]. destruct (Z.ltb_spec (Z.of_nat (length (inbox l))) (InboxSize cfg)); [|auto with link].
  apply ok_set_inbox; [|auto with link]. right. rewrite length_app. cbn. lia.
Qed.
#[local] Hint Resolve note_echo_ok within_quota_ok onAnnounce_ok onWhoIs_ok askWhoIs_ok hand_up_ok : link.

Lemma deliver_ok now p l : link_ok l → link_ok (deliver cfg now p l).
Proof.
  intros Hok. unfold deliver. destruct (rx_Decoded p) as [[port payload]|]; [|auto with link].
  repeat (destruct (negb _); [by auto with link|]). destruct (_ =? _); [auto with link|].
  destruct payload as [|t payload]; [done|]. do 2 (case_decide; [by auto with link|]).
  destruct (idFor _ _) as [from|]; [|auto with link].
  pose proof (within_quota_ok from (strlen (t :: payload)) l Hok). destruct (within_quota _ _ _) as [[] l1]; auto with link.
Qed.
#[local] Hint Resolve deliver_ok : link.

Lemma channelIndex_Some info name idx :
  channelIndex info name = Some idx →
  ∃ ch, ch ∈ Channels info ∧ ch_Name ch = name ∧ ch_Role ch ≠ DISABLED ∧ idx = u32 (ch_Index ch).
Proof.
  unfold channelIndex. destruct (list_find _ _) as [[i ch]|] eqn:Hf; [|done]. intros [= <-].
  apply list_find_Some in Hf as (Hl & [Hr Hn] & _). exists ch. split_and!; try done. by eapply list_elem_of_lookup_2.
Qed.

Lemma attach_ok c info idx hop l :
  transmitted c = [] → closed l = false → channelIndex info (Channel cfg) = Some idx →
  CheckChannel (FromRadioInfo (Some info) (Part97Override cfg)) (Channels info) (Channel cfg) = None →
  link_ok l → link_ok (attach c info (FromRadioInfo (Some info) (Part97Override cfg)) idx hop l).
Proof.
  intros Ha Hcl Hi Hch []. constructor; cbn; try done; unfold air; cbn; rewrite ?Ha; try done; [apply sublist_nil_l|].
  intros _. apply channelIndex_Some in Hi as (ch & Hin & Hn & Hr & ->). exists info, ch. split_and!; try done.
  intros Hres. by apply (proj1 (CheckChannel_None _ _ _) Hch).
Qed.

Lemma deliver_all_ok now ps l : link_ok l → link_ok (foldl (λ l p, deliver cfg now p l) l ps).
Proof. revert l. induction ps; cbn; auto with link. Qed.

Lemma ok_set_ids r l : link_ok l → link_ok (set_ids r l).
Proof. apply ok_quiet; [by constructor|done]. Qed.

Lemma connect_ok now cancelled d l :
  (∀ c, d = Some c → transmitted (dl_conn c) = []) → link_ok l → link_ok (connect cfg now cancelled d l).2.
Proof.
  intros Hd Hok. unfold connect. destruct d as [d|]; [|done]. destruct (next_uint64 (packetIDs l)) as [id r].
  apply (ok_set_ids r) in Hok. destruct (negb _); [done|]. destruct (Configure _ _) as [[[res logs] pending] rest].
  destruct res as [info|]; [|done]. destruct (channelIndex info (Channel cfg)) as [idx|] eqn:Hi; [|done].
  destruct (CheckChannel _ _ _) as [slot|] eqn:Hch; [done|]. destruct (closed _) eqn:Hcl; [done|].
  cbn [snd]. apply deliver_all_ok, announce_ok, ok_set_rx. by apply attach_ok; [apply Hd| | | |].
Qed.

Lemma ok_disconnect l l' :
  conn l' = None → connected l' = false → peers l' = peers l → inbox l' = inbox l →
  (gov_ok l → gov_ok l') → link_ok l → link_ok l'.
Proof.
  intros Hc Hn Hp Hi Hg []. constructor; unfold air; rewrite ?Hc, ?Hn, ?Hp, ?Hi; try done; [apply sublist_nil_l|auto].
Qed.

Lemma step_ok l l' : step l l' → link_ok l → link_ok l'.
Proof.
  intros Hs Hok. destruct Hs.
  - unfold receive. destruct m; auto with link. destruct cancelled; auto with link.
  - auto with link.
  - unfold Budget. destruct (gov l) as [g|] eqn:Hg; [|done]. pose proof (charges_Budget g) as Hc.
    destruct (gv_Budget g) as [b g']. by apply (ok_set_gov g).
  - unfold Recv. destruct (inbox l) as [|d rest] eqn:Hi; [done|]. apply ok_set_inbox; [|done]. right.
    destruct (ok_inbox _ Hok) as [H|H]; rewrite Hi in H; [done|]. cbn in H. lia.
  - auto with link.
  - unfold keepalive_tick. cbv zeta. destruct (_ && _); [done|]. destruct (rxStalled _ _ _); [by cbn; auto with link|].
    case_match; cbn [snd]; auto with link.
  - by apply (ok_disconnect l).
  - by apply connect_ok.
  - unfold reconnect. pose proof (connect_ok now cancelled d l H Hok) as Hc.
    destruct (connect _ _ _ _ _) as [[e|] l']; cbn [snd] in *; auto with link.
  - unfold Close. destruct (closed l); [done|]. by apply (ok_disconnect l).
  - apply (ok_set_gov g); [done| |done]. by apply charges_elsewhere.
Qed.

Lemma reachable_ok l : reachable l → link_ok l.
Proof.
  intros (g & r & Hg & Hs). assert (Hok : link_ok (fresh_link cfg g r)).
  { constructor; cbn; try done; try (by left); try apply sublist_nil_l. unfold gov_ok. cbn.
    destruct g as [g|]; [by apply Hg|done]. }
  revert Hok. induction Hs; eauto using step_ok.
Qed.

(** In every state a link can reach, whatever arrived, was sent and was lost in
    between, everything it put on the air on its current connection went out on the
    attached channel with the attached hop limit; each frame is either its own
    announcement for its own radio or its own question, both broadcast without
    acknowledgement, or a frame of the layer above of at most [MaxPayload] bytes;
    and each of the latter has been charged to the governor, once, at its size. *)
Theorem nothing_unpaid l :
  reachable l → Forall (proper l) (air l) ∧ sizes (air l) `sublist_of` charged l.
Proof. intros Hr%reachable_ok. split; apply Hr. Qed.


(** ** Receiving *)

(** What a packet must be for its payload to go up as [from]'s. *)
Definition acceptable (p : RxPacket) (from : NodeID) (payload : bytes) (l : link) : Prop :=
  rx_Decoded p = Some (PRIVATE_APP, payload) ∧ for_us p l = true ∧ rx_From p ≠ own_radio l ∧
  (∃ t, head payload = Some t ∧ ¬ owned t) ∧ idFor (peers l) (rx_From p) = Some from.

Lemma counted_send_inbox k cancelled to payload wantAck (l : link) :
  inbox (counted_send k cancelled to payload wantAck l).2 = inbox l.
Proof using HCL HVL. destruct (counted_send _ _ _ _ _ l) as [e l'] eqn:Hs. by apply counted_send_spec in Hs as ([] & _). Qed.

Lemma own_handlers_inbox now payload r (l : link) :
  inbox (note_echo l) = inbox l ∧ inbox (onAnnounce cfg now payload r l) = inbox l ∧
  inbox (onWhoIs cfg now payload r l) = inbox l ∧ inbox (askWhoIs now r l) = inbox l.
Proof using HCL HVL.
  unfold note_echo, onAnnounce, onWhoIs, askWhoIs, announce. split_and!.
  - by destruct (gov l), gv_NoteEcho.
  - destruct (DecodeAnnounce _ _); [|done]. by case_decide.
  - destruct (DecodeWhoIs _); [|done]. destruct (negb _); [done|]. destruct (allow _ _ _) as [[] ?]; cbn [negb]; [|done].
    by rewrite counted_send_inbox.
  - destruct (negb _); [done|]. destruct (allow _ _ _) as [[] a]; cbn [negb]; [|done].
    destruct (sendFrame _ _ _ _ _) as [e l'] eqn:Hs. by apply sendFrame_spec in Hs as ([] & _).
Qed.

Lemma deliver_inbox now p (l : link) :
  (∃ from payload, acceptable p from payload l ∧
     inbox (deliver cfg now p l) =
       if (within_quota from (strlen payload) l).1 && (Z.of_nat (length (inbox l)) <? InboxSize cfg)
       then inbox l ++ [BsmpInbox.mkDatagram from payload] else inbox l) ∨
  ((∀ from payload, ¬ acceptable p from payload l) ∧ inbox (deliver cfg now p l) = inbox l).
Proof using HCL HVL.
  unfold acceptable, deliver. destruct (rx_Decoded p) as [[port payload]|]; [|right; split; [by intros ?? (? & _)|done]].
  destruct (Z.eqb_spec port PRIVATE_APP) as [->|Hp]; cbn [negb]; [|right; split; [by intros ?? ([= ?] & _)|done]].
  destruct (for_us p l); cbn [negb]; [|right; split; [by intros ?? (_ & ? & _)|done]].
  pose proof (own_handlers_inbox now payload (rx_From p) l) as (He & Ha & _ & _).
  pose proof (own_handlers_inbox now payload (own_radio l) l) as (_ & _ & Hw & _).
  destruct (Z.eqb_spec (rx_From p) (own_radio l)) as [Hf|Hf]; [right; split; [by intros ?? (_ & _ & ? & _)|done]|].
  destruct payload as [|t payload]; [right; split; [by intros ?? ([= <-] & _ & _ & (? & ? & _) & _)|done]|].
  case_decide as Hta; [right; split; [intros ?? ([= <-] & _ & _ & (? & [= <-] & Ho) & _); apply Ho; by left|done]|].
  case_decide as Htw; [right; split; [intros ?? ([= <-] & _ & _ & (? & [= <-] & Ho) & _); apply Ho; by right|done]|].
  destruct (idFor (peers l) (rx_From p)) as [from|] eqn:Hid.
  2:{ right. split; [by intros ?? (_ & _ & _ & _ & ?)|]. by rewrite (proj2 (proj2 (proj2 (own_handlers_inbox now [] _ _)))). }
  left. exists from, (t :: payload). split; [split_and!; try done; exists t; split; [done|intros [|]; done]|].
  destruct (within_quota from _ l) as [ok l1] eqn:Hq. cbn [fst].
  assert (Hi : inbox l1 = inbox l) by (by apply within_quota_spec in Hq as [[g ->] | ->]).
  destruct ok; cbn [andb]; [|done]. unfold hand_up. cbn [inbox add_stat]. rewrite Hi.
  by destruct (_ <? _).
Qed.

(** C32: a datagram is handed up only under the name its sender proved. In every
    reachable state, delivering a packet adds at most one datagram to the inbox; it
    is the payload of a packet of our port, on our channel or encrypted to our own
    key, from another radio, not a frame of the link's own kinds, and its sender is
    another node whose key signed that it is at the very radio the packet came from
    and that holds that radio now. Conversely, such a packet is handed up
    whenever its sender is within quota and the inbox has room, and the inbox never
    holds more than its size. *)
Theorem attributed_delivery now p l :
  reachable l → 0 ≤ InboxSize cfg →
  let l' := deliver cfg now p l in
  Z.of_nat (length (inbox l')) ≤ InboxSize cfg ∧
  (inbox l' = inbox l ∨ ∃ from payload at_, acceptable p from payload l ∧
     radioFor (peers l) from = Some (rx_From p) ∧ announced from (rx_From p) at_ ∧ from ≠ self ∧
     inbox l' = inbox l ++ [BsmpInbox.mkDatagram from payload]) ∧
  (∀ from payload, acceptable p from payload l → (within_quota from (strlen payload) l).1 = true →
     Z.of_nat (length (inbox l)) < InboxSize cfg →
     inbox l' = inbox l ++ [BsmpInbox.mkDatagram from payload]).
Proof using HCL HVL.
  intros Hr%reachable_ok Hsz. cbv zeta. split.
  { destruct (ok_inbox _ (deliver_ok now p l Hr)) as [->|]; [done|lia]. }
  destruct (deliver_inbox now p l) as [(from & payload & Hacc & Hi)|[Hno Hi]]; rewrite Hi.
  - split.
    + destruct (_ && _); [|by left]. right. pose proof Hacc as (_ & _ & _ & _ & Hid).
      destruct (ok_peers _ Hr) as [Hc Hp]. apply Hc in Hid as Hrad. unfold radioFor in Hrad.
      destruct (byID (peers l) !! from) as [b|] eqn:Hb; [|done]. injection Hrad as Hrad.
      destruct (Hp from b Hb) as [Han Hne]. rewrite Hrad in Han. exists from, payload, (b_at b). split_and!; try done.
      unfold radioFor. by rewrite Hb, <- Hrad.
    + intros from' payload' Hacc' Hq Hroom. destruct Hacc as (H1 & _ & _ & _ & H2), Hacc' as (H1' & _ & _ & _ & H2').
      rewrite H1 in H1'. rewrite H2 in H2'. injection H1' as <-. injection H2' as <-.
      by rewrite Hq, (proj2 (Z.ltb_lt _ _) Hroom).
  - split; [by left|]. intros from payload Hacc. by destruct (Hno from payload).
Qed.
End facts.

(** ** Coming up *)

(** The least time [n] retries wait, when the first waits [b]. *)
Fixpoint waited (n : nat) (b : Z) : Z :=
  match n with O => 0 | S n' => b + waited n' (next_retry b) end.

Lemma retry_cap_pos : 0 < retry_cap.
Proof. done. Qed.

Lemma next_retry_bounds b : 0 < b → Z.min b retry_cap ≤ next_retry b ≤ retry_cap.
Proof. intros. unfold next_retry. destruct (Z.ltb_spec retry_cap (b * 2)); lia. Qed.

Lemma waited_linear n b : 0 < b → Z.of_nat n * Z.min b retry_cap ≤ waited n b.
Proof.
  revert b. induction n as [|n IH]; intros b Hb; cbn [waited]; [lia|].
  pose proof (next_retry_bounds b Hb). assert (0 < next_retry b) by (pose proof retry_cap_pos; lia).
  specialize (IH (next_retry b) ltac:(done)). rewrite Nat2Z.inj_succ, Z.mul_succ_l.
  assert (Z.of_nat n * Z.min b retry_cap ≤ Z.of_nat n * Z.min (next_retry b) retry_cap)
    by (apply Z.mul_le_mono_nonneg_l; lia). lia.
Qed.

Lemma waited_nonneg n b : 0 < b → 0 ≤ waited n b.
Proof.
  intros Hb. pose proof (waited_linear n b Hb). pose proof retry_cap_pos.
  assert (0 ≤ Z.of_nat n * Z.min b retry_cap) by (apply Z.mul_nonneg_nonneg; lia). lia.
Qed.

Lemma waited_six n : 45 * Second ≤ waited (6 + n) Second.
Proof.
  cbn [Nat.add waited].
  assert (Hb : 0 ≤ waited n (next_retry (next_retry (next_retry (next_retry (next_retry (next_retry Second)))))))
    by (apply waited_nonneg; by vm_compute).
  assert (Second + (next_retry Second + (next_retry (next_retry Second) + (next_retry (next_retry (next_retry Second)) +
    (next_retry (next_retry (next_retry (next_retry Second))) +
     (next_retry (next_retry (next_retry (next_retry (next_retry Second)))))))))
    = 63 * Second) by reflexivity. unfold Second in *. lia.
Qed.

(** How a run of attempts from number [n] ends after [k] more retries. *)
Definition ends_well (n k : nat) (attempt : nat → Z * option connect_error) (ends : option Z) (deadline t b : Z)
    (e : option connect_error) (t' : Z) : Prop :=
  (attempt (n + k)%nat).2 = e ∧
  (∀ i, (n ≤ i < n + k)%nat → ∃ err, (attempt i).2 = Some err ∧ retryable err = true) ∧
  (k ≠ O → t + waited k b < deadline) ∧
  match e with
  | None => True
  | Some err => retryable err = false ∨ ended ends t' = true ∨ deadline ≤ t' + Z.max b retry_cap
  end.

Lemma connectWithRetry_spec attempt ends deadline fuel n t b :
  (∀ i, 0 ≤ (attempt i).1) → 0 < b → fuel ≠ O → deadline - t < Z.of_nat fuel * Z.min b retry_cap →
  ∃ e t' k, connectWithRetry fuel n attempt ends deadline t b = Some (e, t', S (n + k)) ∧
    ends_well n k attempt ends deadline t b e t'.
Proof.
  intros Hd. revert n t b. induction fuel as [|fuel IH]; intros n t b Hb Hf Hw; [done|]. clear Hf. cbn [connectWithRetry].
  pose proof (Hd n) as Hdn. destruct (attempt n) as [d e] eqn:Ha. cbn [fst] in Hdn.
  assert (Hstop : ∀ e' t', e = e' → match e' with None => True | Some err =>
      retryable err = false ∨ ended ends t' = true ∨ deadline ≤ t' + Z.max b retry_cap end →
    ∃ e0 t0 k, Some (e', t', S n) = Some (e0, t0, S (n + k)) ∧ ends_well n k attempt ends deadline t b e0 t0).
  { intros e' t' -> Hend. exists e', t', O. rewrite Nat.add_0_r. split; [done|]. unfold ends_well.
    rewrite Nat.add_0_r, Ha. split_and!; try done. intros i Hi. lia. }
  destruct e as [err|]; [|by apply Hstop].
  destruct (retryable err) eqn:Hre; cbn [negb orb]; [|apply Hstop; auto].
  destruct (ended ends (t + d)) eqn:He; cbn [orb]; [apply Hstop; auto|].
  destruct (Z.ltb_spec (t + d + b) deadline) as [Hlt|Hge]; cbn [negb]; [|apply Hstop; [done|right; right; lia]].
  destruct (ended ends (t + d + b)) eqn:He2.
  { apply Hstop; [done|right; left]. unfold ended in *. destruct ends as [x|]; [|done]. cbn. apply Z.leb_refl. }
  pose proof (next_retry_bounds b Hb) as Hn. assert (Hnp : 0 < next_retry b) by (pose proof retry_cap_pos; lia).
  rewrite Nat2Z.inj_succ, Z.mul_succ_l in Hw.
  assert (Hmono : Z.of_nat fuel * Z.min b retry_cap ≤ Z.of_nat fuel * Z.min (next_retry b) retry_cap)
    by (apply Z.mul_le_mono_nonneg_l; lia).
  destruct (IH (S n) (t + d + b) (next_retry b) Hnp) as (e' & t' & k & Hr & H1 & H2 & H3 & H4); [|lia|].
  { intros ->. cbn in Hw. lia. }
  exists e', t', (S k). replace (n + S k)%nat with (S n + k)%nat by lia. split; [done|]. unfold ends_well.
  replace (n + S k)%nat with (S n + k)%nat by lia. split_and!; [done|..].
  - intros i Hi. destruct (decide (i = n)) as [->|]; [rewrite Ha; by exists err|]. apply H2. lia.
  - intros _. cbn [waited]. destruct k as [|k]; [cbn; lia|]. specialize (H3 ltac:(done)). lia.
  - destruct e' as [err'|]; [|done]. destruct H4 as [|[|]]; [by left|by right; left|right; right; lia].
Qed.

(** The first connection is settled in bounded time. Whatever each attempt takes
    and answers, [connectWithRetry] returns: it succeeds with the first attempt
    that succeeds, or reports the last attempt's error, and then that error is not
    worth retrying, or the caller's context has ended, or no further wait fits the
    window; every earlier attempt failed in a way worth retrying. The waits double
    up to a minute and fit the window, so there are at most [window/backoff + 1]
    attempts; a second's backoff and the default window of 45 seconds allow six. *)
Theorem connectWithRetry_terminates attempt ends start window b :
  (∀ i, 0 ≤ (attempt i).1) → 0 < b → 0 ≤ window →
  let fuel := S (Z.to_nat (window / Z.min b retry_cap)) in
  ∃ e t' k, connectWithRetry fuel O attempt ends (start + window) start b = Some (e, t', S k) ∧
    ends_well O k attempt ends (start + window) start b e t' ∧
    Z.of_nat k * Z.min b retry_cap ≤ window ∧ (b = Second → window = 45 * Second → (k ≤ 5)%nat).
Proof.
  intros Hd Hb Hw. cbv zeta.
  assert (Hm : 0 < Z.min b retry_cap) by (pose proof retry_cap_pos; lia).
  destruct (connectWithRetry_spec attempt ends (start + window) (S (Z.to_nat (window / Z.min b retry_cap))) O start b Hd Hb)
    as (e & t' & k & Hr & Hew).
  - done.
  - pose proof (Z.mul_succ_div_gt window (Z.min b retry_cap) Hm). pose proof (Z.div_pos window _ Hw Hm).
    rewrite Nat2Z.inj_succ, Z2Nat.id by done. lia.
  - exists e, t', k. cbn [Nat.add] in Hr. split; [done|]. split; [done|].
    destruct Hew as (_ & _ & Hk & _). pose proof (waited_linear k b Hb) as Hl. split.
    + destruct k; [lia|]. specialize (Hk ltac:(done)). lia.
    + intros -> ->. destruct (decide (k ≤ 5)%nat) as [|Hgt]; [done|]. exfalso.
      specialize (Hk ltac:(lia)). replace k with (6 + (k - 6))%nat in Hk by lia.
      pose proof (waited_six (k - 6)). lia.
Qed.

(** ** Noticing a dead radio *)

Section watchdog.
Context {C CE V R : Type} `{HB : Blake3, HE : Ed25519, HC : Conn C CE, HV : LinkGovernor V, HR : Uint64Source R}.
Context (cfg : Config).

Lemma watchdogTick_bounds :
  0 < watchdogTick cfg ∧ (0 < RxTimeout cfg → watchdogTick cfg ≤ Z.max Second (RxTimeout cfg / 3)).
Proof.
  unfold watchdogTick. assert (0 < Second) by done.
  destruct (Z.ltb_spec 0 (RxTimeout cfg)), (Z.ltb_spec (RxTimeout cfg / 3) (HeartbeatInterval cfg)); cbn [andb];
    repeat match goal with |- context [?x <=? 0] => destruct (Z.leb_spec x 0) end; split; lia.
Qed.

Lemma announce_lastRx now cancelled (l : Link C V R) : lastRx (announce cfg now cancelled l).2 = lastRx l.
Proof.
  unfold announce, counted_send, sendFrame. destruct (conn _); [|done]. destruct cancelled; [done|].
  destruct (next_uint64 _) as [id r], (conn_Send _ _) as [c1 []]; done.
Qed.

(** One wake-up: it goes on with the same last message, or it stops for a reason. *)
Lemma keepalive_tick_spec now cancelled beat t (l : Link C V R) :
  let '(k, l') := keepalive_tick cfg now cancelled beat t l in
  lastRx l' = lastRx l ∧
  match k with
  | KeepGoing _ => rxStalled cfg now l = false
  | HeartbeatFailed => beat = false
  | Stalled => rxStalled cfg now l = true ∧ counters l' RxStalls = counters l RxStalls + 1
  end.
Proof.
  unfold keepalive_tick. cbv zeta. destruct ((_ <=? 0) && negb beat) eqn:Hb.
  { apply andb_true_iff in Hb as [_ Hb%negb_true_iff]. done. }
  destruct (rxStalled cfg now l) eqn:Hs; [done|]. destruct (untilAnnounce t - watchdogTick cfg <=? 0); [|done]. by rewrite announce_lastRx.
Qed.

Lemma keepalive_spec n now beat t (l : Link C V R) :
  0 < RxTimeout cfg → lastRx l ≠ 0 → now - lastRx l ≤ RxTimeout cfg →
  RxTimeout cfg < now + Z.of_nat n * watchdogTick cfg - lastRx l →
  ∃ k t' l', keepalive cfg n now beat t l = (Some (k, t'), l') ∧ t' ≤ lastRx l + RxTimeout cfg + watchdogTick cfg ∧
    (k = HeartbeatFailed ∧ beat t' = false ∨ k = Stalled ∧ RxTimeout cfg < t' - lastRx l).
Proof.
  intros Hrx Hl. revert now t l Hl. induction n as [|n IH]; intros now t l Hl Hnow Hn; [cbn in Hn; lia|].
  cbn [keepalive]. pose proof (keepalive_tick_spec (now + watchdogTick cfg) false (beat (now + watchdogTick cfg)) t l) as Hk.
  destruct (keepalive_tick _ _ _ _ _ _) as [k l']. destruct Hk as [Hlr Hk].
  assert (Hst : rxStalled cfg (now + watchdogTick cfg) l = (RxTimeout cfg <? now + watchdogTick cfg - lastRx l)).
  { unfold rxStalled. by rewrite (proj2 (Z.leb_gt _ _) Hrx), (proj2 (Z.eqb_neq _ _) Hl). }
  rewrite Hst in Hk. destruct k as [t1| |].
  - apply Z.ltb_ge in Hk. rewrite <- Hlr in *. rewrite Nat2Z.inj_succ, Z.mul_succ_l in Hn.
    apply IH; try done. lia.
  - exists HeartbeatFailed, (now + watchdogTick cfg), l'. split_and!; try done; [lia|by left].
  - destruct Hk as [Hk%Z.ltb_lt _]. exists Stalled, (now + watchdogTick cfg), l'. split_and!; try done; [lia|by right].
Qed.

(** A radio that goes silent is noticed, and only then. On a connection from
    which nothing has come since [lastRx], [keepalive] stops within the receive
    timeout plus one wake-up, itself at most a third of the timeout or a second:
    either a heartbeat could not be written, or the silence had really lasted
    longer than the timeout. *)
Theorem silence_is_noticed now beat t (l : Link C V R) :
  0 < RxTimeout cfg → lastRx l ≠ 0 → 0 ≤ now - lastRx l ≤ RxTimeout cfg →
  let n := S (Z.to_nat (RxTimeout cfg / watchdogTick cfg)) in
  ∃ k t' l', keepalive cfg n now beat t l = (Some (k, t'), l') ∧
    t' - lastRx l ≤ RxTimeout cfg + Z.max Second (RxTimeout cfg / 3) ∧
    (k = HeartbeatFailed ∧ beat t' = false ∨ k = Stalled ∧ RxTimeout cfg < t' - lastRx l).
Proof.
  intros Hrx Hl Hnow. cbv zeta. destruct watchdogTick_bounds as [Hp Hb]. specialize (Hb Hrx).
  destruct (keepalive_spec (S (Z.to_nat (RxTimeout cfg / watchdogTick cfg))) now beat t l) as (k & t' & l' & Hk & Ht & Hr); try done; [lia| |].
  - pose proof (Z.mul_succ_div_gt (RxTimeout cfg) _ Hp). rewrite Nat2Z.inj_succ, Z2Nat.id by (apply Z.div_pos; lia). lia.
  - exists k, t', l'. split_and!; [done|lia|done].
Qed.
End watchdog.
