(* ===== verification/MeshStack.v ===== *)
(** * The stack: an outbox over the mesh link over the airtime governor

    MeshLink's interfaces discharged by the components of this development: the
    governor of Governor, with its clock, as the link's governor, and the link as
    the transmitter of BsmpOutbox. The theorems of the parts then hold of the
    whole. *)

From stdpp Require Import relations.
From S2P Require Import Prelude Binary Float64 Identity Schedule.
From S2P Require Records Bundle Fountain FountainCodec GossipEngine.
From S2P Require Airtime Governor BsmpOutbox MeshFrame.
From S2P Require Import MeshPeers MeshSession MeshLink MeshLinkFacts.

(** ** The governor under the link *)

(** A governor, the instant its clock shows, and when it let what sizes out. *)
Record metered := mkMetered { clock : Z; governor : Governor.Governor; spent : list (Z * Z) }.

Section metered.
Context (tod : Z → Z).

Definition put (g : Governor.Governor) (m : metered) : metered := mkMetered (clock m) g (spent m).

(** The link's governor.Governor, an EchoWatcher and an InboundLimiter too. *)
#[export] Instance metered_governor : LinkGovernor metered := {
  gv_AllowCharge m n ch w :=
    let '(e, g) := Governor.AllowCharge tod (clock m) n ch w (governor m) in
    match e with
    | None => (true, mkMetered (clock m) g (spent m ++ [(clock m, n)]))
    | Some _ => (false, put g m)
    end;
  gv_Budget m := let '(b, g) := Governor.Governor_Budget (clock m) (governor m) in (b, put g m);
  gv_NoteEcho := Some (λ m, put (Governor.NoteEcho (governor m)) m);
  gv_NoteInbound := Some (λ m from n, let '(ok, g) := Governor.NoteInbound (clock m) from n (governor m) in (ok, put g m))
}.

(** What may happen to it while the link is not looking: its clock goes on, and
    it is fed telemetry, a roster size or shares. *)
Definition elsewhere (m m' : metered) : Prop :=
  clock m ≤ clock m' ∧ spent m' = spent m ∧
  (governor m' = governor m ∨ ∃ e, Governor.step tod (clock m') (governor m) [] e (governor m')).

Context (c : Governor.Config) (Hpre : Governor.cfg_Preset c ∈ Airtime.presets).

Definition transmissions (m : metered) : list Governor.txRecord :=
  (λ x, Governor.mkTx x.1 (Airtime.Packet (Governor.cfg_Preset c) x.2)) <$> spent m.

(** It is in a reachable state of Governor, having transmitted just that. *)
Definition alive (m : metered) : Prop :=
  ∃ t e, t ≤ clock m ∧ Governor.life tod c (transmissions m) t e (governor m).

Lemma alive_preset m : alive m → Governor.cfg_Preset (Governor.cfg (governor m)) = Governor.cfg_Preset c.
Proof using Hpre. intros (t & e & _ & Hl). by apply Governor.life_Inv in Hl as [[? _] _]. Qed.

Lemma alive_step m m' e :
  clock m ≤ clock m' → spent m' = spent m → Governor.step tod (clock m') (governor m) [] e (governor m') →
  alive m → alive m'.
Proof.
  intros Hc Hs Hst (t & e0 & Ht & Hl). exists (clock m'), (e0 + e). split; [done|].
  replace (transmissions m') with (transmissions m ++ []) by (unfold transmissions; by rewrite Hs, app_nil_r).
  eapply Governor.life_step; [exact Hl|lia|done].
Qed.

Lemma alive_allow m n ch w : 0 < n ≤ MaxPayload → alive m → alive (gv_AllowCharge m n ch w).2.
Proof using Hpre.
  intros Hn Ha. pose proof (alive_preset m Ha) as Hp. cbn [gv_AllowCharge metered_governor].
  destruct (Governor.AllowCharge tod (clock m) n ch w (governor m)) as [e g] eqn:He. cbn [snd].
  destruct e as [why|].
  - apply (alive_step m _ (Governor.earned (clock m) (governor m))); cbn; try done. by eapply Governor.step_refused.
  - destruct Ha as (t & e0 & Ht & Hl). exists (clock m), (e0 + Governor.earned (clock m) (governor m)).
    split; [done|]. cbn. unfold transmissions. cbn. rewrite fmap_app. eapply Governor.life_step; [exact Hl|done|].
    cbn. rewrite <- Hp. apply (Governor.step_allow tod _ _ n ch w); [|done].
    change MaxPayload with 225 in Hn. lia.
Qed.

#[export] Instance metered_log : GovernorLog metered.
Proof using c Hpre.
  refine {| charges m := (spent m).*2; gv_ok := alive; gv_elsewhere := elsewhere |}.
  - intros m n ch w ok m' Hn Ha. pose proof (alive_allow m n ch w Hn) as Hal. rewrite Ha in Hal. split; [|done].
    revert Ha. cbn [gv_AllowCharge metered_governor]. destruct (Governor.AllowCharge _ _ _ _ _ _) as [[e|] g]; intros [= <- <-]; cbn; [done|].
    by rewrite fmap_app.
  - intros m. cbn [gv_Budget metered_governor]. destruct (Governor.Governor_Budget (clock m) (governor m)) as [b g] eqn:Hb. cbn [snd]. split; [done|].
    intros Ha. eapply (alive_step m); [done..| |exact Ha]. cbn.
    replace g with (Governor.Governor_Budget (clock m) (governor m)).2 by (by rewrite Hb). apply Governor.step_budget.
  - intros f m [= <-]. split; [done|]. intros Ha. eapply (alive_step m); [done..| |exact Ha]. apply Governor.step_echo.
  - intros f m from n [= <-]. destruct (Governor.NoteInbound (clock m) from n (governor m)) as [ok g] eqn:Hb. cbn [snd]. split; [done|].
    intros Ha. eapply (alive_step m); [done..| |exact Ha]. cbn.
    replace g with (Governor.NoteInbound (clock m) from n (governor m)).2 by (by rewrite Hb). apply Governor.step_inbound.
  - intros m m' (Hc & Hs & Hst). split; [by rewrite Hs|]. intros Ha.
    destruct Hst as [Hg|[e Hst]]; [|by eapply (alive_step m)].
    destruct Ha as (t & e & Ht & Hl). exists t, e. split; [lia|]. unfold transmissions in *. by rewrite Hs, Hg.
Defined.
End metered.

(** ** The link under the outbox *)

Section stack.
Context {C CE R : Type} `{HB : Blake3, HE : Records.Ed25519, HZ : Bundle.Zstd, HC : Conn C CE, HR : Uint64Source R}.
Context `{HCL : !ConnLog C CE} (Log : float64 → float64).
Context (cfg : Config) (tod : Z → Z) (c : Governor.Config) (Hpre : Governor.cfg_Preset c ∈ Airtime.presets).
#[local] Instance the_governor : LinkGovernor metered := metered_governor tod.
#[local] Instance the_log : GovernorLog metered := metered_log tod c Hpre.

Abbreviation link := (Link C metered R).

(** What the outbox's [errors.Is] tests see of the link's errors. *)
Definition as_link_error (e : error CE) : BsmpOutbox.link_error (error CE) :=
  match e with
  | OverBudget | NoGovernor => BsmpOutbox.ErrNoBudget
  | TooLarge => BsmpOutbox.ErrTooLarge
  | LinkClosed => BsmpOutbox.ErrClosed
  | e => BsmpOutbox.OtherLinkErr e
  end.

(** The link is a Sender and a ChargeSender; [Budget]'s refill of the governor is
    left to its next operation, which refills first. *)
#[local] Instance mesh_Sender : BsmpOutbox.Sender link (error CE) := {
  link_Send l to p := let '(e, l) := Send false to p l in (l, as_link_error <$> e);
  link_SendCharged := Some (λ l to p ch, let '(e, l) := SendCharged false to p ch l in (l, as_link_error <$> e));
  link_MTU _ := MaxPayload;
  link_Budget l := (Budget l).1
}.

Abbreviation outbox := (BsmpOutbox.Outbox link).
Abbreviation step := (step cfg).
Abbreviation reachable := (reachable cfg).

(** The engine transmits, or the link does something of its own. *)
Inductive stack_step : outbox → outbox → Prop :=
| stack_message o to p : stack_step o (BsmpOutbox.SendMessage o to p).1
| stack_records o area rs : stack_step o (BsmpOutbox.SendRecords Log o area rs).1
| stack_forget b o : stack_step o (BsmpOutbox.Forget b o)
| stack_dictionary d o : stack_step o (BsmpOutbox.SetDictionary d o)
| stack_loss x o : stack_step o (BsmpOutbox.SetLossRate x o)
| stack_link o l : step (BsmpOutbox.o_link o) l → stack_step o (BsmpOutbox.with_link l o).

Lemma reachable_step l l' : step l l' → reachable l → reachable l'.
Proof. intros Hs (g & r & Hg & Hr). exists g, r. split; [done|]. by eapply rtc_r. Qed.

Lemma send_reachable l to p ch l' e :
  BsmpOutbox.send l to p ch = (l', e) → reachable l → reachable l'.
Proof.
  unfold BsmpOutbox.send. cbn. destruct (SendCharged false to p ch l) as [x l1] eqn:Hs. intros [= <- _].
  replace l1 with (SendCharged false to p ch l).2 by (by rewrite Hs). apply reachable_step, step_send.
Qed.

Lemma send_symbols_reachable n i total e bid ch o :
  reachable (BsmpOutbox.o_link o) → reachable (BsmpOutbox.o_link (BsmpOutbox.send_symbols n i total e bid ch o).1).
Proof.
  revert i o. induction n as [|n IH]; intros i o Hr; cbn [BsmpOutbox.send_symbols]; [done|].
  destruct (BsmpOutbox.send _ _ _ _) as [l x] eqn:Hs. pose proof (send_reachable _ _ _ _ _ _ Hs Hr).
  destruct x as [[]|]; try done. by apply IH.
Qed.

Lemma stack_step_reachable o o' :
  stack_step o o' → reachable (BsmpOutbox.o_link o) → reachable (BsmpOutbox.o_link o').
Proof.
  intros Hs Hr. destruct Hs.
  - unfold BsmpOutbox.SendMessage. destruct (_ <? _); [done|].
    destruct (BsmpOutbox.send _ _ _ _) as [l x] eqn:Hs. pose proof (send_reachable _ _ _ _ _ _ Hs Hr).
    by destruct x as [[]|].
  - unfold BsmpOutbox.SendRecords. destruct (Bundle.Pack _ _) as [packed|]; [|done]. cbv zeta.
    destruct (_ <=? 0); [done|]. destruct (FountainCodec.NewEncoder _ _ _ _) as [enc|]; [|done].
    destruct (_ <=? _); [done|]. destruct (_ && _); [done|]. by apply send_symbols_reachable.
  - done.
  - by destruct d.
  - done.
  - by eapply reachable_step.
Qed.

Definition hour (T : Z) (xs : list (Z * Z)) : list Governor.txRecord :=
  Governor.hour_before T ((λ x, Governor.mkTx x.1 (Airtime.Packet (Governor.cfg_Preset c) x.2)) <$> xs).

Lemma total_air_sublist xs ys T :
  xs `sublist_of` ys → Forall (λ x, 0 ≤ Governor.tx_air x) ys →
  Governor.total_air (Governor.hour_before T xs) ≤ Governor.total_air (Governor.hour_before T ys).
Proof.
  unfold Governor.hour_before, Governor.total_air.
  induction 1 as [|x xs ys Hs IH|x xs ys Hs IH]; [done|..]; intros [Hx Hy]%Forall_cons; specialize (IH Hy);
    (destruct (decide (T - Hour < Governor.tx_at x ∧ Governor.tx_at x ≤ T));
      [rewrite !(filter_cons_True _ x) by done|rewrite !(filter_cons_False _ x) by done]); cbn [foldr]; lia.
Qed.

(** What a stack starts as. *)
Definition fresh_stack (now : Z) (o : outbox) : Prop :=
  ∃ g r, Governor.New c now = Ok g ∧ BsmpOutbox.o_link o = fresh_link cfg (Some (mkMetered now g [])) r.

Lemma stack_reachable now o o' :
  fresh_stack now o → rtc stack_step o o' → reachable (BsmpOutbox.o_link o').
Proof.
  intros (g & r & Hg & Hl) Hs.
  assert (Hr : reachable (BsmpOutbox.o_link o)).
  { exists (Some (mkMetered now g [])), r. split; [|by rewrite Hl]. intros g' [= <-]. split; [|done].
    exists now, 0. split; [done|]. by apply Governor.life_new. }
  clear Hl. induction Hs; eauto using stack_step_reachable.
Qed.

End stack.
