(* ===== verification/Succession.v ===== *)
(** * Key rotation (internal/succession/succession.go)

    The registry of accepted successions: a node that rotates its key signs, with
    the old one, a statement naming its successor. Times are nanoseconds since the
    Unix epoch; texts of alerts are not modelled, their reasons are. *)

From stdpp Require Import relations.
From S2P Require Import Prelude Binary Order Identity Schedule.
From S2P Require Bodies.
From S2P Require Import Records.

Definition DefaultWindow : Z := 24 * Hour.
Definition MaxChain : nat := 8.

Inductive Kind := Followed | Refused | Duplicate.

Inductive reason :=
| NotASuccession
| ErrUnknownPredecessor
| Unverified (e : verify_error)
| ErrAlreadySucceeded (named : NodeID)
| TooFarAhead  (* ErrOutsideWindow *)
| TooFarBack   (* ErrOutsideWindow *)
| ErrWouldCycle
| ErrChainTooLong.

(** [Effective] is [None] for the zero time, [Reason] unless refused. *)
Record Event := mkEvent {
  ev_Kind : Kind; Predecessor : NodeID; ev_Successor : NodeID; ev_Effective : option Z; At : Z;
  Reason : option reason
}.

Record entry := mkEntry { successor : NodeID; effective : Z; pubkey : bytes; recordID : ID }.

Record Registry := mkRegistry {
  window : Z;
  byPredecessor : gmap NodeID entry;
  keys : gmap NodeID bytes;
  events : list Event
}.

Definition New : Registry := mkRegistry DefaultWindow ∅ ∅ [].
Definition SetWindow (d : Z) (r : Registry) : Registry := mkRegistry d (byPredecessor r) (keys r) (events r).

(** The next hop from a node. *)
Definition hop (r : Registry) (id : NodeID) : option NodeID := successor <$> byPredecessor r !! id.

(** [reaches], its loop with [n] rounds left. *)
Fixpoint reaches_loop (r : Registry) (n : nat) (cur to : NodeID) : bool :=
  match n with
  | O => false
  | S n' =>
      if decide (cur = to) then true
      else match hop r cur with None => false | Some s => reaches_loop r n' s to end
  end.
Definition reaches (r : Registry) (from to : NodeID) : bool := reaches_loop r (S MaxChain) from to.

(** The inner loop of [chainLen]: after how many hops from [cur], counting on from
    [n], a walk meets [id], if within [fuel] rounds. *)
Fixpoint hops_to (r : Registry) (fuel n : nat) (cur id : NodeID) : option nat :=
  match fuel with
  | O => None
  | S fuel' =>
      if decide (cur = id) then Some n
      else match hop r cur with None => None | Some s => hops_to r fuel' (S n) s id end
  end.
Definition chainLen (r : Registry) (id : NodeID) : nat :=
  map_fold (λ pred _ best,
    match hops_to r (S MaxChain) 0 pred id with
    | Some n => if (best <? n)%nat then n else best
    | None => best
    end) O (byPredecessor r).

Fixpoint resolve_loop (r : Registry) (n : nat) (cur : NodeID) : NodeID :=
  match n with
  | O => cur
  | S n' => match hop r cur with None => cur | Some s => resolve_loop r n' s end
  end.
Definition Resolve (r : Registry) (id : NodeID) : NodeID := resolve_loop r MaxChain id.

Fixpoint chain_loop (r : Registry) (n : nat) (cur : NodeID) : list NodeID :=
  match n with
  | O => []
  | S n' => match hop r cur with None => [] | Some s => s :: chain_loop r n' s end
  end.
Definition Chain (r : Registry) (id : NodeID) : list NodeID := id :: chain_loop r MaxChain id.

Definition Superseded (r : Registry) (id : NodeID) : option NodeID := hop r id.

Definition AcceptsRecord (r : Registry) (origin : NodeID) (ts : Z) : bool :=
  match byPredecessor r !! origin with
  | None => true
  | Some e => negb (effective e <? ts * Second)
  end.

Definition Events (r : Registry) : list Event := events r.
Definition Predecessors (r : Registry) : list NodeID := sort_by (λ x, x) less_arr (map_to_list (byPredecessor r)).*1.

Section registry.
Context `{HB : Blake3, HE : Ed25519}.

Definition LearnKey (id : NodeID) (pub : bytes) (r : Registry) : Registry :=
  if Matches id pub then mkRegistry (window r) (byPredecessor r) (<[id := pub]> (keys r)) (events r) else r.
Definition KnownKey (r : Registry) (id : NodeID) : option bytes := keys r !! id.

Definition tell (e : Event) (r : Registry) : Event * Registry :=
  (e, mkRegistry (window r) (byPredecessor r) (keys r) (events r ++ [e])).

(** The checks on a verified statement, in order, and the event it makes. *)
Definition consider (now : Z) (rec : Rec) (body : Bodies.Succession.SuccessionBody) (r : Registry) : Event * Registry :=
  let origin := Origin (fields rec) in
  let succ := Bodies.Succession.Successor body in
  let eff := Bodies.Succession.Effective body * Second in
  let refuse why := tell (mkEvent Refused origin succ (Some eff) now (Some why)) r in
  match byPredecessor r !! origin with
  | Some existing =>
      if decide (recordID existing = Records.id rec)
      then tell (mkEvent Duplicate origin (successor existing) (Some (effective existing)) now None) r
      else refuse (ErrAlreadySucceeded (successor existing))
  | None =>
      if (0 <? window r) && (now + window r <? eff) then refuse TooFarAhead
      else if (0 <? window r) && (eff <? now - window r) then refuse TooFarBack
      else if reaches r succ origin then refuse ErrWouldCycle
      else if (MaxChain <? chainLen r origin + 1)%nat then refuse ErrChainTooLong
      else
        let newPub := Bodies.Succession.NewPublicKey body in
        tell (mkEvent Followed origin succ (Some eff) now None)
          (mkRegistry (window r) (<[origin := mkEntry succ eff newPub (Records.id rec)]> (byPredecessor r))
             (<[succ := newPub]> (keys r)) (events r))
  end.

Definition Offer (now : Z) (rec : option Rec) (r : Registry) : Event * Registry :=
  match rec with
  | None => tell (mkEvent Refused zero_id zero_id None now (Some NotASuccession)) r
  | Some rec =>
      if decide (Type_ (fields rec) ≠ TypeSuccession)
      then tell (mkEvent Refused zero_id zero_id None now (Some NotASuccession)) r
      else
        match keys r !! Origin (fields rec) with
        | None =>
            let succ := match Bodies.Succession.UnmarshalSuccessionBody (Body (fields rec)) with
                        | Ok body => Bodies.Succession.Successor body
                        | Err _ => zero_id
                        end in
            tell (mkEvent Refused (Origin (fields rec)) succ None now (Some ErrUnknownPredecessor)) r
        | Some pub =>
            match VerifySuccessionRecord rec pub with
            | Err e => tell (mkEvent Refused (Origin (fields rec)) zero_id None now (Some (Unverified e))) r
            | Ok body => consider now rec body r
            end
        end
  end.
End registry.

(** ** Walking the chains *)

Definition hops (r : Registry) (x y : NodeID) : Prop := hop r x = Some y.

Lemma hops_det r x y z : hops r x y → hops r x z → y = z.
Proof. unfold hops. congruence. Qed.

Lemma reaches_loop_spec r n x y :
  reaches_loop r n x y = true ↔ ∃ k, (k < n)%nat ∧ nsteps (hops r) k x y.
Proof.
  revert x. induction n as [|n IH]; intros x; cbn [reaches_loop]; [split; [done|intros (k & ? & _); lia]|].
  destruct (decide (x = y)) as [->|Hne].
  { split; [|done]. intros _. exists O. split; [lia|constructor]. }
  destruct (hop r x) as [s|] eqn:Hs.
  - rewrite IH. split.
    + intros (k & Hk & Hp). exists (S k). split; [lia|]. by econstructor.
    + intros (k & Hk & Hp). inversion Hp as [|k' ? s' ? Hs' Hp']; subst; [done|].
      rewrite (hops_det r x s' s) in Hp' by done. exists k'. split; [lia|done].
  - split; [done|]. intros (k & _ & Hp). inversion Hp as [|k' ? s' ? Hs' _]; subst; [done|].
    unfold hops in Hs'. congruence.
Qed.

Lemma hops_to_spec r f n x y m :
  hop r y = None → hops_to r f n x y = Some m ↔ ∃ k, m = (n + k)%nat ∧ (k < f)%nat ∧ nsteps (hops r) k x y.
Proof.
  intros Hy. revert n x. induction f as [|f IH]; intros n x; cbn [hops_to]; [split; [done|intros (k & _ & ? & _); lia]|].
  destruct (decide (x = y)) as [->|Hne].
  { split.
    - intros [= <-]. exists O. split_and!; [lia|lia|constructor].
    - intros (k & -> & _ & Hp). inversion Hp as [|k' ? s' ? Hs' _]; subst; [by rewrite Nat.add_0_r|].
      unfold hops in Hs'. congruence. }
  destruct (hop r x) as [s|] eqn:Hs.
  - rewrite IH. split.
    + intros (k & -> & Hk & Hp). exists (S k). split_and!; [lia|lia|]. by econstructor.
    + intros (k & -> & Hk & Hp). inversion Hp as [|k' ? s' ? Hs' Hp']; subst; [done|].
      rewrite (hops_det r x s' s) in Hp' by done. exists k'. split_and!; [lia|lia|done].
  - split; [done|]. intros (k & _ & _ & Hp). inversion Hp as [|k' ? s' ? Hs' _]; subst; [done|].
    unfold hops in Hs'. congruence.
Qed.

(** [chainLen] is at least every distance it can see. *)
Lemma chainLen_ge r id pred n :
  is_Some (byPredecessor r !! pred) → hops_to r (S MaxChain) 0 pred id = Some n → (n ≤ chainLen r id)%nat.
Proof.
  unfold chainLen. revert pred n.
  apply (map_fold_weak_ind (λ best (m : gmap NodeID entry), ∀ pred n, is_Some (m !! pred) →
    hops_to r (S MaxChain) 0 pred id = Some n → (n ≤ best)%nat)).
  - intros pred n [x Hx]. by rewrite lookup_empty in Hx.
  - intros p e m best Hm IH pred n Hin Hd.
    destruct (decide (p = pred)) as [->|Hne].
    + rewrite Hd. destruct (Nat.ltb_spec best n); lia.
    + rewrite lookup_insert_ne in Hin by done. specialize (IH pred n Hin Hd).
      destruct (hops_to r (S MaxChain) 0 p id) as [k|]; [|done]. destruct (Nat.ltb_spec best k); lia.
Qed.

(** The walk of [n] hops from a node, if the chain is that long. *)
Lemma nsteps_split r a b x z :
  nsteps (hops r) (a + b) x z → ∃ y, nsteps (hops r) a x y ∧ nsteps (hops r) b y z.
Proof. intros H. by apply nsteps_add_inv in H. Qed.

(** A chain that comes back: one of the two checks sees it. *)
Lemma cycle_refused r p s k :
  hop r p = None → nsteps (hops r) k s p →
  reaches r s p = true ∨ (MaxChain < chainLen r p + 1)%nat.
Proof.
  intros Hp Hk. destruct (decide (k < S MaxChain)%nat) as [Hlt|Hge].
  { left. apply reaches_loop_spec. by exists k. }
  right. replace k with ((k - MaxChain) + MaxChain)%nat in Hk by lia.
  apply nsteps_split in Hk as (q & _ & Hq). assert (Hd : hops_to r (S MaxChain) 0 q p = Some MaxChain).
  { apply hops_to_spec; [done|]. exists MaxChain. split_and!; [done|lia|done]. }
  assert (Hin : is_Some (byPredecessor r !! q)).
  { inversion Hq as [|n ? y ? Hy _]; subst. unfold hops, hop in Hy. destruct (byPredecessor r !! q); [by eexists|done]. }
  pose proof (chainLen_ge r p q MaxChain Hin Hd). lia.
Qed.

(** Every chain ends. *)
Definition chains_end (r : Registry) : Prop := ∀ x, ∃ k y, nsteps (hops r) k x y ∧ hop r y = None.

Lemma nsteps_insert r r' p e k x y :
  byPredecessor r' = <[p := e]> (byPredecessor r) → hop r p = None →
  nsteps (hops r) k x y → nsteps (hops r') k x y.
Proof.
  intros Hr Hp. induction 1 as [|k x z y Hz _ IH]; [constructor|]. econstructor; [|exact IH].
  unfold hops, hop in *. rewrite Hr, lookup_insert_ne; [done|]. intros ->. congruence.
Qed.

Lemma chains_end_insert r r' p e :
  byPredecessor r' = <[p := e]> (byPredecessor r) → hop r p = None →
  (∀ k, ¬ nsteps (hops r) k (successor e) p) → chains_end r → chains_end r'.
Proof.
  intros Hr Hp Hno Hend. assert (Hold : ∀ y, y ≠ p → hop r' y = hop r y).
  { intros y Hy. unfold hop. by rewrite Hr, lookup_insert_ne by done. }
  assert (Hnew : hops r' p (successor e)) by (unfold hops, hop; by rewrite Hr, lookup_insert_eq).
  assert (Hs : ∃ k y, nsteps (hops r') k (successor e) y ∧ hop r' y = None).
  { destruct (Hend (successor e)) as (k & y & Hk & Hy). exists k, y. split; [by eapply nsteps_insert|].
    rewrite Hold; [done|]. intros ->. by apply (Hno k). }
  intros x. destruct (Hend x) as (k & y & Hk & Hy). apply (nsteps_insert r r' p e) in Hk; [|done..].
  destruct (decide (y = p)) as [->|Hne]; [|exists k, y; by rewrite Hold].
  destruct Hs as (k' & y' & Hk' & Hy'). exists (k + S k')%nat, y'. split; [|done].
  eapply nsteps_trans; [exact Hk|]. by econstructor.
Qed.

Lemma resolve_loop_spec r n k x y :
  nsteps (hops r) k x y → hop r y = None → (k ≤ n)%nat → resolve_loop r n x = y.
Proof.
  intros Hk Hy. revert n. induction Hk as [x|k x z y Hz _ IH]; intros n Hn.
  - destruct n; cbn; [done|]. by rewrite Hy.
  - destruct n as [|n]; [lia|]. cbn. unfold hops in Hz. rewrite Hz. apply IH; [done|lia].
Qed.

Lemma resolve_loop_short r n k x y :
  nsteps (hops r) k x y → (n < k)%nat → hop r (resolve_loop r n x) ≠ None.
Proof.
  intros Hk. revert n. induction Hk as [x|k x z y Hz _ IH]; intros n Hn; [lia|].
  destruct n as [|n]; cbn; unfold hops in Hz; rewrite Hz; [done|]. apply IH. lia.
Qed.

Lemma chain_loop_spec r n k x y :
  nsteps (hops r) k x y → hop r y = None → (k ≤ n)%nat →
  (x :: chain_loop r n x) !! k = Some y ∧ length (chain_loop r n x) = k.
Proof.
  intros Hk Hy. revert n. induction Hk as [x|k x z y Hz _ IH]; intros n Hn.
  - destruct n; cbn; [done|]. by rewrite Hy.
  - destruct n as [|n]; [lia|]. cbn [chain_loop]. unfold hops in Hz. rewrite Hz.
    destruct (IH Hy n ltac:(lia)) as [H1 H2]. split; [done|]. cbn [length]. by rewrite H2.
Qed.

(** ** The guardrails *)

Section facts.
Context `{HB : Blake3, HE : Ed25519}.

(** A statement the registry may follow. *)
Definition followable (now : Z) (rec : Rec) (pub : bytes) (body : Bodies.Succession.SuccessionBody) (r : Registry) : Prop :=
  let p := Origin (fields rec) in
  let eff := Bodies.Succession.Effective body * Second in
  keys r !! p = Some pub ∧ VerifySuccessionRecord rec pub = Ok body ∧ byPredecessor r !! p = None ∧
  (0 < window r → now - window r ≤ eff ≤ now + window r) ∧
  reaches r (Bodies.Succession.Successor body) p = false ∧ (chainLen r p + 1 ≤ MaxChain)%nat.

Definition followed_by (rec : Rec) (body : Bodies.Succession.SuccessionBody) : entry :=
  mkEntry (Bodies.Succession.Successor body) (Bodies.Succession.Effective body * Second)
    (Bodies.Succession.NewPublicKey body) (Records.id rec).

Lemma verified_type rec pub body : VerifySuccessionRecord rec pub = Ok body → Type_ (fields rec) = TypeSuccession.
Proof. unfold VerifySuccessionRecord. by intros [H%require_Ok%bool_decide_eq_true _]%bind_unit_Ok. Qed.

Lemma verified_key rec pub body :
  VerifySuccessionRecord rec pub = Ok body →
  Matches (Bodies.Succession.Successor body) (Bodies.Succession.NewPublicKey body) = true.
Proof.
  unfold VerifySuccessionRecord. intros [_ H]%bind_unit_Ok. apply bind_Ok in H as (b & Hb%wrap_err_Ok & H).
  apply bind_unit_Ok in H as [_ H]. apply bind_unit_Ok in H as [_ H]. apply bind_Ok in H as (? & _ & [= <-]).
  apply Bodies.Succession.UnmarshalSuccessionBody_spec in Hb as [_ Hm].
  apply Bodies.Succession.MarshalSuccessionBody_Ok in Hm as (_ & Hm & _). unfold Matches. rewrite Hm.
  by apply bool_decide_eq_true.
Qed.

(** One event told: what it leaves to show. *)
Local Ltac told :=
  cbn [tell ev_Kind events window byPredecessor keys Predecessor Reason]; split_and!; try done.

Lemma consider_spec now rec pub body r :
  keys r !! Origin (fields rec) = Some pub → VerifySuccessionRecord rec pub = Ok body →
  let '(e, r') := consider now rec body r in
  window r' = window r ∧ events r' = events r ++ [e] ∧ Predecessor e = Origin (fields rec) ∧
  (ev_Kind e = Followed ↔ followable now rec pub body r) ∧
  match ev_Kind e with
  | Followed => byPredecessor r' = <[Origin (fields rec) := followed_by rec body]> (byPredecessor r) ∧
      keys r' = <[Bodies.Succession.Successor body := Bodies.Succession.NewPublicKey body]> (keys r)
  | Duplicate => byPredecessor r' = byPredecessor r ∧ keys r' = keys r ∧
      ∃ old, byPredecessor r !! Origin (fields rec) = Some old ∧ recordID old = Records.id rec
  | Refused => byPredecessor r' = byPredecessor r ∧ keys r' = keys r ∧ Reason e ≠ None
  end.
Proof.
  intros Hk Hv. unfold consider, followable. cbv zeta.
  destruct (byPredecessor r !! Origin (fields rec)) as [old|] eqn:Hold.
  { destruct (decide (recordID old = Records.id rec)); told; try (split; [done|]; naive_solver). by exists old. }
  destruct (Z.ltb_spec 0 (window r)) as [Hw|Hw]; cbn [andb].
  1: destruct (Z.ltb_spec (now + window r) (Bodies.Succession.Effective body * Second)) as [Ha|Ha];
     [told; split; [done|]; intros (_ & _ & _ & H & _); specialize (H Hw); lia|].
  1: destruct (Z.ltb_spec (Bodies.Succession.Effective body * Second) (now - window r)) as [Hb|Hb];
     [told; split; [done|]; intros (_ & _ & _ & H & _); specialize (H Hw); lia|].
  all: destruct (reaches r (Bodies.Succession.Successor body) (Origin (fields rec))) eqn:Hr;
    [told; split; [done|]; intros (_ & _ & _ & _ & H & _); congruence|].
  all: destruct (Nat.ltb_spec MaxChain (chainLen r (Origin (fields rec)) + 1)) as [Hc|Hc];
    [told; split; [done|]; intros (_ & _ & _ & _ & _ & H); lia|].
  all: told; (split; [intros _; split_and!; (done || lia)|done]).
Qed.

(** The guardrails decide what is followed. Every offer leaves exactly one event
    in the audit log and says so; a statement is followed exactly when it is signed
    by a predecessor's key already known, the predecessor has not been succeeded
    before, the effective time is inside the window, and it neither closes a cycle
    nor stands at the end of a chain of [MaxChain] hops; what is followed adds that one
    hop and the successor's key, and what is not changes neither hops nor keys. *)
Theorem Offer_decides now rec r :
  let '(e, r') := Offer now rec r in
  events r' = events r ++ [e] ∧ window r' = window r ∧
  (ev_Kind e = Followed ↔ ∃ rc pub body, rec = Some rc ∧ followable now rc pub body r) ∧
  match ev_Kind e with
  | Followed => ∃ rc body, rec = Some rc ∧
      byPredecessor r' = <[Origin (fields rc) := followed_by rc body]> (byPredecessor r) ∧
      keys r' = <[Bodies.Succession.Successor body := Bodies.Succession.NewPublicKey body]> (keys r)
  | Duplicate => byPredecessor r' = byPredecessor r ∧ keys r' = keys r ∧
      ∃ rc old, rec = Some rc ∧ byPredecessor r !! Origin (fields rc) = Some old ∧ recordID old = Records.id rc
  | Refused => byPredecessor r' = byPredecessor r ∧ keys r' = keys r ∧ Reason e ≠ None
  end.
Proof.
  unfold Offer. destruct rec as [rc|]; [|told; split; [done|]; by intros (? & ? & ? & ? & _)].
  case_decide as Ht.
  { told. split; [done|]. intros (? & ? & ? & [= <-] & _ & Hv & _). by apply verified_type in Hv. }
  destruct (keys r !! Origin (fields rc)) as [pub|] eqn:Hk.
  2:{ told. split; [done|]. intros (? & ? & ? & [= <-] & Hk' & _). congruence. }
  destruct (VerifySuccessionRecord rc pub) as [body|err] eqn:Hv.
  2:{ told. split; [done|]. intros (? & ? & ? & [= <-] & Hk' & Hv' & _). congruence. }
  pose proof (consider_spec now rc pub body r Hk Hv) as Hs. destruct (consider now rc body r) as [e r'].
  destruct Hs as (Hw & He & _ & Hiff & Hs). split_and!; try done.
  - rewrite Hiff. split; [intros Hf; by exists rc, pub, body|]. intros (rc' & pub' & body' & [= <-] & Hf).
    pose proof Hf as (Hk' & Hv' & _). rewrite Hk in Hk'. injection Hk' as <-. rewrite Hv in Hv'. by injection Hv' as <-.
  - destruct (ev_Kind e); [by exists rc, body|done|]. destruct Hs as (? & ? & old & ? & ?). split_and!; try done. by exists rc, old.
Qed.

(** ** The registry over time *)

Lemma Offer_cases now rec r :
  let '(_, r') := Offer now rec r in
  (byPredecessor r' = byPredecessor r ∧ keys r' = keys r) ∨
  ∃ rc pub body, rec = Some rc ∧ followable now rc pub body r ∧
    byPredecessor r' = <[Origin (fields rc) := followed_by rc body]> (byPredecessor r) ∧
    keys r' = <[Bodies.Succession.Successor body := Bodies.Succession.NewPublicKey body]> (keys r).
Proof.
  unfold Offer. destruct rec as [rc|]; [|by left]. case_decide; [by left|].
  destruct (keys r !! Origin (fields rc)) as [pub|] eqn:Hk; [|by left].
  destruct (VerifySuccessionRecord rc pub) as [body|err] eqn:Hv; [|by left].
  pose proof (consider_spec now rc pub body r Hk Hv) as Hs. destruct (consider now rc body r) as [e r'].
  destruct Hs as (_ & _ & _ & Hiff & Hs). destruct (ev_Kind e); [right|left; naive_solver..].
  exists rc, pub, body. split; [done|]. split; [by apply Hiff|done].
Qed.

Inductive step : Registry → Registry → Prop :=
| step_learn id pub r : step r (LearnKey id pub r)
| step_offer now rec r : step r (Offer now rec r).2
| step_window d r : step r (SetWindow d r).

(** An accepted hop is what its predecessor's key signed. *)
Definition genuine (p : NodeID) (e : entry) : Prop :=
  ∃ rc pub body, Origin (fields rc) = p ∧ Matches p pub = true ∧ VerifySuccessionRecord rc pub = Ok body ∧
    e = followed_by rc body.

Definition registry_ok (r : Registry) : Prop :=
  chains_end r ∧ map_Forall (λ id pub, Matches id pub = true) (keys r) ∧ map_Forall genuine (byPredecessor r).

Lemma step_registry_ok r r' : step r r' → registry_ok r → registry_ok r'.
Proof.
  intros Hs (Hend & Hkeys & Hgen). destruct Hs as [id pub r|now rec r|d r]; [|pose proof (Offer_cases now rec r) as Hc|done].
  - unfold LearnKey. destruct (Matches id pub) eqn:Hm; [|done]. split_and!; [exact Hend| |done]. by apply map_Forall_insert_2.
  - destruct (Offer now rec r) as [e r']. cbn [snd].
    destruct Hc as [[Hb Hk]|(rc & pub & body & -> & (Hkey & Hv & Hno & _ & Hr & Hc) & Hb & Hk)].
    + unfold registry_ok, chains_end, hops, hop. rewrite Hb, Hk. done.
    + unfold registry_ok. rewrite Hb, Hk. split_and!.
      * assert (Hp : hop r (Origin (fields rc)) = None) by (unfold hop; by rewrite Hno).
        eapply chains_end_insert; [exact Hb|done| |done]. cbn [successor followed_by]. intros k Hwalk.
        destruct (cycle_refused r _ _ k Hp Hwalk) as [|]; [congruence|lia].
      * apply map_Forall_insert_2; [|done]. by eapply verified_key.
      * apply map_Forall_insert_2; [|done]. exists rc, pub, body. split_and!; try done. by apply Hkeys.
Qed.

Lemma reachable_registry r : rtc step New r → registry_ok r.
Proof.
  intros Hs. assert (H0 : registry_ok New).
  { split_and!; [|apply map_Forall_empty..]. intros x. exists O, x. split; [constructor|]. unfold hop. cbn. by rewrite lookup_empty. }
  revert H0. generalize New Hs. intros r0 Hs0. induction Hs0; eauto using step_registry_ok.
Qed.

Lemma step_keeps r r' p e : step r r' → byPredecessor r !! p = Some e → byPredecessor r' !! p = Some e.
Proof.
  intros Hs He. destruct Hs as [id pub r|now rec r|d r]; [|pose proof (Offer_cases now rec r) as Hc|done].
  - unfold LearnKey. by destruct (Matches id pub).
  - destruct (Offer now rec r) as [ev r']. cbn [snd]. destruct Hc as [[-> _]|(rc & pub & body & _ & (_ & _ & Hno & _) & -> & _)]; [done|].
    rewrite lookup_insert_ne; [done|]. congruence.
Qed.

(** C35: a stolen key cannot rewrite history. Whatever keys are learned and records
    offered, in any order, every accepted hop was signed by a key that hashes to its
    predecessor's ID; a predecessor's first accepted succession stays for good;
    following successions never goes in a circle, so every chain ends; and a record
    of a superseded node is accepted exactly when it is not stamped after the
    handover. *)
Theorem registry_sound r r' p e :
  rtc step New r → byPredecessor r !! p = Some e → rtc step r r' →
  byPredecessor r' !! p = Some e ∧ genuine p e ∧ chains_end r' ∧ (∀ x, ¬ tc (hops r') x x) ∧
  ∀ ts, AcceptsRecord r' p ts = true ↔ ts * Second ≤ effective e.
Proof.
  intros Hr He Hs. assert (He' : byPredecessor r' !! p = Some e).
  { clear Hr. induction Hs as [|a b c Hab _ IH]; [done|]. apply IH. by eapply step_keeps. }
  assert (Hr' : rtc step New r') by (by etransitivity).
  destruct (reachable_registry r' Hr') as (Hend & _ & Hgen). split_and!; [done|by apply Hgen|done| |].
  - intros x Hx. destruct (Hend x) as (k & y & Hk & Hy). apply tc_nsteps in Hx as (n & Hn & Hx).
    assert (Hit : ∀ i, nsteps (hops r') (i * n) x x).
    { induction i as [|i IH]; [constructor|]. cbn. by eapply nsteps_trans. }
    specialize (Hit (S k)). assert (Hle : (k < S k * n)%nat) by nia.
    replace (S k * n)%nat with (k + (S k * n - k))%nat in Hit by (revert Hle; generalize (S k * n)%nat; lia).
    apply nsteps_split in Hit as (z & Hz & Hrest).
    assert (z = y) as ->. { clear -Hk Hz. revert z Hz. induction Hk as [|k x a y Ha _ IH]; intros z Hz; inversion Hz; subst; [done|].
      apply IH. by rewrite (hops_det r' x a y0). }
    destruct (S k * n - k)%nat as [|m] eqn:Hm; [revert Hm Hle; generalize (S k * n)%nat; lia|].
    inversion Hrest as [|? ? w ? Hw]; subst. unfold hops in Hw. congruence.
  - intros ts. unfold AcceptsRecord. rewrite He', negb_true_iff, Z.ltb_ge. done.
Qed.

(** C36: resolving an identity comes to an end, and to the right one while chains are
    short. In every reachable registry the chain from any node ends at a node that
    nobody has succeeded; [Resolve] returns that node, and [Chain] the whole path,
    whenever the chain has at most [MaxChain] hops. *)
Theorem Resolve_ends r id :
  rtc step New r →
  ∃ k y, nsteps (hops r) k id y ∧ Superseded r y = None ∧
    ((k ≤ MaxChain)%nat → Resolve r id = y ∧ Resolve r y = y ∧ Chain r id !! k = Some y ∧ length (Chain r id) = S k) ∧
    ((MaxChain < k)%nat → Superseded r (Resolve r id) ≠ None).
Proof.
  intros Hr%reachable_registry. destruct Hr as (Hend & _). destruct (Hend id) as (k & y & Hk & Hy).
  exists k, y. split_and!; [done|done| |].
  - intros Hle. destruct (chain_loop_spec r MaxChain k id y Hk Hy Hle) as [H1 H2].
    split_and!; [by eapply resolve_loop_spec| |done|by apply (f_equal S)].
    eapply resolve_loop_spec; [constructor|done|lia].
  - intros Hlt. by eapply resolve_loop_short.
Qed.
End facts.
