(* ===== verification/BlobStore.v ===== *)
(** * Content-addressed blobs (internal/blobstore/blobstore.go)

    File contents on disk under the hex of their BLAKE3 hash. The directory tree
    below the store's root is a map from paths to files, and a file remembers
    whether its bytes have been synced: a power cut keeps synced bytes only.
    Directories are always there ([MkdirAll]), and the operating system's own
    failures, after which the caller's staging file is left or removed, are the
    step [s_abandon] of the step relation below. *)

From stdpp Require Import strings relations.
From S2P Require Import Prelude Binary Identity.

Definition HashLen : nat := 32.
Abbreviation Hash := (arr 32).
Definition zero_hash : Hash := zero_arr 32.
Definition Hash_IsZero (h : Hash) : bool := bool_decide (h = zero_hash).

(** ** Hexadecimal (encoding/hex) *)

Definition hex_alphabet : bytes := str "0123456789abcdef".
Definition hex_digit (n : Z) : byte := nth (Z.to_nat n) hex_alphabet Byte.x00.
Definition hex_encode (b : bytes) : bytes :=
  b ≫= λ c, [hex_digit (b2z c / 16); hex_digit (b2z c mod 16)].

(** A digit's value; letters of either case. *)
Definition hex_value (c : byte) : option Z :=
  let x := b2z c in
  if (0x30 <=? x) && (x <=? 0x39) then Some (x - 0x30)
  else if (0x61 <=? x) && (x <=? 0x66) then Some (x - 0x61 + 10)
  else if (0x41 <=? x) && (x <=? 0x46) then Some (x - 0x41 + 10)
  else None.

Fixpoint hex_decode (s : bytes) : option bytes :=
  match s with
  | [] => Some []
  | a :: b :: s' =>
      x ← hex_value a; y ← hex_value b; rest ← hex_decode s'; Some (z2b (16 * x + y) :: rest)
  | [_] => None
  end.

Definition Hash_String (h : Hash) : bytes := hex_encode (vec_to_list h).

Inductive blob_error :=
| NotHex (s : bytes)
| HashLength (n : Z)
| ErrNotFound (h : Hash)
| NoStagingFile
| Changed (h got : Hash).

Definition ParseHash (s : bytes) : result blob_error Hash :=
  match hex_decode s with
  | None => Err (NotHex s)
  | Some b => if negb (strlen b =? 32) then Err (HashLength (strlen b)) else Ok (arr_of 32 b)
  end.

(** ** The directory tree *)

Abbreviation path := (list bytes).
Record file := mkFile { data : bytes; synced : bool }.
Abbreviation Store := (gmap path file).

Definition Open_ : Store := ∅.

(** [path] and [tmpDir]. *)
Definition blob_path (h : Hash) : path :=
  let hexed := Hash_String h in [take 2 hexed; take 2 (drop 2 hexed); hexed].
Definition tmp_path (name : bytes) : path := [str "tmp"; name].

(** [os.CreateTemp], [Write], [WriteAt] (a gap reads as zeros) and [Sync]. *)
Definition create_temp (p : path) (d : Store) : Store := <[p := mkFile [] false]> d.
Definition append_file (p : path) (c : bytes) (d : Store) : Store := alter (λ f, mkFile (data f ++ c) false) p d.
Definition write_at (p : path) (off : nat) (c : bytes) (d : Store) : Store :=
  alter (λ f, mkFile (take off (data f ++ replicate off Byte.x00) ++ c ++ drop (off + length c) (data f)) false) p d.
Definition sync_file (p : path) (d : Store) : Store := alter (λ f, mkFile (data f) true) p d.

(** [os.Stat] on the destination, then [os.Rename] or the staging copy removed. *)
Definition place (p : path) (h : Hash) (d : Store) : Store :=
  match d !! blob_path h, d !! p with
  | Some _, _ => delete p d
  | None, Some f => <[blob_path h := f]> (delete p d)
  | None, None => d
  end.

Section store.
Context `{HB : Blake3}.

Definition sum (b : bytes) : Hash := blake3_sum256 b.

(** [Put] from a reader that gives [chunks], staged under [name]. *)
Definition Put (name : bytes) (chunks : list bytes) (d : Store) : Hash * Z * Store :=
  let p := tmp_path name in
  let d := foldl (λ d c, append_file p c d) (create_temp p d) chunks in
  let h := sum (concat chunks) in
  (h, strlen (concat chunks), place p h (sync_file p d)).

(** A name [os.CreateTemp] could pick: any that is not taken. *)
Definition temp_name (d : Store) : bytes :=
  fresh (omap (λ p : path, match p with [_; n] => Some n | _ => None end) (map_to_list d).*1).

Definition Temp (name : bytes) (d : Store) : path * Store := (tmp_path name, create_temp (tmp_path name) d).

Definition Adopt (p : path) (d : Store) : result blob_error (Hash * Z) * Store :=
  match d !! p with
  | None => (Err NoStagingFile, d)
  | Some f => (Ok (sum (data f), strlen (data f)), place p (sum (data f)) (sync_file p d))
  end.

Definition Open (h : Hash) (d : Store) : result blob_error bytes :=
  match d !! blob_path h with None => Err (ErrNotFound h) | Some f => Ok (data f) end.
Definition Has (h : Hash) (d : Store) : bool := bool_decide (is_Some (d !! blob_path h)).
Definition Size (h : Hash) (d : Store) : result blob_error Z :=
  match d !! blob_path h with None => Err (ErrNotFound h) | Some f => Ok (strlen (data f)) end.
Definition Remove (h : Hash) (d : Store) : Store := delete (blob_path h) d.
Definition Verify (h : Hash) (d : Store) : result blob_error unit :=
  b ← Open h d; require (bool_decide (sum b = h)) (Changed h (sum b)).
End store.

(** ** Hexadecimal and paths *)

Lemma hex_digit_value n : 0 ≤ n < 16 → hex_value (hex_digit n) = Some n.
Proof.
  intros Hn. assert (Forall (λ n, hex_value (hex_digit n) = Some n) (seqZ 0 16)) as H by by_compute.
  rewrite Forall_forall in H. apply H, elem_of_seqZ. lia.
Qed.

Lemma hex_decode_encode b : hex_decode (hex_encode b) = Some b.
Proof.
  induction b as [|c b IH]; [done|]. cbn [hex_encode mbind list_bind app].
  change (b ≫= _) with (hex_encode b). cbn [hex_decode].
  pose proof (b2z_range c) as Hc. pose proof (Z.div_mod (b2z c) 16 ltac:(lia)) as Hd.
  pose proof (Z.mod_pos_bound (b2z c) 16 ltac:(lia)) as Hm.
  rewrite !hex_digit_value, IH by lia. cbn. rewrite <- Hd. by rewrite z2b_b2z.
Qed.

Lemma length_hex_encode b : length (hex_encode b) = (2 * length b)%nat.
Proof. induction b as [|c b IH]; [done|]. cbn [hex_encode mbind list_bind app length]. change (b ≫= _) with (hex_encode b). lia. Qed.

Lemma hex_encode_inj a b : hex_encode a = hex_encode b → a = b.
Proof. intros H. apply (f_equal hex_decode) in H. rewrite !hex_decode_encode in H. by injection H. Qed.

Lemma ParseHash_String h : ParseHash (Hash_String h) = Ok h.
Proof.
  unfold ParseHash, Hash_String. rewrite hex_decode_encode. unfold strlen. rewrite length_vec_to_list. cbn [negb Z.of_nat].
  by rewrite arr_of_vec.
Qed.

Lemma blob_path_inj h h' : blob_path h = blob_path h' → h = h'.
Proof. unfold blob_path. intros [= _ _ H%hex_encode_inj]. by apply vec_to_list_inj2. Qed.

Lemma blob_path_not_tmp h name : blob_path h ≠ tmp_path name.
Proof. done. Qed.
#[local] Hint Resolve blob_path_not_tmp : core.

(** ** The operations one at a time *)

Section facts.
Context `{HB : Blake3}.

Lemma append_chunks p chunks f d :
  d !! p = Some f → chunks ≠ [] →
  foldl (λ d c, append_file p c d) d chunks = <[p := mkFile (data f ++ concat chunks) false]> d.
Proof.
  revert f d. induction chunks as [|c chunks IH]; intros f d Hp Hne; [done|]. cbn [foldl concat].
  unfold append_file at 2. destruct chunks as [|c' chunks].
  - cbn [foldl concat]. rewrite app_nil_r. apply map_eq. intros q. destruct (decide (q = p)) as [->|Hq].
    + by rewrite lookup_alter_eq, Hp, lookup_insert_eq.
    + by rewrite lookup_alter_ne, lookup_insert_ne.
  - rewrite (IH (mkFile (data f ++ c) false)); [|by rewrite lookup_alter_eq, Hp|done]. cbn [data].
    apply map_eq. intros q. destruct (decide (q = p)) as [->|Hq].
    + by rewrite !lookup_insert_eq, <- app_assoc.
    + by rewrite !lookup_insert_ne, lookup_alter_ne.
Qed.

Lemma staged p chunks d :
  foldl (λ d c, append_file p c d) (create_temp p d) chunks = <[p := mkFile (concat chunks) false]> d.
Proof.
  unfold create_temp. destruct chunks as [|c chunks]; [done|].
  erewrite append_chunks; [|apply lookup_insert_eq|done]. cbn [data app]. apply insert_insert_eq.
Qed.

Lemma synced_file p b k d : sync_file p (<[p := mkFile b k]> d) = <[p := mkFile b true]> d.
Proof. unfold sync_file. by rewrite alter_insert_eq. Qed.

Lemma placed name h b d :
  d !! tmp_path name = None →
  place (tmp_path name) h (<[tmp_path name := mkFile b true]> d) =
    match d !! blob_path h with Some _ => d | None => <[blob_path h := mkFile b true]> d end.
Proof.
  intros Hn. unfold place. rewrite lookup_insert_ne by (intros E; by apply (blob_path_not_tmp h name)).
  destruct (d !! blob_path h); [by rewrite delete_insert_id|]. by rewrite lookup_insert_eq, delete_insert_id.
Qed.

Lemma temp_name_fresh d : d !! tmp_path (temp_name d) = None.
Proof.
  destruct (d !! tmp_path (temp_name d)) as [f|] eqn:E; [|done]. exfalso.
  apply (infinite_is_fresh (omap (λ p : path, match p with [_; n] => Some n | _ => None end) (map_to_list d).*1)).
  apply list_elem_of_omap. exists (tmp_path (temp_name d)). split; [|done].
  apply list_elem_of_fmap. exists (tmp_path (temp_name d), f). split; [done|]. by apply elem_of_map_to_list.
Qed.

(** What [Put] leaves, whatever pieces the reader gave. *)
Lemma Put_eq name chunks d :
  d !! tmp_path name = None →
  Put name chunks d =
    (sum (concat chunks), strlen (concat chunks),
     match d !! blob_path (sum (concat chunks)) with
     | Some _ => d | None => <[blob_path (sum (concat chunks)) := mkFile (concat chunks) true]> d end).
Proof. intros Hn. unfold Put. cbv zeta. by rewrite staged, synced_file, placed. Qed.

(** Adopting a staging file is putting what it holds. *)
Lemma Adopt_Put name b k d :
  d !! tmp_path name = None →
  Adopt (tmp_path name) (<[tmp_path name := mkFile b k]> d) =
    let '(h, n, d') := Put name [b] d in (Ok (h, n), d').
Proof.
  intros Hn. rewrite Put_eq by done. unfold Adopt. rewrite lookup_insert_eq, synced_file. cbn [data concat].
  by rewrite app_nil_r, placed.
Qed.

(** ** Many uploads at once, and power cuts *)

(** What a goroutine in [Put] or between [Temp] and [Adopt] is doing with its
    staging file. *)
Inductive activity :=
| Receiving (p : path) (taken : bytes)  (* [Put]'s copy; the hasher has [taken] *)
| Staged (p : path)                     (* [Temp]: the caller writes where it likes *)
| Summed (p : path) (h : Hash)
| Synced (p : path) (h : Hash).

Definition staging (a : activity) : path :=
  match a with Receiving p _ | Staged p | Summed p _ | Synced p _ => p end.

Record world := mkWorld { disk : Store; running : gmap nat activity }.

(** What a power cut may leave under a blob's name: nothing that was not there, and
    of an unsynced file any bytes at all. Staging files are anything. *)
Definition survives (d d' : Store) : Prop :=
  ∀ h f', d' !! blob_path h = Some f' →
    ∃ f, d !! blob_path h = Some f ∧ (synced f = true → f' = f).

Inductive step : world → world → Prop :=
| s_put i name d r : r !! i = None → d !! tmp_path name = None →
    step (mkWorld d r) (mkWorld (create_temp (tmp_path name) d) (<[i := Receiving (tmp_path name) []]> r))
| s_chunk i p taken c d r : r !! i = Some (Receiving p taken) →
    step (mkWorld d r) (mkWorld (append_file p c d) (<[i := Receiving p (taken ++ c)]> r))
| s_eof i p taken d r : r !! i = Some (Receiving p taken) →
    step (mkWorld d r) (mkWorld d (<[i := Summed p (sum taken)]> r))
| s_temp i name d r : r !! i = None → d !! tmp_path name = None →
    step (mkWorld d r) (mkWorld (create_temp (tmp_path name) d) (<[i := Staged (tmp_path name)]> r))
| s_write i p off c d r : r !! i = Some (Staged p) →
    step (mkWorld d r) (mkWorld (write_at p off c d) r)
| s_adopt i p f d r : r !! i = Some (Staged p) → d !! p = Some f →
    step (mkWorld d r) (mkWorld d (<[i := Summed p (sum (data f))]> r))
| s_sync i p h d r : r !! i = Some (Summed p h) →
    step (mkWorld d r) (mkWorld (sync_file p d) (<[i := Synced p h]> r))
| s_place i p h d r : r !! i = Some (Synced p h) →
    step (mkWorld d r) (mkWorld (place p h d) (delete i r))
| s_abandon i a removed d r : r !! i = Some a →
    step (mkWorld d r) (mkWorld (if removed : bool then delete (staging a) d else d) (delete i r))
| s_remove h d r : step (mkWorld d r) (mkWorld (Remove h d) r)
| s_power_cut d d' r : survives d d' → step (mkWorld d r) (mkWorld d' ∅).

Definition activity_ok (d : Store) (a : activity) : Prop :=
  (∃ name, staging a = tmp_path name) ∧
  ∃ f, d !! staging a = Some f ∧
    match a with
    | Receiving _ taken => data f = taken
    | Staged _ => True
    | Summed _ h => sum (data f) = h
    | Synced _ h => sum (data f) = h ∧ synced f = true
    end.

Definition blobs_ok (d : Store) : Prop :=
  ∀ h f, d !! blob_path h = Some f → synced f = true ∧ sum (data f) = h.

Definition world_ok (w : world) : Prop :=
  blobs_ok (disk w) ∧ map_Forall (λ _ a, activity_ok (disk w) a) (running w) ∧
  ∀ i j a b, running w !! i = Some a → running w !! j = Some b → staging a = staging b → i = j.

(** ** The invariant *)

Lemma activity_ok_same d d' a : d' !! staging a = d !! staging a → activity_ok d a → activity_ok d' a.
Proof. intros Hs (Hn & f & Hf & Ha). split; [done|]. exists f. by rewrite Hs. Qed.

Lemma world_ok_idle d : blobs_ok d → world_ok (mkWorld d ∅).
Proof.
  intros Hb. split_and!; [done|by apply map_Forall_empty|]. cbn [running].
  intros i j a b H. by rewrite lookup_empty in H.
Qed.

(** A goroutine moves on, touching its own staging file. *)
Lemma world_ok_update i a d d' r :
  world_ok (mkWorld d r) → (∀ j b, r !! j = Some b → j ≠ i → staging b ≠ staging a) →
  (∀ q, q ≠ staging a → d' !! q = d !! q) → activity_ok d' a → world_ok (mkWorld d' (<[i := a]> r)).
Proof.
  intros (Hb & Hr & Hd) Hne Hsame Ha. cbn [disk running] in *. split_and!; cbn [disk running].
  - intros h f Hf. destruct Ha as [[name Hs] _]. rewrite Hsame in Hf by (rewrite Hs; apply blob_path_not_tmp). by apply Hb.
  - intros j b. destruct (decide (j = i)) as [->|Hj]; [by rewrite lookup_insert_eq; intros [= <-]|].
    rewrite lookup_insert_ne by done. intros Hjb. eapply activity_ok_same; [|by eapply Hr]. apply Hsame. by eapply Hne.
  - intros j k b c. destruct (decide (j = i)) as [->|Hj], (decide (k = i)) as [->|Hk]; [done|..];
      rewrite ?lookup_insert_eq, ?lookup_insert_ne by done.
    + intros [= <-] Hc E. by destruct (Hne k c Hc Hk).
    + intros Hc [= <-] E. by destruct (Hne j b Hc Hj).
    + eauto.
Qed.

(** A goroutine is done, or gives up. *)
Lemma world_ok_drop i d d' r :
  world_ok (mkWorld d r) → (∀ j b, r !! j = Some b → j ≠ i → d' !! staging b = d !! staging b) →
  blobs_ok d' → world_ok (mkWorld d' (delete i r)).
Proof.
  intros (Hb & Hr & Hd) Hsame Hb'. cbn [disk running] in *. split_and!; [done|..]; cbn [disk running].
  - intros j b [Hne Hjb]%lookup_delete_Some. eapply activity_ok_same; [|by eapply Hr]. by eapply Hsame.
  - intros j k b c [_ Hj]%lookup_delete_Some [_ Hk]%lookup_delete_Some. eauto.
Qed.

(** The staging file of a running goroutine is its own. *)
Lemma staging_own i a d r :
  world_ok (mkWorld d r) → r !! i = Some a → ∀ j b, r !! j = Some b → j ≠ i → staging b ≠ staging a.
Proof. intros (_ & _ & Hd) Hi j b Hj Hne E. by apply Hne, (Hd j i b a). Qed.

Lemma staging_fresh name d r :
  world_ok (mkWorld d r) → d !! tmp_path name = None → ∀ j b, r !! j = Some b → staging b ≠ tmp_path name.
Proof. intros (_ & Hr & _) Hn j b Hj E. destruct (Hr j b Hj) as (_ & f & Hf & _). cbn in Hf. by rewrite E, Hn in Hf. Qed.

Lemma place_blobs p h f d :
  blobs_ok d → d !! p = Some f → synced f = true → sum (data f) = h → (∃ name, p = tmp_path name) →
  blobs_ok (place p h d) ∧ (∀ q, q ≠ p → (∀ h', q ≠ blob_path h') → place p h d !! q = d !! q) ∧
  ∀ h' g, d !! blob_path h' = Some g → place p h d !! blob_path h' = Some g.
Proof.
  intros Hb Hp Hs Hh [name ->]. unfold place. rewrite Hp. destruct (d !! blob_path h) as [g|] eqn:Hg; split_and!.
  - intros h' f' [_ Hf]%lookup_delete_Some. by apply Hb.
  - intros q Hq _. by rewrite lookup_delete_ne.
  - intros h' g' Hg'. by rewrite lookup_delete_ne.
  - intros h' f'. destruct (decide (h = h')) as [<-|Hne]; [rewrite lookup_insert_eq; by intros [= <-]|].
    rewrite lookup_insert_ne by (by intros ?%blob_path_inj). intros [_ Hf]%lookup_delete_Some. by apply Hb.
  - intros q Hq Hq'. rewrite lookup_insert_ne by (intros <-; by apply (Hq' h)). by rewrite lookup_delete_ne.
  - intros h' g' Hg'. rewrite lookup_insert_ne by (intros ?%blob_path_inj; congruence). by rewrite lookup_delete_ne.
Qed.

(** Changing the bytes of one's own file. *)
Lemma own_file (g : file → file) i a a' d r f :
  world_ok (mkWorld d r) → r !! i = Some a → d !! staging a = Some f → staging a' = staging a →
  (∀ f, d !! staging a = Some f → activity_ok (<[staging a := g f]> d) a') →
  world_ok (mkWorld (alter g (staging a) d) (<[i := a']> r)).
Proof.
  intros Hw Hi Hf Hs Ha. apply (world_ok_update i a' d); [done| |..]; rewrite ?Hs.
  - by eapply staging_own.
  - intros q Hq. by rewrite lookup_alter_ne.
  - eapply activity_ok_same; [|by apply Ha]. rewrite Hs, lookup_alter_eq, Hf. cbn. by rewrite lookup_insert_eq.
Qed.

Lemma step_world_ok w w' : step w w' → world_ok w → world_ok w'.
Proof.
  intros Hs Hw. destruct Hs as [i name d r Hi Hn|i p taken c d r Hi|i p taken d r Hi|i name d r Hi Hn|i p off c d r Hi
    |i p f d r Hi Hf|i p h d r Hi|i p h d r Hi|i a removed d r Hi|h d r|d d' r Hd].
  all: try (pose proof Hw as (Hb & Hr & _); cbn [disk running] in Hb, Hr).
  all: try (pose proof (Hr i _ Hi) as ([name Hname] & g & Hg & Hok); cbn [staging] in Hname, Hg, Hok).
  - eapply world_ok_update; [exact Hw|..]; cbn [staging].
    + intros j b Hj _. by eapply staging_fresh.
    + intros q Hq. by apply lookup_insert_ne.
    + split; [by eexists|]. eexists. split; [apply lookup_insert_eq|done].
  - eapply (own_file _ i (Receiving p taken)); [done..|]. intros f Hf. split; [by eexists|].
    eexists. split; [apply lookup_insert_eq|]. cbn [staging] in Hf. rewrite Hg in Hf. injection Hf as <-. cbn. by rewrite Hok.
  - eapply world_ok_update; [exact Hw|exact (staging_own i _ d r Hw Hi)|done|]. split; [by eexists|]. exists g. split; [done|]. by rewrite Hok.
  - eapply world_ok_update; [exact Hw|..]; cbn [staging].
    + intros j b Hj _. by eapply staging_fresh.
    + intros q Hq. by apply lookup_insert_ne.
    + split; [by eexists|]. eexists. split; [apply lookup_insert_eq|done].
  - assert (E : r = <[i := Staged p]> r) by (by rewrite insert_id). rewrite E.
    eapply (own_file _ i (Staged p)); [done..|]. intros f Hf. split; [by eexists|]. eexists. split; [apply lookup_insert_eq|done].
  - eapply world_ok_update; [exact Hw|exact (staging_own i _ d r Hw Hi)|done|]. split; [by eexists|]. by exists f.
  - eapply (own_file _ i (Summed p h)); [done..|]. intros f Hf. split; [by eexists|].
    eexists. split; [apply lookup_insert_eq|]. cbn [staging] in Hf. rewrite Hg in Hf. by injection Hf as <-.
  - destruct Hok as [Hsum Hsync]. destruct (place_blobs p h g d Hb Hg Hsync Hsum) as (Hb' & Hsame & _); [by eexists|].
    apply (world_ok_drop i d); [done| |done]. intros j b Hj Hne. apply Hsame.
    + exact (staging_own i _ d r Hw Hi j b Hj Hne).
    + intros h' E. destruct (Hr j b Hj) as [[n' Hn'] _]. rewrite Hn' in E. by symmetry in E.
  - destruct removed; apply (world_ok_drop i d); try done.
    + intros j b Hj Hne. rewrite lookup_delete_ne; [done|]. intros E. symmetry in E. by apply (staging_own i a d r Hw Hi j b Hj Hne).
    + intros h f [_ Hf]%lookup_delete_Some. by apply Hb.
  - unfold Remove. destruct Hw as (_ & _ & Hd). split_and!; [|..|done]; cbn [disk running].
    + intros h' f [_ Hf]%lookup_delete_Some. by apply Hb.
    + intros j b Hj. eapply activity_ok_same; [|by eapply Hr]. destruct (Hr j b Hj) as [[n' Hn'] _].
      rewrite Hn', lookup_delete_ne; [done|]. apply blob_path_not_tmp.
  - apply world_ok_idle. intros h f' Hf'. destruct (Hd h f' Hf') as (f & Hf & Hsame). destruct (Hb h f Hf) as [Hs Hh].
    rewrite (Hsame Hs). by split.
Qed.

Lemma reachable_world w : rtc step (mkWorld Open_ ∅) w → world_ok w.
Proof.
  intros Hs. assert (H0 : world_ok (mkWorld Open_ ∅)).
  { apply world_ok_idle. intros h f H. unfold Open_ in H. by rewrite lookup_empty in H. }
  revert Hs H0. generalize (mkWorld Open_ ∅). intros w0 Hs. induction Hs; eauto using step_world_ok.
Qed.

(** What one step does to a stored blob. *)
Lemma step_blob w w' h f :
  world_ok w → step w w' → disk w !! blob_path h = Some f →
  disk w' !! blob_path h = Some f ∨
  disk w' !! blob_path h = None ∧ (disk w' = Remove h (disk w) ∨ survives (disk w) (disk w') ∧ running w' = ∅).
Proof.
  intros Hw Hs Hf. destruct (Hw) as (Hb & Hr & _). destruct Hs as [i name d r Hi Hn|i p taken c d r Hi|i p taken d r Hi|i name d r Hi Hn|i p off c d r Hi
    |i p g d r Hi Hg|i p h' d r Hi|i p h' d r Hi|i a removed d r Hi|h' d r|d d' r Hd]; cbn [disk running] in *.
  all: try (pose proof (Hr i _ Hi) as ([name Hname] & g' & Hg' & Hok); cbn [staging] in Hname, Hg', Hok; try subst p).
  all: try (left; unfold create_temp, append_file, write_at, sync_file;
    rewrite ?lookup_insert_ne, ?lookup_alter_ne by (intros E; by apply (blob_path_not_tmp h name)); done).
  - destruct Hok as [Hsum Hsync]. left. eapply place_blobs; [done..|by eexists|done].
  - left. destruct removed; [|done]. rewrite lookup_delete_ne; [done|]. rewrite Hname. intros E. by apply (blob_path_not_tmp h name).
  - unfold Remove. destruct (decide (h' = h)) as [->|Hne]; [|left; rewrite lookup_delete_ne; [done|by intros ?%blob_path_inj]].
    right. rewrite lookup_delete_eq. by split; [|left].
  - destruct (d' !! blob_path h) as [f'|] eqn:Hf'; [|right; by split; [|right]]. left.
    destruct (Hd h f' Hf') as (f0 & Hf0 & Hsame). rewrite Hf in Hf0. injection Hf0 as <-.
    by rewrite Hsame by apply (Hb h f Hf).
Qed.

(** [Put] is a run of the steps above by one goroutine. *)
Lemma chunk_steps i p chunks taken d r :
  rtc step (mkWorld d (<[i := Receiving p taken]> r))
    (mkWorld (foldl (λ d c, append_file p c d) d chunks) (<[i := Receiving p (taken ++ concat chunks)]> r)).
Proof.
  revert taken d. induction chunks as [|c chunks IH]; intros taken d; cbn [foldl concat]; [by rewrite app_nil_r|].
  eapply rtc_l; [by apply (s_chunk i p taken c), lookup_insert_eq|].
  rewrite insert_insert_eq, app_assoc. apply IH.
Qed.

Lemma Put_steps i name chunks d r :
  r !! i = None → d !! tmp_path name = None → rtc step (mkWorld d r) (mkWorld (Put name chunks d).2 r).
Proof.
  intros Hi Hn. eapply rtc_l; [by apply (s_put i name)|]. etrans; [apply chunk_steps|]. cbn [app].
  eapply rtc_l; [by eapply (s_eof i), lookup_insert_eq|]. rewrite insert_insert_eq.
  eapply rtc_l; [by eapply (s_sync i), lookup_insert_eq|]. rewrite insert_insert_eq.
  eapply rtc_l; [by eapply (s_place i), lookup_insert_eq|]. rewrite delete_insert_id by done. apply rtc_refl.
Qed.

(** C40: a blob's name tells its contents. Whatever uploads run side by side, whatever
    is written where in a staging file, and wherever an upload stops or the power
    fails, what lies under a hash hashes to it: [Open] returns it, [Verify] passes,
    and each next step leaves it as it is unless it is [Remove]d or lost whole in a
    power cut. *)
Theorem names_tell_contents w h f :
  rtc step (mkWorld Open_ ∅) w → disk w !! blob_path h = Some f →
  sum (data f) = h ∧ Open h (disk w) = Ok (data f) ∧ Verify h (disk w) = Ok tt ∧
  ∀ w', step w w' → disk w' !! blob_path h = Some f ∨
    disk w' !! blob_path h = None ∧ (disk w' = Remove h (disk w) ∨ survives (disk w) (disk w') ∧ running w' = ∅).
Proof.
  intros Hw%reachable_world Hf. destruct (Hw) as (Hb & _). destruct (Hb h f Hf) as [_ Hh].
  assert (Ho : Open h (disk w) = Ok (data f)) by (unfold Open; by rewrite Hf).
  split_and!; [done|done| |intros w' Hs; by eapply step_blob].
  unfold Verify. rewrite Ho. cbn. by rewrite bool_decide_true.
Qed.

Lemma Put_spec name chunks d :
  blobs_ok d → d !! tmp_path name = None →
  let content := concat chunks in
  let '(h, n, d') := Put name chunks d in
  h = sum content ∧ n = strlen content ∧ blobs_ok d' ∧ d' !! tmp_path name = None ∧
  (∀ h', h' ≠ h → Open h' d' = Open h' d) ∧
  Open h d' = if Has h d then Open h d else Ok content.
Proof.
  intros Hb Hn. rewrite Put_eq by done. cbv zeta. set (h := sum (concat chunks)). unfold Has, Open.
  destruct (d !! blob_path h) as [f|] eqn:Hf.
  - split_and!; [done..|]. rewrite Hf. by rewrite bool_decide_true.
  - split_and!; [done|done| | | |].
    + intros h' f'. destruct (decide (h = h')) as [<-|Hne]; [rewrite lookup_insert_eq; by intros [= <-]|].
      rewrite lookup_insert_ne by (by intros ?%blob_path_inj). apply Hb.
    + rewrite lookup_insert_ne; [done|]. apply blob_path_not_tmp.
    + intros h' Hne. rewrite lookup_insert_ne; [done|]. by intros ?%blob_path_inj.
    + rewrite lookup_insert_eq. rewrite bool_decide_false by (by intros [? ?]). done.
Qed.

(** Putting and opening. In a sound store [Put] returns the hash and the length of
    what the reader gave, however it gave it, and [Open] then returns content with
    that hash, the very bytes if the hash was not held before and what was held
    otherwise; other blobs, and the staging directory, are as before. *)
Theorem Put_Open name chunks d :
  blobs_ok d → d !! tmp_path name = None →
  let content := concat chunks in
  let '(h, n, d') := Put name chunks d in
  h = sum content ∧ n = strlen content ∧ blobs_ok d' ∧ d' !! tmp_path name = None ∧
  (∀ h', h' ≠ h → Open h' d' = Open h' d) ∧
  Open h d' = if Has h d then Open h d else Ok content.
Proof. apply Put_spec. Qed.
End facts.
