(* ===== verification/Sneakernet.v ===== *)
(** * Carriers on removable media (internal/sneakernet/carrier.go, stream.go)

    The manifest of a carrier with its writer and reader, and the stream of file
    bodies behind it. A reader of a stream is the bytes it will give; failures of
    the medium itself are not modelled. *)

From stdpp Require Import strings.
From S2P Require Import Prelude Binary Identity Order VersionVector.
From S2P Require FileBody.
From S2P Require Import BlobStore.

Abbreviation AreaTag := (arr 4).
Abbreviation WireHash := (arr 16).

Definition Magic : bytes := str "MBXF".
Definition FormatVersion : byte := Byte.x03.
Definition MaxBundles : Z := 1024.
Definition MaxVectors : Z := 256.
Definition MaxBlobRefs : Z := 256.
Definition MaxRequests : Z := MaxBlobRefs.
Definition MaxBlobBytes : Z := Z.shiftl 256 20.
Definition MaxCarrierBytes : Z := Z.shiftl 64 20.

Inductive carrier_error :=
| ErrNotACarrier
| UnsupportedCarrierVersion (v : byte)
| ErrTruncated
| ErrTooMany (n : Z)
| ErrTooLarge (n : Z)
| EmptyBundle
| NoBlobHash
| NoRequestHash
| RepeatedArea (a : AreaTag)
| RepeatedRequest (h : WireHash)
| BadVector (e : vv_error)
| TrailingBytes (n : Z)
| NotReencoded (e : carrier_error)
| ErrNotCanonical.

Record BlobRef := mkBlobRef { ref_Hash : Hash; ref_Size : Z (* uint64 *) }.

Record Carrier := mkCarrier {
  C_Origin : NodeID;
  CreatedAt : Z;  (* uint32 *)
  MinDictionary : byte;
  Vectors : gmap AreaTag Vector;
  Bundles : list bytes;
  Blobs : list BlobRef;
  Requests : list WireHash
}.

#[export] Instance BlobRef_eq_dec : EqDecision BlobRef.
Proof. solve_decision. Defined.
#[export] Instance Carrier_eq_dec : EqDecision Carrier.
Proof. solve_decision. Defined.
#[export] Instance vv_error_eq_dec : EqDecision vv_error.
Proof. solve_decision. Defined.
#[export] Instance carrier_error_eq_dec : EqDecision carrier_error.
Proof. solve_decision. Defined.

(** [sortAreas]; an insertion sort of distinct tags. *)
Definition sorted_vectors (m : gmap AreaTag Vector) : list (AreaTag * Vector) :=
  sort_by fst less_arr (map_to_list m).

(** ** Writing the manifest *)

(** Each entry of a section in turn, up to the first that is refused. *)
Fixpoint write_all {A : Type} (f : A → result carrier_error bytes) (l : list A) : result carrier_error bytes :=
  match l with
  | [] => Ok []
  | x :: l' => b ← f x; bs ← write_all f l'; Ok (b ++ bs)
  end.

Definition write_counted (b : bytes) : bytes := append_uvarint (strlen b) ++ b.
Definition write_vector (e : AreaTag * Vector) : bytes := vec_to_list e.1 ++ write_counted (Encode e.2).

Definition write_bundle (b : bytes) : result carrier_error bytes :=
  _ ← require (negb (strlen b =? 0)) EmptyBundle; Ok (write_counted b).

Definition write_blob (b : BlobRef) : result carrier_error bytes :=
  _ ← require (negb (Hash_IsZero (ref_Hash b))) NoBlobHash;
  _ ← require (negb (MaxBlobBytes <? ref_Size b)) (ErrTooMany (ref_Size b));
  Ok (vec_to_list (ref_Hash b) ++ append_uvarint (ref_Size b)).

Fixpoint write_requests (seen : list WireHash) (l : list WireHash) : result carrier_error bytes :=
  match l with
  | [] => Ok []
  | h :: l' =>
      _ ← require (negb (bool_decide (h = zero_arr 16))) NoRequestHash;
      _ ← require (negb (bool_decide (h ∈ seen))) (RepeatedRequest h);
      bs ← write_requests (h :: seen) l'; Ok (vec_to_list h ++ bs)
  end.

Definition count {A : Type} (l : list A) : Z := Z.of_nat (length l).

Definition Encode (c : Carrier) : result carrier_error bytes :=
  let areas := sorted_vectors (Vectors c) in
  _ ← require (negb (MaxVectors <? Z.of_nat (size (Vectors c)))) (ErrTooMany (Z.of_nat (size (Vectors c))));
  _ ← require (negb (MaxBundles <? count (Bundles c))) (ErrTooMany (count (Bundles c)));
  _ ← require (negb (MaxBlobRefs <? count (Blobs c))) (ErrTooMany (count (Blobs c)));
  _ ← require (negb (MaxRequests <? count (Requests c))) (ErrTooMany (count (Requests c)));
  bundles ← write_all write_bundle (Bundles c);
  blobs ← write_all write_blob (Blobs c);
  requests ← write_requests [] (Requests c);
  let buf :=
    Magic ++ [FormatVersion] ++ vec_to_list (C_Origin c) ++ be_bytes 4 (CreatedAt c) ++ [MinDictionary c] ++
    append_uvarint (count areas) ++ (areas ≫= write_vector) ++
    append_uvarint (count (Bundles c)) ++ bundles ++
    append_uvarint (count (Blobs c)) ++ blobs ++
    append_uvarint (count (Requests c)) ++ requests in
  _ ← require (negb (MaxCarrierBytes <? strlen buf)) (ErrTooLarge (strlen buf));
  Ok buf.

(** ** Reading it *)

Definition uvarint_of (b : bytes) : result carrier_error (Z * bytes) := read_uvarint ErrTruncated b.

(** A length and that many bytes. *)
Definition take_counted (e : option carrier_error) (b : bytes) : result carrier_error (bytes * bytes) :=
  '(n, b) ← uvarint_of b;
  _ ← (match e with Some e => require (negb (n =? 0)) e | None => Ok tt end);
  _ ← require (n <=? strlen b) ErrTruncated;
  take_n ErrTruncated (Z.to_nat n) b.

Fixpoint read_vectors (n : nat) (acc : gmap AreaTag Vector) (b : bytes)
    : result carrier_error (gmap AreaTag Vector * bytes) :=
  match n with
  | O => Ok (acc, b)
  | S n' =>
      '(a, b) ← take_arr ErrTruncated 4 b;
      '(body, b) ← take_counted None b;
      v ← wrap_err BadVector (Decode body);
      match acc !! a with
      | Some _ => Err (RepeatedArea a)
      | None => read_vectors n' (<[a := v]> acc) b
      end
  end.

Fixpoint read_list {A : Type} (f : bytes → result carrier_error (A * bytes)) (n : nat) (b : bytes)
    : result carrier_error (list A * bytes) :=
  match n with
  | O => Ok ([], b)
  | S n' => '(x, b) ← f b; '(l, b) ← read_list f n' b; Ok (x :: l, b)
  end.

Definition read_blob (b : bytes) : result carrier_error (BlobRef * bytes) :=
  '(h, b) ← take_arr ErrTruncated 32 b;
  '(size, b) ← uvarint_of b;
  _ ← require (size <=? MaxBlobBytes) (ErrTooMany size);
  _ ← require (negb (Hash_IsZero h)) NoBlobHash;
  Ok (mkBlobRef h size, b).

Definition read_request (b : bytes) : result carrier_error (WireHash * bytes) :=
  '(h, b) ← take_arr ErrTruncated 16 b;
  _ ← require (negb (bool_decide (h = zero_arr 16))) NoRequestHash;
  Ok (h, b).

(** A section: how many entries, at most [limit], and the entries. *)
Definition read_count (limit : Z) (b : bytes) : result carrier_error (nat * bytes) :=
  '(n, b) ← uvarint_of b;
  _ ← require (n <=? limit) (ErrTooMany n);
  Ok (Z.to_nat n, b).

(** [decode] up to the last field: the carrier and what is left. *)
Definition read_fields (b : bytes) : result carrier_error (Carrier * bytes) :=
  '(magic, b) ← take_n ErrNotACarrier 4 b;
  _ ← require (bool_decide (magic = Magic)) ErrNotACarrier;
  '(v, b) ← take_byte ErrTruncated b;
  _ ← require (bool_decide (v = FormatVersion)) (UnsupportedCarrierVersion v);
  '(origin, b) ← take_arr ErrTruncated 8 b;
  '(created, b) ← take_be ErrTruncated 4 b;
  '(minDict, b) ← take_byte ErrTruncated b;
  '(n, b) ← read_count MaxVectors b;
  '(vectors, b) ← read_vectors n ∅ b;
  '(n, b) ← read_count MaxBundles b;
  '(bundles, b) ← read_list (take_counted (Some EmptyBundle)) n b;
  '(n, b) ← read_count MaxBlobRefs b;
  '(blobs, b) ← read_list read_blob n b;
  '(n, b) ← read_count MaxRequests b;
  '(requests, b) ← read_list read_request n b;
  Ok (mkCarrier origin created minDict vectors bundles blobs requests, b).

Definition decode (data : bytes) (allowTrailing : bool) : result carrier_error (Carrier * Z) :=
  _ ← require (strlen data <=? MaxCarrierBytes) (ErrTooLarge (strlen data));
  '(c, rest) ← read_fields data;
  let consumed := (length data - length rest)%nat in
  _ ← require (bool_decide (rest = []) || allowTrailing) (TrailingBytes (strlen rest));
  reencoded ← wrap_err NotReencoded (Encode c);
  _ ← require (bool_decide (reencoded = take consumed data)) ErrNotCanonical;
  Ok (c, Z.of_nat consumed).

Definition Decode (data : bytes) : result carrier_error Carrier := '(c, _) ← decode data false; Ok c.

(** ** The stream: the manifest, then each declared body *)

Section stream.
Context `{HB : Blake3}.

Inductive write_error :=
| ManifestRefused (e : carrier_error)
| NoSource
| OpenFailed (e : blob_error)
| WrongLength (h : Hash) (n want : Z).

Fixpoint write_bodies (open : option (Hash → result blob_error bytes)) (refs : list BlobRef) : bytes * option write_error :=
  match refs with
  | [] => ([], None)
  | ref :: refs' =>
      match open with
      | None => ([], Some NoSource)
      | Some open_ =>
          match open_ (ref_Hash ref) with
          | Err e => ([], Some (OpenFailed e))
          | Ok body =>
              let copied := take (Z.to_nat (ref_Size ref)) body in
              if negb (strlen copied =? ref_Size ref)
              then (copied, Some (WrongLength (ref_Hash ref) (strlen copied) (ref_Size ref)))
              else let '(rest, e) := write_bodies open refs' in (copied ++ rest, e)
          end
      end
  end.

(** What went out, and the error if there was one. *)
Definition Write (c : Carrier) (open : option (Hash → result blob_error bytes)) : bytes * option write_error :=
  match Encode c with
  | Err e => ([], Some (ManifestRefused e))
  | Ok manifest => let '(bodies, e) := write_bodies open (Blobs c) in (manifest ++ bodies, e)
  end.

Inductive read_error :=
| BadManifest (e : carrier_error)
| BytesAfterManifest (n : Z)
| NoBlobStore (n : Z)
| ErrShortBlob (n want : Z)
| ErrBlobMismatch (declared carried : Hash)
| BytesAfterBodies.

(** Each declared body into the store; what is left of the stream. *)
Fixpoint store_bodies (refs : list BlobRef) (bodies : bytes) (into : Store) : result read_error bytes * Store :=
  match refs with
  | [] => (Ok bodies, into)
  | ref :: refs' =>
      let size := Z.to_nat (ref_Size ref) in
      let '(got, n, into) := Put (temp_name into) [take size bodies] into in
      if negb (n =? ref_Size ref) then (Err (ErrShortBlob n (ref_Size ref)), into)
      else if negb (bool_decide (got = ref_Hash ref)) then (Err (ErrBlobMismatch (ref_Hash ref) got), into)
      else store_bodies refs' (drop size bodies) into
  end.

Definition Read (stream : bytes) (into : option Store) : result read_error Carrier * option Store :=
  let head := take (Z.to_nat (MaxCarrierBytes + 1)) stream in
  match decode head true with
  | Err e => (Err (BadManifest e), into)
  | Ok (c, consumed) =>
      if bool_decide (Blobs c = [])
      then if negb (consumed =? strlen head) then (Err (BytesAfterManifest (strlen head - consumed)), into) else (Ok c, into)
      else match into with
           | None => (Err (NoBlobStore (count (Blobs c))), None)
           | Some d =>
               let bodies := drop (Z.to_nat consumed) head ++ drop (Z.to_nat (MaxCarrierBytes + 1)) stream in
               match store_bodies (Blobs c) bodies d with
               | (Err e, d) => (Err e, Some d)
               | (Ok tail, d) => (if bool_decide (tail = []) then Ok c else Err BytesAfterBodies, Some d)
               end
           end
  end.

Definition ReadManifest (stream : bytes) : result carrier_error Carrier :=
  '(c, _) ← decode (take (Z.to_nat (MaxCarrierBytes + 1)) stream) true; Ok c.
End stream.

(** ** One carrier, one wire form *)

Definition wf_carrier (c : Carrier) : Prop :=
  is_u32 (CreatedAt c) ∧
  map_Forall (λ _ v, wf_vector v ∧ Len v ≤ MaxOrigins) (Vectors c) ∧
  Forall (λ r, 0 ≤ ref_Size r) (Blobs c).

Definition good_blob (r : BlobRef) : Prop := ref_Hash r ≠ zero_hash ∧ ref_Size r ≤ MaxBlobBytes.
Definition good_requests (l : list WireHash) : Prop := NoDup l ∧ zero_arr 16 ∉ l.

Definition blob_bytes (r : BlobRef) : bytes := vec_to_list (ref_Hash r) ++ append_uvarint (ref_Size r).
Definition request_bytes (h : WireHash) : bytes := vec_to_list h.

Definition within_limits (c : Carrier) : Prop :=
  Z.of_nat (size (Vectors c)) ≤ MaxVectors ∧ count (Bundles c) ≤ MaxBundles ∧
  count (Blobs c) ≤ MaxBlobRefs ∧ count (Requests c) ≤ MaxRequests.

(** The manifest of a carrier within its limits. *)
Definition manifest (c : Carrier) : bytes :=
  Magic ++ [FormatVersion] ++ vec_to_list (C_Origin c) ++ be_bytes 4 (CreatedAt c) ++ [MinDictionary c] ++
  append_uvarint (Z.of_nat (size (Vectors c))) ++ (sorted_vectors (Vectors c) ≫= write_vector) ++
  append_uvarint (count (Bundles c)) ++ (Bundles c ≫= write_counted) ++
  append_uvarint (count (Blobs c)) ++ (Blobs c ≫= blob_bytes) ++
  append_uvarint (count (Requests c)) ++ (Requests c ≫= request_bytes).

Lemma length_sorted_vectors m : length (sorted_vectors m) = size m.
Proof. unfold sorted_vectors. by rewrite length_sort_by, length_map_to_list. Qed.

Lemma require_not_lt {E : Type} a b (e : E) u : require (negb (a <? b)) e = Ok u ↔ b ≤ a.
Proof. by rewrite require_Ok, negb_true_iff, Z.ltb_ge. Qed.

Lemma write_all_Ok {A : Type} (f : A → result carrier_error bytes) (P : A → Prop) (g : A → bytes) l b :
  (∀ x b, f x = Ok b ↔ P x ∧ b = g x) → write_all f l = Ok b ↔ Forall P l ∧ b = l ≫= g.
Proof.
  intros Hf. revert b. induction l as [|x l IH]; intros b; cbn [write_all]; [rewrite Ok_inj; naive_solver|].
  rewrite bind_Ok, Forall_cons, bind_cons. setoid_rewrite bind_Ok. setoid_rewrite IH. setoid_rewrite Hf.
  setoid_rewrite Ok_inj. naive_solver.
Qed.

Lemma write_bundle_Ok b w : write_bundle b = Ok w ↔ b ≠ [] ∧ w = write_counted b.
Proof.
  unfold write_bundle. rewrite bind_unit_Ok, require_Ok, negb_true_iff, Z.eqb_neq, Ok_inj. unfold strlen.
  destruct b; naive_solver (cbn; lia).
Qed.

Lemma write_blob_Ok r w : write_blob r = Ok w ↔ good_blob r ∧ w = blob_bytes r.
Proof.
  unfold write_blob, good_blob, Hash_IsZero.
  rewrite !bind_unit_Ok, require_neg_decide, require_not_lt, Ok_inj. naive_solver.
Qed.

Lemma write_requests_Ok seen l w :
  write_requests seen l = Ok w ↔
  good_requests l ∧ (∀ h, h ∈ l → h ∉ seen) ∧ w = l ≫= request_bytes.
Proof.
  unfold good_requests. revert seen w. induction l as [|h l IH]; intros seen w; cbn [write_requests].
  { rewrite Ok_inj. split; [intros <-|by intros (_ & _ & ->)]. split_and!; [constructor|set_solver..|done]. }
  rewrite !bind_unit_Ok, !require_neg_decide, bind_Ok, NoDup_cons, bind_cons. setoid_rewrite IH. setoid_rewrite Ok_inj. split.
  - intros (Hz & Hs & bs & ((Hn & Hz') & Hin & ->) & <-). split_and!; [set_solver..|done].
  - intros (((Hh & Hn) & Hz) & Hin & ->). split_and!; [set_solver..|]. eexists. split; [|reflexivity]. split_and!; [done|set_solver..|done].
Qed.

Lemma Encode_Ok c m :
  Encode c = Ok m ↔
  within_limits c ∧ Forall (λ b, b ≠ []) (Bundles c) ∧ Forall good_blob (Blobs c) ∧ good_requests (Requests c) ∧
  m = manifest c ∧ strlen m ≤ MaxCarrierBytes.
Proof.
  unfold Encode, within_limits. cbv zeta. rewrite !bind_unit_Ok, !require_not_lt, bind_Ok.
  setoid_rewrite bind_Ok. setoid_rewrite bind_Ok. setoid_rewrite bind_unit_Ok. setoid_rewrite require_not_lt. setoid_rewrite Ok_inj.
  setoid_rewrite (write_all_Ok _ _ _ _ _ write_bundle_Ok). setoid_rewrite (write_all_Ok _ _ _ _ _ write_blob_Ok).
  setoid_rewrite write_requests_Ok. unfold manifest.
  rewrite <- (length_sorted_vectors (Vectors c)) at 3. fold (count (sorted_vectors (Vectors c))). split.
  - intros (? & ? & ? & ? & bs & [? ->] & ls & [? ->] & rs & (? & ? & ->) & ? & <-). done.
  - intros ((? & ? & ? & ?) & ? & ? & ? & -> & ?). split_and!; [done..|].
    eexists. split; [by split|]. eexists. split; [by split|]. eexists. split; [split_and!; [done|set_solver|done]|]. done.
Qed.

Lemma read_list_app {A : Type} (f : bytes → result carrier_error (A * bytes)) (P : A → Prop) (g : A → bytes) l r :
  (∀ x r, P x → f (g x ++ r) = Ok (x, r)) → Forall P l → read_list f (length l) ((l ≫= g) ++ r) = Ok (l, r).
Proof.
  intros Hf. induction 1 as [|x l Hx _ IH]; [done|]. rewrite bind_cons, <- app_assoc. cbn [read_list length].
  run (by apply Hf). run (exact IH). done.
Qed.

Lemma take_counted_app e b r :
  (e = None ∨ b ≠ []) → is_u64 (strlen b) → take_counted e (write_counted b ++ r) = Ok (b, r).
Proof.
  intros He Hb. unfold take_counted, write_counted. rewrite <- app_assoc.
  run (by apply read_uvarint_append). eapply (bind_step _ _ tt).
  { destruct e as [e|]; [|done]. destruct He as [|He]; [done|]. apply require_Ok, negb_true_iff, Z.eqb_neq.
    destruct b; [done|]. unfold strlen. cbn [length]. lia. }
  cbn beta. run (apply require_Ok, Z.leb_le; unfold strlen; rewrite length_app; lia).
  apply take_n_app. unfold strlen. by rewrite Nat2Z.id.
Qed.

Lemma read_count_app limit n r : Z.of_nat n ≤ limit → limit < 2 ^ 64 → read_count limit (append_uvarint (Z.of_nat n) ++ r) = Ok (n, r).
Proof.
  intros Hn Hl. unfold read_count. run (apply read_uvarint_append; widths).
  run (by apply require_Ok, Z.leb_le). by rewrite Nat2Z.id.
Qed.

Lemma read_blob_app x r : 0 ≤ ref_Size x → good_blob x → read_blob (blob_bytes x ++ r) = Ok (x, r).
Proof.
  intros H0 [Hz Hm]. unfold read_blob, blob_bytes. rewrite <- app_assoc. run (by apply take_arr_Ok).
  run (apply read_uvarint_append; unfold MaxBlobBytes in Hm; change (Z.shiftl 256 20) with 268435456 in Hm; widths).
  run (by apply require_Ok, Z.leb_le). run (by apply require_neg_decide). by destruct x.
Qed.

Lemma read_request_app h r : h ≠ zero_arr 16 → read_request (request_bytes h ++ r) = Ok (h, r).
Proof. intros Hz. unfold read_request, request_bytes. run (by apply take_arr_Ok). by run (by apply require_neg_decide). Qed.

Lemma read_vectors_app l acc r :
  NoDup l.*1 → Forall (λ e, wf_vector e.2 ∧ Len e.2 ≤ MaxOrigins ∧ strlen (VersionVector.Encode e.2) < 2 ^ 64 ∧ acc !! e.1 = None) l →
  read_vectors (length l) acc ((l ≫= write_vector) ++ r) = Ok (list_to_map l ∪ acc, r).
Proof.
  revert acc. induction l as [|[a v] l IH]; intros acc Hnd Hall.
  { cbn. by rewrite map_empty_union. }
  cbn [fmap list_fmap fst] in Hnd. apply NoDup_cons in Hnd as [Ha Hnd]. apply Forall_cons in Hall as [(Hw & Hl & Hb & Hacc) Hall].
  cbn [fst snd] in *. rewrite bind_cons, <- app_assoc. unfold write_vector at 1. cbn [fst snd read_vectors length].
  rewrite <- app_assoc. run (by apply take_arr_Ok). run (apply take_counted_app; [by left|unfold strlen in *; widths]).
  run (by apply wrap_err_Ok, Decode_spec). rewrite Hacc. rewrite IH; [|done|].
  - cbn [list_to_map foldr uncurry]. do 2 f_equal. rewrite <- insert_union_l, <- insert_union_r; [done|].
    by apply not_elem_of_list_to_map.
  - rewrite Forall_forall in Hall. apply Forall_forall. intros e He. destruct (Hall e He) as (? & ? & ? & ?).
    split_and!; [done..|]. rewrite lookup_insert_ne; [done|]. intros ->. apply Ha. apply list_elem_of_fmap. by exists e.
Qed.

Lemma length_bind_elem {A : Type} (g : A → bytes) l x : x ∈ l → (length (g x) ≤ length (l ≫= g))%nat.
Proof.
  induction 1 as [x l|x y l _ IH]; rewrite bind_cons, length_app; lia.
Qed.

Lemma length_write_counted b : (length b ≤ length (write_counted b))%nat.
Proof. unfold write_counted. rewrite length_app. lia. Qed.
Lemma length_write_vector e : (length (VersionVector.Encode e.2) ≤ length (write_vector e))%nat.
Proof. unfold write_vector. rewrite length_app. pose proof (length_write_counted (VersionVector.Encode e.2)). lia. Qed.

Lemma sorted_vectors_NoDup m : NoDup (sorted_vectors m).*1.
Proof.
  assert (H : sorted_vectors m ≡ₚ map_to_list m) by apply sort_by_Permutation.
  rewrite H. apply NoDup_fst_map_to_list.
Qed.

Lemma sorted_vectors_map m : list_to_map (sorted_vectors m) = m.
Proof.
  rewrite <- (list_to_map_to_list m) at 2. apply list_to_map_proper; [apply sorted_vectors_NoDup|].
  apply sort_by_Permutation.
Qed.

Lemma elem_of_sorted_vectors m e : e ∈ sorted_vectors m → m !! e.1 = Some e.2.
Proof.
  assert (H : sorted_vectors m ≡ₚ map_to_list m) by apply sort_by_Permutation.
  rewrite H. destruct e. apply elem_of_map_to_list.
Qed.

(** The entries of each section are shorter than the manifest. *)
Lemma manifest_bounds c :
  let n := length (manifest c) in
  (length (sorted_vectors (Vectors c) ≫= write_vector) ≤ n)%nat ∧ (length (Bundles c ≫= write_counted) ≤ n)%nat.
Proof. cbv zeta. unfold manifest. rewrite !length_app. lia. Qed.

Lemma read_fields_app c m r : wf_carrier c → Encode c = Ok m → read_fields (m ++ r) = Ok (c, r).
Proof.
  intros (Hcr & Hv & Hsz) ((Hlv & Hlb & Hll & Hlr) & Hb & Hbl & (Hnd & Hz) & -> & Hmax)%Encode_Ok.
  pose proof (manifest_bounds c) as [Hbv Hbb]. change MaxCarrierBytes with 67108864 in Hmax. unfold strlen in Hmax.
  unfold read_fields, manifest. rewrite <- !app_assoc. unfold MaxVectors, MaxBundles, MaxBlobRefs, MaxRequests in *.
  run (by apply take_n_app). run (by apply require_Ok, bool_decide_eq_true). run (by apply take_byte_Ok).
  run (by apply require_Ok, bool_decide_eq_true). run (by apply take_arr_Ok). run (by apply take_be_Ok). run (by apply take_byte_Ok).
  run (by apply read_count_app).
  rewrite <- (length_sorted_vectors (Vectors c)).
  eapply bind_step.
  { apply read_vectors_app; [apply sorted_vectors_NoDup|]. apply Forall_forall. intros e He.
    pose proof (Hv _ _ (elem_of_sorted_vectors _ _ He)) as [? ?]. split_and!; [done|done| |by apply lookup_empty].
    pose proof (length_bind_elem write_vector _ _ He). pose proof (length_write_vector e). unfold strlen. lia. }
  cbn beta iota. rewrite map_union_empty, sorted_vectors_map.
  run (by apply read_count_app).
  eapply bind_step.
  { apply (read_list_app _ (λ b, b ≠ [] ∧ is_u64 (strlen b)) write_counted).
    - intros x r' [Hx Hu]. apply take_counted_app; [by right|done].
    - rewrite Forall_forall in Hb. apply Forall_forall. intros b He. split; [by apply Hb|].
      pose proof (length_bind_elem write_counted _ _ He). pose proof (length_write_counted b). unfold strlen. widths. }
  cbn beta iota. run (by apply read_count_app).
  eapply bind_step.
  { apply (read_list_app _ (λ b, 0 ≤ ref_Size b ∧ good_blob b) blob_bytes); [|by apply Forall_and].
    intros x r' [? ?]. by apply read_blob_app. }
  cbn beta iota. run (by apply read_count_app).
  eapply bind_step.
  { apply (read_list_app _ (λ h, h ≠ zero_arr 16) request_bytes); [apply read_request_app|].
    apply Forall_forall. intros h Hh ->. done. }
  cbn beta iota. by destruct c.
Qed.

Lemma read_vectors_wf n acc b m r :
  map_Forall (λ _ v, wf_vector v ∧ Len v ≤ MaxOrigins) acc → read_vectors n acc b = Ok (m, r) →
  map_Forall (λ _ v, wf_vector v ∧ Len v ≤ MaxOrigins) m.
Proof.
  revert acc b. induction n as [|n IH]; intros acc b Ha; cbn [read_vectors]; [by intros [= <- _]|].
  intros ([a b1] & _ & H)%bind_Ok. apply bind_Ok in H as ([body b2] & _ & H).
  apply bind_Ok in H as (v & [Hw [Hl _]]%wrap_err_Ok%Decode_spec & H). destruct (acc !! a); [done|].
  eapply IH; [|exact H]. by apply map_Forall_insert_2.
Qed.

Lemma read_blobs_wf n b l r : read_list read_blob n b = Ok (l, r) → Forall (λ x, 0 ≤ ref_Size x) l.
Proof.
  revert b l. induction n as [|n IH]; intros b l; cbn [read_list]; [by intros [= <- _]|].
  intros ([x b1] & Hx & H)%bind_Ok. apply bind_Ok in H as ([l' b2] & Hl & [= <- <-]). constructor; [|by eapply IH].
  unfold read_blob in Hx. apply bind_Ok in Hx as ([h b3] & _ & Hx). apply bind_Ok in Hx as ([size b4] & Hs & Hx).
  apply bind_unit_Ok in Hx as [_ Hx]. apply bind_unit_Ok in Hx as [_ [= <- <-]]. cbn.
  unfold uvarint_of in Hs. apply read_uvarint_sound in Hs as [Hs _]. widths.
Qed.

Lemma read_fields_wf b c r : read_fields b = Ok (c, r) → wf_carrier c.
Proof.
  unfold read_fields. intros ([? ?] & _ & H)%bind_Ok. apply bind_unit_Ok in H as [_ H].
  apply bind_Ok in H as ([? ?] & _ & H). apply bind_unit_Ok in H as [_ H]. apply bind_Ok in H as ([? ?] & _ & H).
  apply bind_Ok in H as ([? ?] & [_ Hc]%take_be_Ok & H). apply bind_Ok in H as ([? ?] & _ & H).
  apply bind_Ok in H as ([? ?] & _ & H). apply bind_Ok in H as ([? ?] & Hv & H).
  apply bind_Ok in H as ([? ?] & _ & H). apply bind_Ok in H as ([? ?] & _ & H).
  apply bind_Ok in H as ([? ?] & _ & H). apply bind_Ok in H as ([? ?] & Hb & H).
  apply bind_Ok in H as ([? ?] & _ & H). apply bind_Ok in H as ([? ?] & _ & [= <- <-]).
  split_and!; cbn; [done| |by eapply read_blobs_wf]. eapply read_vectors_wf; [|exact Hv]. apply map_Forall_empty.
Qed.

Lemma decode_spec data tr c n :
  decode data tr = Ok (c, n) ↔
  wf_carrier c ∧ strlen data ≤ MaxCarrierBytes ∧
  ∃ m rest, data = m ++ rest ∧ n = strlen m ∧ Encode c = Ok m ∧ (rest = [] ∨ tr = true).
Proof.
  unfold decode. rewrite bind_unit_Ok, require_Ok, Z.leb_le. split.
  - intros (Hmax & ([c' rest] & Hf & H)%bind_Ok). apply bind_unit_Ok in H as [Htr%require_Ok H].
    apply bind_Ok in H as (m & He%wrap_err_Ok & H). apply bind_unit_Ok in H as [Hm%require_Ok%bool_decide_eq_true [= <- <-]].
    split; [by eapply read_fields_wf|]. split; [done|]. set (k := (length data - length rest)%nat) in *.
    exists m, (drop k data). rewrite Hm, take_drop. split_and!; [done| |by rewrite <- Hm|].
    + unfold strlen. rewrite length_take. lia.
    + apply orb_true_iff in Htr as [->%bool_decide_eq_true| ->]; [left|by right]. apply drop_ge. cbn in k. lia.
  - intros (Hwf & Hmax & m & rest & -> & -> & He & Htr). split; [done|].
    run (by apply read_fields_app). run (apply require_Ok, orb_true_iff; destruct Htr as [->|]; [left; by apply bool_decide_eq_true|by right]).
    run (by apply wrap_err_Ok). rewrite length_app. replace (length m + length rest - length rest)%nat with (length m) by lia.
    rewrite take_app_length. by run (by apply require_Ok, bool_decide_eq_true).
Qed.

(** One carrier, one manifest. A byte string is read as a carrier exactly when it
    is the encoding of that well-formed carrier, followed by nothing unless file
    bodies may follow; then the reader stops exactly at the end of the manifest. No
    second byte string is read as the same carrier. *)
Theorem decode_iff data tr c n :
  decode data tr = Ok (c, n) ↔
  wf_carrier c ∧ strlen data ≤ MaxCarrierBytes ∧
  ∃ m rest, data = m ++ rest ∧ n = strlen m ∧ Encode c = Ok m ∧ (rest = [] ∨ tr = true).
Proof. apply decode_spec. Qed.

(** ** Carrying files *)

Section files.
Context `{HB : Blake3}.

(** A body that is what its reference says. *)
Definition body_of (ref : BlobRef) (body : bytes) : Prop := strlen body = ref_Size ref ∧ sum body = ref_Hash ref.

Lemma take_drop_size (body rest : bytes) n :
  n = strlen body → take (Z.to_nat n) (body ++ rest) = body ∧ drop (Z.to_nat n) (body ++ rest) = rest.
Proof. intros ->. unfold strlen. rewrite Nat2Z.id. split; [apply take_app_length|apply drop_app_length]. Qed.

Lemma write_bodies_ok open refs bodies :
  Forall2 (λ ref b, open (ref_Hash ref) = Ok b ∧ strlen b = ref_Size ref) refs bodies →
  write_bodies (Some open) refs = (concat bodies, None).
Proof.
  induction 1 as [|ref b refs bodies [Ho Hs] _ IH]; [done|]. cbn [write_bodies concat]. rewrite Ho.
  pose proof (take_drop_size b [] (ref_Size ref) (eq_sym Hs)) as [Ht _]. rewrite app_nil_r in Ht.
  cbv zeta. rewrite Ht, Hs, Z.eqb_refl. cbn [negb]. by rewrite IH.
Qed.

(** What a store holds after a body went in. *)
Definition holds_also (d d' : Store) (ref : BlobRef) (body : bytes) : Prop :=
  ∀ h, Open h d' = if Has h d then Open h d else if decide (h = ref_Hash ref) then Ok body else Err (ErrNotFound h).

Lemma Open_not_held h d : Has h d = false → Open h d = Err (ErrNotFound h).
Proof. unfold Has, Open. rewrite bool_decide_eq_false. destruct (d !! blob_path h); [intros []; eauto|done]. Qed.
Lemma Open_held h d : Has h d = true ↔ ∃ b, Open h d = Ok b.
Proof. unfold Has, Open. rewrite bool_decide_eq_true. destruct (d !! blob_path h); split; [eauto|eauto|intros []; done|intros []; done]. Qed.

Lemma Put_body d body ref :
  blobs_ok d → body_of ref body →
  ∃ d', Put (temp_name d) [body] d = (ref_Hash ref, ref_Size ref, d') ∧ blobs_ok d' ∧ holds_also d d' ref body.
Proof.
  intros Hb [Hs Hh]. pose proof (Put_spec (temp_name d) [body] d Hb (temp_name_fresh d)) as Hp. cbv zeta in Hp.
  destruct (Put (temp_name d) [body] d) as [[h n] d']. cbn [concat] in Hp. rewrite app_nil_r in Hp.
  destruct Hp as (-> & -> & Hb' & _ & Hother & Hopen). exists d'. rewrite Hs, Hh in *. split_and!; [done..|].
  intros h. destruct (decide (h = ref_Hash ref)) as [->|Hne]; [done|]. rewrite Hother by done.
  destruct (Has h d) eqn:E; [done|]. by apply Open_not_held.
Qed.

(** What is held stays, and is joined by the bodies. *)
Definition received (d d' : Store) (refs : list BlobRef) : Prop :=
  blobs_ok d' ∧ (∀ h, Has h d = true → Open h d' = Open h d) ∧ Forall (λ ref, Has (ref_Hash ref) d' = true) refs.

Lemma store_bodies_spec refs stream d :
  blobs_ok d →
  let '(r, d') := store_bodies refs stream d in
  blobs_ok d' ∧ (∀ h, Has h d = true → Open h d' = Open h d) ∧
  ∀ tail, r = Ok tail → received d d' refs ∧ ∃ bodies, stream = concat bodies ++ tail ∧ Forall2 body_of refs bodies.
Proof.
  revert stream d. induction refs as [|ref refs IH]; intros stream d Hb; cbn [store_bodies].
  { split_and!; [done..|]. intros tail [= ->]. split; [by split_and!|]. by exists []. }
  set (body := take (Z.to_nat (ref_Size ref)) stream). cbv zeta.
  pose proof (Put_spec (temp_name d) [body] d Hb (temp_name_fresh d)) as Hp. cbv zeta in Hp.
  destruct (Put (temp_name d) [body] d) as [[h n] d1]. cbn [concat] in Hp. rewrite app_nil_r in Hp.
  destruct Hp as (-> & -> & Hb1 & _ & Hother & Hopen).
  assert (Hold : ∀ h, Has h d = true → Open h d1 = Open h d).
  { intros h Hh. destruct (decide (h = sum body)) as [->|Hne]; [by rewrite Hopen, Hh|by apply Hother]. }
  assert (Hhas : Has (sum body) d1 = true).
  { apply Open_held. rewrite Hopen. destruct (Has (sum body) d) eqn:E; [by apply Open_held|eauto]. }
  destruct (Z.eqb_spec (strlen body) (ref_Size ref)) as [Hs|Hs]; cbn [negb]; [|split_and!; [done..|by intros ? [=]]].
  case_bool_decide as Hh; cbn [negb]; [|split_and!; [done..|by intros ? [=]]].
  specialize (IH (drop (Z.to_nat (ref_Size ref)) stream) d1 Hb1).
  destruct (store_bodies refs (drop (Z.to_nat (ref_Size ref)) stream) d1) as [r d2]. destruct IH as (Hb2 & Hold2 & Hr).
  assert (Hold' : ∀ h, Has h d = true → Open h d2 = Open h d).
  { intros h Hd. rewrite Hold2; [by apply Hold|]. apply Open_held. rewrite Hold by done. by apply Open_held. }
  split_and!; [done..|]. intros tail ->. destruct (Hr tail eq_refl) as [(_ & _ & Hrefs) (bodies & Hbodies & Hall)].
  split.
  - split_and!; [done..|]. constructor; [|done]. rewrite <- Hh. apply Open_held. rewrite Hold2 by done. by apply Open_held.
  - exists (body :: bodies). split; [|by constructor]. cbn [concat]. rewrite <- app_assoc, <- Hbodies. unfold body. by rewrite take_drop.
Qed.

Lemma store_bodies_ok refs bodies d :
  blobs_ok d → Forall2 body_of refs bodies →
  ∃ d', store_bodies refs (concat bodies) d = (Ok [], d').
Proof.
  intros Hb H. revert d Hb. induction H as [|ref body refs bodies Hbody _ IH]; intros d Hb; cbn [store_bodies concat]; [eauto|].
  destruct (take_drop_size body (concat bodies) (ref_Size ref) (eq_sym (proj1 Hbody))) as [-> ->]. cbv zeta.
  destruct (Put_body d body ref Hb Hbody) as (d1 & -> & Hb1 & _). rewrite Z.eqb_refl, bool_decide_true by done. cbn [negb].
  by apply IH.
Qed.

Lemma head_whole (stream : bytes) :
  strlen stream ≤ MaxCarrierBytes → take (Z.to_nat (MaxCarrierBytes + 1)) stream = stream ∧ drop (Z.to_nat (MaxCarrierBytes + 1)) stream = [].
Proof. intros Hm. unfold strlen in Hm. split; [apply take_ge|apply drop_ge]; lia. Qed.

Lemma head_cut (stream : bytes) :
  MaxCarrierBytes < strlen stream → strlen (take (Z.to_nat (MaxCarrierBytes + 1)) stream) = MaxCarrierBytes + 1.
Proof. intros Hm. assert (0 ≤ MaxCarrierBytes) by done. unfold strlen in *. rewrite length_take. lia. Qed.

Lemma decode_too_large data tr : MaxCarrierBytes < strlen data → decode data tr = Err (ErrTooLarge (strlen data)).
Proof. intros Hm. unfold decode, require. by rewrite (proj2 (Z.leb_gt _ _) Hm). Qed.

Lemma Read_Ok stream d c d' :
  blobs_ok d → Read stream (Some d) = (Ok c, Some d') →
  wf_carrier c ∧ strlen stream ≤ MaxCarrierBytes ∧ received d d' (Blobs c) ∧
  ∃ m bodies, Encode c = Ok m ∧ stream = m ++ concat bodies ∧ Forall2 body_of (Blobs c) bodies.
Proof.
  intros Hb. unfold Read. cbv zeta.
  destruct (Z.le_gt_cases (strlen stream) MaxCarrierBytes) as [Hm|Hm].
  2:{ rewrite decode_too_large; [done|]. rewrite head_cut by done. lia. }
  destruct (head_whole stream Hm) as [-> ->]. destruct (decode stream true) as [[c0 n]|e] eqn:Hd; [|done].
  apply decode_spec in Hd as (Hwf & _ & m & rest & -> & -> & He & _). case_bool_decide as Hbl.
  - destruct (Z.eqb_spec (strlen m) (strlen (m ++ rest))) as [Hl|Hl]; cbn [negb]; [|done]. intros [= <- <-].
    assert (rest = []) as ->. { unfold strlen in Hl. rewrite length_app in Hl. destruct rest; [done|cbn in Hl; lia]. }
    rewrite app_nil_r in Hm |- *. split_and!; [done..|by rewrite Hbl|]. exists m, []. rewrite app_nil_r, Hbl. by split_and!.
  - unfold strlen. rewrite Nat2Z.id, drop_app_length, app_nil_r.
    pose proof (store_bodies_spec (Blobs c0) rest d Hb) as Hs. destruct (store_bodies (Blobs c0) rest d) as [[tail|e] d1]; [|done].
    destruct Hs as (_ & _ & Hs). case_bool_decide as Ht; [|done]. intros [= <- <-]. subst tail.
    destruct (Hs [] eq_refl) as (Hrec & bodies & -> & Hall). rewrite app_nil_r in *. split_and!; [done..|]. by exists m, bodies.
Qed.

(** C38: what a carrier delivers is what it says. Whatever a stick holds, reading it
    never changes what the blob store holds under any hash and leaves the store
    sound; if it is accepted, the stream is the encoding of a well-formed carrier
    followed by exactly its declared bodies and nothing else, each of the declared
    length and hashing to its declared hash, and each is in the store. *)
Theorem Read_sound stream d r d' :
  blobs_ok d → Read stream (Some d) = (r, Some d') →
  blobs_ok d' ∧ (∀ h, Has h d = true → Open h d' = Open h d) ∧
  ∀ c, r = Ok c →
    wf_carrier c ∧ Forall (λ ref, ∃ b, Open (ref_Hash ref) d' = Ok b ∧ sum b = ref_Hash ref) (Blobs c) ∧
    ∃ m bodies, Encode c = Ok m ∧ stream = m ++ concat bodies ∧ Forall2 body_of (Blobs c) bodies.
Proof.
  intros Hb Hr. assert (Hkeep : blobs_ok d' ∧ (∀ h, Has h d = true → Open h d' = Open h d)).
  { revert Hr. unfold Read. cbv zeta. destruct (decode _ true) as [[c n]|e]; [|by intros [= _ <-]].
    case_bool_decide; [destruct (negb _); by intros [= _ <-]|].
    match goal with |- context [store_bodies ?refs ?s d] =>
      pose proof (store_bodies_spec refs s d Hb) as Hs; destruct (store_bodies refs s d) as [[tail|e] d1] end;
      destruct Hs as (? & ? & _); by intros [= _ <-]. }
  destruct Hkeep as [Hb' Hold]. split_and!; [done..|]. intros c ->.
  destruct (Read_Ok _ _ _ _ Hb Hr) as (Hwf & _ & (_ & _ & Hrefs) & Hstream). split_and!; [done| |done].
  eapply Forall_impl; [exact Hrefs|]. cbn beta. intros ref [b Ho]%Open_held. exists b. split; [done|].
  unfold Open in Ho. destruct (d' !! blob_path (ref_Hash ref)) as [f|] eqn:Hf; [|done]. injection Ho as <-. by apply (Hb' _ f).
Qed.

(** C39: writing and reading a stick. A carrier whose files the writer holds at their
    declared sizes is written whole: its manifest and then each body. The reader gets
    that carrier back, its store then also holds every file, unless the manifest and
    the bodies together exceed [MaxCarrierBytes], which is meant to bound the manifest
    alone: then the reader refuses the stick unread. *)
Theorem Write_Read c m src dst bodies :
  wf_carrier c → Encode c = Ok m → blobs_ok src → blobs_ok dst →
  Forall2 (λ ref b, Open (ref_Hash ref) src = Ok b ∧ strlen b = ref_Size ref) (Blobs c) bodies →
  let out := m ++ concat bodies in
  Write c (Some (λ h, Open h src)) = (out, None) ∧
  (strlen out ≤ MaxCarrierBytes → ∃ dst', Read out (Some dst) = (Ok c, Some dst') ∧ received dst dst' (Blobs c)) ∧
  (MaxCarrierBytes < strlen out → Read out (Some dst) = (Err (BadManifest (ErrTooLarge (MaxCarrierBytes + 1))), Some dst)).
Proof.
  intros Hwf He Hsrc Hdst Hall out.
  assert (Hbody : Forall2 body_of (Blobs c) bodies).
  { eapply Forall2_impl; [exact Hall|]. cbn beta. intros ref b [Ho Hs]. split; [done|]. unfold Open in Ho.
    destruct (src !! blob_path (ref_Hash ref)) as [f|] eqn:Hf; [|done]. injection Ho as <-. by apply (Hsrc _ f). }
  split_and!.
  - unfold Write. rewrite He. by rewrite (write_bodies_ok _ _ _ Hall).
  - intros Hm. assert (∃ d', Read out (Some dst) = (Ok c, Some d')) as [d' Hr].
    { unfold Read. cbv zeta. destruct (head_whole out Hm) as [-> ->].
      rewrite (proj2 (decode_spec out true c (strlen m))) by (split_and!; [done..|]; exists m, (concat bodies); auto).
      case_bool_decide as Hbl.
      - rewrite Hbl in Hbody. apply Forall2_nil_inv_l in Hbody as ->. unfold out. cbn [concat]. rewrite app_nil_r, Z.eqb_refl. eauto.
      - unfold strlen, out. rewrite Nat2Z.id, drop_app_length, app_nil_r.
        destruct (store_bodies_ok _ _ _ Hdst Hbody) as [d' ->]. rewrite bool_decide_true by done. eauto. }
    exists d'. split; [done|]. by eapply Read_Ok in Hr as (_ & _ & Hrec & _).
  - intros Hm. unfold Read. cbv zeta. rewrite decode_too_large; rewrite head_cut by done; [done|lia].
Qed.
End files.
