(* ===== verification/Exchange.v ===== *)
(** * Exchanging records by hand (internal/sneakernet/exchange.go)

    What goes on a stick and what is done with one that arrives. The log is the
    interface [Exporter] for the way out and [Importer] for the way in; a file row
    is its hash and name. Texts of reports are not modelled. *)

From S2P Require Import Prelude Binary Identity Order VersionVector.
From S2P Require FileBody Records.
From S2P Require Import Bundle BlobStore Sneakernet.

Abbreviation Rec := Records.Rec.
Abbreviation DictionarySet := (gmap byte Dictionary).

(** store.GossipStore, the half that reads and the half that writes. *)
Class Exporter (S : Type) := {
  ex_Areas : S → list AreaTag;
  ex_Vector : S → AreaTag → Vector;
  ex_Records : S → AreaTag → VersionVector.Range → list Rec
}.
Class Importer (S SE : Type) := im_Apply : S → AreaTag → list Rec → S * Z * option SE.

(** What an importer was asked to apply: every attempt, whatever it answered. *)
Class ImporterLog (S SE : Type) `{Importer S SE} := {
  im_log : S → list (AreaTag * list Rec);
  im_log_Apply s a rs : im_log (im_Apply s a rs).1.1 = im_log s ++ [(a, rs)]
}.

Record ExportOptions := mkExportOptions {
  Self : NodeID; Now : Z; Reply : option Carrier; opt_Areas : list AreaTag;
  opt_Blobs : list BlobRef; opt_Requests : list WireHash
}.

Inductive export_error := PackFailed (a : AreaTag) (e : bundle_error) | NeedsMoreBundles.
Inductive import_error (SE : Type) := DictionaryTooNew (need have : Z) | ApplyFailed (i : Z) (e : SE).
#[global] Arguments DictionaryTooNew {SE} _ _.
#[global] Arguments ApplyFailed {SE} _ _.

(** A loop whose rounds may fail. *)
Fixpoint fold_result {E A B : Type} (f : B → A → result E B) (b : B) (l : list A) : result E B :=
  match l with
  | [] => Ok b
  | x :: l' => b' ← f b x; fold_result f b' l'
  end.

Section export.
Context `{HB : Blake3, HE : Records.Ed25519, HZ : Zstd} {S : Type} `{HX : !Exporter S}.

(** The open batch and the bundles so far. *)
Abbreviation batching := (list Rec * list bytes)%type.

Definition flush (dict : Dictionary) (area : AreaTag) (s : batching) : result export_error batching :=
  match s with
  | ([], _) => Ok s
  | (batch, bundles) =>
      packed ← wrap_err (PackFailed area) (Pack (mkBundle area 0 Byte.x00 batch) dict);
      _ ← require (negb (MaxBundles <=? count bundles)) NeedsMoreBundles;
      Ok ([], bundles ++ [packed])
  end.

Definition add_record (dict : Dictionary) (area : AreaTag) (s : batching) (rec : Rec) : result export_error batching :=
  let '(batch, bundles) := s in
  let s := (batch ++ [rec], bundles) in
  if count (batch ++ [rec]) =? MaxRecords then flush dict area s else Ok s.

(** What the other side is known to hold. *)
Definition their_vector (opt : ExportOptions) (area : AreaTag) : Vector :=
  match Reply opt with
  | None => VersionVector.New
  | Some c => default VersionVector.New (Vectors c !! area)
  end.

Definition ranges_for (src : S) (opt : ExportOptions) (area : AreaTag) : list VersionVector.Range :=
  Missing (their_vector opt area) (Some (ex_Vector src area)).

Definition records_for (src : S) (opt : ExportOptions) (area : AreaTag) : list Rec :=
  ranges_for src opt area ≫= ex_Records src area.

Definition export_area (src : S) (dict : Dictionary) (opt : ExportOptions)
    (c : gmap AreaTag Vector * list bytes) (area : AreaTag) : result export_error (gmap AreaTag Vector * list bytes) :=
  if negb (bool_decide (opt_Areas opt = [])) && negb (bool_decide (area ∈ opt_Areas opt)) then Ok c
  else
    s ← fold_result (add_record dict area) ([], c.2) (records_for src opt area);
    '(_, bundles) ← flush dict area s;
    Ok (<[area := ex_Vector src area]> c.1, bundles).

Definition Export (src : S) (dict : Dictionary) (opt : ExportOptions) : result export_error Carrier :=
  '(vectors, bundles) ← fold_result (export_area src dict opt) (∅, []) (ex_Areas src);
  Ok (mkCarrier (Self opt) (Now opt) (dict_id dict) vectors bundles (opt_Blobs opt) (opt_Requests opt)).
End export.

Section import.
Context `{HB : Blake3, HE : Records.Ed25519, HZ : Zstd} {S SE : Type} `{HI : !Importer S SE}.

Record ImportResult := mkImportResult {
  res_Bundles : Z; res_Records : Z; Rejected : list (Z * bundle_error)
}.

Fixpoint import_loop (dicts : DictionarySet) (i : Z) (raws : list bytes) (res : ImportResult) (dst : S)
    : ImportResult * option (import_error SE) * S :=
  match raws with
  | [] => (res, None, dst)
  | raw :: raws' =>
      match Unpack raw dicts with
      | Err e => import_loop dicts (i + 1) raws' (mkImportResult (res_Bundles res) (res_Records res) (Rejected res ++ [(i, e)])) dst
      | Ok b =>
          match im_Apply dst (B_Area b) (B_Records b) with
          | (dst, _, Some e) => (res, Some (ApplyFailed i e), dst)
          | (dst, added, None) =>
              import_loop dicts (i + 1) raws' (mkImportResult (res_Bundles res + 1) (res_Records res + added) (Rejected res)) dst
          end
      end
  end.

Definition Import (dst : S) (dicts : DictionarySet) (c : Carrier) : ImportResult * option (import_error SE) * S :=
  if Highest dicts <? b2z (MinDictionary c)
  then (mkImportResult 0 0 [], Some (DictionaryTooNew (b2z (MinDictionary c)) (Highest dicts)), dst)
  else import_loop dicts 1 (Bundles c) (mkImportResult 0 0 []) dst.
End import.

(** ** Which files to carry *)

Section blobs.
Context `{HB : Blake3}.

(** store.File, as far as it is looked at. *)
Record File := mkFileRow { f_Hash : Hash; f_Name : bytes }.

Inductive skip := TooLarge (name : bytes) (size : Z) | CarrierFull (name : bytes).
Record BlobPlan := mkPlan { Refs : list BlobRef; Skipped : list skip; Unanswered : list WireHash }.

Definition trunc (h : Hash) : WireHash :=
  match FileBody.TruncateFileHash (vec_to_list h) with Ok t => t | Err _ => zero_arr 16 end.

(** The loop over the files: [seen] is the hashes in [refs]. *)
Fixpoint plan_loop (held : Store) (theyHave : Hash → bool) (wanted : list WireHash)
    (files : list File) (refs : list BlobRef) (skipped : list skip) : list BlobRef * list skip :=
  match files with
  | [] => (refs, skipped)
  | f :: files' =>
      let next := plan_loop held theyHave wanted files' in
      if bool_decide (f_Hash f ∈ ref_Hash <$> refs) || theyHave (f_Hash f) then next refs skipped
      else if negb (bool_decide (wanted = [])) && negb (bool_decide (trunc (f_Hash f) ∈ wanted)) then next refs skipped
      else
        match Size (f_Hash f) held with
        | Err _ => next refs skipped
        | Ok size =>
            if MaxBlobBytes <? size then next refs (skipped ++ [TooLarge (f_Name f) size])
            else if MaxBlobRefs <=? count refs then (refs, skipped ++ [CarrierFull (f_Name f)])
            else next (refs ++ [mkBlobRef (f_Hash f) size]) skipped
        end
  end.

Definition BlobsToCarry (files : list File) (held : Store) (theyHave : Hash → bool) (wanted : list WireHash) : BlobPlan :=
  let '(refs, skipped) := plan_loop held theyHave wanted files [] [] in
  mkPlan refs skipped (filter (λ h, h ∉ (λ r, trunc (ref_Hash r)) <$> refs) wanted).
End blobs.

(** ** What an export packs *)

Section export_facts.
Context `{HB : Blake3, HE : Records.Ed25519, HZ : Zstd} {S : Type} `{HX : !Exporter S}.

Definition batch_bundle (b : AreaTag * list Rec) : Bundle := mkBundle b.1 0 Byte.x00 b.2.

(** A batch and the bundle it became. *)
Definition packed_as (dict : Dictionary) (b : AreaTag * list Rec) (raw : bytes) : Prop :=
  Pack (batch_bundle b) dict = Ok raw ∧ 1 ≤ count b.2 ≤ MaxRecords.

(** The records of a list of batches, each with its area. *)
Definition contents (bs : list (AreaTag * list Rec)) : list (AreaTag * Rec) := bs ≫= λ b, (b.1,.) <$> b.2.

Lemma contents_app b1 b2 : contents (b1 ++ b2) = contents b1 ++ contents b2.
Proof. apply bind_app. Qed.

(** From [bundles] on, the batches [bs] went out and [batch] is open. *)
Definition packing (dict : Dictionary) (area : AreaTag) (bundles : list bytes) (rs : list Rec) (s : list Rec * list bytes) : Prop :=
  ∃ bs raws, s.2 = bundles ++ raws ∧ Forall2 (packed_as dict) bs raws ∧ (area,.) <$> rs = contents bs ++ ((area,.) <$> s.1) ∧
    count s.1 < MaxRecords ∧ (count bundles ≤ MaxBundles → count s.2 ≤ MaxBundles).

Lemma flush_packing dict area bundles rs batch bs0 s' :
  (∃ bs raws, bs0 = bundles ++ raws ∧ Forall2 (packed_as dict) bs raws ∧ (area,.) <$> rs = contents bs ++ ((area,.) <$> batch) ∧
    (count bundles ≤ MaxBundles → count bs0 ≤ MaxBundles)) → count batch ≤ MaxRecords →
  flush dict area (batch, bs0) = Ok s' → packing dict area bundles rs s' ∧ s'.1 = [].
Proof.
  intros (bs & raws & -> & Hall & Hrs & Hmax) Hlen. unfold flush. destruct batch as [|r batch].
  { intros [= <-]. split; [|done]. exists bs, raws. by split_and!. }
  set (b := r :: batch) in *. intros (raw & Hp%wrap_err_Ok & H)%bind_Ok.
  apply bind_unit_Ok in H as [Hc%require_Ok%negb_true_iff%Z.leb_gt [= <-]]. split; [|done].
  exists (bs ++ [(area, b)]), (raws ++ [raw]). cbn [fst snd]. rewrite <- app_assoc. split_and!; [done| | |done|].
  - apply Forall2_app; [done|]. constructor; [|done]. split; [done|]. cbn [snd]. unfold count, b in *. cbn [length] in *. lia.
  - rewrite contents_app, Hrs. cbn. by rewrite !app_nil_r.
  - intros _. revert Hc. unfold count. rewrite !length_app. cbn [length]. lia.
Qed.

Lemma add_record_packing dict area bundles rs s r s' :
  packing dict area bundles rs s → add_record dict area s r = Ok s' → packing dict area bundles (rs ++ [r]) s'.
Proof.
  destruct s as [batch bs0]. intros (bs & raws & Hs & Hall & Hrs & Hlt & Hmax). cbn [fst snd] in *. unfold add_record.
  assert (Hrs' : (area,.) <$> (rs ++ [r]) = contents bs ++ ((area,.) <$> (batch ++ [r]))).
  { rewrite !fmap_app, Hrs, <- app_assoc. done. }
  destruct (Z.eqb_spec (count (batch ++ [r])) MaxRecords) as [Hc|Hc].
  - intros Hf. eapply flush_packing; [|rewrite Hc; apply Z.le_refl|exact Hf]. exists bs, raws. by split_and!.
  - intros [= <-]. exists bs, raws. split_and!; try done. cbn [fst]. unfold count in *. rewrite length_app in *. cbn [length] in *. lia.
Qed.

Lemma add_records_packing dict area bundles rs0 rs s s' :
  packing dict area bundles rs0 s → fold_result (add_record dict area) s rs = Ok s' → packing dict area bundles (rs0 ++ rs) s'.
Proof.
  revert rs0 s. induction rs as [|r rs IH]; intros rs0 s Hs; cbn [fold_result]; [intros [= <-]; by rewrite app_nil_r|].
  intros (s1 & H1 & H)%bind_Ok. rewrite cons_middle, app_assoc. eapply IH; [|exact H]. by eapply add_record_packing.
Qed.

Definition chosen (opt : ExportOptions) (area : AreaTag) : Prop := opt_Areas opt = [] ∨ area ∈ opt_Areas opt.
#[export] Instance chosen_dec opt area : Decision (chosen opt area).
Proof. unfold chosen. apply _. Defined.

(** What is due for the areas of a list. *)
Definition due (src : S) (opt : ExportOptions) (areas : list AreaTag) : list (AreaTag * Rec) :=
  filter (chosen opt) areas ≫= λ a, (a,.) <$> records_for src opt a.

Definition exported (src : S) (dict : Dictionary) (opt : ExportOptions) (areas : list AreaTag) (c : gmap AreaTag Vector * list bytes) : Prop :=
  (∀ a, c.1 !! a = if decide (a ∈ areas ∧ chosen opt a) then Some (ex_Vector src a) else None) ∧
  count c.2 ≤ MaxBundles ∧
  ∃ bs, Forall2 (packed_as dict) bs c.2 ∧ contents bs = due src opt areas.

Lemma export_area_exported src dict opt areas c area c' :
  exported src dict opt areas c → export_area src dict opt c area = Ok c' → exported src dict opt (areas ++ [area]) c'.
Proof.
  intros (Hv & Hn & bs & Hall & Hbs) He. unfold export_area in He.
  assert (Hch : negb (bool_decide (opt_Areas opt = [])) && negb (bool_decide (area ∈ opt_Areas opt)) = bool_decide (¬ chosen opt area)).
  { unfold chosen. repeat case_bool_decide; cbn; naive_solver. }
  rewrite Hch in He. clear Hch. case_bool_decide as Hc.
  { injection He as <-. split_and!; [|done|].
    - intros a. rewrite Hv. apply decide_ext. set_solver.
    - exists bs. split; [done|]. unfold due. rewrite filter_app, filter_cons_False, filter_nil, app_nil_r by done. done. }
  apply bind_Ok in He as (s & Hs & He). apply bind_Ok in He as ([batch bundles] & Hf & [= <-]).
  assert (Hp : packing dict area c.2 (records_for src opt area) s).
  { eapply (add_records_packing dict area c.2 []); [|exact Hs]. exists [], []. cbn. rewrite app_nil_r. by split_and!. }
  destruct s as [batch0 bs0]. destruct Hp as (bs1 & raws & Hb & Hall1 & Hrs & Hlt & Hmax). cbn [fst snd] in *.
  destruct (flush_packing dict area c.2 (records_for src opt area) batch0 bs0 (batch, bundles)) as [Hp Hnil]; [by exists bs1, raws|lia|done|].
  destruct Hp as (bs2 & raws2 & Hb2 & Hall2 & Hrs2 & _ & Hmax2). cbn [fst snd] in *. subst batch. cbn in Hrs2. rewrite app_nil_r in Hrs2.
  split_and!; cbn [fst snd]; [|by apply Hmax2|].
  - intros a. rewrite lookup_insert. destruct (decide (area = a)) as [->|Hne].
    + rewrite decide_True; [done|]. split; [set_solver|done].
    + rewrite Hv. apply decide_ext. set_solver.
  - exists (bs ++ bs2). rewrite Hb2. split; [by apply Forall2_app|]. unfold due. rewrite filter_app, filter_cons_True, filter_nil by done.
    rewrite bind_app, contents_app, Hbs, <- Hrs2. cbn. by rewrite app_nil_r.
Qed.

Lemma Export_spec src dict opt c :
  Export src dict opt = Ok c → exported src dict opt (ex_Areas src) (Vectors c, Bundles c) ∧ MinDictionary c = dict_id dict.
Proof.
  unfold Export. intros ([vectors bundles] & Hf & [= <-])%bind_Ok. split; [|done]. cbn [Vectors Bundles].
  assert (Hgen : ∀ l areas s, exported src dict opt areas s → fold_result (export_area src dict opt) s l = Ok (vectors, bundles) →
    exported src dict opt (areas ++ l) (vectors, bundles)).
  { induction l as [|a l IH]; intros areas s Hs; cbn [fold_result]; [intros [= <-]; by rewrite app_nil_r|].
    intros (s1 & H1 & H)%bind_Ok. rewrite cons_middle, app_assoc. eapply IH; [|exact H]. by eapply export_area_exported. }
  apply (Hgen (ex_Areas src) [] (∅, [])); [|done]. split_and!; [|done|by exists []].
  intros a. cbn [fst]. rewrite lookup_empty, decide_False; [done|]. set_solver.
Qed.
End export_facts.

(** ** What an import applies *)

Section import_facts.
Context `{HB : Blake3, HE : Records.Ed25519, HZ : Zstd} {S SE : Type} `{HI : !Importer S SE, HL : !ImporterLog S SE}.

(** What a bundle asks to be applied, if it unpacks. *)
Definition unpacked (dicts : DictionarySet) (raw : bytes) : option (AreaTag * list Rec) :=
  match Unpack raw dicts with Ok b => Some (B_Area b, B_Records b) | Err _ => None end.

Lemma import_loop_spec dicts i raws res dst :
  let '(res', err, dst') := import_loop dicts i raws res dst in
  ∃ k, (k ≤ length raws)%nat ∧ im_log dst' = im_log dst ++ omap (unpacked dicts) (take k raws) ∧
    (∀ e, err = Some e → (∃ j se, e = ApplyFailed j se) ∧ (0 < k)%nat) ∧
    (err = None → k = length raws ∧ res_Bundles res' = res_Bundles res + count (omap (unpacked dicts) raws) ∧
      count (Rejected res') = count (Rejected res) + count (filter (λ raw, unpacked dicts raw = None) raws)).
Proof using HL.
  revert i res dst. induction raws as [|raw raws IH]; intros i res dst; cbn [import_loop].
  { exists O. unfold count. cbn. rewrite app_nil_r. split_and!; [lia|done|by intros ? [=]|]. intros _. split_and!; lia. }
  destruct (Unpack raw dicts) as [b|e] eqn:Hu.
  - assert (Hun : unpacked dicts raw = Some (B_Area b, B_Records b)) by (unfold unpacked; by rewrite Hu).
    pose proof (im_log_Apply dst (B_Area b) (B_Records b)) as Hlog.
    destruct (im_Apply dst (B_Area b) (B_Records b)) as [[dst1 added] [e|]]; cbn [fst] in Hlog.
    + exists 1%nat. split_and!; [cbn; lia| |intros e' [= <-]; split; [by eauto|lia]|done].
      rewrite Hlog. cbn. by rewrite Hun.
    + specialize (IH (i + 1) (mkImportResult (res_Bundles res + 1) (res_Records res + added) (Rejected res)) dst1).
      destruct (import_loop dicts (i + 1) raws _ dst1) as [[res' err] dst']. destruct IH as (k & Hk & Hl & He & Hn).
      exists (Datatypes.S k). split_and!; [cbn; lia| |intros e' E; split; [by eapply He|lia]|].
      * rewrite Hl, Hlog, <- app_assoc. cbn. by rewrite Hun.
      * intros E. destruct (Hn E) as (-> & Hb & Hr). cbn [res_Bundles Rejected] in *.
        rewrite filter_cons_False by (by rewrite Hun). split_and!; [done| |done].
        rewrite Hb. cbn. rewrite Hun. unfold count. cbn [length]. lia.
  - assert (Hun : unpacked dicts raw = None) by (unfold unpacked; by rewrite Hu).
    specialize (IH (i + 1) (mkImportResult (res_Bundles res) (res_Records res) (Rejected res ++ [(i, e)])) dst).
    destruct (import_loop dicts (i + 1) raws _ dst) as [[res' err] dst']. destruct IH as (k & Hk & Hl & He & Hn).
    exists (Datatypes.S k). split_and!; [cbn; lia| |intros e' E; split; [by eapply He|lia]|].
    + rewrite Hl. cbn. by rewrite Hun.
    + intros E. destruct (Hn E) as (-> & Hb & Hr). cbn [res_Bundles Rejected] in *. rewrite filter_cons_True by done.
      split_and!; [done| |].
      * rewrite Hb. cbn. by rewrite Hun.
      * rewrite Hr. unfold count. rewrite length_app. cbn [length]. lia.
Qed.

(** Each bundle unpacks or does not. *)
Lemma unpacked_or_not dicts raws :
  count (omap (unpacked dicts) raws) + count (filter (λ raw, unpacked dicts raw = None) raws) = count raws.
Proof.
  unfold count. induction raws as [|raw raws IH]; [done|]. cbn [omap list_omap]. destruct (unpacked dicts raw) eqn:Hu.
  - rewrite filter_cons_False by (by rewrite Hu). cbn [length]. lia.
  - rewrite filter_cons_True by done. cbn [length]. lia.
Qed.

(** One bad bundle does not fail an import, and a carrier that needs a newer
    dictionary changes nothing. Otherwise the log is asked to apply exactly the
    batches of the bundles that unpack, in order; without an error of the log's own
    that is all of them and each bundle is counted as applied or rejected, and with
    one the import stops there. *)
Theorem Import_applies dst dicts c :
  let '(res, err, dst') := Import dst dicts c in
  (Highest dicts < b2z (MinDictionary c) → dst' = dst ∧ err = Some (DictionaryTooNew (b2z (MinDictionary c)) (Highest dicts))) ∧
  (b2z (MinDictionary c) ≤ Highest dicts →
    ∃ k, im_log dst' = im_log dst ++ omap (unpacked dicts) (take k (Bundles c)) ∧
      match err with
      | Some e => ∃ i se, e = ApplyFailed i se
      | None => k = length (Bundles c) ∧ res_Bundles res + count (Rejected res) = count (Bundles c)
      end).
Proof using HL.
  unfold Import. destruct (Z.ltb_spec (Highest dicts) (b2z (MinDictionary c))) as [Hh|Hh]; [split; [done|lia]|].
  pose proof (import_loop_spec dicts 1 (Bundles c) (mkImportResult 0 0 []) dst) as Hs.
  destruct (import_loop dicts 1 (Bundles c) _ dst) as [[res err] dst']. destruct Hs as (k & _ & Hl & He & Hn).
  split; [lia|]. intros _. exists k. split; [done|]. destruct err as [e|]; [by eapply He|].
  destruct (Hn eq_refl) as (-> & Hb & Hr). split; [done|]. cbn [res_Bundles Rejected] in *. rewrite Hb, Hr.
  rewrite <- (unpacked_or_not dicts (Bundles c)). change (count []) with 0. lia.
Qed.
End import_facts.

(** ** There and back *)

Section carried.
Context `{HB : Blake3, HE : Records.Ed25519, HZ : Zstd}.

Lemma length_bind_le {A : Type} (g : A → bytes) l k : Forall (λ x, strlen (g x) ≤ k) l → strlen (l ≫= g) ≤ count l * k.
Proof.
  unfold strlen, count. induction 1 as [|x l Hx _ IH]; [done|]. rewrite bind_cons, length_app. cbn [length]. lia.
Qed.

(** No body of a well-formed batch comes near the 63-bit limit. *)
Lemma payload_small b p : wf_bundle b → encodeBody b = Ok p → strlen p < 2 ^ 63.
Proof.
  intros (Hb & _ & Hn & Ho & Hr) [_ ->]%encodeBody_Ok. unfold strlen, MaxRecords, MaxOrigins in *.
  rewrite !length_app, length_vec_to_list, length_be_bytes, length_concat_ids. cbn [length].
  assert (is_u64 (Z.of_nat (length (B_Records b)))) as Hu by widths. pose proof (length_append_uvarint_le _ Hu).
  cut (strlen (B_Records b ≫= encode_record (BaseTS b) (origin_table [] (B_Records b))) ≤ count (B_Records b) * 8400); [unfold strlen, count; lia|].
  apply length_bind_le. eapply Forall_impl; [exact Hr|]. cbn beta. intros r Hw.
  pose proof (length_Marshal r Hw) as Hm. unfold encode_record, append_varint, strlen in *. cbn [length]. rewrite !length_app.
  assert (is_u64 (Z.of_nat (length (Records.Marshal r)))) as Hs by widths. pose proof (length_append_uvarint_le _ Hs).
  pose proof (length_append_uvarint_le _ (zigzag_u64 _ (i64_is_i64 (Records.TS (Records.fields r) - BaseTS b)))). lia.
Qed.

(** A batch whose framing a receiver accepts. *)
Definition fits (b : AreaTag * list Rec) : Prop :=
  ∃ p, encodeBody (batch_bundle b) = Ok p ∧ strlen p ≤ MaxDecompressed.

Lemma packed_unpacks dict dicts b raw :
  packed_as dict b raw → Forall Records.wf_rec b.2 → zstd_roundtrips (codec dict) → dicts !! dict_id dict = Some dict →
  (fits b ∧ unpacked dicts raw = Some b) ∨ (¬ fits b ∧ unpacked dicts raw = None).
Proof.
  intros [Hp Hn] Hwf Hz Hd. unfold fits, unpacked. assert (Hw : wf_bundle (batch_bundle b)).
  { unfold Pack in Hp. apply bind_unit_Ok in Hp as [_ Hp]. apply bind_unit_Ok in Hp as [_ Hp].
    apply bind_Ok in Hp as (p & [Ho _]%encodeBody_Ok & _). split_and!; [done|done|exact (proj1 Hn)|exact (proj2 Hn)|done|done]. }
  destruct (Pack_Unpack_spec (batch_bundle b) dict dicts Hw Hz Hd) as (p & data & He & Hp' & Hu).
  rewrite Hp in Hp'. injection Hp' as <-. specialize (Hu (payload_small _ _ Hw He)).
  destruct (Z.leb_spec (strlen p) MaxDecompressed) as [Hle|Hgt]; rewrite Hu.
  - left. split; [by exists p|]. by destruct b.
  - right. split; [|done]. intros (p' & He' & Hle). rewrite He in He'. injection He' as <-. lia.
Qed.

Lemma packed_all dict dicts bs raws :
  Forall2 (packed_as dict) bs raws → Forall (λ b, Forall Records.wf_rec b.2) bs →
  zstd_roundtrips (codec dict) → dicts !! dict_id dict = Some dict →
  omap (unpacked dicts) raws `sublist_of` bs ∧ (Forall (λ raw, unpacked dicts raw ≠ None) raws → omap (unpacked dicts) raws = bs) ∧
  ∀ b, b ∈ bs → fits b → b ∈ omap (unpacked dicts) raws.
Proof.
  intros Hall Hwf Hz Hd. induction Hall as [|b raw bs raws Hb _ IH]; [by split_and!|].
  apply Forall_cons in Hwf as [Hw Hwf]. destruct (IH Hwf) as (Hs & Hf & Hin). cbn.
  destruct (packed_unpacks dict dicts b raw Hb Hw Hz Hd) as [[Hfit Hu]|[Hfit Hu]]; rewrite Hu.
  - split_and!; [by constructor| |].
    + intros [_ Hr]%Forall_cons. by rewrite Hf.
    + intros b' [->|Hb']%elem_of_cons Hfit'; [by left|]. right. by apply Hin.
  - split_and!; [by constructor|by intros [[] _]%Forall_cons|]. intros b' [->|Hb']%elem_of_cons Hfit'; [done|by apply Hin].
Qed.

Lemma contents_wf bs l : contents bs = l → Forall (λ e, Records.wf_rec e.2) l → Forall (λ b, Forall Records.wf_rec b.2) bs.
Proof.
  intros <-. induction bs as [|[a rs] bs IH]; [constructor|]. unfold contents. rewrite bind_cons, Forall_app.
  intros [H1 H2]. constructor; [|by apply IH]. exact (proj1 (Forall_fmap _ _ _) H1).
Qed.

End carried.

(** ** Which files are carried *)

Section plan.
Context `{HB : Blake3}.

Lemma wanted_test wanted h :
  negb (bool_decide (wanted = [])) && negb (bool_decide (trunc h ∈ wanted)) = negb (bool_decide (wanted = [] ∨ trunc h ∈ wanted)).
Proof. repeat case_bool_decide; cbn; naive_solver. Qed.

Context (held : Store) (theyHave : Hash → bool) (wanted : list WireHash).

(** A file this carrier should take. *)
Definition eligible (h : Hash) : Prop :=
  theyHave h = false ∧ (wanted = [] ∨ trunc h ∈ wanted) ∧ ∃ size, Size h held = Ok size ∧ size ≤ MaxBlobBytes.

(** A reference to a file that is there. *)
Definition right_ref (r : BlobRef) : Prop := eligible (ref_Hash r) ∧ Size (ref_Hash r) held = Ok (ref_Size r).

Definition plan_ok (refs : list BlobRef) : Prop :=
  NoDup (ref_Hash <$> refs) ∧ Forall right_ref refs ∧ count refs ≤ MaxBlobRefs.

Definition is_full (s : skip) : Prop := match s with CarrierFull _ => True | _ => False end.

(** What the loop promises from [refs] and [skipped] on. *)
Definition plan_promise (files : list File) (refs : list BlobRef) (skipped : list skip) (out : list BlobRef * list skip) : Prop :=
  plan_ok out.1 ∧ refs `prefix_of` out.1 ∧ skipped `prefix_of` out.2 ∧
  (Forall (λ s, ¬ is_full s) out.2 → ∀ f, f ∈ files → eligible (f_Hash f) → f_Hash f ∈ ref_Hash <$> out.1).

(** A file that is passed over: already taken, or not to be. *)
Lemma plan_skip f files refs skipped skipped' out :
  plan_promise files refs skipped' out → skipped `prefix_of` skipped' →
  (eligible (f_Hash f) → f_Hash f ∈ ref_Hash <$> refs) → plan_promise (f :: files) refs skipped out.
Proof.
  intros (Hok & Hpre & Hskip & Hall) Hs Hf. split_and!; [done|done|by etrans|].
  intros Hfull g [->|Hg]%elem_of_cons He; [|by apply Hall]. destruct Hpre as [k ->]. rewrite fmap_app. apply elem_of_app. left. by apply Hf.
Qed.

Lemma plan_loop_spec files refs skipped :
  plan_ok refs → plan_promise files refs skipped (plan_loop held theyHave wanted files refs skipped).
Proof.
  revert refs skipped. induction files as [|f files IH]; intros refs skipped Hok; cbn [plan_loop].
  { split_and!; [done..|]. by intros _ f Hf%not_elem_of_nil. }
  destruct (bool_decide (f_Hash f ∈ ref_Hash <$> refs) || theyHave (f_Hash f)) eqn:Hseen.
  { eapply plan_skip; [by apply IH|done|]. intros (Ht & _). rewrite Ht, orb_false_r in Hseen. by apply bool_decide_eq_true in Hseen. }
  apply orb_false_iff in Hseen as [Hnin%bool_decide_eq_false Htheirs]. rewrite wanted_test. case_bool_decide as Hwant; cbn [negb].
  2:{ eapply plan_skip; [by apply IH|done|]. by intros (_ & ? & _). }
  destruct (Size (f_Hash f) held) as [size|e] eqn:Hsize.
  2:{ eapply plan_skip; [by apply IH|done|]. intros (_ & _ & size & Hs & _). congruence. }
  destruct (Z.ltb_spec MaxBlobBytes size) as [Hbig|Hsmall].
  { eapply plan_skip; [by apply IH|by apply prefix_app_r|]. intros (_ & _ & n & Hs & ?). rewrite Hsize in Hs. injection Hs as <-. lia. }
  destruct (Z.leb_spec MaxBlobRefs (count refs)) as [Hfull|Hroom].
  { split_and!; [done|done|by apply prefix_app_r|]. intros Hf. apply Forall_app in Hf as [_ Hf]. apply Forall_cons in Hf as [[] _]. done. }
  assert (Hok1 : plan_ok (refs ++ [mkBlobRef (f_Hash f) size])).
  { destruct Hok as (Hnd & Hr & Hc). split_and!.
    - rewrite fmap_app. apply NoDup_app. split_and!; [done| |apply NoDup_singleton]. intros h Hh ->%list_elem_of_singleton. done.
    - apply Forall_app. split; [done|]. constructor; [|done]. split; [|done]. split_and!; [done..|]. by exists size.
    - unfold count in *. rewrite length_app. cbn [length]. lia. }
  pose proof (IH _ skipped Hok1) as HI. revert HI. cbv zeta.
  generalize (plan_loop held theyHave wanted files (refs ++ [mkBlobRef (f_Hash f) size]) skipped).
  intros [refs' skipped'] (Hok' & Hpre & Hskip & Hall). cbn [fst snd] in *. split_and!; [done|by eapply prefix_app_l|done|]. cbn [fst snd].
  intros Hf g [->|Hg]%elem_of_cons He; [|by apply Hall].
  assert (Hin : f_Hash f ∈ ref_Hash <$> (refs ++ [mkBlobRef (f_Hash f) size])) by (rewrite fmap_app; apply elem_of_app; right; cbn; by left).
  destruct Hpre as [k ->]. rewrite fmap_app. apply elem_of_app. by left.
Qed.

(** Which files a carrier takes. The planned references are distinct files this node
    holds at exactly that size within the limit, none the other board already has, at
    most [MaxBlobRefs], and only requested ones if anything was requested; unless the
    plan says the carrier is full, every such file is on it; and reported as
    unanswered, in the order asked, are exactly the requests no planned file meets. *)
Theorem BlobsToCarry_plan files :
  let p := BlobsToCarry files held theyHave wanted in
  plan_ok (Refs p) ∧
  (Forall (λ s, ¬ is_full s) (Skipped p) → ∀ f, f ∈ files → eligible (f_Hash f) → f_Hash f ∈ ref_Hash <$> Refs p) ∧
  Unanswered p `sublist_of` wanted ∧
  ∀ h, h ∈ Unanswered p ↔ h ∈ wanted ∧ ¬ ∃ r, r ∈ Refs p ∧ trunc (ref_Hash r) = h.
Proof.
  unfold BlobsToCarry. cbv zeta. pose proof (plan_loop_spec files [] []) as Hs.
  destruct (plan_loop held theyHave wanted files [] []) as [refs skipped]. cbn [Refs Skipped Unanswered].
  unfold plan_promise in Hs. cbn [fst snd] in Hs. destruct Hs as (Hok & _ & _ & Hall); [split_and!; [constructor|constructor|done]|]. split_and!; [done|done|apply sublist_filter|].
  intros h. rewrite list_elem_of_filter, list_elem_of_fmap. naive_solver.
Qed.
End plan.
