(* ===== verification/RecordLog.v ===== *)
(** * The record log (internal/store/records.go, seq.go, nodes.go)

    The tables of the database that hold signed records, the sequence counters and
    the roster, and the queries on them. The SQL of a query is the list function it
    denotes; a transaction that fails leaves the tables as they were. SQLite and its
    Go driver are not part of the repository: what they do with a 64-bit unsigned
    number and with a nil slice is the class [SqlDriver]. Input and output failures of
    the database itself are not modelled. *)

From S2P Require Import Prelude Binary Identity Order.
From S2P Require Bodies.
From S2P Require Import Records.

(** modernc.org/sqlite: whether a number is accepted as a query's argument, and
    whether a nil slice is stored as NULL, as the comments of the code say. A record's
    body is nil exactly when it is empty. *)
Class SqlDriver := { binds : Z → bool; nil_is_null : bool }.

(** A row of [records]: the columns, and the bytes they were decomposed from. *)
Record Row := mkRow {
  row_id : ID; columns : Fields; row_signed : bytes; row_sig : arr 64;
  received_at : Z; local_seq : Z
}.

Record Node := mkNode {
  n_ID : NodeID; n_PublicKey : bytes; n_DisplayName : bytes; n_SysopContact : bytes;
  n_Incarnation : Z; IsSelf : bool; FirstSeen : Z; LastSeen : Z
}.

(** The tables [records] (in the order of insertion), [nodes], [area_seq_state],
    [seq_state.incarnation] and the counter [record_local_seq]. *)
Record Db := mkDb {
  rows : list Row;
  nodes : gmap NodeID Node;
  high_waters : gmap AreaTag Z;
  db_Incarnation : Z;
  record_local_seq : Z
}.

Definition empty_db : Db := mkDb [] ∅ ∅ 0 0.

Inductive store_error :=
| ErrSeqConflict
| ErrNotFound
| NotBindable (n : Z)
| NullBody
| BadStoredRecord (e : codec_error)
| KeyDoesNotMatch (id : NodeID)
| AnotherSelf.

#[export] Instance Row_eq_dec : EqDecision Row.
Proof. solve_decision. Defined.
#[export] Instance Node_eq_dec : EqDecision Node.
Proof. solve_decision. Defined.
#[export] Instance store_error_eq_dec : EqDecision store_error.
Proof. solve_decision. Defined.

(** The coordinate a record occupies: allocation is per area. *)
Definition coord (f : Fields) : NodeID * AreaTag * Z := (Origin f, Area f, Seq f).

(** The record a row holds. *)
Definition row_rec (w : Row) : Rec := mkRec (columns w) (row_id w) (row_signed w) (row_sig w).
Definition row_of (now local : Z) (r : Rec) : Row := mkRow (id r) (fields r) (signed r) (sig r) now local.

Definition max_of (l : list Z) : Z := foldr Z.max 0 l.

Section log.
Context `{HB : Blake3, HE : Ed25519, HD : SqlDriver}.

Definition HasRecord (i : ID) (db : Db) : bool := existsb (λ w, bool_decide (row_id w = i)) (rows db).
Definition CountRecords (db : Db) : Z := Z.of_nat (length (rows db)).

(** [nextLocalSeq] and the insert, in one transaction. *)
Definition insert_row (now : Z) (r : Rec) (db : Db) : Db :=
  let local := record_local_seq db + 1 in
  mkDb (rows db ++ [row_of now local r]) (nodes db) (high_waters db) (db_Incarnation db) local.

Definition PutRecord (now : Z) (r : Rec) (db : Db) : option store_error * Db :=
  if HasRecord (id r) db then (None, db)
  else if negb (binds (Seq (fields r))) then (Some (NotBindable (Seq (fields r))), db)
  else if existsb (λ w, bool_decide (coord (columns w) = coord (fields r))) (rows db) then (Some ErrSeqConflict, db)
  else if bool_decide (Body (fields r) = []) && nil_is_null then (Some NullBody, db)
  else (None, insert_row now r db).

(** Rebuilt from the signed bytes, never from the columns. *)
Definition rebuild (w : Row) : result codec_error Rec := Unmarshal (row_signed w ++ vec_to_list (row_sig w)).

Definition GetRecord (i : ID) (db : Db) : result store_error Rec :=
  match List.find (λ w, bool_decide (row_id w = i)) (rows db) with
  | None => Err ErrNotFound
  | Some w => wrap_err BadStoredRecord (rebuild w)
  end.

Definition seqs_where (P : Fields → bool) (db : Db) : list Z :=
  Seq <$> (filter (λ f, P f = true) (columns <$> rows db)).

Definition HighWaterForArea (origin : NodeID) (area : AreaTag) (db : Db) : Z :=
  max_of (seqs_where (λ f, bool_decide (Origin f = origin) && bool_decide (Area f = area)) db).

(** [for rows.Next()]: the run from one up. *)
Fixpoint contiguous_run (high : Z) (seqs : list Z) : Z :=
  match seqs with
  | [] => high
  | s :: seqs' => if s =? high + 1 then contiguous_run s seqs' else high
  end.
Definition HighWaterFor (origin : NodeID) (db : Db) : Z :=
  contiguous_run 0 (sort_by (λ s, s) Z.ltb (seqs_where (λ f, bool_decide (Origin f = origin)) db)).

(** ** Sequence numbers (seq.go) *)

Definition set_high_water (area : AreaTag) (n : Z) (db : Db) : Db :=
  mkDb (rows db) (nodes db) (<[area := n]> (high_waters db)) (db_Incarnation db) (record_local_seq db).

Definition AreaHighWater (area : AreaTag) (db : Db) : Z := default 0 (high_waters db !! area).

(** [SeqState]: the incarnation and the highest mark of any area. *)
Definition SeqState (db : Db) : Z * Z :=
  (max_of (map_to_list (high_waters db)).*2, db_Incarnation db).

Definition NextSeq (area : AreaTag) (db : Db) : result store_error Z * Db :=
  let next := AreaHighWater area db + 1 in
  if binds next then (Ok next, set_high_water area next db) else (Err (NotBindable next), db).

(** The areas of one's own records, each once. *)
Definition own_areas (self : NodeID) (db : Db) : list AreaTag :=
  remove_dups (Area <$> filter (λ f, Origin f = self) (columns <$> rows db)).

Definition behind (self : NodeID) (db : Db) (area : AreaTag) : bool :=
  AreaHighWater area db <? HighWaterForArea self area db.

Definition CheckSeqIntegrity (self : NodeID) (db : Db) : bool * Db :=
  let repaired := filter (λ a, behind self db a = true) (own_areas self db) in
  if bool_decide (repaired = []) then (false, db)
  else
    let db' := foldl (λ d a, set_high_water a (HighWaterForArea self a db) d) db repaired in
    (true, mkDb (rows db') (nodes db') (high_waters db') (db_Incarnation db + 1) (record_local_seq db')).

(** ** The roster (nodes.go) *)

Definition or_now (now t : Z) : Z := if t =? 0 then now else t.

(** [INSERT ... ON CONFLICT(id) DO UPDATE]: the key, [is_self] and [first_seen] stay. *)
Definition upsert_node (new old : Node) : Node :=
  mkNode (n_ID old) (n_PublicKey old) (n_DisplayName new) (n_SysopContact new)
    (Z.max (n_Incarnation old) (n_Incarnation new)) (IsSelf old) (FirstSeen old) (LastSeen new).

Definition with_nodes (m : gmap NodeID Node) (db : Db) : Db :=
  mkDb (rows db) m (high_waters db) (db_Incarnation db) (record_local_seq db).

Definition PutNode (now : Z) (n : Node) (db : Db) : option store_error * Db :=
  if negb (Matches (n_ID n) (n_PublicKey n)) then (Some (KeyDoesNotMatch (n_ID n)), db)
  else
    let n := mkNode (n_ID n) (n_PublicKey n) (n_DisplayName n) (n_SysopContact n) (n_Incarnation n) (IsSelf n)
               (or_now now (FirstSeen n)) (or_now now (LastSeen n)) in
    let put n := (None, with_nodes (<[n_ID n := n]> (nodes db)) db) in
    match nodes db !! n_ID n with
    | Some old => put (upsert_node n old)
    | None => if IsSelf n && existsb IsSelf (map_to_list (nodes db)).*2 then (Some AnotherSelf, db) else put n
    end.

Definition PutNodeFromRecord (now : Z) (r : Rec) (db : Db) : result verify_error (option store_error) * Db :=
  match VerifyNodeRecord r with
  | Err e => (Err e, db)
  | Ok body =>
      let '(e, db) := PutNode now (mkNode (Origin (fields r)) (Bodies.Node.PublicKey body) (Bodies.Node.DisplayName body)
                        (Bodies.Node.SysopContact body) (Bodies.Node.Incarnation body) false 0 0) db in
      (Ok e, db)
  end.

Definition GetNode (id : NodeID) (db : Db) : result store_error Node :=
  match nodes db !! id with Some n => Ok n | None => Err ErrNotFound end.

Definition SelfNode (db : Db) : result store_error Node :=
  match filter (λ n, IsSelf n = true) (map_to_list (nodes db)).*2 with n :: _ => Ok n | [] => Err ErrNotFound end.

Definition ListNodes (db : Db) : list Node := sort_by n_ID less_arr (map_to_list (nodes db)).*2.
End log.

(** ** Lemmas on the queries *)

Lemma max_of_ge l x : x ∈ l → x ≤ max_of l.
Proof. unfold max_of. induction 1; cbn; lia. Qed.
Lemma max_of_nonneg l : 0 ≤ max_of l.
Proof. unfold max_of. induction l; cbn; lia. Qed.
Lemma max_of_le l k : 0 ≤ k → (∀ x, x ∈ l → x ≤ k) → max_of l ≤ k.
Proof.
  intros Hk. induction l as [|x l IH]; intros H; cbn; [done|]. apply Z.max_lub; [apply H; left|]. apply IH. intros y Hy. apply H. by right.
Qed.
Lemma max_of_in l : max_of l = 0 ∨ max_of l ∈ l.
Proof.
  induction l as [|x l IH]; [by left|]. change (max_of (x :: l)) with (Z.max x (max_of l)).
  destruct (Z.max_spec x (max_of l)) as [[_ ->]|[_ ->]]; [|right; left].
  destruct IH as [IH|IH]; [by left|right; by right].
Qed.

Section facts.
Context `{HB : Blake3, HE : Ed25519, HD : SqlDriver}.

Lemma HasRecord_true i db : HasRecord i db = true ↔ ∃ w, w ∈ rows db ∧ row_id w = i.
Proof.
  unfold HasRecord. rewrite existsb_exists. setoid_rewrite bool_decide_eq_true. setoid_rewrite <- list_elem_of_In. done.
Qed.

Lemma conflict_true f db :
  existsb (λ w, bool_decide (coord (columns w) = coord f)) (rows db) = true ↔ ∃ w, w ∈ rows db ∧ coord (columns w) = coord f.
Proof. rewrite existsb_exists. setoid_rewrite bool_decide_eq_true. setoid_rewrite <- list_elem_of_In. done. Qed.

Lemma in_seqs_where P db s : s ∈ seqs_where P db ↔ ∃ w, w ∈ rows db ∧ P (columns w) = true ∧ Seq (columns w) = s.
Proof.
  unfold seqs_where. rewrite list_elem_of_fmap. setoid_rewrite list_elem_of_filter. setoid_rewrite list_elem_of_fmap. naive_solver.
Qed.

(** The highest own sequence number of an area. *)
Lemma HighWaterForArea_spec self area db :
  (∀ w, w ∈ rows db → Origin (columns w) = self → Area (columns w) = area → Seq (columns w) ≤ HighWaterForArea self area db) ∧
  (HighWaterForArea self area db = 0 ∨
   ∃ w, w ∈ rows db ∧ Origin (columns w) = self ∧ Area (columns w) = area ∧ Seq (columns w) = HighWaterForArea self area db).
Proof.
  unfold HighWaterForArea. split.
  - intros w Hw Ho Ha. apply max_of_ge, in_seqs_where. exists w. rewrite Ho, Ha, !bool_decide_true by done. done.
  - destruct (max_of_in (seqs_where (λ f, bool_decide (Origin f = self) && bool_decide (Area f = area)) db)) as [|H]; [by left|right].
    apply in_seqs_where in H as (w & Hw & [?%bool_decide_eq_true ?%bool_decide_eq_true]%andb_true_iff & Hs). by exists w.
Qed.

Lemma AreaHighWater_set a n db b : AreaHighWater b (set_high_water a n db) = if decide (a = b) then n else AreaHighWater b db.
Proof. unfold AreaHighWater, set_high_water. cbn [high_waters]. rewrite lookup_insert. by case_decide. Qed.

Lemma elem_of_own_areas self a db :
  a ∈ own_areas self db ↔ ∃ w, w ∈ rows db ∧ Origin (columns w) = self ∧ Area (columns w) = a.
Proof.
  unfold own_areas. rewrite elem_of_remove_dups, list_elem_of_fmap. setoid_rewrite list_elem_of_filter.
  setoid_rewrite list_elem_of_fmap. naive_solver.
Qed.

(** An area is behind only if one's own records are in it. *)
Lemma behind_own self db a : (∀ b, 0 ≤ AreaHighWater b db) → behind self db a = true → a ∈ own_areas self db.
Proof.
  intros Hpos. unfold behind. rewrite Z.ltb_lt. intros Hb. destruct (HighWaterForArea_spec self a db) as [_ [H0|(w & Hw & Ho & Ha & _)]].
  - specialize (Hpos a). lia.
  - apply elem_of_own_areas. by exists w.
Qed.

Lemma repair_marks self db l d b :
  AreaHighWater b (foldl (λ d a, set_high_water a (HighWaterForArea self a db) d) d l) =
    if decide (b ∈ l) then HighWaterForArea self b db else AreaHighWater b d.
Proof.
  revert d. induction l as [|a l IH]; intros d; cbn [foldl]; [done|]. rewrite IH, AreaHighWater_set.
  destruct (decide (b ∈ l)) as [Hin|Hin]; [rewrite decide_True; [done|by right]|].
  destruct (decide (a = b)) as [->|Hne]; [rewrite decide_True; [done|by left]|].
  rewrite decide_False; [done|]. intros [->|?]%elem_of_cons; done.
Qed.

Lemma repair_rest self db l d :
  let d' := foldl (λ d a, set_high_water a (HighWaterForArea self a db) d) d l in
  rows d' = rows d ∧ nodes d' = nodes d ∧ record_local_seq d' = record_local_seq d.
Proof. cbv zeta. revert d. induction l as [|a l IH]; intros d; cbn [foldl]; [done|]. by destruct (IH (set_high_water a (HighWaterForArea self a db) d)) as (-> & -> & ->). Qed.

Lemma CheckSeqIntegrity_spec self db :
  (∀ b, 0 ≤ AreaHighWater b db) →
  let '(regressed, db') := CheckSeqIntegrity self db in
  (regressed = true ↔ ∃ a, behind self db a = true) ∧
  (∀ a, AreaHighWater a db' = Z.max (AreaHighWater a db) (HighWaterForArea self a db)) ∧
  db_Incarnation db' = db_Incarnation db + (if regressed then 1 else 0) ∧
  rows db' = rows db ∧ nodes db' = nodes db ∧ record_local_seq db' = record_local_seq db.
Proof.
  intros Hpos. unfold CheckSeqIntegrity. cbv zeta. set (repaired := filter (λ a, behind self db a = true) (own_areas self db)).
  assert (Hin : ∀ a, a ∈ repaired ↔ behind self db a = true).
  { intros a. unfold repaired. rewrite list_elem_of_filter. split; [by intros [? _]|]. intros H. split; [done|by apply behind_own]. }
  case_bool_decide as He.
  - rewrite He in Hin. split_and!; [|..|lia|done|done|done].
    + split; [done|]. intros [a Ha%Hin%not_elem_of_nil]. done.
    + intros a. destruct (behind self db a) eqn:Hb; [by apply Hin, not_elem_of_nil in Hb|]. unfold behind in Hb. apply Z.ltb_ge in Hb. lia.
  - destruct (repair_rest self db repaired db) as (Hr & Hn & Hl). split_and!; cbn [db_Incarnation rows nodes]; [|..|done|done|done|done].
    + split; [|done]. intros _. destruct repaired as [|a l]; [done|]. exists a. apply Hin. by left.
    + intros a. unfold AreaHighWater at 1. cbn [high_waters].
      change (default 0 (high_waters ?d !! a)) with (AreaHighWater a d).
      rewrite repair_marks. specialize (Hin a). unfold behind in Hin. rewrite Z.ltb_lt in Hin.
      destruct (decide (a ∈ repaired)) as [H|H]; [apply Hin in H; lia|].
      destruct (Z.le_gt_cases (HighWaterForArea self a db) (AreaHighWater a db)); [lia|]. exfalso. apply H, Hin. lia.
Qed.

(** ** The log over time *)

Definition log_ok (db : Db) : Prop :=
  NoDup (row_id <$> rows db) ∧ NoDup ((λ w, coord (columns w)) <$> rows db) ∧
  Forall (λ w, wf_rec (row_rec w)) (rows db) ∧
  StronglySorted Z.lt (local_seq <$> rows db) ∧ Forall (λ w, local_seq w ≤ record_local_seq db) (rows db) ∧
  map_Forall (λ i n, n_ID n = i ∧ Matches i (n_PublicKey n) = true) (nodes db) ∧
  (∀ a, 0 ≤ AreaHighWater a db).

Inductive step : Db → Db → Prop :=
| step_put now r db : wf_rec r → step db (PutRecord now r db).2
| step_next a db : step db (NextSeq a db).2
| step_check self db : step db (CheckSeqIntegrity self db).2
| step_node now n db : step db (PutNode now n db).2.

Lemma row_rec_of now local r : row_rec (row_of now local r) = r.
Proof. by destruct r. Qed.

Lemma rebuild_ok w : wf_rec (row_rec w) → rebuild w = Ok (row_rec w).
Proof. apply Unmarshal_Marshal. Qed.

Lemma sorted_snoc (l : list Z) x : StronglySorted Z.lt l → Forall (λ y, y < x) l → StronglySorted Z.lt (l ++ [x]).
Proof.
  induction 1 as [|y l Hs IH Hall]; intros Hx; [by repeat constructor|]. apply Forall_cons in Hx as [Hy Hx].
  constructor; [by apply IH|]. apply Forall_app. split; [done|by constructor].
Qed.

Lemma insert_row_ok now r db :
  log_ok db → wf_rec r → HasRecord (id r) db = false →
  ¬ (∃ w, w ∈ rows db ∧ coord (columns w) = coord (fields r)) → log_ok (insert_row now r db).
Proof.
  intros (Hid & Hco & Hwf & Hso & Hle & Hn & Hm) Hr Hnew Hfree. unfold insert_row. split_and!; cbn [rows record_local_seq nodes].
  - rewrite fmap_app. apply NoDup_app. split_and!; [done| |apply NoDup_singleton].
    intros i (w & -> & Hw)%list_elem_of_fmap Hi%list_elem_of_singleton. apply not_true_iff_false in Hnew. apply Hnew, HasRecord_true. by exists w.
  - rewrite fmap_app. apply NoDup_app. split_and!; [done| |apply NoDup_singleton].
    intros c (w & -> & Hw)%list_elem_of_fmap Hc%list_elem_of_singleton. apply Hfree. by exists w.
  - apply Forall_app. split; [done|]. constructor; [|done]. by rewrite row_rec_of.
  - rewrite fmap_app. apply sorted_snoc; [done|]. apply Forall_fmap. eapply Forall_impl; [exact Hle|]. cbn. lia.
  - apply Forall_app. split; [eapply Forall_impl; [exact Hle|]; cbn; lia|]. by constructor.
  - done.
  - exact Hm.
Qed.

Lemma put_test r : Body (fields r) = [] ∧ nil_is_null = true ↔ bool_decide (Body (fields r) = []) && nil_is_null = true.
Proof. by rewrite andb_true_iff, bool_decide_eq_true. Qed.

(** A record the log can take. *)
Definition storable (r : Rec) (db : Db) : Prop :=
  binds (Seq (fields r)) = true ∧ ¬ (∃ w, w ∈ rows db ∧ coord (columns w) = coord (fields r)) ∧
  ¬ (Body (fields r) = [] ∧ nil_is_null = true).

(** Whether the tables have room for it at all. *)
Definition fits (r : Rec) : Prop := binds (Seq (fields r)) = true ∧ ¬ (Body (fields r) = [] ∧ nil_is_null = true).

Lemma PutRecord_spec now r db :
  let '(e, db') := PutRecord now r db in
  match e with
  | None => (HasRecord (id r) db = true ∧ db' = db) ∨
            (HasRecord (id r) db = false ∧ storable r db ∧ db' = insert_row now r db)
  | Some e => db' = db ∧ HasRecord (id r) db = false ∧ ¬ storable r db ∧
      (e = ErrSeqConflict ↔ binds (Seq (fields r)) = true ∧ ∃ w, w ∈ rows db ∧ coord (columns w) = coord (fields r)) ∧
      (e ≠ ErrSeqConflict → ¬ fits r)
  end.
Proof.
  unfold PutRecord, storable, fits. destruct (HasRecord (id r) db) eqn:Hh; [by left|].
  destruct (binds (Seq (fields r))) eqn:Hb; cbn [negb]; [|split_and!; [done|done|by intros (? & _)|split; [done|by intros [? _]]|by intros _ [? _]]].
  destruct (existsb _ _) eqn:Hc.
  { apply conflict_true in Hc. split_and!; [done|done|by intros (_ & ? & _)|done|done]. }
  apply not_true_iff_false in Hc. rewrite conflict_true in Hc.
  destruct (_ && _) eqn:Hn; [apply put_test in Hn; split_and!; [done|done|by intros (_ & _ & ?)|split; [done|by intros [_ ?]]|by intros _ [_ ?]]|].
  right. apply not_true_iff_false in Hn. rewrite <- put_test in Hn. done.
Qed.


Definition good_node (i : NodeID) (n : Node) : Prop := n_ID n = i ∧ Matches i (n_PublicKey n) = true.

Lemma with_nodes_ok i n db : log_ok db → good_node i n → log_ok (with_nodes (<[i := n]> (nodes db)) db).
Proof.
  intros (Hid & Hco & Hwf & Hso & Hle & Hn & Hm) Hg. split_and!; try done. cbn [nodes with_nodes]. by apply map_Forall_insert_2.
Qed.

(** A roster entry's key never changes, and is its own. *)
Definition put_node_spec (n : Node) (db : Db) (e : option store_error) (db' : Db) : Prop :=
  log_ok db' ∧ (∃ m, db' = with_nodes m db) ∧
  (∀ i m, nodes db !! i = Some m → ∃ m', nodes db' !! i = Some m' ∧ n_PublicKey m' = n_PublicKey m) ∧
  (e = None → ∃ m, nodes db' !! n_ID n = Some m ∧ n_DisplayName m = n_DisplayName n ∧ n_SysopContact m = n_SysopContact n) ∧
  (Matches (n_ID n) (n_PublicKey n) = true → IsSelf n = false → e = None).

Lemma with_nodes_id db : db = with_nodes (nodes db) db.
Proof. by destruct db. Qed.

Lemma PutNode_refused n db e :
  log_ok db → (Matches (n_ID n) (n_PublicKey n) = true → IsSelf n = false → False) → put_node_spec n db (Some e) db.
Proof.
  intros Hok Hno. unfold put_node_spec. split; [exact Hok|]. split; [exists (nodes db); apply with_nodes_id|].
  split; [intros i m Hi; by exists m|]. split; [done|]. intros Hm Hs. by destruct (Hno Hm Hs).
Qed.

Lemma PutNode_put n n' db :
  log_ok db → good_node (n_ID n) n' →
  n_DisplayName n' = n_DisplayName n → n_SysopContact n' = n_SysopContact n →
  (∀ old, nodes db !! n_ID n = Some old → n_PublicKey n' = n_PublicKey old) →
  put_node_spec n db None (with_nodes (<[n_ID n := n']> (nodes db)) db).
Proof.
  intros Hok Hg Hd Hc Hold. unfold put_node_spec. split; [by apply with_nodes_ok|]. split; [by eexists|]. cbn [nodes with_nodes]. split.
  - intros i m Hi. destruct (decide (n_ID n = i)) as [<-|Hne].
    + exists n'. rewrite lookup_insert_eq. split; [done|]. by apply Hold.
    + exists m. by rewrite lookup_insert_ne.
  - split; [|done]. intros _. exists n'. by rewrite lookup_insert_eq.
Qed.

Lemma PutNode_spec now n db : log_ok db → let '(e, db') := PutNode now n db in put_node_spec n db e db'.
Proof.
  intros Hok. pose proof Hok as (_ & _ & _ & _ & _ & Hn & _). unfold PutNode.
  destruct (Matches (n_ID n) (n_PublicKey n)) eqn:Hmatch; cbn [negb]; [|apply PutNode_refused; [done|congruence]]. cbv zeta. cbn [n_ID IsSelf].
  destruct (nodes db !! n_ID n) as [old|] eqn:Hold.
  - destruct (Hn _ _ Hold) as [Hio Hmo]. unfold upsert_node. cbn [n_ID]. rewrite Hio.
    apply PutNode_put; [done|by split|done|done|]. rewrite Hold. by intros ? [= <-].
  - destruct (IsSelf n && _) eqn:Hs; [apply PutNode_refused; [done|]; intros _ H; by rewrite H in Hs|].
    apply PutNode_put; [done|by split|done|done|]. by rewrite Hold.
Qed.

Lemma NextSeq_spec a db :
  let '(r, db') := NextSeq a db in
  rows db' = rows db ∧ nodes db' = nodes db ∧ record_local_seq db' = record_local_seq db ∧
  (∀ b, AreaHighWater b db' = AreaHighWater b db + if decide (a = b ∧ is_ok r = true) then 1 else 0) ∧
  (∀ n, r = Ok n → n = AreaHighWater a db + 1) ∧ (is_ok r = false → db' = db).
Proof.
  unfold NextSeq. cbv zeta. destruct (binds (AreaHighWater a db + 1)); cbn [is_ok]; split_and!; try done.
  - intros b. rewrite AreaHighWater_set. destruct (decide (a = b)) as [->|Hne]; [rewrite decide_True by done; lia|].
    rewrite decide_False by (by intros [? _]). lia.
  - by intros n [= <-].
  - intros b. rewrite decide_False by (by intros [_ ?]). lia.
Qed.

Lemma step_log_ok db db' : step db db' → log_ok db → log_ok db'.
Proof.
  intros Hs Hok. destruct Hs as [now r db Hr|a db|self db|now n db].
  - pose proof (PutRecord_spec now r db) as H. destruct (PutRecord now r db) as [[e|] db']; cbn [snd]; [by destruct H as [-> _]|].
    destruct H as [[_ ->]|(Hnew & (_ & Hfree & _) & ->)]; [done|by apply insert_row_ok].
  - pose proof (NextSeq_spec a db) as H. destruct (NextSeq a db) as [r db']; cbn [snd]. destruct H as (Hr & Hn & Hl & Hm & _).
    unfold log_ok in *. rewrite Hr, Hn, Hl. destruct Hok as (? & ? & ? & ? & ? & ? & Hpos). split_and!; try done.
    intros b. rewrite Hm. specialize (Hpos b). destruct (decide (a = b ∧ is_ok r = true)); lia.
  - pose proof (CheckSeqIntegrity_spec self db) as H. pose proof Hok as (_ & _ & _ & _ & _ & _ & Hpos). specialize (H Hpos).
    destruct (CheckSeqIntegrity self db) as [b db']; cbn [snd]. destruct H as (_ & Hm & _ & Hr & Hn & Hl).
    unfold log_ok in *. rewrite Hr, Hn, Hl. destruct Hok as (? & ? & ? & ? & ? & ? & _). split_and!; try done.
    intros a. rewrite Hm. specialize (Hpos a). lia.
  - pose proof (PutNode_spec now n db Hok) as H. destruct (PutNode now n db) as [e db']. by destruct H as [H _].
Qed.

Lemma empty_log_ok : log_ok empty_db.
Proof.
  unfold empty_db. split_and!; cbn [rows nodes record_local_seq fmap list_fmap].
  1-2: by apply NoDup_nil_2. 1-3: by constructor. 1: by apply map_Forall_empty.
  intros a. unfold AreaHighWater. cbn [high_waters]. by rewrite lookup_empty.
Qed.

Lemma reachable_log_ok db : rtc step empty_db db → log_ok db.
Proof.
  intros Hs. pose proof empty_log_ok as H. revert Hs H. generalize empty_db. intros d Hs. induction Hs; eauto using step_log_ok.
Qed.

(** Rows are only ever added, at the end. *)
Lemma step_grows db db' : log_ok db → step db db' → ∃ new, rows db' = rows db ++ new.
Proof.
  intros Hok Hs. destruct Hs as [now r db Hr|a db|self db|now n db].
  - pose proof (PutRecord_spec now r db) as H. destruct (PutRecord now r db) as [[e|] db']; cbn [snd]; [destruct H as [-> _]; exists []; by rewrite app_nil_r|].
    destruct H as [[_ ->]|(_ & _ & ->)]; [exists []; by rewrite app_nil_r|by eexists].
  - exists []. rewrite app_nil_r. pose proof (NextSeq_spec a db) as H. destruct (NextSeq a db). by destruct H.
  - exists []. rewrite app_nil_r. pose proof Hok as (_ & _ & _ & _ & _ & _ & Hpos). pose proof (CheckSeqIntegrity_spec self db Hpos) as H.
    destruct (CheckSeqIntegrity self db). by destruct H as (_ & _ & _ & H & _).
  - exists []. rewrite app_nil_r. pose proof (PutNode_spec now n db Hok) as H. destruct (PutNode now n db) as [e db']. by destruct H as (_ & [m ->] & _).
Qed.

Lemma steps_grow db db' : log_ok db → rtc step db db' → log_ok db' ∧ ∃ new, rows db' = rows db ++ new.
Proof.
  intros Hok Hs. induction Hs as [db|db db1 db' Hs _ IH]; [split; [done|exists []; by rewrite app_nil_r]|].
  destruct (step_grows _ _ Hok Hs) as [n1 Hn1]. destruct (IH (step_log_ok _ _ Hs Hok)) as [Hok' [n2 Hn2]].
  split; [done|]. exists (n1 ++ n2). by rewrite Hn2, Hn1, (assoc_L (++)).
Qed.

(** A found record is the row with that ID. *)
Lemma GetRecord_spec i db :
  log_ok db →
  match GetRecord i db with
  | Ok r => ∃ w, w ∈ rows db ∧ row_id w = i ∧ r = row_rec w
  | Err e => e = ErrNotFound ∧ HasRecord i db = false
  end.
Proof.
  intros (_ & _ & Hwf & _). unfold GetRecord. destruct (List.find _ (rows db)) as [w|] eqn:Hf.
  - apply List.find_some in Hf as [Hw%list_elem_of_In Hi%bool_decide_eq_true]. rewrite Forall_forall in Hwf.
    rewrite (rebuild_ok w) by (by apply Hwf). cbn. by exists w.
  - split; [done|]. apply not_true_iff_false. rewrite HasRecord_true. intros (w & Hw & Hi).
    pose proof (List.find_none _ _ Hf w (proj1 (list_elem_of_In _ _) Hw)) as Hn. cbn in Hn. by apply bool_decide_eq_false in Hn.
Qed.

(** C10: the log keeps what it is given, once and for good. In every reachable database
    a put record is refused only if its sequence number or its empty body cannot be
    stored or its (origin, area, sequence) is taken by another record, which is what
    [ErrSeqConflict] says, and then nothing changes; otherwise the record is read back
    under its ID just as it was signed, at most one row is added, at the end and with a
    fresh arrival number, and every row stays as it is. *)
Theorem PutRecord_keeps now r db :
  rtc step empty_db db → wf_rec r →
  let '(e, db') := PutRecord now r db in
  rtc step empty_db db' ∧
  (∃ new, rows db' = rows db ++ new ∧ (length new ≤ 1)%nat ∧
     Forall (λ w, local_seq w = record_local_seq db + 1 ∧ row_rec w = r) new) ∧
  match e with
  | None => ∃ r', GetRecord (id r) db' = Ok r' ∧ id r' = id r ∧ (HasRecord (id r) db = false → r' = r ∧ storable r db)
  | Some e => db' = db ∧ HasRecord (id r) db = false ∧ ¬ storable r db ∧
      (e = ErrSeqConflict ↔ binds (Seq (fields r)) = true ∧ ∃ w, w ∈ rows db ∧ coord (columns w) = coord (fields r))
  end.
Proof.
  intros Hreach Hr. pose proof (step_put now r db Hr) as Hstep. pose proof (PutRecord_spec now r db) as Hs.
  destruct (PutRecord now r db) as [e db']. cbn [snd] in Hstep. assert (Hreach' : rtc step empty_db db') by (by eapply rtc_r).
  pose proof (reachable_log_ok _ Hreach) as Hok. pose proof (reachable_log_ok _ Hreach') as Hok'. split; [done|].
  destruct e as [e|].
  { destruct Hs as (-> & Hh & Hs & Hc & _). split; [|done]. exists []. rewrite app_nil_r. split_and!; [done|cbn; lia|constructor]. }
  destruct Hs as [[Hh ->]|(Hnew & Hst & ->)].
  - split; [exists []; rewrite app_nil_r; split_and!; [done|cbn; lia|constructor]|].
    pose proof (GetRecord_spec (id r) db Hok) as Hg. destruct (GetRecord (id r) db) as [r'|e].
    + destruct Hg as (w & Hw & Hi & ->). exists (row_rec w). split_and!; [done|done|]. congruence.
    + destruct Hg as [_ Hg]. congruence.
  - set (w := row_of now (record_local_seq db + 1) r). assert (Hrows : rows (insert_row now r db) = rows db ++ [w]) by done.
    split.
    { exists [w]. rewrite Hrows. split_and!; [done|cbn; lia|]. constructor; [|done]. split; [done|apply row_rec_of]. }
    pose proof (GetRecord_spec (id r) _ Hok') as Hg. destruct (GetRecord (id r) (insert_row now r db)) as [r'|e].
    + destruct Hg as (w' & Hw' & Hi & ->). exists (row_rec w'). split_and!; [done|done|]. intros _. split; [|done].
      rewrite Hrows in Hw'. apply elem_of_app in Hw' as [Hw'| ->%list_elem_of_singleton].
      * apply not_true_iff_false in Hnew. exfalso. apply Hnew, HasRecord_true. by exists w'.
      * apply row_rec_of.
    + destruct Hg as [_ Hg]. apply not_true_iff_false in Hg. exfalso. apply Hg, HasRecord_true. exists w. rewrite Hrows. split; [set_solver|done].
Qed.

(** ** Sequence numbers are spent once *)

(** What [NextSeq] gave out, newest first, over a run of operations that begins with
    an integrity check of any database, a restored one included. *)
Inductive issuing (self : NodeID) (start : Db) : list (AreaTag * Z) → Db → Prop :=
| issue_start : issuing self start [] (CheckSeqIntegrity self start).2
| issue_next issued a n db db' : issuing self start issued db → NextSeq a db = (Ok n, db') → issuing self start ((a, n) :: issued) db'
| issue_step issued db db' : issuing self start issued db → step db db' → issuing self start issued db'.

Lemma step_marks db db' a : log_ok db → step db db' → AreaHighWater a db ≤ AreaHighWater a db'.
Proof.
  intros Hok Hs. destruct Hs as [now r db Hr|b db|self db|now n db].
  - pose proof (PutRecord_spec now r db) as H. destruct (PutRecord now r db) as [[e|] db']; cbn [snd]; [by destruct H as [-> _]|].
    by destruct H as [[_ ->]|(_ & _ & ->)].
  - pose proof (NextSeq_spec b db) as H. destruct (NextSeq b db) as [r db']; cbn [snd]. destruct H as (_ & _ & _ & Hm & _).
    rewrite Hm. destruct (decide (b = a ∧ is_ok r = true)); lia.
  - pose proof Hok as (_ & _ & _ & _ & _ & _ & Hpos). pose proof (CheckSeqIntegrity_spec self db Hpos) as H.
    destruct (CheckSeqIntegrity self db) as [b db']; cbn [snd]. destruct H as (_ & Hm & _). rewrite Hm. lia.
  - pose proof (PutNode_spec now n db Hok) as H. destruct (PutNode now n db) as [e db']. by destruct H as (_ & [m ->] & _).
Qed.


(** A database whose marks cover one's own records passes the check: restoring a whole
    backup of such a database, whose marks and records are from the same moment, is not
    noticed, and the numbers spent since the backup are given out again. *)
Lemma restored_backup_passes self db :
  log_ok db → (∀ w, w ∈ rows db → Origin (columns w) = self → Seq (columns w) ≤ AreaHighWater (Area (columns w)) db) →
  CheckSeqIntegrity self db = (false, db).
Proof.
  intros Hok Hown. unfold CheckSeqIntegrity. cbv zeta. rewrite bool_decide_true; [done|].
  destruct (filter _ _) as [|a l] eqn:Hf; [done|]. exfalso. assert (Ha : a ∈ a :: l) by left. rewrite <- Hf in Ha. revert Ha. intros [Hb _]%list_elem_of_filter. unfold behind in Hb. apply Z.ltb_lt in Hb.
  pose proof Hok as (_ & _ & _ & _ & _ & _ & Hpos). specialize (Hpos a).
  destruct (HighWaterForArea_spec self a db) as [_ [H0|(w & Hw & Ho & <- & Hs)]]; [lia|]. specialize (Hown w Hw Ho). lia.
Qed.
End facts.
