(* ===== verification/GossipStore.v ===== *)
(** * The log as the sync engine sees it (internal/store/gossipstore.go)

    The adapter between the record log and anti-entropy: the federated areas, the
    version vector of an area, the records of a range, and [Apply], the one way in for
    what peers send. Errors the engine cannot be told are reported; here they are
    constructors, without their texts. The context and the lock are not modelled. *)

From S2P Require Import Prelude Binary Identity Order.
From S2P Require VersionVector.
From S2P Require Import Records RecordLog.
From S2P Require GossipEngine Sneakernet Exchange.

Abbreviation Vector := VersionVector.Vector.
Abbreviation Range := VersionVector.Range.

(** A row of [areas], as far as the adapter looks at it. *)
Inductive AreaKind := KindMessage | KindFile | KindDoor.
#[export] Instance AreaKind_eq_dec : EqDecision AreaKind.
Proof. solve_decision. Defined.
Record AreaRow := mkArea { a_Tag : AreaTag; a_Kind : AreaKind; a_Federated : bool }.

(** What [onError] is told. *)
Inductive report :=
| WrongArea (r : ID)
| MailRefused (o : NodeID)
| NotADoorLeague (o : NodeID)
| OnlyDoorEvents (o : NodeID)
| NodeUnverified (o : NodeID) (e : verify_error)
| NodeNotStored (o : NodeID) (e : store_error)
| NoKeyYet (o : NodeID) (e : store_error)
| RecordUnverified (r : ID) (e : verify_error)
| Divergent (o : NodeID)
| NotDecoded (e : codec_error)
| QueryFailed.

Record GossipStore := mkStore {
  st : Db;
  keys : gmap NodeID bytes;
  areas : list AreaTag;
  fileAreas : gset AreaTag;
  doorAreas : gset AreaTag
}.

Definition RosterArea : AreaTag := zero_arr 4.
Definition notReplicated : list byte := [TypeDM].
Definition isNotReplicated (t : byte) : bool := bool_decide (t ∈ notReplicated).
Definition maxRecordsPerRange : nat := 256.

Section gossip_store.
Context `{HB : Blake3, HE : Ed25519, HD : SqlDriver}.

(** ** Areas *)

Definition Refresh (table : list AreaRow) (g : GossipStore) : GossipStore :=
  let federated := filter (λ a, a_Federated a = true ∧ a_Tag a ≠ DMArea) (sort_by a_Tag less_arr table) in
  let tags k := list_to_set (a_Tag <$> filter (λ a, a_Kind a = k) federated) in
  mkStore (st g) (keys g) (a_Tag <$> federated) (tags KindFile) (tags KindDoor).

Definition NewGossipStore (table : list AreaRow) (db : Db) : GossipStore := Refresh table (mkStore db ∅ [] ∅ ∅).

Definition IsFileArea (g : GossipStore) (tag : AreaTag) : bool := bool_decide (tag ∈ fileAreas g).
Definition IsDoorArea (g : GossipStore) (tag : AreaTag) : bool := bool_decide (tag ∈ doorAreas g).
Definition Areas (g : GossipStore) : list AreaTag := RosterArea :: areas g.

(** ** What is held *)

(** The rows of an area that replicate: both queries share the filter. *)
Definition replicated (area : AreaTag) (db : Db) : list Row :=
  filter (λ w, Area (columns w) = area ∧ isNotReplicated (Type_ (columns w)) = false) (rows db).

(** [rows.Next()] over [ORDER BY origin, seq]: the current origin with its run. *)
Record scan := mkScan { cur : option NodeID; contiguous : Z; so_far : Vector }.

Definition flush_scan (s : scan) : Vector :=
  match cur s with
  | Some o => if 0 <? contiguous s then VersionVector.Set_ (so_far s) o (contiguous s) else so_far s
  | None => so_far s
  end.

Definition scan_row (s : scan) (e : NodeID * Z) : scan :=
  let s := if bool_decide (cur s = Some e.1) then s else mkScan (Some e.1) 0 (flush_scan s) in
  if e.2 =? contiguous s + 1 then mkScan (cur s) e.2 (so_far s) else s.

Definition less_entry : NodeID * Z → NodeID * Z → bool := less_pair less_arr Z.ltb.

Definition Vector_ (g : GossipStore) (area : AreaTag) : Vector :=
  let sel := sort_by (λ e, e) less_entry ((λ w, (Origin (columns w), Seq (columns w))) <$> replicated area (st g)) in
  flush_scan (foldl scan_row (mkScan None 0 VersionVector.New) sel).

Definition decoded (w : Row) : option Rec := match rebuild w with Ok r => Some r | Err _ => None end.

Definition Records_ (g : GossipStore) (area : AreaTag) (r : Range) : list Rec :=
  if binds (VersionVector.From r) && binds (VersionVector.To r) then
    let sel := filter (λ w, Origin (columns w) = VersionVector.Origin r ∧
                 VersionVector.From r ≤ Seq (columns w) ≤ VersionVector.To r) (replicated area (st g)) in
    omap decoded (take maxRecordsPerRange (sort_by (λ w, Seq (columns w)) Z.ltb sel))
  else [].

(** ** The one way in *)

Definition with_db (db : Db) (g : GossipStore) : GossipStore :=
  mkStore db (keys g) (areas g) (fileAreas g) (doorAreas g).
Definition with_keys (m : gmap NodeID bytes) (g : GossipStore) : GossipStore :=
  mkStore (st g) m (areas g) (fileAreas g) (doorAreas g).

Definition keyFor (id : NodeID) (g : GossipStore) : result store_error bytes * GossipStore :=
  match keys g !! id with
  | Some pub => (Ok pub, g)
  | None =>
      match GetNode id (st g) with
      | Err e => (Err e, g)
      | Ok n =>
          if negb (Matches id (n_PublicKey n)) then (Err (KeyDoesNotMatch id), g)
          else (Ok (n_PublicKey n), with_keys (<[id := n_PublicKey n]> (keys g)) g)
      end
  end.

Definition forget (id : NodeID) (g : GossipStore) : GossipStore := with_keys (delete id (keys g)) g.

(** The checks that come before the signature, in order. *)
Definition misplaced (g : GossipStore) (area : AreaTag) (r : Rec) : option report :=
  let f := fields r in
  let isDoorEvent := bool_decide (Type_ f = TypeDoorEvent) in
  if negb (bool_decide (Area f = area)) then Some (WrongArea (id r))
  else if isNotReplicated (Type_ f) then Some (MailRefused (Origin f))
  else if negb (eqb isDoorEvent (IsDoorArea g area))
  then Some (if isDoorEvent then NotADoorLeague (Origin f) else OnlyDoorEvents (Origin f))
  else None.

(** A NODE record carries its key and brings it in; any other needs the roster. *)
Definition verified (now : Z) (r : Rec) (g : GossipStore) : option report * GossipStore :=
  let o := Origin (fields r) in
  if bool_decide (Type_ (fields r) = TypeNode) then
    match VerifyNodeRecord r with
    | Err e => (Some (NodeUnverified o e), g)
    | Ok _ =>
        match PutNodeFromRecord now r (st g) with
        | (Err e, _) => (Some (NodeUnverified o e), g)
        | (Ok (Some e), _) => (Some (NodeNotStored o e), g)
        | (Ok None, db) => (None, forget o (with_db db g))
        end
    end
  else
    match keyFor o g with
    | (Err e, g) => (Some (NoKeyYet o e), g)
    | (Ok pub, g) => (match Verify r pub with Ok _ => None | Err e => Some (RecordUnverified (id r) e) end, g)
    end.

(** One round: what is reported, how many rows were added, and an error that ends
    the loop. *)
Definition apply_one (now : Z) (area : AreaTag) (r : Rec) (g : GossipStore)
    : GossipStore * Z * option report * option store_error :=
  match misplaced g area r with
  | Some why => (g, 0, Some why, None)
  | None =>
      match verified now r g with
      | (Some why, g) => (g, 0, Some why, None)
      | (None, g) =>
          let held := HasRecord (id r) (st g) in
          match PutRecord now r (st g) with
          | (Some ErrSeqConflict, _) => (g, 0, Some (Divergent (Origin (fields r))), None)
          | (Some e, _) => (g, 0, None, Some e)
          | (None, db) => (with_db db g, if held then 0 else 1, None, None)
          end
      end
  end.

Fixpoint apply_loop (now : Z) (area : AreaTag) (recs : list Rec) (g : GossipStore) (added : Z) (told : list report)
    : GossipStore * Z * list report * option store_error :=
  match recs with
  | [] => (g, added, told, None)
  | r :: recs' =>
      let '(g, n, why, err) := apply_one now area r g in
      let told := told ++ option_list why in
      match err with
      | Some e => (g, added, told, Some e)
      | None => apply_loop now area recs' g (added + n) told
      end
  end.

Definition Apply (now : Z) (area : AreaTag) (recs : list Rec) (g : GossipStore)
    : GossipStore * Z * list report * option store_error := apply_loop now area recs g 0 [].
End gossip_store.

(** ** The interfaces it implements *)

Section instances.
Context `{HB : Blake3, HE : Ed25519, HD : SqlDriver} (now : Z).

Definition apply_quietly (g : GossipStore) (area : AreaTag) (recs : list Rec) : GossipStore * Z * option store_error :=
  let '(g, added, _, err) := Apply now area recs g in (g, added, err).

#[local] Instance log_Store : GossipEngine.Store GossipStore store_error := {
  st_Areas := Areas; st_Vector := Vector_; st_Records := Records_; st_Apply := apply_quietly
}.
#[local] Instance log_Exporter : Exchange.Exporter GossipStore := {
  ex_Areas := Areas; ex_Vector := Vector_; ex_Records := Records_
}.
#[local] Instance log_Importer : Exchange.Importer GossipStore store_error := apply_quietly.
End instances.

(** ** The version vector *)

Section vector.
Context `{HB : Blake3, HE : Ed25519, HD : SqlDriver}.

(** The run of one origin in a list of entries. *)
Definition run_step (o : NodeID) (c : Z) (e : NodeID * Z) : Z :=
  if bool_decide (e.1 = o) && (e.2 =? c + 1) then e.2 else c.
Definition run_of (l : list (NodeID * Z)) (o : NodeID) : Z := foldl (run_step o) 0 l.

Lemma run_of_snoc l e o : run_of (l ++ [e]) o = run_step o (run_of l o) e.
Proof. unfold run_of. by rewrite foldl_app. Qed.

Lemma run_of_absent l o : o ∉ l.*1 → run_of l o = 0.
Proof.
  induction l as [|e l IH] using rev_ind; [done|]. rewrite fmap_app, not_elem_of_app, run_of_snoc. intros [Hl He].
  rewrite IH by done. unfold run_step. rewrite bool_decide_false; [done|]. intros E. apply He. rewrite <- E. cbn. by left.
Qed.

Lemma run_of_nonneg l o : 0 ≤ run_of l o.
Proof.
  induction l as [|e l IH] using rev_ind; [done|]. rewrite run_of_snoc. unfold run_step.
  destruct (bool_decide (e.1 = o)), (Z.eqb_spec e.2 (run_of l o + 1)); cbn; lia.
Qed.

(** Entries of one origin stand together. *)
Definition grouped (l : list (NodeID * Z)) : Prop :=
  ∀ l1 e l2, l = l1 ++ e :: l2 → last l1 ≠ None → (fst <$> last l1) ≠ Some e.1 → e.1 ∉ l1.*1.

(** Where the scan stands after a list. *)
Definition scan_ok (l : list (NodeID * Z)) (s : scan) : Prop :=
  cur s = fst <$> last l ∧
  (∀ o, cur s = Some o → contiguous s = run_of l o ∧ VersionVector.Get (so_far s) o = 0) ∧
  (∀ o, cur s ≠ Some o → VersionVector.Get (so_far s) o = run_of l o).

Lemma flush_scan_Get l s o : scan_ok l s → VersionVector.Get (flush_scan s) o = run_of l o.
Proof.
  intros (Hc & Hcur & Hother). unfold flush_scan. pose proof (run_of_nonneg l o) as Hpos. destruct (cur s) as [c|]; [|by apply Hother].
  destruct (Hcur c eq_refl) as [Hrun H0]. destruct (decide (c = o)) as [->|Hne].
  - destruct (Z.ltb_spec 0 (contiguous s)); [|rewrite H0; lia]. rewrite VersionVector.Set_Get, decide_True by done. lia.
  - assert (Hs : VersionVector.Get (so_far s) o = run_of l o) by (apply Hother; congruence).
    destruct (0 <? contiguous s); [|done]. by rewrite VersionVector.Set_Get, decide_False.
Qed.

Lemma scan_row_ok l s e : grouped (l ++ [e]) → scan_ok l s → scan_ok (l ++ [e]) (scan_row s e).
Proof.
  intros Hg Hs. pose proof Hs as (Hc & Hcur & Hother). unfold scan_row.
  assert (Hmid : scan_ok (l ++ [e]) (let s' := if bool_decide (cur s = Some e.1) then s else mkScan (Some e.1) 0 (flush_scan s) in
    if e.2 =? contiguous s' + 1 then mkScan (cur s') e.2 (so_far s') else s')); [|exact Hmid].
  cbv zeta. case_bool_decide as He.
  - destruct (Hcur _ He) as [Hrun H0]. split_and!.
    + rewrite last_snoc. cbn. destruct (e.2 =? contiguous s + 1); done.
    + intros o Ho. assert (o = e.1) as -> by (destruct (e.2 =? contiguous s + 1); cbn in Ho; congruence).
      rewrite run_of_snoc. unfold run_step. rewrite bool_decide_true, <- Hrun by done. cbn [andb].
      destruct (e.2 =? contiguous s + 1); done.
    + intros o Ho. assert (o ≠ e.1) as Hne by (intros ->; destruct (e.2 =? contiguous s + 1); cbn in Ho; congruence).
      rewrite run_of_snoc. unfold run_step. rewrite bool_decide_false by congruence. cbn [andb].
      destruct (e.2 =? contiguous s + 1); cbn [so_far]; apply Hother; congruence.
  - assert (Habs : e.1 ∉ l.*1).
    { destruct (decide (last l = None)) as [Hn|Hn]; [apply last_None in Hn as ->; apply not_elem_of_nil|].
      apply (Hg l e []); [done|done|]. congruence. }
    assert (Hget : ∀ o, VersionVector.Get (flush_scan s) o = run_of l o) by (intros o; by apply flush_scan_Get).
    cbn [contiguous]. split_and!.
    + rewrite last_snoc. destruct (e.2 =? 0 + 1); done.
    + intros o Ho. assert (o = e.1) as -> by (destruct (e.2 =? 0 + 1); cbn in Ho; congruence).
      rewrite run_of_snoc. unfold run_step. rewrite bool_decide_true by done. rewrite (run_of_absent l) by done. cbn [andb].
      destruct (e.2 =? 0 + 1); cbn [contiguous so_far]; (split; [done|]); rewrite Hget; by apply run_of_absent.
    + intros o Ho. assert (o ≠ e.1) as Hne by (intros ->; destruct (e.2 =? 0 + 1); cbn in Ho; congruence).
      rewrite run_of_snoc. unfold run_step. rewrite bool_decide_false by congruence. cbn [andb].
      destruct (e.2 =? 0 + 1); cbn [so_far]; apply Hget.
Qed.

Lemma grouped_prefix l1 l2 : grouped (l1 ++ l2) → grouped l1.
Proof. intros H a e b -> Hl. apply (H a e (b ++ l2)); [by rewrite <- app_assoc|done]. Qed.

Lemma scan_all_ok l : grouped l → scan_ok l (foldl scan_row (mkScan None 0 VersionVector.New) l).
Proof.
  induction l as [|e l IH] using rev_ind; intros Hg; [split_and!; [done|done|]; intros o _; cbn [foldl so_far]; unfold VersionVector.Get, VersionVector.New; by rewrite lookup_empty|].
  rewrite foldl_app. cbn [foldl]. apply scan_row_ok; [done|]. apply IH. by eapply grouped_prefix.
Qed.

#[local] Instance less_entry_total : StrictTotal less_entry.
Proof. apply less_pair_total; apply _. Qed.

Lemma less_entry_true a b : less_entry a b = true ↔ less_arr a.1 b.1 = true ∨ a.1 = b.1 ∧ a.2 < b.2.
Proof.
  unfold less_entry, less_pair. destruct a as [o s], b as [o' s']. cbn [fst snd]. case_decide as Ho.
  - subst o'. rewrite Z.ltb_lt. split; [by right|]. intros [H|[_ H]]; [|done]. by rewrite lt_irrefl in H.
  - split; [by left|]. intros [H|[? _]]; done.
Qed.

Lemma sorted_app_lt {A : Type} (R : A → A → Prop) l1 x l2 y : StronglySorted R (l1 ++ x :: l2) → y ∈ l1 → R y x.
Proof.
  intros Hs Hy. induction l1 as [|z l1 IH]; [by apply not_elem_of_nil in Hy|]. cbn in Hs. inversion Hs as [|? ? Hs' Hall]; subst.
  apply elem_of_cons in Hy as [->|Hy]; [|by apply IH]. rewrite Forall_forall in Hall. apply Hall. set_solver.
Qed.

Definition entry_lt (a b : NodeID * Z) : Prop := less_entry a b = true.

Lemma sorted_grouped l : StronglySorted entry_lt l → grouped l.
Proof.
  intros Hs l1 e l2 -> Hl Hne Hin. destruct (last l1) as [p|] eqn:Hp; [|done]. apply last_Some in Hp as [l0 ->].
  assert (p.1 ≠ e.1) as Hpe by (cbn in Hne; congruence).
  assert (entry_lt p e) as Hlt by (eapply sorted_app_lt; [exact Hs|]; set_solver).
  rewrite fmap_app, elem_of_app in Hin. destruct Hin as [Hin|Hin].
  - apply list_elem_of_fmap in Hin as (q & Hq & Hin). rewrite <- app_assoc in Hs.
    assert (entry_lt q p) as Hqp by (eapply sorted_app_lt; [exact Hs|done]).
    apply less_entry_true in Hqp, Hlt. destruct Hlt as [Hlt|[? _]]; [|done]. destruct Hqp as [Hqp|[? _]]; [|congruence].
    pose proof (lt_trans _ _ _ Hqp Hlt) as H. rewrite Hq in H. by rewrite lt_irrefl in H.
  - cbn in Hin. apply list_elem_of_singleton in Hin. congruence.
Qed.

(** The run of a sorted list is its contiguous prefix from one up. *)
Lemma run_of_spec l o :
  StronglySorted entry_lt l → (∀ s, 1 ≤ s ≤ run_of l o → (o, s) ∈ l) ∧ (o, run_of l o + 1) ∉ l.
Proof.
  induction l as [|e l IH] using rev_ind; intros Hs; [split; [cbn; lia|apply not_elem_of_nil]|].
  assert (Hs' : StronglySorted entry_lt l) by (by apply StronglySorted_app_1_l in Hs).
  destruct (IH Hs') as [Hin Hout]. rewrite run_of_snoc. unfold run_step. case_bool_decide as He; cbn [andb].
  - destruct (Z.eqb_spec e.2 (run_of l o + 1)) as [Hn|Hn].
    + split.
      * intros s Hr. apply elem_of_app. destruct (decide (s = e.2)) as [->|Hne]; [right; rewrite <- He; destruct e; by left|]. left. apply Hin. lia.
      * intros [H|H]%elem_of_app.
        { pose proof (sorted_app_lt _ _ _ _ _ Hs H) as Hlt. apply less_entry_true in Hlt. cbn [fst snd] in Hlt.
          rewrite He in Hlt. destruct Hlt as [Hlt|[_ Hlt]]; [by rewrite lt_irrefl in Hlt|lia]. }
        apply list_elem_of_singleton, (f_equal snd) in H. cbn in H. lia.
    + split; [intros s Hr; apply elem_of_app; left; by apply Hin|].
      intros [H|H]%elem_of_app; [done|]. apply list_elem_of_singleton in H. rewrite <- H in Hn. done.
  - split; [intros s Hr; apply elem_of_app; left; by apply Hin|].
    intros [H|H]%elem_of_app; [done|]. apply list_elem_of_singleton in H. rewrite <- H in He. done.
Qed.

(** A coordinate that is held and replicates. *)
Definition holds (db : Db) (area : AreaTag) (o : NodeID) (s : Z) : Prop :=
  ∃ w, w ∈ replicated area db ∧ Origin (columns w) = o ∧ Seq (columns w) = s.

Lemma elem_of_replicated area db w :
  w ∈ replicated area db ↔ w ∈ rows db ∧ Area (columns w) = area ∧ isNotReplicated (Type_ (columns w)) = false.
Proof. unfold replicated. rewrite list_elem_of_filter. tauto. Qed.

Definition entry_of (w : Row) : NodeID * Z := (Origin (columns w), Seq (columns w)).

Lemma replicated_entries_NoDup area db : log_ok db → NoDup (entry_of <$> replicated area db).
Proof.
  intros (_ & Hco & _). unfold replicated. induction (rows db) as [|w l IH]; [by apply NoDup_nil_2|].
  cbn [fmap list_fmap] in Hco. apply NoDup_cons in Hco as [Hw Hl]. rewrite filter_cons. case_decide as Ha; [|by apply IH].
  cbn [fmap list_fmap]. apply NoDup_cons. split; [|by apply IH]. intros (w' & He & Hw')%list_elem_of_fmap. apply Hw.
  apply list_elem_of_fmap. exists w'. apply list_elem_of_filter in Hw' as [[Ha' _] Hw']. split; [|done].
  unfold coord. unfold entry_of in He. destruct Ha as [Ha _]. congruence.
Qed.

Definition entries_of (area : AreaTag) (db : Db) : list (NodeID * Z) :=
  sort_by (λ e, e) less_entry (entry_of <$> replicated area db).

Lemma entries_of_sorted area db : log_ok db → StronglySorted entry_lt (entries_of area db).
Proof.
  intros Hok. apply (sort_by_strict (λ e, e) less_entry). rewrite list_fmap_id. by apply replicated_entries_NoDup.
Qed.

Lemma elem_of_entries area db o s : (o, s) ∈ entries_of area db ↔ holds db area o s.
Proof.
  assert (Hp : entries_of area db ≡ₚ entry_of <$> replicated area db) by apply sort_by_Permutation.
  rewrite Hp, list_elem_of_fmap. unfold holds, entry_of. naive_solver.
Qed.

Lemma Vector_Get g area o : log_ok (st g) → VersionVector.Get (Vector_ g area) o = run_of (entries_of area (st g)) o.
Proof. intros Hok. apply flush_scan_Get, scan_all_ok, sorted_grouped, entries_of_sorted, Hok. Qed.

Lemma Vector_contiguous g area o :
  log_ok (st g) →
  let n := VersionVector.Get (Vector_ g area) o in
  0 ≤ n ∧ (∀ s, 1 ≤ s ≤ n → holds (st g) area o s) ∧ ¬ holds (st g) area o (n + 1).
Proof.
  intros Hok. cbv zeta. rewrite Vector_Get by done. destruct (run_of_spec (entries_of area (st g)) o (entries_of_sorted _ _ Hok)) as [Hin Hout].
  split; [apply run_of_nonneg|]. split; [intros s Hs; by apply elem_of_entries, Hin|]. by rewrite <- elem_of_entries.
Qed.

(** The contiguous mark is the one number with these properties. *)
Lemma Vector_Get_ge g area o n :
  log_ok (st g) → (∀ s, 1 ≤ s ≤ n → holds (st g) area o s) → n ≤ VersionVector.Get (Vector_ g area) o.
Proof.
  intros Hok Hn. destruct (Vector_contiguous g area o Hok) as (Hpos & _ & Hout).
  destruct (Z.le_gt_cases n (VersionVector.Get (Vector_ g area) o)); [done|]. exfalso. apply Hout, Hn. lia.
Qed.

(** ** The records of a range *)

Definition in_range (r : Range) (w : Row) : Prop :=
  Origin (columns w) = VersionVector.Origin r ∧ VersionVector.From r ≤ Seq (columns w) ≤ VersionVector.To r.
#[local] Instance in_range_dec r w : Decision (in_range r w).
Proof. unfold in_range. apply _. Defined.

Definition in_order (area : AreaTag) (r : Range) (db : Db) : list Row :=
  sort_by (λ w, Seq (columns w)) Z.ltb (filter (in_range r) (replicated area db)).

Lemma elem_of_in_order area r db w : w ∈ in_order area r db ↔ in_range r w ∧ w ∈ replicated area db.
Proof.
  assert (Hp : in_order area r db ≡ₚ filter (in_range r) (replicated area db)) by apply sort_by_Permutation.
  rewrite Hp. apply list_elem_of_filter.
Qed.

Lemma in_range_seqs_NoDup area r db : log_ok db → NoDup ((λ w, Seq (columns w)) <$> filter (in_range r) (replicated area db)).
Proof.
  intros Hok. pose proof (replicated_entries_NoDup area db Hok) as Hnd. induction (replicated area db) as [|w l IH]; [by apply NoDup_nil_2|].
  cbn [fmap list_fmap] in Hnd. apply NoDup_cons in Hnd as [Hw Hl]. rewrite filter_cons. case_decide as Hr; [|by apply IH].
  cbn [fmap list_fmap]. apply NoDup_cons. split; [|by apply IH]. intros (w' & He & Hw')%list_elem_of_fmap.
  apply list_elem_of_filter in Hw' as [[Ho' _] Hw']. apply Hw, list_elem_of_fmap. exists w'. split; [|done].
  unfold entry_of. destruct Hr as [Ho _]. congruence.
Qed.

Lemma strict_sorted_eq (l k : list Z) : StronglySorted Z.lt l → NoDup k → StronglySorted Z.le k → (∀ x, x ∈ l ↔ x ∈ k) → l = k.
Proof.
  intros Hl Hk Hks Hin. apply (StronglySorted_unique Z.le).
  - induction Hl as [|x l Hl IH Hall]; constructor; [|eapply Forall_impl; [exact Hall|]; cbn; lia].
    clear -Hl. induction Hl as [|y l Hl IH Hall]; constructor; [done|]. eapply Forall_impl; [exact Hall|]. cbn. lia.
  - done.
  - apply NoDup_Permutation; [|done|done]. clear -Hl. induction Hl as [|x l Hl IH Hall]; constructor; [|done].
    intros Hx. rewrite Forall_forall in Hall. specialize (Hall x Hx). lia.
Qed.

Lemma seqZ_sorted m n : StronglySorted Z.le (seqZ m n).
Proof.
  destruct (Z.le_gt_cases n 0) as [Hn|Hn]; [rewrite seqZ_nil by done; constructor|].
  revert m. induction n as [|n Hp IH|] using (Z.succ_pred_induction 0); intros m; [constructor| |lia].
  rewrite seqZ_cons by lia. rewrite Z.pred_succ. constructor.
  - destruct (decide (0 < n)); [by apply IH|]. rewrite seqZ_nil by lia. constructor.
  - apply Forall_seqZ. lia.
Qed.

Lemma in_order_sorted area r db : log_ok db → StronglySorted Z.lt ((λ w, Seq (columns w)) <$> in_order area r db).
Proof.
  intros Hok. pose proof (sort_by_strict (λ w, Seq (columns w)) Z.ltb _ (in_range_seqs_NoDup area r db Hok)) as Hs.
  fold (in_order area r db) in Hs. induction Hs as [|w l Hl IH Hall]; cbn [fmap list_fmap]; constructor; [done|].
  apply Forall_fmap. eapply Forall_impl; [exact Hall|]. intros w' H. by apply Z.ltb_lt in H.
Qed.

Lemma decoded_rows l : Forall (λ w, wf_rec (row_rec w)) l → omap decoded l = row_rec <$> l.
Proof.
  induction 1 as [|w l Hw _ IH]; [done|]. cbn [omap list_omap fmap list_fmap]. unfold decoded at 1. rewrite (rebuild_ok w Hw). by f_equal.
Qed.

Definition bindable (r : Range) : Prop := binds (VersionVector.From r) = true ∧ binds (VersionVector.To r) = true.

Lemma Records_eq g area r :
  log_ok (st g) → bindable r → Records_ g area r = row_rec <$> take maxRecordsPerRange (in_order area r (st g)).
Proof.
  intros Hok [Hf Ht]. unfold Records_. rewrite Hf, Ht. cbn [andb]. fold (in_range r). fold (in_order area r (st g)).
  apply decoded_rows, Forall_take. apply Forall_forall. intros w [_ Hw]%elem_of_in_order. apply elem_of_replicated in Hw as [Hw _].
  destruct Hok as (_ & _ & Hwf & _). rewrite Forall_forall in Hwf. by apply Hwf.
Qed.

(** A range that is held in full comes out in full, a call's worth at a time. *)
Lemma Records_full g area r :
  log_ok (st g) → bindable r → (∀ s, VersionVector.From r ≤ s ≤ VersionVector.To r → holds (st g) area (VersionVector.Origin r) s) →
  (λ rec, Seq (fields rec)) <$> Records_ g area r =
    seqZ (VersionVector.From r) (Z.min (Z.of_nat maxRecordsPerRange) (VersionVector.To r - VersionVector.From r + 1)).
Proof.
  intros Hok Hb Hheld. rewrite Records_eq by done. rewrite <- list_fmap_compose.
  change (λ w, ((λ rec, Seq (fields rec)) ∘ row_rec) w) with (λ w, Seq (columns w)).
  change ((λ rec, Seq (fields rec)) ∘ row_rec) with (λ w, Seq (columns w)). rewrite fmap_take.
  assert (Hall : (λ w, Seq (columns w)) <$> in_order area r (st g) = seqZ (VersionVector.From r) (VersionVector.To r - VersionVector.From r + 1)).
  { apply strict_sorted_eq; [by apply in_order_sorted|apply NoDup_seqZ|apply seqZ_sorted|]. intros s.
    rewrite list_elem_of_fmap, elem_of_seqZ. split.
    - intros (w & -> & [[_ Hw] _]%elem_of_in_order). lia.
    - intros Hs. destruct (Hheld s ltac:(lia)) as (w & Hw & Ho & <-). exists w. split; [done|]. apply elem_of_in_order. split; [split; [done|lia]|done]. }
  rewrite Hall. set (k := VersionVector.To r - VersionVector.From r + 1).
  destruct (Z.le_gt_cases k (Z.of_nat maxRecordsPerRange)) as [Hk|Hk].
  - rewrite Z.min_r by done. apply take_ge. rewrite length_seqZ. lia.
  - rewrite Z.min_l by lia. replace k with (Z.of_nat maxRecordsPerRange + (k - Z.of_nat maxRecordsPerRange)) by lia.
    rewrite seqZ_app by lia. apply take_app_length'. by rewrite length_seqZ, Nat2Z.id.
Qed.

(** C9: what the vector promises is there to be served. In every reachable log the
    vector of an area names, for each origin, the highest sequence number up to which
    every record is held, private mail not counted, and not one more; and the records
    of any range within the promise are exactly those, in order, the first 256 of
    them, each as it was signed. *)
Theorem promised_is_served g area o :
  rtc step empty_db (st g) →
  let n := VersionVector.Get (Vector_ g area) o in
  0 ≤ n ∧ (∀ s, 1 ≤ s ≤ n → holds (st g) area o s) ∧ ¬ holds (st g) area o (n + 1) ∧
  ∀ r, VersionVector.Origin r = o → 1 ≤ VersionVector.From r → VersionVector.To r ≤ n → bindable r →
    (λ rec, Seq (fields rec)) <$> Records_ g area r =
      seqZ (VersionVector.From r) (Z.min 256 (VersionVector.To r - VersionVector.From r + 1)) ∧
    Forall (λ rec, wf_rec rec ∧ Origin (fields rec) = o ∧ Area (fields rec) = area ∧ Type_ (fields rec) ≠ TypeDM ∧
      ∃ w, w ∈ rows (st g) ∧ row_rec w = rec) (Records_ g area r).
Proof.
  intros Hok%reachable_log_ok. cbv zeta. destruct (Vector_contiguous g area o Hok) as (Hpos & Hin & Hout).
  split_and!; [done..|]. intros r Ho Hf Ht Hb. split.
  - apply (Records_full g area r Hok Hb). intros s Hs. rewrite Ho. apply Hin. lia.
  - rewrite Records_eq by done. apply Forall_fmap, Forall_take, Forall_forall. intros w [[Hwo _] Hw]%elem_of_in_order.
    apply elem_of_replicated in Hw as (Hw & Ha & Ht'). destruct Hok as (_ & _ & Hwf & _). rewrite Forall_forall in Hwf.
    split_and!; cbn; [by apply Hwf|congruence|done| |by exists w]. intros E. rewrite E in Ht'. by vm_compute in Ht'.
Qed.
End vector.

(** ** What [Apply] lets in *)

Section apply.
Context `{HB : Blake3, HE : Ed25519, HD : SqlDriver}.

(** The cache agrees with the roster. *)
Definition store_ok (g : GossipStore) : Prop :=
  log_ok (st g) ∧ ∀ o pub, keys g !! o = Some pub → ∃ n, nodes (st g) !! o = Some n ∧ n_PublicKey n = pub.

(** The roster's key of a node; it is the node's own, and stays. *)
Definition roster_key (g : GossipStore) (o : NodeID) : option bytes := n_PublicKey <$> nodes (st g) !! o.

(** What the adapter's rounds keep. *)
Definition carries_on (g g' : GossipStore) : Prop :=
  store_ok g' ∧ areas g' = areas g ∧ fileAreas g' = fileAreas g ∧ doorAreas g' = doorAreas g ∧
  ∀ o pub, roster_key g o = Some pub → roster_key g' o = Some pub.

Lemma carries_on_refl g : store_ok g → carries_on g g.
Proof. intros H. by split_and!. Qed.
Lemma carries_on_trans g1 g2 g3 : carries_on g1 g2 → carries_on g2 g3 → carries_on g1 g3.
Proof. intros (_ & A1 & B1 & C1 & K1) (H & A2 & B2 & C2 & K2). split_and!; [done|congruence..|]. intros o pub Ho. by apply K2, K1. Qed.

Lemma roster_key_self g o pub : store_ok g → roster_key g o = Some pub → o = NodeIDFromPublicKey pub.
Proof.
  intros [(_ & _ & _ & _ & _ & Hn & _) _]. unfold roster_key. destruct (nodes (st g) !! o) as [n|] eqn:Ho; [|done]. intros [= <-].
  destruct (Hn _ _ Ho) as [_ Hm]. by apply Matches_true.
Qed.

(** [keyFor] answers from the roster. *)
Lemma keyFor_spec o g :
  store_ok g →
  let '(r, g') := keyFor o g in
  carries_on g g' ∧ st g' = st g ∧ match r with Ok pub => roster_key g o = Some pub | Err _ => roster_key g o = None end.
Proof.
  intros Hok. pose proof Hok as [(_ & _ & _ & _ & _ & Hn & _) Hk]. unfold keyFor, GetNode, roster_key.
  destruct (keys g !! o) as [pub|] eqn:Hc.
  { destruct (Hk _ _ Hc) as (n & Ho & <-). rewrite Ho. split; [by apply carries_on_refl|done]. }
  destruct (nodes (st g) !! o) as [n|] eqn:Ho; [|split; [by apply carries_on_refl|done]].
  destruct (Hn _ _ Ho) as [_ ->]. cbn [negb]. split; [|done]. split_and!; try done. split; [exact (proj1 Hok)|].
  cbn [keys with_keys st]. intros i pub. destruct (decide (o = i)) as [<-|Hne]; [|rewrite lookup_insert_ne by done; apply Hk].
  rewrite lookup_insert_eq. intros [= <-]. by exists n.
Qed.

(** Whether a record's signature can be checked and holds. *)
Definition genuine (g : GossipStore) (r : Rec) : Prop :=
  if bool_decide (Type_ (fields r) = TypeNode) then ∃ b, VerifyNodeRecord r = Ok b
  else ∃ pub, roster_key g (Origin (fields r)) = Some pub ∧ Verify r pub = Ok tt.

Definition admissible (g : GossipStore) (area : AreaTag) (r : Rec) : Prop := misplaced g area r = None ∧ genuine g r.

Lemma genuine_carries g g' r : carries_on g g' → genuine g r → genuine g' r.
Proof.
  intros (_ & _ & _ & _ & Hk). unfold genuine. case_bool_decide; [done|]. intros (pub & Hp & Hv). exists pub. split; [by apply Hk|done].
Qed.

Lemma admissible_carries g g' area r : carries_on g g' → admissible g area r → admissible g' area r.
Proof.
  intros Hc [Hm Hg]. split; [|by eapply genuine_carries]. destruct Hc as (_ & _ & _ & Hd & _).
  unfold misplaced, IsDoorArea in *. by rewrite Hd.
Qed.

Lemma Verify_unit r pub : (∃ u, Verify r pub = Ok u) ↔ Verify r pub = Ok tt.
Proof. split; [by intros [[] ?]|eauto]. Qed.

Lemma put_node_from_record now r g b :
  store_ok g → VerifyNodeRecord r = Ok b →
  ∃ db, PutNodeFromRecord now r (st g) = (Ok None, db) ∧ rows db = rows (st g) ∧
    carries_on g (forget (Origin (fields r)) (with_db db g)).
Proof.
  intros [Hok Hk] Hv. unfold PutNodeFromRecord. rewrite Hv. set (n := mkNode _ _ _ _ _ _ _ _).
  pose proof (PutNode_spec now n (st g) Hok) as Hs. destruct (PutNode now n (st g)) as [e db].
  destruct Hs as (Hok' & [m Hm] & Hkeep & _ & Hnone).
  assert (e = None) as ->.
  { apply Hnone; [|done]. unfold VerifyNodeRecord in Hv. apply bind_unit_Ok in Hv as [_ Hv]. apply bind_Ok in Hv as (body & _ & Hv).
    apply bind_unit_Ok in Hv as [Hmat%require_Ok Hv]. apply bind_unit_Ok in Hv as [_ [= <-]]. exact Hmat. }
  exists db. split; [done|]. split; [by rewrite Hm|]. split_and!; try done.
  - split; [done|]. cbn [forget with_keys keys with_db st]. intros o pub [_ Ho]%lookup_delete_Some.
    destruct (Hk _ _ Ho) as (n0 & Hn0 & <-). destruct (Hkeep _ _ Hn0) as (m' & Hm' & Hp). exists m'. by rewrite Hp.
  - unfold roster_key. cbn [forget with_keys st with_db]. intros o pub. destruct (nodes (st g) !! o) as [n0|] eqn:Hn0; [|done].
    intros [= <-]. destruct (Hkeep _ _ Hn0) as (m' & -> & Hp). cbn. by rewrite Hp.
Qed.

Lemma verified_spec now r g :
  store_ok g →
  let '(why, g') := verified now r g in
  carries_on g g' ∧ rows (st g') = rows (st g) ∧ (why = None ↔ genuine g r) ∧
  (why = None → ∃ pub, Origin (fields r) = NodeIDFromPublicKey pub ∧ Verify r pub = Ok tt).
Proof.
  intros Hok. unfold verified, genuine. case_bool_decide as Ht.
  - destruct (VerifyNodeRecord r) as [b|e] eqn:Hv; [|split; [by apply carries_on_refl|]; split_and!; [done|split; [done|by intros [? ?]]|done]].
    destruct (put_node_from_record now r g b Hok Hv) as (db & -> & Hr & Hc). split_and!; [done|exact Hr|by split; [eauto|]|].
    intros _. exists (Bodies.Node.PublicKey b). unfold VerifyNodeRecord in Hv. apply bind_unit_Ok in Hv as [_ Hv]. apply bind_Ok in Hv as (body & _ & Hv).
    apply bind_unit_Ok in Hv as [Hmat%require_Ok Hv]. apply bind_Ok in Hv as ([] & Hsig & [= <-]). split; [by apply Matches_true|done].
  - pose proof (keyFor_spec (Origin (fields r)) g Hok) as Hs. destruct (keyFor (Origin (fields r)) g) as [[pub|e] g'];
      destruct Hs as (Hc & Hst & Hkey).
    + split_and!; [done|by rewrite Hst| |].
      * destruct (Verify r pub) as [[]|e] eqn:Hv; split; [by intros _; exists pub|done|done|].
        intros (pub' & Hp & Hv'). congruence.
      * destruct (Verify r pub) as [[]|e] eqn:Hv; [|done]. intros _. exists pub. split; [by eapply roster_key_self|done].
    + split_and!; [done|by rewrite Hst|split; [done|]; intros (pub & Hp & _); congruence|done].
Qed.

(** One row a record may become, and why it may. *)
Definition let_in (g : GossipStore) (area : AreaTag) (w : Row) : Prop :=
  misplaced g area (row_rec w) = None ∧
  ∃ pub, Origin (columns w) = NodeIDFromPublicKey pub ∧ Verify (row_rec w) pub = Ok tt.

(** What a round leaves: the new rows, what it counts, and where an admissible
    record ends up. *)
Definition round_ok (g : GossipStore) (area : AreaTag) (r : Rec) (g' : GossipStore) (n : Z) (err : option store_error) : Prop :=
  carries_on g g' ∧
  ∃ new, rows (st g') = rows (st g) ++ new ∧ n = Z.of_nat (length new) ∧ Forall (let_in g area) new ∧
    (row_rec <$> new = [] ∨ row_rec <$> new = [r]) ∧
    (err = None → admissible g area r → ∃ w, w ∈ rows (st g') ∧ (row_id w = id r ∨ coord (columns w) = coord (fields r))) ∧
    (err ≠ None → new = [] ∧ admissible g area r ∧ ¬ fits r).

Lemma apply_one_spec now area r g :
  store_ok g → wf_rec r → let '(g', n, why, err) := apply_one now area r g in round_ok g area r g' n err.
Proof.
  intros Hok Hwf. unfold apply_one. destruct (misplaced g area r) as [why|] eqn:Hm.
  { split; [by apply carries_on_refl|]. exists []. rewrite app_nil_r. split_and!; try done; [by left|]. intros _ [? _]. congruence. }
  pose proof (verified_spec now r g Hok) as Hs. destruct (verified now r g) as [[why|] g1]; destruct Hs as (Hc & Hr & Hiff & Hv).
  { split; [done|]. exists []. rewrite app_nil_r. split_and!; try done; [by left|]. intros _ [_ Hg]. by apply Hiff in Hg. }
  assert (Hadm : admissible g area r) by (split; [done|by apply Hiff]).
  pose proof (PutRecord_spec now r (st g1)) as Hp. destruct (PutRecord now r (st g1)) as [[e|] db].
  - destruct Hp as (-> & Hnew & Hst & Hconf & Hfit).
    assert (Hfail : e ≠ ErrSeqConflict → round_ok g area r g1 0 (Some e)).
    { intros Hne. split; [done|]. exists []. rewrite app_nil_r. split_and!; try done; [by left|]. intros _. split_and!; [done|done|by apply Hfit]. }
    destruct e; try (by apply Hfail). split; [done|]. exists []. rewrite app_nil_r. split_and!; try done; [by left|].
    intros _ _. destruct (proj1 Hconf eq_refl) as (_ & w & Hw & Hco). exists w. split; [done|by right].
  - destruct Hp as [[Hh ->]|(Hh & Hst & ->)]; rewrite Hh.
    + split; [by destruct g1|]. exists []. rewrite app_nil_r. split_and!; try done; [by left|].
      intros _ _. apply HasRecord_true in Hh as (w & Hw & Hi). exists w. split; [done|by left].
    + set (w := row_of now (record_local_seq (st g1) + 1) r). split.
      { pose proof Hc as ([Hlog Hk] & Ha & Hf & Hd & Hkeys). split_and!; try done. split; [|done].
        apply insert_row_ok; [done..|]. by destruct Hst as (_ & ? & _). }
      exists [w]. assert (Hw : row_rec w = r) by apply row_rec_of. split_and!.
      * cbn [st with_db rows insert_row]. by rewrite Hr.
      * done.
      * constructor; [|done]. unfold let_in. rewrite Hw. split; [done|by apply Hv].
      * right. cbn. by rewrite Hw.
      * intros _ _. exists w. cbn [st with_db rows insert_row]. split; [set_solver|]. by left.
      * done.
Qed.

Lemma let_in_carries g g' area w : carries_on g g' → let_in g' area w → let_in g area w.
Proof. intros (_ & _ & _ & Hd & _) [Hm Hv]. split; [|done]. unfold misplaced, IsDoorArea in *. by rewrite <- Hd. Qed.

Definition batch_ok (g : GossipStore) (area : AreaTag) (recs : list Rec) (g' : GossipStore) (n : Z) (err : option store_error) : Prop :=
  carries_on g g' ∧
  ∃ new, rows (st g') = rows (st g) ++ new ∧ n = Z.of_nat (length new) ∧ Forall (let_in g area) new ∧
    (row_rec <$> new) `sublist_of` recs ∧
    (err = None → ∀ r, r ∈ recs → admissible g area r → ∃ w, w ∈ rows (st g') ∧ (row_id w = id r ∨ coord (columns w) = coord (fields r))) ∧
    (err ≠ None → ∃ r, r ∈ recs ∧ admissible g' area r ∧ ¬ fits r).

Lemma apply_loop_spec now area recs g added told :
  store_ok g → Forall wf_rec recs →
  let '(g', n, told', err) := apply_loop now area recs g added told in batch_ok g area recs g' (n - added) err.
Proof.
  revert g added told. induction recs as [|r recs IH]; intros g added told Hok Hwf; cbn [apply_loop].
  { split; [by apply carries_on_refl|]. exists []. rewrite app_nil_r. split_and!; try done; [cbn; lia|]. by intros _ r ?%not_elem_of_nil. }
  apply Forall_cons in Hwf as [Hr Hwf]. pose proof (apply_one_spec now area r g Hok Hr) as H1.
  destruct (apply_one now area r g) as [[[g1 n1] why] err]. destruct H1 as (Hc & new & Hrows & Hn & Hin & Hnew & Hdone & Hfail).
  destruct err as [e|].
  { destruct (Hfail ltac:(done)) as (-> & Hadm & Hst). split; [done|]. exists []. split_and!; try done; [cbn; lia|apply sublist_nil_l|].
    intros _. exists r. split_and!; [by left| |done]. by eapply admissible_carries. }
  specialize (IH g1 (added + n1) (told ++ option_list why) (proj1 Hc) Hwf).
  destruct (apply_loop now area recs g1 (added + n1) _) as [[[g2 n] told'] err]. destruct IH as (Hc2 & new2 & Hrows2 & Hn2 & Hin2 & Hsub & Hdone2 & Hfail2).
  split; [by eapply carries_on_trans|]. exists (new ++ new2). split_and!.
  - by rewrite Hrows2, Hrows, app_assoc.
  - rewrite length_app. lia.
  - apply Forall_app. split; [done|]. eapply Forall_impl; [exact Hin2|]. intros w. by apply let_in_carries.
  - rewrite fmap_app. destruct Hnew as [->| ->]; cbn [app]; [by apply sublist_cons|by apply sublist_skip].
  - intros E r' [->|Hr']%elem_of_cons Hadm.
    + destruct (Hdone eq_refl Hadm) as (w & Hw & Hw'). exists w. split; [|done]. rewrite Hrows2. set_solver.
    + apply Hdone2; [done|done|]. by eapply admissible_carries.
  - intros E. destruct (Hfail2 E) as (r' & Hr' & H). exists r'. split; [by right|done].
Qed.


(** ** A round trip between two stores *)

Lemma Vector_wf g area : log_ok (st g) → VersionVector.wf_vector (Vector_ g area).
Proof.
  intros Hok o n Ho. assert (n = VersionVector.Get (Vector_ g area) o) as -> by (unfold VersionVector.Get; by rewrite Ho).
  destruct (Vector_contiguous g area o Hok) as (Hpos & Hin & _). destruct (decide (VersionVector.Get (Vector_ g area) o = 0)) as [->|Hne]; [done|].
  destruct (Hin (VersionVector.Get (Vector_ g area) o) ltac:(lia)) as (w & [Hw _]%elem_of_replicated & _ & <-).
  destruct Hok as (_ & _ & Hwf & _). rewrite Forall_forall in Hwf. by destruct (Hwf w Hw) as (? & _).
Qed.

(** Whatever a record's ID says, its fields are. *)
Definition ids_faithful (recs : list Rec) : Prop :=
  ∀ r r', r ∈ recs → r' ∈ recs → id r = id r' → coord (fields r) = coord (fields r').

(** A batch that may enter, and fits, is held afterwards at its own coordinates. *)
Lemma Apply_holds now area recs g :
  store_ok g → Forall wf_rec recs → (∀ r, r ∈ recs → admissible g area r ∧ fits r) →
  (∀ w, w ∈ rows (st g) → Area (columns w) = area → Type_ (columns w) ≠ TypeDM) →
  ids_faithful ((row_rec <$> rows (st g)) ++ recs) →
  let '(g', _, _, err) := Apply now area recs g in
  err = None ∧ log_ok (st g') ∧ (∀ o s, holds (st g) area o s → holds (st g') area o s) ∧
  ∀ r, r ∈ recs → holds (st g') area (Origin (fields r)) (Seq (fields r)).
Proof.
  intros Hok Hwf Hall Hmail Hids. unfold Apply. pose proof (apply_loop_spec now area recs g 0 [] Hok Hwf) as H.
  destruct (apply_loop now area recs g 0 []) as [[[g' n] told] err].
  destruct H as (Hc & new & Hrows & _ & Hin & Hsub & Hdone & Hfail). rewrite Forall_forall in Hin.
  assert (err = None) as ->.
  { destruct err as [e|]; [|done]. destruct (Hfail ltac:(done)) as (r & Hr & _ & Hf). by destruct (Hall r Hr). }
  assert (Hdm : ∀ w, w ∈ rows (st g') → Area (columns w) = area → isNotReplicated (Type_ (columns w)) = false).
  { intros w Hw Ha. rewrite Hrows in Hw. apply elem_of_app in Hw as [Hw|Hw].
    - apply bool_decide_eq_false. unfold notReplicated. rewrite list_elem_of_singleton. by apply Hmail.
    - destruct (Hin w Hw) as [Hm _]. unfold misplaced in Hm. cbn [fields row_rec] in Hm. case_bool_decide; [|done]. cbn [negb] in Hm.
      by destruct (isNotReplicated (Type_ (columns w))). }
  split_and!; [done|by destruct Hc as [[? _] _]|..].
  - intros o s (w & Hw & Ho). exists w. split; [|done]. apply elem_of_replicated in Hw as (Hw & Ha & Ht).
    apply elem_of_replicated. split_and!; [rewrite Hrows; set_solver|done|done].
  - intros r Hr. destruct (Hall r Hr) as [Hadm _]. destruct (Hdone eq_refl r Hr Hadm) as (w & Hw & Hor).
    assert (Hco : coord (columns w) = coord (fields r)).
    { destruct Hor as [Hi|]; [|done]. apply (Hids (row_rec w) r); [|set_solver|done]. rewrite Hrows in Hw.
      apply elem_of_app in Hw as [Hw|Hw]; apply elem_of_app; [left; by apply list_elem_of_fmap_2|right].
      eapply elem_of_sublist; [|exact Hsub]. by apply list_elem_of_fmap_2. }
    destruct Hadm as [Hm _]. unfold misplaced in Hm. case_bool_decide as Ha; [|done]. unfold coord in Hco. injection Hco as Ho Har Hs.
    exists w. split; [|done]. apply elem_of_replicated. split_and!; [done|congruence|]. apply Hdm; [done|congruence].
Qed.

(** What [h] sends when [g] asks for what it misses. *)
Definition answers (g h : GossipStore) (area : AreaTag) : list Rec :=
  VersionVector.Missing (Vector_ g area) (Some (Vector_ h area)) ≫= Records_ h area.

Lemma answers_wf g h area :
  log_ok (st h) → Forall bindable (VersionVector.Missing (Vector_ g area) (Some (Vector_ h area))) → Forall wf_rec (answers g h area).
Proof.
  intros Hok Hb. apply Forall_forall. intros r (rg & Hr & Hrg)%list_elem_of_bind. rewrite Forall_forall in Hb.
  rewrite Records_eq in Hr by (done || by apply Hb). apply list_elem_of_fmap in Hr as (w & -> & Hw%elem_of_take).
  destruct Hw as (i & Hw & _). apply list_elem_of_lookup_2, elem_of_in_order in Hw as [_ [Hw _]%elem_of_replicated].
  destruct Hok as (_ & _ & Hwf & _). rewrite Forall_forall in Hwf. by apply Hwf.
Qed.

Lemma answers_contain g h area o s :
  log_ok (st g) → log_ok (st h) → Forall bindable (VersionVector.Missing (Vector_ g area) (Some (Vector_ h area))) →
  VersionVector.Get (Vector_ g area) o < s ≤ Z.min (VersionVector.Get (Vector_ h area) o) (VersionVector.Get (Vector_ g area) o + 256) →
  ∃ r, r ∈ answers g h area ∧ Origin (fields r) = o ∧ Seq (fields r) = s.
Proof.
  set (mine := VersionVector.Get (Vector_ g area) o). set (theirs := VersionVector.Get (Vector_ h area) o). intros Hg Hh Hb Hs.
  set (rg := VersionVector.mkRange o (mine + 1) theirs).
  assert (Hrg : rg ∈ VersionVector.Missing (Vector_ g area) (Some (Vector_ h area))).
  { apply VersionVector.elem_of_Missing; [by apply Vector_wf|by apply Vector_wf|]. cbn [rg VersionVector.Origin VersionVector.From VersionVector.To].
    fold mine theirs. split_and!; [lia|done|done]. }
  rewrite Forall_forall in Hb. pose proof (Hb rg Hrg) as Hbr.
  assert (Hs' : s ∈ (λ rec, Seq (fields rec)) <$> Records_ h area rg).
  { rewrite (Records_full h area rg Hh Hbr).
    - cbn [rg VersionVector.From VersionVector.To]. apply elem_of_seqZ. unfold maxRecordsPerRange. lia.
    - cbn [rg VersionVector.From VersionVector.To VersionVector.Origin]. intros k Hk. apply (Vector_contiguous h area o Hh).
      pose proof (Vector_contiguous g area o Hg) as [Hp _]. fold mine in Hp. fold theirs. lia. }
  apply list_elem_of_fmap in Hs' as (r & -> & Hr). exists r. split_and!; [|clear Hs|done].
  - apply list_elem_of_bind. by exists rg.
  - rewrite Records_eq in Hr by done. apply list_elem_of_fmap in Hr as (w & -> & (i & Hw & _)%elem_of_take).
    by apply list_elem_of_lookup_2, elem_of_in_order in Hw as [[Hw _] _].
Qed.


(** ** What the code does not mean to do *)

(** A record with an empty body, which any peer can sign, is never stored and ends
    every batch it comes first in: nothing behind it gets in. *)
Lemma empty_body_blocks now area r recs g :
  store_ok g → wf_rec r → admissible g area r → nil_is_null = true → Body (fields r) = [] → binds (Seq (fields r)) = true →
  HasRecord (id r) (st g) = false → ¬ (∃ w, w ∈ rows (st g) ∧ coord (columns w) = coord (fields r)) →
  ∃ g', Apply now area (r :: recs) g = (g', 0, [], Some NullBody) ∧ rows (st g') = rows (st g).
Proof.
  intros Hok Hwf Hadm Hnull Hb Hs Hh Hfree. unfold Apply. cbn [apply_loop]. unfold apply_one. destruct Hadm as [-> Hg].
  pose proof (verified_spec now r g Hok) as Hv. destruct (verified now r g) as [why g1]. destruct Hv as (_ & Hrows & Hiff & _).
  apply Hiff in Hg as ->. rewrite <- Hrows in Hfree. unfold PutRecord. change (HasRecord (id r) (st g)) with (existsb (λ w, bool_decide (row_id w = id r)) (rows (st g))) in Hh.
  rewrite <- Hrows in Hh. change (existsb (λ w, bool_decide (row_id w = id r)) (rows (st g1))) with (HasRecord (id r) (st g1)) in Hh. rewrite Hh, Hs.
  cbn [negb]. destruct (existsb _ _) eqn:Hc; [by apply conflict_true in Hc|]. rewrite bool_decide_true, Hnull by done. cbn [andb]. by exists g1.
Qed.

(** A NODE record that is held already still sets the name and the contact it carries,
    whatever newer ones the roster has: replaying an old one undoes a renaming. *)
Lemma replayed_node_record_renames now area r g b :
  store_ok g → misplaced g area r = None → Type_ (fields r) = TypeNode → VerifyNodeRecord r = Ok b → HasRecord (id r) (st g) = true →
  let '(g', added, _, err) := Apply now area [r] g in
  err = None ∧ added = 0 ∧ rows (st g') = rows (st g) ∧
  n_DisplayName <$> nodes (st g') !! Origin (fields r) = Some (Bodies.Node.DisplayName b).
Proof.
  intros Hok Hm Ht Hv Hh. unfold Apply. cbn [apply_loop]. unfold apply_one, verified. rewrite Hm, bool_decide_true, Hv by done.
  destruct (put_node_from_record now r g b Hok Hv) as (db & Hput & Hrows & _). rewrite Hput. cbn [forget with_keys with_db st].
  assert (Hh' : HasRecord (id r) db = true) by (unfold HasRecord; by rewrite Hrows).
  unfold PutRecord. rewrite Hh'. cbn [apply_loop with_db st]. split_and!; [done|done|done|].
  unfold PutNodeFromRecord in Hput. rewrite Hv in Hput. set (n := mkNode _ _ _ _ _ _ _ _) in Hput.
  pose proof (PutNode_spec now n (st g) (proj1 Hok)) as Hs. destruct (PutNode now n (st g)) as [e db']. injection Hput as -> ->.
  destruct Hs as (_ & _ & _ & Hname & _). destruct (Hname eq_refl) as (m & Hm' & Hd & _). cbn [n n_ID n_DisplayName] in Hm', Hd. rewrite Hm'. cbn. by rewrite Hd.
Qed.
End apply.
