(* ===== verification/IpLink.v ===== *)
(** * The link over IP (internal/iplink/link.go, cert.go)

    Federation over mutually authenticated TLS: who a certificate says a peer is and who
    may connect, the framing of datagrams on a connection, and the operations of the link
    with its goroutines as interleaved steps. Parsing certificates is a parameter, and so
    is what TLS does on the wire: a handshake ends with the certificates whose keys the
    peer proved, what arrives on a connection arrives in pieces of any size, and a write
    may fail. Times are nanoseconds. *)

From stdpp Require Import relations.
From S2P Require Import Prelude Binary Identity Order.
From S2P Require Import GossipStore BsmpOutbox BsmpInbox.

Definition MTU : Z := 1400.
Definition maxFrame : Z := MTU.

(** ** Who a peer is (cert.go) *)

(** The key in a certificate, if it can be parsed. *)
Inductive peer_key := Ed25519Key (pub : bytes) | OtherKey.
Class Certificates := cert_key : bytes → option peer_key.

Inductive ip_error :=
| ErrNoPeerCertificate | BadCertificate | NotEd25519 | ErrUnknownPeer (id : NodeID)
| ErrClosed | ErrTooLarge | NoConnection (to : NodeID) | WriteFailed.

Definition Authorizer : Type := NodeID → bool.
Definition AllowList (ids : list NodeID) : Authorizer := λ id, bool_decide (id ∈ ids).

Section cert.
Context `{HB : Blake3, HC : Certificates}.

Definition PeerIDFromCertificate (raw : list bytes) : result ip_error NodeID :=
  match raw with
  | [] => Err ErrNoPeerCertificate
  | c :: _ =>
      match cert_key c with
      | None => Err BadCertificate
      | Some OtherKey => Err NotEd25519
      | Some (Ed25519Key pub) => Ok (NodeIDFromPublicKey pub)
      end
  end.

(** The callback of the handshake: a node dialled must be the one expected; of the others
    only those allowed come in, and without a list nobody does. *)
Definition VerifyPeerCertificate (authorize : option Authorizer) (expect : option NodeID) (raw : list bytes) : result ip_error unit :=
  id ← PeerIDFromCertificate raw;
  match expect with
  | Some e => require (bool_decide (id = e)) (ErrUnknownPeer id)
  | None => match authorize with None => Err (ErrUnknownPeer id) | Some f => require (f id) (ErrUnknownPeer id) end
  end.
End cert.

(** ** Frames *)

Definition frame (payload : bytes) : bytes := be_bytes 4 (strlen payload) ++ payload.
Inductive frame_read := Incomplete | BadLength | Frame (payload rest : bytes).
Definition next_frame (s : bytes) : frame_read :=
  if (length s <? 4)%nat then Incomplete
  else
    let n := be_val (take 4 s) in
    if (n =? 0) || (maxFrame <? n) then BadLength
    else if strlen (drop 4 s) <? n then Incomplete
    else Frame (take (Z.to_nat n) (drop 4 s)) (drop (Z.to_nat n) (drop 4 s)).

(** ** The link *)

(** A connection whose handshake is over: the certificates proved on it, whom it was
    dialled to, whose frames it reads, whether its reader still runs, what arrived and
    was not read, whether the other end has closed it and whether this one has, the
    deadline of its writes, and whether one failed, after which TLS writes no more. The
    last four fields are what has passed: all that arrived, the frames read with whether
    the inbox took them, all that was written and the payloads written. *)
Record conn := mkConn {
  cn_Raw : list bytes; cn_Expect : option NodeID; cn_Peer : NodeID; cn_Reading : bool; cn_In : bytes; cn_Eof : bool; cn_Open : bool;
  cn_Deadline : option Z; cn_Broken : bool;
  cn_Got : bytes; cn_Read : list (bytes * bool); cn_Out : bytes; cn_Written : list bytes
}.
Definition new_conn (raw : list bytes) (expect : option NodeID) (peer : NodeID) : conn :=
  mkConn raw expect peer true [] false true None false [] [] [] [].
Definition closed_conn (x : conn) : conn :=
  mkConn (cn_Raw x) (cn_Expect x) (cn_Peer x) (cn_Reading x) (cn_In x) (cn_Eof x) false (cn_Deadline x) (cn_Broken x) (cn_Got x) (cn_Read x) (cn_Out x) (cn_Written x).
Definition stopped_conn (x : conn) : conn :=
  mkConn (cn_Raw x) (cn_Expect x) (cn_Peer x) false (cn_In x) (cn_Eof x) false (cn_Deadline x) (cn_Broken x) (cn_Got x) (cn_Read x) (cn_Out x) (cn_Written x).
Definition arrived (s : bytes) (eof : bool) (x : conn) : conn :=
  mkConn (cn_Raw x) (cn_Expect x) (cn_Peer x) (cn_Reading x) (cn_In x ++ s) (cn_Eof x || eof) (cn_Open x) (cn_Deadline x) (cn_Broken x) (cn_Got x ++ s) (cn_Read x) (cn_Out x) (cn_Written x).
Definition took (payload rest : bytes) (ok : bool) (x : conn) : conn :=
  mkConn (cn_Raw x) (cn_Expect x) (cn_Peer x) (cn_Reading x) rest (cn_Eof x) (cn_Open x) (cn_Deadline x) (cn_Broken x) (cn_Got x) (cn_Read x ++ [(payload, ok)]) (cn_Out x) (cn_Written x).

(** The link, with all the inbox ever took and on which connection. *)
Record Link := mkLink {
  lk_authorize : option Authorizer; inbox_size : nat; inbox : list (Z * Datagram); peers : gmap NodeID nat; lk_closed : bool;
  conns : gmap nat conn; taken : list (nat * (Z * Datagram))
}.
Definition New (authorize : option Authorizer) (size : Z) : Link :=
  mkLink authorize (Z.to_nat (if size <=? 0 then 256 else size)) [] ∅ false ∅ [].
Definition with_conns (c : gmap nat conn) (l : Link) : Link := mkLink (lk_authorize l) (inbox_size l) (inbox l) (peers l) (lk_closed l) c (taken l).
Definition with_peers (p : gmap NodeID nat) (l : Link) : Link := mkLink (lk_authorize l) (inbox_size l) (inbox l) p (lk_closed l) (conns l) (taken l).
Definition on_conn (f : conn → conn) (c : nat) (l : Link) : Link := with_conns (alter f c (conns l)) l.
Definition close_conn : nat → Link → Link := on_conn closed_conn.

Definition register (id : NodeID) (c : nat) (l : Link) : Link :=
  if lk_closed l then close_conn c l
  else
    let l := match peers l !! id with Some old => if bool_decide (old = c) then l else close_conn old l | None => l end in
    with_peers (<[id := c]> (peers l)) l.

(** What [drop] does; the reader ends with it. *)
Definition drop_conn (c : nat) (l : Link) : Link :=
  match conns l !! c with
  | None => l
  | Some x => on_conn stopped_conn c (if bool_decide (peers l !! cn_Peer x = Some c) then with_peers (delete (cn_Peer x) (peers l)) l else l)
  end.

Section link.
Context `{HB : Blake3, HC : Certificates}.

(** [serve], once the handshake is over. *)
Definition serve (c : nat) (raw : list bytes) (l : Link) : Link :=
  match (_ ← VerifyPeerCertificate (lk_authorize l) None raw; PeerIDFromCertificate raw) with
  | Err _ => l
  | Ok id => register id c (with_conns (<[c := new_conn raw None id]> (conns l)) l)
  end.

(** [Dial]: whether it goes on the wire at all, and what becomes of the handshake. *)
Definition dials (expect : NodeID) (l : Link) : option (option ip_error) :=
  if lk_closed l then Some (Some ErrClosed) else if decide (is_Some (peers l !! expect)) then Some None else None.
Definition dialled (expect : NodeID) (c : nat) (raw : list bytes) (l : Link) : option ip_error * Link :=
  match VerifyPeerCertificate (lk_authorize l) (Some expect) raw with
  | Err e => (Some e, l)
  | Ok _ => (None, register expect c (with_conns (<[c := new_conn raw (Some expect) expect]> (conns l)) l))
  end.

(** A round of [readLoop]: nothing while it waits. *)
Definition read_round (now : Z) (c : nat) (l : Link) : Link :=
  match conns l !! c with
  | None => l
  | Some x =>
      if negb (cn_Reading x) then l
      else if negb (cn_Open x) then drop_conn c l
      else match next_frame (cn_In x) with
      | Incomplete => if cn_Eof x then drop_conn c l else l
      | BadLength => drop_conn c l
      | Frame payload rest =>
          let dg := (now, mkDatagram (cn_Peer x) payload) in
          if (length (inbox l) <? inbox_size l)%nat then
            let l := on_conn (took payload rest true) c l in
            mkLink (lk_authorize l) (inbox_size l) (inbox l ++ [dg]) (peers l) (lk_closed l) (conns l) (taken l ++ [(c, dg)])
          else
            let l := on_conn (took payload rest false) c l in
            if lk_closed l then drop_conn c l else l
      end
  end.

Definition Recv (l : Link) : option (Z * Datagram) * Link :=
  match inbox l with
  | [] => (None, l)
  | dg :: rest => (Some dg, mkLink (lk_authorize l) (inbox_size l) rest (peers l) (lk_closed l) (conns l) (taken l))
  end.

(** One write. A deadline, once set, stays until another is set. *)
Definition write (payload : bytes) (deadline : option Z) (now : Z) (fails : bool) (x : conn) : bool * conn :=
  let dl := match deadline with Some _ => deadline | None => cn_Deadline x end in
  let ok := cn_Open x && negb (cn_Broken x) && negb fails && match dl with Some d => now <? d | None => true end in
  (ok, mkConn (cn_Raw x) (cn_Expect x) (cn_Peer x) (cn_Reading x) (cn_In x) (cn_Eof x) (cn_Open x) dl (cn_Broken x || (cn_Open x && negb ok)) (cn_Got x) (cn_Read x)
         (if ok then cn_Out x ++ frame payload else cn_Out x) (if ok then cn_Written x ++ [payload] else cn_Written x)).

Fixpoint write_all (targets : list nat) (payload : bytes) (deadline : option Z) (now : Z) (fails : nat → bool) (l : Link) : bool * Link :=
  match targets with
  | [] => (true, l)
  | c :: targets =>
      match conns l !! c with
      | None => write_all targets payload deadline now fails l
      | Some x =>
          let '(ok, x) := write payload deadline now (fails c) x in
          let '(oks, l) := write_all targets payload deadline now fails (with_conns (<[c := x]> (conns l)) l) in
          (ok && oks, l)
      end
  end.

Definition targets (to : NodeID) (l : Link) : list nat :=
  if bool_decide (to = Broadcast) then snd <$> map_to_list (peers l) else match peers l !! to with Some c => [c] | None => [] end.

Definition Send (to : NodeID) (payload : bytes) (deadline : option Z) (now : Z) (fails : nat → bool) (l : Link) : option ip_error * Link :=
  if MTU <? strlen payload then (Some ErrTooLarge, l)
  else if lk_closed l then (Some ErrClosed, l)
  else match targets to l with
  | [] => (Some (NoConnection to), l)
  | ts => let '(ok, l) := write_all ts payload deadline now fails l in (if ok then None else Some WriteFailed, l)
  end.

Definition Peers (l : Link) : list NodeID := sort_by (λ i, i) less_id (map_to_list (peers l)).*1.

(** The connections of the table are closed; [Close] returns when no goroutine is left. *)
Definition Close (l : Link) : Link :=
  if lk_closed l then l
  else mkLink (lk_authorize l) (inbox_size l) (inbox l) ∅ true (foldr (alter closed_conn) (conns l) (snd <$> map_to_list (peers l))) (taken l).

(** ** Runs *)

Inductive ip_step : Link → Link → Prop :=
| ip_serve c raw l : conns l !! c = None → ip_step l (serve c raw l)
| ip_dial expect c raw l : conns l !! c = None → ip_step l (dialled expect c raw l).2
| ip_arrive c s eof l : ip_step l (on_conn (arrived s eof) c l)
| ip_read now c l : ip_step l (read_round now c l)
| ip_recv l : ip_step l (Recv l).2
| ip_send to payload deadline now fails l : ip_step l (Send to payload deadline now fails l).2
| ip_close l : ip_step l (Close l).
End link.

(** ** Frames on a stream *)

Definition framed (payloads : list bytes) : bytes := concat (frame <$> payloads).
Definition sound_frame (p : bytes) : Prop := 0 < strlen p ≤ MTU.

Lemma next_frame_frame p rest : sound_frame p → next_frame (frame p ++ rest) = Frame p rest.
Proof.
  unfold sound_frame, MTU. intros Hp. unfold next_frame, frame. rewrite <- app_assoc. assert (Hl : length (be_bytes 4 (strlen p)) = 4%nat) by apply length_be_bytes.
  rewrite take_app_length', drop_app_length' by done. rewrite length_app, Hl, be_val_be_bytes_id by lia. cbn [Nat.add Nat.ltb Nat.leb].
  unfold maxFrame, MTU. destruct (Z.eqb_spec (strlen p) 0); [lia|]. destruct (Z.ltb_spec 1400 (strlen p)); [lia|]. cbn [orb].
  destruct (Z.ltb_spec (strlen (p ++ rest)) (strlen p)) as [Hlt|_]; [unfold strlen in Hlt; rewrite length_app in Hlt; lia|].
  unfold strlen. rewrite Nat2Z.id. by rewrite take_app_length, drop_app_length.
Qed.

Lemma next_frame_Frame s p rest : next_frame s = Frame p rest → s = frame p ++ rest ∧ sound_frame p.
Proof.
  unfold next_frame. destruct (Nat.ltb_spec (length s) 4) as [|Hl]; [done|]. set (n := be_val (take 4 s)).
  assert (Ht : length (take 4 s) = 4%nat) by (rewrite length_take; lia). pose proof (be_val_range_len (take 4 s) 4 Ht) as Hn. fold n in Hn.
  destruct (Z.eqb_spec n 0); [done|]. destruct (Z.ltb_spec maxFrame n) as [|Hm]; [done|]. cbn [orb].
  destruct (Z.ltb_spec (strlen (drop 4 s)) n) as [|Hle]; [done|]. intros [= <- <-].
  assert (Hp : strlen (take (Z.to_nat n) (drop 4 s)) = n) by (unfold strlen in *; rewrite length_take; lia).
  unfold sound_frame. rewrite Hp. unfold maxFrame in Hm. split; [|lia]. unfold frame. rewrite Hp. unfold n. rewrite be_bytes_be_val_len by done.
  by rewrite <- app_assoc, take_drop, take_drop.
Qed.

Lemma framed_snoc ps p : framed (ps ++ [p]) = framed ps ++ frame p.
Proof. unfold framed. rewrite fmap_app, concat_app. cbn. by rewrite app_nil_r. Qed.

(** What was read so far of a stream of sound frames is a beginning of what was sent. *)
Lemma framed_prefix ps qs rest : Forall sound_frame ps → Forall sound_frame qs → framed ps ++ rest `prefix_of` framed qs → ps `prefix_of` qs.
Proof.
  intros Hps. revert qs. induction Hps as [|p ps Hp _ IH]; intros qs Hqs Hpre; [apply prefix_nil|].
  assert (Hq : ∃ q qs', qs = q :: qs').
  { destruct qs as [|q qs']; [|by eauto]. exfalso. apply prefix_nil_inv in Hpre. cbn in Hpre. by destruct (be_bytes 4 (strlen p)) eqn:E; [apply (f_equal length) in E; rewrite length_be_bytes in E|]. }
  destruct Hq as (q & qs' & ->). apply Forall_cons in Hqs as [Hq Hqs].
  change (framed (p :: ps)) with (frame p ++ framed ps) in Hpre. change (framed (q :: qs')) with (frame q ++ framed qs') in Hpre.
  destruct Hpre as [k Hk]. rewrite <- !app_assoc in Hk.
  assert (E : Frame q (framed qs') = Frame p (framed ps ++ rest ++ k)).
  { rewrite <- (next_frame_frame p (framed ps ++ rest ++ k)) by done. rewrite <- Hk. by rewrite next_frame_frame. }
  injection E as -> E. apply prefix_cons, IH; [done|]. exists k. by rewrite <- app_assoc.
Qed.

(** ** The invariant *)

Section invariant.
Context `{HB : Blake3, HC : Certificates}.

(** Who a connection speaks for, what it read and what it wrote. *)
Definition conn_ok (authorize : option Authorizer) (x : conn) : Prop :=
  PeerIDFromCertificate (cn_Raw x) = Ok (cn_Peer x) ∧
  (cn_Expect x = Some (cn_Peer x) ∨ cn_Expect x = None ∧ ∃ f, authorize = Some f ∧ f (cn_Peer x) = true) ∧
  cn_Got x = framed (cn_Read x).*1 ++ cn_In x ∧ Forall sound_frame (cn_Read x).*1 ∧
  cn_Out x = framed (cn_Written x) ∧ Forall (λ p, strlen p ≤ MTU) (cn_Written x).

(** The payloads the inbox took of a connection. *)
Definition kept (x : conn) : list bytes := (filter (λ e : bytes * bool, e.2 = true) (cn_Read x)).*1.
Definition taken_of (c : nat) (l : Link) : list bytes := (λ e : nat * (Z * Datagram), dg_Data e.2.2) <$> filter (λ e : nat * (Z * Datagram), e.1 = c) (taken l).

Definition link_ok (l : Link) : Prop :=
  (∀ c x, conns l !! c = Some x → conn_ok (lk_authorize l) x ∧ taken_of c l = kept x) ∧
  (∀ id c, peers l !! id = Some c → ∃ x, conns l !! c = Some x ∧ cn_Peer x = id) ∧
  (∀ e, e ∈ taken l → ∃ x, conns l !! e.1 = Some x ∧ dg_From e.2.2 = cn_Peer x) ∧
  (∃ gone, (taken l).*2 = gone ++ inbox l) ∧ (length (inbox l) ≤ inbox_size l)%nat.

(** An open connection is the one the table has for its peer, and the link is not closed. *)
Definition open_ok (l : Link) : Prop :=
  ∀ c x, conns l !! c = Some x → cn_Open x = true → lk_closed l = false ∧ peers l !! cn_Peer x = Some c.

(** A change of one connection that keeps its peer and what it read. *)
Definition mild (f : conn → conn) : Prop :=
  ∀ x, cn_Peer (f x) = cn_Peer x ∧ cn_Read (f x) = cn_Read x ∧ (cn_Open (f x) = true → cn_Open x = true) ∧
    ∀ a, conn_ok a x → conn_ok a (f x).

Lemma mild_closed : mild closed_conn.
Proof. done. Qed.
Lemma mild_stopped : mild stopped_conn.
Proof. done. Qed.
Lemma mild_arrived s eof : mild (arrived s eof).
Proof. intros x. split_and!; try done. intros a (H1 & H2 & H3 & H4 & H5 & H6). split_and!; try done. cbn. by rewrite H3, app_assoc. Qed.
Lemma mild_write p dl now fails : strlen p ≤ MTU → mild (λ x, (write p dl now fails x).2).
Proof.
  intros Hp x. split_and!; try done. intros a (H1 & H2 & H3 & H4 & H5 & H6). unfold write. set (ok := _ && match _ with Some _ => _ | None => _ end). clearbody ok.
  split_and!; try done; cbn [snd cn_Out cn_Written]; destruct ok; try done; [by rewrite H5, framed_snoc|]. apply Forall_app. split; [done|by constructor].
Qed.

Lemma on_conn_lookup f c l c' x : conns (on_conn f c l) !! c' = Some x → ∃ y, conns l !! c' = Some y ∧ (x = y ∧ c' ≠ c ∨ x = f y ∧ c' = c).
Proof.
  cbn. destruct (decide (c' = c)) as [->|Hne]; [|rewrite lookup_alter_ne by done; by eauto].
  rewrite lookup_alter_eq. destruct (conns l !! c) as [y|]; [|done]. intros [= <-]. by eauto.
Qed.
Lemma on_conn_some f c l c' y : conns l !! c' = Some y → conns (on_conn f c l) !! c' = Some (if decide (c' = c) then f y else y).
Proof. intros H. cbn. destruct (decide (c' = c)) as [->|Hne]; [rewrite lookup_alter_eq, H|rewrite lookup_alter_ne by done]; done. Qed.

Lemma on_conn_ok f c l : mild f → link_ok l → link_ok (on_conn f c l).
Proof.
  intros Hf (H1 & H2 & H3 & H4 & H5). split_and!; try done.
  - intros c' x (y & Hy & [[-> _]|[-> ->]])%on_conn_lookup; [by apply H1|]. destruct (H1 c y Hy) as [Hok Ht]. destruct (Hf y) as (_ & Hr & _ & Hc).
    split; [by apply Hc|]. unfold kept. by rewrite Hr.
  - intros id c' Hp. destruct (H2 id c' Hp) as (y & Hy & <-). rewrite (on_conn_some f c l c' y Hy). eexists. split; [done|]. case_decide; [apply Hf|done].
  - intros e He. destruct (H3 e He) as (y & Hy & ->). rewrite (on_conn_some f c l e.1 y Hy). eexists. split; [done|]. case_decide; [symmetry; apply Hf|done].
Qed.
Lemma on_conn_open f c l : mild f → open_ok l → open_ok (on_conn f c l).
Proof.
  intros Hf Ho c' x (y & Hy & [[-> _]|[-> ->]])%on_conn_lookup; [by apply Ho|]. intros Hx. destruct (Hf y) as (-> & _ & Hop & _). apply Ho; auto.
Qed.

Lemma with_peers_ok p l : (∀ id c, p !! id = Some c → peers l !! id = Some c ∨ ∃ x, conns l !! c = Some x ∧ cn_Peer x = id) → link_ok l → link_ok (with_peers p l).
Proof. intros Hp (H1 & H2 & H3 & H4 & H5). split_and!; try done. intros id c Hx. destruct (Hp id c Hx) as [?|?]; [by apply H2|done]. Qed.

(** A new connection in the table. *)
Lemma new_conn_ok c raw expect id l : conns l !! c = None → conn_ok (lk_authorize l) (new_conn raw expect id) →
  link_ok l → link_ok (with_conns (<[c := new_conn raw expect id]> (conns l)) l).
Proof.
  intros Hc Hn (H1 & H2 & H3 & H4 & H5). split_and!; try done.
  - intros c' x. cbn. destruct (decide (c' = c)) as [->|]; [rewrite lookup_insert_eq|rewrite lookup_insert_ne by done; apply H1].
    intros [= <-]. split; [done|]. unfold taken_of, kept. cbn. destruct (filter _ _) as [|e r] eqn:E; [done|].
    assert (He : e ∈ filter (λ e : nat * (Z * Datagram), e.1 = c) (taken l)) by (rewrite E; by left). apply list_elem_of_filter in He as [He Hin]. destruct (H3 e Hin) as (y & Hy & _). congruence.
  - intros id' c' Hp. destruct (H2 id' c' Hp) as (y & Hy & Hi). exists y. cbn. rewrite lookup_insert_ne by congruence. done.
  - intros e He. destruct (H3 e He) as (y & Hy & Hi). exists y. cbn. rewrite lookup_insert_ne by congruence. done.
Qed.

Lemma register_new c raw expect id l : conns l !! c = None → conn_ok (lk_authorize l) (new_conn raw expect id) → link_ok l → open_ok l →
  let l' := register id c (with_conns (<[c := new_conn raw expect id]> (conns l)) l) in link_ok l' ∧ open_ok l'.
Proof.
  intros Hc Hn Hl Ho. cbv zeta. pose proof (new_conn_ok c raw expect id l Hc Hn Hl) as Hl1. set (l1 := with_conns _ l) in *.
  assert (Hpc : ∀ i, peers l !! i ≠ Some c) by (intros i Hi; destruct Hl as (_ & H2 & _); destruct (H2 i c Hi) as (y & Hy & _); congruence).
  unfold register. change (lk_closed l1) with (lk_closed l). destruct (lk_closed l) eqn:Hcl.
  { split; [by apply on_conn_ok|]. intros c' x (y & Hy & [[-> Hne]|[-> _]])%on_conn_lookup; [|done]. cbn in Hy. rewrite lookup_insert_ne in Hy by done. intros Hx. destruct (Ho c' y Hy Hx). congruence. }
  change (peers l1) with (peers l). set (l2 := match peers l !! id with Some old => _ | None => l1 end).
  assert (H2 : link_ok l2 ∧ peers l2 = peers l ∧ lk_closed l2 = false ∧ (∃ y, conns l2 !! c = Some y ∧ cn_Peer y = id) ∧
    ∀ c' x, conns l2 !! c' = Some x → cn_Open x = true → c' = c ∧ cn_Peer x = id ∨ c' ≠ c ∧ peers l !! cn_Peer x = Some c' ∧ cn_Peer x ≠ id).
  { assert (Hop : ∀ c' x, conns l1 !! c' = Some x → cn_Open x = true → c' = c ∧ cn_Peer x = id ∨ c' ≠ c ∧ peers l !! cn_Peer x = Some c').
    { intros c' x. cbn. destruct (decide (c' = c)) as [->|Hne]; [rewrite lookup_insert_eq; intros [= <-]; by left|rewrite lookup_insert_ne by done]. intros Hx Hopen. right. by destruct (Ho c' x Hx Hopen). }
    assert (Hself : conns l1 !! c = Some (new_conn raw expect id)) by (cbn; by rewrite lookup_insert_eq).
    subst l2. destruct (peers l !! id) as [old|] eqn:Hold.
    - rewrite bool_decide_false by (intros ->; by apply (Hpc id)). split; [by apply on_conn_ok|]. split; [done|]. split; [done|]. split.
      + eexists. split; [exact (on_conn_some closed_conn old l1 c _ Hself)|]. by case_decide.
      + intros c' x (y & Hy & [[-> Hne]|[-> _]])%on_conn_lookup; [|done]. intros Hx. destruct (Hop c' y Hy Hx) as [?|[? Hp]]; [by left|right]. split_and!; try done.
        intros E. rewrite E in Hp. congruence.
    - split; [done|]. split; [done|]. split; [done|]. split; [by eexists|]. intros c' x Hx Hopen. destruct (Hop c' x Hx Hopen) as [?|[? Hp]]; [by left|right]. split_and!; try done. intros E. rewrite E in Hp. congruence. }
  destruct H2 as (Hl2 & Hp2 & Hc2 & Hself & Hop2). rewrite Hp2. split.
  - apply with_peers_ok; [|done]. intros id' c'. destruct (decide (id' = id)) as [->|]; [rewrite lookup_insert_eq; intros [= <-]; by right|rewrite lookup_insert_ne by done; rewrite Hp2; by left].
  - intros c' x Hx Hopen. split; [done|]. cbn. destruct (Hop2 c' x Hx Hopen) as [[-> ->]|(Hne & Hp & Hid)]; [by rewrite lookup_insert_eq|by rewrite lookup_insert_ne].
Qed.

Lemma drop_ok c l : link_ok l → open_ok l → link_ok (drop_conn c l) ∧ open_ok (drop_conn c l).
Proof.
  intros Hl Ho. unfold drop_conn. destruct (conns l !! c) as [x|] eqn:Hc; [|done]. split.
  - apply on_conn_ok; [done|]. case_bool_decide; [|done]. apply with_peers_ok; [|done]. intros id c'. rewrite lookup_delete_Some. intros [_ ?]. by left.
  - intros c' y (z & Hz & [[-> Hne]|[-> ->]])%on_conn_lookup; [|done]. intros Hy. case_bool_decide as Hp; [|by apply Ho].
    destruct (Ho c' z Hz Hy) as [Hcl Hpz]. split; [done|]. cbn. rewrite lookup_delete_ne; [done|]. intros E. rewrite <- E in Hpz. congruence.
Qed.

(** *** Steps *)

Lemma verified_conn authorize expect raw id :
  VerifyPeerCertificate authorize expect raw = Ok tt → PeerIDFromCertificate raw = Ok id →
  match expect with Some e => e = id | None => ∃ f, authorize = Some f ∧ f id = true end.
Proof.
  unfold VerifyPeerCertificate. intros H Hid. rewrite Hid in H. cbn [mbind result_bind] in H. destruct expect as [e|].
  - apply require_Ok, bool_decide_eq_true in H. done.
  - destruct authorize as [f|]; [|done]. apply require_Ok in H. by exists f.
Qed.

Lemma serve_ok c raw l : conns l !! c = None → link_ok l → open_ok l → link_ok (serve c raw l) ∧ open_ok (serve c raw l).
Proof.
  intros Hc Hl Ho. unfold serve. destruct (_ ≫= _) as [id|e] eqn:E; [|done]. apply bind_unit_Ok in E as [Hv Hid].
  apply register_new; try done. pose proof (verified_conn _ None raw id Hv Hid) as Ha. split_and!; try done. by right.
Qed.

Lemma dialled_ok expect c raw l : conns l !! c = None → link_ok l → open_ok l → link_ok (dialled expect c raw l).2 ∧ open_ok (dialled expect c raw l).2.
Proof.
  intros Hc Hl Ho. unfold dialled. destruct (VerifyPeerCertificate _ _ _) as [[]|e] eqn:E; [|done]. cbn [snd].
  assert (Hid : ∃ id, PeerIDFromCertificate raw = Ok id) by (unfold VerifyPeerCertificate in E; apply bind_Ok in E as (id & ? & _); by exists id).
  destruct Hid as [id Hid]. pose proof (verified_conn _ (Some expect) raw id E Hid) as ->. apply register_new; try done. split_and!; try done. by left.
Qed.

Lemma took_conn a p rest ok x : next_frame (cn_In x) = Frame p rest → conn_ok a x → conn_ok a (took p rest ok x).
Proof.
  intros [Hin Hp]%next_frame_Frame (H1 & H2 & H3 & H4 & H5 & H6). split_and!; try done; cbn [took cn_Read cn_In cn_Got]; rewrite fmap_app; cbn [fmap list_fmap fst].
  - by rewrite framed_snoc, H3, Hin, <- app_assoc.
  - apply Forall_app. split; [done|by constructor].
Qed.

(** Reading a frame, with what the inbox makes of it. *)
Definition noted (ok : bool) (c : nat) (dg : Z * Datagram) (l : Link) : Link :=
  if ok then mkLink (lk_authorize l) (inbox_size l) (inbox l ++ [dg]) (peers l) (lk_closed l) (conns l) (taken l ++ [(c, dg)]) else l.

Lemma took_ok now c x p rest ok l : conns l !! c = Some x → next_frame (cn_In x) = Frame p rest → (ok = true → (length (inbox l) < inbox_size l)%nat) →
  link_ok l → open_ok l →
  let l' := noted ok c (now, mkDatagram (cn_Peer x) p) (on_conn (took p rest ok) c l) in link_ok l' ∧ open_ok l'.
Proof.
  intros Hc Hf Hroom (H1 & H2 & H3 & (gone & H4) & H5) Ho. cbv zeta. set (dg := (now, _)).
  assert (Ht : ∀ c', taken_of c' (noted ok c dg (on_conn (took p rest ok) c l)) = taken_of c' l ++ if decide (ok = true ∧ c = c') then [p] else []).
  { intros c'. unfold taken_of, noted. destruct ok; cbn [taken]; [|rewrite decide_False by (by intros [? _]); by rewrite app_nil_r].
    rewrite filter_app, fmap_app, filter_cons. cbn [fst]. destruct (decide (c = c')); [rewrite decide_True by done|rewrite decide_False by naive_solver]; done. }
  assert (Hcs : conns (noted ok c dg (on_conn (took p rest ok) c l)) = alter (took p rest ok) c (conns l)) by (by destruct ok).
  split; [split_and!|].
  - intros c' y. rewrite Hcs, Ht. replace (lk_authorize (noted _ _ _ _)) with (lk_authorize l) by (by destruct ok).
    intros (z & Hz & [[-> Hne]|[-> ->]])%(on_conn_lookup _ _ l); [rewrite decide_False by naive_solver; rewrite app_nil_r; by apply H1|].
    destruct (H1 c z Hz) as [Hok Hk]. assert (z = x) as -> by congruence. split; [by apply took_conn|]. rewrite Hk. unfold kept. cbn [took cn_Read].
    rewrite filter_app, fmap_app, filter_cons. cbn [snd].
    destruct ok; [rewrite !decide_True by done; done|]. rewrite !decide_False by naive_solver. done.
  - intros id c' Hp. replace (peers (noted _ _ _ _)) with (peers l) in Hp by (by destruct ok). destruct (H2 id c' Hp) as (y & Hy & <-).
    rewrite Hcs. eexists. split; [exact (on_conn_some (took p rest ok) c l c' y Hy)|]. by destruct (decide (c' = c)).
  - intros e He. assert (He' : e ∈ taken l ∨ e = (c, dg)).
    { destruct ok; cbn in He; [|by left]. apply elem_of_app in He as [?| ->%list_elem_of_singleton]; [by left|by right]. }
    rewrite Hcs. destruct He' as [He'| ->].
    + destruct (H3 e He') as (y & Hy & ->). eexists. split; [exact (on_conn_some (took p rest ok) c l e.1 y Hy)|]. by destruct (decide (e.1 = c)).
    + eexists. split; [exact (on_conn_some (took p rest ok) c l c x Hc)|]. by rewrite decide_True.
  - exists gone. destruct ok; cbn; [|done]. by rewrite fmap_app, H4, <- app_assoc.
  - destruct ok; cbn; [|done]. rewrite length_app. cbn. specialize (Hroom eq_refl). lia.
  - intros c' y. rewrite Hcs. intros (z & Hz & [[-> Hne]|[-> ->]])%(on_conn_lookup _ _ l) Hy; destruct (Ho _ _ Hz Hy); by destruct ok.
Qed.

Lemma read_ok now c l : link_ok l → open_ok l → link_ok (read_round now c l) ∧ open_ok (read_round now c l).
Proof.
  intros Hl Ho. unfold read_round. destruct (conns l !! c) as [x|] eqn:Hc; [|done]. destruct (cn_Reading x); [|done]. destruct (cn_Open x); [|by apply drop_ok].
  cbn [negb]. destruct (next_frame (cn_In x)) as [| |p rest] eqn:Hf; [destruct (cn_Eof x); [by apply drop_ok|done]|by apply drop_ok|].
  destruct (Nat.ltb_spec (length (inbox l)) (inbox_size l)) as [Hroom|_].
  - by apply (took_ok now c x p rest true l).
  - destruct (took_ok now c x p rest false l) as [Hl' Ho']; try done. cbv zeta. destruct (lk_closed _); [by apply drop_ok|done].
Qed.

Lemma written_on_conn f c x l : conns l !! c = Some x → with_conns (<[c := f x]> (conns l)) l = on_conn f c l.
Proof.
  intros Hc. unfold on_conn. f_equal. apply map_eq. intros i. destruct (decide (i = c)) as [->|]; [by rewrite lookup_insert_eq, lookup_alter_eq, Hc|by rewrite lookup_insert_ne, lookup_alter_ne].
Qed.

Lemma write_all_ok ts p dl now fails l : strlen p ≤ MTU → link_ok l → open_ok l →
  let l' := (write_all ts p dl now fails l).2 in link_ok l' ∧ open_ok l'.
Proof.
  intros Hp. revert l. induction ts as [|c ts IH]; intros l Hl Ho; [done|]. cbn [write_all]. destruct (conns l !! c) as [x|] eqn:Hc; [|by apply IH].
  pose proof (written_on_conn (λ x, (write p dl now (fails c) x).2) c x l Hc) as E. pose proof (mild_write p dl now (fails c) Hp) as Hm.
  cbn beta in E. destruct (write p dl now (fails c) x) as [ok y]. cbn [snd] in E. rewrite E.
  specialize (IH (on_conn (λ x, (write p dl now (fails c) x).2) c l)). destruct (write_all _ _ _ _ _ _) as [oks l']. apply IH; [by apply on_conn_ok|by apply on_conn_open].
Qed.

Lemma Send_ok to p dl now fails l : link_ok l → open_ok l → let l' := (Send to p dl now fails l).2 in link_ok l' ∧ open_ok l'.
Proof.
  intros Hl Ho. unfold Send. destruct (Z.ltb_spec MTU (strlen p)); [done|]. destruct (lk_closed l); [done|].
  destruct (targets to l) as [|t ts] eqn:E; [done|]. pose proof (write_all_ok (t :: ts) p dl now fails l ltac:(done) Hl Ho) as H'. by destruct (write_all _ _ _ _ _ _).
Qed.

Lemma closing_lookup cs (m : gmap nat conn) c x : foldr (alter closed_conn) m cs !! c = Some x →
  ∃ y, m !! c = Some y ∧ (x = y ∧ c ∉ cs ∨ cn_Open x = false ∧ (∀ l, conns l = m → link_ok l → conn_ok (lk_authorize l) x ∧ kept x = kept y) ∧ cn_Peer x = cn_Peer y).
Proof.
  revert x. induction cs as [|d cs IH]; intros x Hx; cbn [foldr] in Hx; [exists x; split; [done|left; split; [done|apply not_elem_of_nil]]|].
  destruct (decide (c = d)) as [->|Hne].
  - rewrite lookup_alter_eq in Hx. destruct (foldr _ m cs !! d) as [z|] eqn:Hz; [|done]. injection Hx as <-. destruct (IH z eq_refl) as (y & Hy & Hor). exists y. split; [done|]. right.
    destruct Hor as [[-> _]|(_ & Hok & Hpe)]; (split_and!; [done| |done]).
    + intros l <- (H1 & _). split; [|done]. by apply (mild_closed y), H1 with d.
    + intros l El Hl. destruct (Hok l El Hl) as [Hz' Hk]. split; [by apply (mild_closed z)|done].
  - rewrite lookup_alter_ne in Hx by done. destruct (IH x Hx) as (y & Hy & [[-> Hn]|Hr]); exists y; (split; [done|]); [left|by right]. split; [done|]. by apply not_elem_of_cons.
Qed.

Lemma closing_some cs (m : gmap nat conn) c y : m !! c = Some y → ∃ x, foldr (alter closed_conn) m cs !! c = Some x ∧ cn_Peer x = cn_Peer y.
Proof.
  intros Hy. induction cs as [|d cs (x & Hx & Hp)]; [by exists y|]. cbn [foldr]. destruct (decide (c = d)) as [->|Hne]; [|rewrite lookup_alter_ne by done; by exists x].
  rewrite lookup_alter_eq, Hx. by eexists.
Qed.

Lemma Close_ok l : link_ok l → open_ok l → link_ok (Close l) ∧ open_ok (Close l).
Proof.
  intros Hl Ho. unfold Close. destruct (lk_closed l) eqn:Hcl; [done|]. pose proof Hl as (H1 & H2 & H3 & H4 & H5). split; [split_and!|]; cbn.
  - intros c x (y & Hy & [[-> Hn]|(_ & Hok & _)])%closing_lookup; [by apply H1|]. destruct (Hok l eq_refl Hl) as [Hx Hk]. split; [done|]. rewrite Hk. by apply H1.
  - intros id c. by rewrite lookup_empty.
  - intros e He. destruct (H3 e He) as (y & Hy & ->). destruct (closing_some (snd <$> map_to_list (peers l)) _ _ _ Hy) as (x & Hx & Hp). exists x. by rewrite Hp.
  - done.
  - done.
  - intros c x (y & Hy & [[-> Hn]|(Hop & _)])%closing_lookup Hx; [|cbn in *; congruence]. exfalso. apply Hn. destruct (Ho c y Hy Hx) as [_ Hp].
    apply list_elem_of_fmap. exists (cn_Peer y, c). split; [done|]. by apply elem_of_map_to_list.
Qed.

Lemma ip_step_ok l l' : ip_step l l' → link_ok l ∧ open_ok l → link_ok l' ∧ open_ok l'.
Proof.
  intros Hs [Hl Ho]. destruct Hs as [c raw l Hc|expect c raw l Hc|c s eof l|now c l|l|to p dl now fails l|l].
  - by apply serve_ok.
  - by apply dialled_ok.
  - split; [by apply on_conn_ok, Hl; apply mild_arrived|by apply on_conn_open, Ho; apply mild_arrived].
  - by apply read_ok.
  - unfold Recv. destruct (inbox l) as [|dg rest] eqn:E; [done|]. cbn [snd]. split; [|done]. destruct Hl as (H1 & H2 & H3 & (gone & H4) & H5). rewrite E in *.
    split_and!; try done; [exists (gone ++ [dg]); cbn; by rewrite H4, <- app_assoc|cbn in *; lia].
  - by apply Send_ok.
  - by apply Close_ok.
Qed.

Lemma write_all_authorize ts p dl now fails l : lk_authorize (write_all ts p dl now fails l).2 = lk_authorize l.
Proof.
  revert l. induction ts as [|c ts IH]; intros l; cbn [write_all]; [done|]. destruct (conns l !! c) as [x|]; [|apply IH].
  destruct (write _ _ _ _ _) as [ok y]. specialize (IH (with_conns (<[c := y]> (conns l)) l)). by destruct (write_all _ _ _ _ _ _).
Qed.

Lemma ip_run_ok authorize size l : rtc ip_step (New authorize size) l → link_ok l ∧ open_ok l ∧ lk_authorize l = authorize.
Proof.
  intros Hs. assert (H0 : link_ok (New authorize size) ∧ open_ok (New authorize size)).
  { split; [|by intros c x]. split_and!; try done; [|by exists []|cbn; lia]. intros e He. by apply not_elem_of_nil in He. }
  assert (Ha : lk_authorize (New authorize size) = authorize) by done. revert H0 Ha. induction Hs as [|l1 l2 l3 H12 _ IH]; intros H0 Ha; [by destruct H0|].
  apply IH; [by eapply ip_step_ok|]. rewrite <- Ha. clear -H12. destruct H12 as [c raw l Hc|expect c raw l Hc|c s eof l|now c l|l|to p dl now fails l|l]; try done.
  all: try (unfold serve, dialled, register, Recv, Close, close_conn; repeat case_match; done).
  - unfold read_round, drop_conn. repeat case_match; done.
  - unfold Send. repeat case_match; try done. all: match goal with H : write_all ?ts _ _ _ _ ?l = (_, ?l') |- _ => apply (f_equal snd) in H; cbn [snd] in H; subst l'; apply write_all_authorize end.
Qed.
End invariant.

(** ** What the link promises *)

Section promises.
Context `{HB : Blake3, HC : Certificates}.

Lemma kept_sublist x : kept x `sublist_of` (cn_Read x).*1.
Proof. unfold kept. apply fmap_sublist, sublist_filter. Qed.
Lemma kept_all x : Forall (λ e : bytes * bool, e.2 = true) (cn_Read x) → kept x = (cn_Read x).*1.
Proof. intros H. unfold kept. f_equal. induction H as [|e r He _ IH]; [done|]. rewrite filter_cons, decide_True by done. by rewrite IH. Qed.

End promises.
