(* ===== verification/Board.v ===== *)
(** * The tables of a board (internal/store: users.go, forum.go, files.go,
      filerequests.go, doorevents.go)

    The rows of one board's database beside the record log, the database that holds
    them all, and the user table with its capabilities. A column declared COLLATE
    NOCASE is compared by [nocase]; an AUTOINCREMENT key comes from a counter that only
    goes up. The keys of SSH users are not modelled. *)

From stdpp Require Import strings.
From S2P Require Import Prelude Binary Identity Order Text GoStrings Float64.
From S2P Require Import Records RecordLog.
From S2P Require GossipStore DoorEvent.

#[export] Existing Instance GossipStore.AreaKind_eq_dec.

(** ** What the operations report *)

Inductive board_error :=
| NotFound
| NickLength (n : Z) | NickFirst | NickCharacter (r : Z) | ErrNickReserved (nick : bytes) | ErrNickTaken (nick : bytes)
| UnknownCapability (c : bytes) | CapabilityTwice
| AreaNameLength (n : Z) | AreaNameCharacter (r : Z) | AreaNameReserved (name : bytes) | ErrAreaExists (name : bytes)
| ErrWrongAreaKind (name : bytes) (k : GossipStore.AreaKind)
| ShareOutOfRange (s : float64) | ErrShareOverBudget (s total : float64) | ShareNotStored
| ErrDoorEventQueueFull (n : Z) | EventNotStored
| NoEventsToPublish | NoLongerFederated (name : bytes)
| ReadOnlyArea (name : bytes) | NotPermitted (name : bytes) | EmptyPost
| AuthorTooLong (n : Z) | SubjectTooLong (n : Z)
| NotBuilt (e : codec_error) | NotLogged (e : store_error)
| FileNameLength (n : Z) | NotAFileName (name : bytes) | FileNameSlash | FileNameControl
| NoContentHash | NegativeSize (n : Z) | ErrFileExists (name : bytes) | NoSuchRecord (i : ID)
| NoRequester | ErrFileAlreadyHeld | NameTakenByOther (name : bytes) | ErrFileRequestQueueFull (n : Z) | ErrFileRequestExists (name : bytes)
| BadDescription (e : Bodies.record_error).

(** ** Rows *)

Record User := mkUser {
  u_ID : Z; u_Nick : bytes; u_DisplayName : bytes; u_PasswordHash : bytes;
  u_DirectoryListed : bool; u_IsSysop : bool; u_CanLogin : bool; u_State : bytes;
  u_CreatedAt : Z; u_LastLoginAt : Z
}.

Record AreaInfo := mkArea {
  ar_ID : Z; ar_Name : bytes; ar_Tag : AreaTag; ar_Kind : GossipStore.AreaKind; ar_Description : bytes;
  ar_Federated : bool; ar_ReadOnly : bool; ar_RetentionDays : Z; ar_AirtimeShare : float64; ar_CreatedAt : Z
}.

(** An event waiting to be batched. Without a target there is no target node. *)
Record Queued := mkQueued {
  q_ID : Z; q_Door : bytes; q_Area : bytes; q_Game : bytes; q_Event : DoorEvent.DoorEvent; q_QueuedAt : Z
}.

(** A row of [files]; the size is the blob's. *)
Record FileRow := mkFileRow {
  f_ID : Z; f_AreaID : Z; f_Name : bytes; f_Hash : arr 32; f_Description : bytes;
  f_Uploader : bytes; f_UploadedAt : Z; f_Record : ID
}.

(** What the note of a request says: nothing, that filing failed and why, or that a
    different file has the name. *)
Inductive note := NoNote | NotFiled (area : bytes) (e : board_error) | NameTaken (area name : bytes).

Record Request := mkRequest {
  r_ID : Z; r_AreaID : Z; r_Name : bytes; r_Hash : arr 16; r_Holder : NodeID; r_Nick : bytes;
  r_RequestedAt : Z; r_ArrivedAt : Z; r_NotifiedAt : Z; r_Note : note
}.

(** A row of the audit log. *)
Inductive detail := Text (t : bytes) | Share (s : float64).
Record AuditRow := mkAudit { au_TS : Z; au_Actor : bytes; au_Action : bytes; au_Target : bytes; au_Detail : detail }.

Record Board := mkBoard {
  log : Db;
  users : list User; last_user : Z; capabilities : gset (Z * bytes);
  areas : list AreaInfo; last_area : Z;
  post_authors : gmap ID (bytes * bytes);
  queue : list Queued; last_queued : Z;
  files : list FileRow; last_file : Z; blobs : gmap (arr 32) Z;
  requests : list Request; last_request : Z;
  audit : list AuditRow
}.

Definition new_board : Board := mkBoard empty_db [] 0 ∅ [] 0 ∅ [] 0 [] 0 ∅ [] 0 [].

Definition with_log (x : Db) (b : Board) : Board :=
  mkBoard x (users b) (last_user b) (capabilities b) (areas b) (last_area b) (post_authors b) (queue b) (last_queued b)
    (files b) (last_file b) (blobs b) (requests b) (last_request b) (audit b).
Definition with_users (x : list User) (n : Z) (c : gset (Z * bytes)) (b : Board) : Board :=
  mkBoard (log b) x n c (areas b) (last_area b) (post_authors b) (queue b) (last_queued b)
    (files b) (last_file b) (blobs b) (requests b) (last_request b) (audit b).
Definition with_areas (x : list AreaInfo) (n : Z) (b : Board) : Board :=
  mkBoard (log b) (users b) (last_user b) (capabilities b) x n (post_authors b) (queue b) (last_queued b)
    (files b) (last_file b) (blobs b) (requests b) (last_request b) (audit b).
Definition with_post_authors (x : gmap ID (bytes * bytes)) (b : Board) : Board :=
  mkBoard (log b) (users b) (last_user b) (capabilities b) (areas b) (last_area b) x (queue b) (last_queued b)
    (files b) (last_file b) (blobs b) (requests b) (last_request b) (audit b).
Definition with_queue (x : list Queued) (n : Z) (b : Board) : Board :=
  mkBoard (log b) (users b) (last_user b) (capabilities b) (areas b) (last_area b) (post_authors b) x n
    (files b) (last_file b) (blobs b) (requests b) (last_request b) (audit b).
Definition with_files (x : list FileRow) (n : Z) (bl : gmap (arr 32) Z) (b : Board) : Board :=
  mkBoard (log b) (users b) (last_user b) (capabilities b) (areas b) (last_area b) (post_authors b) (queue b) (last_queued b)
    x n bl (requests b) (last_request b) (audit b).
Definition with_requests (x : list Request) (n : Z) (b : Board) : Board :=
  mkBoard (log b) (users b) (last_user b) (capabilities b) (areas b) (last_area b) (post_authors b) (queue b) (last_queued b)
    (files b) (last_file b) (blobs b) x n (audit b).

Definition Audit (now : Z) (actor action target : bytes) (d : detail) (b : Board) : Board :=
  mkBoard (log b) (users b) (last_user b) (capabilities b) (areas b) (last_area b) (post_authors b) (queue b) (last_queued b)
    (files b) (last_file b) (blobs b) (requests b) (last_request b) (audit b ++ [mkAudit now actor action target d]).

(** ** Users (users.go) *)

Definition CapPostFederated : bytes := str "post_federated"%string.
Definition CapSendDMOffnode : bytes := str "send_dm_offnode"%string.
Definition CapUploadFiles : bytes := str "upload_files"%string.
Definition CapRunDoors : bytes := str "run_doors"%string.
Definition DefaultCapabilities : list bytes := [CapRunDoors; CapUploadFiles].
Definition KnownCapabilities : list bytes := [CapPostFederated; CapSendDMOffnode; CapUploadFiles; CapRunDoors].
Definition ReservedNicks : list bytes :=
  [str "new"%string; str "guest"%string; str "sysop"%string; str "admin"%string; str "root"%string; str "bbs"%string;
   str "all"%string; str "postmaster"%string; str "daemon"%string].

Definition nick_char (b : byte) : bool :=
  is_lower (b2z b) || is_upper (b2z b) || is_digit (b2z b) || (b2z b =? 0x5f) || (b2z b =? 0x2d).

Definition ValidateNick (nick : bytes) : result board_error unit :=
  _ ← require ((2 <=? strlen nick) && (strlen nick <=? 16)) (NickLength (strlen nick));
  _ ← require (match nick with c :: _ => is_lower (b2z c) || is_upper (b2z c) | [] => false end) NickFirst;
  _ ← match List.find (λ x : Z * Z * bool, negb ((x.1.2 <? 0x80) && nick_char (z2b x.1.2))) (runes nick) with
      | Some x => Err (NickCharacter x.1.2)
      | None => Ok tt
      end;
  require (negb (bool_decide (nocase nick ∈ ReservedNicks))) (ErrNickReserved nick).

Definition isKnownCapability (c : bytes) : bool := bool_decide (c ∈ KnownCapabilities).

Record CreateUserOptions := mkUserOptions {
  o_Nick : bytes; o_DisplayName : bytes; o_PasswordHash : bytes; o_IsSysop : bool; o_CanLogin : bool; o_Capabilities : option (list bytes)
}.

Definition is_nick (nick : bytes) (u : User) : bool := bool_decide (nocase (u_Nick u) = nocase nick).
Definition GetUser (nick : bytes) (b : Board) : result board_error User :=
  match List.find (is_nick nick) (users b) with Some u => Ok u | None => Err NotFound end.

(** Listing a capability twice violates the key of the table, and nothing is created. *)
Definition CreateUser (now : Z) (opts : CreateUserOptions) (b : Board) : result board_error User * Board :=
  match ValidateNick (o_Nick opts) with
  | Err e => (Err e, b)
  | Ok _ =>
      let caps := default DefaultCapabilities (o_Capabilities opts) in
      match List.find (λ c, negb (isKnownCapability c)) caps with
      | Some c => (Err (UnknownCapability c), b)
      | None =>
          if existsb (is_nick (o_Nick opts)) (users b) then (Err (ErrNickTaken (o_Nick opts)), b)
          else if negb (bool_decide (NoDup caps)) then (Err CapabilityTwice, b)
          else
            let id := last_user b + 1 in
            let u := mkUser id (o_Nick opts) (o_DisplayName opts) (o_PasswordHash opts) true (o_IsSysop opts) (o_CanLogin opts) (str "active"%string) now 0 in
            (Ok u, with_users (users b ++ [u]) id (capabilities b ∪ list_to_set ((λ c, (id, c)) <$> caps)) b)
      end
  end.

Definition ListUsers (b : Board) : list User := sort_by (λ u, nocase (u_Nick u)) less_text (users b).

Definition GrantCapability (now : Z) (nick capability grantedBy : bytes) (b : Board) : result board_error unit * Board :=
  if negb (isKnownCapability capability) then (Err (UnknownCapability capability), b)
  else match GetUser nick b with
  | Err e => (Err e, b)
  | Ok u =>
      let b := with_users (users b) (last_user b) ({[(u_ID u, capability)]} ∪ capabilities b) b in
      (Ok tt, Audit now grantedBy (str "capability.grant"%string) nick (Text capability) b)
  end.

Definition RevokeCapability (now : Z) (nick capability actor : bytes) (b : Board) : result board_error unit * Board :=
  match GetUser nick b with
  | Err e => (Err e, b)
  | Ok u =>
      let b := with_users (users b) (last_user b) (capabilities b ∖ {[(u_ID u, capability)]}) b in
      (Ok tt, Audit now actor (str "capability.revoke"%string) nick (Text capability) b)
  end.

Definition Capabilities (nick : bytes) (b : Board) : result board_error (list bytes) :=
  u ← GetUser nick b;
  Ok (sort_by (λ c, c) less_text (snd <$> filter (λ x, x.1 = u_ID u) (elements (capabilities b)))).

Definition HasCapability (nick capability : bytes) (b : Board) : result board_error bool :=
  caps ← Capabilities nick b;
  Ok (existsb (λ c, bool_decide (c = capability)) caps).

(** ** Accounts by nick and by number *)

(** [GetUser]. *)
Definition account (nick : bytes) (b : Board) : option User := List.find (is_nick nick) (users b).
Definition account_by_id (i : Z) (b : Board) : option User := List.find (λ u, u_ID u =? i) (users b).

Definition accounts_ok (b : Board) : Prop := NoDup (u_ID <$> users b) ∧ NoDup (nocase ∘ u_Nick <$> users b).

(** What happens to a board elsewhere keeps the accounts, their numbers and nicks. *)
Definition keeps (b b' : Board) : Prop :=
  accounts_ok b' ∧ ∀ u, u ∈ users b → ∃ u', u' ∈ users b' ∧ u_ID u' = u_ID u ∧ u_Nick u' = u_Nick u.

Lemma account_Some nick b u : accounts_ok b → account nick b = Some u ↔ u ∈ users b ∧ nocase (u_Nick u) = nocase nick.
Proof.
  intros [_ Hn]. unfold account, is_nick. split.
  - intros [Hu%list_elem_of_In H%bool_decide_eq_true]%List.find_some. done.
  - intros [Hu H]. destruct (List.find _ (users b)) as [x|] eqn:E.
    + apply List.find_some in E as [Hx%list_elem_of_In Hxn%bool_decide_eq_true]. f_equal.
      apply (NoDup_key_inj (nocase ∘ u_Nick) less_text (users b)); [done..|]. cbn. congruence.
    + pose proof (List.find_none _ _ E u (proj1 (list_elem_of_In _ _) Hu)) as Hf. cbn in Hf. by rewrite bool_decide_true in Hf.
Qed.

Lemma account_self b u : accounts_ok b → u ∈ users b → account (u_Nick u) b = Some u.
Proof. intros Hok Hu. by apply account_Some. Qed.

Lemma account_by_id_Some i b u : account_by_id i b = Some u → u ∈ users b ∧ u_ID u = i.
Proof. intros [Hu%list_elem_of_In H%Z.eqb_eq]%List.find_some. done. Qed.

Lemma same_id b u u' : accounts_ok b → u ∈ users b → u' ∈ users b → u_ID u = u_ID u' → u = u'.
Proof. intros [Hi _]. by apply (NoDup_key_inj u_ID Z.ltb). Qed.
Lemma same_nick b u u' : accounts_ok b → u ∈ users b → u' ∈ users b → u_Nick u = u_Nick u' → u = u'.
Proof. intros [_ Hn] H1 H2 E. apply (NoDup_key_inj (nocase ∘ u_Nick) less_text (users b)); [done..|]. cbn. by rewrite E. Qed.

Lemma account_stored nick b u : account nick b = Some u → u ∈ users b.
Proof. by intros [Hu%list_elem_of_In _]%List.find_some. Qed.
Lemma GetUser_account nick b u : GetUser nick b = Ok u ↔ account nick b = Some u.
Proof. unfold GetUser, account. destruct (List.find _ _); cbn; naive_solver. Qed.
Lemma GetUser_Err nick b e : GetUser nick b = Err e → account nick b = None.
Proof. unfold GetUser, account. by destruct (List.find _ _). Qed.
