(* ===== verification/Areas.v ===== *)
(** * Areas and posts (internal/store/forum.go)

    The areas of a board: forums, file areas and door leagues, which share one name
    space because their tags do; the shares of the airtime they may spend; and the
    body of a post. What SQLite's SUM makes of floating-point numbers is a parameter. *)

From stdpp Require Import strings relations.
From S2P Require Import Prelude Binary Identity Order Text GoStrings Float64.
From S2P Require Import Records RecordLog.
From S2P Require Bodies GossipStore.
From S2P Require Import Board.

Abbreviation AreaKind := GossipStore.AreaKind.

Class SqlSum := sql_sum : list float64 → float64.

Definition f1 : float64 := of_int 1.

Section areas.
Context `{HB : Blake3, HS : SqlSum}.

Definition reserved_tags : list AreaTag := [GossipStore.RosterArea; ProfileArea; DMArea].

Definition ValidateAreaName (name : bytes) : result board_error unit :=
  _ ← require ((1 <=? strlen name) && (strlen name <=? 32)) (AreaNameLength (strlen name));
  _ ← match bad_name_rune name with Some r => Err (AreaNameCharacter r) | None => Ok tt end;
  require (negb (bool_decide (AreaTagFor name ∈ reserved_tags))) (AreaNameReserved name).

Definition createArea (now : Z) (name description : bytes) (federated : bool) (kind : AreaKind) (b : Board) : result board_error AreaInfo * Board :=
  let name := TrimSpace name in
  match ValidateAreaName name with
  | Err e => (Err e, b)
  | Ok _ =>
      let tag := AreaTagFor name in
      if existsb (λ a, bool_decide (nocase (ar_Name a) = nocase name) || bool_decide (ar_Tag a = tag)) (areas b)
      then (Err (ErrAreaExists name), b)
      else
        let a := mkArea (last_area b + 1) name tag kind description federated false 0 f0 now in
        (Ok a, with_areas (areas b ++ [a]) (last_area b + 1) b)
  end.

Definition CreateArea now name description federated := createArea now name description federated GossipStore.KindMessage.
Definition CreateFileArea now name description federated := createArea now name description federated GossipStore.KindFile.
Definition CreateDoorArea now name description federated := createArea now name description federated GossipStore.KindDoor.

Definition named (name : bytes) (a : AreaInfo) : bool := bool_decide (nocase (ar_Name a) = nocase name).
Definition GetAnyArea (name : bytes) (b : Board) : result board_error AreaInfo :=
  match List.find (named (TrimSpace name)) (areas b) with Some a => Ok a | None => Err NotFound end.

Definition get_kind (k : AreaKind) (name : bytes) (b : Board) : result board_error AreaInfo :=
  a ← GetAnyArea name b;
  _ ← require (bool_decide (ar_Kind a = k)) (ErrWrongAreaKind (ar_Name a) (ar_Kind a));
  Ok a.
Definition GetArea := get_kind GossipStore.KindMessage.
Definition GetFileArea := get_kind GossipStore.KindFile.
Definition GetDoorArea := get_kind GossipStore.KindDoor.

Definition listAreas (k : AreaKind) (b : Board) : list AreaInfo :=
  sort_by (λ a, nocase (ar_Name a)) less_text (filter (λ a, ar_Kind a = k) (areas b)).

(** ** Shares of the airtime *)

Definition totalAirtimeShare (exceptID : Z) (b : Board) : float64 :=
  match ar_AirtimeShare <$> filter (λ a, ar_Federated a = true ∧ ar_ID a ≠ exceptID) (areas b) with
  | [] => f0
  | l => sql_sum l
  end.

Definition update_area (p : AreaInfo → bool) (f : AreaInfo → AreaInfo) (b : Board) : Board :=
  with_areas ((λ a, if p a then f a else a) <$> areas b) (last_area b) b.

Definition set_share (s : float64) (a : AreaInfo) : AreaInfo :=
  mkArea (ar_ID a) (ar_Name a) (ar_Tag a) (ar_Kind a) (ar_Description a) (ar_Federated a) (ar_ReadOnly a) (ar_RetentionDays a) s (ar_CreatedAt a).
Definition set_federated (f : bool) (a : AreaInfo) : AreaInfo :=
  mkArea (ar_ID a) (ar_Name a) (ar_Tag a) (ar_Kind a) (ar_Description a) f (ar_ReadOnly a) (ar_RetentionDays a) (ar_AirtimeShare a) (ar_CreatedAt a).

(** Not a number compares false both ways and reaches the database, which stores it as
    NULL and refuses it. *)
Definition SetAreaShare (now : Z) (name : bytes) (share : float64) (actor : bytes) (b : Board) : result board_error unit * Board :=
  if flt share f0 || flt f1 share then (Err (ShareOutOfRange share), b)
  else match GetAnyArea name b with
  | Err e => (Err e, b)
  | Ok a =>
      let total := totalAirtimeShare (ar_ID a) b in
      if flt f0 share && ar_Federated a && flt f1 (fadd total share) then (Err (ErrShareOverBudget share total), b)
      else if negb (feq share share) then (Err ShareNotStored, b)
      else
        let b := update_area (λ x, ar_ID x =? ar_ID a) (set_share share) b in
        (Ok tt, Audit now actor (str "area.share"%string) name (Share share) b)
  end.

Definition AreaShares (b : Board) : gmap AreaTag float64 :=
  list_to_map ((λ a, (ar_Tag a, ar_AirtimeShare a)) <$> filter (λ a, ar_Federated a = true ∧ flt f0 (ar_AirtimeShare a) = true) (areas b)).

(** The name is not trimmed here. *)
Definition SetAreaFederated (now : Z) (name : bytes) (federated : bool) (actor : bytes) (b : Board) : result board_error unit * Board :=
  if existsb (named name) (areas b) then
    let b := update_area (named name) (set_federated federated) b in
    (Ok tt, Audit now actor (str "area.federate"%string) name (Text (if federated then str "federated"%string else str "local-only"%string)) b)
  else (Err NotFound, b).

(** The rows the adapter of the sync engine reads. *)
Definition area_rows (b : Board) : list GossipStore.AreaRow :=
  (λ a, GossipStore.mkArea (ar_Tag a) (ar_Kind a) (ar_Federated a)) <$> areas b.
End areas.

(** ** Posts *)

Record PostBody := mkPostBody { pb_Author : bytes; pb_Subject : bytes; pb_Text : bytes }.

Definition MarshalPostBody (p : PostBody) : result board_error bytes :=
  _ ← require (strlen (pb_Author p) <=? 16) (AuthorTooLong (strlen (pb_Author p)));
  _ ← require (strlen (pb_Subject p) <=? 72) (SubjectTooLong (strlen (pb_Subject p)));
  Ok (Bodies.byte_of_len (pb_Author p) :: pb_Author p ++ Bodies.byte_of_len (pb_Subject p) :: pb_Subject p ++ pb_Text p).

Definition UnmarshalPostBody (b : bytes) : option PostBody :=
  match b with
  | n :: rest =>
      let n := Z.to_nat (b2z n) in
      if (length rest <? n + 1)%nat then None
      else match drop n rest with
      | m :: rest' =>
          let m := Z.to_nat (b2z m) in
          if (length rest' <? m)%nat then None
          else Some (mkPostBody (take n rest) (take m rest') (drop m rest'))
      | [] => None
      end
  | [] => None
  end.

Record Post := mkPost {
  p_ID : ID; p_Area : bytes; p_Author : bytes; p_Subject : bytes; p_Body : bytes; p_TS : Z; p_Parent : ID; p_Local : bool
}.

Section posts.
Context `{HB : Blake3, HE : Ed25519}.

Definition IndexPost (i : ID) (author subject : bytes) (b : Board) : Board :=
  match post_authors b !! i with
  | Some _ => b
  | None => with_post_authors (<[i := (author, subject)]> (post_authors b)) b
  end.

(** One row of the join: what the index lacks is taken from the body. *)
Definition post_of (b : Board) (area : bytes) (w : Row) : Post :=
  let indexed := default ([], []) (post_authors b !! row_id w) in
  let body := UnmarshalPostBody (Body (columns w)) in
  let pick (mine : bytes) (theirs : PostBody → bytes) :=
    if bool_decide (mine = []) then from_option theirs [] body else mine in
  mkPost (row_id w) area (pick indexed.1 pb_Author) (pick indexed.2 pb_Subject) (from_option pb_Text [] body)
    (TS (columns w)) (Parent (columns w))
    (match SelfNode (log b) with Ok self => bool_decide (Origin (columns w) = n_ID self) | Err _ => false end).

Definition posts_in (tag : AreaTag) (b : Board) : list Row :=
  filter (λ w, Area (columns w) = tag ∧ Type_ (columns w) = TypePost) (rows (log b)).

Definition less_ts_seq : Z * Z → Z * Z → bool := less_pair Z.ltb Z.ltb.

Definition ListPosts (areaName : bytes) (limit : Z) (b : Board) : result board_error (list Post) :=
  area ← GetArea areaName b;
  let limit := if limit <=? 0 then 100 else limit in
  Ok (post_of b (ar_Name area) <$>
      take (Z.to_nat limit) (sort_by (λ w, (TS (columns w), Seq (columns w))) less_ts_seq (posts_in (ar_Tag area) b))).

Definition CountPosts (areaName : bytes) (b : Board) : result board_error Z :=
  area ← GetArea areaName b;
  Ok (Z.of_nat (length (posts_in (ar_Tag area) b))).
End posts.

(** ** What the table keeps *)

Section facts.
Context `{HB : Blake3, HS : SqlSum}.

Inductive area_step : Board → Board → Prop :=
| step_create now name d fed k b : area_step b (createArea now name d fed k b).2
| step_share now name s actor b : area_step b (SetAreaShare now name s actor b).2
| step_federate now name fed actor b : area_step b (SetAreaFederated now name fed actor b).2.

Definition area_good (a : AreaInfo) : Prop := ValidateAreaName (ar_Name a) = Ok tt ∧ ar_Tag a = AreaTagFor (ar_Name a).

Definition areas_ok (b : Board) : Prop :=
  Forall area_good (areas b) ∧ NoDup (nocase ∘ ar_Name <$> areas b) ∧ NoDup (ar_Tag <$> areas b) ∧
  NoDup (ar_ID <$> areas b) ∧ Forall (λ a, ar_ID a ≤ last_area b) (areas b).

(** An update that touches none of what the invariant is about. *)
Lemma update_area_ok p f b :
  (∀ a, ar_ID (f a) = ar_ID a ∧ ar_Name (f a) = ar_Name a ∧ ar_Tag (f a) = ar_Tag a) → areas_ok b → areas_ok (update_area p f b).
Proof.
  intros Hf (Hg & Hn & Ht & Hi & Hl). unfold areas_ok, update_area. cbn [areas last_area with_areas].
  assert (Hmap : ∀ {B} (g : AreaInfo → B), (∀ a, g (f a) = g a) → g <$> ((λ a, if p a then f a else a) <$> areas b) = g <$> areas b).
  { intros B g Hgf. rewrite <- list_fmap_compose. apply list_fmap_ext. intros i a _. cbn. destruct (p a); [apply Hgf|done]. }
  rewrite !Hmap by (intros a; destruct (Hf a) as (H1 & H2 & H3); unfold compose; congruence). split_and!; [|done..|].
  - apply Forall_fmap. eapply Forall_impl; [exact Hg|]. intros a [Hv Hta]. cbn. destruct (p a); [|done]. destruct (Hf a) as (_ & E1 & E2). unfold area_good. by rewrite E1, E2.
  - apply Forall_fmap. eapply Forall_impl; [exact Hl|]. intros a Ha. cbn. destruct (p a); [|done]. destruct (Hf a) as (-> & _). done.
Qed.

Lemma createArea_spec now name d fed k b :
  match createArea now name d fed k b with
  | (Ok a, b') => b' = with_areas (areas b ++ [a]) (ar_ID a) b ∧ ar_ID a = last_area b + 1 ∧ area_good a ∧ ar_Name a = TrimSpace name ∧
      ar_Federated a = fed ∧ ar_Kind a = k ∧
      (∀ x, x ∈ areas b → nocase (ar_Name x) ≠ nocase (ar_Name a) ∧ ar_Tag x ≠ ar_Tag a)
  | (Err _, b') => b' = b
  end.
Proof.
  unfold createArea. destruct (ValidateAreaName (TrimSpace name)) as [[]|e] eqn:Hv; [|done].
  destruct (existsb _ (areas b)) eqn:He; [done|]. split_and!; try done. intros x Hx. apply not_true_iff_false in He.
  split; intros E; apply He, existsb_exists; exists x; (split; [by apply list_elem_of_In|]); rewrite orb_true_iff, !bool_decide_eq_true; [by left|by right].
Qed.

Lemma area_step_ok b b' : area_step b b' → areas_ok b → areas_ok b'.
Proof.
  intros Hs Hok. destruct Hs as [now name d fed k b|now name s actor b|now name fed actor b].
  - pose proof (createArea_spec now name d fed k b) as H. destruct (createArea now name d fed k b) as [[a|e] b']; cbn [snd]; [|by subst].
    destruct H as (-> & Hid & Hg & _ & _ & _ & Hfresh). destruct Hok as (Hall & Hn & Ht & Hi & Hl).
    unfold areas_ok. cbn [areas last_area with_areas]. rewrite !fmap_app. split_and!.
    + apply Forall_app. by split; [|constructor].
    + apply NoDup_snoc; [done|]. intros (x & E & Hx)%list_elem_of_fmap. by destruct (Hfresh x Hx) as [Hne _].
    + apply NoDup_snoc; [done|]. intros (x & E & Hx)%list_elem_of_fmap. by destruct (Hfresh x Hx) as [_ Hne].
    + apply NoDup_snoc; [done|]. intros (x & E & Hx)%list_elem_of_fmap. rewrite Forall_forall in Hl. specialize (Hl x Hx). lia.
    + apply Forall_app. split; [eapply Forall_impl; [exact Hl|]; cbn; lia|]. by constructor.
  - unfold SetAreaShare. destruct (_ || _); [done|]. destruct (GetAnyArea name b) as [a|]; [|done]. destruct (_ && _ && _); [done|].
    destruct (negb _); [done|]. cbn [snd]. by apply (update_area_ok (λ x, ar_ID x =? ar_ID a) (set_share s) b).
  - unfold SetAreaFederated. destruct (existsb _ (areas b)); [|done]. cbn [snd]. by apply (update_area_ok (named name) (set_federated fed) b).
Qed.

Lemma areas_reachable b : rtc area_step new_board b → areas_ok b.
Proof.
  intros Hs. assert (H : areas_ok new_board) by (split_and!; try constructor; by apply NoDup_nil_2).
  revert Hs H. generalize new_board. intros b0 Hs. induction Hs; eauto using area_step_ok.
Qed.

(** A name finds the one area it names. *)
Lemma GetAnyArea_iff name a b : areas_ok b → GetAnyArea name b = Ok a ↔ a ∈ areas b ∧ nocase (ar_Name a) = nocase (TrimSpace name).
Proof.
  intros (_ & Hn & _). unfold GetAnyArea. split.
  - destruct (List.find _ (areas b)) as [x|] eqn:Hf; [|done]. intros [= ->]. apply List.find_some in Hf as [Ha%list_elem_of_In Hna%bool_decide_eq_true]. done.
  - intros [Ha Hna]. destruct (List.find _ (areas b)) as [x|] eqn:Hf.
    + apply List.find_some in Hf as [Hx%list_elem_of_In Hnx%bool_decide_eq_true]. f_equal.
      apply list_elem_of_lookup in Ha as [i Hi], Hx as [j Hj]. assert (i = j) as ->; [|congruence].
      eapply NoDup_lookup; [exact Hn| |]; rewrite list_lookup_fmap; [rewrite Hi|rewrite Hj]; cbn; [done|by rewrite Hnx, Hna].
    + exfalso. pose proof (List.find_none _ _ Hf a (proj1 (list_elem_of_In _ _) Ha)) as H. unfold named in H. by rewrite bool_decide_true in H.
Qed.

Lemma ValidateAreaName_tag name : ValidateAreaName name = Ok tt → AreaTagFor name ∉ reserved_tags.
Proof. unfold ValidateAreaName. intros [_ [_ H%require_Ok]%bind_unit_Ok]%bind_unit_Ok. by apply negb_true_iff, bool_decide_eq_false in H. Qed.

(** C13: the table of areas stays fit for federation. After any run of creating areas,
    capping them and federating them or not, names differ even without regard to case,
    tags differ and are the hashes of their names, and none is the roster's, the
    directory's or private mail's; a name, typed with any capitals and space around it,
    finds exactly the area it names. So what the sync engine is told to replicate lists
    no area twice and never private mail: it is the roster and the federated areas, and
    it takes for door leagues exactly the federated leagues. *)
Theorem areas_sound b db :
  rtc area_step new_board b → DMArea ≠ GossipStore.RosterArea →
  Forall area_good (areas b) ∧ NoDup (nocase ∘ ar_Name <$> areas b) ∧ NoDup (ar_Tag <$> areas b) ∧
  (∀ a, a ∈ areas b → ar_Tag a ∉ reserved_tags) ∧
  (∀ name a, GetAnyArea name b = Ok a ↔ a ∈ areas b ∧ nocase (ar_Name a) = nocase (TrimSpace name)) ∧
  let g := GossipStore.NewGossipStore (area_rows b) db in
  NoDup (GossipStore.Areas g) ∧ DMArea ∉ GossipStore.Areas g ∧
  (∀ tag, tag ∈ GossipStore.Areas g ↔ tag = GossipStore.RosterArea ∨ ∃ a, a ∈ areas b ∧ ar_Tag a = tag ∧ ar_Federated a = true) ∧
  (∀ tag, GossipStore.IsDoorArea g tag = true ↔ ∃ a, a ∈ areas b ∧ ar_Tag a = tag ∧ ar_Federated a = true ∧ ar_Kind a = GossipStore.KindDoor).
Proof.
  intros Hr Hroster. pose proof (areas_reachable b Hr) as Hok. pose proof Hok as (Hg & Hn & Ht & Hi & Hl).
  assert (Hres : ∀ a, a ∈ areas b → ar_Tag a ∉ reserved_tags).
  { intros a Ha. rewrite Forall_forall in Hg. destruct (Hg a Ha) as [Hv ->]. by apply ValidateAreaName_tag. }
  split_and!; [done|done|done|done|by intros; apply GetAnyArea_iff|]. cbv zeta.
  set (fed := filter (λ a : GossipStore.AreaRow, GossipStore.a_Federated a = true ∧ GossipStore.a_Tag a ≠ DMArea) (sort_by GossipStore.a_Tag less_arr (area_rows b))).
  assert (Hfed : ∀ r, r ∈ fed ↔ ∃ a, a ∈ areas b ∧ ar_Federated a = true ∧ r = GossipStore.mkArea (ar_Tag a) (ar_Kind a) (ar_Federated a)).
  { intros r. unfold fed. rewrite list_elem_of_filter, sort_by_elem. unfold area_rows. rewrite list_elem_of_fmap. split.
    - intros [[Hf _] (a & -> & Ha)]. by exists a.
    - intros (a & Ha & Hf & ->). split; [|by exists a]. split; [done|]. cbn. intros E. apply (Hres a Ha). rewrite E. unfold reserved_tags. set_solver. }
  assert (Hareas : ∀ tag, tag ∈ GossipStore.Areas (GossipStore.NewGossipStore (area_rows b) db) ↔
    tag = GossipStore.RosterArea ∨ ∃ a, a ∈ areas b ∧ ar_Tag a = tag ∧ ar_Federated a = true).
  { intros tag. unfold GossipStore.Areas, GossipStore.NewGossipStore, GossipStore.Refresh. cbn [GossipStore.areas]. fold fed.
    rewrite elem_of_cons, list_elem_of_fmap. setoid_rewrite Hfed. naive_solver. }
  split_and!.
  - unfold GossipStore.Areas, GossipStore.NewGossipStore, GossipStore.Refresh. cbn [GossipStore.areas]. fold fed. apply NoDup_cons. split.
    + intros (r & E & (a & Ha & _ & ->)%Hfed)%list_elem_of_fmap. apply (Hres a Ha). cbn in E. rewrite <- E. unfold reserved_tags. set_solver.
    + unfold fed. eapply sublist_NoDup; [|apply fmap_sublist, sublist_filter].
      rewrite (sort_by_Permutation GossipStore.a_Tag less_arr (area_rows b)). unfold area_rows. rewrite <- list_fmap_compose. exact Ht.
  - intros [E|(a & Ha & E & _)]%Hareas; [|apply (Hres a Ha); rewrite E; unfold reserved_tags; set_solver].
    by apply Hroster.
  - exact Hareas.
  - intros tag. unfold GossipStore.IsDoorArea, GossipStore.NewGossipStore, GossipStore.Refresh. cbn [GossipStore.doorAreas]. fold fed.
    rewrite bool_decide_eq_true, elem_of_list_to_set, list_elem_of_fmap. setoid_rewrite list_elem_of_filter. setoid_rewrite Hfed. naive_solver.
Qed.
End facts.

(** ** The body of a post *)

Definition post_wire (p : PostBody) : bytes :=
  Bodies.byte_of_len (pb_Author p) :: pb_Author p ++ Bodies.byte_of_len (pb_Subject p) :: pb_Subject p ++ pb_Text p.

Lemma byte_of_len_nat s : (length s < 256)%nat → Z.to_nat (b2z (Bodies.byte_of_len s)) = length s.
Proof. intros H. unfold Bodies.byte_of_len. rewrite b2z_z2b, Z.mod_small by lia. lia. Qed.

Lemma Unmarshal_post_wire p : strlen (pb_Author p) ≤ 255 → strlen (pb_Subject p) ≤ 255 → UnmarshalPostBody (post_wire p) = Some p.
Proof.
  unfold strlen. intros Ha Hs. unfold UnmarshalPostBody, post_wire. rewrite byte_of_len_nat by lia.
  destruct (Nat.ltb_spec (length (pb_Author p ++ Bodies.byte_of_len (pb_Subject p) :: pb_Subject p ++ pb_Text p)) (length (pb_Author p) + 1)) as [H|_].
  { rewrite length_app in H. cbn in H. lia. }
  rewrite drop_app_length, take_app_length, byte_of_len_nat by lia.
  destruct (Nat.ltb_spec (length (pb_Subject p ++ pb_Text p)) (length (pb_Subject p))) as [H|_]; [rewrite length_app in H; lia|].
  rewrite take_app_length, drop_app_length. by destruct p.
Qed.

Lemma MarshalPostBody_Ok p b :
  MarshalPostBody p = Ok b ↔ strlen (pb_Author p) ≤ 16 ∧ strlen (pb_Subject p) ≤ 72 ∧ b = post_wire p.
Proof.
  unfold MarshalPostBody. rewrite !bind_unit_Ok, !require_Ok, !Z.leb_le. unfold post_wire. naive_solver.
Qed.

(** What a post body is read as, it is the encoding of. *)
Lemma UnmarshalPostBody_sound b p : UnmarshalPostBody b = Some p → b = post_wire p ∧ strlen (pb_Author p) ≤ 255 ∧ strlen (pb_Subject p) ≤ 255.
Proof.
  unfold UnmarshalPostBody. destruct b as [|n rest]; [done|]. destruct (Nat.ltb_spec (length rest) (Z.to_nat (b2z n) + 1)) as [|Hn]; [done|].
  destruct (drop (Z.to_nat (b2z n)) rest) as [|m rest'] eqn:Hd; [done|]. destruct (Nat.ltb_spec (length rest') (Z.to_nat (b2z m))) as [|Hm]; [done|].
  intros [= <-]. pose proof (b2z_range n). pose proof (b2z_range m). unfold post_wire, Bodies.byte_of_len, strlen. cbn [pb_Author pb_Subject pb_Text].
  rewrite !length_take, !Nat.min_l, !Z2Nat.id by lia. rewrite !z2b_b2z. split_and!; [|lia|lia].
  f_equal. rewrite take_drop, <- Hd. by rewrite take_drop.
Qed.
