(* ===== verification/Files.v ===== *)
(** * The files of a board (internal/store/files.go)

    The file table with the blobs it names, and the listing that joins it with the FILE
    records of the log. Rows refer to areas and blobs by key; a query is the list
    function it denotes. A file's record is the zero ID where the column is NULL. The
    aliases, which the holders of a listing are labelled with, are an argument. *)

From stdpp Require Import strings relations.
From S2P Require Import Prelude Binary Identity Order Text GoStrings.
From S2P Require Import Records RecordLog.
From S2P Require Bodies FileBody GossipStore NodeNames.
From S2P Require Import Board Areas.

Record File := mkFile {
  fl_ID : Z; fl_Area : bytes; fl_Name : bytes; fl_Hash : arr 32; fl_Size : Z; fl_Description : bytes;
  fl_Uploader : bytes; fl_UploadedAt : Z; fl_Record : ID
}.

Definition Published (f : File) : bool := negb (ID_IsZero (fl_Record f)).

(** [strings.EqualFold] where both strings are ASCII. *)
Definition EqualFold_ascii (s t : bytes) : option bool :=
  if forallb (λ c, b2z c <? 0x80) (s ++ t) then Some (bool_decide (nocase s = nocase t)) else None.

Definition MayDescribe (f : File) (nick : bytes) (sysop : bool) : option bool :=
  if sysop then Some true
  else if bool_decide (fl_Uploader f = []) || bool_decide (nick = []) then Some false
  else EqualFold_ascii (fl_Uploader f) nick.

Definition is_slash (r : Z) : bool := (r =? 0x2f) || (r =? 0x5c).
Definition is_c0 (r : Z) : bool := (r <? 0x20) || (r =? 0x7f).

Definition ValidateFileName (name : bytes) : result board_error unit :=
  _ ← require ((1 <=? strlen name) && (strlen name <=? FileBody.MaxFileNameLen)) (FileNameLength (strlen name));
  _ ← require (negb (FileBody.is_dot_name name)) (NotAFileName name);
  match List.find (λ x : Z * Z * bool, is_slash x.1.2 || is_c0 x.1.2) (runes name) with
  | None => Ok tt
  | Some x => Err (if is_slash x.1.2 then FileNameSlash else FileNameControl)
  end.

(** The row a name in an area has. *)
Definition is_file (area : Z) (name : bytes) (f : FileRow) : bool := (f_AreaID f =? area) && bool_decide (f_Name f = name).

(** [fileColumns] and [scanFile]: the row joined with its area and its blob. *)
Definition area_named (i : Z) (b : Board) : option bytes := ar_Name <$> List.find (λ a, ar_ID a =? i) (areas b).
Definition scanFile (b : Board) (f : FileRow) : option File :=
  name ← area_named (f_AreaID f) b;
  size ← blobs b !! f_Hash f;
  Some (mkFile (f_ID f) name (f_Name f) (f_Hash f) size (f_Description f) (f_Uploader f) (f_UploadedAt f) (f_Record f)).

Section files.
Context `{HB : Blake3}.

(** The blob's row and the file's row, in one transaction. *)
Definition put_row (now : Z) (area : AreaInfo) (f : File) (b : Board) : Board :=
  with_files (files b ++ [mkFileRow (last_file b + 1) (ar_ID area) (fl_Name f) (fl_Hash f) (fl_Description f) (fl_Uploader f)
                            (or_now now (fl_UploadedAt f)) (fl_Record f)]) (last_file b + 1)
    (match blobs b !! fl_Hash f with Some _ => blobs b | None => <[fl_Hash f := fl_Size f]> (blobs b) end) b.

Definition trim_name (f : File) : File :=
  mkFile (fl_ID f) (fl_Area f) (TrimSpace (fl_Name f)) (fl_Hash f) (fl_Size f) (fl_Description f) (fl_Uploader f) (fl_UploadedAt f) (fl_Record f).

Definition check_file (f : File) : result board_error unit :=
  _ ← ValidateFileName (fl_Name f);
  _ ← require (negb (bool_decide (fl_Hash f = zero_arr 32))) NoContentHash;
  require (0 <=? fl_Size f) (NegativeSize (fl_Size f)).

(** A record named must be in the log: the column is a foreign key. *)
Definition PutFile (now : Z) (areaName : bytes) (f : File) (b : Board) : result board_error File * Board :=
  match GetFileArea areaName b with
  | Err e => (Err e, b)
  | Ok area =>
      let f := trim_name f in
      match check_file f with
      | Err e => (Err e, b)
      | Ok _ =>
          if existsb (is_file (ar_ID area) (fl_Name f)) (files b) then (Err (ErrFileExists (fl_Name f)), b)
          else if Published f && negb (HasRecord (fl_Record f) (log b)) then (Err (NoSuchRecord (fl_Record f)), b)
          else
            (Ok (mkFile (last_file b + 1) (ar_Name area) (fl_Name f) (fl_Hash f) (fl_Size f) (fl_Description f) (fl_Uploader f)
                   (or_now now (fl_UploadedAt f)) (fl_Record f)),
             put_row now area f b)
      end
  end.

Definition files_in (area : AreaInfo) (b : Board) : list FileRow := filter (λ f, f_AreaID f = ar_ID area) (files b).

Definition ListFiles (areaName : bytes) (b : Board) : result board_error (list File) :=
  area ← GetFileArea areaName b;
  Ok (omap (scanFile b) (sort_by (λ f, (f_UploadedAt f, f_Name f)) (less_pair Z.ltb less_text) (files_in area b))).

Definition GetFile (areaName name : bytes) (b : Board) : result board_error File :=
  area ← GetFileArea areaName b;
  match List.find (is_file (ar_ID area) (TrimSpace name)) (files b) ≫= scanFile b with
  | Some f => Ok f
  | None => Err NotFound
  end.

Definition update_file (i : Z) (g : FileRow → FileRow) (b : Board) : Board :=
  with_files ((λ f, if f_ID f =? i then g f else f) <$> files b) (last_file b) (blobs b) b.

Definition move_row (area : Z) (name : bytes) (f : FileRow) : FileRow :=
  mkFileRow (f_ID f) area name (f_Hash f) (f_Description f) (f_Uploader f) (f_UploadedAt f) zero_record_id.
Definition describe_row (text : bytes) (f : FileRow) : FileRow :=
  mkFileRow (f_ID f) (f_AreaID f) (f_Name f) (f_Hash f) text (f_Uploader f) (f_UploadedAt f) zero_record_id.
Definition record_row (i : ID) (f : FileRow) : FileRow :=
  mkFileRow (f_ID f) (f_AreaID f) (f_Name f) (f_Hash f) (f_Description f) (f_Uploader f) (f_UploadedAt f) i.

Definition RenameFile (fromArea fromName toArea toName : bytes) (b : Board) : result board_error unit * Board :=
  match src ← GetFile fromArea fromName b; dst ← GetFileArea toArea b; Ok (src, dst) with
  | Err e => (Err e, b)
  | Ok (src, dst) =>
      let toName := TrimSpace toName in
      match ValidateFileName toName with
      | Err e => (Err e, b)
      | Ok _ =>
          if existsb (λ f, is_file (ar_ID dst) toName f && negb (f_ID f =? fl_ID src)) (files b) then (Err (ErrFileExists toName), b)
          else (Ok tt, update_file (fl_ID src) (move_row (ar_ID dst) toName) b)
      end
  end.

(** [substr(hash, 1, ?) = ?]. *)
Definition HoldsBlob (wireHash : bytes) (b : Board) : bool :=
  if bool_decide (wireHash = []) then false
  else existsb (λ h : arr 32, bool_decide (take (length wireHash) (vec_to_list h) = wireHash)) (map_to_list (blobs b)).*1.

(** No row, no key to violate. *)
Definition SetFileRecord (fileID : Z) (i : ID) (b : Board) : option board_error * Board :=
  if existsb (λ f, f_ID f =? fileID) (files b) && negb (HasRecord i (log b)) then (Some (NoSuchRecord i), b)
  else (None, update_file fileID (record_row i) b).

Definition cleared : bytes := str "(cleared)"%string.
Definition slash : byte := Byte.x2f.

Definition SetFileDescription (now : Z) (areaName name description actor : bytes) (b : Board) : result board_error unit * Board :=
  match GetFile areaName name b with
  | Err e => (Err e, b)
  | Ok f =>
      let description := TrimSpace description in
      match FileBody.ValidateFileDescription description with
      | Err e => (Err (BadDescription e), b)
      | Ok _ =>
          let b := update_file (fl_ID f) (describe_row description) b in
          (Ok tt, Audit now actor (str "file.describe"%string) (areaName ++ slash :: fl_Name f)
                    (Text (if bool_decide (description = []) then cleared else description)) b)
      end
  end.

Definition RemoveFile (areaName name : bytes) (b : Board) : result board_error (bool * arr 32) * Board :=
  match GetFile areaName name b with
  | Err e => (Err e, b)
  | Ok f =>
      let rest := filter (λ x, f_ID x ≠ fl_ID f) (files b) in
      let orphaned := negb (existsb (λ x, bool_decide (f_Hash x = fl_Hash f)) rest) in
      (Ok (orphaned, fl_Hash f),
       with_files rest (last_file b) (if orphaned then delete (fl_Hash f) (blobs b) else blobs b) b)
  end.

Definition CountFiles (areaName : bytes) (b : Board) : result board_error Z :=
  area ← GetFileArea areaName b;
  Ok (Z.of_nat (length (files_in area b))).

(** ** The catalog *)

Record CatalogEntry := mkEntry {
  ce_Name : bytes; ce_Size : Z; ce_Description : bytes; ce_Hash : arr 16; ce_Origin : NodeID;
  ce_Local : bool; ce_Held : bool; ce_Holder : bytes; ce_HolderContact : bytes; ce_Uploader : bytes; ce_TS : Z
}.

Definition entry_of (b : Board) (w : Row) : option CatalogEntry :=
  match FileBody.UnmarshalFileBody (Body (columns w)) with
  | Err _ => None
  | Ok fb =>
      let local := match SelfNode (log b) with Ok self => bool_decide (Origin (columns w) = n_ID self) | Err _ => false end in
      Some (mkEntry (FileBody.Name fb) (i64 (FileBody.Size fb)) (FileBody.Description fb) (FileBody.Hash fb) (Origin (columns w))
              local (HoldsBlob (vec_to_list (FileBody.Hash fb)) b) [] [] [] (TS (columns w)))
  end.

Definition announcements (tag : AreaTag) (b : Board) : list Row :=
  filter (λ w, Area (columns w) = tag ∧ Type_ (columns w) = TypeFile) (rows (log b)).

Definition ListCatalog (areaName : bytes) (b : Board) : result board_error (list CatalogEntry) :=
  area ← GetFileArea areaName b;
  Ok (omap (entry_of b) (sort_by (λ w, (TS (columns w), Seq (columns w))) less_ts_seq (announcements (ar_Tag area) b))).

Definition MayDescribeEntry (e : CatalogEntry) (nick : bytes) (sysop : bool) : option bool :=
  if negb (ce_Local e) then Some false
  else MayDescribe (mkFile 0 [] [] (zero_arr 32) 0 [] (ce_Uploader e) 0 zero_record_id) nick sysop.

(** The loop over the announced entries: which index a name and content have. *)
Definition announce_at (es : list CatalogEntry) (m : gmap (bytes * arr 16) nat) (x : nat * CatalogEntry) : gmap (bytes * arr 16) nat :=
  let '(i, e) := x in
  let k := (ce_Name e, ce_Hash e) in
  match m !! k ≫= (es !!.) with
  | Some e' => if ce_Local e' && negb (ce_Local e) then m else <[k := i]> m
  | None => <[k := i]> m
  end.
Definition announced (es : list CatalogEntry) : gmap (bytes * arr 16) nat := foldl (announce_at es) ∅ (imap pair es).

Definition set_uploader (u : bytes) (e : CatalogEntry) : CatalogEntry :=
  mkEntry (ce_Name e) (ce_Size e) (ce_Description e) (ce_Hash e) (ce_Origin e) (ce_Local e) (ce_Held e) (ce_Holder e) (ce_HolderContact e) u (ce_TS e).

Definition local_entry (f : File) (trunc : arr 16) : CatalogEntry :=
  mkEntry (fl_Name f) (fl_Size f) (fl_Description f) trunc zero_id true true [] [] (fl_Uploader f) (fl_UploadedAt f).

(** The loop over the local files. *)
Definition merge_local (m : gmap (bytes * arr 16) nat) (es : list CatalogEntry) (f : File) : list CatalogEntry :=
  match FileBody.TruncateFileHash (vec_to_list (fl_Hash f)) with
  | Ok t => match m !! (fl_Name f, t) with
            | Some i => alter (set_uploader (fl_Uploader f)) i es
            | None => es ++ [local_entry f t]
            end
  | Err _ => es ++ [local_entry f (zero_arr 16)]
  end.

Definition label (aliases : list NodeNames.Alias) (b : Board) (e : CatalogEntry) : CatalogEntry :=
  if ce_Local e || IsZero (ce_Origin e) then e
  else
    let n := nodes (log b) !! ce_Origin e in
    let holder :=
      match List.find (λ a, bool_decide (NodeNames.al_NodeID a = ce_Origin e)) (NodeNames.ListAliases aliases) with
      | Some a => NodeNames.al_Alias a
      | None => from_option n_DisplayName [] n
      end in
    mkEntry (ce_Name e) (ce_Size e) (ce_Description e) (ce_Hash e) (ce_Origin e) (ce_Local e) (ce_Held e) holder
      (from_option n_SysopContact [] n) (ce_Uploader e) (ce_TS e).

Definition labelHolders (aliases : list NodeNames.Alias) (b : Board) (es : list CatalogEntry) : list CatalogEntry := label aliases b <$> es.

Definition less_ts_name : Z * bytes → Z * bytes → bool := less_pair Z.ltb less_text.

Definition ListAreaContents (aliases : list NodeNames.Alias) (areaName : bytes) (b : Board) : result board_error (list CatalogEntry) :=
  entries ← ListCatalog areaName b;
  local ← ListFiles areaName b;
  let merged := foldl (merge_local (announced entries)) entries local in
  Ok (sort_by (λ e, (ce_TS e, ce_Name e)) less_ts_name (labelHolders aliases b merged)).
End files.
