(* ===== verification/FilesFacts.v ===== *)
(** * The catalog as a map (internal/store/files.go)

    What the file table keeps under every operation of the board's store, and the
    abstract catalog it implements: a finite map from an area and a name to a row, with
    the blobs held being exactly those some row names. *)

From stdpp Require Import strings relations.
From S2P Require Import Prelude Binary Identity Order Text GoStrings.
From S2P Require Import Records RecordLog.
From S2P Require FileBody GossipStore.
From S2P Require Import Board Areas Files.

Section facts.
Context `{HB : Blake3, HE : Ed25519, HD : SqlDriver, HS : SqlSum}.

Definition file_key (f : FileRow) : Z * bytes := (f_AreaID f, f_Name f).

Definition file_good (b : Board) (f : FileRow) : Prop :=
  ValidateFileName (f_Name f) = Ok tt ∧ TrimSpace (f_Name f) = f_Name f ∧ f_Hash f ≠ zero_arr 32 ∧
  (∃ a, a ∈ areas b ∧ ar_ID a = f_AreaID f ∧ ar_Kind a = GossipStore.KindFile) ∧
  (Published (mkFile 0 [] [] (zero_arr 32) 0 [] [] 0 (f_Record f)) = true → HasRecord (f_Record f) (log b) = true).

(** The blobs held are those the rows name. *)
Definition blobs_exact (b : Board) : Prop := ∀ h, is_Some (blobs b !! h) ↔ ∃ f, f ∈ files b ∧ f_Hash f = h.

Definition files_ok (b : Board) : Prop :=
  Forall (file_good b) (files b) ∧ NoDup (file_key <$> files b) ∧ NoDup (f_ID <$> files b) ∧
  Forall (λ f, f_ID f ≤ last_file b) (files b) ∧ blobs_exact b ∧ map_Forall (λ _ s, 0 ≤ s) (blobs b).

(** Areas do not go away and keep their number, name and kind. *)
Lemma area_step_keeps b b' : area_step b b' →
  log b' = log b ∧ files b' = files b ∧ last_file b' = last_file b ∧ blobs b' = blobs b ∧ requests b' = requests b ∧ last_request b' = last_request b ∧
  ∀ a, a ∈ areas b → ∃ a', a' ∈ areas b' ∧ ar_ID a' = ar_ID a ∧ ar_Kind a' = ar_Kind a ∧ ar_Name a' = ar_Name a.
Proof.
  assert (Hup : ∀ p f c, (∀ a, ar_ID (f a) = ar_ID a ∧ ar_Kind (f a) = ar_Kind a ∧ ar_Name (f a) = ar_Name a) →
    ∀ a, a ∈ areas c → ∃ a', a' ∈ areas (update_area p f c) ∧ ar_ID a' = ar_ID a ∧ ar_Kind a' = ar_Kind a ∧ ar_Name a' = ar_Name a).
  { intros p f c Hf a Ha. exists (if p a then f a else a). split; [|destruct (p a); [apply Hf|done]].
    cbn. apply list_elem_of_fmap. by exists a. }
  intros Hs. destruct Hs as [now name d fed k b|now name s actor b|now name fed actor b].
  - pose proof (createArea_spec now name d fed k b) as H. destruct (createArea now name d fed k b) as [[a|e] b']; cbn [snd]; [|subst; naive_solver].
    destruct H as (-> & _). split_and!; try done. intros x Hx. exists x. split; [cbn; set_solver|done].
  - unfold SetAreaShare. destruct (_ || _); [naive_solver|]. destruct (GetAnyArea name b) as [a|]; [|naive_solver]. destruct (_ && _ && _); [naive_solver|].
    destruct (negb _); [naive_solver|]. cbn [snd]. split_and!; try done. by apply (Hup (λ x, ar_ID x =? ar_ID a) (set_share s) b).
  - unfold SetAreaFederated. destruct (existsb _ (areas b)); [|naive_solver]. cbn [snd]. split_and!; try done. by apply (Hup (named name) (set_federated fed) b).
Qed.

(** What the steps of the store do to the file table. *)
Inductive file_step : Board → Board → Prop :=
| step_area b b' : area_step b b' → file_step b b'
| step_log b l : RecordLog.step (log b) l → file_step b (with_log l b)
| step_requests x n b : file_step b (with_requests x n b)
| step_putfile now area f b : file_step b (PutFile now area f b).2
| step_rename a n a' n' b : file_step b (RenameFile a n a' n' b).2
| step_describe now a n d actor b : file_step b (SetFileDescription now a n d actor b).2
| step_setrecord i r b : file_step b (SetFileRecord i r b).2
| step_remove a n b : file_step b (RemoveFile a n b).2.

(** ** Lookups *)

Definition catalog (b : Board) : gmap (Z * bytes) FileRow := list_to_map ((λ f, (file_key f, f)) <$> files b).

Lemma catalog_Some b k f : files_ok b → catalog b !! k = Some f ↔ f ∈ files b ∧ file_key f = k.
Proof.
  intros (_ & Hn & _). unfold catalog. rewrite <- elem_of_list_to_map.
  - rewrite list_elem_of_fmap. naive_solver.
  - rewrite <- list_fmap_compose. exact Hn.
Qed.

Lemma is_file_true a n f : is_file a n f = true ↔ file_key f = (a, n).
Proof. unfold is_file, file_key. rewrite andb_true_iff, Z.eqb_eq, bool_decide_eq_true. split; [by intros [-> ->]|by intros [= -> ->]]. Qed.

Lemma find_file b a n : files_ok b → List.find (is_file a n) (files b) = catalog b !! (a, n).
Proof.
  intros Hok. destruct (List.find _ (files b)) as [f|] eqn:E; symmetry.
  - apply List.find_some in E as [Hf%list_elem_of_In Hk%is_file_true]. by apply catalog_Some.
  - destruct (catalog b !! (a, n)) as [f|] eqn:Hc; [|done]. apply catalog_Some in Hc as [Hf Hk]; [|done]. exfalso.
    pose proof (List.find_none _ _ E f (proj1 (list_elem_of_In _ _) Hf)) as H. by rewrite (proj2 (is_file_true a n f) Hk) in H.
Qed.

Lemma exists_file b a n : files_ok b → existsb (is_file a n) (files b) = true ↔ is_Some (catalog b !! (a, n)).
Proof.
  intros Hok. rewrite existsb_exists. setoid_rewrite <- list_elem_of_In. setoid_rewrite is_file_true.
  split; [intros (f & H); exists f; by apply catalog_Some|intros [f H%catalog_Some]; [by exists f|done]].
Qed.

Lemma find_by_key {A} (key : A → Z) l a i : NoDup (key <$> l) → a ∈ l → key a = i → List.find (λ x, key x =? i) l = Some a.
Proof.
  intros Hn Ha <-. destruct (List.find _ l) as [x|] eqn:E.
  - apply List.find_some in E as [Hx%list_elem_of_In Hk%Z.eqb_eq]. f_equal. by apply (NoDup_key_inj key Z.ltb l).
  - pose proof (List.find_none _ _ E a (proj1 (list_elem_of_In _ _) Ha)) as H. cbn in H. by rewrite Z.eqb_refl in H.
Qed.

Lemma area_named_Some b a i : areas_ok b → a ∈ areas b → ar_ID a = i → area_named i b = Some (ar_Name a).
Proof. intros (_ & _ & _ & Hi & _) Ha <-. unfold area_named. by rewrite (find_by_key ar_ID (areas b) a) by done. Qed.

Lemma GetFileArea_Ok name b a : areas_ok b → GetFileArea name b = Ok a → a ∈ areas b ∧ ar_Kind a = GossipStore.KindFile ∧ nocase (ar_Name a) = nocase (TrimSpace name).
Proof.
  intros Hok. unfold GetFileArea, get_kind. intros (x & Hx & H)%bind_Ok.
  apply bind_unit_Ok in H as [Hk%require_Ok [= <-]]. apply bool_decide_eq_true in Hk. apply GetAnyArea_iff in Hx as [? ?]; [|done]. done.
Qed.

(** The row, as its area's listing shows it. *)
Definition file_of (b : Board) (a : AreaInfo) (f : FileRow) : File :=
  mkFile (f_ID f) (ar_Name a) (f_Name f) (f_Hash f) (default 0 (blobs b !! f_Hash f)) (f_Description f) (f_Uploader f) (f_UploadedAt f) (f_Record f).

Lemma scanFile_Some b a f : areas_ok b → files_ok b → a ∈ areas b → f ∈ files b → f_AreaID f = ar_ID a → scanFile b f = Some (file_of b a f).
Proof.
  intros Ha (_ & _ & _ & _ & Hb & _) Hin Hf E. unfold scanFile. rewrite (area_named_Some b a) by done. cbn.
  destruct (proj2 (Hb (f_Hash f)) (ex_intro _ f (conj Hf eq_refl))) as [s Hs]. unfold file_of. by rewrite Hs.
Qed.

(** Looking a file up is looking its key up in the catalog. *)
Lemma GetFile_catalog area name b : areas_ok b → files_ok b →
  GetFile area name b = (a ← GetFileArea area b; match catalog b !! (ar_ID a, TrimSpace name) with Some f => Ok (file_of b a f) | None => Err NotFound end).
Proof.
  intros Ha Hf. unfold GetFile. destruct (GetFileArea area b) as [a|e] eqn:E; [|done]. cbn. rewrite find_file by done.
  apply GetFileArea_Ok in E as (Hin & _); [|done]. destruct (catalog b !! _) as [f|] eqn:Hc; [|done]. cbn.
  apply catalog_Some in Hc as [Hfin [= Hk _]]; [|done]. by rewrite (scanFile_Some b a) by done.
Qed.

Lemma GetFile_Ok area name b fl : areas_ok b → files_ok b → GetFile area name b = Ok fl →
  ∃ a f, GetFileArea area b = Ok a ∧ catalog b !! (ar_ID a, TrimSpace name) = Some f ∧ fl = file_of b a f.
Proof.
  intros Ha Hf. rewrite GetFile_catalog by done. intros (a & E & H)%bind_Ok. destruct (catalog b !! _) as [f|] eqn:Hc; [|done].
  injection H as <-. by exists a, f.
Qed.

(** ** Updates *)

Lemma update_file_elem i g b x : x ∈ files (update_file i g b) ↔ (∃ f, f ∈ files b ∧ f_ID f = i ∧ x = g f) ∨ (x ∈ files b ∧ f_ID x ≠ i).
Proof.
  unfold update_file. cbn [files with_files]. rewrite list_elem_of_fmap. split.
  - intros (f & -> & Hf). destruct (Z.eqb_spec (f_ID f) i); [left; by exists f|by right].
  - intros [(f & Hf & <- & ->)|[Hx Hi]]; [exists f|exists x]; (split; [|done]); [by rewrite Z.eqb_refl|]. by destruct (Z.eqb_spec (f_ID x) i).
Qed.

Lemma files_ID b f1 f2 : files_ok b → f1 ∈ files b → f2 ∈ files b → f_ID f1 = f_ID f2 → f1 = f2.
Proof. intros (_ & _ & Hi & _). by apply (NoDup_key_inj f_ID Z.ltb). Qed.
Lemma files_key b f1 f2 : files_ok b → f1 ∈ files b → f2 ∈ files b → file_key f1 = file_key f2 → f1 = f2.
Proof. intros (_ & Hn & _). by apply (NoDup_key_inj file_key (less_pair Z.ltb less_text)). Qed.

(** One row changed for another with its number, hash and a free key. *)
Lemma update_file_ok b f g :
  files_ok b → f ∈ files b → f_ID (g f) = f_ID f → f_Hash (g f) = f_Hash f → file_good b (g f) →
  (∀ x, x ∈ files b → file_key x = file_key (g f) → f_ID x = f_ID f) →
  files_ok (update_file (f_ID f) g b) ∧ catalog (update_file (f_ID f) g b) = <[file_key (g f) := g f]> (delete (file_key f) (catalog b)).
Proof.
  intros Hok Hf Hid Hh Hg Hfree. pose proof Hok as (Hall & Hn & Hi & Hl & Hb & Hs). set (b' := update_file _ g b).
  assert (Hone : ∀ x, x ∈ files b' ↔ x = g f ∨ (x ∈ files b ∧ f_ID x ≠ f_ID f)).
  { intros x. unfold b'. rewrite update_file_elem. split.
    - intros [(y & Hy & E & ->)|?]; [left; f_equal; by apply (files_ID b)|by right].
    - intros [->|?]; [left; by exists f|by right]. }
  assert (Hids : f_ID <$> files b' = f_ID <$> files b).
  { unfold b'. cbn. rewrite <- list_fmap_compose. apply list_fmap_ext. intros k x Hx. cbn.
    destruct (Z.eqb_spec (f_ID x) (f_ID f)) as [E|]; [|done]. apply list_elem_of_lookup_2 in Hx. by rewrite (files_ID b x f Hok Hx Hf E). }
  assert (Hok' : files_ok b').
  { assert (Hi' : NoDup (f_ID <$> files b')) by (by rewrite Hids). split_and!.
    - apply Forall_forall. intros x [->|[Hx _]]%Hone; [exact Hg|]. rewrite Forall_forall in Hall. exact (Hall x Hx).
    - apply (NoDup_fmap_by f_ID); [done|]. intros x y [->|[Hx Nx]]%Hone [->|[Hy Ny]]%Hone E; [done| | |].
      + rewrite Hid. symmetry. apply (Hfree y Hy). by symmetry.
      + rewrite Hid. by apply (Hfree x Hx).
      + by rewrite (files_key b x y Hok Hx Hy E).
    - done.
    - apply (Forall_fmap f_ID (λ i, i ≤ last_file b')). rewrite Hids. by apply Forall_fmap.
    - intros h. change (blobs b') with (blobs b). rewrite (Hb h). setoid_rewrite Hone. split.
      + intros (x & Hx & <-). destruct (decide (f_ID x = f_ID f)) as [E|]; [|by eauto]. exists (g f). split; [by left|].
        rewrite (files_ID b x f) by done. done.
      + intros (x & [->|[Hx _]] & <-); [by exists f|by exists x].
    - done. }
  split; [done|]. apply map_eq. intros k. apply option_eq. intros x. rewrite (catalog_Some b' k x Hok').
  rewrite Hone, lookup_insert_Some, lookup_delete_Some, (catalog_Some b k x Hok). split.
  - intros [[->|[Hx Nx]] <-]; [by left|]. right. split; [intros E; apply Nx; apply (Hfree x Hx); done|]. split; [|done].
    intros E. apply Nx. by rewrite (files_key b f x Hok Hf Hx E).
  - intros [[<- <-]|(Nk & Nf & Hx & <-)]; [split; [by left|done]|]. split; [|done]. right. split; [done|]. intros E. apply Nf. by rewrite (files_ID b x f Hok Hx Hf E).
Qed.

(** Areas and records only come. *)
Lemma files_ok_grows b b' :
  files b' = files b → last_file b' = last_file b → blobs b' = blobs b →
  (∀ a, a ∈ areas b → ∃ a', a' ∈ areas b' ∧ ar_ID a' = ar_ID a ∧ ar_Kind a' = ar_Kind a ∧ ar_Name a' = ar_Name a) →
  (∀ i, HasRecord i (log b) = true → HasRecord i (log b') = true) → files_ok b → files_ok b'.
Proof.
  intros Ef El Eb Ha Hr (Hall & Hn & Hi & Hl & Hb & Hs). unfold files_ok, blobs_exact. rewrite Ef, El, Eb. split_and!; try done.
  eapply Forall_impl; [exact Hall|]. intros f (H1 & H2 & H3 & (a & Hin & Hid & Hk) & H5).
  destruct (Ha a Hin) as (a' & Hin' & Hid' & Hk' & _). split_and!; [done..| |auto]. exists a'. by rewrite Hid', Hk'.
Qed.

Lemma HasRecord_grows l l' : log_ok l → RecordLog.step l l' → ∀ i, HasRecord i l = true → HasRecord i l' = true.
Proof.
  intros Hok Hs i. rewrite !HasRecord_true. intros (w & Hw & E). destruct (step_grows _ _ Hok Hs) as [new ->]. exists w. set_solver.
Qed.

(** ** The operations *)

Definition new_row (now : Z) (a : AreaInfo) (f : File) (b : Board) : FileRow :=
  mkFileRow (last_file b + 1) (ar_ID a) (fl_Name f) (fl_Hash f) (fl_Description f) (fl_Uploader f) (or_now now (fl_UploadedAt f)) (fl_Record f).

(** What can stop a file from being taken, the record named apart. *)
Definition put_ok (area : bytes) (f : File) (b : Board) (a : AreaInfo) : Prop :=
  GetFileArea area b = Ok a ∧ check_file (trim_name f) = Ok tt ∧ catalog b !! (ar_ID a, TrimSpace (fl_Name f)) = None ∧
  (Published f = true → HasRecord (fl_Record f) (log b) = true).

Lemma put_row_ok now area f b a :
  files_ok b → areas_ok b → put_ok area f b a →
  let b' := put_row now a (trim_name f) b in
  files_ok b' ∧ catalog b' = <[(ar_ID a, TrimSpace (fl_Name f)) := new_row now a (trim_name f) b]> (catalog b).
Proof.
  intros Hok Ha (Harea & Hc & Hfree & Hrec) b'. pose proof Hok as (Hall & Hn & Hi & Hl & Hb & Hs).
  destruct (GetFileArea_Ok _ _ _ Ha Harea) as (Hin & Hk & _).
  unfold check_file in Hc. apply bind_unit_Ok in Hc as [Hv [Hh%require_Ok Hz%require_Ok]%bind_unit_Ok].
  apply negb_true_iff, bool_decide_eq_false in Hh. apply Z.leb_le in Hz. cbn in Hv, Hh, Hz.
  set (row := new_row now a (trim_name f) b) in *.
  assert (Hnew : file_key row ∉ file_key <$> files b).
  { intros (x & E & Hx)%list_elem_of_fmap. assert (Hx' : catalog b !! file_key row = Some x) by (by apply catalog_Some).
    change (file_key row) with (ar_ID a, TrimSpace (fl_Name f)) in Hx'. by rewrite Hfree in Hx'. }
  assert (Hok' : files_ok b').
  { unfold b', put_row. split_and!; cbn [files last_file with_files blobs log areas].
    - apply Forall_app. split; [exact Hall|]. constructor; [|constructor]. split_and!; [exact Hv|apply TrimSpace_idem|exact Hh|by exists a|exact Hrec].
    - rewrite fmap_app. by apply NoDup_snoc.
    - rewrite fmap_app. apply NoDup_snoc; [done|]. intros (x & E & Hx)%list_elem_of_fmap. rewrite Forall_forall in Hl. specialize (Hl x Hx). cbn in E. lia.
    - apply Forall_app. split; [eapply Forall_impl; [exact Hl|]; cbn; lia|]. constructor; [cbn; lia|constructor].
    - intros h. cbn [fl_Hash trim_name with_files blobs files]. transitivity (is_Some (blobs b !! h) ∨ fl_Hash f = h).
      + destruct (blobs b !! fl_Hash f) as [s|] eqn:Es.
        * split; [by left|]. intros [?|<-]; [done|by exists s].
        * destruct (decide (fl_Hash f = h)) as [->|Hne]; [rewrite lookup_insert_eq; naive_solver|]. rewrite lookup_insert_ne by done. naive_solver.
      + rewrite (Hb h). setoid_rewrite elem_of_app. setoid_rewrite list_elem_of_singleton. split.
        * intros [(x & Hx & <-)|<-]; [exists x; auto|]. eexists. split; [by right|done].
        * intros (x & [Hx| ->] & <-); [left; by exists x|by right].
    - cbn [trim_name fl_Hash fl_Size]. destruct (blobs b !! fl_Hash f); [done|]. apply map_Forall_insert_2; done. }
  split; [done|]. apply map_eq. intros k. apply option_eq. intros x. rewrite (catalog_Some b' k x Hok'), lookup_insert_Some, (catalog_Some b k x Hok).
  change (files b') with (files b ++ [row]). rewrite elem_of_app, list_elem_of_singleton. split.
  - intros [[Hx| ->] <-]; [|by left]. right. split; [|done]. intros E. apply Hnew. change (file_key row) with (ar_ID a, TrimSpace (fl_Name f)).
    rewrite E. by apply list_elem_of_fmap_2.
  - intros [[<- <-]|(_ & Hx & <-)]; [split; [by right|done]|split; [by left|done]].
Qed.

Lemma PutFile_spec now area f b : areas_ok b → files_ok b →
  match PutFile now area f b with
  | (Ok saved, b') => ∃ a, put_ok area f b a ∧ b' = put_row now a (trim_name f) b ∧
      saved = mkFile (last_file b + 1) (ar_Name a) (TrimSpace (fl_Name f)) (fl_Hash f) (fl_Size f) (fl_Description f) (fl_Uploader f) (or_now now (fl_UploadedAt f)) (fl_Record f)
  | (Err e, b') => b' = b ∧ (¬ ∃ a, put_ok area f b a) ∧
      ((∃ n, e = ErrFileExists n) ↔ ∃ a, GetFileArea area b = Ok a ∧ check_file (trim_name f) = Ok tt ∧ is_Some (catalog b !! (ar_ID a, TrimSpace (fl_Name f))))
  end.
Proof.
  intros Ha Hf. unfold PutFile, put_ok. destruct (GetFileArea area b) as [a|e] eqn:Earea.
  2:{ split; [done|]. split; [naive_solver|]. split; [|naive_solver]. intros [n ->]. exfalso. clear -Earea. unfold GetFileArea, get_kind, GetAnyArea in Earea. destruct (List.find _ _); cbn in Earea; [destruct (bool_decide _)|]; done. }
  destruct (check_file (trim_name f)) as [[]|e] eqn:Ec.
  2:{ split; [done|]. split; [naive_solver|]. split; [|naive_solver]. intros [n ->]. exfalso. clear -Ec. unfold check_file, ValidateFileName, require in Ec. cbn in Ec.
    repeat first [discriminate|case_match|progress cbn in Ec]; simplify_eq. }
  cbn [fl_Name trim_name]. destruct (existsb _ (files b)) eqn:Ee.
  { apply exists_file in Ee; [|done]. split; [done|]. split; [|split; eauto]. intros (a' & [= <-] & _ & Hn & _). rewrite Hn in Ee. by apply is_Some_None in Ee. }
  apply not_true_iff_false in Ee. rewrite exists_file in Ee by done. change (Published (trim_name f)) with (Published f). cbn [fl_Record trim_name].
  destruct (Published f && negb (HasRecord (fl_Record f) (log b))) eqn:Er.
  { apply andb_prop in Er as [H1 H2%negb_true_iff]. split; [done|]. split; [intros (a' & _ & _ & _ & H); by rewrite H in H2|]. split; [by intros [? [=]]|]. intros (a' & [= <-] & _ & H). done. }
  exists a. split; [|done]. split_and!; [done|done|by apply eq_None_not_Some|]. intros Hp. rewrite Hp in Er. by destruct (HasRecord _ _).
Qed.

(** What operations on files leave alone. *)
Definition same_rest (b b' : Board) : Prop := areas b' = areas b ∧ last_area b' = last_area b ∧ log b' = log b.

(** The file a successful lookup names, its row and where it is. *)
Definition located (area name : bytes) (b : Board) (a : AreaInfo) (f : FileRow) : Prop :=
  GetFileArea area b = Ok a ∧ catalog b !! (ar_ID a, TrimSpace name) = Some f.

Lemma located_row area name b a f : files_ok b → located area name b a f → f ∈ files b ∧ file_key f = (ar_ID a, TrimSpace name).
Proof. intros Hok [_ H]. by apply catalog_Some. Qed.

Lemma GetFile_iff area name b fl : areas_ok b → files_ok b → GetFile area name b = Ok fl ↔ ∃ a f, located area name b a f ∧ fl = file_of b a f.
Proof.
  intros Ha Hf. split.
  - intros (a & f & ? & ? & ?)%GetFile_Ok; [|done..]. by exists a, f.
  - intros (a & f & [E1 E2] & ->). rewrite GetFile_catalog by done. rewrite E1. cbn. by rewrite E2.
Qed.

Lemma good_row b f : files_ok b → f ∈ files b → file_good b f.
Proof. intros (Hall & _) Hf. rewrite Forall_forall in Hall. by apply Hall. Qed.

Lemma unpublished b f : (Published (mkFile 0 [] [] (zero_arr 32) 0 [] [] 0 zero_record_id) = true → HasRecord f (log b) = true).
Proof. unfold Published, ID_IsZero. cbn. by rewrite bool_decide_true. Qed.

Lemma RenameFile_spec a n a' n' b : areas_ok b → files_ok b →
  match RenameFile a n a' n' b with
  | (Ok _, b') => ∃ src f dst, located a n b src f ∧ GetFileArea a' b = Ok dst ∧ ValidateFileName (TrimSpace n') = Ok tt ∧
      (catalog b !! (ar_ID dst, TrimSpace n') = None ∨ catalog b !! (ar_ID dst, TrimSpace n') = Some f) ∧
      b' = update_file (f_ID f) (move_row (ar_ID dst) (TrimSpace n')) b ∧ files_ok b' ∧
      catalog b' = <[(ar_ID dst, TrimSpace n') := move_row (ar_ID dst) (TrimSpace n') f]> (delete (ar_ID src, TrimSpace n) (catalog b))
  | (Err _, b') => b' = b ∧ ¬ ∃ src f dst, located a n b src f ∧ GetFileArea a' b = Ok dst ∧ ValidateFileName (TrimSpace n') = Ok tt ∧
      (catalog b !! (ar_ID dst, TrimSpace n') = None ∨ catalog b !! (ar_ID dst, TrimSpace n') = Some f)
  end.
Proof.
  intros Ha Hok. unfold RenameFile. destruct (GetFile a n b) as [fl|e] eqn:Eg.
  2:{ cbn. split; [done|]. intros (src & f & dst & Hl & _). assert (H : ∃ x y, located a n b x y ∧ file_of b src f = file_of b x y) by eauto.
    apply GetFile_iff in H; [congruence|done..]. }
  apply GetFile_iff in Eg as (src & f & Hl & ->); [|done..]. destruct (GetFileArea a' b) as [dst|e] eqn:Ed; cbn.
  2:{ split; [done|]. naive_solver. }
  destruct (ValidateFileName (TrimSpace n')) as [[]|e] eqn:Ev; [|split; [done|naive_solver]].
  destruct (located_row _ _ _ _ _ Hok Hl) as [Hf Hk].
  assert (Hfree : existsb (λ x, is_file (ar_ID dst) (TrimSpace n') x && negb (f_ID x =? f_ID f)) (files b) = false ↔
    catalog b !! (ar_ID dst, TrimSpace n') = None ∨ catalog b !! (ar_ID dst, TrimSpace n') = Some f).
  { rewrite <- not_true_iff_false, existsb_exists. setoid_rewrite <- list_elem_of_In. setoid_rewrite andb_true_iff. setoid_rewrite is_file_true.
    setoid_rewrite negb_true_iff. setoid_rewrite Z.eqb_neq. split.
    - intros H. destruct (catalog b !! _) as [x|] eqn:Hx; [right; f_equal|by left]. apply catalog_Some in Hx as [Hx Hkx]; [|done].
      destruct (decide (f_ID x = f_ID f)); [by apply (files_ID b)|]. exfalso. apply H. by exists x.
    - intros H (x & Hx & Hkx & Hne). assert (Hcx : catalog b !! (ar_ID dst, TrimSpace n') = Some x) by (by apply catalog_Some). naive_solver. }
  destruct (existsb _ (files b)) eqn:Ee.
  { split; [done|]. intros (src' & f' & dst' & [Hl1 Hl2] & Hd & _ & H). assert (src' = src) as -> by (destruct Hl; congruence).
    assert (f' = f) as -> by (destruct Hl; congruence). simplify_eq. apply Hfree in H. by rewrite H in Ee. }
  pose proof (proj1 Hfree eq_refl) as Hfr.
  destruct (update_file_ok b f (move_row (ar_ID dst) (TrimSpace n')) Hok Hf eq_refl eq_refl) as [H1 H2].
  - destruct (GetFileArea_Ok _ _ _ Ha Ed) as (Hin & Hkd & _).
    split_and!; cbn; [done|apply TrimSpace_idem|by apply (good_row b f)|by exists dst|apply unpublished].
  - intros x Hx E. assert (Hc : catalog b !! (ar_ID dst, TrimSpace n') = Some x) by (by apply catalog_Some). destruct Hfr; congruence.
  - rewrite Hk in H2. exists src, f, dst. do 5 (split; [done|]). done.
Qed.

(** A row changed in place keeps its key. *)
Lemma update_in_place b f g :
  files_ok b → f ∈ files b → f_ID (g f) = f_ID f → f_Hash (g f) = f_Hash f → file_key (g f) = file_key f →
  (Published (mkFile 0 [] [] (zero_arr 32) 0 [] [] 0 (f_Record (g f))) = true → HasRecord (f_Record (g f)) (log b) = true) →
  files_ok (update_file (f_ID f) g b) ∧ catalog (update_file (f_ID f) g b) = <[file_key f := g f]> (catalog b).
Proof.
  intros Hok Hf Hi Hh Hk Hr. destruct (good_row b f Hok Hf) as (G1 & G2 & G3 & G4 & G5).
  pose proof Hk as Hk'. injection Hk' as Ka Kn.
  destruct (update_file_ok b f g Hok Hf Hi Hh) as [H1 H2].
  - split_and!; [by rewrite Kn|by rewrite Kn|by rewrite Hh|by rewrite Ka|done].
  - intros x Hx E. rewrite Hk in E. by rewrite (files_key b x f).
  - split; [done|]. rewrite H2, Hk, insert_delete_eq. done.
Qed.

Lemma SetFileDescription_spec now a n d actor b : areas_ok b → files_ok b →
  match SetFileDescription now a n d actor b with
  | (Ok _, b') => ∃ src f, located a n b src f ∧ FileBody.ValidateFileDescription (TrimSpace d) = Ok tt ∧ files_ok b' ∧
      catalog b' = <[(ar_ID src, TrimSpace n) := describe_row (TrimSpace d) f]> (catalog b) ∧
      same_rest b b' ∧ blobs b' = blobs b
  | (Err _, b') => b' = b ∧ ¬ ∃ src f, located a n b src f ∧ FileBody.ValidateFileDescription (TrimSpace d) = Ok tt
  end.
Proof.
  intros Ha Hok. unfold SetFileDescription. destruct (GetFile a n b) as [fl|e] eqn:Eg.
  2:{ split; [done|]. intros (src & f & Hl & _). assert (H : ∃ x y, located a n b x y ∧ file_of b src f = file_of b x y) by eauto.
    apply GetFile_iff in H; [congruence|done..]. }
  apply GetFile_iff in Eg as (src & f & Hl & ->); [|done..]. destruct (FileBody.ValidateFileDescription (TrimSpace d)) as [[]|e] eqn:Ev; [|split; [done|naive_solver]].
  destruct (located_row _ _ _ _ _ Hok Hl) as [Hf Hk]. exists src, f.
  destruct (update_in_place b f (describe_row (TrimSpace d)) Hok Hf eq_refl eq_refl eq_refl) as [H1 H2]; [apply unpublished|].
  rewrite Hk in H2. done.
Qed.

Lemma SetFileRecord_spec i r b : files_ok b →
  match SetFileRecord i r b with
  | (None, b') => files_ok b' ∧ same_rest b b' ∧ blobs b' = blobs b ∧
      ∀ f, f ∈ files b → f_ID f = i → catalog b' = <[file_key f := record_row r f]> (catalog b)
  | (Some _, b') => b' = b ∧ HasRecord r (log b) = false
  end.
Proof.
  intros Hok. unfold SetFileRecord. destruct (existsb _ (files b)) eqn:Ee.
  - apply existsb_exists in Ee as (f & Hf%list_elem_of_In & <-%Z.eqb_eq). destruct (HasRecord r (log b)) eqn:Er; cbn; [|done].
    destruct (update_in_place b f (record_row r) Hok Hf eq_refl eq_refl eq_refl) as [H1 H2]; [done|]. split_and!; [done..|].
    intros x Hx E. by rewrite (files_ID b x f).
  - cbn. assert (Hno : ∀ f, f ∈ files b → f_ID f ≠ i).
    { intros f Hf E. apply not_true_iff_false in Ee. apply Ee, existsb_exists. exists f. split; [by apply list_elem_of_In|by apply Z.eqb_eq]. }
    assert (Hsame : update_file i (record_row r) b = b).
    { destruct b as [? ? ? ? ? ? ? ? ? fs ? ? ? ? ?]. unfold update_file, with_files. cbn in *. f_equal. rewrite <- (list_fmap_id fs) at 2. apply list_fmap_ext.
      intros k f Hk%list_elem_of_lookup_2. destruct (Z.eqb_spec (f_ID f) i); [by destruct (Hno f)|done]. }
    rewrite Hsame. split_and!; [done..|]. intros f Hf E. by destruct (Hno f).
Qed.

Lemma RemoveFile_spec a n b : areas_ok b → files_ok b →
  match RemoveFile a n b with
  | (Ok (orphaned, h), b') => ∃ src f, located a n b src f ∧ h = f_Hash f ∧ files_ok b' ∧
      catalog b' = delete (ar_ID src, TrimSpace n) (catalog b) ∧
      (orphaned = true ↔ ∀ k x, catalog b' !! k = Some x → f_Hash x ≠ h) ∧ same_rest b b'
  | (Err _, b') => b' = b ∧ ¬ ∃ src f, located a n b src f
  end.
Proof.
  intros Ha Hok. unfold RemoveFile. destruct (GetFile a n b) as [fl|e] eqn:Eg.
  2:{ split; [done|]. intros (src & f & Hl). assert (H : ∃ x y, located a n b x y ∧ file_of b src f = file_of b x y) by eauto.
    apply GetFile_iff in H; [congruence|done..]. }
  apply GetFile_iff in Eg as (src & f & Hl & ->); [|done..]. cbn [fl_ID fl_Hash file_of].
  destruct (located_row _ _ _ _ _ Hok Hl) as [Hf Hk]. exists src, f. split; [done|]. split; [done|].
  set (rest := filter (λ x, f_ID x ≠ f_ID f) (files b)). set (o := negb _). set (b' := with_files _ _ _ _).
  pose proof Hok as (Hall & Hn & Hi & Hl' & Hb & Hs).
  assert (Hrest : ∀ x, x ∈ rest ↔ x ∈ files b ∧ x ≠ f).
  { intros x. unfold rest. rewrite list_elem_of_filter. split; [intros [Hne Hx]; split; [done|by intros ->]|].
    intros [Hx Hne]. split; [|done]. intros E. apply Hne. by apply (files_ID b). }
  assert (Ho : o = true ↔ ∀ x, x ∈ rest → f_Hash x ≠ f_Hash f).
  { unfold o. rewrite negb_true_iff, <- not_true_iff_false, existsb_exists. setoid_rewrite <- list_elem_of_In. setoid_rewrite bool_decide_eq_true. naive_solver. }
  assert (Hsub : ∀ {B} (g : FileRow → B), NoDup (g <$> files b) → NoDup (g <$> rest)).
  { intros B g. intros H. eapply sublist_NoDup; [exact H|]. apply fmap_sublist, sublist_filter. }
  assert (Hok' : files_ok b').
  { split_and!; cbn [b' files last_file with_files blobs log areas].
    - apply Forall_forall. intros x [Hx _]%Hrest. exact (good_row b x Hok Hx).
    - by apply Hsub.
    - by apply Hsub.
    - apply Forall_forall. intros x [Hx _]%Hrest. rewrite Forall_forall in Hl'. by apply Hl'.
    - intros h. cbn [b' files last_file with_files blobs log areas]. setoid_rewrite Hrest. destruct o eqn:Eo.
      + pose proof (proj1 Ho eq_refl) as Hno. setoid_rewrite Hrest in Hno. rewrite lookup_delete_is_Some, (Hb h). split.
        * intros (Hne & x & Hx & <-). exists x. split_and!; [done| |done]. by intros ->.
        * intros (x & [Hx Hnx] & <-). split; [|by eauto]. intros E. apply (Hno x); done.
      + rewrite (Hb h). split; [|naive_solver]. intros (x & Hx & <-). destruct (decide (f_Hash x = f_Hash f)) as [E|E].
        * assert (Hnot : ¬ ∀ x, x ∈ rest → f_Hash x ≠ f_Hash f) by (by rewrite <- Ho). destruct (Exists_dec (λ y, f_Hash y = f_Hash f) rest) as [Hex|Hex].
          -- apply Exists_exists in Hex as (y & Hy%Hrest & Ey). exists y. by rewrite Ey.
          -- exfalso. apply Hnot. intros y Hy Ey. apply Hex, Exists_exists. by exists y.
        * exists x. split_and!; [done| |done]. by intros ->.
    - destruct o; [|done]. by apply map_Forall_delete. }
  assert (Hcat : catalog b' = delete (ar_ID src, TrimSpace n) (catalog b)).
  { rewrite <- Hk. apply map_eq. intros k. apply option_eq. intros x. rewrite (catalog_Some b' k x Hok'), lookup_delete_Some, (catalog_Some b k x Hok).
    change (files b') with rest. rewrite Hrest. split; [|intros (? & ? & <-); split; [|done]; split; [done|]; by intros ->].
    intros [[Hx Hne] <-]. split_and!; [|done|done]. intros E. apply Hne. by rewrite (files_key b f x Hok Hf Hx E). }
  do 2 (split; [done|]). split; [|done]. rewrite Ho. split.
  - intros H k x [Hx _]%catalog_Some; [|done]. by apply H.
  - intros H x Hx. apply (H (file_key x)). by apply catalog_Some.
Qed.

Lemma ListFiles_spec area b a : areas_ok b → files_ok b → GetFileArea area b = Ok a →
  ∃ l, ListFiles area b = Ok (file_of b a <$> l) ∧ StronglySorted (lt_key (λ f, (f_UploadedAt f, f_Name f)) (less_pair Z.ltb less_text)) l ∧
    (∀ f, f ∈ l ↔ ∃ n, catalog b !! (ar_ID a, n) = Some f) ∧ CountFiles area b = Ok (Z.of_nat (length l)).
Proof.
  intros Ha Hok E. destruct (GetFileArea_Ok _ _ _ Ha E) as (Hin & _).
  set (l := sort_by (λ f, (f_UploadedAt f, f_Name f)) (less_pair Z.ltb less_text) (files_in a b)). exists l.
  assert (Hel : ∀ f, f ∈ l ↔ f ∈ files b ∧ f_AreaID f = ar_ID a).
  { intros f. unfold l. rewrite sort_by_elem. unfold files_in. rewrite list_elem_of_filter. naive_solver. }
  assert (Hscan : omap (scanFile b) l = file_of b a <$> l).
  { assert (Hall : ∀ f, f ∈ l → scanFile b f = Some (file_of b a f)) by (intros f [? ?]%Hel; by apply scanFile_Some).
    clear -Hall. induction l as [|f l IH]; [done|]. cbn. rewrite Hall by constructor. f_equal. apply IH. intros x Hx. apply Hall. by constructor. }
  split_and!.
  - unfold ListFiles. rewrite E. cbn. fold l. by rewrite Hscan.
  - apply sort_by_strict. apply (NoDup_fmap_by file_key).
    + destruct Hok as (_ & Hn & _). eapply sublist_NoDup; [exact Hn|]. apply fmap_sublist, sublist_filter.
    + unfold files_in, file_key. intros x y [Ex _]%list_elem_of_filter [Ey _]%list_elem_of_filter [= _ En]. by rewrite Ex, Ey, En.
  - intros f. rewrite Hel. setoid_rewrite catalog_Some; [|done]. unfold file_key. split; [intros [? <-]; by exists (f_Name f)|intros (m & ? & [= ? _]); done].
  - unfold CountFiles. rewrite E. cbn. unfold l. by rewrite length_sort_by.
Qed.

Lemma HoldsBlob_spec w b : files_ok b →
  HoldsBlob w b = true ↔ w ≠ [] ∧ ∃ k f, catalog b !! k = Some f ∧ take (length w) (vec_to_list (f_Hash f)) = w.
Proof.
  intros Hok. pose proof Hok as (_ & _ & _ & _ & Hb & _). unfold HoldsBlob. destruct (bool_decide_reflect (w = [])) as [->|Hw]; [naive_solver|].
  rewrite existsb_exists. setoid_rewrite <- list_elem_of_In. setoid_rewrite bool_decide_eq_true. setoid_rewrite catalog_Some; [|done]. split.
  - intros (h & ([h' s] & -> & Hs%elem_of_map_to_list)%list_elem_of_fmap & Ht). cbn in *. split; [done|].
    destruct (proj1 (Hb h') (ex_intro _ s Hs)) as (f & Hf & <-). by exists (file_key f), f.
  - intros (_ & k & f & [Hf _] & Ht). exists (f_Hash f). split; [|done].
    destruct (proj2 (Hb (f_Hash f)) (ex_intro _ f (conj Hf eq_refl))) as [s Hs]. apply list_elem_of_fmap. exists (f_Hash f, s). split; [done|].
    by apply elem_of_map_to_list.
Qed.

(** ** Runs *)

Definition store_ok (b : Board) : Prop := areas_ok b ∧ log_ok (log b) ∧ files_ok b.

Lemma store_ok_same b b' : same_rest b b' → areas_ok b → log_ok (log b) → files_ok b' → store_ok b'.
Proof. intros (E1 & E2 & E3) Ha Hl Hf. unfold store_ok, areas_ok. by rewrite E1, E2, E3. Qed.

Lemma file_step_ok b b' : file_step b b' → store_ok b → store_ok b'.
Proof.
  intros Hs (Ha & Hl & Hok). destruct Hs as [b b' Hs|b l Hs|x n b|now a f b|a n a' n' b|now a n d actor b|i r b|a n b].
  - destruct (area_step_keeps _ _ Hs) as (El & Ef & Eq & Eb & _ & _ & Hin). split; [by eapply area_step_ok|]. split; [by rewrite El|].
    apply (files_ok_grows b); [done..| |done]. by rewrite El.
  - split; [exact Ha|]. split; [by eapply step_log_ok|]. apply (files_ok_grows b); [done|done|done|naive_solver| |done]. by apply HasRecord_grows.
  - done.
  - pose proof (PutFile_spec now a f b Ha Hok) as H. destruct (PutFile now a f b) as [[s|e] b']; cbn [snd]; [|by destruct H as [-> _]].
    destruct H as (area & Hput & -> & _). destruct (put_row_ok now a f b area Hok Ha Hput) as [H _]. done.
  - pose proof (RenameFile_spec a n a' n' b Ha Hok) as H. destruct (RenameFile a n a' n' b) as [[s|e] b']; cbn [snd]; [|by destruct H as [-> _]].
    destruct H as (src & f & dst & _ & _ & _ & _ & -> & H & _). done.
  - pose proof (SetFileDescription_spec now a n d actor b Ha Hok) as H. destruct (SetFileDescription now a n d actor b) as [[s|e] b']; cbn [snd]; [|by destruct H as [-> _]].
    destruct H as (src & f & _ & _ & H & _ & Hsame & _). by apply (store_ok_same b).
  - pose proof (SetFileRecord_spec i r b Hok) as H. destruct (SetFileRecord i r b) as [[e|] b']; cbn [snd]; [by destruct H as [-> _]|].
    destruct H as (H & Hsame & _). by apply (store_ok_same b).
  - pose proof (RemoveFile_spec a n b Ha Hok) as H. destruct (RemoveFile a n b) as [[[o h]|e] b']; cbn [snd]; [|by destruct H as [-> _]].
    destruct H as (src & f & _ & _ & H & _ & _ & Hsame). by apply (store_ok_same b).
Qed.

Lemma new_store_ok : store_ok new_board.
Proof.
  unfold store_ok, areas_ok, files_ok, blobs_exact. split; [split_and!; try constructor; by apply NoDup_nil_2|]. split; [apply empty_log_ok|].
  split; [constructor|]. split; [by apply NoDup_nil_2|]. split; [by apply NoDup_nil_2|]. split; [constructor|].
  split; [|apply map_Forall_empty]. intros h. cbn. rewrite lookup_empty. split; [by intros [? [=]]|]. intros (f & Hf & _). by apply elem_of_nil in Hf.
Qed.

Lemma store_reachable b : rtc file_step new_board b → store_ok b.
Proof. intros Hs. pose proof new_store_ok as H. revert Hs H. generalize new_board. intros b0 Hs. induction Hs; eauto using file_step_ok. Qed.

(** C15: the file tables implement a catalog, a finite map from area and name to file. In
    every reachable store a lookup, with space around the name or not, finds what the
    map has there; an area's listing is the map's part there, oldest first, each file
    once, and the count is its length; content is reported held exactly if some entry
    has it. A put adds the entry, under a free key, or changes nothing; it is then found as
    returned, unless the content was already held under another size. Renaming moves
    one entry to a free key, describing changes one entry, and both take its
    announcement away; removing deletes one entry and reports its content orphaned
    exactly if no other entry has it; whatever is refused changes nothing. *)
Theorem catalog_refines b : rtc file_step new_board b →
  (∀ area name fl, GetFile area name b = Ok fl ↔ ∃ a f, located area name b a f ∧ fl = file_of b a f) ∧
  (∀ area a, GetFileArea area b = Ok a →
     ∃ l, ListFiles area b = Ok (file_of b a <$> l) ∧ StronglySorted (lt_key (λ f, (f_UploadedAt f, f_Name f)) (less_pair Z.ltb less_text)) l ∧
       (∀ f, f ∈ l ↔ ∃ n, catalog b !! (ar_ID a, n) = Some f) ∧ CountFiles area b = Ok (Z.of_nat (length l))) ∧
  (∀ w, HoldsBlob w b = true ↔ w ≠ [] ∧ ∃ k f, catalog b !! k = Some f ∧ take (length w) (vec_to_list (f_Hash f)) = w) ∧
  (∀ now area f, match PutFile now area f b with
     | (Ok saved, b') => ∃ a, put_ok area f b a ∧
         catalog b' = <[(ar_ID a, TrimSpace (fl_Name f)) := new_row now a (trim_name f) b]> (catalog b) ∧
         (default (fl_Size f) (blobs b !! fl_Hash f) = fl_Size f → GetFile area (fl_Name f) b' = Ok saved)
     | (Err _, b') => b' = b ∧ ¬ ∃ a, put_ok area f b a
     end) ∧
  (∀ a n a' n', match RenameFile a n a' n' b with
     | (Ok _, b') => ∃ src f dst, located a n b src f ∧ GetFileArea a' b = Ok dst ∧
         catalog b' = <[(ar_ID dst, TrimSpace n') := move_row (ar_ID dst) (TrimSpace n') f]> (delete (ar_ID src, TrimSpace n) (catalog b)) ∧
         (catalog b !! (ar_ID dst, TrimSpace n') = None ∨ catalog b !! (ar_ID dst, TrimSpace n') = Some f)
     | (Err _, b') => b' = b
     end) ∧
  (∀ now a n d actor, match SetFileDescription now a n d actor b with
     | (Ok _, b') => ∃ src f, located a n b src f ∧ catalog b' = <[(ar_ID src, TrimSpace n) := describe_row (TrimSpace d) f]> (catalog b)
     | (Err _, b') => b' = b
     end) ∧
  (∀ a n, match RemoveFile a n b with
     | (Ok (orphaned, h), b') => ∃ src f, located a n b src f ∧ h = f_Hash f ∧ catalog b' = delete (ar_ID src, TrimSpace n) (catalog b) ∧
         (orphaned = true ↔ ∀ k x, catalog b' !! k = Some x → f_Hash x ≠ h)
     | (Err _, b') => b' = b ∧ ¬ ∃ src f, located a n b src f
     end).
Proof.
  intros Hr. destruct (store_reachable b Hr) as (Ha & Hl & Hok).
  split; [intros; by apply GetFile_iff|]. split; [intros; by apply ListFiles_spec|]. split; [intros; by apply HoldsBlob_spec|].
  split; [|split; [|split]].
  - intros now area f. pose proof (PutFile_spec now area f b Ha Hok) as H. destruct (PutFile now area f b) as [[s|e] b']; [|by destruct H as (? & ? & _)].
    destruct H as (a & Hput & Eb & ->). destruct (put_row_ok now area f b a Hok Ha Hput) as [Hok' Hcat]. rewrite <- Eb in Hok', Hcat.
    exists a. split; [done|]. split; [done|]. intros Hsize. assert (Ha' : areas_ok b') by (by subst b').
    apply GetFile_iff; [done|done|]. exists a, (new_row now a (trim_name f) b). split; [split; [subst b'; apply Hput|rewrite Hcat; apply lookup_insert_eq]|].
    unfold file_of. cbn. f_equal. rewrite Eb. cbn. destruct (blobs b !! fl_Hash f) eqn:Es; rewrite ?Es, ?lookup_insert_eq; by cbn in *.
  - intros a n a' n'. pose proof (RenameFile_spec a n a' n' b Ha Hok) as H. destruct (RenameFile a n a' n' b) as [[s|e] b']; [|by destruct H].
    destruct H as (src & f & dst & H1 & H2 & _ & H4 & _ & _ & H7). by exists src, f, dst.
  - intros now a n d actor. pose proof (SetFileDescription_spec now a n d actor b Ha Hok) as H.
    destruct (SetFileDescription now a n d actor b) as [[s|e] b']; [|by destruct H]. destruct H as (src & f & H1 & _ & _ & H4 & _). by exists src, f.
  - intros a n. pose proof (RemoveFile_spec a n b Ha Hok) as H. destruct (RemoveFile a n b) as [[[o h]|e] b']; [|done].
    destruct H as (src & f & H1 & H2 & _ & H4 & H5 & _). by exists src, f.
Qed.
End facts.
