(* ===== verification/FileRequests.v ===== *)
(** * Files asked for (internal/store/filerequests.go)

    The queue of files that a user of this board wants and another board holds: asking,
    what a carrier is to ask for, what arrives, and telling who asked. *)

From stdpp Require Import strings relations.
From S2P Require Import Prelude Binary Identity Order Text GoStrings.
From S2P Require Import Records RecordLog.
From S2P Require FileBody GossipStore.
From S2P Require Import Board Areas Files.

Definition MaxOpenFileRequests : Z := 16.

(** A row with its area's name. *)
Abbreviation FileRequest := (bytes * Request)%type.

Definition Arrived (r : Request) : bool := negb (r_ArrivedAt r =? 0).
Definition Filed (r : Request) : bool := Arrived r && match r_Note r with NoNote => true | _ => false end.

Definition asked_by (nick : bytes) (r : Request) : bool := bool_decide (nocase (r_Nick r) = nocase nick).
Definition scanFileRequest (b : Board) (r : Request) : option FileRequest :=
  name ← area_named (r_AreaID r) b;
  Some (name, r).

Definition wire_of (h : arr 32) : arr 16 :=
  match FileBody.TruncateFileHash (vec_to_list h) with Ok t => t | Err _ => zero_arr 16 end.

Definition check_request (area : AreaInfo) (name : bytes) (hash : arr 16) (nick : bytes) (b : Board) : result board_error unit :=
  _ ← ValidateFileName name;
  _ ← require (negb (bool_decide (nick = []))) NoRequester;
  _ ← require (negb (bool_decide (hash = zero_arr 16))) NoContentHash;
  _ ← require (negb (HoldsBlob (vec_to_list hash) b)) ErrFileAlreadyHeld;
  _ ← match GetFile (ar_Name area) name b with
      | Ok existing => if bool_decide (wire_of (fl_Hash existing) = hash) then Err ErrFileAlreadyHeld else Err (NameTakenByOther name)
      | Err NotFound => Ok tt
      | Err e => Err e
      end;
  let open := Z.of_nat (length (filter (λ r, asked_by nick r = true ∧ r_ArrivedAt r = 0) (requests b))) in
  require (open <? MaxOpenFileRequests) (ErrFileRequestQueueFull open).

Definition same_request (area : Z) (hash : arr 16) (nick : bytes) (r : Request) : bool :=
  (r_AreaID r =? area) && bool_decide (r_Hash r = hash) && asked_by nick r.

Definition RequestFile (now : Z) (areaName name : bytes) (hash : arr 16) (holder : NodeID) (nick : bytes) (b : Board) : result board_error FileRequest * Board :=
  match GetFileArea areaName b with
  | Err e => (Err e, b)
  | Ok area =>
      let name := TrimSpace name in
      let nick := TrimSpace nick in
      match check_request area name hash nick b with
      | Err e => (Err e, b)
      | Ok _ =>
          if existsb (same_request (ar_ID area) hash nick) (requests b) then (Err (ErrFileRequestExists name), b)
          else
            let r := mkRequest (last_request b + 1) (ar_ID area) name hash holder nick now 0 0 NoNote in
            (Ok (ar_Name area, r), with_requests (requests b ++ [r]) (last_request b + 1) b)
      end
  end.

Definition by_age (t : Request → Z) : list Request → list Request := sort_by (λ r, (t r, r_ID r)) (less_pair Z.ltb Z.ltb).

Definition ListFileRequests (nick : bytes) (b : Board) : list FileRequest :=
  let nick := TrimSpace nick in
  omap (scanFileRequest b) (by_age r_RequestedAt (filter (λ r, nick = [] ∨ asked_by nick r = true) (requests b))).

(** [MIN(...)] of a group. *)
Definition least (l : list Z) : Z := match l with [] => 0 | x :: l => foldr Z.min x l end.
Definition open_requests (b : Board) : list Request := filter (λ r, r_ArrivedAt r = 0) (requests b).
Definition asked_since (l : list Request) (h : arr 16) : Z * Z :=
  let group := filter (λ r, r_Hash r = h) l in (least (r_RequestedAt <$> group), least (r_ID <$> group)).

Definition OpenFileRequestHashes (limit : Z) (b : Board) : list (arr 16) :=
  if limit <=? 0 then []
  else take (Z.to_nat limit)
         (sort_by (asked_since (open_requests b)) (less_pair Z.ltb Z.ltb) (remove_dups (r_Hash <$> open_requests b))).

Section requests.
Context `{HB : Blake3}.

(** What could not be filed is noted; a name this very content has is no failure. *)
Definition fileArrival (now : Z) (area : bytes) (r : Request) (hash : arr 32) (size : Z) (b : Board) : note * Board :=
  match PutFile now area (mkFile 0 [] (r_Name r) hash size [] [] now zero_record_id) b with
  | (Ok _, b) => (NoNote, b)
  | (Err (ErrFileExists _), b) =>
      match GetFile area (r_Name r) b with
      | Ok existing => if bool_decide (fl_Hash existing = hash) then (NoNote, b) else (NameTaken area (r_Name r), b)
      | Err _ => (NameTaken area (r_Name r), b)
      end
  | (Err e, b) => (NotFiled area e, b)
  end.

Definition arrive (now : Z) (n : note) (r : Request) : Request :=
  mkRequest (r_ID r) (r_AreaID r) (r_Name r) (r_Hash r) (r_Holder r) (r_Nick r) (r_RequestedAt r) now (r_NotifiedAt r) n.

(** [UPDATE file_requests ... WHERE id = ?]. *)
Definition update_request (i : Z) (g : Request → Request) (b : Board) : Board :=
  with_requests ((λ r, if r_ID r =? i then g r else r) <$> requests b) (last_request b) b.

(** The loop over the open requests, with the notes of the places already filed. *)
Fixpoint close_each (now : Z) (hash : arr 32) (size : Z) (open : list FileRequest) (filed : gmap bytes note) (b : Board) : list FileRequest * Board :=
  match open with
  | [] => ([], b)
  | (area, r) :: open =>
      let key := area ++ slash :: r_Name r in
      let '(n, b) := match filed !! key with Some n => (n, b) | None => fileArrival now area r hash size b end in
      let b := update_request (r_ID r) (arrive now n) b in
      let '(out, b) := close_each now hash size open (<[key := n]> filed) b in
      ((area, arrive now n r) :: out, b)
  end.

Definition SatisfyFileRequests (now : Z) (hash : arr 32) (size : Z) (b : Board) : list FileRequest * Board :=
  let open := omap (scanFileRequest b)
                (by_age r_RequestedAt (filter (λ r, r_Hash r = wire_of hash ∧ r_ArrivedAt r = 0) (requests b))) in
  close_each now hash size open ∅ b.
End requests.

Definition UnnotifiedFileRequests (nick : bytes) (b : Board) : list FileRequest :=
  let nick := TrimSpace nick in
  if bool_decide (nick = []) then []
  else omap (scanFileRequest b)
         (by_age r_ArrivedAt (filter (λ r, asked_by nick r = true ∧ r_ArrivedAt r ≠ 0 ∧ r_NotifiedAt r = 0) (requests b))).

Definition notify (now : Z) (r : Request) : Request :=
  mkRequest (r_ID r) (r_AreaID r) (r_Name r) (r_Hash r) (r_Holder r) (r_Nick r) (r_RequestedAt r) (r_ArrivedAt r) now (r_Note r).

Definition MarkFileRequestsNotified (now : Z) (ids : list Z) (b : Board) : Board :=
  with_requests ((λ r, if bool_decide (r_ID r ∈ ids) && Arrived r then notify now r else r) <$> requests b) (last_request b) b.

Definition CancelFileRequest (i : Z) (nick : bytes) (b : Board) : result board_error unit * Board :=
  let mine r := (r_ID r =? i) && asked_by (TrimSpace nick) r in
  if existsb mine (requests b) then (Ok tt, with_requests (filter (λ r, mine r = false) (requests b)) (last_request b) b)
  else (Err NotFound, b).
