(* ===== verification/FileRequestsFacts.v ===== *)
(** * What becomes of the files asked for (internal/store/filerequests.go)

    What the queue keeps under every operation of the board's store, and what an
    arrival does: it closes exactly the requests for that content, files it where each
    asked, and leaves them to be told once. *)

From stdpp Require Import strings relations.
From S2P Require Import Prelude Binary Identity Order Text GoStrings.
From S2P Require Import Records RecordLog.
From S2P Require FileBody GossipStore.
From S2P Require Import Board Areas Files FilesFacts FileRequests.

Section facts.
Context `{HB : Blake3, HE : Ed25519, HD : SqlDriver, HS : SqlSum}.

(** The area a request is for, by its name or its number. *)
Definition area_of (b : Board) (area : bytes) (r : Request) (a : AreaInfo) : Prop :=
  a ∈ areas b ∧ ar_ID a = r_AreaID r ∧ ar_Kind a = GossipStore.KindFile ∧ ar_Name a = area.

Definition request_good (b : Board) (r : Request) : Prop :=
  ValidateFileName (r_Name r) = Ok tt ∧ TrimSpace (r_Name r) = r_Name r ∧ r_Hash r ≠ zero_arr 16 ∧
  (∃ area a, area_of b area r a) ∧ (r_ArrivedAt r = 0 → r_NotifiedAt r = 0).

Definition request_key (r : Request) : Z * arr 16 * bytes := (r_AreaID r, r_Hash r, nocase (r_Nick r)).
Definition open_of (nick : bytes) (l : list Request) : list Request := filter (λ r, asked_by nick r = true ∧ r_ArrivedAt r = 0) l.

Definition requests_ok (b : Board) : Prop :=
  Forall (request_good b) (requests b) ∧ NoDup (request_key <$> requests b) ∧ NoDup (r_ID <$> requests b) ∧
  Forall (λ r, r_ID r ≤ last_request b) (requests b) ∧ (∀ nick, Z.of_nat (length (open_of nick (requests b))) ≤ MaxOpenFileRequests).

(** ** Areas by name *)

Lemma area_name_chars b a : areas_ok b → a ∈ areas b → Forall (λ c, name_char c = true) (ar_Name a).
Proof.
  intros (Hg & _) Ha. rewrite Forall_forall in Hg. destruct (Hg a Ha) as [Hv _]. unfold ValidateAreaName in Hv.
  apply bind_unit_Ok in Hv as [_ [Hc _]%bind_unit_Ok]. apply bad_name_rune_None. by destruct (bad_name_rune (ar_Name a)).
Qed.

Lemma GetFileArea_self b a : areas_ok b → a ∈ areas b → ar_Kind a = GossipStore.KindFile → GetFileArea (ar_Name a) b = Ok a.
Proof.
  intros Hok Ha Hk. unfold GetFileArea, get_kind. assert (H : GetAnyArea (ar_Name a) b = Ok a).
  { apply GetAnyArea_iff; [done|]. split; [done|]. rewrite TrimSpace_plain; [done|]. eapply Forall_impl; [by apply (area_name_chars b)|]. intros c. apply name_char_plain. }
  rewrite H. cbn. by rewrite bool_decide_true by done.
Qed.

(** An area's name has no slash, so the place a file goes to tells both parts apart. *)
Lemma place_inj s t x y : slash ∉ s → slash ∉ t → s ++ slash :: x = t ++ slash :: y → s = t ∧ x = y.
Proof.
  revert t. induction s as [|c s IH]; intros [|d t] Hs Ht E; cbn in E.
  - by injection E as ->.
  - injection E as <- _. exfalso. apply Ht. left.
  - injection E as -> _. exfalso. apply Hs. left.
  - injection E as -> E. apply IH in E as [-> ->]; [done|set_solver..].
Qed.

Lemma no_slash b a : areas_ok b → a ∈ areas b → slash ∉ ar_Name a.
Proof. intros Hok Ha Hs. pose proof (area_name_chars b a Hok Ha) as H. rewrite Forall_forall in H. by specialize (H _ Hs). Qed.

Lemma scan_request b area r a : areas_ok b → area_of b area r a → scanFileRequest b r = Some (area, r).
Proof. intros Hok (Ha & Hi & _ & <-). unfold scanFileRequest. by rewrite (area_named_Some b a). Qed.

(** ** One arrival *)

Section arrival.
Context (now : Z) (hash : arr 32) (size : Z) (Hhash : hash ≠ zero_arr 32) (Hsize : 0 ≤ size).

(** What a note says is so. *)
Definition settled (b : Board) (a : AreaInfo) (name : bytes) (n : note) : Prop :=
  ∃ f, catalog b !! (ar_ID a, name) = Some f ∧
    match n with NoNote => f_Hash f = hash | NameTaken x y => x = ar_Name a ∧ y = name ∧ f_Hash f ≠ hash | NotFiled _ _ => False end.

(** The catalog only gains entries, of this content. *)
Definition gains (b b' : Board) : Prop :=
  areas b' = areas b ∧ log b' = log b ∧ catalog b ⊆ catalog b' ∧ (∀ k f, catalog b' !! k = Some f → catalog b !! k = Some f ∨ f_Hash f = hash).

Lemma gains_refl b : gains b b.
Proof. split_and!; try done. by left. Qed.
Lemma gains_trans b1 b2 b3 : gains b1 b2 → gains b2 b3 → gains b1 b3.
Proof.
  intros (A1 & L1 & S1 & G1) (A2 & L2 & S2 & G2). split; [by rewrite A2|]. split; [by rewrite L2|]. split; [by etrans|].
  intros k f [H|?]%G2; [by apply G1|by right].
Qed.
Lemma settled_gains b b' a name n : gains b b' → settled b a name n → settled b' a name n.
Proof. intros (_ & _ & Hs & _) (f & Hf & H). exists f. split; [|done]. by eapply lookup_weaken. Qed.

Lemma fileArrival_spec area r a b : store_ok b → area_of b area r a → ValidateFileName (r_Name r) = Ok tt → TrimSpace (r_Name r) = r_Name r →
  let '(n, b') := fileArrival now area r hash size b in
  settled b' a (r_Name r) n ∧ gains b b' ∧ store_ok b' ∧ requests b' = requests b ∧ last_request b' = last_request b ∧ file_step b b'.
Proof using Hhash Hsize.
  intros (Ha & Hl & Hok) (Hin & Hi & Hk & <-) Hv Ht. unfold fileArrival. set (f := mkFile _ _ _ _ _ _ _ _ _). assert (Hfn : TrimSpace (fl_Name f) = r_Name r) by done.
  assert (Hcheck : check_file (trim_name f) = Ok tt).
  { replace (trim_name f) with f by (unfold trim_name; by rewrite Hfn). unfold check_file, f. cbn [fl_Name fl_Hash fl_Size]. rewrite Hv. cbn.
    rewrite bool_decide_false by done. cbn. by destruct (Z.leb_spec 0 size); [|lia]. }
  pose proof (GetFileArea_self b a Ha Hin Hk) as Harea. pose proof (step_putfile now (ar_Name a) f b) as Hstep.
  pose proof (PutFile_spec now (ar_Name a) f b Ha Hok) as H. destruct (PutFile now (ar_Name a) f b) as [[s|e] b'].
  - destruct H as (a' & Hput & -> & _). assert (a' = a) as -> by (destruct Hput as [Hput _]; congruence).
    destruct (put_row_ok now (ar_Name a) f b a Hok Ha Hput) as [Hok' Hcat]. rewrite Hfn in Hcat. destruct Hput as (_ & _ & Hfree & _). rewrite Hfn in Hfree.
    split; [|split; [|done]].
    + eexists. rewrite Hcat, lookup_insert_eq. by split.
    + split_and!; [done|done|rewrite Hcat; by apply insert_subseteq|]. intros k x. rewrite Hcat, lookup_insert_Some. intros [[_ <-]|[_ ?]]; [by right|by left].
  - destruct H as (-> & Hno & Hex). destruct (catalog b !! (ar_ID a, r_Name r)) as [x|] eqn:Hx.
    + assert (He : ∃ n, e = ErrFileExists n).
      { apply Hex. exists a. split; [done|]. rewrite Hfn, Hx. split; [|by eexists]. done. }
      destruct He as [n ->]. rewrite GetFile_catalog by done. rewrite Harea. cbn [mbind result_bind]. rewrite Ht, Hx. cbn [fl_Hash file_of].
      destruct (bool_decide_reflect (f_Hash x = hash)); (split; [by exists x|split; [apply gains_refl|done]]).
    + exfalso. apply Hno. exists a. split; [done|]. split; [done|]. rewrite Hfn. split; [done|apply unpublished].
Qed.

(** ** Closing the requests *)

Definition close_with (out : list FileRequest) (r : Request) : Request :=
  match List.find (λ y : FileRequest, r_ID y.2 =? r_ID r) out with Some y => y.2 | None => r end.

Definition notes_kept (b : Board) (filed : gmap bytes note) : Prop :=
  ∀ a n name, a ∈ areas b → filed !! (ar_Name a ++ slash :: name) = Some n → settled b a name n.

(** A request and what it became. *)
Definition closed (b' : Board) (x y : FileRequest) : Prop :=
  ∃ a n, area_of b' x.1 x.2 a ∧ y = (x.1, arrive now n x.2) ∧ settled b' a (r_Name x.2) n.

Lemma closed_gains b b' x y : gains b b' → closed b x y → closed b' x y.
Proof.
  intros Hg (a & n & (H1 & H2) & -> & Hs). exists a, n. split; [|split; [done|by eapply settled_gains]]. split; [|done]. by rewrite (proj1 Hg).
Qed.

Lemma closed_IDs b xs ys : Forall2 (closed b) xs ys → (λ y, r_ID y.2) <$> ys = (λ x, r_ID x.2) <$> xs.
Proof. induction 1 as [|x y xs ys (a & n & _ & -> & _) _ IH]; [done|]. cbn. by rewrite IH. Qed.

Lemma close_with_other (out : list FileRequest) r : r_ID r ∉ (λ y : FileRequest, r_ID y.2) <$> out → close_with out r = r.
Proof.
  intros H. unfold close_with. destruct (List.find _ out) as [y|] eqn:E; [|done]. apply List.find_some in E as [Hy%list_elem_of_In E%Z.eqb_eq].
  exfalso. apply H. rewrite <- E. by apply (list_elem_of_fmap_2 (λ y : FileRequest, r_ID y.2)).
Qed.

Lemma requests_steps i g b : file_step b (update_request i g b).
Proof. apply step_requests. Qed.

Lemma close_each_spec open : ∀ filed b, store_ok b → notes_kept b filed → NoDup (r_ID <$> requests b) →
  NoDup ((λ x : FileRequest, r_ID x.2) <$> open) →
  Forall (λ x : FileRequest, x.2 ∈ requests b ∧ ValidateFileName (r_Name x.2) = Ok tt ∧ TrimSpace (r_Name x.2) = r_Name x.2 ∧ ∃ a, area_of b x.1 x.2 a) open →
  let '(out, b') := close_each now hash size open filed b in
  Forall2 (closed b') open out ∧ gains b b' ∧ store_ok b' ∧ requests b' = close_with out <$> requests b ∧ last_request b' = last_request b ∧ rtc file_step b b'.
Proof using Hhash Hsize.
  induction open as [|[area r] open IH]; intros filed b Hok Hfiled Hids Hopen Hall; cbn [close_each].
  { split; [constructor|]. split; [apply gains_refl|]. split; [done|]. split; [|done]. symmetry. apply list_fmap_id. }
  apply NoDup_cons in Hopen as [Hnew Hopen]. apply Forall_cons in Hall as [(Hin & Hv & Ht & a & Ha) Hall]. cbn in Hin, Hv, Ht, Ha, Hnew.
  set (key := area ++ slash :: r_Name r).
  assert (Hone : let '(n, b1) := match filed !! key with Some n => (n, b) | None => fileArrival now area r hash size b end in
    settled b1 a (r_Name r) n ∧ gains b b1 ∧ store_ok b1 ∧ requests b1 = requests b ∧ last_request b1 = last_request b ∧ rtc file_step b b1).
  { destruct (filed !! key) as [n|] eqn:Ek.
    - split; [|split; [apply gains_refl|done]]. apply Hfiled; [apply Ha|]. destruct Ha as (_ & _ & _ & ->). done.
    - pose proof (fileArrival_spec area r a b Hok Ha Hv Ht) as H. destruct (fileArrival _ _ _ _ _ _) as [n b1].
      destruct H as (H1 & H2 & H3 & H4 & H5 & H6). do 5 (split; [done|]). by apply rtc_once. }
  destruct (match filed !! key with Some n => (n, b) | None => _ end) as [n b1]. destruct Hone as (Hset & Hg & Hok1 & Er & El & Hst).
  set (b2 := update_request (r_ID r) (arrive now n) b1).
  assert (Hok2 : store_ok b2) by (eapply file_step_ok; [apply requests_steps|exact Hok1]).
  assert (Hg2 : gains b b2) by exact Hg.
  assert (Hrows : requests b2 = (λ x, if r_ID x =? r_ID r then arrive now n x else x) <$> requests b) by (cbn; by rewrite Er).
  assert (Hids2 : r_ID <$> requests b2 = r_ID <$> requests b).
  { rewrite Hrows, <- list_fmap_compose. apply list_fmap_ext. intros i x _. cbn. by destruct (r_ID x =? r_ID r). }
  specialize (IH (<[key := n]> filed) b2 Hok2). rewrite Hids2 in IH.
  destruct (close_each now hash size open (<[key := n]> filed) b2) as [out b'] eqn:Ec.
  destruct IH as (Hf & Hg' & Hok' & Er' & El' & Hst'); [|done|done| |].
  - intros a' n' name Ha' [[E <-]|[_ H]]%lookup_insert_Some.
    + assert (a' ∈ areas b) as Hb by (by rewrite <- (proj1 Hg2)). destruct Ha as (Ha & Hi & Hk & <-). pose proof Hok as (Hao & _).
      apply place_inj in E as [En <-]; [|by apply (no_slash b)|by apply (no_slash b)].
      assert (a' = a) as ->; [|exact Hset]. pose proof Hao as (_ & Hn & _).
      eapply (NoDup_key_inj (nocase ∘ ar_Name) less_text); [exact Hn|done|done|]. cbn. by rewrite En.
    + eapply settled_gains; [exact Hg2|]. apply Hfiled; [|done]. by rewrite <- (proj1 Hg2).
  - apply Forall_forall. intros x Hx. rewrite Forall_forall in Hall. destruct (Hall x Hx) as (H1 & H2 & H3 & a' & Ha' & H4).
    split; [|split; [done|split; [done|]]].
    + rewrite Hrows. apply list_elem_of_fmap. exists x.2. split; [|done]. destruct (Z.eqb_spec (r_ID x.2) (r_ID r)) as [E|]; [|done].
      exfalso. apply Hnew. rewrite <- E. by apply (list_elem_of_fmap_2 (λ x : FileRequest, r_ID x.2)).
    + exists a'. split; [|done]. by rewrite (proj1 Hg2).
  - split; [|split; [by eapply gains_trans|split; [done|split; [|split; [by rewrite El'|]]]]].
    + constructor; [|done]. apply (closed_gains b2); [done|]. exists a, n. split; [|done]. destruct Ha as (Ha & ?). split; [|done]. by rewrite (proj1 Hg2).
    + rewrite Er', Hrows, <- list_fmap_compose. apply list_fmap_ext. intros i x Hx%list_elem_of_lookup_2. cbn.
      assert (Hout : r_ID r ∉ (λ y : FileRequest, r_ID y.2) <$> out) by (by rewrite (closed_IDs _ _ _ Hf)).
      unfold close_with at 2. cbn [List.find snd r_ID arrive]. rewrite (Z.eqb_sym (r_ID r)). destruct (Z.eqb_spec (r_ID x) (r_ID r)) as [E|E].
      * rewrite close_with_other by (cbn; by rewrite E). cbn. by rewrite (NoDup_key_inj r_ID Z.ltb (requests b) x r Hids Hx Hin E).
      * done.
    + etrans; [exact Hst|]. eapply rtc_l; [apply requests_steps|exact Hst'].
Qed.
End arrival.

(** ** Runs *)

Lemma file_step_areas b b' : store_ok b → file_step b b' →
  ∀ a, a ∈ areas b → ∃ a', a' ∈ areas b' ∧ ar_ID a' = ar_ID a ∧ ar_Kind a' = ar_Kind a ∧ ar_Name a' = ar_Name a.
Proof.
  intros (Ha & Hl & Hok) Hs. assert (Hsame : ∀ c, areas c = areas b → ∀ a, a ∈ areas b →
    ∃ a', a' ∈ areas c ∧ ar_ID a' = ar_ID a ∧ ar_Kind a' = ar_Kind a ∧ ar_Name a' = ar_Name a).
  { intros c E a Hin. exists a. by rewrite E. }
  destruct Hs as [b b' Hs|b l Hs|x n b|now a f b|a n a' n' b|now a n d actor b|i r b|a n b]; [by eapply area_step_keeps|apply Hsame..]; try done.
  - pose proof (PutFile_spec now a f b Ha Hok) as H. destruct (PutFile now a f b) as [[s|e] b']; [by destruct H as (? & _ & -> & _)|by destruct H as [-> _]].
  - pose proof (RenameFile_spec a n a' n' b Ha Hok) as H. destruct (RenameFile a n a' n' b) as [[s|e] b']; [by destruct H as (? & ? & ? & _ & _ & _ & _ & -> & _)|by destruct H as [-> _]].
  - pose proof (SetFileDescription_spec now a n d actor b Ha Hok) as H. destruct (SetFileDescription now a n d actor b) as [[s|e] b']; [|by destruct H as [-> _]].
    by destruct H as (? & ? & _ & _ & _ & _ & [? _] & _).
  - pose proof (SetFileRecord_spec i r b Hok) as H. destruct (SetFileRecord i r b) as [[e|] b']; [by destruct H as [-> _]|by destruct H as (_ & [? _] & _)].
  - pose proof (RemoveFile_spec a n b Ha Hok) as H. destruct (RemoveFile a n b) as [[[o h]|e] b']; [|by destruct H as [-> _]].
    by destruct H as (? & ? & _ & _ & _ & _ & _ & ? & _).
Qed.

(** Everything that happens to the queue. The content of an arrival is what the blob
    store says it holds. *)
Inductive request_step : Board → Board → Prop :=
| ask_files b b' : file_step b b' → requests b' = requests b → last_request b' = last_request b → request_step b b'
| ask_request now area name h holder nick b : request_step b (RequestFile now area name h holder nick b).2
| ask_arrive now h s b : h ≠ zero_arr 32 → 0 ≤ s → request_step b (SatisfyFileRequests now h s b).2
| ask_mark now ids b : request_step b (MarkFileRequestsNotified now ids b)
| ask_cancel i nick b : request_step b (CancelFileRequest i nick b).2.

Definition queue_ok (b : Board) : Prop := store_ok b ∧ requests_ok b.

Lemma request_good_grows b b' r r' :
  (∀ a, a ∈ areas b → ∃ a', a' ∈ areas b' ∧ ar_ID a' = ar_ID a ∧ ar_Kind a' = ar_Kind a ∧ ar_Name a' = ar_Name a) →
  r_AreaID r' = r_AreaID r → r_Name r' = r_Name r → r_Hash r' = r_Hash r → (r_ArrivedAt r' = 0 → r_NotifiedAt r' = 0) →
  request_good b r → request_good b' r'.
Proof.
  intros Ha E1 E2 E3 Hn (H1 & H2 & H3 & (n & a & Hin & Hi & Hk & Hna) & _). unfold request_good. rewrite E2, E3. do 3 (split; [done|]). split; [|done].
  destruct (Ha a Hin) as (a' & Hin' & Hi' & Hk' & Hn'). exists n, a'. unfold area_of. by rewrite E1, Hi', Hk', Hn'.
Qed.

(** Requests changed in place. *)
Lemma requests_ok_map b b' (g : Request → Request) :
  requests b' = g <$> requests b → last_request b' = last_request b →
  (∀ a, a ∈ areas b → ∃ a', a' ∈ areas b' ∧ ar_ID a' = ar_ID a ∧ ar_Kind a' = ar_Kind a ∧ ar_Name a' = ar_Name a) →
  (∀ r, r ∈ requests b → r_ID (g r) = r_ID r ∧ r_AreaID (g r) = r_AreaID r ∧ r_Name (g r) = r_Name r ∧ r_Hash (g r) = r_Hash r ∧
     r_Nick (g r) = r_Nick r ∧ (r_ArrivedAt (g r) = 0 → r_ArrivedAt r = 0 ∧ r_NotifiedAt (g r) = r_NotifiedAt r)) →
  requests_ok b → requests_ok b'.
Proof.
  intros Er El Ha Hg (Hgood & Hkey & Hid & Hlast & Hmax). unfold requests_ok. rewrite Er, El.
  assert (Hmap : ∀ {B} (h : Request → B), (∀ r, r ∈ requests b → h (g r) = h r) → h <$> (g <$> requests b) = h <$> requests b).
  { intros B h Hh. rewrite <- list_fmap_compose. apply list_fmap_ext. intros i r Hr%list_elem_of_lookup_2. by apply Hh. }
  split; [|split; [|split; [|split]]].
  - apply Forall_forall. intros x (r & -> & Hr)%list_elem_of_fmap. rewrite Forall_forall in Hgood. destruct (Hg r Hr) as (_ & E1 & E2 & E3 & _ & E4).
    apply (request_good_grows b b' r); [done..| |by apply Hgood]. intros [E ->]%E4. destruct (Hgood r Hr) as (_ & _ & _ & _ & Hz). by apply Hz.
  - rewrite Hmap; [done|]. intros r Hr. unfold request_key. destruct (Hg r Hr) as (_ & -> & _ & -> & -> & _). done.
  - rewrite Hmap; [done|]. intros r Hr. by destruct (Hg r Hr) as [-> _].
  - apply Forall_forall. intros x (r & -> & Hr)%list_elem_of_fmap. rewrite Forall_forall in Hlast. destruct (Hg r Hr) as [-> _]. by apply Hlast.
  - intros nick. etrans; [|apply (Hmax nick)]. unfold open_of. apply Nat2Z.inj_le, filter_fmap_length. intros r Hr [Hn Hz].
    destruct (Hg r Hr) as (_ & _ & _ & _ & En & Ez). unfold asked_by in *. rewrite En in Hn. split; [done|]. by apply Ez.
Qed.

Lemma RequestFile_spec now area name h holder nick b :
  match RequestFile now area name h holder nick b with
  | (Ok x, b') => ∃ a, let r := mkRequest (last_request b + 1) (ar_ID a) (TrimSpace name) h holder (TrimSpace nick) now 0 0 NoNote in
      GetFileArea area b = Ok a ∧ check_request a (TrimSpace name) h (TrimSpace nick) b = Ok tt ∧ x = (ar_Name a, r) ∧
      request_key r ∉ request_key <$> requests b ∧ b' = with_requests (requests b ++ [r]) (last_request b + 1) b
  | (Err e, b') => b' = b ∧ ¬ ∃ a, GetFileArea area b = Ok a ∧ check_request a (TrimSpace name) h (TrimSpace nick) b = Ok tt ∧
      (ar_ID a, h, nocase (TrimSpace nick)) ∉ request_key <$> requests b
  end.
Proof.
  unfold RequestFile. destruct (GetFileArea area b) as [a|e]; [|split; [done|naive_solver]].
  destruct (check_request _ _ _ _ _) as [[]|e] eqn:Ec; [|split; [done|]; intros (a' & [= <-] & H & _); congruence].
  assert (Hsame : existsb (same_request (ar_ID a) h (TrimSpace nick)) (requests b) = true ↔ (ar_ID a, h, nocase (TrimSpace nick)) ∈ request_key <$> requests b).
  { rewrite existsb_exists, list_elem_of_fmap. setoid_rewrite <- list_elem_of_In. unfold same_request, asked_by, request_key.
    setoid_rewrite andb_true_iff. setoid_rewrite andb_true_iff. setoid_rewrite bool_decide_eq_true. setoid_rewrite Z.eqb_eq. split.
    - intros (r & Hr & [<- <-] & <-). by exists r.
    - intros (r & [= -> -> ->] & Hr). by exists r. }
  destruct (existsb _ (requests b)) eqn:Ee.
  - split; [done|]. intros (a' & [= <-] & _ & H). by apply H, Hsame.
  - exists a. cbv zeta. split; [done|]. split; [done|]. split; [done|]. split; [|done]. intros H. apply Hsame in H. done.
Qed.

Lemma open_of_snoc nick l r : open_of nick (l ++ [r]) = open_of nick l ++ open_of nick [r].
Proof. apply filter_app. Qed.

Lemma open_of_one nick r : (length (open_of nick [r]) ≤ 1)%nat.
Proof. apply (length_filter _ [r]). Qed.

Lemma check_request_Ok a name h nick b :
  check_request a name h nick b = Ok tt ↔
  ValidateFileName name = Ok tt ∧ nick ≠ [] ∧ h ≠ zero_arr 16 ∧ HoldsBlob (vec_to_list h) b = false ∧ GetFile (ar_Name a) name b = Err NotFound ∧
  Z.of_nat (length (open_of nick (requests b))) < MaxOpenFileRequests.
Proof.
  unfold check_request. fold (open_of nick (requests b)). rewrite !bind_unit_Ok, !require_Ok, !negb_true_iff, !bool_decide_eq_false, Z.ltb_lt.
  assert (Hg : ∀ r : result board_error File, match r with Ok existing => if bool_decide (wire_of (fl_Hash existing) = h) then Err ErrFileAlreadyHeld else Err (NameTakenByOther name)
     | Err NotFound => Ok tt | Err e => Err e end = Ok tt ↔ r = Err NotFound).
  { intros [x|e]; [by case_bool_decide|]. by destruct e. }
  rewrite Hg. done.
Qed.

Lemma asked_by_sym x y r r' : asked_by x r = true → r_Nick r' = y → nocase (r_Nick r) = nocase (r_Nick r') → nocase x = nocase y.
Proof. unfold asked_by. rewrite bool_decide_eq_true. congruence. Qed.

Lemma open_of_nocase x y l : nocase x = nocase y → open_of x l = open_of y l.
Proof. intros E. unfold open_of. apply list_filter_iff. intros r. unfold asked_by. by rewrite E. Qed.

(** ** What an arrival does *)

Definition wanting (h : arr 32) (b : Board) : list Request :=
  by_age r_RequestedAt (filter (λ r, r_Hash r = wire_of h ∧ r_ArrivedAt r = 0) (requests b)).

Lemma wanting_elem h b r : r ∈ wanting h b ↔ r ∈ requests b ∧ r_Hash r = wire_of h ∧ r_ArrivedAt r = 0.
Proof. unfold wanting, by_age. rewrite sort_by_elem, list_elem_of_filter. naive_solver. Qed.

Lemma request_area b r : requests_ok b → r ∈ requests b → ∃ area a, area_of b area r a.
Proof. intros (Hg & _) Hr. rewrite Forall_forall in Hg. destruct (Hg r Hr) as (_ & _ & _ & H & _). exact H. Qed.

(** The listing of a part of the requests. *)
Lemma omap_scan b l : areas_ok b → requests_ok b → (∀ r, r ∈ l → r ∈ requests b) →
  ∃ xs, omap (scanFileRequest b) l = xs ∧ snd <$> xs = l ∧ Forall (λ x : FileRequest, ∃ a, area_of b x.1 x.2 a) xs.
Proof.
  intros Ha Hq. induction l as [|r l IH]; intros Hl; [by exists []|]. destruct IH as (xs & E1 & E2 & E3); [set_solver|].
  destruct (request_area b r Hq) as (area & a & Har); [apply Hl; left|]. exists ((area, r) :: xs). cbn. rewrite (scan_request b area r a) by done.
  rewrite E1, E2. split; [done|]. split; [done|]. constructor; [by exists a|done].
Qed.

Lemma scanned_elem b (l : list Request) (x : FileRequest) : areas_ok b → requests_ok b → (∀ r, r ∈ l → r ∈ requests b) →
  x ∈ omap (scanFileRequest b) l ↔ x.2 ∈ l ∧ ∃ a, area_of b x.1 x.2 a.
Proof.
  intros Ha Hq Hl. rewrite list_elem_of_omap. split.
  - intros (r & Hr & Hs). destruct (request_area b r Hq (Hl r Hr)) as (area & a & Har). rewrite (scan_request b area r a) in Hs by done.
    injection Hs as <-. split; [done|by exists a].
  - destruct x as [area r]. intros (Hr & a & Har). exists r. split; [done|]. by apply (scan_request b area r a).
Qed.

Lemma SatisfyFileRequests_spec now hash size b : hash ≠ zero_arr 32 → 0 ≤ size → queue_ok b →
  let '(out, b') := SatisfyFileRequests now hash size b in
  Forall2 (λ r y, ∃ a n, area_of b y.1 r a ∧ y.2 = arrive now n r ∧ settled hash b' a (r_Name r) n) (wanting hash b) out ∧
  gains hash b b' ∧ store_ok b' ∧ requests b' = close_with out <$> requests b ∧ last_request b' = last_request b ∧ rtc file_step b b' ∧
  NoDup ((λ y : FileRequest, r_ID y.2) <$> out).
Proof.
  intros Hh Hs [Hok Hq]. unfold SatisfyFileRequests. fold (wanting hash b). pose proof Hok as (Ha & _).
  destruct (omap_scan b (wanting hash b) Ha Hq) as (xs & -> & E & Hxs); [intros r [? _]%wanting_elem; done|].
  assert (Hn : NoDup ((λ x : FileRequest, r_ID x.2) <$> xs)).
  { change (λ x : FileRequest, r_ID x.2) with (r_ID ∘ @snd bytes Request). rewrite list_fmap_compose, E. unfold wanting, by_age. rewrite sort_by_Permutation. destruct Hq as (_ & _ & Hi & _).
    eapply sublist_NoDup; [exact Hi|]. apply fmap_sublist, sublist_filter. }
  pose proof (close_each_spec now hash size Hh Hs xs ∅ b Hok) as H. destruct (close_each now hash size xs ∅ b) as [out b'].
  destruct H as (Hf & Hg & Hok' & Hr & Hl & Hst).
  - intros a n name _ Hx. by rewrite lookup_empty in Hx.
  - by destruct Hq as (_ & _ & Hi & _).
  - done.
  - apply Forall_forall. intros x Hx. rewrite Forall_forall in Hxs. assert (Hx2 : x.2 ∈ wanting hash b) by (rewrite <- E; by apply list_elem_of_fmap_2).
    apply wanting_elem in Hx2 as (Hx2 & _). destruct Hq as (Hgood & _). rewrite Forall_forall in Hgood. destruct (Hgood _ Hx2) as (H1 & H2 & _).
    split; [done|split; [done|split; [done|]]]. by apply Hxs.
  - split; [|do 5 (split; [done|]); by rewrite (closed_IDs _ _ _ _ _ Hf)].
    rewrite <- E. apply Forall2_fmap_l. eapply Forall2_impl; [exact Hf|]. intros x y (a & n & Hao & -> & Hset). exists a, n. cbn.
    split; [|done]. destruct Hao as (Hin & ?). split; [|done]. by rewrite <- (proj1 Hg).
Qed.

(** A request closes if it is one that waits for the content, and then in the list. *)
Lemma close_with_spec now hash b b' (out : list FileRequest) r :
  NoDup (r_ID <$> requests b) → NoDup ((λ y : FileRequest, r_ID y.2) <$> out) →
  Forall2 (λ r y, ∃ a n, area_of b y.1 r a ∧ y.2 = arrive now n r ∧ settled hash b' a (r_Name r) n) (wanting hash b) out → r ∈ requests b →
  (r_Hash r = wire_of hash ∧ r_ArrivedAt r = 0 ∧ ∃ area n, (area, arrive now n r) ∈ out ∧ close_with out r = arrive now n r) ∨
  (¬ (r_Hash r = wire_of hash ∧ r_ArrivedAt r = 0) ∧ close_with out r = r).
Proof.
  intros Hn Ho Hf Hr. destruct (decide (r_Hash r = wire_of hash ∧ r_ArrivedAt r = 0)) as [[H1 H2]|Hnot].
  - left. split; [done|]. split; [done|]. assert (Hw : r ∈ wanting hash b) by (by apply wanting_elem).
    apply list_elem_of_lookup in Hw as [i Hi]. destruct (Forall2_lookup_l _ _ _ _ _ Hf Hi) as ([area y] & Hy & a & n & _ & E & _). cbn in E. subst y.
    exists area, n. assert (Hin : (area, arrive now n r) ∈ out) by (by eapply list_elem_of_lookup_2). split; [done|].
    unfold close_with. erewrite (find_by_key (λ y : FileRequest, r_ID y.2) out); [|exact Ho|exact Hin|done]. done.
  - right. split; [done|]. apply close_with_other. intros ([area y] & E & Hy)%list_elem_of_fmap. cbn in E.
    apply list_elem_of_lookup in Hy as [i Hi]. destruct (Forall2_lookup_r _ _ _ _ _ Hf Hi) as (x & Hx & a & n & _ & E' & _). cbn in E'. subst y.
    apply Hnot. apply list_elem_of_lookup_2, wanting_elem in Hx as (Hxr & Hxh). by rewrite (NoDup_key_inj r_ID Z.ltb (requests b) r x Hn Hr Hxr E).
Qed.

Lemma request_step_ok b b' : request_step b b' → queue_ok b → queue_ok b'.
Proof.
  intros Hs [Hok Hq]. pose proof Hq as (Hgood & Hkey & Hid & Hlast & Hmax).
  destruct Hs as [b b' Hs Er El|now area name h holder nick b|now h s b Hh Hsz|now ids b|i nick b].
  - split; [by eapply file_step_ok|]. apply (requests_ok_map b b' (λ r, r)); [by rewrite list_fmap_id|done|by apply file_step_areas|done|done].
  - pose proof (RequestFile_spec now area name h holder nick b) as H. destruct (RequestFile _ _ _ _ _ _ b) as [[x|e] b']; cbn [snd]; [|by destruct H as [-> _]].
    destruct H as (a & Ha & (Hv & Hne & Hz & _ & _ & Hlt)%check_request_Ok & _ & Hnew & ->). split; [by eapply file_step_ok; [apply step_requests|]|].
    destruct Hok as (Hao & _). destruct (GetFileArea_Ok _ _ _ Hao Ha) as (Hin & Hk & _). unfold requests_ok. cbn [requests last_request with_requests].
    rewrite !fmap_app. split; [|split; [|split; [|split]]].
    + apply Forall_app. split; [exact Hgood|]. constructor; [|constructor]. split; [done|]. split; [apply TrimSpace_idem|]. split; [done|]. split; [|done].
      by exists (ar_Name a), a.
    + by apply NoDup_snoc.
    + apply NoDup_snoc; [done|]. intros (r & E & Hr)%list_elem_of_fmap. rewrite Forall_forall in Hlast. specialize (Hlast r Hr). cbn in E. lia.
    + apply Forall_app. split; [eapply Forall_impl; [exact Hlast|]; cbn; lia|]. constructor; [cbn; lia|constructor].
    + intros nick'. rewrite open_of_snoc, length_app. destruct (decide (nocase nick' = nocase (TrimSpace nick))) as [E|E].
      * rewrite !(open_of_nocase nick' (TrimSpace nick)) by done.
        match goal with |- context [open_of (TrimSpace nick) [?r]] => pose proof (open_of_one (TrimSpace nick) r) end. lia.
      * unfold open_of at 2. rewrite filter_cons_False; [cbn; specialize (Hmax nick'); lia|]. unfold asked_by. rewrite bool_decide_eq_true. cbn. naive_solver.
  - pose proof (SatisfyFileRequests_spec now h s b Hh Hsz (conj Hok Hq)) as H. destruct (SatisfyFileRequests now h s b) as [out b']; cbn [snd].
    destruct H as (Hf & Hg & Hok' & Er & El & _ & Ho). split; [done|]. apply (requests_ok_map b b' (close_with out)); [done|done|intros a Ha; exists a; by rewrite (proj1 Hg)| |done].
    intros r Hr. destruct (close_with_spec now h b b' out r Hid Ho Hf Hr) as [(_ & Hz & area & n & _ & ->)|[_ ->]]; by cbn.
  - split; [by eapply file_step_ok; [apply step_requests|]|]. eapply (requests_ok_map b); [done|done|naive_solver| |done].
    intros r _. cbn beta. destruct (bool_decide (r_ID r ∈ ids) && Arrived r) eqn:E; [|naive_solver]. cbn. do 5 (split; [done|]). intros H0. unfold Arrived in E. rewrite H0 in E. by rewrite andb_false_r in E.
  - unfold CancelFileRequest. destruct (existsb _ (requests b)); [|done]. cbn [snd]. split; [by eapply file_step_ok; [apply step_requests|]|].
    unfold requests_ok. cbn [requests last_request with_requests]. set (P := λ r : Request, _ = false).
    assert (Hsub : filter P (requests b) `sublist_of` requests b) by apply sublist_filter.
    split; [|split; [|split; [|split]]].
    + by apply Forall_kept.
    + eapply sublist_NoDup; [exact Hkey|]. by apply fmap_sublist.
    + eapply sublist_NoDup; [exact Hid|]. by apply fmap_sublist.
    + by apply Forall_kept.
    + intros nick'. etrans; [|apply (Hmax nick')]. apply Nat2Z.inj_le. unfold open_of. rewrite list_filter_filter.
      rewrite <- (list_fmap_id (requests b)) at 1. apply filter_fmap_length. by intros r _ [? _].
Qed.

Lemma new_queue_ok : queue_ok new_board.
Proof.
  split; [apply new_store_ok|]. unfold requests_ok. cbn. split; [constructor|]. split; [by apply NoDup_nil_2|]. split; [by apply NoDup_nil_2|].
  split; [constructor|]. intros nick. by vm_compute.
Qed.

Lemma queue_reachable b : rtc request_step new_board b → queue_ok b.
Proof. intros Hs. pose proof new_queue_ok as H. revert Hs H. generalize new_board. intros b0 Hs. induction Hs; eauto using request_step_ok. Qed.

(** ** What a carrier is to ask for *)

Lemma least_in l : l ≠ [] → least l ∈ l.
Proof.
  destruct l as [|x l]; [done|]. intros _. cbn. revert x. induction l as [|y l IH]; intros x; cbn; [left|].
  destruct (Z.min_spec y (foldr Z.min x l)) as [[_ ->]|[_ ->]]; [right; left|]. specialize (IH x). set_solver.
Qed.

Lemma asked_since_inj l h h' : NoDup (r_ID <$> l) → h ∈ r_Hash <$> l → h' ∈ r_Hash <$> l → asked_since l h = asked_since l h' → h = h'.
Proof.
  intros Hn Hh Hh' [= _ E]. set (g := λ h, filter (λ r, r_Hash r = h) l) in *.
  assert (Hin : ∀ h, h ∈ r_Hash <$> l → ∃ r, r ∈ l ∧ r_Hash r = h ∧ r_ID r = least (r_ID <$> g h)).
  { intros k (r & -> & Hr)%list_elem_of_fmap. assert (Hg : r ∈ g (r_Hash r)) by (by apply list_elem_of_filter).
    assert (Hne : r_ID <$> g (r_Hash r) ≠ []) by (intros E'%fmap_nil_inv; rewrite E' in Hg; by apply elem_of_nil in Hg).
    apply least_in, list_elem_of_fmap in Hne as (x & Ex & [Hx Hxl]%list_elem_of_filter). by exists x. }
  destruct (Hin h Hh) as (r & Hr & <- & Er), (Hin h' Hh') as (r' & Hr' & <- & Er'). unfold g in *.
  by rewrite (NoDup_key_inj r_ID Z.ltb l r r' Hn Hr Hr' (eq_trans Er (eq_trans E (eq_sym Er')))).
Qed.

(** All there is to ask for, the longest asked for first. *)
Definition open_hashes (b : Board) : list (arr 16) :=
  sort_by (asked_since (open_requests b)) (less_pair Z.ltb Z.ltb) (remove_dups (r_Hash <$> open_requests b)).

Lemma open_hashes_spec b : NoDup (r_ID <$> requests b) →
  NoDup (open_hashes b) ∧ (∀ h, h ∈ open_hashes b ↔ ∃ r, r ∈ requests b ∧ r_Hash r = h ∧ r_ArrivedAt r = 0) ∧
  StronglySorted (lt_key (asked_since (open_requests b)) (less_pair Z.ltb Z.ltb)) (open_hashes b).
Proof.
  intros Hn. assert (Hno : NoDup (r_ID <$> open_requests b)) by (eapply sublist_NoDup; [exact Hn|]; apply fmap_sublist, sublist_filter).
  assert (Hel : ∀ h, h ∈ open_hashes b ↔ h ∈ r_Hash <$> open_requests b).
  { intros h. unfold open_hashes. by rewrite sort_by_elem, elem_of_remove_dups. }
  split; [|split].
  - unfold open_hashes. rewrite sort_by_Permutation. apply NoDup_remove_dups.
  - intros h. rewrite Hel, list_elem_of_fmap. unfold open_requests. setoid_rewrite list_elem_of_filter. naive_solver.
  - apply sort_by_strict. apply (NoDup_fmap_by (λ h, h)); [rewrite list_fmap_id; apply NoDup_remove_dups|].
    intros h h'. rewrite !elem_of_remove_dups. by apply asked_since_inj.
Qed.

(** In every reachable state the queue of files asked for is in order. Nobody has more
    than sixteen files on request, however the nick is capitalised, and no two rows are
    one person asking for the same content in the same area; each names a file area and
    a name a file can have there. A request is taken exactly when the area, the name,
    the nick and the hash are good, this board holds neither the content nor a file of
    that name, fewer than sixteen are open and it is not there already; it is then
    added, open, and otherwise nothing changes. A carrier is told to ask for the first
    so many of the open requests' contents, each once, the longest asked for first. *)
Theorem requests_sound b : rtc request_step new_board b →
  Forall (request_good b) (requests b) ∧ NoDup (request_key <$> requests b) ∧
  (∀ nick, Z.of_nat (length (open_of nick (requests b))) ≤ MaxOpenFileRequests) ∧
  (∀ now area name h holder nick, match RequestFile now area name h holder nick b with
     | (Ok (an, r), b') => ∃ a, GetFileArea area b = Ok a ∧ an = ar_Name a ∧ requests b' = requests b ++ [r] ∧ files b' = files b ∧
         r_ArrivedAt r = 0 ∧ request_key r = (ar_ID a, h, nocase (TrimSpace nick)) ∧ r_Name r = TrimSpace name
     | (Err _, b') => b' = b
     end) ∧
  (∀ now area name h holder nick, is_ok (RequestFile now area name h holder nick b).1 = true ↔
     ∃ a, GetFileArea area b = Ok a ∧ ValidateFileName (TrimSpace name) = Ok tt ∧ TrimSpace nick ≠ [] ∧ h ≠ zero_arr 16 ∧
       (∀ k f, catalog b !! k = Some f → take 16 (vec_to_list (f_Hash f)) ≠ vec_to_list h) ∧ catalog b !! (ar_ID a, TrimSpace name) = None ∧
       Z.of_nat (length (open_of (TrimSpace nick) (requests b))) < MaxOpenFileRequests ∧
       (ar_ID a, h, nocase (TrimSpace nick)) ∉ request_key <$> requests b) ∧
  (∀ limit, OpenFileRequestHashes limit b = take (Z.to_nat limit) (open_hashes b)) ∧
  NoDup (open_hashes b) ∧ (∀ h, h ∈ open_hashes b ↔ ∃ r, r ∈ requests b ∧ r_Hash r = h ∧ r_ArrivedAt r = 0) ∧
  StronglySorted (lt_key (asked_since (open_requests b)) (less_pair Z.ltb Z.ltb)) (open_hashes b).
Proof.
  intros Hr. destruct (queue_reachable b Hr) as [(Ha & Hl & Hok) (Hgood & Hkey & Hid & Hlast & Hmax)].
  do 3 (split; [done|]). split; [|split; [|split; [|by apply open_hashes_spec]]].
  - intros now area name h holder nick. pose proof (RequestFile_spec now area name h holder nick b) as H.
    destruct (RequestFile _ _ _ _ _ _ b) as [[[an r]|e] b']; [|by destruct H]. destruct H as (a & H1 & _ & [= -> ->] & _ & ->). by exists a.
  - intros now area name h holder nick. pose proof (RequestFile_spec now area name h holder nick b) as H.
    assert (Hiff : ∀ a, GetFileArea area b = Ok a → check_request a (TrimSpace name) h (TrimSpace nick) b = Ok tt ↔
      ValidateFileName (TrimSpace name) = Ok tt ∧ TrimSpace nick ≠ [] ∧ h ≠ zero_arr 16 ∧
      (∀ k f, catalog b !! k = Some f → take 16 (vec_to_list (f_Hash f)) ≠ vec_to_list h) ∧ catalog b !! (ar_ID a, TrimSpace name) = None ∧
      Z.of_nat (length (open_of (TrimSpace nick) (requests b))) < MaxOpenFileRequests).
    { intros a Hga. destruct (GetFileArea_Ok _ _ _ Ha Hga) as (Hin & Hk & _).
      rewrite check_request_Ok, GetFile_catalog, (GetFileArea_self b a), TrimSpace_idem by done. cbn [mbind result_bind].
      rewrite <- not_true_iff_false, HoldsBlob_spec by done. rewrite length_vec_to_list.
      assert (Hv : vec_to_list h ≠ []) by (intros E%(f_equal length); by rewrite length_vec_to_list in E).
      destruct (catalog b !! (ar_ID a, TrimSpace name)); naive_solver. }
    destruct (RequestFile _ _ _ _ _ _ b) as [[x|e] b']; cbn.
    + destruct H as (a & H1 & H2 & _ & H3 & _). split; [|done]. intros _. exists a. split; [done|]. apply Hiff in H2; [|done]. naive_solver.
    + split; [done|]. intros (a & H1 & H2). destruct H as [_ H]. exfalso. apply H. exists a. split; [done|]. rewrite Hiff by done. naive_solver.
  - intros limit. unfold OpenFileRequestHashes. fold (open_hashes b). destruct (Z.leb_spec limit 0); [|done]. by rewrite Z2Nat.nonpos.
Qed.

Lemma told_elem b nick x : areas_ok b → requests_ok b → TrimSpace nick ≠ [] →
  x ∈ UnnotifiedFileRequests nick b ↔
  x.2 ∈ requests b ∧ asked_by (TrimSpace nick) x.2 = true ∧ r_ArrivedAt x.2 ≠ 0 ∧ r_NotifiedAt x.2 = 0 ∧ ∃ a, area_of b x.1 x.2 a.
Proof.
  intros Ha Hq Hn. unfold UnnotifiedFileRequests. rewrite bool_decide_false by done. rewrite scanned_elem; [|done|done|].
  - unfold by_age. rewrite sort_by_elem, list_elem_of_filter. naive_solver.
  - intros r. unfold by_age. rewrite sort_by_elem, list_elem_of_filter. naive_solver.
Qed.

Lemma area_of_name b x y r a a' : areas_ok b → area_of b x r a → area_of b y r a' → x = y.
Proof.
  intros (_ & _ & _ & Hi & _) (Hin & E & _ & <-) (Hin' & E' & _ & <-). f_equal. apply (NoDup_key_inj ar_ID Z.ltb (areas b)); [done..|]. by rewrite E, E'.
Qed.

(** The requests after an arrival: those it closed, and the rest as they were. *)
Lemma after_arrival b now hash size : queue_ok b → hash ≠ zero_arr 32 → 0 ≤ size →
  let '(out, b') := SatisfyFileRequests now hash size b in
  ∀ r', r' ∈ requests b' ↔ (∃ area, (area, r') ∈ out) ∨ (r' ∈ requests b ∧ ¬ (r_Hash r' = wire_of hash ∧ r_ArrivedAt r' = 0)).
Proof using HD HS.
  intros Hq Hh Hs. pose proof (SatisfyFileRequests_spec now hash size b Hh Hs Hq) as H. destruct (SatisfyFileRequests now hash size b) as [out b'].
  destruct H as (Hf & _ & _ & Er & _ & _ & Ho). pose proof Hq as (_ & _ & _ & Hid & _).
  intros r'. rewrite Er, list_elem_of_fmap. split.
  - intros (r & -> & Hr). destruct (close_with_spec now hash b b' out r Hid Ho Hf Hr) as [(H1 & H2 & area & n & Hin & ->)|[Hnot ->]]; [left; by exists area|by right].
  - intros [[area Hin]|[Hr Hnot]].
    + apply list_elem_of_lookup in Hin as [i Hi]. destruct (Forall2_lookup_r _ _ _ _ _ Hf Hi) as (r & Hr%list_elem_of_lookup_2%wanting_elem & a & n & _ & E & _).
      cbn in E. subst r'. destruct Hr as (Hr & Hw). exists r. split; [|done].
      destruct (close_with_spec now hash b b' out r Hid Ho Hf Hr) as [(_ & _ & area' & n' & Hin' & ->)|[Hnot _]]; [|done].
      apply list_elem_of_lookup_2 in Hi. exact (f_equal snd (NoDup_key_inj (λ y : FileRequest, r_ID y.2) Z.ltb out _ _ Ho Hi Hin' eq_refl)).
    + exists r'. split; [|done]. destruct (close_with_spec now hash b b' out r' Hid Ho Hf Hr) as [(H1 & H2 & _)|[_ ->]]; [by destruct Hnot|done].
Qed.

(** Telling a person changes no notice of another. *)
Lemma told_apart later nick other b : queue_ok b → TrimSpace nick ≠ [] → nocase (TrimSpace other) ≠ nocase (TrimSpace nick) →
  UnnotifiedFileRequests other (MarkFileRequestsNotified later ((λ x : FileRequest, r_ID x.2) <$> UnnotifiedFileRequests nick b) b) = UnnotifiedFileRequests other b.
Proof.
  intros [(Ha & _) Hq] Hn Hne. unfold UnnotifiedFileRequests at 1 3. destruct (bool_decide _); [done|]. cbn [requests MarkFileRequestsNotified with_requests]. f_equal. f_equal.
  apply filter_fmap_same. intros r Hr. cbn beta. destruct (bool_decide_reflect (r_ID r ∈ (λ x : FileRequest, r_ID x.2) <$> UnnotifiedFileRequests nick b)) as [Hin|]; [|by left].
  destruct (Arrived r); [|by left]. right. apply list_elem_of_fmap in Hin as (x & E & (Hx & Hby & _)%told_elem); [|done..].
  assert (x.2 = r) as <- by (destruct Hq as (_ & _ & Hid & _); by apply (NoDup_key_inj r_ID Z.ltb (requests b))).
  assert (Hno : asked_by (TrimSpace other) x.2 = false) by (unfold asked_by in *; apply bool_decide_eq_true in Hby; apply bool_decide_eq_false; congruence).
  cbn [andb]. change (asked_by (TrimSpace other) (notify later x.2)) with (asked_by (TrimSpace other) x.2). rewrite Hno. by split; intros (? & _).
Qed.

Lemma told_all later nick b : queue_ok b → later ≠ 0 →
  UnnotifiedFileRequests nick (MarkFileRequestsNotified later ((λ x : FileRequest, r_ID x.2) <$> UnnotifiedFileRequests nick b) b) = [].
Proof using HD HS.
  intros Hq Hl. destruct (decide (TrimSpace nick = [])) as [E|Hn]; [unfold UnnotifiedFileRequests; by rewrite bool_decide_true|].
  set (ids := _ <$> _). set (b2 := MarkFileRequestsNotified later ids b). assert (Hq2 : queue_ok b2) by (eapply request_step_ok; [apply ask_mark|done]).
  destruct (UnnotifiedFileRequests nick b2) as [|x l] eqn:E; [done|]. exfalso. assert (Hx : x ∈ UnnotifiedFileRequests nick b2) by (rewrite E; left).
  destruct Hq2 as [(Ha2 & _) Hr2], Hq as [(Ha & _) Hr]. apply told_elem in Hx as (Hx & Hby & Harr & Hnot & a & Hao); [|done..].
  cbn [requests b2 MarkFileRequestsNotified with_requests] in Hx. apply list_elem_of_fmap in Hx as (r & Ex & Hin).
  destruct (bool_decide_reflect (r_ID r ∈ ids)) as [Hid|Hid]; cbn [andb] in Ex.
  - destruct (Arrived r) eqn:Hz; [by rewrite Ex in Hnot|]. unfold Arrived in Hz. apply negb_false_iff, Z.eqb_eq in Hz. by rewrite Ex in Harr.
  - subst r. apply Hid, list_elem_of_fmap. exists x. split; [done|]. apply told_elem; [done..|]. split; [done|]. split; [done|]. split; [done|]. split; [done|]. by exists a.
Qed.

(** C16: an arrival answers exactly who asked, and each is told once. The content a carrier
    brings closes every open request for it and no other, in the order they were made;
    each then finds under the name it was asked for either this content, or a note that
    a different file has the name, which is so; nothing else in the catalog changes but
    by gaining this content. No carrier is told to ask for it again. Who asked is told
    exactly of these beside what they had not been told before; once told of all, they
    are told of nothing more, and nobody else's notices change. *)
Theorem arrival_settles b now hash size : rtc request_step new_board b → hash ≠ zero_arr 32 → 0 ≤ size → now ≠ 0 →
  let '(out, b') := SatisfyFileRequests now hash size b in
  Forall2 (λ r y, ∃ a n, area_of b y.1 r a ∧ y.2 = arrive now n r ∧ settled hash b' a (r_Name r) n) (wanting hash b) out ∧
  gains hash b b' ∧
  (∀ r', r' ∈ requests b' ↔ (∃ area, (area, r') ∈ out) ∨ (r' ∈ requests b ∧ ¬ (r_Hash r' = wire_of hash ∧ r_ArrivedAt r' = 0))) ∧
  (∀ limit, wire_of hash ∉ OpenFileRequestHashes limit b') ∧
  (∀ nick x, TrimSpace nick ≠ [] → x ∈ UnnotifiedFileRequests nick b' ↔
     x ∈ UnnotifiedFileRequests nick b ∨ (x ∈ out ∧ asked_by (TrimSpace nick) x.2 = true)) ∧
  (∀ nick later, later ≠ 0 → let b2 := MarkFileRequestsNotified later ((λ x : FileRequest, r_ID x.2) <$> UnnotifiedFileRequests nick b') b' in
     UnnotifiedFileRequests nick b2 = [] ∧
     ∀ other, nocase (TrimSpace other) ≠ nocase (TrimSpace nick) → UnnotifiedFileRequests other b2 = UnnotifiedFileRequests other b').
Proof.
  intros Hr Hh Hs Hnow. pose proof (queue_reachable b Hr) as Hq.
  pose proof (SatisfyFileRequests_spec now hash size b Hh Hs Hq) as H. pose proof (after_arrival b now hash size Hq Hh Hs) as Hafter.
  pose proof (request_step_ok _ _ (ask_arrive now hash size b Hh Hs) Hq) as Hq'.
  destruct (SatisfyFileRequests now hash size b) as [out b']. cbn [snd] in Hq'. destruct H as (Hf & Hg & Hok' & _ & _ & _ & Ho).
  assert (Hout : ∀ area r', (area, r') ∈ out → r_ArrivedAt r' = now ∧ r_NotifiedAt r' = 0 ∧ ∃ a, area_of b area r' a).
  { intros area r' (i & Hi)%list_elem_of_lookup. destruct (Forall2_lookup_r _ _ _ _ _ Hf Hi) as (r & Hw%list_elem_of_lookup_2%wanting_elem & a & n & Hao & E & _).
    cbn in E, Hao. subst r'. destruct Hw as (Hin & _ & Hz). destruct Hq as (_ & Hgood & _). rewrite Forall_forall in Hgood. destruct (Hgood r Hin) as (_ & _ & _ & _ & Hzn).
    split; [done|]. split; [by apply Hzn|]. by exists a. }
  assert (Harea : ∀ x r a, area_of b' x r a ↔ area_of b x r a) by (intros; unfold area_of; by rewrite (proj1 Hg)).
  split; [done|]. split; [done|]. split; [done|]. split; [|split].
  - intros limit Hin. unfold OpenFileRequestHashes in Hin. destruct (limit <=? 0); [by apply elem_of_nil in Hin|].
    assert (Hin' : wire_of hash ∈ open_hashes b') by (eapply elem_of_take in Hin as (i & Hi & _); by eapply list_elem_of_lookup_2).
    apply open_hashes_spec in Hin' as (r & Hr' & Eh & Ez); [|by destruct Hq' as (_ & _ & _ & ? & _)].
    apply Hafter in Hr' as [[area Hin']|[_ Hnot]]; [|by apply Hnot]. destruct (Hout _ _ Hin') as [E _]. congruence.
  - intros nick x Hn. destruct Hq as [(Ha & _) Hqr], Hq' as [(Ha' & _) Hqr']. rewrite !told_elem by done. rewrite Hafter. setoid_rewrite Harea. destruct x as [area r]. cbn [fst snd]. split.
    + intros ([[area' Hin]|[Hin _]] & H1 & H2 & H3 & a & H4); [right|left; eauto 10].
      destruct (Hout _ _ Hin) as (_ & _ & a' & Hao). by rewrite (area_of_name b area area' r a a').
    + intros [(H1 & H2 & H3 & H4)|[Hin H2]]; [naive_solver|]. destruct (Hout _ _ Hin) as (E1 & E2 & a & Hao). rewrite E1. eauto 10.
  - intros nick later Hlater. cbv zeta. split; [by apply told_all|]. intros other Hne. destruct (decide (TrimSpace nick = [])) as [E|Hn]; [|by apply told_apart].
    unfold UnnotifiedFileRequests at 2. rewrite bool_decide_true by done. unfold MarkFileRequestsNotified. cbn.
    unfold UnnotifiedFileRequests. destruct (bool_decide (TrimSpace other = [])); [done|]. cbn. by rewrite list_fmap_id.
Qed.
End facts.
