(* ===== verification/Service.v ===== *)
(** * What a session does (internal/bbs/bbs.go)

    The service behind every way in: minting a record of this node's own, handing it to
    the federation, and posting. The federation is the interface [Publisher]; without
    one, a board has none. What the code reports through [OnPublishError] is kept. The
    time is seconds. Mail is in [Mail]. *)

From stdpp Require Import strings relations.
From S2P Require Import Prelude Binary Identity Order Text GoStrings.
From S2P Require Import Records RecordLog.
From S2P Require VersionVector GossipStore.
From S2P Require Import Board Areas.

(** [Publish(area, recs)]: the new state of the federation, and its error. *)
Class Publisher (P E : Type) := Publish : P → AreaTag → list Rec → P * option E.

(** A service: its board, the federation if there is one, and what was reported. *)
Inductive stage := Rereading | Building | Storing | Linking.
Inductive report (E : Type) := PublishFailed (e : E) | CatalogFailed (at_ : stage) (name : bytes) (e : board_error).
Arguments PublishFailed {E} _.
Arguments CatalogFailed {E} _ _ _.
Record Service (P E : Type) := mkService { board : Board; publisher : option P; reports : list (report E) }.
Arguments mkService {P E} _ _ _.
Arguments board {P E} _.
Arguments publisher {P E} _.
Arguments reports {P E} _.

(** [strings.TrimRight(text, "\n")]. *)
Fixpoint drop_newlines (s : bytes) : bytes :=
  match s with c :: s' => if bool_decide (c = Byte.x0a) then drop_newlines s' else s | [] => [] end.
Definition TrimRight_newlines (s : bytes) : bytes := reverse (drop_newlines (reverse s)).

Section service.
Context {P E : Type} `{HB : Blake3, HE : Ed25519, HD : SqlDriver, HP : !Publisher P E} (key : NodeKey).

Definition with_board (b : Board) (s : Service P E) : Service P E := mkService b (publisher s) (reports s).
Definition tell (r : report E) (s : Service P E) : Service P E := mkService (board s) (publisher s) (reports s ++ [r]).

(** A failure of the federation is reported, and does not undo the write. *)
Definition publish (area : AreaTag) (r : Rec) (s : Service P E) : Service P E :=
  match publisher s with
  | None => s
  | Some p =>
      let '(p, e) := Publish p area [r] in
      let s := mkService (board s) (Some p) (reports s) in
      match e with Some e => tell (PublishFailed e) s | None => s end
  end.

(** The number is spent before the record exists. *)
Definition newRecord (now : Z) (typ : byte) (area : AreaTag) (body : bytes) (b : Board) : result board_error Rec * Board :=
  match NextSeq area (log b) with
  | (Err e, l) => (Err (NotLogged e), with_log l b)
  | (Ok seq, l) =>
      (wrap_err NotBuilt (New key (mkFields (NodeKey_ID key) seq (u32 now) typ area zero_record_id body)), with_log l b)
  end.

(** [PutRecord] on the board's log. *)
Definition put (now : Z) (r : Rec) (b : Board) : option board_error * Board :=
  let '(e, l) := PutRecord now r (log b) in (NotLogged <$> e, with_log l b).

Definition may_post (author : bytes) (a : AreaInfo) (b : Board) : result board_error unit :=
  _ ← require (negb (ar_ReadOnly a)) (ReadOnlyArea (ar_Name a));
  if ar_Federated a then
    ok ← HasCapability author CapPostFederated b;
    require ok (NotPermitted (ar_Name a))
  else Ok tt.

Definition post_body (author areaName subject text : bytes) (b : Board) : result board_error (AreaInfo * bytes) :=
  a ← GetArea areaName b;
  _ ← may_post author a b;
  let text := TrimRight_newlines text in
  _ ← require (negb (bool_decide (TrimSpace text = []))) EmptyPost;
  body ← MarshalPostBody (mkPostBody author subject text);
  Ok (a, body).

Definition Post (now : Z) (author areaName subject text : bytes) (s : Service P E) : result board_error ID * Service P E :=
  match post_body author areaName subject text (board s) with
  | Err e => (Err e, s)
  | Ok (a, body) =>
      let '(r, b) := newRecord now TypePost (ar_Tag a) body (board s) in
      let s := with_board b s in
      match r with
      | Err e => (Err e, s)
      | Ok rec =>
          match put now rec (board s) with
          | (Some e, b) => (Err e, with_board b s)
          | (None, b) =>
              let s := with_board (IndexPost (id rec) author subject b) s in
              (Ok (id rec), if ar_Federated a then publish (ar_Tag a) rec s else s)
          end
      end
  end.
End service.

(** ** What minting leaves *)

Section mint.
Context `{HB : Blake3, HE : Ed25519, HD : SqlDriver} (key : NodeKey).

Definition self : NodeID := NodeKey_ID key.

(** The marks cover this node's own records, as the check at start makes sure. *)
Definition own_ok (db : Db) : Prop :=
  log_ok db ∧ ∀ w, w ∈ rows db → Origin (columns w) = self → Seq (columns w) ≤ AreaHighWater (Area (columns w)) db.

(** What the driver is documented to accept, and what every key has. *)
Definition driver_limit : Prop := ∀ z, binds z = true → z < 2 ^ 63.
Definition key_named : Prop := self ≠ zero_id.

(** The fields a new record of this node's gets. *)
Definition own_fields (now seq : Z) (typ : byte) (area : AreaTag) (body : bytes) : Fields :=
  mkFields self seq (u32 now) typ area zero_record_id body.

(** The body fits the type. *)
Definition body_ok (typ : byte) (body : bytes) : Prop :=
  Type_Valid typ = true ∧ strlen body ≤ MaxBodyLen ∧
  (typ = TypeFile → ∃ f, FileBody.UnmarshalFileBody body = Ok f) ∧
  (typ = TypeDoorEvent → ∃ d, DoorEvent.UnmarshalDoorEventBody body = Ok d).

Lemma New_own now seq typ area body :
  key_named →
  (is_ok (New key (own_fields now seq typ area body)) = true ↔ body_ok typ body) ∧
  (∀ r, New key (own_fields now seq typ area body) = Ok r → fields r = own_fields now seq typ area body).
Proof.
  intros Hk. assert (Hz : IsZero self = false) by (by apply bool_decide_eq_false).
  split.
  - unfold New. cbn [Origin own_fields]. rewrite Hz. cbn [Origin own_fields]. rewrite bool_decide_true by done. cbn [require mbind result_bind].
    unfold canonicalBytes, checkNoFileContent, checkDoorEventBody, body_ok. cbn [Type_ Body Origin own_fields]. rewrite Hz.
    destruct (Type_Valid typ); cbn [require mbind result_bind is_ok]; [|split; [done|by intros (? & _)]].
    destruct (Z.leb_spec (strlen body) MaxBodyLen); cbn [require mbind result_bind is_ok negb]; [|split; [done|intros (_ & ? & _); lia]].
    destruct (decide (typ ≠ TypeFile)) as [Hf|Hf]; destruct (decide (typ ≠ TypeDoorEvent)) as [Hd|Hd]; cbn [mbind result_bind].
    + split; [|done]. intros _. split_and!; done.
    + destruct (DoorEvent.UnmarshalDoorEventBody body) as [d|e]; cbn; split; try done.
      * intros _. split_and!; [done|done|done|by eexists].
      * intros (_ & _ & _ & Hx). apply dec_stable in Hd. destruct (Hx Hd). done.
    + destruct (FileBody.UnmarshalFileBody body) as [d|e]; cbn; split; try done.
      * intros _. split_and!; [done|done|by eexists|done].
      * intros (_ & _ & Hx & _). apply dec_stable in Hf. destruct (Hx Hf). done.
    + apply dec_stable in Hf. apply dec_stable in Hd. subst. done.
  - intros r (Hf & _)%New_Ok. cbn [Origin own_fields] in Hf. by rewrite Hz in Hf.
Qed.

Lemma own_ok_next area db : own_ok db → let '(r, db') := NextSeq area db in own_ok db' ∧ rows db' = rows db.
Proof.
  intros [Hok Hown]. pose proof (NextSeq_spec area db) as Hs. pose proof (step_log_ok _ _ (step_next area db) Hok) as Hok'.
  destruct (NextSeq area db) as [r db']. destruct Hs as (Hr & _ & _ & Hm & _). split; [|done]. split; [exact Hok'|].
  intros w Hw Ho. rewrite Hr in Hw. specialize (Hown w Hw Ho). rewrite Hm. destruct (decide _); lia.
Qed.

(** [newRecord]: the record if the number can be stored and the body fits; the number
    is spent in any case. *)
Lemma newRecord_spec now typ area body b :
  own_ok (log b) → key_named → driver_limit →
  let next := AreaHighWater area (log b) + 1 in
  let '(r, b') := newRecord key now typ area body b in
  (∃ l, b' = with_log l b) ∧ own_ok (log b') ∧ rows (log b') = rows (log b) ∧ nodes (log b') = nodes (log b) ∧
  (is_ok r = true ↔ binds next = true ∧ body_ok typ body) ∧
  (∀ a, AreaHighWater a (log b') = AreaHighWater a (log b) + if decide (area = a ∧ binds next = true) then 1 else 0) ∧
  ∀ rec, r = Ok rec → wf_rec rec ∧ New key (own_fields now next typ area body) = Ok rec ∧ fields rec = own_fields now next typ area body.
Proof.
  intros Hown Hk Hd. cbv zeta. unfold newRecord. pose proof (own_ok_next area (log b) Hown) as Ho. pose proof (NextSeq_spec area (log b)) as Hs.
  unfold NextSeq in *. cbv zeta in *. set (next := AreaHighWater area (log b) + 1) in *. destruct (binds next) eqn:Hb.
  - destruct Ho as [Ho Hr]. destruct Hs as (_ & Hn & _ & Hm & _). cbn [log with_log]. fold (own_fields now next typ area body).
    destruct (New_own now next typ area body Hk) as [Hiff Hf]. split; [by eexists|]. split_and!; [done|done|done| | |].
    + rewrite <- Hiff. destruct (New key _); cbn; naive_solver.
    + intros a. rewrite Hm. done.
    + intros rec. destruct (New key _) as [rec'|] eqn:E; cbn; [|done]. intros [= ->]. split_and!; [|done|by apply Hf].
      eapply New_wf; [| |exact E]; cbn [Seq TS own_fields].
      * destruct Hown as [(_ & _ & _ & _ & _ & _ & Hpos) _]. specialize (Hpos area). specialize (Hd _ Hb). unfold next in *. unfold is_u64. lia.
      * apply Z.mod_pos_bound; lia.
  - cbn [log with_log is_ok]. destruct b; cbn in *. split; [by eexists|]. split_and!; try done; [by split; [|intros [? _]]|].
    intros a. rewrite decide_False by (by intros [_ ?]). lia.
Qed.

(** Putting what was just minted never fails on its coordinate. *)
Lemma put_own now n rec b :
  own_ok (log b) → wf_rec rec → Origin (fields rec) = self → Body (fields rec) ≠ [] → binds (Seq (fields rec)) = true →
  (∀ w, w ∈ rows (log b) → Origin (columns w) = self → Area (columns w) = Area (fields rec) → Seq (columns w) < Seq (fields rec)) →
  Seq (fields rec) ≤ AreaHighWater (Area (fields rec)) (log b) → n = record_local_seq (log b) + 1 →
  let '(e, b') := put now rec b in
  e = None ∧ (∃ l, b' = with_log l b) ∧ own_ok (log b') ∧ nodes (log b') = nodes (log b) ∧
  (∀ a, AreaHighWater a (log b') = AreaHighWater a (log b)) ∧
  rows (log b') = rows (log b) ++ if HasRecord (id rec) (log b) then [] else [row_of now n rec].
Proof.
  intros [Hok Hown] Hwf Ho Hbody Hb Hfree Hle ->. unfold put. pose proof (PutRecord_spec now rec (log b)) as Hs.
  pose proof (step_log_ok _ _ (step_put now rec (log b) Hwf) Hok) as Hok'.
  destruct (PutRecord now rec (log b)) as [[e|] l].
  - exfalso. destruct Hs as (-> & _ & Hst & _). apply Hst. split_and!; [done| |by intros [? _]].
    intros (w & Hw & Hc). unfold coord in Hc. injection Hc as Hwo Hwa Hws. specialize (Hfree w Hw). rewrite Hwo, Hwa, Hws in Hfree. specialize (Hfree Ho eq_refl). lia.
  - cbn [fmap option_fmap option_map log with_log]. split; [done|]. split; [by eexists|].
    destruct Hs as [[Hh ->]|(Hh & _ & ->)]; rewrite Hh.
    + rewrite app_nil_r. done.
    + split_and!; [|done|done|done]. split; [done|]. intros w [Hw| ->%list_elem_of_singleton]%elem_of_app Hwo; [by apply Hown|exact Hle].
Qed.
End mint.

(** ** Posting *)

Section posting.
Context {P E : Type} `{HB : Blake3, HE : Ed25519, HD : SqlDriver, HP : !Publisher P E} (key : NodeKey).

Lemma with_log_twice (l l' : Db) b : with_log l (with_log l' b) = with_log l b.
Proof. done. Qed.

(** What a new record becomes once it is stored: the whole of a successful write. *)
Lemma mint_spec now typ area body b :
  own_ok key (log b) → key_named key → driver_limit → body ≠ [] →
  let next := AreaHighWater area (log b) + 1 in
  let '(r, b1) := newRecord key now typ area body b in
  match r with
  | Err _ => ¬ (binds next = true ∧ body_ok typ body) ∧ ∃ l, b1 = with_log l b ∧ own_ok key l ∧ rows l = rows (log b) ∧ nodes l = nodes (log b) ∧
        (∀ a, AreaHighWater a l = AreaHighWater a (log b) + if decide (area = a ∧ binds next = true) then 1 else 0)
  | Ok rec => binds next = true ∧ body_ok typ body ∧
      New key (own_fields key now next typ area body) = Ok rec ∧ fields rec = own_fields key now next typ area body ∧ wf_rec rec ∧
      ∃ l, put now rec b1 = (None, with_log l b) ∧ own_ok key l ∧ nodes l = nodes (log b) ∧
        (∀ a, AreaHighWater a l = AreaHighWater a (log b) + if decide (area = a) then 1 else 0) ∧
        rows l = rows (log b) ++ if HasRecord (id rec) (log b) then [] else [row_of now (record_local_seq (log b) + 1) rec]
  end.
Proof.
  intros Hown Hk Hd Hne. cbv zeta. pose proof (newRecord_spec key now typ area body b Hown Hk Hd) as Hs. cbv zeta in Hs.
  assert (Hls : record_local_seq (log (newRecord key now typ area body b).2) = record_local_seq (log b)).
  { unfold newRecord. pose proof (NextSeq_spec area (log b)) as Hn. destruct (NextSeq area (log b)) as [[n|e] l]; by destruct Hn as (_ & _ & Hn & _). }
  assert (Hin : ∀ w, w ∈ rows (log b) → Origin (columns w) = self key → Area (columns w) = area → Seq (columns w) ≤ AreaHighWater area (log b)).
  { intros w Hw Ho <-. by apply (proj2 Hown). }
  destruct (newRecord key now typ area body b) as [r b1]. destruct Hs as ([l ->] & Ho & Hr & Hnd & Hiff & Hm & Hrec). cbn [snd log with_log] in *.
  destruct r as [rec|e]; cbn [is_ok] in Hiff; cycle 1.
  { split; [intros H; by apply Hiff in H|]. by exists l. }
  destruct (proj1 Hiff eq_refl) as [Hb Hbody]. destruct (Hrec rec eq_refl) as (Hwf & Hnew & Hf). split_and!; [exact Hb|exact Hbody|exact Hnew|exact Hf|exact Hwf|].
  assert (Hm' : ∀ a, AreaHighWater a l = AreaHighWater a (log b) + if decide (area = a) then 1 else 0).
  { intros a. rewrite Hm. f_equal. destruct (decide (area = a)) as [->|]; [rewrite decide_True by done|rewrite decide_False by naive_solver]; done. }
  pose proof (put_own key now (record_local_seq l + 1) rec (with_log l b)) as Hp. cbn [log with_log] in Hp.
  assert (Hh : HasRecord (id rec) l = HasRecord (id rec) (log b)) by (unfold HasRecord; by rewrite Hr).
  rewrite Hf in Hp. cbn [Origin Area Seq Body own_fields] in Hp. rewrite Hr, Hls, Hh, Hnd in Hp.
  destruct (put now rec (with_log l b)) as [e' b2]. destruct Hp as (-> & [l2 ->] & Ho2 & Hn2 & Hm2 & Hr2); [done|done|done|done|exact Hb| | |done|].
  - intros w Hw Hwo Hwa. specialize (Hin w Hw Hwo Hwa). lia.
  - rewrite Hm', decide_True by done. lia.
  - cbn [log with_log] in *. exists l2. rewrite with_log_twice. split_and!; [done|exact Ho2|exact Hn2| |exact Hr2]. intros a. by rewrite Hm2, Hm'.
Qed.

Lemma body_ok_post p : body_ok TypePost (post_wire p) ↔ 2 + strlen (pb_Author p) + strlen (pb_Subject p) + strlen (pb_Text p) ≤ MaxBodyLen.
Proof.
  assert (Hl : strlen (post_wire p) = 2 + strlen (pb_Author p) + strlen (pb_Subject p) + strlen (pb_Text p)).
  { unfold post_wire, strlen. rewrite length_cons, length_app, length_cons, length_app. lia. }
  unfold body_ok. rewrite Hl. split; [by intros (_ & ? & _)|]. intros. split_and!; done.
Qed.

(** Who may post where, and what. *)
Definition can_post (author areaName subject text : bytes) (b : Board) (a : AreaInfo) : Prop :=
  GetArea areaName b = Ok a ∧ ar_ReadOnly a = false ∧ (ar_Federated a = true → HasCapability author CapPostFederated b = Ok true) ∧
  TrimSpace text ≠ [] ∧ strlen author ≤ 16 ∧ strlen subject ≤ 72.

Lemma may_post_Ok author a b :
  may_post author a b = Ok tt ↔ ar_ReadOnly a = false ∧ (ar_Federated a = true → HasCapability author CapPostFederated b = Ok true).
Proof.
  unfold may_post. rewrite bind_unit_Ok, require_Ok, negb_true_iff. destruct (ar_Federated a); [|naive_solver].
  destruct (HasCapability author CapPostFederated b) as [[]|e]; cbn; naive_solver.
Qed.

Lemma post_body_Ok author areaName subject text b a body :
  post_body author areaName subject text b = Ok (a, body) ↔
  can_post author areaName subject (TrimRight_newlines text) b a ∧ body = post_wire (mkPostBody author subject (TrimRight_newlines text)).
Proof.
  unfold post_body, can_post. destruct (GetArea areaName b) as [x|e]; cbn [mbind result_bind]; [|naive_solver].
  rewrite !bind_unit_Ok, require_Ok, may_post_Ok, negb_true_iff, bool_decide_eq_false.
  destruct (MarshalPostBody _) as [body'|e] eqn:Hm; cbn [mbind result_bind].
  - apply MarshalPostBody_Ok in Hm as (H1 & H2 & ->). cbn [pb_Author pb_Subject] in *. naive_solver.
  - split; [by intros (_ & _ & ?)|]. intros [([= ->] & _ & _ & _ & Ha & Hs) _]. exfalso.
    pose proof (proj2 (MarshalPostBody_Ok (mkPostBody author subject (TrimRight_newlines text)) _) (conj Ha (conj Hs eq_refl))). congruence.
Qed.

(** A post read back, from the log of this board or of any other that got the record. *)
Lemma post_of_wire b area w rec p now next tag :
  row_rec w = rec → fields rec = own_fields key now next TypePost tag (post_wire p) →
  strlen (pb_Author p) ≤ 16 → strlen (pb_Subject p) ≤ 72 →
  (post_authors b !! id rec = None ∨ post_authors b !! id rec = Some (pb_Author p, pb_Subject p)) →
  let q := post_of b area w in
  p_ID q = id rec ∧ p_Area q = area ∧ p_Author q = pb_Author p ∧ p_Subject q = pb_Subject p ∧ p_Body q = pb_Text p ∧ p_TS q = u32 now.
Proof.
  intros <- Hf Ha Hs Hx. cbn [row_rec fields id] in *. cbv zeta. unfold post_of. rewrite Hf. cbn [Body TS own_fields].
  rewrite Unmarshal_post_wire by lia.
  destruct Hx as [->| ->]; cbn [default from_option p_ID p_Area p_Author p_Subject p_Body p_TS fst snd pb_Author pb_Subject pb_Text].
  - rewrite !bool_decide_true by done. done.
  - split_and!; try done; cbn; case_bool_decide; congruence.
Qed.

Lemma IndexPost_same i author subject b :
  log (IndexPost i author subject b) = log b ∧
  (post_authors b !! i = None → post_authors (IndexPost i author subject b) !! i = Some (author, subject)).
Proof. unfold IndexPost. destruct (post_authors b !! i); [done|]. split; [done|]. intros _. cbn. by rewrite lookup_insert_eq. Qed.

Lemma publish_board area r s : board (publish area r s) = board s.
Proof. unfold publish. destruct (publisher s) as [p|]; [|done]. by destruct (Publish p area [r]) as [p' [e|]]. Qed.

(** C12: what posting does. A post is taken exactly when the forum exists and is not
    read-only, the author holds the capability if the area is federated, the text is not
    blank, author, subject and the whole fit their limits, and the area's next number
    can be stored. It is then one more record of this node's in the log, at that number,
    signed by the node's key, and reads the same here and on every board that gets it;
    it goes to the federation exactly when the area does, and a failure there does not
    undo it. A post refused leaves no record, no index entry and nothing published; a
    number may be spent. *)
Theorem Post_decides now author areaName subject text s :
  own_ok key (log (board s)) → key_named key → valid_key key → driver_limit →
  let '(r, s') := Post key now author areaName subject text s in
  let b := board s in
  let p := mkPostBody author subject (TrimRight_newlines text) in
  (is_ok r = true ↔ ∃ a, can_post author areaName subject (pb_Text p) b a ∧
     2 + strlen author + strlen subject + strlen (pb_Text p) ≤ MaxBodyLen ∧ binds (AreaHighWater (ar_Tag a) (log b) + 1) = true) ∧
  own_ok key (log (board s')) ∧
  match r with
  | Err _ => (∃ l, board s' = with_log l b ∧ rows l = rows (log b) ∧ nodes l = nodes (log b)) ∧ publisher s' = publisher s ∧ reports s' = reports s
  | Ok i => ∃ a rec, GetArea areaName b = Ok a ∧ id rec = i ∧
      fields rec = own_fields key now (AreaHighWater (ar_Tag a) (log b) + 1) TypePost (ar_Tag a) (post_wire p) ∧ Verify rec (Public key) = Ok tt ∧
      rows (log (board s')) = rows (log b) ++ (if HasRecord i (log b) then [] else [row_of now (record_local_seq (log b) + 1) rec]) ∧
      AreaHighWater (ar_Tag a) (log (board s')) = AreaHighWater (ar_Tag a) (log b) + 1 ∧
      (∀ b2 w, row_rec w = rec → (post_authors b2 !! i = None ∨ b2 = board s' ∧ post_authors b !! i = None) →
         let q := post_of b2 (ar_Name a) w in p_ID q = i ∧ p_Author q = author ∧ p_Subject q = subject ∧ p_Body q = pb_Text p ∧ p_TS q = u32 now) ∧
      (if ar_Federated a then ∃ s1, publisher s1 = publisher s ∧ reports s1 = reports s ∧ s' = publish (ar_Tag a) rec s1
       else publisher s' = publisher s ∧ reports s' = reports s)
  end.
Proof.
  intros Hown Hk Hv Hd. unfold Post. set (p := mkPostBody author subject (TrimRight_newlines text)).
  destruct (post_body author areaName subject text (board s)) as [[a body]|e] eqn:Hpb; cycle 1.
  { cbn [is_ok]. split; [|split; [done|split; [by exists (log (board s)); destruct (board s)|done]]]. split; [done|]. intros (a & Hc & _).
    pose proof (proj2 (post_body_Ok author areaName subject text (board s) a _) (conj Hc eq_refl)). congruence. }
  apply post_body_Ok in Hpb as [Hc ->]. fold p. pose proof Hc as (Hg & Hro & Hcap & Hne & Ha & Hs).
  assert (Huniq : ∀ a', can_post author areaName subject (pb_Text p) (board s) a' → a' = a) by (intros a' (Hg' & _); congruence).
  pose proof (mint_spec now TypePost (ar_Tag a) (post_wire p) (board s) Hown Hk Hd ltac:(done)) as Hmint. cbv zeta in Hmint.
  destruct (newRecord key now TypePost (ar_Tag a) (post_wire p) (board s)) as [[rec|e] b1]; cycle 1.
  { destruct Hmint as (Hno & l & -> & Hol & Hrl & Hnl & _). cbn [is_ok board with_board publisher reports]. split; [|split; [exact Hol|split; [by exists l|done]]].
    split; [done|]. intros (a' & ->%Huniq & Hlen & Hb). exfalso. apply Hno. split; [exact Hb|by apply body_ok_post]. }
  destruct Hmint as (Hb & Hbody & Hnew & Hf & Hwf & l & Hput & Hol & Hnl & Hml & Hrl). cbn [board with_board]. rewrite Hput.
  set (b2 := IndexPost (id rec) author subject (with_log l (board s))). set (s1 := with_board b2 (with_board b1 s)).
  assert (Hb2 : log b2 = l) by apply IndexPost_same.
  assert (Hs' : board (if ar_Federated a then publish (ar_Tag a) rec s1 else s1) = b2) by (destruct (ar_Federated a); [by rewrite publish_board|done]).
  cbn [is_ok]. rewrite Hs', Hb2. split_and!; [|exact Hol|].
  { split; [|done]. intros _. exists a. split_and!; [exact Hc|by apply (body_ok_post p)|exact Hb]. }
  exists a, rec. split_and!; [done|done|exact Hf|by eapply New_Verify|exact Hrl| | |].
  - rewrite Hml, decide_True by done. done.
  - intros bb w Hw Hi. destruct (post_of_wire bb (ar_Name a) w rec p now _ _ Hw Hf Ha Hs) as (H1 & H2 & H3 & H4 & H5 & H6); [|done].
    destruct Hi as [Hi|[-> Hi]]; [by left|right]. by apply IndexPost_same.
  - destruct (ar_Federated a); [by exists s1|done].
Qed.

(** What posting does to the log: nothing, a number spent, or one record put. *)
Lemma Post_log now author areaName subject text s :
  own_ok key (log (board s)) → key_named key → driver_limit →
  let l := log (board (Post key now author areaName subject text s).2) in
  own_ok key l ∧ (∀ a, AreaHighWater a (log (board s)) ≤ AreaHighWater a l) ∧
  ∀ w, w ∈ rows l → w ∈ rows (log (board s)) ∨ Seq (columns w) = AreaHighWater (Area (columns w)) (log (board s)) + 1.
Proof.
  intros Hown Hk Hd. cbv zeta. unfold Post. destruct (post_body author areaName subject text (board s)) as [[a body]|e] eqn:Hpb; [|split; [exact Hown|split; [done|auto]]].
  apply post_body_Ok in Hpb as [_ ->]. set (p := mkPostBody author subject (TrimRight_newlines text)).
  pose proof (mint_spec now TypePost (ar_Tag a) (post_wire p) (board s) Hown Hk Hd ltac:(done)) as Hmint.
  cbv zeta in Hmint. destruct (newRecord _ _ _ _ _ _) as [[rec|e] b1].
  - destruct Hmint as (_ & _ & _ & Hf & _ & l & Hput & Hol & _ & Hml & Hrl). cbn [board with_board]. rewrite Hput.
    set (s1 := with_board _ _). assert (Hl : log (board (if ar_Federated a then publish (ar_Tag a) rec s1 else s1)) = l).
    { destruct (ar_Federated a); [rewrite publish_board|]; unfold s1; cbn [board with_board]; apply IndexPost_same. }
    cbn [snd]. rewrite Hl. split; [exact Hol|]. split; [intros t; rewrite Hml; destruct (decide _); lia|].
    intros w Hw. rewrite Hrl in Hw. apply elem_of_app in Hw as [Hw|Hw]; [by left|right].
    destruct (HasRecord _ _); [by apply not_elem_of_nil in Hw|]. apply list_elem_of_singleton in Hw as ->. cbn [columns row_of]. by rewrite Hf.
  - destruct Hmint as (_ & l & -> & Ho & Hr & _ & Hm). cbn [snd board with_board log with_log]. split; [exact Ho|].
    split; [intros t; rewrite Hm; destruct (decide _); lia|]. rewrite Hr. auto.
Qed.

(** ** A number burned *)

Lemma AreaHighWater_nonneg tag db : own_ok key db → 0 ≤ AreaHighWater tag db.
Proof. intros [(_ & _ & _ & _ & _ & _ & Hpos) _]. apply Hpos. Qed.

(** The number [n] of an area was spent, and no record of this node's carries it. *)
Definition burned (tag : AreaTag) (n : Z) (db : Db) : Prop :=
  own_ok key db ∧ n ≤ AreaHighWater tag db ∧
  ∀ w, w ∈ rows db → Origin (columns w) = self key → Area (columns w) = tag → Seq (columns w) ≠ n.

Lemma Post_keeps_burned tag n now author areaName subject text s :
  key_named key → driver_limit → burned tag n (log (board s)) → burned tag n (log (board (Post key now author areaName subject text s).2)).
Proof.
  intros Hk Hd (Hown & Hle & Hfree). pose proof (Post_log now author areaName subject text s Hown Hk Hd) as Hp. cbv zeta in Hp.
  destruct Hp as (Ho & Hm & Hr). split; [exact Ho|]. specialize (Hm tag). split; [lia|].
  intros w [Hw|Hs]%Hr Hwo Hwa; [by apply Hfree|]. rewrite Hs, Hwa. lia.
Qed.

Inductive post_step : Service P E → Service P E → Prop :=
| step_post now author areaName subject text s : post_step s (Post key now author areaName subject text s).2.

(** A post too long for a record spends the area's next number all the same, and none of
    the node's records will ever carry it: from then on the vector this node answers
    with, which stops at the first gap, never covers any later post of its own there. *)
Lemma burned_number_stalls now author areaName subject text s s2 a g :
  own_ok key (log (board s)) → key_named key → driver_limit →
  let p := mkPostBody author subject (TrimRight_newlines text) in
  let next := AreaHighWater (ar_Tag a) (log (board s)) + 1 in
  can_post author areaName subject (pb_Text p) (board s) a → binds next = true →
  MaxBodyLen < 2 + strlen author + strlen subject + strlen (pb_Text p) →
  rtc post_step (Post key now author areaName subject text s).2 s2 → GossipStore.st g = log (board s2) →
  is_ok (Post key now author areaName subject text s).1 = false ∧ VersionVector.Get (GossipStore.Vector_ g (ar_Tag a)) (self key) < next.
Proof.
  intros Hown Hk Hd. cbv zeta. intros Hc Hb Hlong Hsteps Hg. cbn [pb_Text] in *.
  assert (Hnow : is_ok (Post key now author areaName subject text s).1 = false ∧
    burned (ar_Tag a) (AreaHighWater (ar_Tag a) (log (board s)) + 1) (log (board (Post key now author areaName subject text s).2))).
  { unfold Post. pose proof (proj2 (post_body_Ok author areaName subject text (board s) a _) (conj Hc eq_refl)) as ->.
    set (p := mkPostBody author subject (TrimRight_newlines text)) in *.
    pose proof (mint_spec now TypePost (ar_Tag a) (post_wire p) (board s) Hown Hk Hd ltac:(done)) as Hmint. cbv zeta in Hmint.
    destruct (newRecord _ _ _ _ _ _) as [[rec|e] b1].
    - destruct Hmint as (_ & Hbody & _). apply body_ok_post in Hbody. cbn [pb_Author pb_Subject pb_Text p] in Hbody. lia.
    - destruct Hmint as (_ & l & -> & Ho & Hr & _ & Hm). split; [done|]. cbn [snd board with_board log with_log]. split; [exact Ho|]. rewrite Hm, Hr, decide_True by done.
      split; [lia|]. intros w Hw Hwo <-. pose proof (proj2 Hown w Hw Hwo). lia. }
  destruct Hnow as [Hno Hnow]. split; [done|].
  assert (Hend : burned (ar_Tag a) (AreaHighWater (ar_Tag a) (log (board s)) + 1) (log (board s2))).
  { clear Hno. revert Hnow. induction Hsteps as [|x y z Hxy _ IH]; [done|]. intros Hx. apply IH; [done|]. destruct Hxy. by apply Post_keeps_burned. }
  destruct Hend as ((Hok & _) & _ & Hfree). rewrite <- Hg in *.
  destruct (GossipStore.Vector_contiguous g (ar_Tag a) (self key) Hok) as (_ & Hin & _).
  apply Z.nle_gt. intros Hle. destruct (Hin _ ltac:(split; [|exact Hle]; pose proof (AreaHighWater_nonneg (ar_Tag a) (log (board s)) Hown); lia)) as (w & (Hw & Ha & _)%GossipStore.elem_of_replicated & Ho & Hs).
  by apply (Hfree w).
Qed.
End posting.
