(* ===== verification/FileService.v ===== *)
(** * Files of the network (internal/bbs/bbs.go)

    Adding a file and describing it, through the service: the local catalog first, and
    in a federated area a FILE record of this node's after it, whose failures are
    reported and fail nothing. *)

From stdpp Require Import strings relations.
From S2P Require Import Prelude Binary Identity Order Text GoStrings.
From S2P Require Import Bodies FileBody Records RecordLog.
From S2P Require GossipStore DoorEvent.
From S2P Require Import Board Areas Files FilesFacts FileRequestsFacts Service.

Section service.
Context {P E : Type} `{HB : Blake3, HE : Ed25519, HD : SqlDriver, HP : !Publisher P E} (key : NodeKey).

Definition checkFederatedUpload (area : AreaInfo) (uploader : bytes) (b : Board) : result board_error unit :=
  if negb (ar_Federated area) || bool_decide (uploader = []) then Ok tt
  else
    ok ← HasCapability uploader CapPostFederated b;
    require ok (NotPermitted (ar_Name area)).

Definition may_upload (area : AreaInfo) (uploader : bytes) (b : Board) : result board_error unit :=
  _ ← require (negb (ar_ReadOnly area)) (ReadOnlyArea (ar_Name area));
  checkFederatedUpload area uploader b.

Definition CanUploadTo (areaName uploader : bytes) (b : Board) : result board_error unit :=
  area ← GetFileArea areaName b;
  may_upload area uploader b.

(** The entry the network is told of. *)
Definition file_body (f : File) (hash : arr 16) : FileBody :=
  FileBody.mkFileBody (fl_Name f) (u64 (fl_Size f)) hash (fl_Description f) [].

Definition newFileRecord (now : Z) (area : AreaInfo) (f : File) (b : Board) : result board_error Rec * Board :=
  match TruncateFileHash (vec_to_list (fl_Hash f)) with
  | Err e => (Err (NotBuilt (BodyRefused e)), b)
  | Ok hash =>
      match NextSeq (ar_Tag area) (log b) with
      | (Err e, l) => (Err (NotLogged e), with_log l b)
      | (Ok seq, l) => (wrap_err NotBuilt (NewFileRecord key seq (u32 now) (ar_Tag area) (file_body f hash)), with_log l b)
      end
  end.

(** The part both operations share: the record's ID, if it was announced. *)
Definition announce_file (now : Z) (area : AreaInfo) (name : bytes) (f : File) (s : Service P E) : option ID * Service P E :=
  let '(r, b) := newFileRecord now area f (board s) in
  let s := with_board b s in
  match r with
  | Err e => (None, tell (CatalogFailed Building name e) s)
  | Ok rec =>
      match put now rec (board s) with
      | (Some e, b) => (None, tell (CatalogFailed Storing name e) (with_board b s))
      | (None, b) =>
          match SetFileRecord (fl_ID f) (id rec) b with
          | (Some e, b) => (None, tell (CatalogFailed Linking name e) (with_board b s))
          | (None, b) => (Some (id rec), publish (ar_Tag area) rec (with_board b s))
          end
      end
  end.

Definition with_record (i : ID) (f : File) : File :=
  mkFile (fl_ID f) (fl_Area f) (fl_Name f) (fl_Hash f) (fl_Size f) (fl_Description f) (fl_Uploader f) (fl_UploadedAt f) i.

Definition AddFile (now : Z) (areaName : bytes) (f : File) (s : Service P E) : result board_error File * Service P E :=
  match area ← GetFileArea areaName (board s); _ ← may_upload area (fl_Uploader f) (board s); Ok area with
  | Err e => (Err e, s)
  | Ok area =>
      match PutFile now (ar_Name area) f (board s) with
      | (Err e, b) => (Err e, with_board b s)
      | (Ok saved, b) =>
          let s := with_board b s in
          if negb (ar_Federated area) then (Ok saved, s)
          else match announce_file now area (fl_Name saved) saved s with
          | (Some i, s) => (Ok (with_record i saved), s)
          | (None, s) => (Ok saved, s)
          end
      end
  end.

Definition DescribeFile (now : Z) (areaName name text actor : bytes) (s : Service P E) : result board_error unit * Service P E :=
  match GetFileArea areaName (board s) with
  | Err e => (Err e, s)
  | Ok area =>
      match SetFileDescription now (ar_Name area) name text actor (board s) with
      | (Err e, b) => (Err e, with_board b s)
      | (Ok _, b) =>
          let s := with_board b s in
          if negb (ar_Federated area) then (Ok tt, s)
          else match GetFile (ar_Name area) name (board s) with
          | Err e => (Ok tt, tell (CatalogFailed Rereading name e) s)
          | Ok f => (Ok tt, (announce_file now area name f s).2)
          end
      end
  end.
End service.

Section facts.
Context {P E : Type} `{HB : Blake3, HE : Ed25519, HD : SqlDriver, HS : SqlSum, HP : !Publisher P E} (key : NodeKey).

Lemma may_upload_Ok a uploader b :
  may_upload a uploader b = Ok tt ↔
  ar_ReadOnly a = false ∧ (ar_Federated a = true → uploader ≠ [] → HasCapability uploader CapPostFederated b = Ok true).
Proof.
  unfold may_upload, checkFederatedUpload. rewrite bind_unit_Ok, require_Ok, negb_true_iff. destruct (ar_Federated a); cbn [negb orb]; [|naive_solver].
  case_bool_decide; [naive_solver|]. destruct (HasCapability uploader CapPostFederated b) as [[]|e]; cbn; naive_solver.
Qed.

(** A full hash is always long enough. *)
Definition wire_hash (h : arr 32) : arr 16 := arr_of 16 (take 16 (vec_to_list h)).
Lemma Truncate_full (h : arr 32) : TruncateFileHash (vec_to_list h) = Ok (wire_hash h).
Proof. unfold TruncateFileHash. rewrite decide_False by (rewrite length_vec_to_list; unfold FileHashLen; lia). done. Qed.

Definition entry (f : File) : FileBody := file_body f (wire_hash (fl_Hash f)).

Lemma newFileRecord_eq now area f b :
  match MarshalFileBody (entry f) with
  | Ok body => newFileRecord key now area f b = newRecord key now TypeFile (ar_Tag area) body b
  | Err e => ∃ e', newFileRecord key now area f b = (Err e', with_log (NextSeq (ar_Tag area) (log b)).2 b)
  end.
Proof.
  unfold newFileRecord. rewrite Truncate_full. unfold NewFileRecord. fold (entry f). unfold newRecord.
  destruct (MarshalFileBody (entry f)) as [body|e]; destruct (NextSeq (ar_Tag area) (log b)) as [[seq|e'] l]; cbn; [done..|by eexists|by eexists].
Qed.

Lemma body_ok_file f body : MarshalFileBody (entry f) = Ok body → body ≠ [] ∧ body_ok TypeFile body.
Proof.
  intros Hm. assert (Hs : is_u64 (FileBody.Size (entry f))) by apply u64_is_u64. pose proof (MarshalFileBody_bound _ _ Hs Hm) as Hb.
  split; [intros ->; unfold strlen in Hb; cbn in Hb; lia|]. split_and!; [done|unfold MaxBodyLen; lia| |done]. intros _. exists (entry f). by apply UnmarshalFileBody_spec.
Qed.

Lemma with_log_grows l b : log_ok (log b) → files_ok b → (∀ w, w ∈ rows (log b) → w ∈ rows l) → files_ok (with_log l b) ∧ catalog (with_log l b) = catalog b.
Proof.
  intros Hl Hf Hr. split; [|done]. apply (files_ok_grows b); [done|done|done|naive_solver| |done].
  intros i. rewrite !HasRecord_true. intros (w & Hw & E'). exists w. split; [by apply Hr|done].
Qed.

(** Announcing succeeds if the entry can be written and the number stored; else the
    number may be spent, and the failure is reported. *)
Lemma announce_file_spec now area name f s row :
  own_ok key (log (board s)) → key_named key → driver_limit → files_ok (board s) → row ∈ files (board s) → f_ID row = fl_ID f →
  let next := AreaHighWater (ar_Tag area) (log (board s)) + 1 in
  let '(o, s') := announce_file key now area name f s in
  (is_Some o ↔ binds next = true ∧ valid_file (entry f)) ∧
  match o with
  | None => ∃ l e, s' = tell (CatalogFailed Building name e) (with_board (with_log l (board s)) s) ∧ own_ok key l ∧ rows l = rows (log (board s))
  | Some i => ∃ rec l, i = id rec ∧ fields rec = own_fields key now next TypeFile (ar_Tag area) (file_wire (entry f)) ∧ wf_rec rec ∧
      New key (fields rec) = Ok rec ∧ own_ok key l ∧
      rows l = rows (log (board s)) ++ (if HasRecord i (log (board s)) then [] else [row_of now (record_local_seq (log (board s)) + 1) rec]) ∧
      let b' := update_file (f_ID row) (record_row i) (with_log l (board s)) in
      files_ok b' ∧ catalog b' = <[file_key row := record_row i row]> (catalog (board s)) ∧
      s' = publish (ar_Tag area) rec (with_board b' s)
  end.
Proof.
  intros Hown Hk Hd Hok Hrow Hid. cbv zeta. unfold announce_file. pose proof (newFileRecord_eq now area f (board s)) as Heq.
  destruct (MarshalFileBody (entry f)) as [body|e] eqn:Hm; cycle 1.
  { destruct Heq as [e' ->]. cbn [board with_board]. pose proof (own_ok_next key (ar_Tag area) (log (board s)) Hown) as Ho.
    destruct (NextSeq (ar_Tag area) (log (board s))) as [q l]. destruct Ho as [Ho Hr]. split; [|by exists l, e'].
    split; [by intros [? [=]]|]. intros [_ Hv]. pose proof (proj2 (MarshalFileBody_Ok _ _) (conj Hv eq_refl)). congruence. }
  rewrite Heq. destruct (body_ok_file f body Hm) as [Hne Hbody]. apply MarshalFileBody_Ok in Hm as [Hv ->].
  pose proof (mint_spec key now TypeFile (ar_Tag area) (file_wire (entry f)) (board s) Hown Hk Hd Hne) as Hmint. cbv zeta in Hmint.
  destruct (newRecord key now TypeFile (ar_Tag area) (file_wire (entry f)) (board s)) as [[rec|e] b1]; cycle 1.
  { destruct Hmint as (Hno & l & -> & Hol & Hrl & _). split; [split; [by intros [? [=]]|]; intros [Hb _]; by destruct Hno|]. by exists l, e. }
  destruct Hmint as (Hb & _ & Hnew & Hf & Hwf & l & Hput & Hol & _ & _ & Hrl). cbn [board with_board]. rewrite Hput.
  assert (Hgrow : ∀ w, w ∈ rows (log (board s)) → w ∈ rows l) by (intros w Hw; rewrite Hrl; set_solver).
  destruct (with_log_grows l (board s) (proj1 Hown) Hok Hgrow) as [Hok1 Hcat1].
  assert (Hhas : HasRecord (id rec) l = true).
  { apply HasRecord_true. destruct (HasRecord (id rec) (log (board s))) eqn:Eh.
    - apply HasRecord_true in Eh as (w & Hw & E'). exists w. split; [by apply Hgrow|done].
    - exists (row_of now (record_local_seq (log (board s)) + 1) rec). split; [rewrite Hrl; set_solver|done]. }
  pose proof (SetFileRecord_spec (fl_ID f) (id rec) (with_log l (board s)) Hok1) as Hset. unfold SetFileRecord in *. cbn [log with_log files] in *.
  rewrite Hhas, andb_false_r in *. destruct Hset as (Hok2 & _ & _ & Hcat2). split; [split; [done|by eexists]|].
  exists rec, l. split; [done|]. split; [exact Hf|]. split; [done|]. split; [by rewrite Hf|]. split; [done|]. split; [exact Hrl|]. cbv zeta. rewrite Hid.
  split; [done|]. split; [|done]. rewrite (Hcat2 row Hrow Hid), Hcat1. done.
Qed.

(** What an announcement in the log says of a row: the file's own entry, by this node. *)
Definition announces (db : Db) (now : Z) (area : AreaInfo) (size : Z) (row : FileRow) (rec : Rec) : Prop :=
  id rec = f_Record row ∧ Origin (fields rec) = self key ∧ Area (fields rec) = ar_Tag area ∧ TS (fields rec) = u32 now ∧ Verify rec (Public key) = Ok tt ∧
  (∃ w, w ∈ rows db ∧ row_id w = id rec) ∧
  VerifyFileRecord rec (Public key) = Ok (FileBody.mkFileBody (f_Name row) (u64 size) (wire_hash (f_Hash row)) (f_Description row) []).

Lemma announced_entry now area f row seq rec db :
  valid_key key → fields rec = own_fields key now seq TypeFile (ar_Tag area) (file_wire (entry f)) → wf_rec rec → New key (fields rec) = Ok rec → valid_file (entry f) →
  (∃ w, w ∈ rows db ∧ row_id w = id rec) →
  f_Name row = fl_Name f → f_Hash row = fl_Hash f → f_Description row = fl_Description f → f_Record row = id rec →
  announces db now area (fl_Size f) row rec.
Proof.
  intros Hk Hf Hwf Hnew Hv Hw E1 E2 E3 E4. unfold announces. rewrite E1, E2, E3, E4, Hf. cbn [Origin Area TS own_fields].
  split; [done|]. split; [done|]. split; [done|]. split; [done|]. split; [by eapply New_Verify|]. split; [done|].
  unfold VerifyFileRecord. eapply (VerifyWith_New key seq (u32 now) TypeFile (ar_Tag area)); [done|rewrite <- Hnew, Hf; done|].
  apply UnmarshalFileBody_spec. split; [apply u64_is_u64|]. by apply MarshalFileBody_Ok.
Qed.

(** What both operations come to, once the catalog has the row: [s] before announcing
    and [s'] after, [row] the entry as it is then. *)
Definition announced_as (now : Z) (area : AreaInfo) (name : bytes) (f : File) (old row : FileRow) (s s' : Service P E) : Prop :=
  let next := AreaHighWater (ar_Tag area) (log (board s)) + 1 in
  (binds next = true ∧ valid_file (entry f) ∧ ∃ rec b, row = record_row (id rec) old ∧ announces (log b) now area (fl_Size f) row rec ∧
     (∀ w, w ∈ rows (log b) ↔ w ∈ rows (log (board s)) ∨ w = row_of now (record_local_seq (log (board s)) + 1) rec ∧ HasRecord (id rec) (log (board s)) = false) ∧
     s' = publish (ar_Tag area) rec (with_board b s)) ∨
  (¬ (binds next = true ∧ valid_file (entry f)) ∧ row = old ∧ rows (log (board s')) = rows (log (board s)) ∧ publisher s' = publisher s ∧
     ∃ e, reports s' = reports s ++ [CatalogFailed Building name e]).

Lemma announce_file_settles now area name f s old :
  store_ok (board s) → own_ok key (log (board s)) → key_named key → valid_key key → driver_limit → old ∈ files (board s) → f_ID old = fl_ID f →
  f_Name old = fl_Name f → f_Hash old = fl_Hash f → f_Description old = fl_Description f →
  let '(o, s') := announce_file key now area name f s in
  store_ok (board s') ∧ own_ok key (log (board s')) ∧ areas (board s') = areas (board s) ∧
  ∃ row, announced_as now area name f old row s s' ∧ catalog (board s') = <[file_key old := row]> (catalog (board s)) ∧
    match o with Some i => f_Record row = i | None => row = old end.
Proof.
  intros (Ha & Hl & Hok) Hown Hk Hv Hd Hold Hid En Eh Ed. pose proof (announce_file_spec now area name f s old Hown Hk Hd Hok Hold Hid) as H.
  cbv zeta in H. destruct (announce_file key now area name f s) as [[i|] s']; destruct H as [Hiff H].
  - destruct H as (rec & l & -> & Hf & Hwf & Hnew & Hol & Hrl & Hok' & Hcat & ->). rewrite publish_board. cbn [board with_board].
    destruct (proj1 Hiff (ex_intro _ _ eq_refl)) as [Hb Hvf]. split; [split; [exact Ha|split; [apply Hol|exact Hok']]|]. split; [exact Hol|]. split; [done|].
    assert (Hrows : ∀ w, w ∈ rows l ↔ w ∈ rows (log (board s)) ∨ w = row_of now (record_local_seq (log (board s)) + 1) rec ∧ HasRecord (id rec) (log (board s)) = false).
    { intros w. rewrite Hrl, elem_of_app. destruct (HasRecord (id rec) (log (board s))); [rewrite elem_of_nil|rewrite list_elem_of_singleton]; naive_solver. }
    exists (record_row (id rec) old). split; [|done]. left. split; [done|]. split; [done|]. exists rec, (update_file (f_ID old) (record_row (id rec)) (with_log l (board s))). split; [done|]. split; [|split; [exact Hrows|done]].
    eapply announced_entry; [done|exact Hf|done|done|done| |done..]. cbn [log update_file with_files with_log].
    destruct (HasRecord (id rec) (log (board s))) eqn:Er.
    + apply HasRecord_true in Er as (w & Hw & E'). exists w. split; [by apply Hrows; left|done].
    + eexists. split; [apply Hrows; right; done|done].
  - destruct H as (l & e & -> & Hol & Hrl). cbn [board with_board tell publisher reports log with_log].
    destruct (with_log_grows l (board s) Hl Hok) as [Hok' Hcat]; [by rewrite Hrl|]. split; [split; [exact Ha|split; [apply Hol|exact Hok']]|].
    split; [exact Hol|]. split; [done|]. exists old. split; [|split; [|done]].
    + right. split; [intros Hno; apply Hiff in Hno; by destruct Hno|]. split; [done|]. split; [exact Hrl|]. split; [done|]. by exists e.
    + rewrite Hcat. symmetry. apply insert_id. by apply catalog_Some.
Qed.

Lemma put_ok_same a a' area area' f b : GetFileArea area b = Ok a → GetFileArea area' b = Ok a → put_ok area f b a' ↔ put_ok area' f b a'.
Proof. intros E1 E2. unfold put_ok. by rewrite E1, E2. Qed.

Lemma named_area areaName b a : areas_ok b → GetFileArea areaName b = Ok a → GetFileArea (ar_Name a) b = Ok a.
Proof. intros Ha H. destruct (GetFileArea_Ok _ _ _ Ha H) as (Hin & Hk & _). by apply GetFileArea_self. Qed.

(** What the area, the uploader and the catalog must be for a file to be taken. *)
Definition may_add (areaName : bytes) (f : File) (b : Board) (a : AreaInfo) : Prop :=
  put_ok areaName f b a ∧ ar_ReadOnly a = false ∧
  (ar_Federated a = true → fl_Uploader f ≠ [] → HasCapability (fl_Uploader f) CapPostFederated b = Ok true).

(** A file is refused exactly when some of this fails, and then nothing is changed. *)
Lemma AddFile_refuses now areaName f s : store_ok (board s) →
  match AddFile key now areaName f s with
  | (Ok _, _) => ∃ a, may_add areaName f (board s) a
  | (Err _, s') => s' = s ∧ ¬ ∃ a, may_add areaName f (board s) a
  end.
Proof.
  intros (Ha & Hl & Hok). unfold AddFile. destruct (GetFileArea areaName (board s)) as [a|e] eqn:Ea; cbn [mbind result_bind].
  2:{ split; [done|]. intros (a & (Hg & _) & _). congruence. }
  pose proof (named_area _ _ _ Ha Ea) as En. pose proof (may_upload_Ok a (fl_Uploader f) (board s)) as Hup.
  destruct (may_upload a (fl_Uploader f) (board s)) as [[]|e]; cbn [mbind result_bind].
  2:{ split; [done|]. intros (a' & (Hg & _) & Hm). assert (a' = a) as -> by congruence. apply Hup in Hm. done. }
  pose proof (PutFile_spec now (ar_Name a) f (board s) Ha Hok) as Hp. destruct (PutFile now (ar_Name a) f (board s)) as [[saved|e] b].
  - destruct Hp as (a' & Hput & _ & _). assert (a' = a) as -> by (destruct Hput as [Hg _]; congruence).
    assert (Hyes : ∃ a, may_add areaName f (board s) a) by (exists a; split; [by apply (put_ok_same a a areaName (ar_Name a))|by apply Hup]).
    destruct (negb (ar_Federated a)); [done|]. destruct (announce_file _ _ _ _ _ _) as [[]]; done.
  - destruct Hp as (-> & Hno & _). split; [by destruct s|]. intros (a' & Hput & _). apply Hno. exists a'. by apply (put_ok_same a a' areaName).
Qed.

(** A file taken: its row, and what became of announcing it. *)
Lemma AddFile_takes now areaName f s a :
  store_ok (board s) → own_ok key (log (board s)) → key_named key → valid_key key → driver_limit → may_add areaName f (board s) a →
  let '(r, s') := AddFile key now areaName f s in
  store_ok (board s') ∧ own_ok key (log (board s')) ∧
  ∃ saved row s1, r = Ok saved ∧ catalog (board s') = <[(ar_ID a, TrimSpace (fl_Name f)) := row]> (catalog (board s)) ∧
    f_Hash row = fl_Hash f ∧ f_Description row = fl_Description f ∧ f_Uploader row = fl_Uploader f ∧ fl_Record saved = f_Record row ∧
    log (board s1) = log (board s) ∧ publisher s1 = publisher s ∧ reports s1 = reports s ∧
    if ar_Federated a then announced_as now a (TrimSpace (fl_Name f)) (trim_name f) (new_row now a (trim_name f) (board s)) row s1 s' else s' = s1.
Proof.
  intros (Ha & Hl & Hok) Hown Hk Hv Hd ((Ea & Hrest) & Hup). pose proof (named_area _ _ _ Ha Ea) as En. unfold AddFile. rewrite Ea. cbn [mbind result_bind].
  rewrite (proj2 (may_upload_Ok a (fl_Uploader f) (board s)) Hup). cbn [mbind result_bind].
  assert (Hput : put_ok (ar_Name a) f (board s) a) by (by apply (put_ok_same a a areaName)).
  pose proof (PutFile_spec now (ar_Name a) f (board s) Ha Hok) as Hp. destruct (PutFile now (ar_Name a) f (board s)) as [[saved|e] b]; cycle 1.
  { destruct Hp as (_ & Hno & _). exfalso. apply Hno. by exists a. }
  destruct Hp as (a' & [Hg _] & -> & ->). assert (a' = a) as -> by congruence.
  destruct (put_row_ok now (ar_Name a) f (board s) a Hok Ha Hput) as [Hok1 Hcat1]. set (b1 := put_row now a (trim_name f) (board s)) in *.
  set (row0 := new_row now a (trim_name f) (board s)) in *. set (s1 := with_board b1 s). set (saved := mkFile _ _ _ _ _ _ _ _ _).
  assert (Hst1 : store_ok (board s1)) by done. assert (Hrow0 : row0 ∈ files (board s1)) by (cbn; apply elem_of_app; right; by left).
  destruct (ar_Federated a); cbn [negb]; [|split; [done|]; split; [done|]; by exists saved, row0, s1].
  pose proof (announce_file_settles now a (fl_Name saved) saved s1 row0 Hst1 Hown Hk Hv Hd Hrow0 eq_refl eq_refl eq_refl eq_refl) as Han.
  destruct (announce_file key now a (fl_Name saved) saved s1) as [o s2]. destruct Han as (Hst2 & Hown2 & _ & row & Has & Hcat2 & Ho).
  assert (Hcat : catalog (board s2) = <[(ar_ID a, TrimSpace (fl_Name f)) := row]> (catalog (board s))).
  { rewrite Hcat2. cbn [board with_board s1]. rewrite Hcat1. change (file_key row0) with (ar_ID a, TrimSpace (fl_Name f)). apply insert_insert_eq. }
  assert (Hrow : f_Hash row = fl_Hash f ∧ f_Description row = fl_Description f ∧ f_Uploader row = fl_Uploader f).
  { destruct Has as [(_ & _ & rec & b & -> & _)|(_ & -> & _)]; done. }
  destruct Hrow as (E1 & E2 & E3).
  destruct o as [i|]; (split; [done|]; split; [done|]); [exists (with_record i saved), row, s1|exists saved, row, s1]; (do 5 (split; [done|]); split; [by rewrite Ho|done]).
Qed.

(** C17: what adding a file does. It is taken exactly when the file area exists and is not
    read-only, the uploader, if there is one, holds the capability where the area is
    federated, and the catalog can take the file; a file refused changes nothing. A file
    taken is in the catalog, whatever becomes of telling the network. In a federated
    area whose next number can be stored and whose entry fits a FILE record, the log
    gains one record of this node's, signed by its key, that says of the file exactly
    what its row does; the row names it and the federation is handed it. Anything else
    adds no record and tells the federation nothing, and in a federated area is
    reported. *)
Theorem AddFile_decides now areaName f s :
  store_ok (board s) → own_ok key (log (board s)) → key_named key → valid_key key → driver_limit →
  let '(r, s') := AddFile key now areaName f s in
  (is_ok r = true ↔ ∃ a, put_ok areaName f (board s) a ∧ ar_ReadOnly a = false ∧
     (ar_Federated a = true → fl_Uploader f ≠ [] → HasCapability (fl_Uploader f) CapPostFederated (board s) = Ok true)) ∧
  store_ok (board s') ∧ own_ok key (log (board s')) ∧
  match r with
  | Err _ => s' = s
  | Ok saved => ∃ a row s1, GetFileArea areaName (board s) = Ok a ∧
      catalog (board s') = <[(ar_ID a, TrimSpace (fl_Name f)) := row]> (catalog (board s)) ∧
      f_Hash row = fl_Hash f ∧ f_Description row = fl_Description f ∧ f_Uploader row = fl_Uploader f ∧ fl_Record saved = f_Record row ∧
      log (board s1) = log (board s) ∧ publisher s1 = publisher s ∧ reports s1 = reports s ∧
      if ar_Federated a then announced_as now a (TrimSpace (fl_Name f)) (trim_name f) (new_row now a (trim_name f) (board s)) row s1 s' else s' = s1
  end.
Proof.
  intros Hst Hown Hk Hv Hd. pose proof (AddFile_refuses now areaName f s Hst) as Hr.
  pose proof (λ a, AddFile_takes now areaName f s a Hst Hown Hk Hv Hd) as Ht.
  destruct (AddFile key now areaName f s) as [[saved|e] s']; [|destruct Hr as [-> Hno]; by split; [split; [done|intros (a & Ha); destruct Hno; by exists a]|]].
  destruct Hr as [a Ha]. destruct (Ht a Ha) as (Hst' & Hown' & saved' & row & s1 & [= <-] & Hrest).
  split; [split; [intros _; by exists a|done]|]. split; [done|]. split; [done|]. exists a, row, s1. split; [apply Ha|done].
Qed.
End facts.
