(* ===== verification/Sftp.v ===== *)
(** * File transfer (internal/sshd/sftp.go)

    The tree of two levels an SFTP client sees, a projection of the catalog, and the
    handlers of its requests over the board's service and the blob store. Sessions and
    uploads are numbered; an upload lives from [Filewrite] to [Close] and the requests of
    all sessions interleave between. The SFTP protocol itself is a library's. *)

From stdpp Require Import strings relations.
From S2P Require Import Prelude Binary Identity Order Text GoStrings.
From S2P Require Import Records RecordLog.
From S2P Require GossipStore BlobStore.
From S2P Require Import Board Areas Files FilesFacts Service FileService.

(** ** Paths *)

(** [strings.Split] at a slash, and the way back. *)
Fixpoint Split_slash (s : bytes) : list bytes :=
  match s with
  | [] => [[]]
  | c :: s =>
      if bool_decide (c = slash) then [] :: Split_slash s
      else match Split_slash s with w :: ws => (c :: w) :: ws | [] => [[c]] end
  end.
Fixpoint Join_slash (ws : list bytes) : bytes :=
  match ws with
  | [] => []
  | [w] => w
  | w :: ws => w ++ slash :: Join_slash ws
  end.
Definition TrimPrefix_slash (s : bytes) : bytes :=
  match s with c :: s' => if bool_decide (c = slash) then s' else s | [] => [] end.

Definition dot : bytes := str "."%string.
Definition dotdot : bytes := str ".."%string.

(** [path.Clean] of a rooted path, whose elements are [ws]: the elements kept, last first. *)
Definition clean_element (kept : list bytes) (w : bytes) : list bytes :=
  if bool_decide (w = []) || bool_decide (w = dot) then kept
  else if bool_decide (w = dotdot) then tail kept
  else w :: kept.
Definition elements_of (s : bytes) : list bytes := reverse (foldl clean_element [] (Split_slash s)).
Definition Clean_rooted (s : bytes) : bytes := slash :: Join_slash (elements_of s).

(** A parsed client path: the root, an area, or a file within one. *)
Record vpath := mkVpath { v_area : bytes; v_name : bytes }.
Definition isRoot (v : vpath) : bool := bool_decide (v_area v = []).
Definition isFile (v : vpath) : bool := negb (bool_decide (v_area v = [])) && negb (bool_decide (v_name v = [])).

Inductive sftp_error :=
| NotAFile (path : bytes) | TooDeep | AccountReadOnly | Refused (e : board_error) | NotExist (path : bytes)
| NotHeld (path : bytes) | UploadDenied (e : board_error) | AlreadyExists (name : bytes) | IsAFile (path : bytes)
| AreasAreTheSysops | Unsupported | NoUpload | TransferFailed | StagingGone (e : BlobStore.blob_error).

Definition parsePath (virtual : bytes) : result sftp_error vpath :=
  let clean := Clean_rooted (TrimPrefix_slash virtual) in
  if bool_decide (clean = [slash]) then Ok (mkVpath [] [])
  else match Split_slash (TrimPrefix_slash clean) with
  | [area] => Ok (mkVpath area [])
  | [area; name] => Ok (mkVpath area name)
  | _ => Err TooDeep
  end.

(** [translate], on an error. *)
Definition translate (path : bytes) (e : board_error) : sftp_error :=
  match e with NotFound | ErrWrongAreaKind _ _ => NotExist path | _ => Refused e end.

(** ** What a listing holds *)

(** A time, or none where the column is zero. *)
Definition unix (sec : Z) : option Z := if sec =? 0 then None else Some sec.
Inductive info := Dir (name : bytes) (modTime : option Z) | FileInfo (f : File).
Definition info_name (i : info) : bytes := match i with Dir n _ => n | FileInfo f => fl_Name f end.
Definition info_size (i : info) : Z := match i with Dir _ _ => 0 | FileInfo f => fl_Size f end.

(** [ListAt]: what a buffer of [room] entries gets from [offset] on, and whether that
    was the end. *)
Definition ListAt (l : list info) (room : nat) (offset : Z) : list info * bool :=
  if Z.of_nat (length l) <=? offset then ([], true)
  else
    let got := take room (drop (Z.to_nat offset) l) in
    (got, (length got <? room)%nat).

(** ** Sessions, uploads and the handlers *)

Record session := mkSession { ss_nick : bytes; ss_readOnly : bool }.

(** The last field is what was written, in order. *)
Record upload := mkUpload {
  up_nick : bytes; up_area : bytes; up_name : bytes; up_staging : BlobStore.path; up_failed : bool; up_done : bool;
  up_written : list (nat * bytes)
}.

Section sftp.
Context {P E : Type} `{HB : Blake3, HE : Ed25519, HD : SqlDriver, HP : !Publisher P E} (key : NodeKey).

Record World := mkWorld { svc : Service P E; disk : BlobStore.Store; sessions : gmap nat session; uploads : gmap nat upload }.

Definition with_svc (s : Service P E) (w : World) : World := mkWorld s (disk w) (sessions w) (uploads w).
Definition with_disk (d : BlobStore.Store) (w : World) : World := mkWorld (svc w) d (sessions w) (uploads w).
Definition with_uploads (u : gmap nat upload) (w : World) : World := mkWorld (svc w) (disk w) (sessions w) u.
Definition catalogue (w : World) : Board := board (svc w).

(** [sftpHandler], for a registered account: whether it may write is settled here, once. *)
Definition sftpHandler (i : nat) (nick : bytes) (w : World) : World :=
  match HasCapability nick CapUploadFiles (catalogue w) with
  | Err _ => w
  | Ok allowed => mkWorld (svc w) (disk w) (<[i := mkSession nick (negb allowed)]> (sessions w)) (uploads w)
  end.

Definition Fileread (path : bytes) (w : World) : result sftp_error bytes :=
  v ← parsePath path;
  _ ← require (isFile v) (NotAFile path);
  match GetFile (v_area v) (v_name v) (catalogue w) with
  | Err e => Err (translate path e)
  | Ok f => match BlobStore.Open (fl_Hash f) (disk w) with Err _ => Err (NotHeld path) | Ok b => Ok b end
  end.

(** The checks of [Filewrite]: the path and the area it is for. *)
Definition may_write (s : session) (path : bytes) (b : Board) : result sftp_error (vpath * AreaInfo) :=
  _ ← require (negb (ss_readOnly s)) AccountReadOnly;
  v ← parsePath path;
  _ ← require (isFile v) (NotAFile path);
  match ValidateFileName (v_name v) with
  | Err e => Err (Refused e)
  | Ok _ =>
      match GetFileArea (v_area v) b with
      | Err e => Err (translate path e)
      | Ok area =>
          match CanUploadTo (ar_Name area) (ss_nick s) b with
          | Err e => Err (UploadDenied e)
          | Ok _ => _ ← require (negb (is_ok (GetFile (v_area v) (v_name v) b))) (AlreadyExists (v_name v)); Ok (v, area)
          end
      end
  end.

(** The upload [u], staged under [name]. *)
Definition Filewrite (s : session) (path : bytes) (u : nat) (name : bytes) (w : World) : result sftp_error unit * World :=
  match may_write s path (catalogue w) with
  | Err e => (Err e, w)
  | Ok (v, area) =>
      let '(p, d) := BlobStore.Temp name (disk w) in
      (Ok tt, with_uploads (<[u := mkUpload (ss_nick s) (ar_Name area) (v_name v) p false false []]> (uploads w)) (with_disk d w))
  end.

Definition wrote (off : nat) (c : bytes) (u : upload) : upload :=
  mkUpload (up_nick u) (up_area u) (up_name u) (up_staging u) (up_failed u) (up_done u) (up_written u ++ [(off, c)]).
Definition WriteAt (i : nat) (c : bytes) (off : nat) (w : World) : result sftp_error unit * World :=
  match uploads w !! i with
  | None => (Err NoUpload, w)
  | Some u =>
      if up_failed u || up_done u then (Err TransferFailed, w)
      else (Ok tt, with_uploads (<[i := wrote off c u]> (uploads w)) (with_disk (BlobStore.write_at (up_staging u) off c (disk w)) w))
  end.

Definition failed (u : upload) : upload := mkUpload (up_nick u) (up_area u) (up_name u) (up_staging u) true (up_done u) (up_written u).
Definition TransferError (i : nat) (w : World) : World := with_uploads (alter failed i (uploads w)) w.

Definition closed (u : upload) : upload := mkUpload (up_nick u) (up_area u) (up_name u) (up_staging u) (up_failed u) true (up_written u).

(** [Close]: the staged bytes become a blob, then the row is written. *)
Definition adopt (i : nat) (u : upload) (w : World) : result sftp_error (arr 32 * Z) * World :=
  let w := with_uploads (<[i := closed u]> (uploads w)) w in
  match BlobStore.Adopt (up_staging u) (disk w) with
  | (Err e, d) => (Err (StagingGone e), with_disk (delete (up_staging u) d) w)
  | (Ok x, d) => (Ok x, with_disk d w)
  end.
Definition uploaded (u : upload) (hash : arr 32) (size : Z) : File := mkFile 0 [] (up_name u) hash size [] (up_nick u) 0 zero_record_id.
Definition file_upload (now : Z) (u : upload) (hash : arr 32) (size : Z) (w : World) : result sftp_error unit * World :=
  let '(r, s) := AddFile key now (up_area u) (uploaded u hash size) (svc w) in
  (match r with Ok _ => Ok tt | Err e => Err (Refused e) end, with_svc s w).
Definition Close (now : Z) (i : nat) (w : World) : result sftp_error unit * World :=
  match uploads w !! i with
  | None => (Err NoUpload, w)
  | Some u =>
      if up_done u then (Ok tt, w)
      else if up_failed u then (Ok tt, with_uploads (<[i := closed u]> (uploads w)) (with_disk (delete (up_staging u) (disk w)) w))
      else match adopt i u w with
      | (Err e, w) => (Err e, w)
      | (Ok (hash, size), w) => file_upload now u hash size w
      end
  end.

(** [remove]: the row, then the bytes if nothing else wants them. *)
Definition remove_row (path : bytes) (v : vpath) (w : World) : result sftp_error (option (arr 32)) * World :=
  let '(r, b) := RemoveFile (v_area v) (v_name v) (catalogue w) in
  (match r with Err e => Err (translate path e) | Ok (orphaned, hash) => Ok (if orphaned then Some hash else None) end, with_svc (with_board b (svc w)) w).
Definition remove_bytes (hash : option (arr 32)) (w : World) : World :=
  match hash with None => w | Some h => with_disk (BlobStore.Remove h (disk w)) w end.
Definition remove (path : bytes) (v : vpath) (w : World) : result sftp_error unit * World :=
  match remove_row path v w with
  | (Err e, w) => (Err e, w)
  | (Ok hash, w) => (Ok tt, remove_bytes hash w)
  end.

Inductive method := Remove | Rename (target : bytes) | PosixRename (target : bytes) | Mkdir | Rmdir | Setstat | OtherMethod.

Definition rename (path target : bytes) (v : vpath) (w : World) : result sftp_error unit * World :=
  match parsePath target with
  | Err e => (Err e, w)
  | Ok to =>
      if negb (isFile v) || negb (isFile to) then (Err (NotAFile path), w)
      else
        let '(r, b) := RenameFile (v_area v) (v_name v) (v_area to) (v_name to) (catalogue w) in
        (match r with Ok _ => Ok tt | Err e => Err (translate path e) end, with_svc (with_board b (svc w)) w)
  end.

Definition Filecmd (s : session) (m : method) (path : bytes) (w : World) : result sftp_error unit * World :=
  if ss_readOnly s then (Err AccountReadOnly, w)
  else match parsePath path with
  | Err e => (Err e, w)
  | Ok v =>
      match m with
      | Remove => if negb (isFile v) then (Err (NotAFile path), w) else remove path v w
      | Rename target | PosixRename target => rename path target v w
      | Mkdir | Rmdir => (Err AreasAreTheSysops, w)
      | Setstat => (Ok tt, w)
      | OtherMethod => (Err Unsupported, w)
      end
  end.

Definition file_stat (path : bytes) (v : vpath) (w : World) : result sftp_error info :=
  if isRoot v then Ok (Dir [slash] None)
  else if negb (isFile v) then
    match GetFileArea (v_area v) (catalogue w) with Err e => Err (translate path e) | Ok a => Ok (Dir (ar_Name a) (unix (ar_CreatedAt a))) end
  else match GetFile (v_area v) (v_name v) (catalogue w) with Err e => Err (translate path e) | Ok f => Ok (FileInfo f) end.

Inductive list_method := List | Stat | Lstat | OtherList.
Definition Filelist (m : list_method) (path : bytes) (w : World) : result sftp_error (list info) :=
  v ← parsePath path;
  match m with
  | List =>
      if isFile v then Err (IsAFile path)
      else if isRoot v then Ok ((λ a, Dir (ar_Name a) (unix (ar_CreatedAt a))) <$> listAreas GossipStore.KindFile (catalogue w))
      else match ListFiles (v_area v) (catalogue w) with Err e => Err (translate path e) | Ok fs => Ok (FileInfo <$> fs) end
  | Stat | Lstat => i ← file_stat path v w; Ok [i]
  | OtherList => Err Unsupported
  end.

(** ** Runs *)

(** What the clients' requests do, each handler whole; and what the rest of the board
    does meanwhile, which here is anything that keeps its tables sound and the files as
    they are. The number of a session or an upload and the name it is
    staged under are free. *)
Inductive sftp_step : World → World → Prop :=
| sf_session i nick w : sessions w !! i = None → sftp_step w (sftpHandler i nick w)
| sf_write i s path u name w : sessions w !! i = Some s → uploads w !! u = None → disk w !! BlobStore.tmp_path name = None →
    sftp_step w (Filewrite s path u name w).2
| sf_bytes u c off w : sftp_step w (WriteAt u c off w).2
| sf_error u w : sftp_step w (TransferError u w)
| sf_close now u w : sftp_step w (Close now u w).2
| sf_cmd i s m path w : sessions w !! i = Some s → sftp_step w (Filecmd s m path w).2
| sf_board s w : store_ok (board s) → own_ok key (log (board s)) → files (board s) = files (catalogue w) → sftp_step w (with_svc s w).
End sftp.

(** ** The paths are names *)


Definition element (w : bytes) : Prop := w ≠ [] ∧ w ≠ dot ∧ w ≠ dotdot ∧ slash ∉ w.

Lemma Split_no_slash s : Forall (λ w, slash ∉ w) (Split_slash s) ∧ Split_slash s ≠ [].
Proof.
  induction s as [|c s [IH Hne]]; cbn; [split; [repeat constructor; apply not_elem_of_nil|done]|].
  case_bool_decide; [split; [constructor; [apply not_elem_of_nil|done]|done]|]. destruct (Split_slash s) as [|w ws]; [done|].
  apply Forall_cons in IH as [Hw IH]. split; [|done]. constructor; [|done]. rewrite not_elem_of_cons. split; [congruence|done].
Qed.

Lemma Split_app w s : slash ∉ w → Split_slash (w ++ slash :: s) = w :: Split_slash s.
Proof.
  induction w as [|c w IH]; intros Hw; [cbn; by rewrite bool_decide_true|]. apply not_elem_of_cons in Hw as [Hc Hw].
  cbn. rewrite bool_decide_false by congruence. by rewrite IH.
Qed.

Lemma Split_single w : slash ∉ w → Split_slash w = [w].
Proof.
  induction w as [|c w IH]; intros Hw; [done|]. apply not_elem_of_cons in Hw as [Hc Hw]. cbn. rewrite bool_decide_false by congruence. by rewrite IH.
Qed.

Lemma Split_Join ws : ws ≠ [] → Forall (λ w, slash ∉ w) ws → Split_slash (Join_slash ws) = ws.
Proof.
  induction ws as [|w ws IH]; [done|]. intros _ [Hw Hws]%Forall_cons. destruct ws as [|w' ws]; [by apply Split_single|].
  change (Join_slash (w :: w' :: ws)) with (w ++ slash :: Join_slash (w' :: ws)). rewrite Split_app by done. by rewrite IH.
Qed.

Lemma elements_good s : Forall element (elements_of s).
Proof.
  unfold elements_of. apply Forall_reverse. destruct (Split_no_slash s) as [H _]. revert H. generalize (Split_slash s). intros ws Hws.
  assert (H0 : Forall element (@nil bytes)) by constructor. revert H0. generalize (@nil bytes). induction Hws as [|w ws Hw _ IH]; intros kept Hk; [done|].
  cbn [foldl]. apply IH. unfold clean_element. destruct (bool_decide_reflect (w = [])); [done|]. destruct (bool_decide_reflect (w = dot)); [done|]. cbn [orb].
  destruct (bool_decide_reflect (w = dotdot)); [destruct Hk; [constructor|done]|]. by constructor.
Qed.

Lemma elements_id ws : Forall element ws → ws ≠ [] → elements_of (Join_slash ws) = ws.
Proof.
  intros Hws Hne. unfold elements_of. rewrite Split_Join; [|done|eapply Forall_impl; [exact Hws|]; by intros ? (_ & _ & _ & ?)].
  assert (H : ∀ kept, foldl clean_element kept ws = reverse ws ++ kept).
  { clear Hne. induction Hws as [|w ws (H1 & H2 & H3 & _) _ IH]; intros kept; [done|]. cbn [foldl]. rewrite IH, reverse_cons, <- app_assoc. cbn [app].
    unfold clean_element. by rewrite !bool_decide_false by done. }
  by rewrite H, app_nil_r, reverse_involutive.
Qed.

(** A path is the list of its elements, whatever dots and slashes it is written with. *)
Lemma parsePath_elements p :
  parsePath p = match elements_of (TrimPrefix_slash p) with
                | [] => Ok (mkVpath [] []) | [a] => Ok (mkVpath a []) | [a; n] => Ok (mkVpath a n) | _ => Err TooDeep end.
Proof.
  unfold parsePath, Clean_rooted. cbv zeta. pose proof (elements_good (TrimPrefix_slash p)) as Hg. destruct (elements_of (TrimPrefix_slash p)) as [|w ws] eqn:E.
  - by rewrite bool_decide_true.
  - rewrite bool_decide_false.
    + cbn [TrimPrefix_slash]. rewrite bool_decide_true by done. rewrite Split_Join; [by destruct ws as [|? [|? ?]]|done|]. eapply Forall_impl; [exact Hg|]. by intros ? (_ & _ & _ & ?).
    + intros [= H]. apply Forall_cons in Hg as [(Hw & _) _]. cbn in H. destruct ws; [done|]. by destruct w.
Qed.

Lemma parsePath_Ok p v : parsePath p = Ok v →
  v = mkVpath [] [] ∨ (element (v_area v) ∧ v_name v = []) ∨ (element (v_area v) ∧ element (v_name v)).
Proof.
  rewrite parsePath_elements. pose proof (elements_good (TrimPrefix_slash p)) as Hg.
  destruct (elements_of _) as [|a [|n [|? ?]]]; intros [= <-]; [by left|right; left|right; right]; repeat (apply Forall_cons in Hg as [? Hg]); done.
Qed.

Lemma parsePath_file a n : element a → element n → parsePath (slash :: a ++ slash :: n) = Ok (mkVpath a n).
Proof.
  intros Ha Hn. rewrite parsePath_elements. cbn [TrimPrefix_slash]. rewrite bool_decide_true by done.
  change (a ++ slash :: n) with (Join_slash [a; n]). rewrite elements_id; [done| |done]. by do 2 (constructor; [done|]).
Qed.

(** ** Content and staging *)

Definition splice (off : nat) (c b : bytes) : bytes :=
  take off (b ++ replicate off Byte.x00) ++ c ++ drop (off + length c) b.
(** What writes at their offsets come to; a gap reads as zeros. *)
Definition content (u : upload) : bytes := foldl (λ b (x : nat * bytes), splice x.1 x.2 b) [] (up_written u).

Lemma content_wrote off c u : content (wrote off c u) = splice off c (content u).
Proof. unfold content. cbn. by rewrite foldl_app. Qed.

Section facts.
Context {P E : Type} `{HB : Blake3, HE : Ed25519, HD : SqlDriver, HS : SqlSum, HP : !Publisher P E} (key : NodeKey).
Implicit Types (w : World (P := P) (E := E)) (d : BlobStore.Store).

Lemma tmp_not_blob name h : BlobStore.tmp_path name ≠ BlobStore.blob_path h.
Proof. intros E0. by apply (BlobStore.blob_path_not_tmp h name). Qed.

(** Adopting a staging file puts its bytes under their hash and changes no other file. *)
Lemma Adopt_spec name f d : BlobStore.blobs_ok d → d !! BlobStore.tmp_path name = Some f →
  let h := BlobStore.sum (BlobStore.data f) in
  ∃ d', BlobStore.Adopt (BlobStore.tmp_path name) d = (Ok (h, strlen (BlobStore.data f)), d') ∧ BlobStore.blobs_ok d' ∧
    is_Some (d' !! BlobStore.blob_path h) ∧ (∀ h' g, d !! BlobStore.blob_path h' = Some g → d' !! BlobStore.blob_path h' = Some g) ∧
    d' !! BlobStore.tmp_path name = None ∧ (∀ name', name' ≠ name → d' !! BlobStore.tmp_path name' = d !! BlobStore.tmp_path name').
Proof.
  intros Hb Hf. cbv zeta. unfold BlobStore.Adopt. rewrite Hf. eexists. split; [done|]. set (h := BlobStore.sum _). set (d1 := BlobStore.sync_file _ d).
  assert (Hd1 : d1 !! BlobStore.tmp_path name = Some (BlobStore.mkFile (BlobStore.data f) true)) by (unfold d1, BlobStore.sync_file; by rewrite lookup_alter_eq, Hf).
  assert (Hsame : ∀ q, q ≠ BlobStore.tmp_path name → d1 !! q = d !! q) by (intros q Hq; unfold d1, BlobStore.sync_file; by rewrite lookup_alter_ne).
  assert (Hb1 : BlobStore.blobs_ok d1) by (intros h' g; rewrite Hsame by apply BlobStore.blob_path_not_tmp; apply Hb).
  destruct (BlobStore.place_blobs (BlobStore.tmp_path name) h (BlobStore.mkFile (BlobStore.data f) true) d1) as (H1 & H2 & H3); [done..|by eexists|].
  split; [done|]. split_and!.
  - unfold BlobStore.place. rewrite Hd1. destruct (d1 !! BlobStore.blob_path h) as [g|] eqn:Eg; [|rewrite lookup_insert_eq; by eexists].
    rewrite lookup_delete_ne by apply tmp_not_blob. by eexists.
  - intros h' g Hg. apply H3. by rewrite Hsame by apply BlobStore.blob_path_not_tmp.
  - unfold BlobStore.place. rewrite Hd1. destruct (d1 !! BlobStore.blob_path h); [apply lookup_delete_eq|].
    rewrite lookup_insert_ne by (intros E0; by apply (tmp_not_blob name h)). apply lookup_delete_eq.
  - intros name' Hn. rewrite H2, Hsame; [done|by intros [= ?]|by intros [= ?]|]. intros h' E0. by apply (tmp_not_blob name' h').
Qed.

(** ** The invariant *)

(** The content of every entry is held. *)
Definition held (b : Board) (d : BlobStore.Store) : Prop := ∀ k f, catalog b !! k = Some f → is_Some (d !! BlobStore.blob_path (f_Hash f)).
(** An upload not yet closed has its staging file, with what was written. *)
Definition staged_ok d (u : upload) : Prop :=
  up_done u = false → ∃ name k, up_staging u = BlobStore.tmp_path name ∧ d !! BlobStore.tmp_path name = Some (BlobStore.mkFile (content u) k).
Definition apart (us : gmap nat upload) : Prop :=
  ∀ i j u v, us !! i = Some u → us !! j = Some v → up_done u = false → up_done v = false → up_staging u = up_staging v → i = j.
(** Who uploads, may. *)
Definition entitled (ss : gmap nat session) (u : upload) : Prop := ∃ i s, ss !! i = Some s ∧ ss_nick s = up_nick u ∧ ss_readOnly s = false.

Definition board_sound (b : Board) : Prop := store_ok b ∧ own_ok key (log b).
Definition sftp_ok w : Prop :=
  board_sound (catalogue w) ∧ BlobStore.blobs_ok (disk w) ∧ held (catalogue w) (disk w) ∧
  map_Forall (λ _ u, staged_ok (disk w) u) (uploads w) ∧ apart (uploads w) ∧ map_Forall (λ _ u, entitled (sessions w) u) (uploads w).

(** Blobs kept and other uploads' files kept: the rest of the invariant stands. *)
Lemma held_grows b d d' : held b d → (∀ h g, d !! BlobStore.blob_path h = Some g → d' !! BlobStore.blob_path h = Some g) → held b d'.
Proof. intros H Hd k f Hf. destruct (H k f Hf) as [g Hg]. exists g. by apply Hd. Qed.

Lemma staged_same d d' u : staged_ok d u → d' !! up_staging u = d !! up_staging u → staged_ok d' u.
Proof. intros H E1 Hd. destruct (H Hd) as (name & k & E2 & H2). exists name, k. split; [done|]. rewrite <- E2, E1, E2. done. Qed.

(** An upload in progress is replaced by its next state. *)
Lemma uploads_update us ss d d' i u u' :
  map_Forall (λ _ u, staged_ok d u) us → apart us → map_Forall (λ _ u, entitled ss u) us → us !! i = Some u → up_done u = false →
  up_staging u' = up_staging u → up_nick u' = up_nick u → staged_ok d' u' →
  (∀ name, BlobStore.tmp_path name ≠ up_staging u → d' !! BlobStore.tmp_path name = d !! BlobStore.tmp_path name) →
  map_Forall (λ _ u, staged_ok d' u) (<[i := u']> us) ∧ apart (<[i := u']> us) ∧ map_Forall (λ _ u, entitled ss u) (<[i := u']> us).
Proof.
  intros Hs Ha He Hi Hu Est En Hs' Hd. split_and!.
  - intros j v. destruct (decide (i = j)) as [<-|Hij]; [rewrite lookup_insert_eq; by intros [= <-]|]. rewrite lookup_insert_ne by done. intros Hj Hv.
    destruct (Hs j v Hj Hv) as (name & k & E1 & E2). exists name, k. split; [done|]. rewrite Hd; [done|]. rewrite <- E1. intros E3. apply Hij. by eapply (Ha i j u v).
  - intros j k v v'. destruct (decide (i = j)) as [<-|Hij], (decide (i = k)) as [<-|Hik]; rewrite ?lookup_insert_eq, ?lookup_insert_ne by done; [done| | |by apply Ha].
    + intros [= <-] Hk _ Hv'. rewrite Est. by apply (Ha i k u v').
    + intros Hj [= <-] Hv _. rewrite Est. by apply (Ha j i v u).
  - apply map_Forall_insert_2; [|done]. destruct (He i u Hi) as (j & s & H1 & H2 & H3). exists j, s. by rewrite En.
Qed.

(** A closed upload claims nothing. *)
Lemma closed_staged d u : staged_ok d (closed u).
Proof. done. Qed.

Lemma WriteAt_ok i c off w : sftp_ok w → sftp_ok (WriteAt i c off w).2.
Proof.
  intros (Hb & Hblob & Hheld & Hs & Ha & He). unfold WriteAt. destruct (uploads w !! i) as [u|] eqn:Ei; [|done].
  destruct (up_failed u || up_done u) eqn:Ef; [done|]. apply orb_false_iff in Ef as [_ Hd]. cbn [snd].
  destruct (Hs i u Ei Hd) as (name & k & E1 & E2). set (d' := BlobStore.write_at _ _ _ _).
  assert (Hsame : ∀ q, q ≠ up_staging u → d' !! q = disk w !! q) by (intros q Hq; unfold d', BlobStore.write_at; by rewrite lookup_alter_ne).
  assert (Hblobs : ∀ h, d' !! BlobStore.blob_path h = disk w !! BlobStore.blob_path h) by (intros h; apply Hsame; rewrite E1; apply BlobStore.blob_path_not_tmp).
  split; [done|]. split; [intros h g; cbn; rewrite Hblobs; apply Hblob|]. split; [eapply held_grows; [exact Hheld|]; intros h g; cbn; by rewrite Hblobs|].
  eapply uploads_update; try done; cbn [disk uploads sessions with_uploads with_disk].
  - intros _. exists name, false. split; [done|]. fold d'. unfold d', BlobStore.write_at. by rewrite content_wrote, E1, lookup_alter_eq, E2.
  - intros name' Hn. by apply Hsame.
Qed.

Lemma TransferError_ok i w : sftp_ok w → sftp_ok (TransferError i w).
Proof.
  intros (Hb & Hblob & Hheld & Hs & Ha & He). do 3 (split; [done|]). cbn [disk uploads sessions with_uploads TransferError].
  assert (Hl : ∀ j v, alter failed i (uploads w) !! j = Some v → ∃ u, uploads w !! j = Some u ∧ (v = u ∨ v = failed u)).
  { intros j v. destruct (decide (i = j)) as [<-|Hij]; [|rewrite lookup_alter_ne by done; eauto]. rewrite lookup_alter_eq. destruct (uploads w !! i) as [u|]; [|done]. intros [= <-]. eauto. }
  split_and!.
  - intros j v (u & Hu & [->| ->])%Hl; exact (Hs j u Hu).
  - intros j k v v' (u & Hu & Ev)%Hl (u' & Hu' & Ev')%Hl H1 H2 H3. apply (Ha j k u u'); try done; by destruct Ev as [->| ->], Ev' as [->| ->].
  - intros j v (u & Hu & [->| ->])%Hl; exact (He j u Hu).
Qed.

Lemma Filewrite_ok i s path u name w : sftp_ok w → sessions w !! i = Some s → uploads w !! u = None → disk w !! BlobStore.tmp_path name = None →
  sftp_ok (Filewrite s path u name w).2.
Proof.
  intros (Hb & Hblob & Hheld & Hs & Ha & He) Hi Hu Hn. unfold Filewrite. destruct (may_write s path (catalogue w)) as [[v area]|e] eqn:Em; [|done]. cbn [snd BlobStore.Temp].
  set (d' := BlobStore.create_temp (BlobStore.tmp_path name) (disk w)). assert (Hsame : ∀ q, q ≠ BlobStore.tmp_path name → d' !! q = disk w !! q).
  { intros q Hq. unfold d', BlobStore.create_temp. by rewrite lookup_insert_ne. }
  assert (Hblobs : ∀ h, d' !! BlobStore.blob_path h = disk w !! BlobStore.blob_path h) by (intros h; apply Hsame, BlobStore.blob_path_not_tmp).
  assert (Hfresh : ∀ j v, uploads w !! j = Some v → up_done v = false → up_staging v ≠ BlobStore.tmp_path name).
  { intros j v' Hj Hv' E0. destruct (Hs j v' Hj Hv') as (m & k & E1 & E2). rewrite E1 in E0. injection E0 as ->. congruence. }
  split; [done|]. split; [intros h g; cbn; rewrite Hblobs; apply Hblob|]. split; [eapply held_grows; [exact Hheld|]; intros h g; cbn; by rewrite Hblobs|].
  cbn [disk uploads sessions with_uploads with_disk]. fold d'. split_and!.
  - apply map_Forall_insert_2; [intros _; exists name, false; split; [done|apply lookup_insert_eq]|]. intros j v' Hj Hv'. refine (staged_same (disk w) d' v' (Hs j v' Hj) _ Hv').
    apply Hsame. by eapply Hfresh.
  - intros j k x y. destruct (decide (u = j)) as [<-|Huj], (decide (u = k)) as [<-|Huk]; rewrite ?lookup_insert_eq, ?lookup_insert_ne by done; [done| | |by apply Ha].
    + intros [= <-] Hk _ Hy E0. by destruct (Hfresh k y Hk Hy).
    + intros Hj [= <-] Hx _ E0. by destruct (Hfresh j x Hj Hx).
  - apply map_Forall_insert_2; [|done]. exists i, s. split; [done|]. split; [done|]. unfold may_write in Em. apply bind_unit_Ok in Em as [Hro%require_Ok _]. by apply negb_true_iff in Hro.
Qed.

(** What closing an upload does to the catalog. *)
Definition close_outcome (i : nat) w (r : result sftp_error unit) w' : Prop :=
  match uploads w !! i with
  | None => w' = w
  | Some u =>
      if up_done u then w' = w
      else if up_failed u then svc w' = svc w ∧ disk w' = delete (up_staging u) (disk w)
      else match r with
      | Err _ => svc w' = svc w
      | Ok _ => ∃ a row, let k := (ar_ID a, TrimSpace (up_name u)) in
          GetFileArea (up_area u) (catalogue w) = Ok a ∧ catalog (catalogue w) !! k = None ∧
          catalog (catalogue w') = <[k := row]> (catalog (catalogue w)) ∧
          f_Hash row = BlobStore.sum (content u) ∧ f_Uploader row = up_nick u
      end
  end.

Lemma sftp_Close_ok now i w : key_named key → valid_key key → driver_limit → sftp_ok w →
  let '(r, w') := Close key now i w in sftp_ok w' ∧ close_outcome i w r w'.
Proof.
  intros Hk Hv Hdl Hw. pose proof Hw as (Hb & Hblob & Hheld & Hs & Ha & He). unfold Close, close_outcome. destruct (uploads w !! i) as [u|] eqn:Ei; [|done].
  destruct (up_done u) eqn:Hd; [done|]. destruct (Hs i u Ei Hd) as (name & k & E1 & E2). destruct (up_failed u) eqn:Hf.
  - split; [|done]. cbn [svc disk uploads sessions with_uploads with_disk].
    assert (Hblobs : ∀ h, delete (up_staging u) (disk w) !! BlobStore.blob_path h = disk w !! BlobStore.blob_path h) by (intros h; rewrite E1; apply lookup_delete_ne, tmp_not_blob).
    split; [done|]. split; [intros h g; cbn; rewrite Hblobs; apply Hblob|]. split; [eapply held_grows; [exact Hheld|]; intros h g; cbn; by rewrite Hblobs|].
    eapply uploads_update; try done. intros name' Hn. by apply lookup_delete_ne.
  - unfold adopt. rewrite E1. cbn [disk with_uploads]. destruct (Adopt_spec name (BlobStore.mkFile (content u) k) (disk w) Hblob E2) as (d' & -> & Hblob' & Hnew & Hkeep & Hgone & Hother).
    cbn [BlobStore.data] in *. set (h := BlobStore.sum (content u)) in *.
    unfold file_upload. cbn [svc with_disk with_uploads].
    pose proof (AddFile_refuses key now (up_area u) (uploaded u h (strlen (content u))) (svc w) (proj1 Hb)) as Hno.
    pose proof (λ a, AddFile_takes key now (up_area u) (uploaded u h (strlen (content u))) (svc w) a (proj1 Hb) (proj2 Hb) Hk Hv Hdl) as Hadd.
    destruct (AddFile key now (up_area u) (uploaded u h (strlen (content u))) (svc w)) as [r s'].
    assert (Hus : map_Forall (λ _ u, staged_ok d' u) (<[i := closed u]> (uploads w)) ∧ apart (<[i := closed u]> (uploads w)) ∧ map_Forall (λ _ u, entitled (sessions w) u) (<[i := closed u]> (uploads w))).
    { eapply uploads_update; try done. rewrite E1. intros name' Hn. apply Hother. by intros ->. }
    assert (Hheld' : held (catalogue w) d') by (by eapply held_grows).
    destruct r as [saved|e]; cycle 1.
    { destruct Hno as [-> _]. split; [|done]. split; [done|]. split; [done|]. split; [done|]. exact Hus. }
    destruct Hno as [a Hmay]. destruct (Hadd a Hmay) as (Hst' & Hown' & saved' & row & s1 & _ & Hcat & Hh & _ & Hup & _).
    destruct Hmay as ((Hg & _ & Hfree & _) & _). cbn [fl_Name fl_Hash fl_Uploader uploaded] in *. split.
    + split; [done|]. split; [done|]. split; [|exact Hus]. intros kk f. cbn [catalogue svc with_svc disk with_disk]. change (board (svc (with_svc s' w))) with (board s').
      unfold catalogue. cbn [svc with_svc]. rewrite Hcat, lookup_insert_Some. intros [[_ <-]|[_ Hin]]; [by rewrite Hh|by eapply Hheld'].
    + exists a, row. done.
Qed.

(** What a command does to the catalog and the blobs. *)
Definition cmd_outcome (m : method) (path : bytes) w (r : result sftp_error unit) w' : Prop :=
  match r with
  | Err _ => w' = w
  | Ok _ => ∃ v, parsePath path = Ok v ∧
      ((m = Setstat ∧ w' = w) ∨
       (m = Remove ∧ ∃ a f, located (v_area v) (v_name v) (catalogue w) a f ∧
          catalog (catalogue w') = delete (ar_ID a, TrimSpace (v_name v)) (catalog (catalogue w)) ∧
          (∀ h, h ≠ f_Hash f → disk w' !! BlobStore.blob_path h = disk w !! BlobStore.blob_path h) ∧
          (is_Some (disk w' !! BlobStore.blob_path (f_Hash f)) ↔ ∃ k x, catalog (catalogue w') !! k = Some x ∧ f_Hash x = f_Hash f)) ∨
       (∃ target to a f dst, (m = Rename target ∨ m = PosixRename target) ∧ parsePath target = Ok to ∧
          located (v_area v) (v_name v) (catalogue w) a f ∧ GetFileArea (v_area to) (catalogue w) = Ok dst ∧ disk w' = disk w ∧
          let k := (ar_ID dst, TrimSpace (v_name to)) in
          (catalog (catalogue w) !! k = None ∨ catalog (catalogue w) !! k = Some f) ∧
          catalog (catalogue w') = <[k := move_row (ar_ID dst) (TrimSpace (v_name to)) f]> (delete (ar_ID a, TrimSpace (v_name v)) (catalog (catalogue w)))))
  end.

(** A board with the same log and areas and its files in order. *)
Lemma with_files_sound b b' : board_sound b → same_rest b b' → files_ok b' → board_sound b'.
Proof. intros [(Ha & Hl & _) Hown] Hsame Hf. pose proof Hsame as (_ & _ & El). split; [by eapply store_ok_same|]. by rewrite El. Qed.

Lemma with_svc_ok s w : sftp_ok w → board_sound (board s) → held (board s) (disk w) → sftp_ok (with_svc s w).
Proof. by intros (_ & Hblob & _ & Hs & Ha & He) Hb Hheld. Qed.

Lemma remove_ok m path v w : sftp_ok w → parsePath path = Ok v → m = Remove →
  let '(r, w') := remove path v w in sftp_ok w' ∧ cmd_outcome m path w r w'.
Proof.
  intros Hw Hp ->. pose proof Hw as (Hb & Hblob & Hheld & Hs & Ha & He). unfold remove, remove_row. pose proof Hb as [(Har & _ & Hf) _].
  pose proof (RemoveFile_spec (v_area v) (v_name v) (catalogue w) Har Hf) as Hrm. destruct (RemoveFile (v_area v) (v_name v) (catalogue w)) as [[[orphaned h]|e] b'].
  2:{ destruct Hrm as [-> _]. assert (Ew : with_svc (with_board (catalogue w) (svc w)) w = w) by (by destruct w as [[] ? ? ?]). by rewrite Ew. }
  destruct Hrm as (a & f & Hloc & -> & Hf' & Hcat & Ho & Hsame). pose proof (with_files_sound _ _ Hb Hsame Hf') as Hb'.
  assert (Hin : ∀ k x, catalog b' !! k = Some x → catalog (catalogue w) !! k = Some x) by (intros k x; rewrite Hcat; by intros [_ ?]%lookup_delete_Some).
  assert (Hff : is_Some (disk w !! BlobStore.blob_path (f_Hash f))) by (destruct Hloc as [_ Hloc]; by eapply Hheld).
  assert (Hheld' : held b' (disk w)) by (intros k x Hx; by eapply Hheld, Hin). destruct orphaned; cbn [remove_bytes].
  - pose proof (proj1 Ho eq_refl) as Hno. set (d' := BlobStore.Remove (f_Hash f) (disk w)).
    assert (Hd' : ∀ h, h ≠ f_Hash f → d' !! BlobStore.blob_path h = disk w !! BlobStore.blob_path h).
    { intros h Hh. unfold d', BlobStore.Remove. rewrite lookup_delete_ne; [done|]. by intros ?%BlobStore.blob_path_inj. }
    split.
    + split; [done|]. split; [intros h g Hg; cbn [disk with_disk with_svc] in Hg; unfold BlobStore.Remove in Hg; apply lookup_delete_Some in Hg as [_ Hg]; by apply Hblob|]. split; [|split; [|done]].
      * intros k x Hx. change (catalog b' !! k = Some x) in Hx. cbn [disk with_disk with_svc]. fold d'. rewrite Hd' by (by eapply Hno). by eapply Hheld'.
      * intros i u Hi Hu. refine (staged_same (disk w) d' u (Hs i u Hi) _ Hu). destruct (Hs i u Hi Hu) as (name & k & -> & _).
        unfold d', BlobStore.Remove. rewrite lookup_delete_ne; [done|]. intros E0. by apply (tmp_not_blob name (f_Hash f)).
    + exists v. split; [done|]. right. left. split; [done|]. exists a, f. split; [done|]. split; [exact Hcat|]. split; [exact Hd'|]. split.
      * cbn [disk with_disk with_svc]. unfold BlobStore.Remove. rewrite lookup_delete_eq. by intros [].
      * intros (k & x & Hx & E0). by destruct (Hno k x Hx).
  - split; [by apply with_svc_ok|]. exists v. split; [done|]. right. left. split; [done|]. exists a, f. split; [done|]. split; [exact Hcat|]. split; [done|].
    split; [intros _|done]. destruct (decide (map_Exists (λ _ x, f_Hash x = f_Hash f) (catalog b'))) as [(k & x & ? & ?)|Hnone]; [by exists k, x|].
    exfalso. assert (H : false = true); [|done]. apply Ho. intros k x Hx E0. apply Hnone. by exists k, x.
Qed.

Lemma rename_ok m path target v w : sftp_ok w → parsePath path = Ok v → m = Rename target ∨ m = PosixRename target →
  let '(r, w') := rename path target v w in sftp_ok w' ∧ cmd_outcome m path w r w'.
Proof.
  intros Hw Hp Hm. pose proof Hw as (Hb & Hblob & Hheld & Hs & Ha & He). unfold rename. destruct (parsePath target) as [to|e] eqn:Et; [|done].
  destruct (negb (isFile v) || negb (isFile to)); [done|]. pose proof Hb as [(Har & _ & Hf) _].
  pose proof (RenameFile_spec (v_area v) (v_name v) (v_area to) (v_name to) (catalogue w) Har Hf) as Hrn.
  destruct (RenameFile (v_area v) (v_name v) (v_area to) (v_name to) (catalogue w)) as [[[]|e] b'].
  2:{ destruct Hrn as [-> _]. assert (Ew : with_svc (with_board (catalogue w) (svc w)) w = w) by (by destruct w as [[] ? ? ?]). by rewrite Ew. }
  destruct Hrn as (a & f & dst & Hloc & Hd & _ & Hfree & Eb & Hf' & Hcat). split.
  - apply with_svc_ok; [done|apply (with_files_sound (catalogue w)); [done|by subst b'|done]|]. cbn [board with_board]. intros k x. rewrite Hcat, lookup_insert_Some.
    destruct Hloc as [_ Hloc]. intros [[_ <-]|[_ [_ Hx]%lookup_delete_Some]]; [exact (Hheld _ f Hloc)|by eapply Hheld].
  - exists v. split; [done|]. right. right. by exists target, to, a, f, dst.
Qed.

Lemma Filecmd_ok s m path w : sftp_ok w →
  let '(r, w') := Filecmd s m path w in sftp_ok w' ∧ cmd_outcome m path w r w' ∧ (ss_readOnly s = true → r = Err AccountReadOnly).
Proof.
  intros Hw. unfold Filecmd. destruct (ss_readOnly s); [done|]. destruct (parsePath path) as [v|e] eqn:Ep; [|done]. destruct m as [|target|target| | | |]; try done.
  - destruct (negb (isFile v)); [done|]. pose proof (remove_ok Remove path v w Hw Ep eq_refl) as H. destruct (remove path v w) as [r w']. naive_solver.
  - pose proof (rename_ok (Rename target) path target v w Hw Ep (or_introl eq_refl)) as H. destruct (rename path target v w) as [r w']. naive_solver.
  - pose proof (rename_ok (PosixRename target) path target v w Hw Ep (or_intror eq_refl)) as H. destruct (rename path target v w) as [r w']. naive_solver.
  - split; [done|]. split; [|done]. exists v. split; [done|]. by left.
Qed.

(** ** Every run *)

Lemma sftp_step_ok w w' : key_named key → valid_key key → driver_limit → sftp_step key w w' → sftp_ok w → sftp_ok w'.
Proof.
  intros Hk Hv Hdl Hs Hw. destruct Hs as [i nick w Hi|i s path u name w Hi Hu Hn|u c off w|u w|now u w|i s m path w Hi|s w H1 H2 H3].
  - unfold sftpHandler. destruct (HasCapability nick CapUploadFiles (catalogue w)) as [ok|e]; [|done]. destruct Hw as (Hb & Hblob & Hheld & Hs & Ha & He).
    do 5 (split; [done|]). intros j u Hj. destruct (He j u Hj) as (x & sx & Hx & Hn & Hr). exists x, sx. split; [|done]. cbn [sessions].
    rewrite lookup_insert_ne; [done|]. intros ->. congruence.
  - by apply (Filewrite_ok i).
  - by apply WriteAt_ok.
  - by apply TransferError_ok.
  - pose proof (sftp_Close_ok now u w Hk Hv Hdl Hw) as H. destruct (Close key now u w). by destruct H.
  - pose proof (Filecmd_ok s m path w Hw) as H. destruct (Filecmd s m path w). by destruct H.
  - apply with_svc_ok; [done|done|]. destruct Hw as (_ & _ & Hheld & _). unfold held, catalog. by rewrite H3.
Qed.

Lemma sftp_run_ok w0 w : key_named key → valid_key key → driver_limit → rtc (sftp_step key) w0 w → sftp_ok w0 → sftp_ok w.
Proof. intros Hk Hv Hdl Hs. induction Hs; eauto using sftp_step_ok. Qed.

(** ** What clients see *)

Lemma Fileread_spec path w data :
  Fileread path w = Ok data ↔ ∃ v fl g, parsePath path = Ok v ∧ isFile v = true ∧ GetFile (v_area v) (v_name v) (catalogue w) = Ok fl ∧
    disk w !! BlobStore.blob_path (fl_Hash fl) = Some g ∧ data = BlobStore.data g.
Proof.
  unfold Fileread, BlobStore.Open. split.
  - intros (v & Hv & (Hf%require_Ok & H)%bind_unit_Ok)%bind_Ok. destruct (GetFile _ _ _) as [fl|e] eqn:Eg; [|done].
    destruct (disk w !! BlobStore.blob_path (fl_Hash fl)) as [g|] eqn:Ed; [|done]. injection H as <-. by exists v, fl, g.
  - intros (v & fl & g & Hv & Hf & Hg & Hd & ->). rewrite Hv. cbn [mbind result_bind]. rewrite Hf. cbn. by rewrite Hg, Hd.
Qed.

(** A client that asks page after page, with room for at least one entry, sees them all. *)
Fixpoint pages (fuel room : nat) (l : list info) (offset : Z) : list info :=
  match fuel with
  | O => []
  | S fuel => let '(got, eof) := ListAt l room offset in got ++ (if eof then [] else pages fuel room l (offset + Z.of_nat (length got)))
  end.

Lemma pages_from fuel room l offset : (0 < room)%nat → 0 ≤ offset → (length l < fuel + Z.to_nat offset)%nat →
  pages fuel room l offset = drop (Z.to_nat offset) l.
Proof.
  revert offset. induction fuel as [|fuel IH]; intros offset Hr Ho Hf; [rewrite drop_ge; [done|lia]|]. cbn [pages]. unfold ListAt.
  destruct (Z.leb_spec (Z.of_nat (length l)) offset) as [Hle|Hlt]; [rewrite drop_ge; [done|lia]|]. set (rest := drop (Z.to_nat offset) l).
  assert (Hl : length rest = (length l - Z.to_nat offset)%nat) by apply length_drop. destruct (Nat.ltb_spec (length (take room rest)) room) as [Hs|Hs].
  - rewrite app_nil_r. rewrite length_take in Hs. apply take_ge. lia.
  - rewrite length_take in *. rewrite IH by lia. assert (E0 : drop (Z.to_nat (offset + Z.of_nat (room `min` length rest)%nat)) l = drop room rest).
    { unfold rest. rewrite drop_drop. f_equal. fold rest. lia. }
    rewrite E0. apply take_drop.
Qed.

Lemma ListAt_pages room l : (0 < room)%nat → pages (S (length l)) room l 0 = l.
Proof. intros Hr. rewrite pages_from by lia. done. Qed.

Lemma Filelist_area path v a w : sftp_ok w → parsePath path = Ok v → isRoot v = false → isFile v = false → GetFileArea (v_area v) (catalogue w) = Ok a →
  ∃ l, Filelist List path w = Ok l ∧ ∀ n, n ∈ info_name <$> l ↔ is_Some (catalog (catalogue w) !! (ar_ID a, n)).
Proof.
  intros (((Har & _ & Hf) & _) & _) Hp Hr Hv Hg. destruct (ListFiles_spec (v_area v) (catalogue w) a Har Hf Hg) as (l & El & _ & Hin & _).
  exists (FileInfo <$> (file_of (catalogue w) a <$> l)). split; [unfold Filelist; rewrite Hp; cbn [mbind result_bind]; by rewrite Hv, Hr, El|].
  intros n. rewrite <- !list_fmap_compose, list_elem_of_fmap. split.
  - intros (f & -> & (m & Hn)%Hin). cbn. pose proof Hn as [_ [= _ <-]]%catalog_Some; [|done]. by eexists.
  - intros [f Hn]. exists f. pose proof Hn as [_ [= _ <-]]%catalog_Some; [|done]. split; [done|]. apply Hin. by eexists.
Qed.

End facts.
