(* ===== verification/Leagues.v ===== *)
(** * Door leagues (internal/doorevent/doorevent.go, store/doorevents.go,
      bbs/doorevents.go, bbs/doorhost.go, cli/mesh_serve.go)

    The events door games report: queued, batched into records when the policy says so,
    dropped when they waited too long, and polled back out of the log. The policy's
    times are nanoseconds, the tables' are seconds. *)

From stdpp Require Import strings relations.
From S2P Require Import Prelude Binary Identity Order Text GoStrings Float64.
From S2P Require Governor.
From S2P Require Import NodeNames Records RecordLog.
From S2P Require DoorEvent VersionVector GossipStore.
From S2P Require Import Board Areas Service.

Definition Second : Z := 1000000000.
Definition Minute : Z := 60 * Second.
Definition Hour : Z := 60 * Minute.

(** [t.Sub(u)] saturates. *)
Definition Sub (t u : Z) : Z := Z.max (- 2 ^ 63) (Z.min (2 ^ 63 - 1) (t - u)).

(** ** When a batch goes out (doorevent.go) *)

Definition MinWindow : Z := 5 * Minute.
Definition MaxWindow : Z := 12 * Hour.
Definition DefaultMaxAge : Z := 24 * Hour.

Record Event := mkEvent { ev_ID : Z; ev_QueuedAt : Z }.
Record Decision_ := mkDecision { Expire : list Event; Flush : list Event; Wait : Z }.
Record Policy := mkPolicy { Window : Z; MaxAge : Z; BatchMax : Z }.

Definition ClampWindow (d : Z) : Z :=
  if d <? MinWindow then MinWindow else if MaxWindow <? d then MaxWindow else d.

(** [New]: zero means the default. *)
Definition NewPolicy (c : Policy) : Policy :=
  mkPolicy (ClampWindow (if Window c <=? 0 then MaxWindow else Window c))
    (if MaxAge c <=? 0 then DefaultMaxAge else MaxAge c)
    (if BatchMax c <=? 0 then DoorEvent.MaxDoorEventsPerRecord else BatchMax c).

Definition DeriveWindow (packetsPerDay : float64) : Z :=
  if fle packetsPerDay f0 then MaxWindow
  else ClampWindow (to_int64 (fdiv (of_int (24 * Hour)) packetsPerDay)).

Definition expired (now : Z) (p : Policy) (e : Event) : bool := MaxAge p <=? Sub now (ev_QueuedAt e).

Definition Consider (now : Z) (p : Policy) (events : list Event) : Decision_ :=
  let old := filter (λ e, expired now p e = true) events in
  let fresh := filter (λ e, expired now p e = false) events in
  match fresh with
  | [] => mkDecision old [] 0
  | first :: _ =>
      if BatchMax p <=? Z.of_nat (length fresh) then mkDecision old (take (Z.to_nat (BatchMax p)) fresh) 0
      else
        let age := Sub now (ev_QueuedAt first) in
        if Window p <=? age then mkDecision old fresh 0 else mkDecision old [] (Window p - age)
  end.

(** ** The queue (doorevents.go) *)

Definition MaxQueuedDoorEvents : Z := 100.

(** SQLite's length of a text: its characters up to the first NUL; continuation bytes
    count with the character they follow. *)
Fixpoint text_length (lead : bool) (s : bytes) : Z :=
  match s with
  | [] => 0
  | c :: s' =>
      if bool_decide (c = Byte.x00) then 0
      else if lead && (0x80 <=? b2z c) && (b2z c <? 0xc0) then text_length true s'
      else 1 + text_length (0xc0 <=? b2z c) s'
  end.

(** The CHECKs of the table; the target's node is NULL exactly when there is no target. *)
Definition event_fits (game : bytes) (e : DoorEvent.DoorEvent) : bool :=
  (1 <=? text_length false game) && (text_length false game <=? 16) &&
  (1 <=? text_length false (DoorEvent.Actor e)) && (text_length false (DoorEvent.Actor e) <=? 24) &&
  (text_length false (DoorEvent.Target e) <=? 24) && (strlen (DoorEvent.Payload e) <=? 48).

(** The columns, read back: the node of an event without a target is zero. *)
Definition stored_event (e : DoorEvent.DoorEvent) : DoorEvent.DoorEvent :=
  if bool_decide (DoorEvent.Target e = [])
  then DoorEvent.mkDoorEvent (DoorEvent.Kind e) (DoorEvent.Actor e) [] zero_id (DoorEvent.Payload e)
  else e.

Definition CountQueuedDoorEvents (door : bytes) (b : Board) : Z :=
  Z.of_nat (length (filter (λ q, q_Door q = door) (queue b))).

Definition store_QueueDoorEvent (now : Z) (door area game : bytes) (e : DoorEvent.DoorEvent) (b : Board) : result board_error unit * Board :=
  let queued := CountQueuedDoorEvents door b in
  if MaxQueuedDoorEvents <=? queued then (Err (ErrDoorEventQueueFull queued), b)
  else if negb (event_fits game e) then (Err EventNotStored, b)
  else
    let id := last_queued b + 1 in
    (Ok tt, with_queue (queue b ++ [mkQueued id door area game (stored_event e) now]) id b).

Definition group_of (q : Queued) : bytes * bytes := (q_Area q, q_Game q).

Definition QueuedDoorEvents (area game : bytes) (b : Board) : list Queued :=
  sort_by q_ID Z.ltb (filter (λ q, area = [] ∨ group_of q = (area, game)) (queue b)).

Definition DeleteQueuedDoorEvents (ids : list Z) (b : Board) : Board :=
  with_queue (filter (λ q, q_ID q ∉ ids) (queue b)) (last_queued b) b.

Definition DoorEventGroups (b : Board) : list (bytes * bytes) :=
  sort_by (λ g, g) (less_pair less_text less_text) (remove_dups (group_of <$> queue b)).

Record DeliveredDoorEvent := mkDelivered { de_Cursor : Z; de_Origin : NodeID; de_At : Z; de_Event : DoorEvent.DoorEvent }.

Definition league_rows (tag : AreaTag) (db : Db) : list Row :=
  sort_by local_seq Z.ltb (filter (λ w, Area (columns w) = tag ∧ Type_ (columns w) = TypeDoorEvent) (rows db)).

Definition delivered (game : bytes) (w : Row) : list DeliveredDoorEvent :=
  match DoorEvent.UnmarshalDoorEventBody (Body (columns w)) with
  | Err _ => []
  | Ok d =>
      if negb (bool_decide (game = [])) && negb (bool_decide (DoorEvent.Game d = game)) then []
      else mkDelivered (local_seq w) (Origin (columns w)) (TS (columns w)) <$> DoorEvent.Events d
  end.

Definition DoorEventsSince (tag : AreaTag) (game : bytes) (after limit : Z) (db : Db) : list DeliveredDoorEvent * Z * bool :=
  let limit := if limit <=? 0 then 200 else limit in
  let all := league_rows tag db in
  let truncated := match all with w :: _ => (0 <? after) && (after <? local_seq w - 1) | [] => false end in
  let page := take (Z.to_nat limit) (filter (λ w, after < local_seq w) all) in
  (page ≫= delivered game, default after (local_seq <$> last page), truncated).

Inductive host_error :=
| ErrNotALeague (name : bytes)
| ErrUnknownTarget (target : bytes)
| ErrInvalidEvent (e : Bodies.record_error)
| HostError (e : board_error).

Record DoorEventRequest := mkRequested {
  dr_Door : bytes; dr_Area : bytes; dr_Game : bytes; dr_Kind : byte; dr_Actor : bytes; dr_Target : bytes; dr_Payload : bytes
}.

Record DoorEventBatch := mkBatch { db_Events : list DeliveredDoorEvent; db_Cursor : Z; db_Truncated : bool }.

Section leagues.
Context {P E : Type} `{HB : Blake3, HE : Ed25519, HD : SqlDriver, HP : !Publisher P E} (key : NodeKey).

(** ** Into the queue (doorhost.go) *)

(** [nick], or [nick@node] with the node under any of its names. *)
Definition ResolveRecipient (aliases : list Alias) (ref : bytes) : option (bytes * NodeID) :=
  let ref := TrimSpace ref in
  if bool_decide (ref = []) then None
  else
    let '(nick, nodeRef, hasNode) := Cut Byte.x40 ref in
    let nick := TrimSpace nick in
    if bool_decide (nick = []) then None
    else if negb hasNode || bool_decide (TrimSpace nodeRef = []) then Some (nick, NodeKey_ID key)
    else match ResolveNodeRef nodeRef aliases with Ok node => Some (nick, node) | Err _ => None end.

(** The event as it will stand in a record. *)
Definition league_event (aliases : list Alias) (ev : DoorEventRequest) : result host_error DoorEvent.DoorEvent :=
  '(target, node) ←
    (if bool_decide (dr_Target ev = []) then Ok ([], zero_id)
     else match ResolveRecipient aliases (dr_Target ev) with
          | Some r => Ok r
          | None => Err (ErrUnknownTarget (dr_Target ev))
          end);
  let e := DoorEvent.mkDoorEvent (dr_Kind ev) (dr_Actor ev) target node (dr_Payload ev) in
  _ ← wrap_err ErrInvalidEvent (DoorEvent.MarshalDoorEventBody (DoorEvent.mkDoorEventBody (dr_Game ev) [e]));
  Ok e.

Definition league (name : bytes) (b : Board) : result host_error AreaInfo :=
  match GetAnyArea name b with
  | Err _ => Err (ErrNotALeague name)
  | Ok a => _ ← require (bool_decide (ar_Kind a = GossipStore.KindDoor)) (ErrNotALeague (ar_Name a)); Ok a
  end.

Definition QueueDoorEvent (now : Z) (aliases : list Alias) (ev : DoorEventRequest) (b : Board) : result host_error unit * Board :=
  match (a ← league (dr_Area ev) b;
         _ ← require (ar_Federated a) (ErrNotALeague (ar_Name a));
         e ← league_event aliases ev;
         Ok (ar_Name a, e)) with
  | Err e => (Err e, b)
  | Ok (area, e) =>
      let '(r, b) := store_QueueDoorEvent now (dr_Door ev) area (dr_Game ev) e b in
      (wrap_err HostError r, b)
  end.

(** How node IDs and payloads are rendered for the door is in DoorApi. *)
Definition PollDoorEvents (area game : bytes) (after : Z) (b : Board) : result host_error DoorEventBatch :=
  a ← league area b;
  let '(events, cursor, truncated) := DoorEventsSince (ar_Tag a) game after 0 (log b) in
  Ok (mkBatch events cursor truncated).

(** ** Out of the queue (bbs/doorevents.go, mesh_serve.go) *)

Definition event_body (game : bytes) (events : list Queued) : DoorEvent.DoorEventBody :=
  DoorEvent.mkDoorEventBody game (q_Event <$> events).

Definition PublishDoorEvents (now : Z) (areaName game : bytes) (events : list Queued) (s : Service P E) : result board_error ID * Service P E :=
  if bool_decide (events = []) then (Err NoEventsToPublish, s)
  else match GetDoorArea areaName (board s) with
  | Err e => (Err e, s)
  | Ok a =>
      if negb (ar_Federated a) then (Err (NoLongerFederated (ar_Name a)), s)
      else match NextSeq (ar_Tag a) (log (board s)) with
      | (Err e, l) => (Err (NotLogged e), with_board (with_log l (board s)) s)
      | (Ok seq, l) =>
          let s := with_board (with_log l (board s)) s in
          match NewDoorEventRecord key seq (u32 now) (ar_Tag a) (event_body game events) with
          | Err e => (Err (NotBuilt e), s)
          | Ok rec =>
              match put now rec (board s) with
              | (Some e, b) => (Err e, with_board b s)
              | (None, b) => (Ok (id rec), publish (ar_Tag a) rec (with_board b s))
              end
          end
      end
  end.

Definition pickQueued (queued : list Queued) (chosen : list Event) : list Queued :=
  let byID := foldl (λ m q, <[q_ID q := q]> m) (∅ : gmap Z Queued) queued in
  omap (λ e, byID !! ev_ID e) chosen.

Definition item (q : Queued) : Event := mkEvent (q_ID q) (q_QueuedAt q * Second).

(** What is decided about one group, and done. *)
Definition flush_group (now : Z) (p : Policy) (g : bytes * bytes) (s : Service P E) : Service P E :=
  let queued := QueuedDoorEvents g.1 g.2 (board s) in
  let d := Consider now p (item <$> queued) in
  let s := with_board (DeleteQueuedDoorEvents (ev_ID <$> Expire d) (board s)) s in
  if bool_decide (Flush d = []) then s
  else match PublishDoorEvents (now / Second) g.1 g.2 (pickQueued queued (Flush d)) s with
  | (Err _, s) => s
  | (Ok _, s) => with_board (DeleteQueuedDoorEvents (ev_ID <$> Flush d) (board s)) s
  end.

(** The policy of an area: the sysop's window, or what the governor's rate gives. What
    the governor allows an area does not change while the queue is flushed. *)
Definition policyFor (maxAge : Z) (window : option Z) (gov : Governor.Governor) (area : bytes) : Policy :=
  NewPolicy (mkPolicy (default (DeriveWindow (Governor.AreaPacketsPerDay (AreaTagFor area) gov)) window) maxAge 0).

Definition flushDoorEvents (now maxAge : Z) (window : option Z) (gov : Governor.Governor) (s : Service P E) : Service P E :=
  foldl (λ s g, flush_group now (policyFor maxAge window gov g.1) g s) s (DoorEventGroups (board s)).
End leagues.
