(* ===== verification/LeaguesFacts.v ===== *)
(** * What becomes of league events

    The theorems on Leagues: what the queue takes, how a flush settles every waiting
    event, and that polling delivers each event of a league once. *)

From stdpp Require Import strings relations.
From S2P Require Import Prelude Binary Identity Order Text GoStrings Float64.
From S2P Require Governor.
From S2P Require Import NodeNames Records RecordLog.
From S2P Require DoorEvent VersionVector GossipStore.
From S2P Require Import Board Areas Service Leagues.

#[local] Existing Instance DoorEvent.DoorEvent_eq_dec.
#[export] Instance Queued_eq_dec : EqDecision Queued.
Proof. solve_decision. Defined.

Lemma filter_ext_in {A} (P Q : A → Prop) `{!∀ x, Decision (P x), !∀ x, Decision (Q x)} (l : list A) :
  (∀ x, x ∈ l → P x ↔ Q x) → filter P l = filter Q l.
Proof.
  induction l as [|x l IH]; intros Hpq; [done|]. rewrite !filter_cons, IH by (intros y Hy; apply Hpq; by right).
  pose proof (Hpq x ltac:(by left)) as Hx. destruct (decide (P x)), (decide (Q x)); naive_solver.
Qed.

Lemma filter_true {A} (P : A → Prop) `{!∀ x, Decision (P x)} (l : list A) : (∀ x, x ∈ l → P x) → filter P l = l.
Proof.
  induction l as [|x l IH]; intros Hall; [done|]. rewrite filter_cons_True by (apply Hall; by left). f_equal. apply IH. intros y Hy. apply Hall. by right.
Qed.

Lemma filter_none {A} (P : A → Prop) `{!∀ x, Decision (P x)} (l : list A) : (∀ x, x ∈ l → ¬ P x) → filter P l = [].
Proof.
  induction l as [|x l IH]; intros Hall; [done|]. rewrite filter_cons_False by (apply Hall; by left). apply IH. intros y Hy. apply Hall. by right.
Qed.

Lemma filter_map {A B} (f : A → B) (P : B → Prop) (Q : A → Prop) `{!∀ x, Decision (P x), !∀ x, Decision (Q x)} (l : list A) :
  (∀ x, P (f x) ↔ Q x) → filter P (f <$> l) = f <$> filter Q l.
Proof.
  intros Hpq. induction l as [|x l IH]; [done|]. rewrite fmap_cons, !filter_cons, IH. specialize (Hpq x).
  destruct (decide (P (f x))), (decide (Q x)); naive_solver.
Qed.

(** ** What the table takes *)

Lemma text_length_bound lead s : 0 ≤ text_length lead s ≤ strlen s.
Proof.
  unfold strlen. revert lead. induction s as [|c s IH]; intros lead; cbn [text_length length]; [lia|].
  case_bool_decide; [lia|]. destruct (lead && _ && _); [specialize (IH true)|specialize (IH (0xc0 <=? b2z c))]; lia.
Qed.

Lemma text_length_pos w s max : s ≠ [] → validateLabel w s max = Ok tt → 1 ≤ text_length false s.
Proof.
  intros Hne (_ & _ & Hall)%validateLabel_no_control. destruct s as [|c s]; [done|]. apply Forall_cons in Hall as [[Hc _] _]. cbn [text_length andb].
  rewrite bool_decide_false by (intros ->; change (b2z Byte.x00) with 0 in Hc; lia). pose proof (text_length_bound (0xc0 <=? b2z c) s). lia.
Qed.

(** An event that encodes passes every CHECK of the table. *)
Lemma event_fits_valid game e : DoorEvent.valid_batch (DoorEvent.mkDoorEventBody game [e]) → event_fits game e = true.
Proof.
  intros (Hg & Hgl & _ & _ & [(Ha & Hal & Ht & Hp) _]%Forall_cons). cbn [DoorEvent.Game] in *.
  pose proof (text_length_pos _ _ _ Hg Hgl). pose proof (text_length_pos _ _ _ Ha Hal).
  pose proof (text_length_bound false game). pose proof (text_length_bound false (DoorEvent.Actor e)). pose proof (text_length_bound false (DoorEvent.Target e)).
  apply validateLabel_length in Hgl, Hal. change DoorEvent.MaxDoorGameLen with 16 in *. change Bodies.Profile.MaxNickLen with 24 in *. change DoorEvent.MaxDoorEventPayloadLen with 48 in *.
  assert (Htl : strlen (DoorEvent.Target e) ≤ 24) by (destruct Ht as [[-> _]|(_ & Hv%validateLabel_length & _)]; [done|exact Hv]).
  unfold event_fits, strlen in *. rewrite !andb_true_iff, !Z.leb_le. lia.
Qed.

Lemma stored_event_valid game e : DoorEvent.valid_batch (DoorEvent.mkDoorEventBody game [e]) → stored_event e = e.
Proof.
  intros (_ & _ & _ & _ & [(_ & _ & Ht & _) _]%Forall_cons). unfold stored_event. case_bool_decide as E; [|done].
  destruct Ht as [[Ht Hn]|(? & _)]; [|done]. destruct e; cbn in *. by subst.
Qed.

(** ** The queue over time *)

Definition waits (q : Queued) : Prop := q_Area q ≠ [] ∧ DoorEvent.valid_batch (DoorEvent.mkDoorEventBody (q_Game q) [q_Event q]).

Definition queue_ok (b : Board) : Prop :=
  Forall waits (queue b) ∧ StronglySorted Z.lt (q_ID <$> queue b) ∧ Forall (λ q, q_ID q ≤ last_queued b) (queue b).

Lemma sorted_sublist (l l' : list Z) : l `sublist_of` l' → StronglySorted Z.lt l' → StronglySorted Z.lt l.
Proof.
  induction 1 as [|x l l' Hs IH|x l l' Hs IH]; [done| |]; intros [H1 H2]%StronglySorted_inv; [|by apply IH].
  constructor; [by apply IH|]. rewrite Forall_forall in *. intros y Hy. apply H2. by eapply elem_of_sublist.
Qed.

Lemma filter_queue_ok (P : Queued → Prop) `{!∀ q, Decision (P q)} l b :
  queue_ok b → queue_ok (with_queue (filter P (queue b)) (last_queued b) (with_log l b)).
Proof.
  intros (Hw & Hs & Hl). unfold queue_ok. cbn [queue last_queued with_queue with_log]. split_and!.
  - by apply Forall_kept.
  - eapply sorted_sublist; [|exact Hs]. apply fmap_sublist, sublist_filter.
  - by apply Forall_kept.
Qed.

Lemma sorted_ids (l : list Queued) : StronglySorted Z.lt (q_ID <$> l) → sort_by q_ID Z.ltb l = l.
Proof.
  intros H. apply sort_by_id. remember (q_ID <$> l) as ids eqn:E. revert l E. induction H as [|x ids Hs IH Hx]; intros [|q l]; try done; [constructor|].
  cbn. intros [= -> ->]. constructor; [by apply IH|]. apply (Forall_fmap q_ID) in Hx. eapply Forall_impl; [exact Hx|]. intros q'. apply Z.ltb_lt.
Qed.

Lemma ids_unique b q q' : queue_ok b → q ∈ queue b → q' ∈ queue b → q_ID q = q_ID q' → q = q'.
Proof.
  intros (_ & Hs & _) Hq Hq' E. apply (NoDup_key_inj q_ID Z.ltb (queue b)); [|done|done|done].
  clear -Hs. induction Hs as [|x l Hs IH Hx]; constructor; [|done]. intros Hin. rewrite Forall_forall in Hx. specialize (Hx x Hin). lia.
Qed.

(** What one group has waiting. *)
Definition mine (g : bytes * bytes) (qs : list Queued) : list Queued := filter (λ q, group_of q = g) qs.

Lemma QueuedDoorEvents_mine g b : queue_ok b → g.1 ≠ [] → QueuedDoorEvents g.1 g.2 b = mine g (queue b).
Proof.
  intros (_ & Hs & _) Hg. unfold QueuedDoorEvents, mine.
  assert (E : filter (λ q, g.1 = [] ∨ group_of q = (g.1, g.2)) (queue b) = filter (λ q, group_of q = g) (queue b)).
  { apply list_filter_iff. intros q. destruct g; cbn in *. naive_solver. }
  rewrite E. apply sorted_ids. eapply sorted_sublist; [|exact Hs]. apply fmap_sublist, sublist_filter.
Qed.

(** ** What is due *)

Definition is_fresh (now : Z) (p : Policy) (q : Queued) : Prop := expired now p (item q) = false.
#[export] Instance is_fresh_dec now p q : Decision (is_fresh now p q).
Proof. unfold is_fresh. apply _. Defined.

(** The batch that goes out now: a full one, or whatever there is once the oldest event
    has waited out the window. *)
Definition due (now : Z) (p : Policy) (qs : list Queued) : list Queued :=
  if BatchMax p <=? Z.of_nat (length qs) then take (Z.to_nat (BatchMax p)) qs
  else match qs with q :: _ => if Window p <=? Sub now (q_QueuedAt q * Second) then qs else [] | [] => [] end.

Definition batch (now : Z) (p : Policy) (g : bytes * bytes) (qs : list Queued) : list Queued := due now p (filter (is_fresh now p) (mine g qs)).

Lemma Consider_items now p qs :
  1 ≤ BatchMax p →
  Expire (Consider now p (item <$> qs)) = item <$> filter (λ q, ¬ is_fresh now p q) qs ∧
  Flush (Consider now p (item <$> qs)) = item <$> due now p (filter (is_fresh now p) qs).
Proof.
  intros Hm. unfold Consider, due.
  rewrite (filter_map item (λ e, expired now p e = true) (λ q, ¬ is_fresh now p q)) by (intros q; cbn beta; unfold is_fresh; destruct (expired now p (item q)); naive_solver).
  rewrite (filter_map item _ (is_fresh now p)) by done. destruct (filter (is_fresh now p) qs) as [|q l]; cbn [fmap list_fmap].
  { cbn [length Expire Flush]. destruct (Z.leb_spec (BatchMax p) (Z.of_nat 0)); [lia|]. done. }
  rewrite <- (fmap_cons item). rewrite length_fmap. destruct (BatchMax p <=? _).
  - cbn [Expire Flush]. by rewrite <- fmap_take.
  - cbn [ev_QueuedAt item]. destruct (Window p <=? _); cbn [Expire Flush]; done.
Qed.

Lemma due_sublist now p qs : due now p qs `sublist_of` qs.
Proof. unfold due. destruct (_ <=? _); [apply sublist_take|]. destruct qs as [|q l]; [done|]. destruct (_ <=? _); [done|apply sublist_nil_l]. Qed.

Lemma due_length now p qs : BatchMax p ≤ 8 → Z.of_nat (length (due now p qs)) ≤ 8.
Proof.
  intros Hm. unfold due. destruct (Z.leb_spec (BatchMax p) (Z.of_nat (length qs))).
  - rewrite length_take. lia.
  - destruct qs as [|q l]; [cbn; lia|]. destruct (_ <=? _); cbn [length] in *; lia.
Qed.

Lemma batch_sublist now p g qs : batch now p g qs `sublist_of` mine g qs.
Proof. etrans; [apply due_sublist|apply sublist_filter]. Qed.

Lemma pickQueued_items b qs chosen :
  queue_ok b → qs `sublist_of` queue b → chosen `sublist_of` qs → pickQueued qs (item <$> chosen) = chosen.
Proof.
  intros Hok Hqs Hch. unfold pickQueued.
  assert (Hmap : ∀ l (m : gmap Z Queued), l `sublist_of` queue b → ∀ q, q ∈ l ∨ q ∈ queue b ∧ m !! q_ID q = Some q → foldl (λ m q, <[q_ID q := q]> m) m l !! q_ID q = Some q).
  { induction l as [|x l IH]; intros m Hl q Hq; cbn [foldl]; [by destruct Hq as [?%not_elem_of_nil|[_ ?]]|].
    assert (Hx : x ∈ queue b) by (eapply elem_of_sublist; [by left|exact Hl]).
    assert (Hqb : q ∈ queue b) by (destruct Hq as [Hq|[Hq _]]; [by eapply elem_of_sublist|done]).
    apply IH; [etrans; [apply sublist_cons|exact Hl]; done|]. destruct (decide (q_ID x = q_ID q)) as [E|Hne].
    - right. split; [done|]. rewrite <- E, lookup_insert_eq. f_equal. by apply (ids_unique b).
    - rewrite lookup_insert_ne by done. destruct Hq as [[->|Hq]%elem_of_cons|Hq]; [done|by left|by right]. }
  set (m := foldl _ _ qs). assert (Hm : ∀ q, q ∈ qs → m !! q_ID q = Some q) by (intros q Hq; apply Hmap; [done|by left]). clearbody m. clear Hmap.
  assert (Hin : Forall (λ q, q ∈ qs) chosen) by (apply Forall_forall; intros q Hq; by eapply elem_of_sublist).
  clear Hch. induction Hin as [|q l Hq _ IH]; [done|]. cbn. rewrite Hm by done. by rewrite IH.
Qed.

(** ** Publishing a batch *)

Section publishing.
Context {P E : Type} `{HB : Blake3, HE : Ed25519, HD : SqlDriver, HP : !Publisher P E} (key : NodeKey).

(** One service state as another but for the board's tables. *)
Lemma publish_others area r (s : Service P E) b : publish area r (with_board b s) = with_board b (publish area r s).
Proof. unfold publish. cbn [publisher with_board]. destruct (publisher s) as [p|]; [|done]. by destruct (Publish p area [r]) as [p' [e|]]. Qed.

(** The league an area name stands for, if events may go out to it. *)
Definition open_league (name : bytes) (b : Board) (a : AreaInfo) : Prop := GetDoorArea name b = Ok a ∧ ar_Federated a = true.

(** What a record of a batch says. *)
Definition carries (now : Z) (tag : AreaTag) (game : bytes) (events : list Queued) (rec : Rec) : Prop :=
  Origin (fields rec) = NodeKey_ID key ∧ Area (fields rec) = tag ∧ Type_ (fields rec) = TypeDoorEvent ∧ TS (fields rec) = u32 now ∧
  DoorEvent.UnmarshalDoorEventBody (Body (fields rec)) = Ok (event_body game events) ∧ Verify rec (Public key) = Ok tt ∧ wf_rec rec.

Lemma batch_body game events :
  events ≠ [] → Z.of_nat (length events) ≤ 8 → Forall (λ q, waits q ∧ q_Game q = game) events →
  ∃ body, DoorEvent.MarshalDoorEventBody (event_body game events) = Ok body ∧ DoorEvent.UnmarshalDoorEventBody body = Ok (event_body game events) ∧
    body_ok TypeDoorEvent body ∧ body ≠ [].
Proof.
  intros Hne Hlen Hall.
  assert (Hv : DoorEvent.valid_batch (event_body game events)).
  { split_and!.
    - destruct Hall as [|q l [(_ & Hv & _) Hq] _]; [done|]. by rewrite <- Hq.
    - destruct Hall as [|q l [(_ & _ & Hv & _) Hq] _]; [done|]. by rewrite <- Hq.
    - by destruct events.
    - cbn [DoorEvent.Events event_body]. rewrite length_fmap. exact Hlen.
    - cbn [DoorEvent.Events event_body]. apply Forall_fmap. eapply Forall_impl; [exact Hall|]. cbn. by intros q [(_ & _ & _ & _ & _ & [Hq _]%Forall_cons) _]. }
  pose proof (proj2 (DoorEvent.MarshalDoorEventBody_Ok (event_body game events) _) (conj Hv eq_refl)) as Hm. eexists. split; [exact Hm|].
  assert (Hu : DoorEvent.UnmarshalDoorEventBody (DoorEvent.door_wire (event_body game events)) = Ok (event_body game events)) by (by apply DoorEvent.UnmarshalDoorEventBody_spec).
  split; [exact Hu|]. apply DoorEvent.MarshalDoorEventBody_length in Hm as [_ Hl]. split; [|done]. split_and!; [done|unfold MaxBodyLen; lia|done|by eexists].
Qed.

(** Publishing is minting: the same steps as for any other record. *)
Lemma PublishDoorEvents_minted now areaName game events s a body :
  events ≠ [] → open_league areaName (board s) a → DoorEvent.MarshalDoorEventBody (event_body game events) = Ok body →
  PublishDoorEvents key now areaName game events s =
    let '(r, b) := newRecord key now TypeDoorEvent (ar_Tag a) body (board s) in
    match r with
    | Err e => (Err e, with_board b s)
    | Ok rec => match put now rec b with (Some e, b) => (Err e, with_board b s) | (None, b) => (Ok (id rec), publish (ar_Tag a) rec (with_board b s)) end
    end.
Proof.
  intros Hne [Hg Hf] Hm. unfold PublishDoorEvents, newRecord. rewrite bool_decide_false, Hg, Hf by done. cbn [negb].
  destruct (NextSeq (ar_Tag a) (log (board s))) as [[seq|e] l]; [|done]. cbn [board with_board]. unfold NewDoorEventRecord. rewrite Hm. cbn [wrap_err mbind result_bind].
  fold (node_fields key seq (u32 now) TypeDoorEvent (ar_Tag a) body). destruct (New key _) as [rec|e]; cbn [wrap_err]; [|done].
  by destruct (put now rec (with_log l (board s))) as [[e|] b].
Qed.

Definition same_but_log (b b' : Board) : Prop := ∃ l, b' = with_log l b.

Lemma PublishDoorEvents_spec now areaName game events s :
  own_ok key (log (board s)) → key_named key → valid_key key → driver_limit →
  events ≠ [] → Z.of_nat (length events) ≤ 8 → Forall (λ q, waits q ∧ q_Game q = game) events →
  let '(r, s') := PublishDoorEvents key now areaName game events s in
  (is_ok r = true ↔ ∃ a, open_league areaName (board s) a ∧ binds (AreaHighWater (ar_Tag a) (log (board s)) + 1) = true) ∧
  match r with
  | Err _ => s' = s
  | Ok i => ∃ a rec l, open_league areaName (board s) a ∧ id rec = i ∧ carries now (ar_Tag a) game events rec ∧
      Seq (fields rec) = AreaHighWater (ar_Tag a) (log (board s)) + 1 ∧
      s' = publish (ar_Tag a) rec (with_board (with_log l (board s)) s) ∧ own_ok key l ∧
      (∀ t, AreaHighWater t l = AreaHighWater t (log (board s)) + if decide (ar_Tag a = t) then 1 else 0) ∧
      rows l = rows (log (board s)) ++ if HasRecord (id rec) (log (board s)) then [] else [row_of now (record_local_seq (log (board s)) + 1) rec]
  end.
Proof.
  intros Hown Hk Hv Hd Hne Hlen Hall. destruct (batch_body game events Hne Hlen Hall) as (body & Hm & Hu & Hbody & Hnil).
  destruct (GetDoorArea areaName (board s)) as [a|e] eqn:Hg; cycle 1.
  { unfold PublishDoorEvents. rewrite bool_decide_false, Hg by done. split; [|done]. split; [done|]. intros (a & [Hx _] & _). congruence. }
  destruct (ar_Federated a) eqn:Hf; cycle 1.
  { unfold PublishDoorEvents. rewrite bool_decide_false, Hg, Hf by done. split; [|done]. split; [done|]. intros (a' & [Hx Hf'] & _). congruence. }
  assert (Ho : open_league areaName (board s) a) by done.
  assert (Huniq : ∀ a', open_league areaName (board s) a' → a' = a) by (intros a' [Hx _]; destruct Ho; congruence).
  rewrite (PublishDoorEvents_minted now areaName game events s a body Hne Ho Hm).
  pose proof (mint_spec key now TypeDoorEvent (ar_Tag a) body (board s) Hown Hk Hd Hnil) as Hmint. cbv zeta in Hmint.
  destruct (newRecord key now TypeDoorEvent (ar_Tag a) body (board s)) as [[rec|e] b1] eqn:Hn.
  - destruct Hmint as (Hb & _ & Hnew & Hfl & Hwf & l & -> & Hol & _ & Hml & Hrl). split; [split; [intros _; by exists a|done]|].
    exists a, rec, l. split_and!; [done|done| |by rewrite Hfl|done|done|done|done].
    unfold carries. rewrite Hfl. split_and!; [done|done|done|done|exact Hu|by eapply New_Verify|done].
  - destruct Hmint as (Hno & _). assert (Hb : binds (AreaHighWater (ar_Tag a) (log (board s)) + 1) = false).
    { destruct (binds _) eqn:Hb; [|done]. by destruct Hno. }
    split; [split; [done|]; intros (a' & ->%Huniq & Hb'); congruence|].
    unfold newRecord, NextSeq in Hn. cbv zeta in Hn. rewrite Hb in Hn. injection Hn as _ <-. destruct s as [b p r], b; done.
Qed.
End publishing.

(** ** A flush *)

Section flushing.
Context {P E : Type} `{HB : Blake3, HE : Ed25519, HD : SqlDriver, HP : !Publisher P E} (key : NodeKey) (now : Z) (pol : bytes → Policy).
Context (Hk : key_named key) (Hv : valid_key key) (Hd : driver_limit) (Hbm : ∀ a, 1 ≤ BatchMax (pol a) ≤ 8).

Abbreviation group := (bytes * bytes)%type.
Definition batch_of (g : group) (qs : list Queued) : list Queued := batch now (pol g.1) g qs.
Definition still_fresh (q : Queued) : Prop := is_fresh now (pol (q_Area q)) q.

(** What the groups [gs] leave waiting when [dn] of them were published. *)
Definition leaves (gs dn : list group) (qs : list Queued) : list Queued :=
  filter (λ q, group_of q ∈ gs → still_fresh q ∧ (group_of q ∈ dn → q ∉ batch_of (group_of q) qs)) qs.

Lemma DeleteQueuedDoorEvents_items b X :
  queue_ok b → X `sublist_of` queue b →
  DeleteQueuedDoorEvents (ev_ID <$> (item <$> X)) b = with_queue (filter (λ q, q ∉ X) (queue b)) (last_queued b) b.
Proof.
  intros Hok HX. unfold DeleteQueuedDoorEvents. f_equal. apply filter_ext_in. intros q Hq. rewrite <- list_fmap_compose.
  split; intros Hn Hin; apply Hn.
  - apply list_elem_of_fmap. by exists q.
  - apply list_elem_of_fmap in Hin as (q' & E' & Hq'). cbn in E'. rewrite (ids_unique b q q'); [done|done|done| |done]. by eapply elem_of_sublist.
Qed.

Lemma mine_in g q qs : q ∈ mine g qs ↔ q ∈ qs ∧ group_of q = g.
Proof. unfold mine. rewrite list_elem_of_filter. tauto. Qed.

Lemma batch_in g q qs : q ∈ batch_of g qs → q ∈ qs ∧ group_of q = g ∧ is_fresh now (pol g.1) q.
Proof.
  intros Hq. apply (elem_of_sublist _ (filter (is_fresh now (pol g.1)) (mine g qs))) in Hq; [|apply due_sublist].
  apply list_elem_of_filter in Hq as [Hf [Hq Hg]%mine_in]. done.
Qed.

Definition with_waiting (l : Db) (qs : list Queued) (b : Board) : Board := with_queue qs (last_queued b) (with_log l b).

Lemma same_areas l qs b name a : open_league name (with_waiting l qs b) a ↔ open_league name b a.
Proof. done. Qed.

Lemma fresh_sublist g qs : batch_of g qs `sublist_of` leaves [g] [] qs.
Proof.
  etrans; [apply due_sublist|]. assert (Hm : filter (is_fresh now (pol g.1)) (mine g qs) = mine g (leaves [g] [] qs)); [|rewrite Hm; apply sublist_filter].
  unfold mine, leaves. rewrite !list_filter_filter. apply list_filter_iff. intros q. rewrite list_elem_of_singleton. unfold still_fresh.
  split; [intros [Hf Hg]; split; [done|intros _; split; [by rewrite <- Hg in Hf|by intros ?%not_elem_of_nil]]|].
  intros [Hg Hl]. destruct (Hl Hg) as [Hf _]. split; [by rewrite <- Hg|done].
Qed.

(** One group: published when it is due, the league is open and a number can be had. *)
Lemma flush_group_spec (g : group) (s : Service P E) :
  own_ok key (log (board s)) → queue_ok (board s) → g.1 ≠ [] →
  let s' := flush_group key now (pol g.1) g s in
  let bt := batch_of g (queue (board s)) in
  (bt ≠ [] ∧ ∃ a rec l, open_league g.1 (board s) a ∧ carries key (now / Second) (ar_Tag a) g.2 bt rec ∧
     AreaHighWater (ar_Tag a) (log (board s)) < Seq (fields rec) ∧ own_ok key l ∧
     (∀ t, AreaHighWater t l = AreaHighWater t (log (board s)) + if decide (ar_Tag a = t) then 1 else 0) ∧
     rows l = rows (log (board s)) ++ (if HasRecord (id rec) (log (board s)) then [] else [row_of (now / Second) (record_local_seq (log (board s)) + 1) rec]) ∧
     board s' = with_waiting l (leaves [g] [g] (queue (board s))) (board s) ∧
     publisher s' = publisher (publish (ar_Tag a) rec s) ∧ reports s' = reports (publish (ar_Tag a) rec s)) ∨
  ((bt = [] ∨ ¬ ∃ a, open_league g.1 (board s) a ∧ binds (AreaHighWater (ar_Tag a) (log (board s)) + 1) = true) ∧
   board s' = with_waiting (log (board s)) (leaves [g] [] (queue (board s))) (board s) ∧ publisher s' = publisher s ∧ reports s' = reports s).
Proof using Hk Hv Hd Hbm.
  intros Hown Hok Hg. cbv zeta. unfold flush_group. rewrite QueuedDoorEvents_mine by done.
  destruct (Consider_items now (pol g.1) (mine g (queue (board s))) ltac:(apply Hbm)) as [-> ->].
  fold (batch now (pol g.1) g (queue (board s))). fold (batch_of g (queue (board s))). set (bt := batch_of g (queue (board s))).
  set (old := filter (λ q, ¬ is_fresh now (pol g.1) q) (mine g (queue (board s)))).
  assert (Hmine : mine g (queue (board s)) `sublist_of` queue (board s)) by apply sublist_filter.
  assert (Hbt : bt `sublist_of` mine g (queue (board s))) by apply batch_sublist.
  rewrite DeleteQueuedDoorEvents_items by (first [done|etrans; [apply sublist_filter|done]]).
  set (b1 := with_queue _ _ (board s)). set (s1 := with_board b1 s).
  assert (Hq1 : queue b1 = leaves [g] [] (queue (board s))).
  { apply filter_ext_in. intros q Hq. unfold old. rewrite list_elem_of_filter, mine_in, list_elem_of_singleton. unfold still_fresh.
    split; [intros Hno Hgq; split; [|by intros ?%not_elem_of_nil]|intros Hin (Hf & _ & Hgq)]; [|destruct (Hin Hgq) as [Hf' _]].
    - apply dec_stable. intros Hf. apply Hno. rewrite <- Hgq in *. done.
    - rewrite <- Hgq in Hf. done. }
  assert (Hb1 : b1 = with_waiting (log (board s)) (leaves [g] [] (queue (board s))) (board s)).
  { rewrite <- Hq1. unfold b1. by destruct (board s). }
  case_bool_decide as Hnil.
  { right. split; [left; by apply fmap_nil_inv in Hnil|]. done. }
  assert (Hne : bt ≠ []) by (intros E'; apply Hnil; by rewrite E').
  rewrite (pickQueued_items (board s)) by done.
  assert (Hok1 : queue_ok b1) by (rewrite Hb1; by apply filter_queue_ok).
  assert (Hall : Forall (λ q, waits q ∧ q_Game q = g.2) bt).
  { apply Forall_forall. intros q (Hq & Hgq & _)%batch_in. destruct Hok as (Hw & _). rewrite Forall_forall in Hw. split; [by apply Hw|]. by rewrite <- Hgq. }
  pose proof (PublishDoorEvents_spec key (now / Second) g.1 g.2 bt s1 Hown Hk Hv Hd Hne (due_length _ _ _ (proj2 (Hbm _))) Hall) as Hp.
  destruct (PublishDoorEvents key (now / Second) g.1 g.2 bt s1) as [[i|e] s2]; destruct Hp as [Hiff Hp].
  - left. split; [done|]. destruct Hp as (a & rec & l & Ho & _ & Hc & Hs & -> & Hol & Hml & Hrl). exists a, rec, l.
    split_and!; [done|done|rewrite Hs; cbn; lia|done|done|done| | |]; [|cbn [publisher reports with_board]; unfold s1; by rewrite !publish_others..].
    cbn [board with_board]. rewrite publish_board. cbn [board with_board s1]. rewrite DeleteQueuedDoorEvents_items.
    + unfold with_waiting. cbn [queue last_queued with_log]. change (queue b1) with (queue b1). rewrite Hq1.
      assert (El : filter (λ q, q ∉ bt) (leaves [g] [] (queue (board s))) = leaves [g] [g] (queue (board s))); [|rewrite El, Hb1; done].
      unfold leaves. rewrite list_filter_filter. apply list_filter_iff. intros q. rewrite list_elem_of_singleton. fold bt.
      split; [intros [Hnb Hl] Hgq; destruct (Hl Hgq) as [Hf _]; split; [done|intros _; by rewrite Hgq]|].
      intros Hl. split; [|intros Hgq; destruct (Hl Hgq) as [Hf _]; by split; [|intros ?%not_elem_of_nil]].
      intros Hin. pose proof (batch_in _ _ _ Hin) as (_ & Hgq & _). destruct (Hl Hgq) as [_ Hx]. specialize (Hx Hgq). rewrite Hgq in Hx. done.
    + destruct Hok1 as (H1 & H2 & H3). done.
    + cbn [queue with_log]. rewrite Hq1. apply fresh_sublist.
  - right. subst s2. split; [right|done]. intros Hex. by apply Hiff in Hex.
Qed.

(** The federation's side of a service, and what handing records over does to it. *)
Definition fed (s : Service P E) : option P * list (report E) := (publisher s, reports s).
Definition hand_over (sent : list (group * (AreaTag * Rec))) (s : Service P E) : Service P E := foldl (λ s x, publish x.2.1 x.2.2 s) s sent.

Lemma fed_publish area r s t : fed s = fed t → fed (publish area r s) = fed (publish area r t).
Proof.
  destruct s as [b p r'], t as [b' p' r'']. unfold fed, publish. cbn [publisher reports]. intros [= -> ->]. destruct p' as [p'|]; [|done].
  by destruct (Publish p' area [r]) as [p2 [e|]].
Qed.
Lemma fed_hand_over sent s t : fed s = fed t → fed (hand_over sent s) = fed (hand_over sent t).
Proof. revert s t. induction sent as [|x sent IH]; intros s t Hst; [done|]. apply IH. by apply fed_publish. Qed.

Lemma leaves_other g h dn qs : h ≠ g → mine h (leaves [g] dn qs) = mine h qs.
Proof.
  clear. intros Hne. unfold mine, leaves. rewrite list_filter_filter. apply list_filter_iff. intros q. rewrite list_elem_of_singleton. naive_solver.
Qed.

Lemma batch_other g h dn qs : h ≠ g → batch_of h (leaves [g] dn qs) = batch_of h qs.
Proof. clear. intros Hne. unfold batch_of, batch. by rewrite leaves_other. Qed.

Lemma leaves_cons g gs dn1 dn2 qs :
  g ∉ gs → (∀ h, h ∈ dn1 → h = g) → (∀ h, h ∈ dn2 → h ∈ gs) →
  leaves gs dn2 (leaves [g] dn1 qs) = leaves (g :: gs) (dn1 ++ dn2) qs.
Proof.
  clear. intros Hg H1 H2.
  assert (Hb : ∀ h, h ≠ g → batch_of h (leaves [g] dn1 qs) = batch_of h qs) by (intros h Hh; by apply batch_other).
  set (bo := λ h, batch_of h (leaves [g] dn1 qs)).
  trans (filter (λ q, group_of q ∈ gs → still_fresh q ∧ (group_of q ∈ dn2 → q ∉ bo (group_of q))) (leaves [g] dn1 qs)); [done|].
  assert (Hbo : ∀ h, h ≠ g → bo h = batch_of h qs) by done. clearbody bo. clear Hb.
  unfold leaves. rewrite list_filter_filter. apply list_filter_iff. intros q.
  rewrite list_elem_of_singleton, elem_of_cons, elem_of_app. destruct (decide (group_of q = g)) as [E'|Hne].
  - rewrite E'. assert (Hn : g ∉ dn2) by naive_solver. naive_solver.
  - rewrite (Hbo _ Hne). assert (Hn : group_of q ∉ dn1) by naive_solver. naive_solver.
Qed.

(** What is true of each record sent: group, area and record. *)
Definition sent_ok (b : Board) (l : Db) (x : group * (AreaTag * Rec)) : Prop :=
  batch_of x.1 (queue b) ≠ [] ∧ (∃ a, open_league x.1.1 b a ∧ ar_Tag a = x.2.1) ∧
  carries key (now / Second) x.2.1 x.1.2 (batch_of x.1 (queue b)) x.2.2 ∧ HasRecord (id x.2.2) l = true ∧
  AreaHighWater x.2.1 (log b) < Seq (fields x.2.2).

Definition flushed (gs : list group) (s s' : Service P E) (dn : list (group * (AreaTag * Rec))) : Prop :=
  let b := board s in
  ∃ l new, dn.*1 `sublist_of` gs ∧ board s' = with_waiting l (leaves gs dn.*1 (queue b)) b ∧ own_ok key l ∧
    rows l = rows (log b) ++ new ∧ (row_rec <$> new) `sublist_of` dn.*2.*2 ∧ Forall (sent_ok b l) dn ∧
    fed s' = fed (hand_over dn s) ∧
    (∀ t, AreaHighWater t (log b) ≤ AreaHighWater t l ≤ AreaHighWater t (log b) + Z.of_nat (length gs)) ∧
    (∀ g a, g ∈ gs → batch_of g (queue b) ≠ [] → open_league g.1 b a →
       (∀ k, 0 < k ≤ Z.of_nat (length gs) → binds (AreaHighWater (ar_Tag a) (log b) + k) = true) → g ∈ dn.*1).

Definition run_groups (gs : list group) (s : Service P E) : Service P E := foldl (λ s g, flush_group key now (pol g.1) g s) s gs.

Lemma HasRecord_app i l l' new : rows l' = rows l ++ new → HasRecord i l = true → HasRecord i l' = true.
Proof. clear. unfold HasRecord. intros ->. rewrite existsb_app. by intros ->. Qed.

(** The step of the induction: what one group left, the rest of the flush completes. *)
Lemma flushed_cons (g : group) gs (s s1 s' : Service P E) dn1 dn2 l1 new1 :
  g ∉ gs → (∀ h, h ∈ dn1.*1 → h = g) → length dn1 = length (dn1.*1) →
  board s1 = with_waiting l1 (leaves [g] dn1.*1 (queue (board s))) (board s) → fed s1 = fed (hand_over dn1 s) →
  dn1.*1 `sublist_of` [g] → rows l1 = rows (log (board s)) ++ new1 → (row_rec <$> new1) `sublist_of` dn1.*2.*2 →
  Forall (sent_ok (board s) l1) dn1 →
  (∀ t, AreaHighWater t (log (board s)) ≤ AreaHighWater t l1 ≤ AreaHighWater t (log (board s)) + 1) →
  (∀ a, batch_of g (queue (board s)) ≠ [] → open_league g.1 (board s) a → binds (AreaHighWater (ar_Tag a) (log (board s)) + 1) = true → g ∈ dn1.*1) →
  flushed gs s1 s' dn2 → flushed (g :: gs) s s' (dn1 ++ dn2).
Proof.
  clear Hbm Hk Hv Hd. intros Hg H1 _ Hb1 Hf1 Hs1 Hr1 Hn1 Hsent1 Hm1 Hlive1 (l & new & Hsub & Hb & Hown & Hr & Hn & Hsent & Hf & Hm & Hlive). rewrite Hb1 in *. cbn [queue log with_waiting with_queue with_log] in *.
  assert (H2 : ∀ h, h ∈ dn2.*1 → h ∈ gs) by (intros h Hh; by eapply elem_of_sublist).
  exists l, (new1 ++ new). split_and!.
  - rewrite fmap_app. change (g :: gs) with ([g] ++ gs). by apply sublist_app.
  - rewrite Hb, fmap_app, <- (leaves_cons g gs) by done. done.
  - exact Hown.
  - by rewrite Hr, Hr1, (assoc_L (++)).
  - rewrite !fmap_app. by apply sublist_app.
  - apply Forall_app. split.
    + eapply Forall_impl; [exact Hsent1|]. intros x (Hne & Ho & Hc & Hh & Hs). split_and!; try done. by eapply HasRecord_app.
    + rewrite Forall_forall in *. intros x Hx. pose proof (H2 x.1 ltac:(apply list_elem_of_fmap; by exists x)) as Hin.
      assert (Hne : x.1 ≠ g) by (intros Heq; by rewrite Heq in Hin). destruct (Hsent x Hx) as (Hbt & Ho & Hc & Hh & Hs). cbn [queue log with_waiting with_queue with_log] in *.
      rewrite batch_other in Hbt, Hc by done. split_and!; try done. specialize (Hm1 x.2.1). cbn in Hs. lia.
  - rewrite Hf. unfold hand_over at 2. rewrite foldl_app. by apply fed_hand_over.
  - intros t. specialize (Hm1 t). specialize (Hm t). cbn [length]. lia.
  - intros h a Hh Hbt Ho Hbind. rewrite fmap_app. apply elem_of_app. apply elem_of_cons in Hh as [->|Hh].
    + left. apply (Hlive1 a); [done|done|]. apply Hbind. cbn [length]. lia.
    + right. assert (Hne : h ≠ g) by (intros ->; done). apply (Hlive h a Hh); [by rewrite batch_other|done|].
      intros k Hkk. specialize (Hm1 (ar_Tag a)). replace (AreaHighWater (ar_Tag a) l1 + k) with (AreaHighWater (ar_Tag a) (log (board s)) + (AreaHighWater (ar_Tag a) l1 - AreaHighWater (ar_Tag a) (log (board s)) + k)) by lia.
      apply Hbind. cbn [length]. lia.
Qed.

Lemma flush_groups_spec gs (s : Service P E) :
  own_ok key (log (board s)) → queue_ok (board s) → NoDup gs → (∀ g : group, g ∈ gs → g.1 ≠ []) → ∃ dn, flushed gs s (run_groups gs s) dn.
Proof using Hk Hv Hd Hbm.
  revert s. induction gs as [|g gs IH]; intros s Hown Hok Hnd Hgs.
  { assert (El : leaves [] [] (queue (board s)) = queue (board s)).
    { apply filter_true. by intros q _ ?%not_elem_of_nil. }
    exists [], (log (board s)), []. cbn [fmap list_fmap run_groups foldl]. rewrite El. split; [done|]. split; [by destruct (board s)|].
    split; [done|]. split; [by rewrite app_nil_r|]. split; [done|]. split; [constructor|]. split; [done|].
    split; [intros t; cbn; lia|by intros g a ?%not_elem_of_nil]. }
  apply NoDup_cons in Hnd as [Hg Hnd]. cbn [run_groups foldl]. fold (run_groups gs (flush_group key now (pol g.1) g s)).
  pose proof (flush_group_spec g s Hown Hok (Hgs g ltac:(by left))) as Hstep. cbv zeta in Hstep.
  set (s1 := flush_group key now (pol g.1) g s) in *.
  assert (Hrest : own_ok key (log (board s1)) → queue_ok (board s1) → ∃ dn, flushed gs s1 (run_groups gs s1) dn).
  { intros H1 H2. apply IH; [done|done|done|]. intros h Hh. apply Hgs. by right. }
  destruct Hstep as [(Hne & a & rec & l & Ho & Hc & Hs & Hol & Hml & Hrl & Hb & Hp & Hre)|(Hno & Hb & Hp & Hre)]; rewrite Hb in Hrest.
  - destruct (Hrest Hol (filter_queue_ok _ l _ Hok)) as [dn Hdn]. exists ([(g, (ar_Tag a, rec))] ++ dn).
    apply (flushed_cons g gs s s1 _ [(g, (ar_Tag a, rec))] dn l (if HasRecord (id rec) (log (board s)) then [] else [row_of (now / Second) (record_local_seq (log (board s)) + 1) rec])); cbn [fmap list_fmap fst snd]; try done.
    + by intros h ->%list_elem_of_singleton.
    + unfold fed. by rewrite Hp, Hre.
    + destruct (HasRecord _ _); [apply sublist_nil_l|]. cbn [fmap list_fmap]. by rewrite row_rec_of.
    + constructor; [|constructor]. split_and!; cbn [fst snd]; [done|by exists a|done| |done].
      destruct (HasRecord (id rec) (log (board s))) eqn:Hh; [by eapply HasRecord_app|]. unfold HasRecord. rewrite Hrl, existsb_app. cbn. rewrite bool_decide_true by done. by rewrite orb_true_r.
    + intros t. rewrite Hml. destruct (decide _); lia.
    + intros. by left.
  - destruct (Hrest Hown (filter_queue_ok _ _ _ Hok)) as [dn Hdn]. exists ([] ++ dn).
    apply (flushed_cons g gs s s1 _ [] dn (log (board s)) []); cbn [fmap list_fmap]; try done.
    + by intros h ?%not_elem_of_nil.
    + unfold fed. by rewrite Hp, Hre.
    + apply sublist_nil_l.
    + by rewrite app_nil_r.
    + intros t. lia.
    + intros a Hbt Ho Hbind. exfalso. destruct Hno as [?|Hno]; [done|]. apply Hno. by exists a.
Qed.
End flushing.

(** ** Polling *)

Section polling.
Context `{HB : Blake3, HE : Ed25519, HD : SqlDriver} (tag : AreaTag) (game : bytes).

(** A door that keeps the cursor of each answer for its next question, over the logs its
    questions meet. *)
Fixpoint poll_run (after : Z) (dbs : list Db) : list DeliveredDoorEvent * Z * bool :=
  match dbs with
  | [] => ([], after, false)
  | db :: dbs' =>
      let '(events, cursor, truncated) := DoorEventsSince tag game after 0 db in
      let '(events', cursor', truncated') := poll_run cursor dbs' in
      (events ++ events', cursor', truncated || truncated')
  end.

(** The logs of one node over time. *)
Inductive history : Db → list Db → Db → Prop :=
| history_end db : history db [] db
| history_poll db db1 dbs last : rtc RecordLog.step db db1 → history db1 dbs last → history db (db1 :: dbs) last.

Definition in_league (w : Row) : Prop := Area (columns w) = tag ∧ Type_ (columns w) = TypeDoorEvent.
#[local] Instance in_league_dec w : Decision (in_league w).
Proof. unfold in_league. apply _. Defined.

Lemma rows_sorted db : log_ok db → StronglySorted (lt_key local_seq Z.ltb) (rows db).
Proof.
  intros (_ & _ & _ & Hs & _). remember (local_seq <$> rows db) as ids eqn:E. revert E. generalize (rows db). induction Hs as [|x ids Hs IH Hx]; intros [|w l]; try done; [constructor|].
  cbn. intros [= -> ->]. constructor; [by apply IH|]. apply (Forall_fmap local_seq) in Hx. eapply Forall_impl; [exact Hx|]. intros v. apply Z.ltb_lt.
Qed.

Lemma filter_sorted {A} (R : A → A → Prop) (Q : A → Prop) `{!∀ x, Decision (Q x)} (l : list A) : StronglySorted R l → StronglySorted R (filter Q l).
Proof.
  induction 1 as [|x l Hs IH Hx]; [constructor|]. rewrite filter_cons. destruct (decide (Q x)); [|done]. constructor; [done|]. by apply Forall_kept.
Qed.

Lemma league_rows_eq db : log_ok db → league_rows tag db = filter in_league (rows db).
Proof. intros Hok. unfold league_rows. apply sort_by_id, filter_sorted, rows_sorted, Hok. Qed.

(** A page of a sorted list is what lies up to its last row. *)
Lemma page_prefix n c (l : list Row) :
  StronglySorted (lt_key local_seq Z.ltb) l →
  let page := take n (filter (λ w, c < local_seq w) l) in
  let c' := default c (local_seq <$> last page) in
  c ≤ c' ∧ filter (λ w, local_seq w ≤ c') l = filter (λ w, local_seq w ≤ c) l ++ page ∧
  ((length page < n)%nat → filter (λ w, local_seq w ≤ c') l = l).
Proof.
  intros Hs. cbv zeta. revert c n. induction Hs as [|x l Hs IH Hx]; intros c n; [cbn; rewrite take_nil; cbn; split; [lia|by split]|].
  assert (Hxl : ∀ y, y ∈ l → local_seq x < local_seq y) by (rewrite Forall_forall in Hx; intros y Hy; apply Z.ltb_lt, Hx, Hy).
  destruct (decide (c < local_seq x)) as [Hc|Hc].
  - rewrite filter_cons_True by done. assert (Hall : filter (λ w, c < local_seq w) l = l) by (apply filter_true; intros y Hy; specialize (Hxl y Hy); lia).
    rewrite Hall. assert (Hnone : ∀ k, k < local_seq x → filter (λ w, local_seq w ≤ k) (x :: l) = []).
    { intros k Hk. apply filter_none. intros y [->|Hy]%elem_of_cons; [lia|]. specialize (Hxl y Hy). lia. }
    rewrite (Hnone c Hc). destruct n as [|n]; [cbn; split_and!; [lia|by apply Hnone|lia]|]. cbn [take].
    specialize (IH (local_seq x) n). assert (Hall' : filter (λ w, local_seq x < local_seq w) l = l) by (apply filter_true; exact Hxl).
    rewrite Hall' in IH. assert (Hlast : default c (local_seq <$> last (x :: take n l)) = default (local_seq x) (local_seq <$> last (take n l))) by (rewrite last_cons; by destruct (last (take n l))).
    rewrite Hlast. destruct IH as (H1 & H2 & H3). split; [lia|]. rewrite filter_cons_True by lia.
    assert (Hl0 : filter (λ w, local_seq w ≤ local_seq x) l = []).
    { apply filter_none. intros y Hy. specialize (Hxl y Hy). lia. }
    rewrite Hl0 in H2. cbn [app] in *. split; [by rewrite H2|]. cbn [length]. intros Hlen. f_equal. apply H3. lia.
  - rewrite filter_cons_False by done. specialize (IH c n). destruct IH as (H1 & H2 & H3). split; [done|]. rewrite !filter_cons_True by lia. split; [cbn; by rewrite H2|]. intros Hlen. f_equal. by apply H3.
Qed.

Lemma sorted_split c (l : list Row) :
  StronglySorted (lt_key local_seq Z.ltb) l → l = filter (λ w, local_seq w ≤ c) l ++ filter (λ w, c < local_seq w) l.
Proof.
  induction 1 as [|x l Hs IH Hx]; [done|]. rewrite Forall_forall in Hx. destruct (decide (local_seq x ≤ c)) as [Hc|Hc].
  - rewrite filter_cons_True, filter_cons_False by lia. cbn. by rewrite <- IH.
  - rewrite filter_cons_False, (filter_cons_True (λ w, c < local_seq w)) by lia. rewrite filter_none, (filter_true (λ w, c < local_seq w)); [done| |];
      intros y Hy; specialize (Hx y Hy); apply Z.ltb_lt in Hx; lia.
Qed.

(** Arrival numbers start at one. *)
Definition numbered (db : Db) : Prop := 0 ≤ record_local_seq db ∧ Forall (λ w, 0 < local_seq w) (rows db).

Lemma step_numbered db db' : log_ok db → RecordLog.step db db' → numbered db → numbered db'.
Proof.
  intros Hok Hs [Hr Hall]. unfold numbered. destruct Hs as [now r db Hw|a db|self db|now n db].
  - pose proof (PutRecord_spec now r db) as H. destruct (PutRecord now r db) as [[e|] db']; cbn [snd]; [by destruct H as [-> _]|].
    destruct H as [[_ ->]|(_ & _ & ->)]; [done|]. cbn [rows record_local_seq insert_row]. split; [lia|]. apply Forall_app. split; [done|]. constructor; [cbn; lia|done].
  - pose proof (NextSeq_spec a db) as H. destruct (NextSeq a db). cbn [snd]. by destruct H as (-> & _ & -> & _).
  - pose proof Hok as (_ & _ & _ & _ & _ & _ & Hpos). pose proof (CheckSeqIntegrity_spec self db Hpos) as H.
    destruct (CheckSeqIntegrity self db). cbn [snd]. by destruct H as (_ & _ & _ & -> & _ & ->).
  - pose proof (PutNode_spec now n db Hok) as H. destruct (PutNode now n db) as [e db']. by destruct H as (_ & [m ->] & _).
Qed.

Definition sound (db : Db) : Prop := log_ok db ∧ numbered db.

Lemma steps_sound db db' : sound db → rtc RecordLog.step db db' → sound db'.
Proof. intros H Hs. induction Hs as [|? ? ? Hs _ IH]; [done|]. apply IH. destruct H as [H1 H2]. split; [by eapply step_log_ok|by eapply step_numbered]. Qed.

Lemma history_steps db dbs last : history db dbs last → rtc RecordLog.step db last.
Proof. induction 1; [done|]. by etrans. Qed.

(** A cursor some answer gave. *)
Definition given (c : Z) (db : Db) : Prop := c = 0 ∨ ∃ w, w ∈ league_rows tag db ∧ local_seq w = c.
Definition upto (c : Z) (db : Db) : list Row := filter (λ w, local_seq w ≤ c) (league_rows tag db).

Lemma league_grows db db' : sound db → rtc RecordLog.step db db' →
  ∃ new, league_rows tag db' = league_rows tag db ++ new ∧ ∀ w v, w ∈ league_rows tag db → v ∈ new → local_seq w < local_seq v.
Proof.
  intros [Hok Hnum] Hs. destruct (steps_grow _ _ Hok Hs) as [Hok' [new Hnew]]. exists (filter in_league new).
  rewrite !league_rows_eq, Hnew, filter_app by done. split; [done|].
  intros w v [_ Hw]%list_elem_of_filter [_ Hv]%list_elem_of_filter. apply rows_sorted in Hok'. rewrite Hnew in Hok'.
  clear -Hok' Hw Hv. revert Hok'. generalize (rows db), Hw. clear Hw. intros l Hw Hs. induction l as [|x l IH]; [by apply not_elem_of_nil in Hw|].
  cbn in Hs. apply StronglySorted_inv in Hs as [Hs Hx]. apply elem_of_cons in Hw as [->|Hw]; [|by apply IH].
  rewrite Forall_forall in Hx. apply Z.ltb_lt. apply Hx. apply elem_of_app. by right.
Qed.

Lemma given_later c db db' : sound db → rtc RecordLog.step db db' → given c db → given c db' ∧ upto c db' = upto c db.
Proof.
  intros Hs Hr Hg. destruct (league_grows db db' Hs Hr) as (new & Hnew & Hlt). unfold given, upto. rewrite Hnew.
  split; [destruct Hg as [?|(w & Hw & Hc)]; [by left|right; exists w; rewrite elem_of_app; tauto]|].
  rewrite filter_app, (filter_none _ new); [by rewrite app_nil_r|]. intros v Hv Hle. destruct Hg as [->|(w & Hw & <-)]; [|specialize (Hlt w v Hw Hv); lia].
  destruct (steps_sound _ _ Hs Hr) as [Hok' [_ Hpos]]. rewrite Forall_forall in Hpos.
  assert (Hin : v ∈ league_rows tag db') by (rewrite Hnew; apply elem_of_app; by right). rewrite league_rows_eq in Hin by done.
  apply list_elem_of_filter in Hin as [_ Hin]. specialize (Hpos v Hin). lia.
Qed.

(** One question. *)
Lemma DoorEventsSince_spec c db :
  sound db → given c db →
  let '(events, c', truncated) := DoorEventsSince tag game c 0 db in
  truncated = false ∧ c ≤ c' ∧ given c' db ∧
  ∃ page, events = page ≫= delivered game ∧ upto c' db = upto c db ++ page ∧ ((length page < 200)%nat → upto c' db = league_rows tag db).
Proof.
  intros [Hok Hnum] Hg. unfold DoorEventsSince. cbn [Z.leb]. change (Z.to_nat (if 0 <=? 0 then 200 else 0)) with 200%nat.
  assert (Hs : StronglySorted (lt_key local_seq Z.ltb) (league_rows tag db)) by (rewrite league_rows_eq by done; apply filter_sorted, rows_sorted, Hok).
  pose proof (page_prefix 200 c (league_rows tag db) Hs) as Hp. cbv zeta in Hp.
  set (page := take 200 (filter (λ w, c < local_seq w) (league_rows tag db))) in *. destruct Hp as (Hle & Hup & Hall). split_and!; [|exact Hle| |by exists page].
  - destruct (league_rows tag db) as [|w l] eqn:El; [done|]. apply andb_false_iff. destruct Hg as [->|(v & Hv & <-)]; [by left|right]. apply Z.ltb_ge.
    rewrite El in Hv. apply elem_of_cons in Hv as [->|Hv]; [lia|]. apply StronglySorted_inv in Hs as [_ Hx]. rewrite Forall_forall in Hx.
    specialize (Hx v Hv). apply Z.ltb_lt in Hx. lia.
  - destruct (last page) as [w|] eqn:Hl; [|exact Hg]. right. exists w. split; [|done]. apply last_Some in Hl as [l Hl].
    assert (Hw : w ∈ page) by (rewrite Hl; apply elem_of_app; right; by left). apply (elem_of_sublist _ (filter (λ w, c < local_seq w) (league_rows tag db))) in Hw; [|apply sublist_take].
    by apply list_elem_of_filter in Hw as [_ Hw].
Qed.

Lemma poll_run_spec db dbs last c :
  history db dbs last → sound db → given c db →
  let '(events, c', truncated) := poll_run c dbs in
  truncated = false ∧ c ≤ c' ∧ given c' last ∧ (upto c' last ≫= delivered game) = (upto c last ≫= delivered game) ++ events.
Proof.
  intros Hh. revert c. induction Hh as [db|db db1 dbs last Hs Hh IH]; intros c Hsound Hg; cbn [poll_run].
  { split_and!; [done|lia|done|by rewrite app_nil_r]. }
  pose proof (steps_sound _ _ Hsound Hs) as Hsound1. destruct (given_later c _ _ Hsound Hs Hg) as [Hg1 _].
  pose proof (DoorEventsSince_spec c db1 Hsound1 Hg1) as Hq. destruct (DoorEventsSince tag game c 0 db1) as [[events c1] tr].
  destruct Hq as (-> & Hle & Hgc1 & page & -> & Hup & _). specialize (IH c1 Hsound1 Hgc1). destruct (poll_run c1 dbs) as [[events' c'] tr'].
  destruct IH as (-> & Hle' & Hg' & Hev). split_and!; [done|lia|done|].
  pose proof (history_steps _ _ _ Hh) as Hrest. destruct (given_later c _ _ Hsound1 Hrest Hg1) as [_ E1]. destruct (given_later c1 _ _ Hsound1 Hrest Hgc1) as [_ E2].
  rewrite Hev, E2, E1, Hup, bind_app. by rewrite (assoc_L (++)).
Qed.

(** Asking on, of a log that does not change, reads 200 records a time to the end. *)
Lemma poll_to_end n c db :
  sound db → given c db → Z.of_nat (length (league_rows tag db)) < Z.of_nat (length (upto c db)) + 200 * Z.of_nat n →
  upto (poll_run c (replicate n db)).1.2 db = league_rows tag db.
Proof using HD.
  intros Hs. revert c. induction n as [|n IH]; intros c Hg Hn.
  { assert (Hle : (length (upto c db) ≤ length (league_rows tag db))%nat) by (apply sublist_length, sublist_filter). lia. }
  cbn [replicate poll_run]. pose proof (DoorEventsSince_spec c db Hs Hg) as Hq. destruct (DoorEventsSince tag game c 0 db) as [[events c1] tr].
  destruct Hq as (_ & _ & Hg1 & page & _ & Hup & Hall). specialize (IH c1 Hg1).
  destruct (decide (length page < 200)%nat) as [Hlt|Hge].
  - specialize (Hall Hlt). assert (IHn : ∀ m, upto (poll_run c1 (replicate m db)).1.2 db = league_rows tag db).
    { intros m. assert (Hh : history db (replicate m db) db) by (clear; induction m; [constructor|by econstructor]).
      pose proof (poll_run_spec db (replicate m db) db c1 Hh Hs Hg1) as Hp. destruct (poll_run c1 (replicate m db)) as [[e2 c2] t2]. destruct Hp as (_ & Hle & _ & _).
      cbn [fst snd]. apply filter_true. intros w Hw. rewrite <- Hall in Hw. apply list_elem_of_filter in Hw as [Hw _]. lia. }
    specialize (IHn n). by destruct (poll_run c1 (replicate n db)) as [[e2 c2] t2].
  - assert (Hn' : Z.of_nat (length (league_rows tag db)) < Z.of_nat (length (upto c1 db)) + 200 * Z.of_nat n) by (rewrite Hup, length_app; lia).
    specialize (IH Hn'). by destruct (poll_run c1 (replicate n db)) as [[e2 c2] t2].
Qed.

Lemma empty_sound : sound empty_db.
Proof. split; [apply empty_log_ok|]. split; [done|constructor]. Qed.

Lemma league_row_decodes db w : log_ok db → w ∈ league_rows tag db → ∃ d, DoorEvent.UnmarshalDoorEventBody (Body (columns w)) = Ok d.
Proof.
  intros Hok Hw. rewrite league_rows_eq in Hw by done. apply list_elem_of_filter in Hw as [[_ Ht] Hw]. destruct Hok as (_ & _ & Hwf & _).
  rewrite Forall_forall in Hwf. destruct (Hwf w Hw) as (_ & _ & _ & _ & Hd & _). cbn [fields row_rec] in Hd.
  unfold checkDoorEventBody in Hd. rewrite Ht in Hd. destruct (DoorEvent.UnmarshalDoorEventBody _) as [d|e]; [by eexists|done].
Qed.

(** C25: polling with the cursor each answer gives delivers a league once, in order, and
    whole. However records arrive between the questions, the answers so far are, in the
    order the records reached the node, the events of every record of the league up to
    the cursor, each once and none skipped, of the game asked for if one is; no answer
    claims that records were lost; and two hundred records a question, asking on reaches
    the end. *)
Theorem polling_delivers_once dbs last :
  history empty_db dbs last →
  let '(events, cursor, truncated) := poll_run 0 dbs in
  let read db := filter (λ w, local_seq w ≤ cursor) (league_rows tag db) in
  truncated = false ∧ events = (read last ≫= delivered game) ∧
  league_rows tag last = filter in_league (rows last) ∧ NoDup (local_seq <$> league_rows tag last) ∧
  (∀ w, w ∈ league_rows tag last → ∃ d, DoorEvent.UnmarshalDoorEventBody (Body (columns w)) = Ok d ∧
     delivered game w = if bool_decide (game = [] ∨ DoorEvent.Game d = game)
                        then mkDelivered (local_seq w) (Origin (columns w)) (TS (columns w)) <$> DoorEvent.Events d else []) ∧
  (∀ n, Z.of_nat (length (league_rows tag last)) < 200 * Z.of_nat n →
     (poll_run cursor (replicate n last)).1.1 = (filter (λ w, cursor < local_seq w) (league_rows tag last) ≫= delivered game)).
Proof.
  intros Hh. pose proof empty_sound as H0. pose proof (poll_run_spec empty_db dbs last 0 Hh H0 ltac:(by left)) as Hp.
  pose proof (steps_sound _ _ H0 (history_steps _ _ _ Hh)) as Hs. destruct (poll_run 0 dbs) as [[events c] tr].
  destruct Hp as (-> & Hle & Hg & Hev). destruct Hs as [Hok Hnum].
  assert (Hzero : upto 0 last = []).
  { apply filter_none. intros w Hw. rewrite league_rows_eq in Hw by done. apply list_elem_of_filter in Hw as [_ Hw]. destruct Hnum as [_ Hpos].
    rewrite Forall_forall in Hpos. specialize (Hpos w Hw). lia. }
  rewrite Hzero in Hev. cbn [mbind list_bind app] in Hev. split_and!; [done|done|by apply league_rows_eq| | |].
  - rewrite league_rows_eq by done. apply (lt_sorted_NoDup local_seq Z.ltb), filter_sorted, rows_sorted, Hok.
  - intros w Hw. destruct (league_row_decodes last w Hok Hw) as [d Hd]. exists d. split; [done|]. unfold delivered. rewrite Hd.
    destruct (decide (game = [])) as [->|Hne]; [by rewrite !bool_decide_true by auto|].
    destruct (decide (DoorEvent.Game d = game)) as [E|Hne']; [by rewrite (bool_decide_false (game = [])), !bool_decide_true by auto|].
    rewrite (bool_decide_false (game = [])), (bool_decide_false (DoorEvent.Game d = game)), bool_decide_false by naive_solver. done.
  - intros n Hn. assert (Hend := poll_to_end n c last (conj Hok Hnum) Hg ltac:(lia)).
    assert (Hh' : history last (replicate n last) last) by (clear; induction n; [constructor|by econstructor]).
    pose proof (poll_run_spec last (replicate n last) last c Hh' (conj Hok Hnum) Hg) as Hp. destruct (poll_run c (replicate n last)) as [[e2 c2] t2].
    destruct Hp as (_ & _ & _ & Hev2). cbn [fst snd] in *. rewrite Hend in Hev2.
    assert (Hsplit : league_rows tag last = upto c last ++ filter (λ w, c < local_seq w) (league_rows tag last)).
    { assert (Hsort : StronglySorted (lt_key local_seq Z.ltb) (league_rows tag last)) by (rewrite league_rows_eq by done; apply filter_sorted, rows_sorted, Hok).
      by apply sorted_split. }
    rewrite Hsplit in Hev2 at 1. rewrite bind_app in Hev2. by apply app_inv_head in Hev2.
Qed.
End polling.

(** ** The queue of a running board *)

Section running.
Context {P E : Type} `{HB : Blake3, HE : Ed25519, HD : SqlDriver, HS : SqlSum, HP : !Publisher P E} (key : NodeKey).

(** What happens to a board between two flushes, as far as leagues can tell. *)
Inductive league_step : Service P E → Service P E → Prop :=
| step_queue now aliases ev s : league_step s (with_board (QueueDoorEvent key now aliases ev (board s)).2 s)
| step_flush now maxAge window gov s : league_step s (flushDoorEvents key now maxAge window gov s)
| step_area b s : area_step (board s) b → league_step s (with_board b s)
| step_posted now author area subject text s : league_step s (Post key now author area subject text s).2.

Definition at_most_100 (b : Board) : Prop := ∀ door, CountQueuedDoorEvents door b ≤ MaxQueuedDoorEvents.

Definition serving_ok (s : Service P E) : Prop :=
  areas_ok (board s) ∧ queue_ok (board s) ∧ at_most_100 (board s) ∧ own_ok key (log (board s)).

(** A board opened for the first time, or with an empty queue. *)
Definition opened (s : Service P E) : Prop := areas_ok (board s) ∧ queue (board s) = [] ∧ own_ok key (log (board s)).

Lemma league_Ok name b a : league name b = Ok a ↔ GetAnyArea name b = Ok a ∧ ar_Kind a = GossipStore.KindDoor.
Proof.
  unfold league. destruct (GetAnyArea name b) as [x|e]; [|naive_solver]. rewrite bind_unit_Ok, require_Ok, bool_decide_eq_true. naive_solver.
Qed.

Lemma league_event_valid aliases ev e : league_event key aliases ev = Ok e → DoorEvent.valid_batch (DoorEvent.mkDoorEventBody (dr_Game ev) [e]).
Proof.
  unfold league_event. intros ([t n] & _ & He)%bind_Ok. cbn beta iota in He. apply bind_Ok in He as (u & Hm%wrap_err_Ok & [= <-]).
  by apply DoorEvent.MarshalDoorEventBody_Ok in Hm as [Hv _].
Qed.

Definition can_queue (aliases : list Alias) (ev : DoorEventRequest) (b : Board) (a : AreaInfo) (e : DoorEvent.DoorEvent) : Prop :=
  GetAnyArea (dr_Area ev) b = Ok a ∧ ar_Kind a = GossipStore.KindDoor ∧ ar_Federated a = true ∧ league_event key aliases ev = Ok e ∧
  CountQueuedDoorEvents (dr_Door ev) b < MaxQueuedDoorEvents.

Lemma QueueDoorEvent_spec now aliases ev b :
  let '(r, b') := QueueDoorEvent key now aliases ev b in
  (is_ok r = true ↔ ∃ a e, can_queue aliases ev b a e) ∧
  match r with
  | Ok _ => ∃ a e, can_queue aliases ev b a e ∧
      b' = with_queue (queue b ++ [mkQueued (last_queued b + 1) (dr_Door ev) (ar_Name a) (dr_Game ev) e now]) (last_queued b + 1) b
  | Err _ => b' = b
  end.
Proof.
  unfold QueueDoorEvent. destruct (league (dr_Area ev) b) as [a|e] eqn:Hl; cbn [mbind result_bind]; cycle 1.
  { split; [|done]. split; [done|]. intros (a & x & Hg & Hkd & _). pose proof (proj2 (league_Ok _ _ _) (conj Hg Hkd)). congruence. }
  apply league_Ok in Hl as [Hg Hkd]. destruct (ar_Federated a) eqn:Hf; cbn [require mbind result_bind]; cycle 1.
  { split; [|done]. split; [done|]. intros (a' & x & Hg' & _ & Hf' & _). congruence. }
  destruct (league_event key aliases ev) as [e|x] eqn:He; cbn [mbind result_bind]; cycle 1.
  { split; [|done]. split; [done|]. intros (a' & e & _ & _ & _ & He' & _). congruence. }
  pose proof (league_event_valid _ _ _ He) as Hv. unfold store_QueueDoorEvent. cbv zeta.
  destruct (Z.leb_spec MaxQueuedDoorEvents (CountQueuedDoorEvents (dr_Door ev) b)) as [Hfull|Hroom].
  { cbn [wrap_err is_ok]. split; [|done]. split; [done|]. intros (a' & e' & _ & _ & _ & _ & Hc). lia. }
  rewrite event_fits_valid, (stored_event_valid (dr_Game ev)) by done. cbn [negb wrap_err is_ok].
  assert (Hc : can_queue aliases ev b a e) by done. split; [|by exists a, e]. split; [|done]. intros _. by exists a, e.
Qed.

Lemma queue_snoc_ok q b :
  queue_ok b → waits q → q_ID q = last_queued b + 1 → queue_ok (with_queue (queue b ++ [q]) (last_queued b + 1) b).
Proof.
  intros (Hw & Hs & Hl) Hq Hid. unfold queue_ok. cbn [queue last_queued with_queue]. split_and!.
  - apply Forall_app. split; [done|by constructor].
  - rewrite fmap_app. apply sorted_snoc; [done|]. apply Forall_fmap. eapply Forall_impl; [exact Hl|]. cbn. lia.
  - apply Forall_app. split; [eapply Forall_impl; [exact Hl|]; cbn; lia|]. constructor; [lia|done].
Qed.

Lemma count_sublist door (qs qs' : list Queued) : qs `sublist_of` qs' → Z.of_nat (length (filter (λ q, q_Door q = door) qs)) ≤ Z.of_nat (length (filter (λ q, q_Door q = door) qs')).
Proof.
  intros H. apply inj_le, sublist_length. induction H as [|x l l' H IH|x l l' H IH]; [done| |]; rewrite !filter_cons; destruct (decide _); try done; [by apply sublist_skip|by apply sublist_cons].
Qed.

(** ** What flushing keeps *)

Lemma policyFor_BatchMax maxAge window gov a : BatchMax (policyFor maxAge window gov a) = 8.
Proof. done. Qed.

Lemma groups_ok b : queue_ok b → NoDup (DoorEventGroups b) ∧ (∀ g, g ∈ DoorEventGroups b ↔ ∃ q, q ∈ queue b ∧ group_of q = g) ∧ (∀ g, g ∈ DoorEventGroups b → g.1 ≠ []).
Proof.
  intros (Hw & _). assert (Hin : ∀ g, g ∈ DoorEventGroups b ↔ ∃ q, q ∈ queue b ∧ group_of q = g).
  { intros g. unfold DoorEventGroups. rewrite sort_by_elem, elem_of_remove_dups, list_elem_of_fmap. naive_solver. }
  split_and!; [|done|].
  - unfold DoorEventGroups. rewrite sort_by_Permutation. apply NoDup_remove_dups.
  - intros g (q & Hq & <-)%Hin. rewrite Forall_forall in Hw. by destruct (Hw q Hq).
Qed.

Lemma flush_spec now maxAge window gov (s : Service P E) :
  key_named key → valid_key key → driver_limit → own_ok key (log (board s)) → queue_ok (board s) →
  ∃ dn, flushed key now (policyFor maxAge window gov) (DoorEventGroups (board s)) s (flushDoorEvents key now maxAge window gov s) dn.
Proof.
  intros Hk Hv Hd Hown Hok. destruct (groups_ok _ Hok) as (Hnd & _ & Hne).
  apply (flush_groups_spec key now (policyFor maxAge window gov) Hk Hv Hd); [intros a; rewrite policyFor_BatchMax; lia|done|done|done|done].
Qed.

Lemma Post_others now author area subject text (s : Service P E) :
  let b' := board (Post key now author area subject text s).2 in
  areas b' = areas (board s) ∧ last_area b' = last_area (board s) ∧ queue b' = queue (board s) ∧ last_queued b' = last_queued (board s).
Proof.
  cbv zeta. unfold Post, newRecord, put. destruct (post_body author area subject text (board s)) as [[a body]|e]; [|done].
  destruct (NextSeq (ar_Tag a) (log (board s))) as [[seq|e] l]; [|done]. destruct (wrap_err NotBuilt _) as [rec|e]; [|done]. cbn [board with_board].
  destruct (PutRecord now rec _) as [[e|] l2]; [done|]. cbn [fmap option_fmap option_map].
  set (s1 := with_board _ _). assert (Hb : board (if ar_Federated a then publish (ar_Tag a) rec s1 else s1) = board s1) by (destruct (ar_Federated a); [apply publish_board|done]).
  cbn [snd]. rewrite Hb. unfold s1. cbn [board with_board]. unfold IndexPost. by destruct (post_authors _ !! id rec).
Qed.

Lemma area_step_others b b' : area_step b b' → queue b' = queue b ∧ last_queued b' = last_queued b ∧ log b' = log b.
Proof.
  intros [now name d fed k x|now name sh actor x|now name fed actor x].
  - unfold createArea. destruct (ValidateAreaName _); [|done]. by destruct (existsb _ _).
  - unfold SetAreaShare. destruct (_ || _); [done|]. destruct (GetAnyArea name x); [|done]. destruct (_ && _ && _); [done|]. by destruct (negb _).
  - unfold SetAreaFederated. by destruct (existsb _ _).
Qed.

Lemma league_step_ok s s' : key_named key → valid_key key → driver_limit → league_step s s' → serving_ok s → serving_ok s'.
Proof.
  intros Hk Hv Hd Hs (Ha & Hq & Hc & Ho). destruct Hs as [now aliases ev s|now maxAge window gov s|b s Hb|now author area subject text s].
  - pose proof (QueueDoorEvent_spec now aliases ev (board s)) as H. destruct (QueueDoorEvent key now aliases ev (board s)) as [[u|e] b']; cbn [snd]; destruct H as [_ H]; [|by subst].
    destruct H as (a & e & (Hg & Hkd & Hf & He & Hroom) & ->). unfold serving_ok. cbn [board with_board]. split; [exact Ha|]. split; [|split; [|exact Ho]].
    + apply queue_snoc_ok; [done| |done]. split; [|by eapply league_event_valid]. cbn [q_Area]. apply GetAnyArea_iff in Hg as [Hin _]; [|done].
      destruct Ha as [Hgood _]. rewrite Forall_forall in Hgood. destruct (Hgood a Hin) as [Hval _]. intros E0. unfold ValidateAreaName in Hval. by rewrite E0 in Hval.
    + intros door. specialize (Hc door). unfold CountQueuedDoorEvents in *. cbn [queue with_queue]. rewrite filter_app, length_app, filter_cons.
      destruct (decide _) as [E0|_]; cbn [length filter list_filter]; [cbn [q_Door] in E0; subst door|]; lia.
  - destruct (flush_spec now maxAge window gov s Hk Hv Hd Ho Hq) as (dn & l & new & _ & Hb & Hol & _). unfold serving_ok. rewrite Hb.
    split; [exact Ha|]. split; [by apply filter_queue_ok|]. split; [|exact Hol]. intros door. etrans; [|apply Hc]. apply count_sublist, sublist_filter.
  - unfold serving_ok. cbn [board with_board]. destruct (area_step_others _ _ Hb) as (E1 & E2 & E3). unfold queue_ok, at_most_100, CountQueuedDoorEvents in *. rewrite E1, E2, E3.
    split; [by eapply area_step_ok|done].
  - pose proof (Post_others now author area subject text s) as (E1 & E2 & E3 & E4). unfold serving_ok, queue_ok, at_most_100, CountQueuedDoorEvents, areas_ok in *. rewrite E1, E2, E3, E4.
    split; [exact Ha|]. split; [exact Hq|]. split; [exact Hc|].
    by apply Post_log.
Qed.

Lemma running_ok s0 s : key_named key → valid_key key → driver_limit → opened s0 → rtc league_step s0 s → serving_ok s.
Proof.
  intros Hk Hv Hd (Ha & Hq & Ho) Hs. assert (H0 : serving_ok s0).
  { unfold serving_ok, queue_ok, at_most_100, CountQueuedDoorEvents. rewrite Hq. cbn. split_and!; try done; constructor. }
  clear Ha Hq Ho. induction Hs; eauto using league_step_ok.
Qed.

(** What a door is told about its events is true. In every reachable state an event is
    queued exactly when its area is a federated league, its target, if it has one, is
    found, it encodes, and fewer than a hundred of the door's events wait; it then waits
    behind all others, as it will be sent, and a refusal changes nothing. No door ever
    has more than a hundred waiting, and every waiting event can go into a record. *)
Theorem events_queued s0 s now aliases ev :
  key_named key → valid_key key → driver_limit → opened s0 → rtc league_step s0 s →
  let b := board s in
  let '(r, b') := QueueDoorEvent key now aliases ev b in
  (is_ok r = true ↔ ∃ a e, can_queue aliases ev b a e) ∧
  match r with
  | Ok _ => ∃ a e, can_queue aliases ev b a e ∧
      b' = with_queue (queue b ++ [mkQueued (last_queued b + 1) (dr_Door ev) (ar_Name a) (dr_Game ev) e now]) (last_queued b + 1) b
  | Err _ => b' = b
  end ∧
  at_most_100 b' ∧
  ∀ q, q ∈ queue b' → q_ID q ≤ last_queued b' ∧ ∃ body, DoorEvent.MarshalDoorEventBody (event_body (q_Game q) [q]) = Ok body ∧ body_ok TypeDoorEvent body.
Proof.
  intros Hk Hv Hd Hopen Hs. cbv zeta. pose proof (running_ok _ _ Hk Hv Hd Hopen Hs) as Hok.
  pose proof (league_step_ok _ _ Hk Hv Hd (step_queue now aliases ev s) Hok) as (_ & Hq & Hc & _).
  pose proof (QueueDoorEvent_spec now aliases ev (board s)) as H. destruct (QueueDoorEvent key now aliases ev (board s)) as [r b']. cbn [snd board with_board] in *.
  destruct H as [Hiff Hr]. split; [exact Hiff|]. split; [exact Hr|]. split; [exact Hc|]. destruct Hq as (Hw & _ & Hl).
  intros q Hin. rewrite Forall_forall in Hw, Hl. split; [by apply Hl|].
  destruct (batch_body (q_Game q) [q]) as (body & Hm & _ & Hb & _); [done|cbn; lia|constructor; [by split; [apply Hw|]|constructor]|]. by exists body.
Qed.

(** C24: a flush settles every waiting event, and loses or repeats none. In every reachable
    state, for every window, age limit and rate, the events that wait afterwards are, in
    their order, those that waited, less the ones that waited too long, less the batches
    that went out. A group, one game in one league, sends at most one batch: its oldest
    eight if it has eight, all it has once the oldest waited out the window, none
    otherwise. What goes out is one record of this node's per batch, with exactly the
    batch's events in order, in the log and handed to the federation; a batch that is due
    goes out unless the league is closed or numbers run out. *)
Theorem events_settled s0 s now maxAge window gov :
  key_named key → valid_key key → driver_limit → opened s0 → rtc league_step s0 s →
  let b := board s in
  let s' := flushDoorEvents key now maxAge window gov s in
  let pol := policyFor maxAge window gov in
  let batch g := batch now (pol g.1) g (queue b) in
  ∃ (sent : list ((bytes * bytes) * (AreaTag * Rec))) l new,
    queue (board s') = filter (λ q, expired now (pol (q_Area q)) (item q) = false ∧ (group_of q ∈ sent.*1 → q ∉ batch (group_of q))) (queue b) ∧
    board s' = with_queue (queue (board s')) (last_queued b) (with_log l b) ∧
    sent.*1 `sublist_of` DoorEventGroups b ∧ NoDup (sent.*1) ∧
    Forall (λ x, batch x.1 ≠ [] ∧ Z.of_nat (length (batch x.1)) ≤ 8 ∧ (∃ a, open_league x.1.1 b a ∧ ar_Tag a = x.2.1) ∧
      carries key (now / Second) x.2.1 x.1.2 (batch x.1) x.2.2 ∧ HasRecord (id x.2.2) l = true) sent ∧
    rows l = rows (log b) ++ new ∧ (row_rec <$> new) `sublist_of` sent.*2.*2 ∧
    fed s' = fed (hand_over sent s) ∧
    (∀ g a, batch g ≠ [] → open_league g.1 b a →
       (∀ k, 0 < k ≤ Z.of_nat (length (DoorEventGroups b)) → binds (AreaHighWater (ar_Tag a) (log b) + k) = true) → g ∈ sent.*1).
Proof.
  intros Hk Hv Hd Hopen Hs. cbv zeta. destruct (running_ok _ _ Hk Hv Hd Hopen Hs) as (_ & Hq & _ & Ho).
  destruct (flush_spec now maxAge window gov s Hk Hv Hd Ho Hq) as (dn & l & new & Hsub & Hb & Hol & Hr & Hn & Hsent & Hf & _ & Hlive).
  destruct (groups_ok _ Hq) as (Hnd & Hgr & _). exists dn, l, new.
  assert (Hqueue : queue (board (flushDoorEvents key now maxAge window gov s)) =
    filter (λ q, expired now (policyFor maxAge window gov (q_Area q)) (item q) = false ∧
      (group_of q ∈ dn.*1 → q ∉ batch now (policyFor maxAge window gov (group_of q).1) (group_of q) (queue (board s)))) (queue (board s))).
  { rewrite Hb. cbn [queue with_waiting with_queue]. apply filter_ext_in. intros q Hin. unfold still_fresh, is_fresh, batch_of.
    assert (Hg : group_of q ∈ DoorEventGroups (board s)) by (apply Hgr; by exists q). tauto. }
  split; [exact Hqueue|]. split; [by rewrite Hb|]. split; [exact Hsub|]. split; [by eapply sublist_NoDup|]. split; [|split; [exact Hr|split; [exact Hn|split; [exact Hf|]]]].
  - eapply Forall_impl; [exact Hsent|]. intros x (Hne & Ho' & Hc & Hh & _). split_and!; try done. by apply due_length.
  - intros g a Hne Hol' Hbind. apply (Hlive g a); [|done|done|done]. apply Hgr.
    destruct (batch now _ g (queue (board s))) as [|q r] eqn:Hbt; [done|]. exists q.
    assert (Hin : q ∈ batch now (policyFor maxAge window gov g.1) g (queue (board s))) by (rewrite Hbt; by left).
    by apply (batch_in now (policyFor maxAge window gov)) in Hin as (Hin & Hg & _).
Qed.
End running.
