(* ===== verification/Base64.v ===== *)
(** * Base64 (encoding/base64 of Go's standard library)

    The standard alphabet, with and without padding. The decoder passes over line
    breaks, and over the bits left in the last character, as Go's does. *)

From stdpp Require Import strings.
From S2P Require Import Prelude Binary Identity GoStrings.

Definition base64Alphabet : bytes := str "ABCDEFGHIJKLMNOPQRSTUVWXYZabcdefghijklmnopqrstuvwxyz0123456789+/"%string.
Definition b64_symbol (v : Z) : byte := nth (Z.to_nat v) base64Alphabet Byte.x00.
Definition b64_value (c : byte) : option Z := (λ x : nat * byte, Z.of_nat x.1) <$> list_find (λ x, x = c) base64Alphabet.
Definition pad_char : byte := Byte.x3d.
Definition is_newline (c : byte) : bool := bool_decide (c = Byte.x0a) || bool_decide (c = Byte.x0d).

(** Three bytes are four characters; what is left over is padded or not. *)
Fixpoint b64_encode (padded : bool) (s : bytes) : bytes :=
  match s with
  | x :: y :: z :: s' =>
      let x := b2z x in let y := b2z y in let z := b2z z in
      b64_symbol (x / 4) :: b64_symbol (x mod 4 * 16 + y / 16) :: b64_symbol (y mod 16 * 4 + z / 64) :: b64_symbol (z mod 64) :: b64_encode padded s'
  | [x; y] =>
      let x := b2z x in let y := b2z y in
      [b64_symbol (x / 4); b64_symbol (x mod 4 * 16 + y / 16); b64_symbol (y mod 16 * 4)] ++ if padded then [pad_char] else []
  | [x] => [b64_symbol (b2z x / 4); b64_symbol (b2z x mod 4 * 16)] ++ if padded then [pad_char; pad_char] else []
  | [] => []
  end.

Definition b64_one (a b : byte) : option bytes := x ← b64_value a; y ← b64_value b; Some [z2b (x * 4 + y / 16)].
Definition b64_two (a b c : byte) : option bytes :=
  x ← b64_value a; y ← b64_value b; z ← b64_value c; Some [z2b (x * 4 + y / 16); z2b (y mod 16 * 16 + z / 4)].
Definition b64_three (a b c d : byte) : option bytes :=
  x ← b64_value a; y ← b64_value b; z ← b64_value c; w ← b64_value d;
  Some [z2b (x * 4 + y / 16); z2b (y mod 16 * 16 + z / 4); z2b (z mod 4 * 64 + w)].

Fixpoint b64_groups (padded : bool) (s : bytes) : option bytes :=
  match s with
  | [] => Some []
  | a :: b :: c :: d :: s' =>
      if padded && bool_decide (d = pad_char) then
        match s' with
        | [] => if bool_decide (c = pad_char) then b64_one a b else b64_two a b c
        | _ => None
        end
      else x ← b64_three a b c d; y ← b64_groups padded s'; Some (x ++ y)
  | [a; b; c] => if padded then None else b64_two a b c
  | [a; b] => if padded then None else b64_one a b
  | [a] => None
  end.
Definition b64_decode (padded : bool) (s : bytes) : option bytes := b64_groups padded (filter (λ c, is_newline c = false) s).

(** [StdEncoding] and [RawStdEncoding]. *)
Definition StdEncode : bytes → bytes := b64_encode true.
Definition StdDecode : bytes → option bytes := b64_decode true.
Definition RawStdEncode : bytes → bytes := b64_encode false.
Definition RawStdDecode : bytes → option bytes := b64_decode false.

(** ** Round trip *)

Definition six (v : Z) : Prop := 0 ≤ v < 64.

Lemma b64_all : Forall (λ v, b64_value (b64_symbol v) = Some v ∧ b64_symbol v ≠ pad_char ∧ is_newline (b64_symbol v) = false) (Z.of_nat <$> seq 0 64).
Proof. apply (bool_decide_unpack _). by vm_compute. Qed.

Lemma b64_symbol_ok v : six v → b64_value (b64_symbol v) = Some v ∧ b64_symbol v ≠ pad_char ∧ is_newline (b64_symbol v) = false.
Proof.
  intros Hv. pose proof (proj1 (Forall_forall _ _) b64_all v) as H. cbn beta in H. apply H.
  apply list_elem_of_fmap. exists (Z.to_nat v). split; [unfold six in Hv; lia|]. apply elem_of_seq. unfold six in Hv. lia.
Qed.

Ltac sixes :=
  repeat match goal with |- context [b2z ?x] => lazymatch goal with H : 0 ≤ b2z x < 256 |- _ => fail | _ => pose proof (b2z_range x) end end;
  unfold six; Z.to_euclidean_division_equations; lia.

Lemma sixes1 x : six (b2z x / 4) ∧ six (b2z x mod 4 * 16) ∧ six (b2z x mod 16 * 4) ∧ six (b2z x mod 64).
Proof. split; [|split; [|split]]; sixes. Qed.
Lemma sixes2 x y : six (b2z x mod 4 * 16 + b2z y / 16) ∧ six (b2z x mod 16 * 4 + b2z y / 64).
Proof. split; sixes. Qed.

Lemma z2b_eq v x : v = b2z x → z2b v = x.
Proof. intros ->. apply z2b_b2z. Qed.

Lemma b64_one_enc x : b64_one (b64_symbol (b2z x / 4)) (b64_symbol (b2z x mod 4 * 16)) = Some [x].
Proof.
  destruct (sixes1 x) as (H1 & H2 & _). unfold b64_one. rewrite (proj1 (b64_symbol_ok _ H1)), (proj1 (b64_symbol_ok _ H2)). cbn.
  do 2 f_equal. apply z2b_eq. clear. sixes.
Qed.
Lemma b64_two_enc x y : b64_two (b64_symbol (b2z x / 4)) (b64_symbol (b2z x mod 4 * 16 + b2z y / 16)) (b64_symbol (b2z y mod 16 * 4)) = Some [x; y].
Proof.
  destruct (sixes1 x) as (H1 & _), (sixes2 x y) as (H2 & _), (sixes1 y) as (_ & _ & H3 & _). unfold b64_two.
  rewrite (proj1 (b64_symbol_ok _ H1)), (proj1 (b64_symbol_ok _ H2)), (proj1 (b64_symbol_ok _ H3)). cbn.
  f_equal. f_equal; [|f_equal]; apply z2b_eq; clear; sixes.
Qed.
Lemma b64_three_enc x y z :
  b64_three (b64_symbol (b2z x / 4)) (b64_symbol (b2z x mod 4 * 16 + b2z y / 16)) (b64_symbol (b2z y mod 16 * 4 + b2z z / 64)) (b64_symbol (b2z z mod 64)) = Some [x; y; z].
Proof.
  destruct (sixes1 x) as (H1 & _), (sixes2 x y) as (H2 & _), (sixes2 y z) as (_ & H3), (sixes1 z) as (_ & _ & _ & H4). unfold b64_three.
  rewrite (proj1 (b64_symbol_ok _ H1)), (proj1 (b64_symbol_ok _ H2)), (proj1 (b64_symbol_ok _ H3)), (proj1 (b64_symbol_ok _ H4)). cbn.
  f_equal. f_equal; [|f_equal; [|f_equal]]; apply z2b_eq; clear; sixes.
Qed.

(** Induction by groups of three. *)
Lemma by_threes (P : bytes → Prop) :
  P [] → (∀ x, P [x]) → (∀ x y, P [x; y]) → (∀ x y z s, P s → P (x :: y :: z :: s)) → ∀ s, P s.
Proof.
  intros H0 H1 H2 H3 s. assert (H : ∀ n t, (length t ≤ n)%nat → P t); [|by apply (H (length s))].
  induction n as [|n IH]; intros [|x [|y [|z t]]] Hl; cbn in Hl; try lia; auto. apply H3, IH. lia.
Qed.

Lemma b64_groups_enc padded s : b64_groups padded (b64_encode padded s) = Some s.
Proof.
  revert s. apply by_threes; [done|intros x|intros x y|intros x y z s IH].
  - pose proof (b64_one_enc x). destruct padded; cbn; [rewrite !bool_decide_true by done|]; done.
  - pose proof (b64_two_enc x y). destruct (sixes1 y) as (_ & _ & H3 & _). destruct (b64_symbol_ok _ H3) as (_ & Hp & _).
    destruct padded; cbn; [rewrite bool_decide_true by done; rewrite bool_decide_false by done|]; done.
  - destruct (sixes1 z) as (_ & _ & _ & H4). destruct (b64_symbol_ok _ H4) as (_ & Hp & _).
    change (b64_encode padded (x :: y :: z :: s)) with
      (b64_symbol (b2z x / 4) :: b64_symbol (b2z x mod 4 * 16 + b2z y / 16) :: b64_symbol (b2z y mod 16 * 4 + b2z z / 64) :: b64_symbol (b2z z mod 64) :: b64_encode padded s).
    cbn [b64_groups]. rewrite (bool_decide_false (_ = pad_char)) by done. rewrite andb_false_r, b64_three_enc. cbn [mbind option_bind]. by rewrite IH.
Qed.

(** What is encoded has no line breaks. *)
Lemma b64_encode_plain padded s : Forall (λ c, is_newline c = false) (b64_encode padded s).
Proof.
  revert s. apply by_threes; [constructor|intros x|intros x y|intros x y z s IH].
  - destruct (sixes1 x) as (H1 & H2 & _). destruct (b64_symbol_ok _ H1) as (_ & _ & ?), (b64_symbol_ok _ H2) as (_ & _ & ?).
    cbn. destruct padded; repeat constructor; done.
  - destruct (sixes1 x) as (H1 & _), (sixes2 x y) as (H2 & _), (sixes1 y) as (_ & _ & H3 & _).
    destruct (b64_symbol_ok _ H1) as (_ & _ & ?), (b64_symbol_ok _ H2) as (_ & _ & ?), (b64_symbol_ok _ H3) as (_ & _ & ?).
    cbn. destruct padded; repeat constructor; done.
  - destruct (sixes1 x) as (H1 & _), (sixes2 x y) as (H2 & _), (sixes2 y z) as (_ & H3), (sixes1 z) as (_ & _ & _ & H4).
    destruct (b64_symbol_ok _ H1) as (_ & _ & ?), (b64_symbol_ok _ H2) as (_ & _ & ?), (b64_symbol_ok _ H3) as (_ & _ & ?), (b64_symbol_ok _ H4) as (_ & _ & ?).
    cbn [b64_encode]. repeat (constructor; [done|]). done.
Qed.

Lemma filter_kept {A} (P : A → Prop) `{∀ x, Decision (P x)} l : Forall P l → filter P l = l.
Proof. induction 1 as [|x l Hx Hl IH]; [done|]. rewrite filter_cons, decide_True by done. by rewrite IH. Qed.

Lemma b64_decode_encode padded s : b64_decode padded (b64_encode padded s) = Some s.
Proof. unfold b64_decode. rewrite filter_kept; [apply b64_groups_enc|apply b64_encode_plain]. Qed.

Lemma b64_encode_inj padded s t : b64_encode padded s = b64_encode padded t → s = t.
Proof. intros E. pose proof (b64_decode_encode padded s) as H. rewrite E, b64_decode_encode in H. by injection H. Qed.

(** A character of the encoding: neither space nor hyphen. *)
Definition b64_char (c : byte) : Prop := plain_byte c ∧ c ≠ Byte.x2d.

Lemma b64_chars : Forall b64_char base64Alphabet ∧ b64_char pad_char.
Proof. split; [apply Forall_forall; intros c Hc; revert c Hc; apply Forall_forall|]; by_compute. Qed.

Lemma b64_symbol_char v : six v → b64_char (b64_symbol v).
Proof.
  intros Hv. destruct b64_chars as [H _]. rewrite Forall_forall in H. apply H. unfold b64_symbol.
  apply list_elem_of_In, nth_In. unfold six in Hv. cbn. lia.
Qed.

Lemma b64_encode_chars padded s : Forall b64_char (b64_encode padded s).
Proof.
  destruct b64_chars as [_ Hp]. revert s. apply by_threes; [constructor|intros x|intros x y|intros x y z s IH].
  - destruct (sixes1 x) as (H1 & H2 & _). cbn. apply b64_symbol_char in H1, H2. destruct padded; repeat (apply Forall_cons_2; [done|]); apply Forall_nil_2; done.
  - destruct (sixes1 x) as (H1 & _), (sixes2 x y) as (H2 & _), (sixes1 y) as (_ & _ & H3 & _). apply b64_symbol_char in H1, H2, H3.
    cbn. destruct padded; repeat (apply Forall_cons_2; [done|]); apply Forall_nil_2; done.
  - destruct (sixes1 x) as (H1 & _), (sixes2 x y) as (H2 & _), (sixes2 y z) as (_ & H3), (sixes1 z) as (_ & _ & _ & H4).
    apply b64_symbol_char in H1, H2, H3, H4. cbn [b64_encode]. repeat (constructor; [done|]). done.
Qed.
