(* ===== verification/Armour.v ===== *)
(** * Mail through a terminal (internal/dmkey/armour.go)

    A sealed message as a block of text that can be copied from a screen, and what is
    read out of a paste. *)

From stdpp Require Import strings.
From S2P Require Import Prelude Binary Identity GoStrings Base64.

Definition armourBegin : bytes := str "-----BEGIN MESHBBS DM-----"%string.
Definition armourEnd : bytes := str "-----END MESHBBS DM-----"%string.
Definition armourWidth : nat := 64.
Definition MaxArmourBytes : Z := Z.shiftl 64 10.

Inductive armour_error := ArmourTooLong (n : Z) | ErrNoArmour | ErrManyArmour | EmptyBlock | NotBase64.

Definition newline : byte := Byte.x0a.

(** The loop that breaks the encoding into lines; each round takes a line's worth. *)
Fixpoint wrap_lines (fuel : nat) (enc : bytes) : bytes :=
  match fuel with
  | O => enc
  | S fuel => if (armourWidth <? length enc)%nat then take armourWidth enc ++ newline :: wrap_lines fuel (drop armourWidth enc) else enc
  end.

Definition Armour (sealed : bytes) : bytes :=
  let enc := StdEncode sealed in
  armourBegin ++ newline :: wrap_lines (length enc) enc ++ newline :: armourEnd ++ [newline].

(** [strings.Split] by one byte. *)
Fixpoint split_lines (s : bytes) : list bytes :=
  match s with
  | [] => [[]]
  | c :: s =>
      if bool_decide (c = newline) then [] :: split_lines s
      else match split_lines s with l :: ls => (c :: l) :: ls | [] => [[c]] end
  end.

Definition trimmed (line : bytes) : bytes := TrimSpace (filter (λ c, c ≠ Byte.x0d) line).

(** The blocks found so far, and the lines of the one being read. *)
Fixpoint read_blocks (lines : list bytes) (blocks : list (list bytes)) (cur : option (list bytes)) : result armour_error (list (list bytes)) :=
  match lines with
  | [] => match cur with Some _ => Err ErrNoArmour | None => Ok blocks end
  | line :: lines =>
      if bool_decide (line = armourBegin) then
        match cur with Some _ => Err ErrManyArmour | None => read_blocks lines blocks (Some []) end
      else if bool_decide (line = armourEnd) then
        match cur with None => Err ErrNoArmour | Some c => read_blocks lines (blocks ++ [c]) None end
      else
        match cur with
        | Some c => read_blocks lines blocks (Some (if bool_decide (line = []) then c else c ++ [line]))
        | None => read_blocks lines blocks None
        end
  end.

Definition Unarmour (s : bytes) : result armour_error bytes :=
  _ ← require (strlen s <=? MaxArmourBytes) (ArmourTooLong (strlen s));
  blocks ← read_blocks (trimmed <$> split_lines s) [] None;
  match blocks with
  | [] => Err ErrNoArmour
  | [block] =>
      let body := concat block in
      _ ← require (negb (bool_decide (body = []))) EmptyBlock;
      match StdDecode body with Some sealed => Ok sealed | None => Err NotBase64 end
  | _ => Err ErrManyArmour
  end.

(** ** What is read *)

Definition no_delim (ls : list bytes) : Prop := armourBegin ∉ ls ∧ armourEnd ∉ ls.
Lemma no_delim_cons l ls : no_delim (l :: ls) ↔ l ≠ armourBegin ∧ l ≠ armourEnd ∧ no_delim ls.
Proof. unfold no_delim. rewrite !not_elem_of_cons. naive_solver. Qed.

Definition nonempty (ls : list bytes) : list bytes := filter (λ l, l ≠ []) ls.

Inductive blocks_of : list bytes → list (list bytes) → Prop :=
| bo_end : blocks_of [] []
| bo_noise l ls bs : l ≠ armourBegin → l ≠ armourEnd → blocks_of ls bs → blocks_of (l :: ls) bs
| bo_block body ls bs : no_delim body → blocks_of ls bs → blocks_of (armourBegin :: body ++ armourEnd :: ls) (nonempty body :: bs).

Lemma begin_end : armourBegin ≠ armourEnd.
Proof. by_compute. Qed.

Lemma read_blocks_in ls : ∀ acc cur out,
  match cur with
  | None => read_blocks ls acc None = Ok out ↔ ∃ bs, blocks_of ls bs ∧ out = acc ++ bs
  | Some c => read_blocks ls acc (Some c) = Ok out ↔
      ∃ body rest bs, ls = body ++ armourEnd :: rest ∧ no_delim body ∧ blocks_of rest bs ∧ out = acc ++ (c ++ nonempty body) :: bs
  end.
Proof.
  pose proof begin_end as Hbe. induction ls as [|l ls IH]; intros acc cur out.
  - destruct cur as [c|]; cbn.
    + split; [done|]. intros (body & rest & bs & E & _). by destruct body.
    + split; [intros [= <-]; exists []; split; [constructor|by rewrite app_nil_r]|]. intros (bs & Hb & ->). inversion Hb; subst. by rewrite app_nil_r.
  - cbn [read_blocks]. destruct cur as [c|].
    + case_bool_decide as H1; [|case_bool_decide as H2].
      * split; [done|]. intros (body & rest & bs & E & Hn & _). destruct body as [|x body]; injection E as ->.
        -- congruence.
        -- subst. apply no_delim_cons in Hn. naive_solver.
      * rewrite (IH (acc ++ [c]) None out). split.
        -- intros (bs & Hb & ->). exists [], ls, bs. split; [by rewrite H2|]. split; [by split; apply not_elem_of_nil|]. split; [done|].
           cbn. by rewrite app_nil_r, <- app_assoc.
        -- intros (body & rest & bs & E & Hn & Hb & ->). destruct body as [|x body]; injection E as -> E.
           ++ subst. exists bs. split; [done|]. cbn. by rewrite app_nil_r, <- app_assoc.
           ++ apply no_delim_cons in Hn. naive_solver.
      * rewrite (IH acc (Some _) out). split.
        -- intros (body & rest & bs & -> & Hn & Hb & ->). exists (l :: body), rest, bs. split; [done|]. split; [by apply no_delim_cons|]. split; [done|].
           unfold nonempty. rewrite filter_cons. do 2 f_equal. case_bool_decide as H3; [by rewrite decide_False by naive_solver|].
           rewrite decide_True by done. by rewrite <- app_assoc.
        -- intros (body & rest & bs & E & Hn & Hb & ->). destruct body as [|x body]; injection E as -> E; [congruence|]. subst.
           apply no_delim_cons in Hn as (_ & _ & Hn). exists body, rest, bs. do 3 (split; [done|]).
           unfold nonempty. rewrite filter_cons. do 2 f_equal. case_bool_decide as H3; [by rewrite decide_False by naive_solver|].
           rewrite decide_True by done. by rewrite <- app_assoc.
    + case_bool_decide as H1; [|case_bool_decide as H2].
      * rewrite (IH acc (Some []) out). subst l. split.
        -- intros (body & rest & bs & -> & Hn & Hb & ->). eexists. split; [by constructor|done].
        -- intros (bs & Hb & ->). inversion Hb as [|? ? ? Hx|body rest bs' Hn Hr]; subst; [done|]. by exists body, rest, bs'.
      * split; [done|]. intros (bs & Hb & _). inversion Hb; subst; congruence.
      * rewrite (IH acc None out). split; intros (bs & Hb & ->); exists bs; (split; [|done]).
        -- by constructor.
        -- inversion Hb; subst; congruence.
Qed.

Lemma blocks_of_none ls : blocks_of ls [] ↔ no_delim ls.
Proof.
  split.
  - intros H. remember [] as bs eqn:E. induction H as [|l ls bs H1 H2 H IH|]; [by split; apply not_elem_of_nil| |done].
    apply no_delim_cons. auto.
  - induction ls as [|l ls IH]; [constructor|]. intros (? & ? & ?)%no_delim_cons. constructor; auto.
Qed.

Lemma blocks_of_one ls b : blocks_of ls [b] ↔
  ∃ pre body post, ls = pre ++ armourBegin :: body ++ armourEnd :: post ∧ no_delim pre ∧ no_delim body ∧ no_delim post ∧ b = nonempty body.
Proof.
  split.
  - intros H. remember [b] as bs eqn:E. induction H as [|l ls bs H1 H2 H IH|body ls bs Hn H IH]; [done| |].
    + destruct (IH E) as (pre & body & post & -> & Hp & Hr). exists (l :: pre), body, post. split; [done|]. by rewrite no_delim_cons.
    + injection E as <- ->. apply blocks_of_none in H. exists [], body, ls. split; [done|]. split; [by split; apply not_elem_of_nil|done].
  - intros (pre & body & post & -> & Hp & Hn & Ho & ->). induction pre as [|l pre IH]; cbn.
    + constructor; [done|]. by apply blocks_of_none.
    + apply no_delim_cons in Hp as (? & ? & ?). constructor; auto.
Qed.

Lemma concat_nonempty ls : concat (nonempty ls) = concat ls.
Proof.
  unfold nonempty. induction ls as [|l ls IH]; [done|]. rewrite filter_cons. case_decide as H; cbn; rewrite IH; [done|]. by subst.
Qed.

(** The one block a paste holds: its lines, trimmed, between the only two delimiters. *)
Definition pasted (s body : bytes) : Prop :=
  ∃ pre ls post, trimmed <$> split_lines s = pre ++ armourBegin :: ls ++ armourEnd :: post ∧
    no_delim pre ∧ no_delim ls ∧ no_delim post ∧ body = concat ls.

Lemma Unarmour_Ok s x : Unarmour s = Ok x ↔ strlen s ≤ MaxArmourBytes ∧ ∃ body, pasted s body ∧ body ≠ [] ∧ StdDecode body = Some x.
Proof.
  unfold Unarmour. rewrite bind_unit_Ok, require_Ok, Z.leb_le. apply and_iff_compat_l.
  pose proof (λ bs, read_blocks_in (trimmed <$> split_lines s) [] None bs) as Hr. cbn beta iota in Hr.
  destruct (read_blocks _ [] None) as [bs|e]; cbn [mbind result_bind].
  - assert (Hb : blocks_of (trimmed <$> split_lines s) bs) by (destruct (proj1 (Hr bs) eq_refl) as (b & Hb & ->); done).
    split.
    + destruct bs as [|b [|]]; [done| |done]. rewrite bind_unit_Ok, require_Ok, negb_true_iff, bool_decide_eq_false. intros [Hne Hd].
      apply blocks_of_one in Hb as (pre & body & post & E & Hp & Hn & Ho & ->). rewrite concat_nonempty in *.
      exists (concat body). split; [by exists pre, body, post|]. split; [done|]. destruct (StdDecode _); [by injection Hd as <-|done].
    + intros (body & (pre & ls & post & E & Hp & Hn & Ho & ->) & Hne & Hd).
      assert (H1 : blocks_of (trimmed <$> split_lines s) [nonempty ls]) by (apply blocks_of_one; by exists pre, ls, post).
      pose proof (proj2 (Hr [nonempty ls]) ltac:(by eexists)) as [= ->]. rewrite concat_nonempty, bool_decide_false by done. cbn. by rewrite Hd.
  - split; [done|]. intros (body & (pre & ls & post & E & Hp & Hn & Ho & ->) & _).
    assert (H1 : blocks_of (trimmed <$> split_lines s) [nonempty ls]) by (apply blocks_of_one; by exists pre, ls, post).
    pose proof (proj2 (Hr [nonempty ls]) ltac:(by eexists)). done.
Qed.

(** ** What is written *)

Lemma split_lines_one l : newline ∉ l → split_lines l = [l].
Proof.
  induction l as [|c l IH]; [done|]. rewrite not_elem_of_cons. intros [Hc Hl]. cbn. rewrite bool_decide_false by done. by rewrite IH.
Qed.
Lemma split_lines_app a b : split_lines (a ++ newline :: b) = split_lines a ++ split_lines b.
Proof.
  induction a as [|c a IH]; [done|]. cbn. case_bool_decide; [by rewrite IH|]. rewrite IH.
  destruct (split_lines a) as [|l ls] eqn:E; [|done]. destruct a; cbn in E; [done|]. case_bool_decide; [done|]. by destruct (split_lines a).
Qed.

Lemma chars_no_newline l : Forall b64_char l → newline ∉ l.
Proof. rewrite Forall_forall. intros H Hn. destruct (H _ Hn) as [Hp _]. revert Hp. by_compute. Qed.

Lemma trimmed_chars l : Forall b64_char l → trimmed l = l.
Proof.
  intros H. unfold trimmed. rewrite filter_kept.
  - apply TrimSpace_plain. eapply Forall_impl; [exact H|]. by intros c [? _].
  - eapply Forall_impl; [exact H|]. intros c [Hp _] ->. revert Hp. by_compute.
Qed.

Lemma chars_no_delim l : Forall b64_char l → l ≠ armourBegin ∧ l ≠ armourEnd.
Proof. intros H. split; intros ->; inversion H as [|c x [_ Hc] _]; by apply Hc. Qed.

Lemma wrap_lines_split fuel enc : Forall b64_char enc → ∃ ls, split_lines (wrap_lines fuel enc) = ls ∧ concat ls = enc ∧ Forall (Forall b64_char) ls.
Proof.
  revert enc. induction fuel as [|fuel IH]; intros enc H.
  - exists [enc]. split; [by apply split_lines_one, chars_no_newline|]. split; [by rewrite concat_cons, app_nil_r|by repeat constructor].
  - cbn [wrap_lines]. destruct (armourWidth <? length enc)%nat.
    + destruct (IH (drop armourWidth enc)) as (ls & E & Ec & Hf); [by apply Forall_drop|]. exists (take armourWidth enc :: ls).
      rewrite split_lines_app, E. rewrite split_lines_one by (by apply chars_no_newline, Forall_take). split; [done|].
      rewrite concat_cons, Ec, take_drop. split; [done|]. constructor; [by apply Forall_take|done].
    + exists [enc]. split; [by apply split_lines_one, chars_no_newline|]. split; [by rewrite concat_cons, app_nil_r|by repeat constructor].
Qed.

(** The lines of a block: the delimiters, and between them lines of its encoding. *)
Lemma Armour_lines sealed : ∃ ls, trimmed <$> split_lines (Armour sealed) = armourBegin :: ls ++ [armourEnd; []] ∧
  concat ls = StdEncode sealed ∧ no_delim ls.
Proof.
  unfold Armour. destruct (wrap_lines_split (length (StdEncode sealed)) (StdEncode sealed)) as (ls & E & Ec & Hf); [apply b64_encode_chars|].
  exists ls. rewrite !split_lines_app, E. cbn [app]. rewrite (split_lines_one armourBegin) by by_compute.
  replace (split_lines armourEnd ++ split_lines []) with [armourEnd; []] by (by vm_compute).
  cbn [app]. rewrite fmap_cons, fmap_app. split; [|split; [done|]].
  - assert (T1 : trimmed armourBegin = armourBegin) by (by vm_compute). assert (T2 : trimmed <$> [armourEnd; []] = [armourEnd; []]) by (by vm_compute).
    rewrite T1, T2. do 2 f_equal. rewrite <- (list_fmap_id ls) at 2. apply list_fmap_ext. intros i l Hl.
    apply trimmed_chars. rewrite Forall_forall in Hf. apply Hf. by eapply list_elem_of_lookup_2.
  - rewrite Forall_forall in Hf. split; intros Hx; destruct (chars_no_delim _ (Hf _ Hx)); done.
Qed.

Lemma encode_nonempty s : s ≠ [] → StdEncode s ≠ [].
Proof. destruct s as [|x [|y [|z s]]]; done. Qed.

(** Mail survives the terminal. Whatever a block written by [Armour] is surrounded
    by, and whatever carriage returns and white space its lines have gained, [Unarmour]
    gives back the sealed bytes, as long as the paste is not too long and nothing around
    the block looks like a delimiter. And it never guesses: it succeeds only on a paste
    whose lines hold exactly one block, and gives what the lines of that block spell. *)
Theorem armour_roundtrip s x :
  (∀ pre post, x ≠ [] → strlen s ≤ MaxArmourBytes → no_delim pre → no_delim post →
     trimmed <$> split_lines s = pre ++ (trimmed <$> split_lines (Armour x)) ++ post → Unarmour s = Ok x) ∧
  (Unarmour s = Ok x → ∃ pre ls post, trimmed <$> split_lines s = pre ++ armourBegin :: ls ++ armourEnd :: post ∧
     no_delim pre ∧ no_delim ls ∧ no_delim post ∧ concat ls ≠ [] ∧ StdDecode (concat ls) = Some x).
Proof.
  split.
  - intros pre post Hx Hl Hp Ho E. destruct (Armour_lines x) as (ls & El & Ec & Hn). apply Unarmour_Ok. split; [done|].
    exists (StdEncode x). split; [|split; [by apply encode_nonempty|apply b64_decode_encode]].
    exists pre, ls, ([] :: post). rewrite E, El. cbn. rewrite <- app_assoc. split; [done|]. do 2 (split; [done|]).
    split; [by apply no_delim_cons|done].
  - intros (_ & body & (pre & ls & post & E & Hp & Hn & Ho & ->) & Hne & Hd)%Unarmour_Ok.
    by exists pre, ls, post.
Qed.
