(* ===== verification/Keyring.v ===== *)
(** * Keys that mail is sealed to (internal/keyring: keyring.go, kdf.go)

    X25519 keys, the private half wrapped under a passphrase, and sealed messages. The
    primitives are the interface [DmCrypto]; randomness is an argument. Overwriting a key
    in memory has no counterpart. *)

From stdpp Require Import strings.
From S2P Require Import Prelude Binary Identity GoStrings Base64.

(** curve25519.X25519, which fails on a low-order point; the base point; argon2.IDKey
    with 32 bytes asked for; and ChaCha20-Poly1305 under a key, a nonce and additional
    data. *)
Class DmCrypto := {
  X25519 : arr 32 → arr 32 → option (arr 32);
  Basepoint : arr 32;
  IDKey : bytes → bytes → Z → Z → Z → arr 32;
  aead_Seal : arr 32 → bytes → bytes → bytes → bytes;
  aead_Open : arr 32 → bytes → bytes → bytes → option bytes
}.

(** What the library documents: the two sides of an exchange agree, multiplying the
    base point never fails, and a ciphertext, 16 bytes longer, opens under its key and, being
    authenticated, under no other key to anything else. *)
Class DmCryptoLaws `{HX : DmCrypto} := {
  X25519_base : ∀ k, is_Some (X25519 k Basepoint);
  X25519_agree : ∀ a b A B s, X25519 a Basepoint = Some A → X25519 b Basepoint = Some B → X25519 a B = Some s → X25519 b A = Some s;
  aead_opens : ∀ k n m ad, aead_Open k n (aead_Seal k n m ad) ad = Some m;
  aead_authentic : ∀ k k' n m ad m', aead_Open k' n (aead_Seal k n m ad) ad = Some m' → m' = m;
  aead_length : ∀ k n m ad, strlen (aead_Seal k n m ad) = strlen m + 16
}.

Definition KeySize : nat := 32.
Definition PublicKey : Type := arr 32.
Definition PrivateKey : Type := arr 32.

Inductive keyring_error :=
| NotAPublicKey | PublicKeyLength (n : Z) | DerivePublic | EmptyPassphrase | NoSalt | LibraryPanics
| ErrWrongPassphrase | UnsupportedVersion (v : Z) | UnwrappedLength (n : Z)
| WrappedTruncated | WrappedNoCiphertext
| BadAgreement | ZeroAgreement | SealedTooShort | CannotDecrypt.

Section keyring.
Context `{HB : Blake3, HX : DmCrypto}.

Definition Public (k : PrivateKey) : result keyring_error PublicKey :=
  match X25519 k Basepoint with Some p => Ok p | None => Err DerivePublic end.

Definition PublicKey_String (p : PublicKey) : bytes := RawStdEncode (vec_to_list p).
Definition ParsePublicKey (s : bytes) : result keyring_error PublicKey :=
  match RawStdDecode (TrimSpace s) with
  | None => Err NotAPublicKey
  | Some raw => _ ← require (bool_decide (length raw = KeySize)) (PublicKeyLength (strlen raw)); Ok (arr_of 32 raw)
  end.

(** ** Wrapping *)

Definition wrapTime : Z := 3.
Definition wrapMemory : Z := 64 * 1024.
Definition wrapThreads : Z := 4.
Definition wrapSaltLen : nat := 16.
Definition wrapVersion : Z := 1.

Record WrappedKey := mkWrapped { k_Version : Z; k_Memory : Z; k_Time : Z; k_Threads : Z; k_Salt : bytes; k_Sealed : bytes }.

Definition zero_nonce : bytes := replicate 12 Byte.x00.

(** Clamped per RFC 7748. *)
Definition clamp (raw : arr 32) : arr 32 :=
  let l := vec_to_list raw in
  let l := alter (λ c, z2b (Z.land (b2z c) 248)) 0%nat l in
  arr_of 32 (alter (λ c, z2b (Z.lor (Z.land (b2z c) 127) 64)) 31%nat l).

Definition Generate (random : arr 32) : result keyring_error (PrivateKey * PublicKey) :=
  let priv := clamp random in
  pub ← Public priv;
  Ok (priv, pub).

(** No passes or no lanes make the library panic. *)
Definition aeadFor (passphrase salt : bytes) (memory time threads : Z) : result keyring_error (arr 32) :=
  _ ← require (negb (bool_decide (salt = []))) NoSalt;
  _ ← require ((0 <? time) && (0 <? threads)) LibraryPanics;
  Ok (IDKey passphrase salt time memory threads).

Definition Wrap (salt : arr 16) (priv : PrivateKey) (passphrase : bytes) : result keyring_error WrappedKey :=
  _ ← require (negb (bool_decide (passphrase = []))) EmptyPassphrase;
  let salt := vec_to_list salt in
  key ← aeadFor passphrase salt wrapMemory wrapTime wrapThreads;
  Ok (mkWrapped wrapVersion wrapMemory wrapTime wrapThreads salt (aead_Seal key zero_nonce (vec_to_list priv) [])).

Definition Unwrap (w : WrappedKey) (passphrase : bytes) : result keyring_error PrivateKey :=
  _ ← require (k_Version w =? wrapVersion) (UnsupportedVersion (k_Version w));
  key ← aeadFor passphrase (k_Salt w) (k_Memory w) (k_Time w) (k_Threads w);
  match aead_Open key zero_nonce (k_Sealed w) [] with
  | None => Err ErrWrongPassphrase
  | Some out => _ ← require (bool_decide (length out = KeySize)) (UnwrappedLength (strlen out)); Ok (arr_of 32 out)
  end.

Definition Rewrap (salt : arr 16) (w : WrappedKey) (oldPassphrase newPassphrase : bytes) : result keyring_error WrappedKey :=
  priv ← Unwrap w oldPassphrase;
  Wrap salt priv newPassphrase.

Definition Encode (w : WrappedKey) : bytes :=
  z2b (k_Version w) :: be_bytes 4 (k_Memory w) ++ be_bytes 4 (k_Time w) ++ z2b (k_Threads w) :: z2b (strlen (k_Salt w)) :: k_Salt w ++ k_Sealed w.

Definition DecodeWrapped (b : bytes) : result keyring_error WrappedKey :=
  _ ← require (11 <=? strlen b) WrappedTruncated;
  '(v, b) ← take_byte WrappedTruncated b;
  '(m, b) ← take_be WrappedTruncated 4 b;
  '(t, b) ← take_be WrappedTruncated 4 b;
  '(p, b) ← take_byte WrappedTruncated b;
  '(n, b) ← take_byte WrappedTruncated b;
  '(salt, b) ← take_n WrappedTruncated (Z.to_nat (b2z n)) b;
  _ ← require (negb (bool_decide (b = []))) WrappedNoCiphertext;
  Ok (mkWrapped (b2z v) m t (b2z p) salt b).

(** ** Sealing *)

Definition SealOverhead : Z := Z.of_nat KeySize + 16.
Definition dmKeyContext : bytes := str "meshbbs DM v1 message key"%string.

Definition blake3DeriveKey (shared : arr 32) (ephPub recipientPub : PublicKey) : arr 32 :=
  blake3_sum256 (dmKeyContext ++ vec_to_list shared ++ vec_to_list ephPub ++ vec_to_list recipientPub).

Definition sealAEAD (shared : arr 32) (ephPub recipientPub : PublicKey) : result keyring_error (arr 32) :=
  _ ← require (negb (bool_decide (shared = zero_arr 32))) ZeroAgreement;
  Ok (blake3DeriveKey shared ephPub recipientPub).

Definition agree (priv : PrivateKey) (pub : PublicKey) : result keyring_error (arr 32) :=
  match X25519 priv pub with Some s => Ok s | None => Err BadAgreement end.

Definition Seal (random : arr 32) (recipient : PublicKey) (plaintext : bytes) : result keyring_error bytes :=
  '(ephPriv, ephPub) ← Generate random;
  shared ← agree ephPriv recipient;
  key ← sealAEAD shared ephPub recipient;
  Ok (vec_to_list ephPub ++ aead_Seal key zero_nonce plaintext (vec_to_list ephPub)).

Definition Open (priv : PrivateKey) (sealed : bytes) : result keyring_error bytes :=
  _ ← require (negb (strlen sealed <? SealOverhead)) SealedTooShort;
  let ephPub := arr_of 32 (take KeySize sealed) in
  recipientPub ← Public priv;
  shared ← agree priv ephPub;
  key ← sealAEAD shared ephPub recipientPub;
  match aead_Open key zero_nonce (drop KeySize sealed) (vec_to_list ephPub) with
  | None => Err CannotDecrypt
  | Some out => Ok out
  end.
End keyring.

(** ** What comes back *)

Section laws.
Context `{HB : Blake3, HX : DmCrypto, HL : !DmCryptoLaws}.

Lemma ParsePublicKey_String p : ParsePublicKey (PublicKey_String p) = Ok p.
Proof.
  unfold ParsePublicKey, PublicKey_String. rewrite TrimSpace_plain.
  - unfold RawStdDecode, RawStdEncode. rewrite b64_decode_encode, bool_decide_true by apply length_vec_to_list.
    cbn [require mbind result_bind]. by rewrite arr_of_vec.
  - eapply Forall_impl; [apply b64_encode_chars|]. by intros c [? _].
Qed.

Lemma PublicKey_String_inj p q : PublicKey_String p = PublicKey_String q → p = q.
Proof. intros E. pose proof (ParsePublicKey_String p) as H. rewrite E, ParsePublicKey_String in H. by injection H. Qed.
Lemma PublicKey_String_nonempty p : PublicKey_String p ≠ [].
Proof. intros E. pose proof (ParsePublicKey_String p) as H. rewrite E in H. done. Qed.

(** A wrapped key as [Wrap] makes them and [Encode] can write. *)
Definition wrapped_ok (w : WrappedKey) : Prop :=
  is_u8 (k_Version w) ∧ is_u32 (k_Memory w) ∧ is_u32 (k_Time w) ∧ is_u8 (k_Threads w) ∧ strlen (k_Salt w) < 256 ∧ k_Sealed w ≠ [].

Lemma DecodeWrapped_Encode w : wrapped_ok w → DecodeWrapped (Encode w) = Ok w.
Proof.
  destruct w as [v m t p salt sealed]. unfold wrapped_ok. cbn [k_Version k_Memory k_Time k_Threads k_Salt k_Sealed].
  intros (Hv & Hm & Ht & Hp & Hs & Hne). unfold DecodeWrapped, Encode. cbn [k_Version k_Memory k_Time k_Threads k_Salt k_Sealed].
  rewrite (proj2 (Z.leb_le 11 _)).
  2: { unfold strlen. cbn [length]. rewrite !length_app, !length_be_bytes. cbn [length]. rewrite !length_app. lia. }
  cbn [require mbind result_bind take_byte].
  rewrite (proj2 (take_be_Ok _ 4 _ m _)) by done. cbn [mbind result_bind].
  rewrite (proj2 (take_be_Ok _ 4 _ t _)) by done. cbn [require mbind result_bind take_byte].
  rewrite (b2z_z2b_small (strlen salt)) by (unfold strlen in *; lia).
  rewrite take_n_app by (unfold strlen; lia). cbn [require mbind result_bind].
  rewrite bool_decide_false by done. cbn [negb require mbind result_bind]. by rewrite !b2z_z2b_small.
Qed.

Lemma aead_nonempty k n m ad : aead_Seal k n m ad ≠ [].
Proof using HL. intros E. pose proof (aead_length k n m ad) as Hl. rewrite E in Hl. unfold strlen in Hl. cbn in Hl. lia. Qed.

Lemma Wrap_Ok salt priv pass w : Wrap salt priv pass = Ok w → pass ≠ [] ∧ wrapped_ok w ∧ Unwrap w pass = Ok priv.
Proof using HL.
  unfold Wrap. rewrite bind_unit_Ok, require_neg_decide. intros [Hp H]. unfold aeadFor in H. rewrite bool_decide_false in H by (by inv_vec salt).
  cbn in H. injection H as <-. split; [done|]. split.
  - unfold wrapped_ok. cbn. do 4 (split; [by_compute|]). split; [unfold strlen; by rewrite length_vec_to_list|].
    apply aead_nonempty.
  - unfold Unwrap, aeadFor. cbn [k_Version k_Memory k_Time k_Threads k_Salt k_Sealed]. rewrite bool_decide_false by (by inv_vec salt).
    cbn [require mbind result_bind negb Z.eqb]. change (wrapVersion =? wrapVersion) with true. cbn [require mbind result_bind].
    change ((0 <? wrapTime) && (0 <? wrapThreads)) with true. cbn [require mbind result_bind].
    rewrite aead_opens, bool_decide_true by apply length_vec_to_list. cbn [require mbind result_bind]. by rewrite arr_of_vec.
Qed.

(** What a wrapped key unwraps to, under whatever passphrase, is the key wrapped. *)
Lemma Unwrap_only salt priv pass w pass' priv' : Wrap salt priv pass = Ok w → Unwrap w pass' = Ok priv' → priv' = priv.
Proof using HL.
  unfold Wrap. rewrite bind_unit_Ok. intros [_ H] Hu. apply bind_Ok in H as (k & _ & H). injection H as <-.
  unfold Unwrap in Hu. rewrite bind_unit_Ok in Hu. destruct Hu as [_ Hu]. apply bind_Ok in Hu as (k' & _ & Hu). cbn [k_Sealed] in Hu.
  destruct (aead_Open _ _ _ _) as [m|] eqn:Eo; [|done]. apply aead_authentic in Eo as ->.
  rewrite bool_decide_true in Hu by apply length_vec_to_list. cbn [require mbind result_bind] in Hu. rewrite arr_of_vec in Hu. by injection Hu.
Qed.

Lemma Wrap_is_Ok salt priv pass : pass ≠ [] → ∃ w, Wrap salt priv pass = Ok w.
Proof.
  intros Hp. unfold Wrap, aeadFor. rewrite (bool_decide_false (pass = [])) by done. cbn [negb require mbind result_bind]. rewrite bool_decide_false by (by inv_vec salt). by eexists.
Qed.

(** Sealed to a public key, a message opens with any private key it belongs to. *)
Lemma Open_Seal rnd pub m sealed priv : Seal rnd pub m = Ok sealed → Public priv = Ok pub → Open priv sealed = Ok m.
Proof using HL.
  unfold Seal. rewrite bind_Ok. intros ([ePriv ePub] & Hg & H). apply bind_Ok in H as (shared & Ha & H). apply bind_Ok in H as (key & Hk & H).
  injection H as <-. intros Hpub. unfold Open.
  assert (Hl : strlen (vec_to_list ePub ++ aead_Seal key zero_nonce m (vec_to_list ePub)) = strlen m + 48).
  { unfold strlen. rewrite length_app, length_vec_to_list. pose proof (aead_length key zero_nonce m (vec_to_list ePub)) as Hl. unfold strlen in Hl. lia. }
  rewrite Hl. rewrite (proj2 (Z.ltb_ge _ _)) by (change SealOverhead with 48; unfold strlen; lia). cbn [negb require mbind result_bind].
  replace (arr_of 32 (take KeySize (vec_to_list ePub ++ aead_Seal key zero_nonce m (vec_to_list ePub)))) with ePub
    by (rewrite take_app_length' by (by rewrite length_vec_to_list); by rewrite arr_of_vec).
  rewrite drop_app_length' by (by rewrite length_vec_to_list). rewrite Hpub. cbn [mbind result_bind].
  assert (Hs : agree priv ePub = Ok shared).
  { unfold Generate in Hg. apply bind_Ok in Hg as (p & Hp & [= <- <-]). unfold Public in Hp, Hpub. unfold agree in *.
    destruct (X25519 (clamp rnd) Basepoint) as [A|] eqn:EA; [|done]. injection Hp as ->.
    destruct (X25519 priv Basepoint) as [B|] eqn:EB; [|done]. injection Hpub as ->.
    destruct (X25519 (clamp rnd) pub) as [s|] eqn:Es; [|done]. injection Ha as ->.
    by rewrite (X25519_agree _ _ _ _ _ EA EB Es). }
  rewrite Hs. cbn [mbind result_bind]. rewrite Hk. cbn [mbind result_bind]. by rewrite aead_opens.
Qed.

Lemma Seal_length rnd pub m sealed : Seal rnd pub m = Ok sealed → strlen sealed = strlen m + SealOverhead.
Proof using HL.
  unfold Seal. rewrite bind_Ok. intros ([ePriv ePub] & _ & H). apply bind_Ok in H as (shared & _ & H). apply bind_Ok in H as (key & _ & H).
  injection H as <-. unfold strlen, SealOverhead, KeySize. rewrite length_app, length_vec_to_list.
  pose proof (aead_length key zero_nonce m (vec_to_list ePub)) as Hl. unfold strlen in Hl. lia.
Qed.

Lemma Generate_Ok rnd : ∃ pub, Generate rnd = Ok (clamp rnd, pub) ∧ Public (clamp rnd) = Ok pub.
Proof using HL. unfold Generate, Public. destruct (X25519_base (clamp rnd)) as [pub ->]. by exists pub. Qed.
End laws.
