(* ===== verification/Mail.v ===== *)
(** * Private mail (internal/store: dm.go, auth.go; internal/bbs/bbs.go)

    The bodies of mail, the index of who wrote to whom, the custody of each account's
    key, and sending and opening. The two key columns of the user table and the index are
    tables beside the board's; a column holding nothing has no entry. What is verified and
    hashed of passwords is an argument, and so is randomness. Mail of one second is listed
    newest row first, which the query leaves open. *)

From stdpp Require Import strings relations.
From S2P Require Import Prelude Binary Identity Order Text GoStrings NodeNames.
From S2P Require Import Records RecordLog Board Areas Service Base64 Keyring.

(** ** Bodies (dm.go) *)

Record DMBody := mkDMBody { dm_Sender : bytes; dm_Recipient : bytes; dm_Sealed : bytes }.
Record SealedPayload := mkPayload { sp_Subject : bytes; sp_Text : bytes }.

Inductive mail_error :=
| MailNotFound | NoDMKey (nick : bytes) | BadKey (e : keyring_error)
| SealedSubjectLength (n : Z) | SenderLength (n : Z) | RecipientLength (n : Z) | DMTruncated
| InvalidCredentials | CannotLogIn | WrongPassword | NoNewHash
| ErrWouldStrandExistingMail | ErrDMHistoryWouldBeLost
| NoRecipientGiven | NoUserPart (ref : bytes) | BadNode (e : alias_error) | OnAnotherBoard (nick : bytes) (node : NodeID) | ErrNoRecipient (nick : bytes)
| MailNotWritten (e : board_error) | ErrClientHeldKey.

Definition MarshalSealedPayload (p : SealedPayload) : result mail_error bytes :=
  _ ← require (strlen (sp_Subject p) <=? 72) (SealedSubjectLength (strlen (sp_Subject p)));
  Ok (Bodies.byte_of_len (sp_Subject p) :: sp_Subject p ++ sp_Text p).

(** A string behind its length. *)
Definition read_short (b : bytes) : result mail_error (bytes * bytes) :=
  '(n, b) ← take_byte DMTruncated b;
  take_n DMTruncated (Z.to_nat (b2z n)) b.

Definition UnmarshalSealedPayload (b : bytes) : result mail_error SealedPayload :=
  '(subject, text) ← read_short b;
  Ok (mkPayload subject text).

Definition MarshalDMBody (d : DMBody) : result mail_error bytes :=
  _ ← require (strlen (dm_Sender d) <=? 16) (SenderLength (strlen (dm_Sender d)));
  _ ← require (strlen (dm_Recipient d) <=? 16) (RecipientLength (strlen (dm_Recipient d)));
  Ok (Bodies.byte_of_len (dm_Sender d) :: dm_Sender d ++ Bodies.byte_of_len (dm_Recipient d) :: dm_Recipient d ++ dm_Sealed d).

Definition UnmarshalDMBody (b : bytes) : result mail_error DMBody :=
  '(sender, b) ← read_short b;
  '(recipient, b) ← read_short b;
  Ok (mkDMBody sender recipient b).

(** ** The tables *)

Record DMRow := mkDMRow { d_ID : ID; d_Sender : bytes; d_Recipient : bytes; d_SenderNode : NodeID; d_SentAt : Z; d_ReadAt : Z }.
Record MailTables := mkMail {
  dm_public_key : gmap Z bytes; dm_wrapped_key : gmap Z bytes;    (* by account *)
  dm_index : list DMRow
}.
Definition no_mail : MailTables := mkMail ∅ ∅ [].

Definition with_keys (pub wrapped : gmap Z bytes) (t : MailTables) : MailTables := mkMail pub wrapped (dm_index t).
Definition with_index (l : list DMRow) (t : MailTables) : MailTables := mkMail (dm_public_key t) (dm_wrapped_key t) l.

Record DM := mkDM { m_ID : ID; m_Sender : bytes; m_Recipient : bytes; m_SenderNode : NodeID; m_SentAt : Z; m_ReadAt : Z; SealedBytes : bytes }.
Definition Unread (d : DM) : bool := m_ReadAt d =? 0.

Definition IndexDM (i : ID) (body : DMBody) (node : NodeID) (sentAt : Z) (t : MailTables) : MailTables :=
  if existsb (λ d, bool_decide (d_ID d = i)) (dm_index t) then t
  else with_index (dm_index t ++ [mkDMRow i (dm_Sender body) (dm_Recipient body) node sentAt 0]) t.

Definition scanDM (db : Db) (d : DMRow) : option DM :=
  w ← List.find (λ w, bool_decide (row_id w = d_ID d)) (rows db);
  Some (mkDM (d_ID d) (d_Sender d) (d_Recipient d) (d_SenderNode d) (d_SentAt d) (d_ReadAt d)
    (match UnmarshalDMBody (Body (columns w)) with Ok b => dm_Sealed b | Err _ => [] end)).

Definition list_mail (column : DMRow → bytes) (nick : bytes) (limit : Z) (db : Db) (t : MailTables) : list DM :=
  let limit := if limit <=? 0 then 100 else limit in
  let found := filter (λ d, nocase (column d) = nocase nick) (dm_index t) in
  take (Z.to_nat limit) (omap (scanDM db) (sort_by (λ d, - d_SentAt d) Z.ltb (reverse found))).
Definition Inbox : bytes → Z → Db → MailTables → list DM := list_mail d_Recipient.
Definition Outbox : bytes → Z → Db → MailTables → list DM := list_mail d_Sender.

Definition unread_for (nick : bytes) (d : DMRow) : Prop := nocase (d_Recipient d) = nocase nick ∧ d_ReadAt d = 0.
#[export] Instance unread_for_dec nick d : Decision (unread_for nick d).
Proof. unfold unread_for. apply _. Defined.
Definition UnreadCount (nick : bytes) (t : MailTables) : Z := Z.of_nat (length (filter (unread_for nick) (dm_index t))).

Definition read_now (now : Z) (i : ID) (d : DMRow) : DMRow :=
  if bool_decide (d_ID d = i) && (d_ReadAt d =? 0) then mkDMRow (d_ID d) (d_Sender d) (d_Recipient d) (d_SenderNode d) (d_SentAt d) now else d.
Definition MarkDMRead (now : Z) (i : ID) (t : MailTables) : MailTables := with_index (read_now now i <$> dm_index t) t.

(** ** Passwords and the custody of keys (auth.go) *)

Section custody.
Context `{HB : Blake3, HX : DmCrypto}.

(** [verified] is what [VerifyPassword] says of the stored hash. *)
Definition AuthenticatePassword (verified : bool) (nick : bytes) (b : Board) : result mail_error User :=
  match GetUser nick b with
  | Err _ => Err InvalidCredentials
  | Ok u =>
      if bool_decide (u_PasswordHash u = []) then Err InvalidCredentials
      else if negb verified then Err InvalidCredentials
      else if negb (u_CanLogin u) then Err CannotLogIn
      else Ok u
  end.

Definition set_hash (hash : bytes) (u : User) : User :=
  mkUser (u_ID u) (u_Nick u) (u_DisplayName u) hash (u_DirectoryListed u) (u_IsSysop u) (u_CanLogin u) (u_State u) (u_CreatedAt u) (u_LastLoginAt u).
Definition update_user (p : User → bool) (f : User → User) (b : Board) : Board :=
  with_users ((λ u, if p u then f u else u) <$> users b) (last_user b) (capabilities b) b.

Definition SetPassword (nick hash : bytes) (b : Board) : option mail_error * Board :=
  (if existsb (is_nick nick) (users b) then None else Some MailNotFound, update_user (is_nick nick) (set_hash hash) b).

Definition SetDMKey (nick : bytes) (pub : PublicKey) (wrapped : WrappedKey) (b : Board) (t : MailTables) : option mail_error * MailTables :=
  match GetUser nick b with
  | Err _ => (Some MailNotFound, t)
  | Ok u => (None, with_keys (<[u_ID u := PublicKey_String pub]> (dm_public_key t)) (<[u_ID u := Encode wrapped]> (dm_wrapped_key t)) t)
  end.

Definition SetClientHeldDMKey (now : Z) (nick : bytes) (pub : PublicKey) (replace : bool) (b : Board) (t : MailTables) : option mail_error * Board * MailTables :=
  match GetUser nick b with
  | Err _ => (Some MailNotFound, b, t)
  | Ok u =>
      let existing := default [] (dm_public_key t !! u_ID u) in
      if negb (bool_decide (existing = [])) && negb (bool_decide (existing = PublicKey_String pub)) && negb replace
      then (Some ErrWouldStrandExistingMail, b, t)
      else
        (None, Audit now (str "cli"%string) (str "user.dm_key_client_held"%string) nick (Text (PublicKey_String pub)) b,
         with_keys (<[u_ID u := PublicKey_String pub]> (dm_public_key t)) (delete (u_ID u) (dm_wrapped_key t)) t)
  end.

Definition DMKeyIsClientHeld (nick : bytes) (b : Board) (t : MailTables) : result mail_error bool :=
  match GetUser nick b with
  | Err _ => Err MailNotFound
  | Ok u => Ok (bool_decide (is_Some (dm_public_key t !! u_ID u)) && bool_decide (dm_wrapped_key t !! u_ID u = None))
  end.

Definition DMPublicKey (nick : bytes) (b : Board) (t : MailTables) : result mail_error PublicKey :=
  match GetUser nick b with
  | Err _ => Err MailNotFound
  | Ok u =>
      match dm_public_key t !! u_ID u with
      | None => Err (NoDMKey nick)
      | Some encoded => wrap_err BadKey (ParsePublicKey encoded)
      end
  end.

Definition WrappedDMKey (nick : bytes) (b : Board) (t : MailTables) : result mail_error WrappedKey :=
  match GetUser nick b with
  | Err _ => Err MailNotFound
  | Ok u =>
      match dm_wrapped_key t !! u_ID u with
      | None => Err (NoDMKey nick)
      | Some blob => wrap_err BadKey (DecodeWrapped blob)
      end
  end.

(** [newHash] is what [HashPassword] makes of the new password. *)
Definition ChangePasswordAndRewrapDMKey (salt : arr 16) (verified : bool) (nick oldPassphrase : bytes) (newHash : option bytes) (newPassphrase : bytes)
    (b : Board) (t : MailTables) : option mail_error * Board * MailTables :=
  match GetUser nick b with
  | Err _ => (Some MailNotFound, b, t)
  | Ok u =>
      let change :=
        _ ← require verified WrongPassword;
        wrapped ← WrappedDMKey nick b t;
        rewrapped ← wrap_err BadKey (Rewrap salt wrapped oldPassphrase newPassphrase);
        match newHash with Some h => Ok (rewrapped, h) | None => Err NoNewHash end in
      match change with
      | Err e => (Some e, b, t)
      | Ok (rewrapped, hash) =>
          (None, update_user (is_nick nick) (set_hash hash) b, with_keys (dm_public_key t) (<[u_ID u := Encode rewrapped]> (dm_wrapped_key t)) t)
      end
  end.

Definition ResetPasswordAsSysop (now : Z) (nick : bytes) (newHash : option bytes) (discardDMKey : bool) (b : Board) (t : MailTables) : option mail_error * Board * MailTables :=
  match GetUser nick b with
  | Err _ => (Some MailNotFound, b, t)
  | Ok u =>
      let hasKey := bool_decide (is_Some (dm_wrapped_key t !! u_ID u)) in
      if hasKey && negb discardDMKey then (Some ErrDMHistoryWouldBeLost, b, t)
      else match newHash with
      | None => (Some NoNewHash, b, t)
      | Some hash =>
          let b := update_user (λ v, u_ID v =? u_ID u) (set_hash hash) b in
          (None, Audit now (str "sysop"%string) (str "user.password_reset"%string) nick (Text (if hasKey then str "DM key discarded"%string else [])) b,
           if hasKey then with_keys (delete (u_ID u) (dm_public_key t)) (delete (u_ID u) (dm_wrapped_key t)) t else t)
      end
  end.

(** ** Sending and opening (bbs.go) *)

Context `{HE : Ed25519, HD : SqlDriver} (key : NodeKey).

Definition at_sign : byte := Byte.x40.

Definition ResolveRecipient (ref : bytes) (al : list Alias) : result mail_error (bytes * NodeID) :=
  let ref := TrimSpace ref in
  _ ← require (negb (bool_decide (ref = []))) NoRecipientGiven;
  let '(nick, nodeRef, hasNode) := Cut at_sign ref in
  let nick := TrimSpace nick in
  _ ← require (negb (bool_decide (nick = []))) (NoUserPart ref);
  if negb hasNode || bool_decide (TrimSpace nodeRef = []) then Ok (nick, NodeKey_ID key)
  else node ← wrap_err BadNode (ResolveNodeRef nodeRef al); Ok (nick, node).

(** What is written: the body of the record, if the mail may be sent. *)
Definition dm_body (random : arr 32) (sender ref subject text : bytes) (al : list Alias) (b : Board) (t : MailTables) : result mail_error bytes :=
  '(nick, node) ← ResolveRecipient ref al;
  _ ← require (bool_decide (node = NodeKey_ID key)) (OnAnotherBoard nick node);
  pub ← match DMPublicKey nick b t with Err MailNotFound => Err (ErrNoRecipient nick) | r => r end;
  payload ← MarshalSealedPayload (mkPayload subject text);
  sealed ← wrap_err BadKey (Seal random pub payload);
  MarshalDMBody (mkDMBody sender nick sealed).

Definition SendDM (now : Z) (random : arr 32) (sender ref subject text : bytes) (al : list Alias) (b : Board) (t : MailTables) : result mail_error ID * Board * MailTables :=
  match dm_body random sender ref subject text al b t with
  | Err e => (Err e, b, t)
  | Ok body =>
      let '(r, b) := newRecord key now TypeDM DMArea body b in
      match r with
      | Err e => (Err (MailNotWritten e), b, t)
      | Ok rec =>
          match put now rec b with
          | (Some e, b) => (Err (MailNotWritten e), b, t)
          | (None, b) =>
              match UnmarshalDMBody (Body (fields rec)) with
              | Err e => (Err e, b, t)
              | Ok parsed => (Ok (id rec), b, IndexDM (id rec) parsed (NodeKey_ID key) now t)
              end
          end
      end
  end.

Definition OpenDM (nick passphrase sealed : bytes) (b : Board) (t : MailTables) : result mail_error SealedPayload :=
  clientHeld ← DMKeyIsClientHeld nick b t;
  _ ← require (negb clientHeld) ErrClientHeldKey;
  wrapped ← WrappedDMKey nick b t;
  priv ← wrap_err BadKey (Unwrap wrapped passphrase);
  plain ← wrap_err BadKey (Open priv sealed);
  UnmarshalSealedPayload plain.

Definition EnsureDMKey (random : arr 32) (salt : arr 16) (nick passphrase : bytes) (b : Board) (t : MailTables) : option mail_error * MailTables :=
  match DMPublicKey nick b t with
  | Ok _ => (None, t)
  | Err _ =>
      match ('(priv, pub) ← Generate random; w ← Wrap salt priv passphrase; Ok (pub, w)) with
      | Err e => (Some (BadKey e), t)
      | Ok (pub, wrapped) => SetDMKey nick pub wrapped b t
      end
  end.

Definition VerifyPassphrase (nick passphrase : bytes) (b : Board) (t : MailTables) : option mail_error :=
  match (wrapped ← WrappedDMKey nick b t; wrap_err BadKey (Unwrap wrapped passphrase)) with Ok _ => None | Err e => Some e end.
End custody.
