(* ===== verification/MailFacts.v ===== *)
(** * Whose mail opens with what (internal/store: dm.go, auth.go; internal/bbs/bbs.go)

    Round trips of the bodies, runs of everything that touches keys or mail, and what
    holds of each: mail stays readable by who it was sent to until its key is given up. *)

From stdpp Require Import strings relations.
From S2P Require Import Prelude Binary Identity Order Text GoStrings NodeNames.
From S2P Require Import Records RecordLog.
From S2P Require GossipStore.
From S2P Require Import Board Areas Service Base64 Keyring Mail.

(** ** Bodies *)

Lemma read_short_app x rest : strlen x ≤ 255 → read_short (Bodies.byte_of_len x :: x ++ rest) = Ok (x, rest).
Proof.
  intros H. unfold read_short. cbn [take_byte mbind result_bind]. apply take_n_app. rewrite byte_of_len_nat; [done|]. unfold strlen in H. lia.
Qed.

Definition payload_wire (p : SealedPayload) : bytes := Bodies.byte_of_len (sp_Subject p) :: sp_Subject p ++ sp_Text p.
Definition dm_wire (d : DMBody) : bytes :=
  Bodies.byte_of_len (dm_Sender d) :: dm_Sender d ++ Bodies.byte_of_len (dm_Recipient d) :: dm_Recipient d ++ dm_Sealed d.

Lemma MarshalSealedPayload_Ok p b : MarshalSealedPayload p = Ok b ↔ strlen (sp_Subject p) ≤ 72 ∧ b = payload_wire p.
Proof. unfold MarshalSealedPayload. rewrite bind_unit_Ok, require_Ok, Z.leb_le. unfold payload_wire. naive_solver. Qed.
Lemma MarshalDMBody_Ok d b : MarshalDMBody d = Ok b ↔ strlen (dm_Sender d) ≤ 16 ∧ strlen (dm_Recipient d) ≤ 16 ∧ b = dm_wire d.
Proof. unfold MarshalDMBody. rewrite !bind_unit_Ok, !require_Ok, !Z.leb_le. unfold dm_wire. naive_solver. Qed.

Lemma UnmarshalSealedPayload_wire p : strlen (sp_Subject p) ≤ 72 → UnmarshalSealedPayload (payload_wire p) = Ok p.
Proof. intros H. unfold UnmarshalSealedPayload, payload_wire. rewrite read_short_app by lia. by destruct p. Qed.
Lemma UnmarshalDMBody_wire d : strlen (dm_Sender d) ≤ 16 → strlen (dm_Recipient d) ≤ 16 → UnmarshalDMBody (dm_wire d) = Ok d.
Proof.
  intros H1 H2. unfold UnmarshalDMBody, dm_wire. rewrite read_short_app by lia. cbn [mbind result_bind]. rewrite read_short_app by lia.
  by destruct d.
Qed.

(** ** Runs *)

Inductive mail_event := Sent (i : ID) (u : Z) (subject text : bytes) | Lost (u : Z).

(** The mail of an account that was sent and whose key was not given up since. *)
Definition live (tr : list mail_event) (i : ID) (u : Z) (subject text : bytes) : Prop :=
  ∃ t1 t2, tr = t1 ++ Sent i u subject text :: t2 ∧ Lost u ∉ t2.

Lemma live_app tr ev i u s x : live (tr ++ ev) i u s x → (live tr i u s x ∧ Lost u ∉ ev) ∨ live ev i u s x.
Proof.
  intros (t1 & t2 & E & Hl). apply app_eq_inv in E as [(k & -> & E)|(k & -> & E)].
  - destruct k as [|y k]; cbn in E.
    + right. exists [], t2. done.
    + injection E as <- ->. rewrite elem_of_app in Hl. left. split; [|tauto]. exists t1, k. split; [done|tauto].
  - right. by exists k, t2.
Qed.

Section mail.
Context `{HB : Blake3, HX : DmCrypto, HE : Ed25519, HD : SqlDriver} (key : NodeKey).

(** A board, its mail, and the passphrase that each account's key is wrapped under. *)
Record mail_state := mkMS { ms_board : Board; ms_mail : MailTables; ms_pass : gmap Z bytes }.

Definition if_account {X} (nick : bytes) (b : Board) (d : X) (f : Z → X) : X :=
  match account nick b with Some u => f (u_ID u) | None => d end.

Inductive mail_step : mail_state → list mail_event → mail_state → Prop :=
| ms_ensure rnd salt nick pass b t p : let x := EnsureDMKey rnd salt nick pass b t in
    mail_step (mkMS b t p) [] (mkMS b x.2
      (if bool_decide (x.1 = None) && negb (is_ok (DMPublicKey nick b t)) then if_account nick b p (λ u, <[u := pass]> p) else p))
| ms_change salt verified nick old hash new b t p : let x := ChangePasswordAndRewrapDMKey salt verified nick old hash new b t in
    mail_step (mkMS b t p) [] (mkMS x.1.2 x.2 (if bool_decide (x.1.1 = None) then if_account nick b p (λ u, <[u := new]> p) else p))
| ms_client now nick pub replace b t p : let x := SetClientHeldDMKey now nick pub replace b t in
    mail_step (mkMS b t p)
      (if bool_decide (x.1.1 = None) then
         if_account nick b [] (λ u, match dm_public_key t !! u with Some s => if bool_decide (s = PublicKey_String pub) then [] else [Lost u] | None => [] end)
       else [])
      (mkMS x.1.2 x.2 (if bool_decide (x.1.1 = None) then if_account nick b p (λ u, delete u p) else p))
| ms_reset now nick hash discard b t p : let x := ResetPasswordAsSysop now nick hash discard b t in
    let given_up := bool_decide (x.1.1 = None) && if_account nick b false (λ u, bool_decide (is_Some (dm_wrapped_key t !! u))) in
    mail_step (mkMS b t p) (if given_up then if_account nick b [] (λ u, [Lost u]) else [])
      (mkMS x.1.2 x.2 (if given_up then if_account nick b p (λ u, delete u p) else p))
| ms_send now rnd sender ref subject text al b t p : let x := SendDM key now rnd sender ref subject text al b t in
    mail_step (mkMS b t p)
      (match x.1.1, ResolveRecipient key ref al with
       | Ok i, Ok (nick, _) => if HasRecord i (log b) then [] else if_account nick b [] (λ u, [Sent i u subject text])
       | _, _ => []
       end)
      (mkMS x.1.2 x.2 p)
| ms_read now i b t p : mail_step (mkMS b t p) [] (mkMS b (MarkDMRead now i t) p)
| ms_password nick hash b t p : mail_step (mkMS b t p) [] (mkMS (SetPassword nick hash b).2 t p)
| ms_else b' b t p : keeps b b' → own_ok key (log b') → (∃ l, rows (log b') = rows (log b) ++ l) → mail_step (mkMS b t p) [] (mkMS b' t p).

Inductive mail_run : mail_state → list mail_event → mail_state → Prop :=
| mail_nil s : mail_run s [] s
| mail_snoc s tr s1 ev s2 : mail_run s tr s1 → mail_step s1 ev s2 → mail_run s (tr ++ ev) s2.

(** ** What holds of a run *)

Definition keys_ok (t : MailTables) (p : gmap Z bytes) : Prop :=
  (∀ u pass, p !! u = Some pass → ∃ priv pub w salt, dm_public_key t !! u = Some (PublicKey_String pub) ∧ Public priv = Ok pub ∧
     dm_wrapped_key t !! u = Some (Encode w) ∧ Wrap salt priv pass = Ok w) ∧
  (∀ u, is_Some (dm_wrapped_key t !! u) → is_Some (p !! u)) ∧
  (∀ u s, dm_public_key t !! u = Some s → ∃ pub, s = PublicKey_String pub).

Definition index_ok (b : Board) (t : MailTables) : Prop := ∀ d, d ∈ dm_index t → ∃ w, w ∈ rows (log b) ∧ row_id w = d_ID d.

(** A message lies in its account's inbox, sealed to the account's key. *)
Definition delivered (b : Board) (t : MailTables) (i : ID) (u : Z) (subject text : bytes) : Prop :=
  ∃ a pub sealed w m d, a ∈ users b ∧ u_ID a = u ∧ dm_public_key t !! u = Some (PublicKey_String pub) ∧ strlen subject ≤ 72 ∧
    (∀ priv, Public priv = Ok pub → Open priv sealed = Ok (payload_wire (mkPayload subject text))) ∧
    List.find (λ w, bool_decide (row_id w = i)) (rows (log b)) = Some w ∧ Type_ (columns w) = TypeDM ∧
    UnmarshalDMBody (Body (columns w)) = Ok m ∧ dm_Sealed m = sealed ∧
    d ∈ dm_index t ∧ d_ID d = i ∧ nocase (d_Recipient d) = nocase (u_Nick a).

Record mail_inv (tr : list mail_event) (s : mail_state) : Prop := mkMailInv {
  mi_accounts : accounts_ok (ms_board s);
  mi_log : own_ok key (log (ms_board s));
  mi_keys : keys_ok (ms_mail s) (ms_pass s);
  mi_index : index_ok (ms_board s) (ms_mail s);
  mi_live : ∀ i u subject text, live tr i u subject text → delivered (ms_board s) (ms_mail s) i u subject text
}.

(** The index only grows, and its rows keep whose they are. *)
Definition index_keeps (t t' : MailTables) : Prop :=
  ∀ d, d ∈ dm_index t → ∃ d', d' ∈ dm_index t' ∧ d_ID d' = d_ID d ∧ d_Recipient d' = d_Recipient d.

Lemma find_app_Some {X} (f : X → bool) l k x : List.find f l = Some x → List.find f (l ++ k) = Some x.
Proof. induction l as [|y l IH]; [done|]. cbn. destruct (f y); auto. Qed.
Lemma find_app_None {X} (f : X → bool) l k : List.find f l = None → List.find f (l ++ k) = List.find f k.
Proof. induction l as [|y l IH]; [done|]. cbn. destruct (f y); [done|auto]. Qed.

Lemma delivered_keeps b b' t t' i u s x :
  keeps b b' → (∃ l, rows (log b') = rows (log b) ++ l) → index_keeps t t' → dm_public_key t' !! u = dm_public_key t !! u →
  delivered b t i u s x → delivered b' t' i u s x.
Proof.
  intros [_ Hk] [l Hr] Hi Hp (a & pub & sealed & w & m & d & Ha & Hu & Hpk & Hs & Ho & Hf & Ht & Hm & Hse & Hd & Hdi & Hdr).
  destruct (Hk a Ha) as (a' & Ha' & Ea & En). destruct (Hi d Hd) as (d' & Hd' & Ei & Er).
  exists a', pub, sealed, w, m, d'. rewrite Hp, Hr, Ei, Er, Ea, En. do 5 (split; [done|]). split; [|done]. by apply find_app_Some.
Qed.

Lemma keeps_refl b : accounts_ok b → keeps b b.
Proof. intros H. split; [done|]. intros u Hu. by exists u. Qed.
Lemma same_users_keeps b b' : accounts_ok b → users b' = users b → keeps b b'.
Proof. intros H E. unfold keeps, accounts_ok. rewrite E. by apply keeps_refl. Qed.
Lemma index_keeps_refl t t' : dm_index t' = dm_index t → index_keeps t t'.
Proof. intros E d Hd. exists d. by rewrite E. Qed.

(** A step that loses or sends nothing it does not say. *)
Lemma mail_next tr ev b t p b' t' p' :
  mail_inv tr (mkMS b t p) → keeps b b' → own_ok key (log b') → (∃ l, rows (log b') = rows (log b) ++ l) → keys_ok t' p' →
  index_keeps t t' → index_ok b' t' →
  (∀ u, Lost u ∉ ev → dm_public_key t' !! u = dm_public_key t !! u ∨ dm_public_key t !! u = None) →
  (∀ i u s x, live ev i u s x → delivered b' t' i u s x) →
  mail_inv (tr ++ ev) (mkMS b' t' p').
Proof.
  intros [I0 I1 I2 I3 I4] Hk Hl Hr Hkeys Hi Hio Hp Hev. cbn in *. constructor; cbn; try done; [by destruct Hk|].
  intros i u s x [[Hlive Hn]|Hlive]%live_app; [|by apply Hev]. specialize (I4 i u s x Hlive).
  eapply delivered_keeps; [done..| |exact I4]. destruct (Hp u Hn) as [E|E]; [done|].
  destruct I4 as (a & pub & sealed & w & m & d & _ & _ & Hpk & _). congruence.
Qed.

Lemma live_nil i u s x : ¬ live [] i u s x.
Proof. intros (t1 & t2 & E & _). by destruct t1. Qed.
Lemma live_lost v i u s x : ¬ live [Lost v] i u s x.
Proof. intros (t1 & t2 & E & _). destruct t1 as [|? [|]]; discriminate. Qed.
Lemma live_sent j v s' x' i u s x : live [Sent j v s' x'] i u s x → Sent i u s x = Sent j v s' x'.
Proof. intros (t1 & t2 & E & _). destruct t1 as [|? [|]]; cbn in E; congruence. Qed.

(** ** Keys *)

Context `{HL : !DmCryptoLaws}.

Lemma account_GetUser nick b : GetUser nick b = match account nick b with Some u => Ok u | None => Err NotFound end.
Proof. unfold GetUser, account. by destruct (List.find _ _). Qed.

Lemma keys_insert t p u priv pub salt pass w :
  keys_ok t p → Public priv = Ok pub → Wrap salt priv pass = Ok w →
  keys_ok (with_keys (<[u := PublicKey_String pub]> (dm_public_key t)) (<[u := Encode w]> (dm_wrapped_key t)) t) (<[u := pass]> p).
Proof.
  intros (H1 & H2 & H3) Hp Hw. split; [|split]; cbn.
  - intros v q. rewrite lookup_insert_Some. intros [[<- <-]|[Hne Hv]].
    + exists priv, pub, w, salt. by rewrite !lookup_insert_eq.
    + rewrite !lookup_insert_ne by done. by apply H1.
  - intros v Hv. destruct (decide (u = v)) as [->|Hne]; [by rewrite lookup_insert_eq|].
    rewrite lookup_insert_ne in Hv |- * by done. by apply H2.
  - intros v s. rewrite lookup_insert_Some. intros [[<- <-]|[_ Hv]]; [by exists pub|by eapply H3].
Qed.

Lemma keys_delete t p u pub' :
  keys_ok t p → (∀ s, pub' = Some s → ∃ pub, s = PublicKey_String pub) →
  keys_ok (with_keys (partial_alter (λ _, pub') u (dm_public_key t)) (delete u (dm_wrapped_key t)) t) (delete u p).
Proof.
  intros (H1 & H2 & H3) Hp. split; [|split]; cbn.
  - intros v q. rewrite lookup_delete_Some. intros [Hne Hv]. rewrite lookup_delete_ne, lookup_partial_alter_ne by done. by apply H1.
  - intros v Hv. destruct (decide (u = v)) as [->|Hne]; [rewrite lookup_delete_eq in Hv; by destruct Hv|].
    rewrite lookup_delete_ne in Hv |- * by done. by apply H2.
  - intros v s. destruct (decide (u = v)) as [->|Hne]; [rewrite lookup_partial_alter_eq; by apply Hp|].
    rewrite lookup_partial_alter_ne by done. by apply H3.
Qed.

Lemma inv_ensure tr rnd salt nick pass b t p : let x := EnsureDMKey rnd salt nick pass b t in
  mail_inv tr (mkMS b t p) →
  mail_inv tr (mkMS b x.2 (if bool_decide (x.1 = None) && negb (is_ok (DMPublicKey nick b t)) then if_account nick b p (λ u, <[u := pass]> p) else p)).
Proof using HL.
  cbv zeta. intros Hi. pose proof Hi as [I0 I1 I2 I3 I4]. cbn in *. unfold EnsureDMKey.
  destruct (DMPublicKey nick b t) as [k|e] eqn:Ek; cbn [fst snd is_ok negb]; [by rewrite andb_false_r|].
  destruct (Generate_Ok rnd) as (pub & -> & Hpub). cbn [mbind result_bind].
  destruct (Wrap salt (clamp rnd) pass) as [w|e'] eqn:Ew; cbn [mbind result_bind fst snd]; [|by rewrite bool_decide_false].
  unfold SetDMKey. unfold DMPublicKey in Ek. rewrite account_GetUser in *. unfold if_account.
  destruct (account nick b) as [u|]; cbn [fst snd]; [|by rewrite bool_decide_false].
  rewrite bool_decide_true by done. cbn [andb].
  assert (Hnone : dm_public_key t !! u_ID u = None).
  { destruct (dm_public_key t !! u_ID u) as [s|] eqn:Es; [|done]. destruct I2 as (_ & _ & H3). destruct (H3 _ _ Es) as [q ->].
    by rewrite ParsePublicKey_String in Ek. }
  rewrite <- (app_nil_r tr). apply (mail_next tr [] b t p); try done; cbn.
  - by apply keeps_refl.
  - exists []. by rewrite app_nil_r.
  - by eapply keys_insert.
  - by apply index_keeps_refl.
  - intros v _. destruct (decide (u_ID u = v)) as [<-|Hne]; [by right|left]. by rewrite lookup_insert_ne.
  - intros i v s x Hl. by apply live_nil in Hl.
Qed.

Lemma update_user_keeps f hash b : accounts_ok b → keeps b (update_user f (set_hash hash) b).
Proof.
  intros [Hi Hn]. unfold update_user. set (g := λ u, if f u then set_hash hash u else u).
  assert (Hg : ∀ u, u_ID (g u) = u_ID u ∧ u_Nick (g u) = u_Nick u) by (intros u; unfold g; by destruct (f u)).
  split; [split|]; cbn [users with_users].
  - rewrite <- list_fmap_compose. erewrite list_fmap_ext; [exact Hi|]. intros i u _. apply Hg.
  - rewrite <- list_fmap_compose. erewrite list_fmap_ext; [exact Hn|]. intros i u _. cbn. by rewrite (proj2 (Hg u)).
  - intros u Hu. exists (g u). split; [by apply list_elem_of_fmap_2|apply Hg].
Qed.

Lemma inv_change tr salt verified nick old hash new b t p : let x := ChangePasswordAndRewrapDMKey salt verified nick old hash new b t in
  mail_inv tr (mkMS b t p) →
  mail_inv tr (mkMS x.1.2 x.2 (if bool_decide (x.1.1 = None) then if_account nick b p (λ u, <[u := new]> p) else p)).
Proof using HL.
  cbv zeta. intros Hi. pose proof Hi as [I0 I1 I2 I3 I4]. cbn in *. unfold ChangePasswordAndRewrapDMKey, WrappedDMKey, if_account.
  rewrite !account_GetUser. destruct (account nick b) as [u|]; cbn [fst snd]; [|by rewrite bool_decide_false].
  destruct verified; cbn [require mbind result_bind fst snd]; [|by rewrite bool_decide_false].
  destruct (dm_wrapped_key t !! u_ID u) as [blob|] eqn:Eb; cbn [mbind result_bind fst snd]; [|by rewrite bool_decide_false].
  destruct I2 as (H1 & H2 & H3). destruct (H2 (u_ID u) ltac:(by rewrite Eb)) as [q Eq]. destruct (H1 _ _ Eq) as (priv & pub & w & salt0 & Hpk & Hpub & Hwk & Hw).
  rewrite Eb in Hwk. injection Hwk as ->. destruct (Wrap_Ok _ _ _ _ Hw) as (_ & Hwok & _). rewrite DecodeWrapped_Encode by done.
  cbn [wrap_err mbind result_bind]. unfold Rewrap.
  destruct (Unwrap w old) as [priv'|e] eqn:Eu; cbn [wrap_err mbind result_bind fst snd]; [|by rewrite bool_decide_false].
  apply (Unwrap_only _ _ _ _ _ _ Hw) in Eu as ->.
  destruct (Wrap salt priv new) as [w'|e] eqn:Ew; cbn [wrap_err mbind result_bind fst snd]; [|by rewrite bool_decide_false].
  destruct hash as [hash|]; cbn [fst snd]; [|by rewrite bool_decide_false]. rewrite bool_decide_true by done.
  rewrite <- (app_nil_r tr). apply (mail_next tr [] b t p); try done; cbn.
  - by apply update_user_keeps.
  - exists []. by rewrite app_nil_r.
  - replace (dm_public_key t) with (<[u_ID u := PublicKey_String pub]> (dm_public_key t)) by (by apply insert_id).
    by eapply (keys_insert t p).
  - by apply index_keeps_refl.
  - intros v _. by left.
  - intros i v s x Hl. by apply live_nil in Hl.
Qed.

Lemma inv_client tr now nick pub replace b t p : let x := SetClientHeldDMKey now nick pub replace b t in
  mail_inv tr (mkMS b t p) →
  mail_inv (tr ++ (if bool_decide (x.1.1 = None) then
      if_account nick b [] (λ u, match dm_public_key t !! u with Some s => if bool_decide (s = PublicKey_String pub) then [] else [Lost u] | None => [] end) else []))
    (mkMS x.1.2 x.2 (if bool_decide (x.1.1 = None) then if_account nick b p (λ u, delete u p) else p)).
Proof.
  cbv zeta. intros Hi. pose proof Hi as [I0 I1 I2 I3 I4]. cbn in *. unfold SetClientHeldDMKey, if_account.
  rewrite !account_GetUser. destruct (account nick b) as [u|]; cbn [fst snd]; [|by rewrite bool_decide_false, app_nil_r].
  destruct (_ && negb replace); cbn [fst snd]; [by rewrite bool_decide_false, app_nil_r|]. rewrite bool_decide_true by done.
  eapply (mail_next tr _ b t p); cbn; try done.
  - by apply same_users_keeps.
  - exists []. by rewrite app_nil_r.
  - apply (keys_delete t p (u_ID u) (Some (PublicKey_String pub))); [done|]. intros s [= <-]. by exists pub.
  - by apply index_keeps_refl.
  - intros v Hv. destruct (decide (u_ID u = v)) as [<-|Hne]; [|left; by rewrite lookup_insert_ne].
    destruct (dm_public_key t !! u_ID u) as [s|]; [left|by right]. case_bool_decide as E; [by rewrite E, lookup_insert_eq|].
    exfalso. apply Hv. left.
  - intros i v s x Hl. exfalso. destruct (dm_public_key t !! u_ID u) as [k|]; [|by apply live_nil in Hl].
    case_bool_decide; [by apply live_nil in Hl|by apply live_lost in Hl].
Qed.

Lemma inv_reset tr now nick hash discard b t p : let x := ResetPasswordAsSysop now nick hash discard b t in
  let given_up := bool_decide (x.1.1 = None) && if_account nick b false (λ u, bool_decide (is_Some (dm_wrapped_key t !! u))) in
  mail_inv tr (mkMS b t p) →
  mail_inv (tr ++ (if given_up then if_account nick b [] (λ u, [Lost u]) else [])) (mkMS x.1.2 x.2 (if given_up then if_account nick b p (λ u, delete u p) else p)).
Proof.
  cbv zeta. intros Hi. pose proof Hi as [I0 I1 I2 I3 I4]. cbn in *. unfold ResetPasswordAsSysop, if_account.
  rewrite !account_GetUser. destruct (account nick b) as [u|]; cbn [fst snd]; [|by rewrite app_nil_r].
  destruct (_ && negb discard); cbn [fst snd]; [by rewrite app_nil_r|].
  destruct hash as [hash|]; cbn [fst snd]; [|by rewrite app_nil_r]. rewrite bool_decide_true by done. cbn [andb].
  set (b' := Audit _ _ _ _ _ _).
  assert (Hk : keeps b b') by (apply (update_user_keeps (λ v, u_ID v =? u_ID u) hash) in I0; exact I0).
  case_bool_decide as Hw.
  - eapply (mail_next tr _ b t p); cbn; try done.
    + exists []. by rewrite app_nil_r.
    + by apply (keys_delete t p (u_ID u) None).
    + by apply index_keeps_refl.
    + intros v Hv. left. rewrite lookup_delete_ne; [done|]. intros <-. apply Hv. left.
    + intros i v s x Hl. by apply live_lost in Hl.
  - eapply (mail_next tr _ b t p); cbn; try done.
    + exists []. by rewrite app_nil_r.
    + by apply index_keeps_refl.
    + intros v _. by left.
    + intros i v s x Hl. by apply live_nil in Hl.
Qed.

Lemma inv_mark tr now i b t p : mail_inv tr (mkMS b t p) → mail_inv tr (mkMS b (MarkDMRead now i t) p).
Proof.
  intros Hi. pose proof Hi as [I0 I1 I2 I3 I4]. cbn in *. rewrite <- (app_nil_r tr).
  assert (Hr : ∀ d, d_ID (read_now now i d) = d_ID d ∧ d_Recipient (read_now now i d) = d_Recipient d) by (intros d; unfold read_now; by destruct (_ && _)).
  apply (mail_next tr [] b t p); cbn; try done.
  - by apply keeps_refl.
  - exists []. by rewrite app_nil_r.
  - intros d Hd. exists (read_now now i d). split; [by apply list_elem_of_fmap_2|apply Hr].
  - intros d (d0 & -> & Hd)%list_elem_of_fmap. destruct (Hr d0) as [-> _]. by apply I3.
  - intros v _. by left.
  - intros j v s x Hl. by apply live_nil in Hl.
Qed.

Lemma inv_password tr nick hash b t p : mail_inv tr (mkMS b t p) → mail_inv tr (mkMS (SetPassword nick hash b).2 t p).
Proof.
  intros Hi. pose proof Hi as [I0 I1 I2 I3 I4]. cbn in *. rewrite <- (app_nil_r tr). apply (mail_next tr [] b t p); cbn; try done.
  - by apply update_user_keeps.
  - exists []. by rewrite app_nil_r.
  - by apply index_keeps_refl.
  - intros v _. by left.
  - intros j v s x Hl. by apply live_nil in Hl.
Qed.

Lemma inv_else tr b b' t p : keeps b b' → own_ok key (log b') → (∃ l, rows (log b') = rows (log b) ++ l) → mail_inv tr (mkMS b t p) → mail_inv tr (mkMS b' t p).
Proof.
  intros Hk Hl Hr Hi. pose proof Hi as [I0 I1 I2 I3 I4]. cbn in *. rewrite <- (app_nil_r tr). apply (mail_next tr [] b t p); cbn; try done.
  - by apply index_keeps_refl.
  - intros d Hd. destruct Hr as [l ->]. destruct (I3 d Hd) as (w & Hw & E). exists w. split; [|done]. apply elem_of_app. by left.
  - intros v _. by left.
  - intros j v s x Hlv. by apply live_nil in Hlv.
Qed.

(** ** Sending *)

Lemma dm_body_Ok rnd sender ref subject text al b t body : dm_body key rnd sender ref subject text al b t = Ok body →
  ∃ nick node pub sealed, ResolveRecipient key ref al = Ok (nick, node) ∧ DMPublicKey nick b t = Ok pub ∧ strlen subject ≤ 72 ∧
    (∀ priv, Public priv = Ok pub → Open priv sealed = Ok (payload_wire (mkPayload subject text))) ∧
    strlen sender ≤ 16 ∧ strlen nick ≤ 16 ∧ body = dm_wire (mkDMBody sender nick sealed).
Proof using HL.
  unfold dm_body. rewrite bind_Ok. intros ([nick node] & Hres & H). rewrite bind_unit_Ok in H. destruct H as [_ H].
  apply bind_Ok in H as (pub & Hpub & H). apply bind_Ok in H as (payload & Hp & H). apply bind_Ok in H as (sealed & Hs & H).
  apply MarshalSealedPayload_Ok in Hp as [Hsub ->]. apply wrap_err_Ok in Hs. apply MarshalDMBody_Ok in H as (H1 & H2 & ->).
  exists nick, node, pub, sealed. split; [done|]. split; [by destruct (DMPublicKey nick b t) as [|[]]|]. split; [done|].
  split; [|done]. intros priv Hpriv. by eapply Open_Seal.
Qed.

Lemma IndexDM_keeps i m node at_ t : index_keeps t (IndexDM i m node at_ t).
Proof. unfold IndexDM. destruct (existsb _ _); [by apply index_keeps_refl|]. intros d Hd. exists d. split; [|done]. cbn. apply elem_of_app. by left. Qed.
Lemma IndexDM_keys i m node at_ t : dm_public_key (IndexDM i m node at_ t) = dm_public_key t ∧ dm_wrapped_key (IndexDM i m node at_ t) = dm_wrapped_key t.
Proof. unfold IndexDM. by destruct (existsb _ _). Qed.
Lemma IndexDM_elem i m node at_ t d : d ∈ dm_index (IndexDM i m node at_ t) → d ∈ dm_index t ∨ d_ID d = i.
Proof. unfold IndexDM. destruct (existsb _ _); [by left|]. cbn. intros [Hd| ->%list_elem_of_singleton]%elem_of_app; [by left|by right]. Qed.

Lemma keys_same t t' p : dm_public_key t' = dm_public_key t ∧ dm_wrapped_key t' = dm_wrapped_key t → keys_ok t p → keys_ok t' p.
Proof. intros [E1 E2]. unfold keys_ok. by rewrite E1, E2. Qed.

Lemma has_record_find i db : HasRecord i db = false → List.find (λ w, bool_decide (row_id w = i)) (rows db) = None.
Proof.
  intros H. unfold HasRecord in H. induction (rows db) as [|w l IH]; [done|]. cbn in *. apply orb_false_iff in H as [-> H]. auto.
Qed.

Lemma inv_send tr now rnd sender ref subject text al b t p : key_named key → driver_limit →
  let x := SendDM key now rnd sender ref subject text al b t in
  mail_inv tr (mkMS b t p) →
  mail_inv (tr ++ (match x.1.1, ResolveRecipient key ref al with
       | Ok i, Ok (nick, _) => if HasRecord i (log b) then [] else if_account nick b [] (λ u, [Sent i u subject text])
       | _, _ => []
       end)) (mkMS x.1.2 x.2 p).
Proof using HL.
  intros Hkn Hd. cbv zeta. intros Hi. pose proof Hi as [I0 I1 I2 I3 I4]. cbn in *. unfold SendDM.
  destruct (dm_body key rnd sender ref subject text al b t) as [body|e] eqn:Eb; cbn [fst snd]; [|by rewrite app_nil_r].
  apply dm_body_Ok in Eb as (nick & node & pub & sealed & Hres & Hpub & Hsub & Hopen & Hs1 & Hs2 & ->). rewrite Hres.
  pose proof (mint_spec key now TypeDM DMArea (dm_wire (mkDMBody sender nick sealed)) b I1 Hkn Hd ltac:(done)) as Hm. cbv zeta in Hm.
  destruct (newRecord key now TypeDM DMArea (dm_wire (mkDMBody sender nick sealed)) b) as [[rec|e] b1]; cbn [fst snd]; cycle 1.
  { destruct Hm as (_ & l & -> & Hol & Hrl & _). rewrite app_nil_r. apply (inv_else tr b); [by apply same_users_keeps|done|exists []; cbn; by rewrite Hrl, app_nil_r|done]. }
  destruct Hm as (_ & _ & _ & Hf & Hwf & l & Hput & Hol & _ & _ & Hrl). rewrite Hput.
  assert (Hbody : Body (fields rec) = dm_wire (mkDMBody sender nick sealed)) by (by rewrite Hf).
  rewrite Hbody, UnmarshalDMBody_wire by done. cbn [fst snd]. set (t' := IndexDM (id rec) (mkDMBody sender nick sealed) (NodeKey_ID key) now t).
  assert (Hkb : keeps b (with_log l b)) by (by apply same_users_keeps).
  assert (Hrows : ∃ k, rows (log (with_log l b)) = rows (log b) ++ k) by (cbn; rewrite Hrl; by eexists).
  destruct (IndexDM_keys (id rec) (mkDMBody sender nick sealed) (NodeKey_ID key) now t) as [Ek1 Ek2]. fold t' in Ek1, Ek2.
  apply (mail_next tr _ b t p); try done; cbn.
  - by apply (keys_same t).
  - apply IndexDM_keeps.
  - intros d [Hdo|Hdi]%IndexDM_elem; cbn [log with_log].
    + destruct (I3 d Hdo) as (w & Hw & E). exists w. split; [|done]. rewrite Hrl. apply elem_of_app. by left.
    + rewrite Hdi, Hrl. destruct (HasRecord (id rec) (log b)) eqn:Eh.
      * apply HasRecord_true in Eh as (w & Hw & E). exists w. split; [|done]. apply elem_of_app. by left.
      * eexists. split; [apply elem_of_app; right; left|done].
  - intros v _. left. by rewrite Ek1.
  - intros i v s x Hl. destruct (HasRecord (id rec) (log b)) eqn:Eh; [by apply live_nil in Hl|].
    unfold if_account in Hl. destruct (account nick b) as [a|] eqn:Ea; [|by apply live_nil in Hl]. apply live_sent in Hl as [= -> -> -> ->].
    unfold DMPublicKey in Hpub. rewrite account_GetUser, Ea in Hpub.
    destruct (dm_public_key t !! u_ID a) as [enc|] eqn:Epk; [|done]. destruct I2 as (_ & _ & H3). destruct (H3 _ _ Epk) as [pub' ->].
    rewrite ParsePublicKey_String in Hpub. injection Hpub as ->.
    assert (Hidx : dm_index t' = dm_index t ++ [mkDMRow (id rec) sender nick (NodeKey_ID key) now 0]).
    { unfold t', IndexDM. destruct (existsb _ _) eqn:Ex; [|done]. exfalso. apply existsb_exists in Ex as (d & Hdin%list_elem_of_In & Hdid%bool_decide_eq_true).
      destruct (I3 d Hdin) as (w & Hw & E). apply not_true_iff_false in Eh. apply Eh, HasRecord_true. exists w. split; [done|congruence]. }
    apply account_Some in Ea as [Ha Hn]; [|done].
    eexists a, pub, sealed, _, (mkDMBody sender nick sealed), _. rewrite Ek1. do 5 (split; [done|]).
    cbn [log with_log]. rewrite Hrl, find_app_None by (by apply has_record_find). cbn. rewrite bool_decide_true by done. split; [done|].
    cbn [columns row_of]. rewrite Hf. cbn [Type_ Body own_fields]. split; [done|]. rewrite UnmarshalDMBody_wire by done. do 2 (split; [done|]).
    split; [rewrite Hidx; apply elem_of_app; right; left|]. cbn. split; [done|]. by rewrite Hn.
Qed.

(** ** Every run *)

Lemma mail_inv_start b : accounts_ok b → own_ok key (log b) → mail_inv [] (mkMS b no_mail ∅).
Proof.
  intros Hb Hl. constructor; cbn; try done.
  - intros d Hd. by apply elem_of_nil in Hd.
  - intros i u s x H. by apply live_nil in H.
Qed.

Lemma mail_inv_step tr s ev s' : key_named key → driver_limit → mail_step s ev s' → mail_inv tr s → mail_inv (tr ++ ev) s'.
Proof using HL.
  intros Hk Hd Hs Hi. destruct Hs.
  - rewrite app_nil_r. by apply inv_ensure.
  - rewrite app_nil_r. by apply inv_change.
  - by apply inv_client.
  - by apply inv_reset.
  - by apply inv_send.
  - rewrite app_nil_r. by apply inv_mark.
  - rewrite app_nil_r. by apply inv_password.
  - rewrite app_nil_r. by eapply inv_else.
Qed.

Lemma mail_inv_run b tr s : key_named key → driver_limit → accounts_ok b → own_ok key (log b) → mail_run (mkMS b no_mail ∅) tr s → mail_inv tr s.
Proof using HL.
  intros Hk Hd Hb Hl Hr. remember (mkMS b no_mail ∅) as s0 eqn:E. induction Hr as [s|s tr s1 ev s2 Hr IH Hs].
  - subst s. by apply mail_inv_start.
  - eapply mail_inv_step; eauto.
Qed.

Lemma length_omap_le {X Y} (f : X → option Y) l : (length (omap f l) ≤ length l)%nat.
Proof. induction l as [|x l IH]; [done|]. cbn. destruct (f x); cbn; lia. Qed.

Lemma Inbox_all nick limit db t d m : Z.of_nat (length (dm_index t)) ≤ limit →
  d ∈ dm_index t → nocase (d_Recipient d) = nocase nick → scanDM db d = Some m → m ∈ Inbox nick limit db t.
Proof.
  intros Hl Hd Hn Hm. unfold Inbox, list_mail.
  assert (Hpos : (0 < length (dm_index t))%nat) by (destruct (dm_index t); [by apply elem_of_nil in Hd|cbn; lia]).
  rewrite (proj2 (Z.leb_gt _ _)) by lia. rewrite take_ge.
  - apply list_elem_of_omap. exists d. split; [|done]. apply sort_by_elem, elem_of_reverse, list_elem_of_filter. done.
  - etrans; [apply length_omap_le|]. rewrite length_sort_by, length_reverse. etrans; [apply length_filter|]. lia.
Qed.

(** C20: private mail is read by who it was sent to, and by passphrase or own key only as
    the account has it. Take any run of the operations that touch keys, passwords and
    mail, and of whatever else the board does, from a board without mail. A message whose
    sending succeeded lies in its recipient's inbox; as long as the recipient's key was
    not given up since, by adopting another key or by a sysop's reset that discards it,
    the passphrase the key is wrapped under now, however often it was changed, opens it
    to the subject and text that were sent; an account whose key its owner keeps is told
    so, and any private key of its public key opens it. No peer is ever sent it. *)
Theorem mail_opens b tr s i u subject text :
  key_named key → driver_limit → accounts_ok b → own_ok key (log b) →
  mail_run (mkMS b no_mail ∅) tr s → live tr i u subject text →
  ∃ a m, a ∈ users (ms_board s) ∧ u_ID a = u ∧ m_ID m = i ∧
    (∀ limit, Z.of_nat (length (dm_index (ms_mail s))) ≤ limit → m ∈ Inbox (u_Nick a) limit (log (ms_board s)) (ms_mail s)) ∧
    (∀ pass, ms_pass s !! u = Some pass → OpenDM (u_Nick a) pass (SealedBytes m) (ms_board s) (ms_mail s) = Ok (mkPayload subject text)) ∧
    (ms_pass s !! u = None →
       (∀ pass, OpenDM (u_Nick a) pass (SealedBytes m) (ms_board s) (ms_mail s) = Err ErrClientHeldKey) ∧
       ∃ pub, DMPublicKey (u_Nick a) (ms_board s) (ms_mail s) = Ok pub ∧
         ∀ priv, Public priv = Ok pub → (plain ← wrap_err BadKey (Open priv (SealedBytes m)); UnmarshalSealedPayload plain) = Ok (mkPayload subject text)) ∧
    ∃ w, w ∈ rows (log (ms_board s)) ∧ row_id w = i ∧ ∀ area, w ∉ GossipStore.replicated area (log (ms_board s)).
Proof using HL.
  intros Hk Hd Hb Hl Hr Hlive. destruct (mail_inv_run b tr s Hk Hd Hb Hl Hr) as [I0 I1 (H1 & H2 & H3) I3 I4].
  destruct (I4 _ _ _ _ Hlive) as (a & pub & sealed & w & m & d & Ha & Hu & Hpk & Hs & Ho & Hf & Ht & Hm & Hse & Hdd & Hdi & Hdr).
  pose proof (account_self _ _ I0 Ha) as Hacc.
  assert (Hscan : ∃ x, scanDM (log (ms_board s)) d = Some x ∧ m_ID x = i ∧ SealedBytes x = sealed).
  { unfold scanDM. rewrite Hdi, Hf. cbn. rewrite Hm. eexists. done. }
  destruct Hscan as (x & Hx & Hxi & Hxs). exists a, x. rewrite Hxs. do 3 (split; [done|]).
  split; [intros limit Hlim; by eapply Inbox_all|].
  pose proof (UnmarshalSealedPayload_wire (mkPayload subject text) Hs) as Hw. unfold OpenDM, DMKeyIsClientHeld, WrappedDMKey, DMPublicKey. rewrite account_GetUser, Hacc, Hu, Hpk.
  split; [|split].
  - intros pass Hp. destruct (H1 _ _ Hp) as (priv & pub' & wk & salt & Hpk' & Hpub & Hwk & Hwrap).
    rewrite Hpk in Hpk'. injection Hpk' as <-%PublicKey_String_inj. rewrite Hwk.
    rewrite bool_decide_true by done. rewrite bool_decide_false by done. cbn [andb negb require mbind result_bind].
    destruct (Wrap_Ok _ _ _ _ Hwrap) as (_ & Hwok & Hun). rewrite DecodeWrapped_Encode by done. cbn [wrap_err mbind result_bind].
    rewrite Hun. cbn [wrap_err mbind result_bind]. rewrite (Ho _ Hpub). cbn [wrap_err mbind result_bind]. exact Hw.
  - intros Hp. assert (Hnone : dm_wrapped_key (ms_mail s) !! u = None).
    { destruct (dm_wrapped_key (ms_mail s) !! u) eqn:E; [|done]. destruct (H2 u ltac:(by rewrite E)) as [q Hq]. congruence. }
    rewrite Hnone. split; [intros pass; by rewrite !bool_decide_true by done|].
    exists pub. rewrite ParsePublicKey_String. split; [done|]. intros priv Hpub. rewrite (Ho _ Hpub). exact Hw.
  - apply List.find_some in Hf as [Hin%list_elem_of_In Hid%bool_decide_eq_true]. exists w. do 2 (split; [done|]).
    intros area (_ & _ & Hrep)%GossipStore.elem_of_replicated. rewrite Ht in Hrep. by vm_compute in Hrep.
Qed.
End mail.
