(* ===== verification/Passkeys.v ===== *)
(** * Passkeys and the codes that enrol them (internal/store/webauthn.go,
      internal/auth/enrolcode.go)

    The tables behind signing in from a browser: the passkeys of each account, the
    handle an authenticator knows an account by, and the one enrolment code an account
    may have. Random bytes are arguments. An authenticator's ID and key are not nil.
    What Unicode makes of letters beyond ASCII in upper case is a parameter. *)

From stdpp Require Import strings relations.
From S2P Require Import Prelude Binary Identity Order Text GoStrings.
From S2P Require Import Records RecordLog.
From S2P Require Import Board.

(** ** Enrolment codes (enrolcode.go) *)

Definition codeBytes : nat := 8.

(** [unicode.ToUpper] beyond ASCII. *)
Class UpperHigh := upper_high : Z → Z.

(** [utf8.AppendRune], a rune that is none being written as the replacement. *)
Definition encode_rune (r : Z) : bytes :=
  let r := if (r <? 0) || (0x10ffff <? r) || ((0xd800 <=? r) && (r <=? 0xdfff)) then 0xfffd else r in
  if r <? 0x80 then [z2b r]
  else if r <? 0x800 then [z2b (Z.lor 0xc0 (Z.shiftr r 6)); z2b (Z.lor 0x80 (Z.land r 0x3f))]
  else if r <? 0x10000 then [z2b (Z.lor 0xe0 (Z.shiftr r 12)); z2b (Z.lor 0x80 (Z.land (Z.shiftr r 6) 0x3f)); z2b (Z.lor 0x80 (Z.land r 0x3f))]
  else [z2b (Z.lor 0xf0 (Z.shiftr r 18)); z2b (Z.lor 0x80 (Z.land (Z.shiftr r 12) 0x3f)); z2b (Z.lor 0x80 (Z.land (Z.shiftr r 6) 0x3f)); z2b (Z.lor 0x80 (Z.land r 0x3f))].

Section codes.
Context `{HB : Blake3, HU : UpperHigh}.

Definition upper_rune (r : Z) : Z := if r <? 0x80 then (if is_lower r then r - 32 else r) else upper_high r.
(** [strings.ToUpper]. *)
Definition ToUpper (s : bytes) : bytes := concat ((λ x : Z * Z * bool, encode_rune (upper_rune x.1.2)) <$> runes s).

Definition is_gap (r : Z) : bool := (r =? 0x2d) || (r =? 0x20).
Definition NormaliseEnrolmentCode (code : bytes) : bytes :=
  ToUpper (concat ((λ x : Z * Z * bool, if is_gap x.1.2 then [] else encode_rune x.1.2) <$> runes code)).

(** [%x]. *)
Definition hex_digit (n : Z) : byte := if n <? 10 then z2b (0x30 + n) else z2b (0x57 + n).
Definition hex (s : bytes) : bytes := concat ((λ c, [hex_digit (Z.shiftr (b2z c) 4); hex_digit (Z.land (b2z c) 0xf)]) <$> s).

Definition HashEnrolmentCode (raw : bytes) : bytes := hex (vec_to_list (blake3_sum256 (NormaliseEnrolmentCode raw))).

Definition GroupEnrolmentCode (raw : bytes) : bytes := Group raw.
Definition NewEnrolmentCode (random : arr 8) : bytes * bytes :=
  let raw := EncodeBase32 (vec_to_list random) in (GroupEnrolmentCode raw, HashEnrolmentCode raw).

Inductive code_error := ErrBadCode | ErrMismatch.
Definition CheckEnrolmentCode (typed hash : bytes) : result code_error unit :=
  let normalised := NormaliseEnrolmentCode typed in
  _ ← require (bool_decide (length normalised = length (EncodeBase32 (replicate codeBytes Byte.x00)))) ErrBadCode;
  _ ← require (is_ok (DecodeBase32 normalised)) ErrBadCode;
  require (bool_decide (HashEnrolmentCode normalised = hash)) ErrMismatch.
End codes.

(** ** The tables (webauthn.go) *)

Record WebAuthnCredential := mkCredential {
  CredentialID : bytes; c_PublicKey : bytes; SignCount : Z; AAGUID : bytes; Transports : list bytes;
  c_Label : bytes; c_AddedAt : Z; c_LastUsedAt : Z
}.

(** A row: the account's number, and the credential with its transports joined. *)
Record Passkey := mkPasskey { pk_ID : Z; pk_User : Z; pk_Cred : WebAuthnCredential; pk_Transports : bytes }.
Record EnrolCode := mkCode { code_hash : bytes; issued_at : Z; expires_at : Z }.

Record WebTables := mkTables {
  passkeys : list Passkey; last_passkey : Z;
  handles : gmap Z bytes;    (* users.webauthn_handle, where it is not empty *)
  codes : gmap Z EnrolCode
}.
Definition no_tables : WebTables := mkTables [] 0 ∅ ∅.

Inductive passkey_error := NoSuch | ErrCredentialExists | ErrCloned | ErrCodeExpired | HandleTaken | Unresolved.

Fixpoint join (sep : byte) (l : list bytes) : bytes :=
  match l with [] => [] | [x] => x | x :: l => x ++ sep :: join sep l end.
Fixpoint split_on (sep : byte) (cur s : bytes) : list bytes :=
  match s with
  | [] => [cur]
  | c :: s => if bool_decide (c = sep) then cur :: split_on sep [] s else split_on sep (cur ++ [c]) s
  end.
Definition comma : byte := Byte.x2c.
Definition splitTransports (s : bytes) : list bytes := match s with [] => [] | _ => split_on comma [] s end.

Definition scanCredential (p : Passkey) : WebAuthnCredential :=
  let c := pk_Cred p in
  mkCredential (CredentialID c) (c_PublicKey c) (SignCount c) (AAGUID c) (splitTransports (pk_Transports p)) (c_Label c) (c_AddedAt c) (c_LastUsedAt c).

Definition with_passkeys (l : list Passkey) (n : Z) (t : WebTables) : WebTables := mkTables l n (handles t) (codes t).
Definition with_handles (m : gmap Z bytes) (t : WebTables) : WebTables := mkTables (passkeys t) (last_passkey t) m (codes t).
Definition with_codes (m : gmap Z EnrolCode) (t : WebTables) : WebTables := mkTables (passkeys t) (last_passkey t) (handles t) m.

Definition has_id (credentialID : bytes) (p : Passkey) : bool := bool_decide (CredentialID (pk_Cred p) = credentialID).

Definition AddWebAuthnCredential (now : Z) (nick : bytes) (c : WebAuthnCredential) (b : Board) (t : WebTables) : option passkey_error * WebTables :=
  match account nick b with
  | None => (Some NoSuch, t)
  | Some u =>
      if existsb (has_id (CredentialID c)) (passkeys t) then (Some ErrCredentialExists, t)
      else
        let row := mkCredential (CredentialID c) (c_PublicKey c) (SignCount c) (AAGUID c) [] (c_Label c) now 0 in
        (None, with_passkeys (passkeys t ++ [mkPasskey (last_passkey t + 1) (u_ID u) row (join comma (Transports c))]) (last_passkey t + 1) t)
  end.

Definition WebAuthnCredentials (nick : bytes) (b : Board) (t : WebTables) : option (list WebAuthnCredential) :=
  u ← account nick b;
  Some (scanCredential <$> sort_by (λ p, (c_AddedAt (pk_Cred p), pk_ID p)) (less_pair Z.ltb Z.ltb) (filter (λ p, pk_User p = u_ID u) (passkeys t))).

Definition WebAuthnCredentialByID (credentialID : bytes) (b : Board) (t : WebTables) : option (WebAuthnCredential * User) :=
  p ← List.find (has_id credentialID) (passkeys t);
  u ← account_by_id (pk_User p) b;
  u ← account (u_Nick u) b;
  Some (scanCredential p, u).

Definition used (now signCount : Z) (p : Passkey) : Passkey :=
  let c := pk_Cred p in
  mkPasskey (pk_ID p) (pk_User p) (mkCredential (CredentialID c) (c_PublicKey c) signCount (AAGUID c) (Transports c) (c_Label c) (c_AddedAt c) now) (pk_Transports p).

Definition UseWebAuthnCredential (now : Z) (credentialID : bytes) (signCount : Z) (t : WebTables) : option passkey_error * WebTables :=
  match List.find (has_id credentialID) (passkeys t) with
  | None => (Some NoSuch, t)
  | Some p =>
      if negb (signCount =? 0) && (signCount <=? SignCount (pk_Cred p)) then (Some ErrCloned, t)
      else (None, with_passkeys ((λ p, if has_id credentialID p then used now signCount p else p) <$> passkeys t) (last_passkey t) t)
  end.

Definition RemoveWebAuthnCredential (nick credentialID : bytes) (b : Board) (t : WebTables) : option passkey_error * WebTables :=
  match account nick b with
  | None => (Some NoSuch, t)
  | Some u =>
      let mine p := (pk_User p =? u_ID u) && has_id credentialID p in
      if existsb mine (passkeys t) then (None, with_passkeys (filter (λ p, mine p = false) (passkeys t)) (last_passkey t) t)
      else (Some NoSuch, t)
  end.

(** A handle another account has violates the index. *)
Definition EnsureWebAuthnHandle (random : bytes) (nick : bytes) (b : Board) (t : WebTables) : result passkey_error bytes * WebTables :=
  match account nick b with
  | None => (Err NoSuch, t)
  | Some u =>
      match handles t !! u_ID u with
      | Some h => (Ok h, t)
      | None =>
          if existsb (λ x : Z * bytes, bool_decide (x.2 = random)) (map_to_list (handles t)) then (Err HandleTaken, t)
          else (Ok random, with_handles (<[u_ID u := random]> (handles t)) t)
      end
  end.

Definition UserByWebAuthnHandle (handle : bytes) (b : Board) (t : WebTables) : option User :=
  if bool_decide (handle = []) then None
  else
    x ← List.find (λ x : Z * bytes, bool_decide (x.2 = handle)) (map_to_list (handles t));
    u ← account_by_id x.1 b;
    account (u_Nick u) b.

Definition PutEnrolmentCode (now : Z) (nick hash : bytes) (expiresAt : Z) (b : Board) (t : WebTables) : option passkey_error * WebTables :=
  match account nick b with
  | None => (Some NoSuch, t)
  | Some u => (None, with_codes (<[u_ID u := mkCode hash now expiresAt]> (codes t)) t)
  end.

(** Of two accounts with one hash, the index gives the one with the smaller number. *)
Definition code_for (hash : bytes) (t : WebTables) : option (Z * EnrolCode) :=
  List.find (λ x : Z * EnrolCode, bool_decide (code_hash x.2 = hash)) (sort_by fst Z.ltb (map_to_list (codes t))).

(** The row goes whether or not it had expired. *)
Definition RedeemEnrolmentCode (now : Z) (hash : bytes) (b : Board) (t : WebTables) : result passkey_error User * WebTables :=
  match code_for hash t with
  | None => (Err NoSuch, t)
  | Some (i, c) =>
      match account_by_id i b with
      | None => (Err Unresolved, t)
      | Some u =>
          let t := with_codes (delete i (codes t)) t in
          if expires_at c <=? now then (Err ErrCodeExpired, t)
          else match account (u_Nick u) b with Some u => (Ok u, t) | None => (Err NoSuch, t) end
      end
  end.
