(* ===== verification/WebLogin.v ===== *)
(** * Signing in from a browser (internal/webd: session.go, limiter.go, user.go, auth.go)

    The sessions and half-finished exchanges the server holds in memory, its rate
    limits, and the handlers. Times are nanoseconds, of which the store keeps the
    seconds; tokens and other randomness are arguments, and so is the key a client is
    limited by, which is made of its address. The WebAuthn library is the interface
    [WebAuthn]. Map iteration order does not matter to a sweep. *)

From stdpp Require Import strings relations.
From S2P Require Import Prelude Binary Identity Order Text GoStrings Float64.
From S2P Require Import Records RecordLog Board Passkeys.

Definition Nanos : Z := 1000000000.

(** ** Sessions (session.go) *)

Record Session := mkSession { s_Nick : bytes; s_Unlocked : bool; s_CreatedAt : Z; s_LastSeen : Z }.
Record session_limits := mkLimits { idle : Z; unlockedIdle : Z; ttl : Z; max_sessions : Z; maxPerUser : Z }.
Abbreviation sessions_t := (gmap bytes Session).

Definition expiredLocked (o : session_limits) (now : Z) (s : Session) : bool :=
  if (0 <? ttl o) && (ttl o <=? now - s_CreatedAt s) then true
  else
    let i := if s_Unlocked s && (0 <? unlockedIdle o) && (unlockedIdle o <? idle o) then unlockedIdle o else idle o in
    (0 <? i) && (i <=? now - s_LastSeen s).

Definition sweepLocked (o : session_limits) (now : Z) (m : sessions_t) : sessions_t :=
  filter (λ x : bytes * Session, expiredLocked o now x.2 = false) m.

(** None is [ErrTooManySessions]. *)
Definition session_Create (o : session_limits) (now : Z) (token nick : bytes) (m : sessions_t) : option bytes * sessions_t :=
  let m := sweepLocked o now m in
  let n := Z.of_nat (size (filter (λ x : bytes * Session, s_Nick x.2 = nick) m)) in
  if (0 <? max_sessions o) && (max_sessions o <=? Z.of_nat (size m)) then (None, m)
  else if (0 <? maxPerUser o) && (maxPerUser o <=? n) then (None, m)
  else (Some token, <[token := mkSession nick false now now]> m).

Definition session_Get (o : session_limits) (now : Z) (id : bytes) (m : sessions_t) : option Session * sessions_t :=
  let m := sweepLocked o now m in
  match m !! id with
  | None => (None, m)
  | Some s => let s := mkSession (s_Nick s) (s_Unlocked s) (s_CreatedAt s) now in (Some s, <[id := s]> m)
  end.

Definition SetUnlocked (id : bytes) (unlocked : bool) (m : sessions_t) : sessions_t :=
  alter (λ s, mkSession (s_Nick s) unlocked (s_CreatedAt s) (s_LastSeen s)) id m.
Definition session_Delete (id : bytes) (m : sessions_t) : sessions_t := delete id m.
Definition session_Count (o : session_limits) (now : Z) (m : sessions_t) : Z * sessions_t :=
  let m := sweepLocked o now m in (Z.of_nat (size m), m).

(** ** Ceremonies *)

Definition ceremonyTTL : Z := 5 * 60 * Nanos.
Record ceremony (D : Type) := mkCeremony { ce_Nick : bytes; ce_Data : D; ce_Expires : Z }.
Arguments mkCeremony {D} _ _ _.
Arguments ce_Nick {D} _.
Arguments ce_Data {D} _.
Arguments ce_Expires {D} _.

Definition sweep_ceremonies {D} (now : Z) (m : gmap bytes (ceremony D)) : gmap bytes (ceremony D) :=
  filter (λ x : bytes * ceremony D, now < ce_Expires x.2) m.
Definition ceremony_Put {D} (now : Z) (token nick : bytes) (data : D) (m : gmap bytes (ceremony D)) : gmap bytes (ceremony D) :=
  <[token := mkCeremony nick data (now + ceremonyTTL)]> (sweep_ceremonies now m).
Definition ceremony_Take {D} (now : Z) (id : bytes) (m : gmap bytes (ceremony D)) : option (ceremony D) * gmap bytes (ceremony D) :=
  let m := sweep_ceremonies now m in (m !! id, delete id m).

(** ** Rate limits (limiter.go) *)

Record bucket := mkBucket { tokens : float64; last : Z }.
Record limiter := mkLimiter { buckets : gmap bytes bucket; capacity : float64; refill : float64 }.

Definition newLimiter (perHour : Z) : limiter :=
  let perHour := if perHour <? 1 then 1 else perHour in
  mkLimiter ∅ (of_int perHour) (fdiv (of_int perHour) (of_int 3600)).

(** [Duration.Seconds]. *)
Definition seconds (d : Z) : float64 := fadd (of_int (Z.quot d Nanos)) (fdiv (of_int (Z.rem d Nanos)) (of_int Nanos)).
Definition whole_seconds (x : float64) : Z := i64 (to_int64 x * Nanos).
Definition f1 : float64 := of_int 1.

Definition sweep_buckets (now : Z) (l : limiter) : limiter :=
  if Z.of_nat (size (buckets l)) <? 1024 then l
  else mkLimiter (filter (λ x : bytes * bucket, now - last x.2 < whole_seconds (fdiv (capacity l) (refill l))) (buckets l)) (capacity l) (refill l).

Definition refilled (now : Z) (l : limiter) (b : bucket) : bucket :=
  let elapsed := seconds (now - last b) in
  if flt f0 elapsed then
    let more := fadd (tokens b) (fmul elapsed (refill l)) in
    mkBucket (if flt more (capacity l) then more else capacity l) now
  else b.

(** None if a token was spent, else how long to wait. *)
Definition allow (now : Z) (key : bytes) (l : limiter) : option Z * limiter :=
  let l := match buckets l !! key with
           | Some _ => l
           | None => let l := sweep_buckets now l in mkLimiter (<[key := mkBucket (capacity l) now]> (buckets l)) (capacity l) (refill l)
           end in
  let b := refilled now l (default (mkBucket (capacity l) now) (buckets l !! key)) in
  let put b := mkLimiter (<[key := b]> (buckets l)) (capacity l) (refill l) in
  if flt (tokens b) f1 then (Some (whole_seconds (fdiv (fsub f1 (tokens b)) (refill l))), put b)
  else (None, put (mkBucket (fsub (tokens b) f1) (last b))).

(** [rateLimited]: the client's limit, and then the instance's. *)
Definition rateLimited (now : Z) (client : bytes) (per global : limiter) : option Z * limiter * limiter :=
  let '(w, per) := allow now client per in
  match w with
  | Some w => (Some w, per, global)
  | None => let '(w, global) := allow now [] global in (w, per, global)
  end.

(** ** The library, and what it sees of an account (user.go) *)

Record lib_credential := mkLib { lc_ID : bytes; lc_PublicKey : bytes; lc_SignCount : Z; lc_AAGUID : bytes; lc_Transport : list bytes }.
Record webUser := mkWebUser { wu_user : User; wu_handle : bytes; wu_creds : list lib_credential }.

(** go-webauthn: what it makes of a request's body, and the session data it starts
    with. A login names a credential and a handle, is handed the account, and either
    gives the credential that signed or does not. *)
Class WebAuthn (D B A : Type) := {
  begin_login : bytes → option D;
  begin_registration : webUser → bytes → option D;
  parse_assertion : B → option A;
  names : A → bytes * bytes;
  validate_login : webUser → D → A → option lib_credential;
  finish_registration : webUser → D → B → option lib_credential
}.

Definition toWebAuthnCredential (c : WebAuthnCredential) : lib_credential := mkLib (CredentialID c) (c_PublicKey c) (SignCount c) (AAGUID c) [].

Definition WebAuthnDisplayName (u : webUser) : bytes := match u_DisplayName (wu_user u) with [] => u_Nick (wu_user u) | n => n end.

Definition loadWebUser (random nick : bytes) (b : Board) (t : WebTables) : result passkey_error webUser * WebTables :=
  match account nick b with
  | None => (Err NoSuch, t)
  | Some u =>
      match EnsureWebAuthnHandle random nick b t with
      | (Err e, t) => (Err e, t)
      | (Ok h, t) => (Ok (mkWebUser u h (toWebAuthnCredential <$> default [] (WebAuthnCredentials nick b t))), t)
      end
  end.

(** ** The server (auth.go) *)

Record WebServer (D : Type) := mkServer {
  w_board : Board; w_tables : WebTables; w_sessions : sessions_t; w_ceremonies : gmap bytes (ceremony D);
  enrolLimit : limiter; enrolGlobal : limiter; authLimit : limiter; authGlobal : limiter
}.
Arguments mkServer {D} _ _ _ _ _ _ _ _.
Arguments w_board {D} _.
Arguments w_tables {D} _.
Arguments w_sessions {D} _.
Arguments w_ceremonies {D} _.
Arguments enrolLimit {D} _.
Arguments enrolGlobal {D} _.
Arguments authLimit {D} _.
Arguments authGlobal {D} _.

(** What a handler answers: the status it refuses with, or what it did. *)
Inductive reply :=
| Refused (status : Z)
| Began (cookie : bytes)                (* a ceremony *)
| SignedIn (nick cookie : bytes)
| EnrolmentBegan (nick cookie : bytes)
| EnrolledPasskey (nick : bytes)
| SignedOut
| Me (nick : bytes) (unlocked : bool).

(** A request: the client's key for the limits, and its two cookies. *)
Record request (B : Type) := mkRequest { r_client : bytes; r_session : option bytes; r_ceremony : option bytes; r_body : B }.
Arguments mkRequest {B} _ _ _ _.
Arguments r_client {B} _.
Arguments r_session {B} _.
Arguments r_ceremony {B} _.
Arguments r_body {B} _.

Section handlers.
Context {D B A : Type} `{HB : Blake3, HU : UpperHigh, HW : !WebAuthn D B A} (o : session_limits).

Definition with_tables (t : WebTables) (w : WebServer D) : WebServer D :=
  mkServer (w_board w) t (w_sessions w) (w_ceremonies w) (enrolLimit w) (enrolGlobal w) (authLimit w) (authGlobal w).
Definition with_sessions (m : sessions_t) (w : WebServer D) : WebServer D :=
  mkServer (w_board w) (w_tables w) m (w_ceremonies w) (enrolLimit w) (enrolGlobal w) (authLimit w) (authGlobal w).
Definition with_ceremonies (m : gmap bytes (ceremony D)) (w : WebServer D) : WebServer D :=
  mkServer (w_board w) (w_tables w) (w_sessions w) m (enrolLimit w) (enrolGlobal w) (authLimit w) (authGlobal w).
Definition with_web_board (b : Board) (w : WebServer D) : WebServer D :=
  mkServer b (w_tables w) (w_sessions w) (w_ceremonies w) (enrolLimit w) (enrolGlobal w) (authLimit w) (authGlobal w).

Definition auth_limited (now : Z) (r : request B) (w : WebServer D) : bool * WebServer D :=
  let '(x, per, global) := rateLimited now (r_client r) (authLimit w) (authGlobal w) in
  (bool_decide (is_Some x), mkServer (w_board w) (w_tables w) (w_sessions w) (w_ceremonies w) (enrolLimit w) (enrolGlobal w) per global).
Definition enrol_limited (now : Z) (r : request B) (w : WebServer D) : bool * WebServer D :=
  let '(x, per, global) := rateLimited now (r_client r) (enrolLimit w) (enrolGlobal w) in
  (bool_decide (is_Some x), mkServer (w_board w) (w_tables w) (w_sessions w) (w_ceremonies w) per global (authLimit w) (authGlobal w)).

Definition takeCeremony (now : Z) (r : request B) (w : WebServer D) : option (ceremony D) * WebServer D :=
  match r_ceremony r with
  | None | Some [] => (None, w)
  | Some c => let '(x, m) := ceremony_Take now c (w_ceremonies w) in (x, with_ceremonies m w)
  end.

Definition may_sign_in (u : User) : bool := u_CanLogin u && bool_decide (u_State u = str "active"%string).

Definition handleLoginBegin (now : Z) (token random : bytes) (r : request B) (w : WebServer D) : reply * WebServer D :=
  let '(limited, w) := auth_limited now r w in
  if limited then (Refused 429, w)
  else match begin_login random with
  | None => (Refused 500, w)
  | Some data => (Began token, with_ceremonies (ceremony_Put now token [] data (w_ceremonies w)) w)
  end.

(** The account an assertion's handle is of, as the library is given it. *)
Definition resolve (handle : bytes) (w : WebServer D) : option (User * webUser) :=
  u ← UserByWebAuthnHandle handle (w_board w) (w_tables w);
  match (loadWebUser [] (u_Nick u) (w_board w) (w_tables w)).1 with
  | Ok wu => Some (u, wu)
  | Err _ => None
  end.

(** [ValidatePasskeyLogin]: the account resolved and the credential that signed. *)
Definition validated (data : D) (a : A) (w : WebServer D) : option (User * lib_credential) :=
  '(u, wu) ← resolve (names a).2 w;
  c ← validate_login wu data a;
  Some (u, c).

Definition RecordLogin (now : Z) (nick : bytes) (b : Board) : Board :=
  with_users ((λ u, if is_nick nick u then mkUser (u_ID u) (u_Nick u) (u_DisplayName u) (u_PasswordHash u) (u_DirectoryListed u) (u_IsSysop u) (u_CanLogin u) (u_State u) (u_CreatedAt u) now
                    else u) <$> users b) (last_user b) (capabilities b) b.

Definition handleLoginFinish (now : Z) (token : bytes) (r : request B) (w : WebServer D) : reply * WebServer D :=
  let '(limited, w) := auth_limited now r w in
  if limited then (Refused 429, w)
  else
    let '(cer, w) := takeCeremony now r w in
    match cer with
    | None => (Refused 400, w)
    | Some cer =>
        match parse_assertion (r_body r) with
        | None => (Refused 400, w)
        | Some a =>
            match validated (ce_Data cer) a w with
            | None => (Refused 401, w)
            | Some (u, c) =>
                if negb (may_sign_in u) then (Refused 403, w)
                else match UseWebAuthnCredential (now / Nanos) (lc_ID c) (lc_SignCount c) (w_tables w) with
                | (Some ErrCloned, t) => (Refused 401, with_tables t w)
                | (Some _, t) => (Refused 500, with_tables t w)
                | (None, t) =>
                    let w := with_tables t w in
                    match session_Create o now token (u_Nick u) (w_sessions w) with
                    | (None, m) => (Refused 503, with_sessions m w)
                    | (Some id, m) => (SignedIn (u_Nick u) id, with_web_board (RecordLogin (now / Nanos) (u_Nick u) (w_board w)) (with_sessions m w))
                    end
                end
            end
        end
    end.

(** The code typed, if the body could be read. *)
Definition handleEnrolBegin (now : Z) (token random : bytes) (typed : option bytes) (r : request B) (w : WebServer D) : reply * WebServer D :=
  let '(limited, w) := enrol_limited now r w in
  if limited then (Refused 429, w)
  else match typed with
  | None => (Refused 400, w)
  | Some typed =>
      let code := NormaliseEnrolmentCode typed in
      if bool_decide (code = []) then (Refused 400, w)
      else match RedeemEnrolmentCode (now / Nanos) (HashEnrolmentCode code) (w_board w) (w_tables w) with
      | (Err ErrCodeExpired, t) | (Err NoSuch, t) => (Refused 400, with_tables t w)
      | (Err _, t) => (Refused 500, with_tables t w)
      | (Ok u, t) =>
          let w := with_tables t w in
          if negb (may_sign_in u) then (Refused 403, w)
          else match loadWebUser random (u_Nick u) (w_board w) (w_tables w) with
          | (Err _, t) => (Refused 500, with_tables t w)
          | (Ok wu, t) =>
              let w := with_tables t w in
              match begin_registration wu random with
              | None => (Refused 500, w)
              | Some data => (EnrolmentBegan (u_Nick u) token, with_ceremonies (ceremony_Put now token (u_Nick u) data (w_ceremonies w)) w)
              end
          end
      end
  end.

Definition handleEnrolFinish (now : Z) (random : bytes) (r : request B) (w : WebServer D) : reply * WebServer D :=
  let '(limited, w) := enrol_limited now r w in
  if limited then (Refused 429, w)
  else
    let '(cer, w) := takeCeremony now r w in
    match cer with
    | None => (Refused 400, w)
    | Some cer =>
        if bool_decide (ce_Nick cer = []) then (Refused 400, w)
        else match loadWebUser random (ce_Nick cer) (w_board w) (w_tables w) with
        | (Err _, t) => (Refused 500, with_tables t w)
        | (Ok wu, t) =>
            let w := with_tables t w in
            match finish_registration wu (ce_Data cer) (r_body r) with
            | None => (Refused 400, w)
            | Some c =>
                let cred := mkCredential (lc_ID c) (lc_PublicKey c) (lc_SignCount c) (lc_AAGUID c) (lc_Transport c) [] 0 0 in
                match AddWebAuthnCredential (now / Nanos) (ce_Nick cer) cred (w_board w) (w_tables w) with
                | (Some ErrCredentialExists, t) => (Refused 409, with_tables t w)
                | (Some _, t) => (Refused 500, with_tables t w)
                | (None, t) => (EnrolledPasskey (ce_Nick cer), with_tables t w)
                end
            end
        end
    end.

Definition handleLogout (r : request B) (w : WebServer D) : reply * WebServer D :=
  (SignedOut, match r_session r with None | Some [] => w | Some c => with_sessions (session_Delete c (w_sessions w)) w end).

Definition currentSession (now : Z) (r : request B) (w : WebServer D) : option Session * WebServer D :=
  match r_session r with
  | None | Some [] => (None, w)
  | Some c => let '(s, m) := session_Get o now c (w_sessions w) in (s, with_sessions m w)
  end.

Definition handleMe (now : Z) (r : request B) (w : WebServer D) : reply * WebServer D :=
  let '(s, w) := currentSession now r w in
  match s with Some s => (Me (s_Nick s) (s_Unlocked s), w) | None => (Refused 401, w) end.
End handlers.
