(* ===== verification/WebLoginFacts.v ===== *)
(** * Who gets signed in from a browser (internal/webd, internal/store/webauthn.go)

    Runs of the server as sequences of requests and of what the rest of the board does
    meanwhile, with the events that matter; and what holds of every run. *)

From stdpp Require Import strings relations.
From S2P Require Import Prelude Binary Identity Order Text GoStrings Float64.
From S2P Require Import Records RecordLog Board Passkeys WebLogin.

Lemma RecordLogin_keeps now nick b : accounts_ok b → keeps b (RecordLogin now nick b).
Proof.
  intros [Hi Hn]. unfold RecordLogin. set (g := λ u, if is_nick nick u then _ else u).
  assert (Hg : ∀ u, u_ID (g u) = u_ID u ∧ u_Nick (g u) = u_Nick u) by (intros u; unfold g; by destruct (is_nick nick u)).
  split; [split|]; cbn [users with_users].
  - rewrite <- list_fmap_compose. erewrite list_fmap_ext; [exact Hi|]. intros i u _. apply Hg.
  - rewrite <- list_fmap_compose. erewrite list_fmap_ext; [exact Hn|]. intros i u _. cbn. by rewrite (proj2 (Hg u)).
  - intros u Hu. exists (g u). split; [by apply list_elem_of_fmap_2|apply Hg].
Qed.

(** ** Events and runs *)

Inductive web_event := Issued (nick : bytes) | Redeemed (nick : bytes) | Enrolled (nick : bytes) | In (nick token : bytes).
#[export] Instance web_event_eq_dec : EqDecision web_event.
Proof. solve_decision. Defined.

Definition events_of (r : reply) : list web_event :=
  match r with
  | SignedIn n c => [In n c]
  | EnrolmentBegan n _ => [Redeemed n]
  | EnrolledPasskey n => [Enrolled n]
  | _ => []
  end.

Definition times (e : web_event) (tr : list web_event) : nat := length (filter (λ x, x = e) tr).
Arguments times : simpl never.
Lemma times_app e t1 t2 : times e (t1 ++ t2) = (times e t1 + times e t2)%nat.
Proof. unfold times. by rewrite filter_app, length_app. Qed.
Lemma times_pos e tr : (0 < times e tr)%nat ↔ e ∈ tr.
Proof.
  unfold times. split.
  - intros H. destruct (filter (λ x, x = e) tr) as [|x l] eqn:E; [cbn in H; lia|]. assert (Hx : x ∈ filter (λ x, x = e) tr) by (rewrite E; left).
    apply list_elem_of_filter in Hx as [-> Hx]. done.
  - intros He. assert (Hx : e ∈ filter (λ x, x = e) tr) by (by apply list_elem_of_filter). destruct (filter _ tr); [by apply elem_of_nil in Hx|cbn; lia].
Qed.
Lemma times_one e x : times e [x] = if decide (x = e) then 1%nat else 0%nat.
Proof. unfold times. rewrite filter_cons. by case_decide. Qed.

Section runs.
Context {D B A : Type} `{HB : Blake3, HU : UpperHigh, HW : !WebAuthn D B A} (o : session_limits).

Inductive web_step : WebServer D → list web_event → WebServer D → Prop :=
| web_issue now nick hash exp w : web_step w (match account nick (w_board w) with Some u => [Issued (u_Nick u)] | None => [] end)
    (with_tables (PutEnrolmentCode now nick hash exp (w_board w) (w_tables w)).2 w)
| web_login_begin now tok rnd r w : let x := handleLoginBegin now tok rnd r w in web_step w (events_of x.1) x.2
| web_login_finish now tok r w : let x := handleLoginFinish o now tok r w in web_step w (events_of x.1) x.2
| web_enrol_begin now tok rnd typed r w : let x := handleEnrolBegin now tok rnd typed r w in web_step w (events_of x.1) x.2
| web_enrol_finish now rnd r w : let x := handleEnrolFinish now rnd r w in web_step w (events_of x.1) x.2
| web_logout (r : request B) w : let x := handleLogout r w in web_step w (events_of x.1) x.2
| web_me now (r : request B) w : let x := handleMe o now r w in web_step w (events_of x.1) x.2
| web_unlock id b w : web_step w [] (with_sessions (SetUnlocked id b (w_sessions w)) w)
| web_revoke nick id w : web_step w [] (with_tables (RemoveWebAuthnCredential nick id (w_board w) (w_tables w)).2 w)
| web_board b w : keeps (w_board w) b → web_step w [] (with_web_board b w).

Inductive web_run : WebServer D → list web_event → WebServer D → Prop :=
| run_nil w : web_run w [] w
| run_snoc w tr w1 ev w2 : web_run w tr w1 → web_step w1 ev w2 → web_run w (tr ++ ev) w2.

(** A server that has just started, on a board nobody has a passkey on. *)
Definition starting (b : Board) (l1 l2 l3 l4 : limiter) : WebServer D := mkServer b no_tables ∅ ∅ l1 l2 l3 l4.

(** ** The parts of the invariant *)

Definition held_code (t : WebTables) (u : User) : nat := if codes t !! u_ID u then 1%nat else 0%nat.
Definition waiting_for (n : bytes) (m : gmap bytes (ceremony D)) : nat := size (filter (λ x : bytes * ceremony D, ce_Nick x.2 = n) m).
Definition owned (t : WebTables) (u : User) : nat := length (filter (λ p, pk_User p = u_ID u) (passkeys t)).

Definition of_account (b : Board) (n : bytes) : Prop := ∃ u, u ∈ users b ∧ u_Nick u = n.
Definition event_nick (e : web_event) : bytes := match e with Issued n | Redeemed n | Enrolled n | In n _ => n end.

Record inv (tr : list web_event) (w : WebServer D) : Prop := mkInv {
  inv_accounts : accounts_ok (w_board w);
  inv_nicks : ∀ e, e ∈ tr → of_account (w_board w) (event_nick e);
  inv_codes : ∀ i c, codes (w_tables w) !! i = Some c → ∃ u, u ∈ users (w_board w) ∧ u_ID u = i;
  inv_redeemed : ∀ u, u ∈ users (w_board w) → (held_code (w_tables w) u + times (Redeemed (u_Nick u)) tr ≤ times (Issued (u_Nick u)) tr)%nat;
  inv_waiting : ∀ n, n ≠ [] → (waiting_for n (w_ceremonies w) + times (Enrolled n) tr ≤ times (Redeemed n) tr)%nat;
  inv_ceremonies : ∀ k c, w_ceremonies w !! k = Some c → ce_Nick c ≠ [] → of_account (w_board w) (ce_Nick c);
  inv_owners : ∀ p, p ∈ passkeys (w_tables w) → ∃ u, u ∈ users (w_board w) ∧ u_ID u = pk_User p;
  inv_passkeys : ∀ u, u ∈ users (w_board w) → (owned (w_tables w) u ≤ times (Enrolled (u_Nick u)) tr)%nat;
  inv_ids : NoDup (CredentialID ∘ pk_Cred <$> passkeys (w_tables w));
  inv_sessions : ∀ tok s, w_sessions w !! tok = Some s → In (s_Nick s) tok ∈ tr;
  inv_before : ∀ t1 n tok t2, tr = t1 ++ In n tok :: t2 → Enrolled n ∈ t1
}.

Lemma keeps_old b b' u' : accounts_ok b → keeps b b' → u' ∈ users b' →
  (∃ u, u ∈ users b ∧ u_ID u = u_ID u' ∧ u_Nick u = u_Nick u') ∨ (∀ u, u ∈ users b → u_ID u ≠ u_ID u' ∧ u_Nick u ≠ u_Nick u').
Proof.
  intros Hb [Hb' Hk] Hu'. destruct (Exists_dec (λ u, u_ID u = u_ID u' ∧ u_Nick u = u_Nick u') (users b)) as [H|H].
  - left. apply Exists_exists in H as (u & Hu & E). by exists u.
  - right. intros u Hu. destruct (Hk u Hu) as (x & Hx & Ei & En).
    split; intros E; apply H, Exists_exists; exists u; (split; [done|]).
    + assert (x = u') as -> by (eapply same_id; [exact Hb'|done|done|congruence]). done.
    + assert (x = u') as -> by (eapply same_nick; [exact Hb'|done|done|congruence]). done.
Qed.

Lemma of_account_keeps b b' n : keeps b b' → of_account b n → of_account b' n.
Proof. intros [_ Hk] (u & Hu & <-). destruct (Hk u Hu) as (u' & Hu' & _ & E). by exists u'. Qed.

Lemma times_none e tr : e ∉ tr → times e tr = 0%nat.
Proof. intros H. destruct (times e tr) eqn:E; [done|]. exfalso. apply H, times_pos. lia. Qed.

Lemma owned_none t u b : (∀ p, p ∈ passkeys t → ∃ x, x ∈ users b ∧ u_ID x = pk_User p) → (∀ x, x ∈ users b → u_ID x ≠ u_ID u) → owned t u = 0%nat.
Proof.
  intros Ho Hn. unfold owned. destruct (filter _ (passkeys t)) as [|p l] eqn:E; [done|]. exfalso.
  assert (Hp : p ∈ filter (λ p, pk_User p = u_ID u) (passkeys t)) by (rewrite E; left). apply list_elem_of_filter in Hp as [Hpu Hp].
  destruct (Ho p Hp) as (x & Hx & Ex). apply (Hn x Hx). congruence.
Qed.

Lemma inv_board tr w b : keeps (w_board w) b → inv tr w → inv tr (with_web_board b w).
Proof.
  intros Hk [I0 I1 I2 I3 I4 I5 I6 I7 I8 I9 I10]. pose proof Hk as [Hb Hold]. constructor; cbn; try done.
  - intros e He. by eapply of_account_keeps; [|apply I1].
  - intros i c Hc. destruct (I2 i c Hc) as (u & Hu & <-). destruct (Hold u Hu) as (u' & Hu' & E & _). by exists u'.
  - intros u' Hu'. destruct (keeps_old _ _ u' I0 Hk Hu') as [(u & Hu & Ei & En)|Hnew].
    + unfold held_code. rewrite <- Ei, <- En. exact (I3 u Hu).
    + rewrite times_none; [|intros H; destruct (I1 _ H) as (u & Hu & E); by destruct (Hnew u Hu)]. unfold held_code.
      destruct (codes (w_tables w) !! u_ID u') as [c|] eqn:Hc; [|lia]. destruct (I2 _ _ Hc) as (u & Hu & E). by destruct (Hnew u Hu).
  - intros k c Hc Hne. by eapply of_account_keeps; [|by eapply I5].
  - intros p Hp. destruct (I6 p Hp) as (u & Hu & <-). destruct (Hold u Hu) as (u' & Hu' & E & _). by exists u'.
  - intros u' Hu'. destruct (keeps_old _ _ u' I0 Hk Hu') as [(u & Hu & Ei & En)|Hnew].
    + unfold owned. rewrite <- Ei, <- En. exact (I7 u Hu).
    + rewrite (owned_none _ _ (w_board w)); [lia|done|]. intros x Hx. by apply Hnew.
Qed.

(** ** One step of the invariant *)

Lemma snoc_split {X} (tr ev t1 t2 : list X) e :
  (∀ x, x ∈ ev → x = e → ev = [e]) → tr ++ ev = t1 ++ e :: t2 → (∃ t2', tr = t1 ++ e :: t2') ∨ (t1 = tr ∧ ev = [e]).
Proof.
  intros Hev E. apply app_eq_inv in E as [(k & -> & E)|(k & -> & E)].
  - destruct k as [|x k]; cbn in E.
    + right. assert (Hone : ev = [e]) by (apply (Hev e); [rewrite <- E; left|done]). by rewrite app_nil_r.
    + injection E as -> ->. left. by exists k.
  - right. assert (Hone : ev = [e]) by (apply (Hev e); [rewrite E; apply elem_of_app; right; left|done]).
    destruct k as [|x k]; [by rewrite app_nil_r|]. rewrite Hone in E. injection E as _ E. by destruct k.
Qed.

Lemma inv_next tr ev w w' :
  inv tr w → w_board w' = w_board w →
  (∀ e, e ∈ ev → of_account (w_board w) (event_nick e)) →
  (∀ i c, codes (w_tables w') !! i = Some c → ∃ u, u ∈ users (w_board w) ∧ u_ID u = i) →
  (∀ u, u ∈ users (w_board w) → (held_code (w_tables w') u + times (Redeemed (u_Nick u)) ev ≤ held_code (w_tables w) u + times (Issued (u_Nick u)) ev)%nat) →
  (∀ n, n ≠ [] → (waiting_for n (w_ceremonies w') + times (Enrolled n) ev ≤ waiting_for n (w_ceremonies w) + times (Redeemed n) ev)%nat) →
  (∀ k c, w_ceremonies w' !! k = Some c → ce_Nick c ≠ [] → of_account (w_board w) (ce_Nick c)) →
  (∀ p, p ∈ passkeys (w_tables w') → ∃ u, u ∈ users (w_board w) ∧ u_ID u = pk_User p) →
  (∀ u, u ∈ users (w_board w) → (owned (w_tables w') u ≤ owned (w_tables w) u + times (Enrolled (u_Nick u)) ev)%nat) →
  NoDup (CredentialID ∘ pk_Cred <$> passkeys (w_tables w')) →
  (∀ tok s, w_sessions w' !! tok = Some s → (∃ s0, w_sessions w !! tok = Some s0 ∧ s_Nick s0 = s_Nick s) ∨ In (s_Nick s) tok ∈ ev) →
  (∀ n tok, In n tok ∈ ev → Enrolled n ∈ tr ∧ ev = [In n tok]) →
  inv (tr ++ ev) w'.
Proof.
  intros [I0 I1 I2 I3 I4 I5 I6 I7 I8 I9 I10] Eb H1 H2 H3 H4 H5 H6 H7 H8 H9 H10. constructor; rewrite ?Eb; try done.
  - intros e [He|He]%elem_of_app; auto.
  - intros u Hu. rewrite !times_app. specialize (I3 u Hu). specialize (H3 u Hu). lia.
  - intros n Hn. rewrite !times_app. specialize (I4 n Hn). specialize (H4 n Hn). lia.
  - intros u Hu. rewrite !times_app. specialize (I7 u Hu). specialize (H7 u Hu). lia.
  - intros tok s Hs. apply elem_of_app. destruct (H9 tok s Hs) as [(s0 & Hs0 & <-)|?]; [left; by eapply I9|by right].
  - intros t1 n tok t2 E. apply snoc_split in E as [[t2' E]|[-> E]].
    + by eapply I10.
    + apply (H10 n tok). rewrite E. left.
    + intros x Hx ->. by apply H10 in Hx as [_ ->].
Qed.

(** The parts of the state a step may leave alone or only shrink. *)
Definition sessions_from (m' m : sessions_t) : Prop := ∀ tok s, m' !! tok = Some s → ∃ s0, m !! tok = Some s0 ∧ s_Nick s0 = s_Nick s.
Lemma sessions_from_sub m' m : m' ⊆ m → sessions_from m' m.
Proof. intros Hs tok s Hm. exists s. split; [|done]. by eapply lookup_weaken. Qed.

Lemma waiting_sub (n : bytes) (m' m : gmap bytes (ceremony D)) : m' ⊆ m → (waiting_for n m' ≤ waiting_for n m)%nat.
Proof.
  intros Hs. unfold waiting_for. apply map_subseteq_size. by apply map_filter_subseteq_mono.
Qed.

Lemma held_sub t' t u : codes t' ⊆ codes t → (held_code t' u ≤ held_code t u)%nat.
Proof.
  intros Hc. unfold held_code. destruct (codes t' !! u_ID u) as [c|] eqn:E; [|lia].
  by rewrite (lookup_weaken _ _ _ _ E Hc).
Qed.

(** Nothing of note, with sessions and ceremonies that were there before, no
    new codes, and the same passkeys. *)
Lemma inv_quiet tr w w' :
  w_board w' = w_board w → codes (w_tables w') ⊆ codes (w_tables w) → passkeys (w_tables w') = passkeys (w_tables w) →
  w_ceremonies w' ⊆ w_ceremonies w → sessions_from (w_sessions w') (w_sessions w) → inv tr w → inv tr w'.
Proof.
  intros Eb Ec Ep Hc Hs Hi. rewrite <- (app_nil_r tr). pose proof Hi as [I0 I1 I2 I3 I4 I5 I6 I7 I8 I9 I10].
  apply (inv_next tr [] w); try done; unfold owned; rewrite ?Ep; try done.
  - intros e He. by apply elem_of_nil in He.
  - intros i c Hk. eapply I2, lookup_weaken; [exact Hk|done].
  - intros u Hu. pose proof (held_sub _ _ u Ec). change (times _ []) with 0%nat. lia.
  - intros n Hn. pose proof (waiting_sub n _ _ Hc). change (times _ []) with 0%nat. lia.
  - intros k c Hk. eapply I5, lookup_weaken; [exact Hk|done].
  - intros u Hu. lia.
  - intros tok s Hm. left. by apply Hs.
  - intros n tok Hn. by apply elem_of_nil in Hn.
Qed.

(** ** Ceremonies kept, taken and put *)

Lemma take_sub (now : Z) (k : bytes) (m : gmap bytes (ceremony D)) : (ceremony_Take now k m).2 ⊆ m.
Proof. cbn. etrans; [apply delete_subseteq|apply map_filter_subseteq]. Qed.

Lemma take_Some (now : Z) (k : bytes) (m : gmap bytes (ceremony D)) c (n : bytes) : (ceremony_Take now k m).1 = Some c →
  m !! k = Some c ∧ (waiting_for n (ceremony_Take now k m).2 + (if decide (ce_Nick c = n) then 1 else 0) ≤ waiting_for n m)%nat.
Proof.
  cbn. intros [Hk _]%map_lookup_filter_Some. split; [done|].
  assert (Hs : (waiting_for n (delete k (sweep_ceremonies now m)) ≤ waiting_for n (delete k m))%nat)
    by (apply waiting_sub, delete_mono, map_filter_subseteq).
  enough ((waiting_for n (delete k m) + (if decide (ce_Nick c = n) then 1 else 0) ≤ waiting_for n m)%nat) by lia.
  unfold waiting_for. rewrite map_filter_delete. case_decide as En.
  - rewrite map_size_delete_Some; [|exists c; by apply map_lookup_filter_Some].
    assert (0 < size (filter (λ x : bytes * ceremony D, ce_Nick x.2 = n) m))%nat; [|lia].
    destruct (size _) eqn:E; [|lia]. apply map_size_empty_inv in E.
    assert (Hx : filter (λ x : bytes * ceremony D, ce_Nick x.2 = n) m !! k = Some c) by (by apply map_lookup_filter_Some).
    rewrite E in Hx. done.
  - pose proof (map_subseteq_size _ _ (delete_subseteq (filter (λ x : bytes * ceremony D, ce_Nick x.2 = n) m) k)). lia.
Qed.

Lemma put_waiting (now : Z) (k nick : bytes) (d : D) m (n : bytes) :
  (waiting_for n (ceremony_Put now k nick d m) ≤ waiting_for n m + (if decide (nick = n) then 1 else 0))%nat.
Proof.
  unfold ceremony_Put. pose proof (waiting_sub n _ _ (map_filter_subseteq (λ x : bytes * ceremony D, now < ce_Expires x.2) m)) as Hs.
  fold (sweep_ceremonies now m) in Hs. revert Hs. generalize (sweep_ceremonies now m). intros m0 Hs.
  enough ((waiting_for n (<[k:=mkCeremony nick d (now + ceremonyTTL)]> m0) ≤ waiting_for n m0 + (if decide (nick = n) then 1 else 0))%nat) by lia.
  unfold waiting_for. case_decide as En.
  - rewrite map_filter_insert_True by done. rewrite map_size_insert. destruct (filter _ m0 !! k); cbn; lia.
  - rewrite map_filter_insert_False by done. rewrite Nat.add_0_r. apply map_subseteq_size, map_filter_subseteq_mono, delete_subseteq.
Qed.

Lemma put_lookup (now : Z) (k nick : bytes) (d : D) m (k' : bytes) c :
  ceremony_Put now k nick d m !! k' = Some c → m !! k' = Some c ∨ ce_Nick c = nick.
Proof.
  unfold ceremony_Put. rewrite lookup_insert_Some. intros [[_ <-]|[_ H]]; [by right|left].
  by apply map_lookup_filter_Some in H as [? _].
Qed.

(** ** The parts a limit leaves alone *)

Definition core (w w' : WebServer D) : Prop :=
  w_board w' = w_board w ∧ w_tables w' = w_tables w ∧ w_sessions w' = w_sessions w ∧ w_ceremonies w' = w_ceremonies w.

Lemma auth_core now (r : request B) w : core w (auth_limited now r w).2.
Proof. unfold auth_limited. by destruct (rateLimited _ _ _ _) as [[x per] global]. Qed.
Lemma enrol_core now (r : request B) w : core w (enrol_limited now r w).2.
Proof. unfold enrol_limited. by destruct (rateLimited _ _ _ _) as [[x per] global]. Qed.

Lemma inv_core tr w w' : core w w' → inv tr w → inv tr w'.
Proof. intros (Eb & Et & Es & Ec). apply inv_quiet; rewrite ?Et, ?Ec, ?Es; try done. by apply sessions_from_sub. Qed.

(** Taking a ceremony: one for enrolling is one fewer of that account's. *)
Lemma takeCeremony_spec now (r : request B) w c w' : takeCeremony now r w = (c, w') →
  w_board w' = w_board w ∧ w_tables w' = w_tables w ∧ w_sessions w' = w_sessions w ∧ w_ceremonies w' ⊆ w_ceremonies w ∧
  ∀ x, c = Some x → (∃ k, w_ceremonies w !! k = Some x) ∧
    ∀ n, (waiting_for n (w_ceremonies w') + (if decide (ce_Nick x = n) then 1 else 0) ≤ waiting_for n (w_ceremonies w))%nat.
Proof.
  unfold takeCeremony. intros E.
  assert (Hno : (None, w) = (c, w') → w_board w' = w_board w ∧ w_tables w' = w_tables w ∧ w_sessions w' = w_sessions w ∧ w_ceremonies w' ⊆ w_ceremonies w ∧
    ∀ x, c = Some x → (∃ k, w_ceremonies w !! k = Some x) ∧
      ∀ n, (waiting_for n (w_ceremonies w') + (if decide (ce_Nick x = n) then 1 else 0) ≤ waiting_for n (w_ceremonies w))%nat)
    by (intros [= <- <-]; done).
  destruct (r_ceremony r) as [[|k0 k]|]; [by apply Hno| |by apply Hno]. clear Hno.
  destruct (ceremony_Take now (k0 :: k) (w_ceremonies w)) as [y m] eqn:Et. injection E as <- <-. cbn.
  pose proof (take_sub now (k0 :: k) (w_ceremonies w)) as Hs. rewrite Et in Hs.
  do 3 (split; [done|]). split; [exact Hs|]. intros x ->.
  split; [|intros n]; destruct (take_Some now (k0 :: k) (w_ceremonies w) x (ce_Nick x)) as [Hk _]; rewrite ?Et; try done.
  - by exists (k0 :: k).
  - destruct (take_Some now (k0 :: k) (w_ceremonies w) x n) as [_ Hn]; rewrite Et in *; done.
Qed.

Lemma inv_taken tr now (r : request B) w c w' : takeCeremony now r w = (c, w') → inv tr w → inv tr w'.
Proof.
  intros (Eb & Et & Es & Hc & _)%takeCeremony_spec. apply inv_quiet; rewrite ?Et, ?Es; try done. by apply sessions_from_sub.
Qed.

(** ** The tables *)

(** The same passkeys and codes. *)
Definition same_rows (t t' : WebTables) : Prop := passkeys t' = passkeys t ∧ codes t' = codes t.

Lemma inv_rows tr w t : same_rows (w_tables w) t → inv tr w → inv tr (with_tables t w).
Proof. intros [Ep Ec]. apply inv_quiet; try done; [by cbn; rewrite Ec|by apply sessions_from_sub]. Qed.

Lemma ensure_rows rnd nick b t : same_rows t (EnsureWebAuthnHandle rnd nick b t).2.
Proof. unfold EnsureWebAuthnHandle. destruct (account nick b); [|done]. destruct (handles t !! _); [done|]. by destruct (existsb _ _). Qed.

Lemma load_rows rnd nick b t : same_rows t (loadWebUser rnd nick b t).2.
Proof.
  unfold loadWebUser. pose proof (ensure_rows rnd nick b t) as H.
  destruct (account nick b); [|done]. by destruct (EnsureWebAuthnHandle _ _ _ _) as [[] ?].
Qed.

(** The credentials the library is given are the account's own. *)
Lemma load_creds rnd nick b t wu : (loadWebUser rnd nick b t).1 = Ok wu → ∃ u, account nick b = Some u ∧
  ∀ id, id ∈ lc_ID <$> wu_creds wu → ∃ p, p ∈ passkeys t ∧ pk_User p = u_ID u ∧ CredentialID (pk_Cred p) = id.
Proof.
  unfold loadWebUser. pose proof (ensure_rows rnd nick b t) as [Hp _].
  destruct (account nick b) as [u|] eqn:Eu; [|done]. destruct (EnsureWebAuthnHandle _ _ _ _) as [[h|e] t1]; [|done].
  cbn in Hp |- *. unfold WebAuthnCredentials. rewrite Eu. cbn. intros [= <-]. exists u. split; [done|]. cbn.
  intros id (c & -> & (c1 & -> & (p & -> & Hin)%list_elem_of_fmap)%list_elem_of_fmap)%list_elem_of_fmap.
  apply sort_by_elem, list_elem_of_filter in Hin as [Hu Hin]. exists p. rewrite Hp in Hin. done.
Qed.

Lemma owned_pos t u p : p ∈ passkeys t → pk_User p = u_ID u → (0 < owned t u)%nat.
Proof.
  intros Hp Hu. unfold owned. assert (Hf : p ∈ filter (λ p, pk_User p = u_ID u) (passkeys t)) by (by apply list_elem_of_filter).
  destruct (filter _ _); [by apply elem_of_nil in Hf|cbn; lia].
Qed.

(** Using a passkey changes neither whose it is nor its ID. *)
Lemma use_rows now id sc t : let t' := (UseWebAuthnCredential now id sc t).2 in
  codes t' = codes t ∧ pk_User <$> passkeys t' = pk_User <$> passkeys t ∧ CredentialID ∘ pk_Cred <$> passkeys t' = CredentialID ∘ pk_Cred <$> passkeys t.
Proof.
  unfold UseWebAuthnCredential. destruct (List.find _ _) as [p|]; [|done]. destruct (_ && _); [done|].
  cbn. rewrite <- !list_fmap_compose. split; [done|].
  split; apply list_fmap_ext; intros i q _; cbn; by destruct (has_id id q).
Qed.

Lemma filter_users i (l l' : list Passkey) : pk_User <$> l' = pk_User <$> l →
  length (filter (λ p, pk_User p = i) l') = length (filter (λ p, pk_User p = i) l).
Proof.
  intros E. rewrite <- !(length_fmap pk_User).
  assert (Hf : ∀ k : list Passkey, pk_User <$> filter (λ p, pk_User p = i) k = filter (λ x, x = i) (pk_User <$> k)).
  { induction k as [|p k IH]; [done|]. rewrite fmap_cons, !filter_cons. repeat case_decide; try done. by rewrite fmap_cons, IH. }
  by rewrite !Hf, E.
Qed.

Lemma inv_use tr now id sc w : inv tr w → inv tr (with_tables (UseWebAuthnCredential now id sc (w_tables w)).2 w).
Proof.
  intros Hi. pose proof Hi as [I0 I1 I2 I3 I4 I5 I6 I7 I8 I9 I10]. pose proof (use_rows now id sc (w_tables w)) as (Ec & Eu & Ei).
  revert Ec Eu Ei. generalize (UseWebAuthnCredential now id sc (w_tables w)).2. intros t Ec Eu Ei.
  constructor; cbn; unfold held_code, owned; rewrite ?Ec, ?Ei; try done.
  - intros p Hp. assert (Hu : pk_User p ∈ pk_User <$> passkeys t) by (by apply list_elem_of_fmap_2).
    rewrite Eu in Hu. apply list_elem_of_fmap in Hu as (q & -> & Hq). by apply I6.
  - intros u Hu. rewrite (filter_users _ _ _ Eu). by apply I7.
Qed.

(** ** Signing in *)

Lemma create_spec (now : Z) (tok nick : bytes) (m m' : sessions_t) x : session_Create o now tok nick m = (x, m') →
  (x = None ∧ m' ⊆ m) ∨ (x = Some tok ∧ ∀ (k : bytes) s, m' !! k = Some s → m !! k = Some s ∨ (k = tok ∧ s_Nick s = nick)).
Proof.
  unfold session_Create. pose proof (map_filter_subseteq (λ x : bytes * Session, expiredLocked o now x.2 = false) m) as Hs.
  fold (sweepLocked o now m) in Hs. destruct (_ && _); [intros [= <- <-]; by left|]. destruct (_ && _); [intros [= <- <-]; by left|].
  intros [= <- <-]. right. split; [done|]. intros k s. rewrite lookup_insert_Some. intros [[<- <-]|[_ H]]; [by right|left].
  by eapply lookup_weaken.
Qed.

Lemma times_In n n' tok : times (Enrolled n) [In n' tok] = 0%nat ∧ times (Redeemed n) [In n' tok] = 0%nat ∧ times (Issued n) [In n' tok] = 0%nat.
Proof. by rewrite !times_one. Qed.

Lemma inv_signed_in tr w u now tok x m : inv tr w → u ∈ users (w_board w) → Enrolled (u_Nick u) ∈ tr →
  session_Create o now tok (u_Nick u) (w_sessions w) = (x, m) →
  inv (tr ++ (match x with Some id => [In (u_Nick u) id] | None => [] end)) (with_sessions m w).
Proof.
  intros Hi Hu He [[-> Hm]|[-> Hm]]%create_spec.
  - rewrite app_nil_r. apply (inv_quiet tr w); try done. by apply sessions_from_sub.
  - pose proof Hi as [I0 I1 I2 I3 I4 I5 I6 I7 I8 I9 I10].
    apply (inv_next tr [In (u_Nick u) tok] w); try done.
    + intros e ->%list_elem_of_singleton. by exists u.
    + intros y _. destruct (times_In (u_Nick y) (u_Nick u) tok) as (-> & _ & _). cbn. lia.
    + intros k s Hk. destruct (Hm k s Hk) as [H|[-> <-]]; [left; by exists s|right; left].
    + intros n k [= -> ->]%list_elem_of_singleton. done.
Qed.

(** The library gives a credential of the account's that it was handed. *)
Definition login_sound : Prop := ∀ wu d a c, validate_login wu d a = Some c → lc_ID c ∈ lc_ID <$> wu_creds wu.

Lemma resolve_Some handle (w : WebServer D) u wu : accounts_ok (w_board w) → resolve handle w = Some (u, wu) →
  account (u_Nick u) (w_board w) = Some u.
Proof.
  intros Hok. unfold resolve, UserByWebAuthnHandle. case_bool_decide; [done|]. destruct (List.find _ _) as [x|]; [|done]. cbn.
  destruct (account_by_id x.1 (w_board w)) as [v|] eqn:Ev; [|done]. cbn.
  destruct (account (u_Nick v) (w_board w)) as [v'|] eqn:Ev'; [|done]. cbn.
  destruct (loadWebUser _ _ _ _).1; [|done]. intros [= <- <-].
  apply account_stored in Ev'. by apply account_self.
Qed.

Lemma validated_Some tr (w : WebServer D) (d : D) (a : A) u c : login_sound → inv tr w → validated d a w = Some (u, c) →
  u ∈ users (w_board w) ∧ Enrolled (u_Nick u) ∈ tr.
Proof.
  intros Hl Hi Hv. pose proof (inv_accounts _ _ Hi) as Hok. unfold validated in Hv.
  destruct (resolve _ w) as [[v wu]|] eqn:Er; [|done]. cbn in Hv.
  destruct (validate_login wu d a) as [k|] eqn:Ek; [|done]. injection Hv as -> ->.
  pose proof (resolve_Some _ _ _ _ Hok Er) as Hu. split; [by eapply account_stored|].
  unfold resolve in Er. destruct (UserByWebAuthnHandle _ _ _) as [v|]; [|done]. cbn in Er.
  destruct (loadWebUser [] (u_Nick v) (w_board w) (w_tables w)).1 as [wu'|] eqn:El; [|done]. injection Er as -> ->.
  apply load_creds in El as (u' & Hu' & Hc). rewrite Hu in Hu'. injection Hu' as <-.
  destruct (Hc _ (Hl _ _ _ _ Ek)) as (p & Hp & Hpu & _). apply times_pos.
  pose proof (owned_pos _ _ _ Hp Hpu). pose proof (inv_passkeys _ _ Hi u (account_stored _ _ _ Hu)). lia.
Qed.

(** ** The handlers *)

Lemma inv_login_begin tr now tok rnd (r : request B) w : inv tr w →
  inv (tr ++ events_of (handleLoginBegin now tok rnd r w).1) (handleLoginBegin now tok rnd r w).2.
Proof.
  intros Hi. unfold handleLoginBegin. pose proof (inv_core _ _ _ (auth_core now r w) Hi) as Hi0.
  destruct (auth_limited now r w) as [lim w0]; destruct lim; cbn [fst snd events_of] in *; [by rewrite app_nil_r|].
  destruct (begin_login rnd) as [d|]; cbn; [|by rewrite app_nil_r].
  pose proof Hi0 as [I0 I1 I2 I3 I4 I5 I6 I7 I8 I9 I10]. apply (inv_next tr [] w0); try done; cbn.
  - intros e He. by apply elem_of_nil in He.
  - intros n Hn. pose proof (put_waiting now tok [] d (w_ceremonies w0) n) as Hp. rewrite decide_False in Hp by done.
    change (times _ []) with 0%nat. lia.
  - intros k c [Hk| -> ]%put_lookup; [by eapply I5|done].
  - intros u Hu. lia.
  - intros k s Hs. left. by exists s.
  - intros n k Hk. by apply elem_of_nil in Hk.
Qed.

Lemma inv_login_finish tr now tok (r : request B) w : login_sound → inv tr w →
  inv (tr ++ events_of (handleLoginFinish o now tok r w).1) (handleLoginFinish o now tok r w).2.
Proof.
  intros Hl Hi. unfold handleLoginFinish. pose proof (inv_core _ _ _ (auth_core now r w) Hi) as Hi0.
  destruct (auth_limited now r w) as [lim w0]; destruct lim; cbn [fst snd events_of] in *; [by rewrite app_nil_r|].
  destruct (takeCeremony now r w0) as [c w1] eqn:Ec. pose proof (inv_taken _ _ _ _ _ _ Ec Hi0) as Hi1. clear Ec.
  destruct c as [c|]; cbn [fst snd events_of]; [|by rewrite app_nil_r].
  destruct (parse_assertion (r_body r)) as [a|]; cbn [fst snd events_of]; [|by rewrite app_nil_r].
  destruct (validated (ce_Data c) a w1) as [[u k]|] eqn:Ev; cbn [fst snd events_of]; [|by rewrite app_nil_r].
  destruct (negb (may_sign_in u)); cbn [fst snd events_of]; [by rewrite app_nil_r|].
  pose proof (validated_Some _ _ _ _ _ _ Hl Hi1 Ev) as [Hu He].
  pose proof (inv_use tr (now / Nanos) (lc_ID k) (lc_SignCount k) w1 Hi1) as Hi2.
  destruct (UseWebAuthnCredential _ _ _ _) as [e t]. cbn [snd] in Hi2.
  destruct e as [[]|]; cbn [fst snd events_of]; try by rewrite app_nil_r.
  destruct (session_Create o now tok (u_Nick u) (w_sessions (with_tables t w1))) as [x m] eqn:Es.
  pose proof (inv_signed_in tr _ u now tok x m Hi2 Hu He Es) as Hi3.
  destruct x as [id|]; cbn [fst snd events_of]; [|done].
  apply inv_board; [|done]. apply RecordLogin_keeps. exact (inv_accounts _ _ Hi1).
Qed.

(** A code redeemed is gone, expired or not. *)
Lemma redeem_spec now hash b t : accounts_ok b →
  let x := RedeemEnrolmentCode now hash b t in
  passkeys x.2 = passkeys t ∧ codes x.2 ⊆ codes t ∧
  ∀ u, x.1 = Ok u → u ∈ users b ∧ held_code t u = 1%nat ∧ held_code x.2 u = 0%nat.
Proof.
  intros Hok. unfold RedeemEnrolmentCode. destruct (code_for hash t) as [[i c]|] eqn:Ec; [|done].
  destruct (account_by_id i b) as [u|] eqn:Eu; [|done].
  apply account_by_id_Some in Eu as [Hu <-].
  destruct (expires_at c <=? now); cbn; [split; [done|]; split; [apply delete_subseteq|done]|].
  rewrite (account_self _ _ Hok Hu). cbn. split; [done|]. split; [apply delete_subseteq|]. intros ? [= <-]. split; [done|].
  apply List.find_some in Ec as [Hc%list_elem_of_In _]. apply sort_by_elem, elem_of_map_to_list in Hc.
  unfold held_code. cbn. by rewrite Hc, lookup_delete_eq.
Qed.

Lemma inv_enrol_begin tr now tok rnd typed (r : request B) w : inv tr w →
  inv (tr ++ events_of (handleEnrolBegin now tok rnd typed r w).1) (handleEnrolBegin now tok rnd typed r w).2.
Proof.
  intros Hi. unfold handleEnrolBegin. pose proof (inv_core _ _ _ (enrol_core now r w) Hi) as Hi0.
  destruct (enrol_limited now r w) as [lim w0]; destruct lim; cbn [fst snd events_of] in *; [by rewrite app_nil_r|].
  destruct typed as [typed|]; cbn [fst snd events_of]; [|by rewrite app_nil_r].
  case_bool_decide; cbn [fst snd events_of]; [by rewrite app_nil_r|].
  pose proof (inv_accounts _ _ Hi0) as Hok.
  pose proof (redeem_spec (now / Nanos) (HashEnrolmentCode (NormaliseEnrolmentCode typed)) _ (w_tables w0) Hok) as (Ep & Ec & Hr).
  destruct (RedeemEnrolmentCode _ _ _ _) as [[u|e] t]; cbn [fst snd] in Ep, Ec, Hr;
    assert (Ht : inv tr (with_tables t w0)) by (apply (inv_quiet tr w0); [done..|by apply sessions_from_sub|done]);
    [|destruct e; cbn [fst snd events_of]; by rewrite app_nil_r].
  destruct (Hr u eq_refl) as (Hu & Hh & Hh'). clear Hr.
  destruct (negb (may_sign_in u)); cbn [fst snd events_of]; [by rewrite app_nil_r|].
  pose proof (load_rows rnd (u_Nick u) (w_board (with_tables t w0)) t) as [Ep' Ec']. cbn [w_tables with_tables].
  destruct (loadWebUser _ _ _ _) as [[wu|e] t']; cbn [fst snd] in Ep', Ec';
    assert (Ht' : inv tr (with_tables t' (with_tables t w0))) by (apply inv_rows; done);
    cbn [fst snd events_of]; [|by rewrite app_nil_r].
  destruct (begin_registration wu rnd) as [d|]; cbn [fst snd events_of]; [|by rewrite app_nil_r].
  pose proof Hi0 as [I0 I1 I2 I3 I4 I5 I6 I7 I8 I9 I10].
  apply (inv_next tr [Redeemed (u_Nick u)] w0); cbn; rewrite ?Ep', ?Ep, ?Ec'; try done.
  - intros e ->%list_elem_of_singleton. by exists u.
  - intros i c Hk. eapply I2, lookup_weaken; [exact Hk|done].
  - intros y Hy. rewrite times_one. case_decide as E; (rewrite times_none; [|by intros ?%list_elem_of_singleton]).
    + injection E as E. assert (y = u) as -> by (by apply (same_nick (w_board w0))). unfold held_code in *. rewrite Ec'. lia.
    + pose proof (held_sub _ _ y Ec). unfold held_code in *. rewrite Ec'. lia.
  - intros n Hn. rewrite times_none by (by intros ?%list_elem_of_singleton). rewrite times_one.
    pose proof (put_waiting now tok (u_Nick u) d (w_ceremonies w0) n) as Hp. repeat case_decide; lia || congruence.
  - intros k c [Hk| -> ]%put_lookup; [by eapply I5|]. by exists u.
  - intros y Hy. unfold owned. cbn. rewrite Ep', Ep. lia.
  - intros k s Hs. left. by exists s.
  - intros n k Hk. by apply list_elem_of_singleton in Hk.
Qed.

(** Enrolling appends one passkey of the account's, whose ID nobody had. *)
Lemma add_spec now nick c b t : let x := AddWebAuthnCredential now nick c b t in
  codes x.2 = codes t ∧
  match x.1 with
  | Some _ => passkeys x.2 = passkeys t
  | None => ∃ u p, account nick b = Some u ∧ passkeys x.2 = passkeys t ++ [p] ∧ pk_User p = u_ID u ∧
      CredentialID (pk_Cred p) ∉ CredentialID ∘ pk_Cred <$> passkeys t
  end.
Proof.
  unfold AddWebAuthnCredential. destruct (account nick b) as [u|]; [|done].
  destruct (existsb _ _) eqn:E; [done|]. cbn. split; [done|]. eexists u, _. do 3 (split; [done|]).
  intros (p & Ep & Hp)%list_elem_of_fmap. eapply not_true_iff_false; [exact E|].
  apply existsb_exists. exists p. split; [by apply list_elem_of_In|]. unfold has_id. by apply bool_decide_eq_true.
Qed.

Lemma inv_enrol_finish tr now rnd (r : request B) w : inv tr w →
  inv (tr ++ events_of (handleEnrolFinish now rnd r w).1) (handleEnrolFinish now rnd r w).2.
Proof.
  intros Hi. unfold handleEnrolFinish. pose proof (inv_core _ _ _ (enrol_core now r w) Hi) as Hi0.
  destruct (enrol_limited now r w) as [lim w0]; destruct lim; cbn [fst snd events_of] in *; [by rewrite app_nil_r|].
  destruct (takeCeremony now r w0) as [c w1] eqn:Ec. pose proof (inv_taken _ _ _ _ _ _ Ec Hi0) as Hi1.
  apply takeCeremony_spec in Ec as (Eb & Et & Es & Hsub & Hc).
  destruct c as [c|]; cbn [fst snd events_of]; [|by rewrite app_nil_r].
  destruct (Hc c eq_refl) as [[k0 Hk0] Hw]. clear Hc.
  case_bool_decide as Hn; cbn [fst snd events_of]; [by rewrite app_nil_r|].
  pose proof (load_rows rnd (ce_Nick c) (w_board w1) (w_tables w1)) as Hr1.
  destruct (loadWebUser _ _ _ _) as [[wu|e] t1]; cbn [fst snd events_of] in *; [|rewrite app_nil_r; by apply inv_rows].
  destruct (finish_registration wu (ce_Data c) (r_body r)) as [k|]; cbn [fst snd events_of]; [|rewrite app_nil_r; by apply inv_rows].
  set (cred := mkCredential _ _ _ _ _ _ _ _).
  pose proof (add_spec (now / Nanos) (ce_Nick c) cred (w_board w1) t1) as [Ec2 Hadd].
  destruct Hr1 as [Ep1 Ec1]. cbn [w_board w_tables with_tables].
  destruct (AddWebAuthnCredential _ _ _ _ _) as [[e|] t2]; cbn [fst snd events_of] in *.
  { assert (Ht : inv tr (with_tables t2 (with_tables t1 w1))) by (apply (inv_rows tr w1 t2); [split; congruence|done]).
    destruct e; cbn [fst snd events_of]; by rewrite app_nil_r. }
  destruct Hadd as (u & p & Hu & Ep2 & Hpu & Hid). rewrite Ep1 in Ep2, Hid. rewrite Ec1 in Ec2.
  pose proof Hi0 as [I0 I1 I2 I3 I4 I5 I6 I7 I8 I9 I10].
  assert (Hun : u ∈ users (w_board w0) ∧ u_Nick u = ce_Nick c).
  { destruct (I5 _ _ Hk0 Hn) as (v & Hv & Ev). rewrite Eb, <- Ev, (account_self _ _ I0 Hv) in Hu. by injection Hu as <-. }
  destruct Hun as [Hin Hnick]. rewrite Et in *.
  apply (inv_next tr [Enrolled (ce_Nick c)] w0); cbn; rewrite ?Ec2, ?Ep2; try done.
  - intros e ->%list_elem_of_singleton. by exists u.
  - intros y Hy. unfold held_code. rewrite Ec2. rewrite !times_none by (by intros ?%list_elem_of_singleton). lia.
  - intros n _. rewrite (times_none (Redeemed n)) by (by intros ?%list_elem_of_singleton). rewrite times_one.
    specialize (Hw n). repeat case_decide; lia || congruence.
  - intros k' c' Hk. eapply I5, lookup_weaken; [exact Hk|done].
  - intros q [Hq| ->%list_elem_of_singleton]%elem_of_app; [by apply I6|]. by exists u.
  - intros y Hy. unfold owned. rewrite Ep2, filter_app, length_app, filter_cons, filter_nil, times_one. rewrite Hpu.
    destruct (decide (u_ID u = u_ID y)) as [Ey|Ey]; cbn; [|lia]. assert (y = u) as -> by (by apply (same_id (w_board w0))).
    rewrite decide_True by congruence. lia.
  - rewrite fmap_app. by apply NoDup_snoc.
  - intros k' s Hs. left. exists s. by rewrite <- Es.
  - intros n k' Hk. by apply list_elem_of_singleton in Hk.
Qed.

Lemma get_from (now : Z) (id : bytes) (m : sessions_t) : sessions_from (session_Get o now id m).2 m.
Proof.
  unfold session_Get. pose proof (map_filter_subseteq (λ x : bytes * Session, expiredLocked o now x.2 = false) m) as Hs.
  fold (sweepLocked o now m) in Hs. destruct (sweepLocked o now m !! id) as [s|] eqn:E; cbn; [|by apply sessions_from_sub].
  intros k s'. rewrite lookup_insert_Some. intros [[<- <-]|[_ Hk]].
  - exists s. split; [by eapply lookup_weaken|done].
  - exists s'. split; [by eapply lookup_weaken|done].
Qed.

Lemma unlock_from (id : bytes) (b : bool) (m : sessions_t) : sessions_from (SetUnlocked id b m) m.
Proof.
  intros k s. unfold SetUnlocked. rewrite lookup_alter_Some. intros [(-> & s0 & H & ->)|[_ H]]; eauto.
Qed.

Lemma put_code_spec now nick hash exp b t : let x := PutEnrolmentCode now nick hash exp b t in
  passkeys x.2 = passkeys t ∧ match account nick b with Some u => codes x.2 = <[u_ID u := mkCode hash now exp]> (codes t) | None => x.2 = t end.
Proof. unfold PutEnrolmentCode. by destruct (account nick b). Qed.

Lemma inv_issue tr now nick hash exp w : inv tr w →
  inv (tr ++ match account nick (w_board w) with Some u => [Issued (u_Nick u)] | None => [] end)
    (with_tables (PutEnrolmentCode now nick hash exp (w_board w) (w_tables w)).2 w).
Proof.
  intros Hi. pose proof (put_code_spec now nick hash exp (w_board w) (w_tables w)) as [Ep Ec].
  destruct (account nick (w_board w)) as [u|] eqn:Hu; [|rewrite Ec, app_nil_r; by apply (inv_core _ w)].
  revert Ep Ec. generalize (PutEnrolmentCode now nick hash exp (w_board w) (w_tables w)).2. intros t Ep Ec. apply account_stored in Hu.
  pose proof Hi as [I0 I1 I2 I3 I4 I5 I6 I7 I8 I9 I10].
  apply (inv_next tr [Issued (u_Nick u)] w); cbn; rewrite ?Ep; try done.
  - intros e ->%list_elem_of_singleton. by exists u.
  - intros i c. rewrite Ec, lookup_insert_Some. intros [[<- _]|[_ Hc]]; [by exists u|by eapply I2].
  - intros y Hy. rewrite (times_none (Redeemed _)) by (by intros ?%list_elem_of_singleton). unfold held_code. rewrite Ec, times_one.
    destruct (decide (u_ID u = u_ID y)) as [E|E].
    + assert (y = u) as -> by (by apply (same_id (w_board w))). rewrite lookup_insert_eq, decide_True by done.
      destruct (codes (w_tables w) !! u_ID u); lia.
    + rewrite lookup_insert_ne by done. destruct (codes (w_tables w) !! u_ID y), (decide (Issued (u_Nick u) = Issued (u_Nick y))); lia.
  - intros y Hy. unfold owned. rewrite Ep. lia.
  - intros k s Hs. left. by exists s.
  - intros n k Hk. by apply list_elem_of_singleton in Hk.
Qed.

Lemma filter_sublist_mono {X} (P : X → Prop) `{∀ x, Decision (P x)} l1 l2 : sublist l1 l2 → sublist (filter P l1) (filter P l2).
Proof. induction 1; rewrite ?filter_cons; repeat case_decide; try done; by constructor. Qed.

Lemma remove_spec nick id b t : let t' := (RemoveWebAuthnCredential nick id b t).2 in codes t' = codes t ∧ sublist (passkeys t') (passkeys t).
Proof.
  unfold RemoveWebAuthnCredential. destruct (account nick b); [|done]. destruct (existsb _ _); [|done].
  cbn. split; [done|]. apply sublist_filter.
Qed.

Lemma inv_revoke tr nick id w : inv tr w → inv tr (with_tables (RemoveWebAuthnCredential nick id (w_board w) (w_tables w)).2 w).
Proof.
  intros [I0 I1 I2 I3 I4 I5 I6 I7 I8 I9 I10]. pose proof (remove_spec nick id (w_board w) (w_tables w)) as [Ec Hs].
  revert Ec Hs. generalize (RemoveWebAuthnCredential nick id (w_board w) (w_tables w)).2. intros t Ec Hs.
  constructor; cbn; unfold held_code; rewrite ?Ec; try done.
  - intros p Hp. apply I6. by eapply elem_of_sublist.
  - intros u Hu. etrans; [|by apply I7]. by apply sublist_length, filter_sublist_mono.
  - eapply sublist_NoDup; [exact I8|]. by apply fmap_sublist.
Qed.

Lemma inv_step tr w ev w' : login_sound → web_step w ev w' → inv tr w → inv (tr ++ ev) w'.
Proof.
  intros Hl Hs Hi. destruct Hs.
  - by apply inv_issue.
  - by apply inv_login_begin.
  - by apply inv_login_finish.
  - by apply inv_enrol_begin.
  - by apply inv_enrol_finish.
  - subst x. cbn. rewrite app_nil_r. destruct (r_session r) as [[|k0 k]|]; [done| |done].
    apply (inv_quiet tr w); try done. apply sessions_from_sub, delete_subseteq.
  - subst x. unfold handleMe, currentSession. destruct (r_session r) as [[|k0 k]|]; cbn [fst snd events_of]; [by rewrite app_nil_r| |by rewrite app_nil_r].
    pose proof (get_from now (k0 :: k) (w_sessions w)) as Hg. destruct (session_Get o now (k0 :: k) (w_sessions w)) as [s m].
    assert (Hm : inv tr (with_sessions m w)) by (by apply (inv_quiet tr w)).
    destruct s; cbn; by rewrite app_nil_r.
  - rewrite app_nil_r. apply (inv_quiet tr w); try done. apply unlock_from.
  - rewrite app_nil_r. by apply inv_revoke.
  - rewrite app_nil_r. by apply inv_board.
Qed.

(** ** How many sessions *)

Definition of_nick (n : bytes) (m : sessions_t) : sessions_t := filter (λ x : bytes * Session, s_Nick x.2 = n) m.
Definition few_sessions (m : sessions_t) : Prop :=
  (0 < max_sessions o → Z.of_nat (size m) ≤ max_sessions o) ∧ ∀ n, 0 < maxPerUser o → Z.of_nat (size (of_nick n m)) ≤ maxPerUser o.

Lemma sessions_from_size (m' m : sessions_t) : sessions_from m' m → (size m' ≤ size m)%nat ∧ ∀ n, (size (of_nick n m') ≤ size (of_nick n m))%nat.
Proof.
  intros H. split; [|intros n]; rewrite <- !size_dom; apply subseteq_size; intros k [s Hs]%elem_of_dom; apply elem_of_dom.
  - destruct (H k s Hs) as (s0 & Hs0 & _). by exists s0.
  - apply map_lookup_filter_Some in Hs as [Hs Hn]. destruct (H k s Hs) as (s0 & Hs0 & E).
    exists s0. apply map_lookup_filter_Some. split; [done|]. cbn in *. congruence.
Qed.

Lemma few_from m' m : sessions_from m' m → few_sessions m → few_sessions m'.
Proof.
  intros [Hs Hn]%sessions_from_size [H1 H2]. split; [intros Hp; specialize (H1 Hp); lia|].
  intros n Hp. specialize (H2 n Hp). specialize (Hn n). lia.
Qed.

Lemma few_create (now : Z) (tok nick : bytes) m : few_sessions m → few_sessions (session_Create o now tok nick m).2.
Proof.
  intros Hm. unfold session_Create. assert (Hs : few_sessions (sweepLocked o now m)) by (eapply few_from, Hm; apply sessions_from_sub, map_filter_subseteq).
  revert Hs. generalize (sweepLocked o now m). clear m Hm. intros m [H1 H2]. fold (of_nick nick m).
  destruct (_ && _) eqn:E1; [done|]. destruct ((0 <? maxPerUser o) && _) eqn:E2; [done|]. cbn.
  apply andb_false_iff in E1, E2. rewrite !Z.ltb_ge, !Z.leb_gt in *. split.
  - intros Hp. rewrite map_size_insert. destruct (m !! tok); cbn; [by apply H1|]. lia.
  - intros n Hp. unfold of_nick. destruct (decide (nick = n)) as [<-|Hn].
    + rewrite map_filter_insert_True by done. fold (of_nick nick m). specialize (H2 nick Hp). rewrite map_size_insert. destruct (_ !! tok); cbn; lia.
    + rewrite map_filter_insert_False by done. specialize (H2 n Hp). fold (of_nick n (delete tok m)).
      destruct (sessions_from_size (delete tok m) m) as [_ Hd]; [apply sessions_from_sub, delete_subseteq|]. specialize (Hd n). lia.
Qed.

Lemma few_step w ev w' : web_step w ev w' → few_sessions (w_sessions w) → few_sessions (w_sessions w').
Proof.
  intros Hs Hf. destruct Hs; subst; try exact Hf.
  - subst x. unfold handleLoginBegin. pose proof (auth_core now r w) as (_ & _ & E & _).
    destruct (auth_limited now r w) as [[] w0]; cbn in *; [by rewrite E|]. destruct (begin_login rnd); cbn; by rewrite E.
  - subst x. unfold handleLoginFinish. pose proof (auth_core now r w) as (_ & _ & E & _).
    destruct (auth_limited now r w) as [[] w0]; cbn [fst snd] in *; [by rewrite E|]. rewrite <- E in Hf.
    destruct (takeCeremony now r w0) as [c w1] eqn:Ec. apply takeCeremony_spec in Ec as (_ & _ & E1 & _ & _). rewrite <- E1 in Hf.
    destruct c; [|done]. destruct (parse_assertion _); [|done]. destruct (validated _ _ _) as [[u k]|]; [|done].
    destruct (negb _); [done|]. destruct (UseWebAuthnCredential _ _ _ _) as [[[]|] t]; try done. cbn [w_sessions with_tables].
    pose proof (few_create now tok (u_Nick u) (w_sessions w1) Hf) as Hc. by destruct (session_Create _ _ _ _ _) as [[] m].
  - subst x. unfold handleEnrolBegin. pose proof (enrol_core now r w) as (_ & _ & E & _).
    destruct (enrol_limited now r w) as [[] w0]; cbn [fst snd] in *; [by rewrite E|]. rewrite <- E in Hf.
    destruct typed; [|done]. case_bool_decide; [done|]. destruct (RedeemEnrolmentCode _ _ _ _) as [[u|[]] t]; try done.
    destruct (negb _); [done|]. destruct (loadWebUser _ _ _ _) as [[wu|] t']; [|done]. by destruct (begin_registration wu rnd).
  - subst x. unfold handleEnrolFinish. pose proof (enrol_core now r w) as (_ & _ & E & _).
    destruct (enrol_limited now r w) as [[] w0]; cbn [fst snd] in *; [by rewrite E|]. rewrite <- E in Hf.
    destruct (takeCeremony now r w0) as [c w1] eqn:Ec. apply takeCeremony_spec in Ec as (_ & _ & E1 & _ & _). rewrite <- E1 in Hf.
    destruct c; [|done]. case_bool_decide; [done|]. destruct (loadWebUser _ _ _ _) as [[wu|] t']; [|done].
    destruct (finish_registration _ _ _); [|done]. by destruct (AddWebAuthnCredential _ _ _ _ _) as [[[]|] t2].
  - subst x. cbn. destruct (r_session r) as [[|k0 k]|]; [done| |done]. eapply few_from, Hf. apply sessions_from_sub, delete_subseteq.
  - subst x. unfold handleMe, currentSession. destruct (r_session r) as [[|k0 k]|]; [done| |done].
    pose proof (few_from _ _ (get_from now (k0 :: k) (w_sessions w)) Hf) as Hg. destruct (session_Get _ _ _ _) as [[] m]; done.
  - eapply few_from, Hf. apply unlock_from.
Qed.

(** ** Every run *)

Lemma inv_starting b l1 l2 l3 l4 : accounts_ok b → inv [] (starting b l1 l2 l3 l4).
Proof.
  intros Hb. constructor; cbn; try done.
  - intros e He. by apply elem_of_nil in He.
  - intros p Hp. by apply elem_of_nil in Hp.
  - constructor.
  - intros t1 n tok t2 H. by destruct t1.
Qed.

Lemma inv_run b l1 l2 l3 l4 tr w : login_sound → accounts_ok b → web_run (starting b l1 l2 l3 l4) tr w → inv tr w ∧ few_sessions (w_sessions w).
Proof.
  intros Hl Hb Hr. remember (starting b l1 l2 l3 l4) as w0 eqn:E0. induction Hr as [w|w tr w1 ev w2 Hr IH Hs].
  - subst w. split; [by apply inv_starting|]. split; [|intros n]; intros Hp; cbn in *; [rewrite map_size_empty; lia|]. unfold of_nick. rewrite map_filter_empty, map_size_empty. lia.
  - destruct (IH E0) as [Hi Hf]. split; [by eapply inv_step|by eapply few_step].
Qed.

(** C19: nobody is signed in but by a passkey, nobody has a passkey but by a code the
    sysop gave out for that account, and each code gives one. Take any sequence of
    requests, of codes given out, passkeys removed and accounts changed, from a server
    started with no passkeys, where the WebAuthn library answers a login with one of the
    credentials it was handed. Then every session is of the account it was given to by
    a sign-in; before every sign-in a passkey of that very account had been enrolled;
    as many passkeys were enrolled for it as codes of its were redeemed, and as many
    redeemed as issued, at most; no account has more passkeys than it enrolled, and no
    two have a passkey of one ID; and the sessions stay within the limits, of all and
    of each account. *)
Theorem signin_sound b l1 l2 l3 l4 tr w : login_sound → accounts_ok b → web_run (starting b l1 l2 l3 l4) tr w →
  (∀ tok s, w_sessions w !! tok = Some s → In (s_Nick s) tok ∈ tr) ∧
  (∀ t1 n tok t2, tr = t1 ++ In n tok :: t2 → Enrolled n ∈ t1) ∧
  (∀ n, n ≠ [] → (times (Enrolled n) tr ≤ times (Redeemed n) tr ≤ times (Issued n) tr)%nat) ∧
  (∀ u, u ∈ users (w_board w) → (owned (w_tables w) u ≤ times (Enrolled (u_Nick u)) tr)%nat) ∧
  NoDup (CredentialID ∘ pk_Cred <$> passkeys (w_tables w)) ∧
  few_sessions (w_sessions w).
Proof.
  intros Hl Hb Hr. destruct (inv_run _ _ _ _ _ _ _ Hl Hb Hr) as [[I0 I1 I2 I3 I4 I5 I6 I7 I8 I9 I10] Hf].
  do 2 (split; [done|]). split; [|done]. intros n Hn. split; [specialize (I4 n Hn); lia|].
  destruct (decide (Redeemed n ∈ tr)) as [He|He]; [|rewrite times_none by done; lia].
  destruct (I1 _ He) as (u & Hu & E). cbn in E. subst n. specialize (I3 u Hu). lia.
Qed.
End runs.
