(* ===== verification/Doors.v ===== *)
(** * Doors and what they keep (internal/store/doors.go)

    The table of installed doors, the state each keeps under a quota, and who was told
    that a door acts for them. Durations are nanoseconds; the rows keep whole seconds.
    A door's arguments and environment pass through JSON, which keeps strings of valid
    UTF-8. *)

From stdpp Require Import strings.
From S2P Require Import Prelude Binary Identity Order Text GoStrings.
From S2P Require Import Records RecordLog Board.
From S2P Require Leagues.

(** SQLite's [length] of a text. *)
Definition sql_length : bytes → Z := Leagues.text_length false.

Record Door := mkDoor {
  dr_Name : bytes; dr_Path : bytes; dr_Args : list bytes; dr_Cwd : bytes; dr_EnvPassthrough : list bytes; dr_DropfileType : bytes;
  dr_MaxConcurrent : Z; dr_NodeLock : bool; dr_WallClock : Z; dr_CPULimit : Z; dr_MemLimit : Z;
  dr_RequiredCapability : bytes; dr_APILevel : Z;
  dr_AnnounceArea : bytes; dr_AnnouncePerHour : Z; dr_StateQuota : Z;
  dr_LeagueArea : bytes; dr_LeaguePerHour : Z;
  dr_Enabled : bool; dr_CreatedAt : Z
}.

Definition APISession : Z := 1.
Definition APIState : Z := 2.
Definition APIAnnounce : Z := 3.
Definition APIActAsUser : Z := 4.

Definition DropfileTypes : list bytes := [str "none"%string; str "door.sys"%string; str "door32.sys"%string; str "dorinfo1.def"%string].
Definition DoorAuthorPrefix : byte := Byte.x21.
Definition MaxAnnounceDoorNameLen : Z := 15.
Definition DoorAuthor (name : bytes) : bytes := DoorAuthorPrefix :: name.
Definition DoorNameFromAuthor (author : bytes) : option bytes :=
  match author with
  | c :: name => if bool_decide (c = DoorAuthorPrefix) && negb (bool_decide (name = [])) then Some name else None
  | [] => None
  end.

Definition ScopeUser : bytes := str "user"%string.
Definition ScopeGlobal : bytes := str "global"%string.
Definition MaxDoorStateKeyLen : Z := 64.
Definition MaxDoorStateValueLen : Z := 4096.

Inductive door_error :=
| ErrNoDoor (name : bytes) | ErrStateQuota (used quota : Z)
| DoorNameLength (name : bytes) | NoDoorPath | NoDoorCwd | APILevelRange (n : Z) | NoWallClock | UnknownDropfile (t : bytes)
| AnnouncerNameLength (name : bytes) | DoorCapability (c : bytes) | DoorRowRefused
| StateKeyLength | StateValueLength (n : Z) | StateRowRefused
| GlobalHasOwner (owner : bytes) | UserScopeOwner | UnknownScope (scope : bytes).

Definition MayAnnounce (d : Door) : bool := (APIAnnounce <=? dr_APILevel d) && negb (bool_decide (TrimSpace (dr_AnnounceArea d) = [])).
Definition MayEmitEvents (d : Door) : bool := (APIAnnounce <=? dr_APILevel d) && negb (bool_decide (TrimSpace (dr_LeagueArea d) = [])).

Definition door_validate (d : Door) : result door_error unit :=
  let n := TrimSpace (dr_Name d) in
  _ ← require (negb (bool_decide (n = [])) && (strlen n <=? 32)) (DoorNameLength (dr_Name d));
  _ ← require (negb (bool_decide (TrimSpace (dr_Path d) = []))) NoDoorPath;
  _ ← require (negb (bool_decide (TrimSpace (dr_Cwd d) = []))) NoDoorCwd;
  _ ← require ((APISession <=? dr_APILevel d) && (dr_APILevel d <=? APIActAsUser)) (APILevelRange (dr_APILevel d));
  _ ← require (0 <? dr_WallClock d) NoWallClock;
  _ ← require (bool_decide (dr_DropfileType d ∈ DropfileTypes)) (UnknownDropfile (dr_DropfileType d));
  _ ← require (negb (MayAnnounce d && (MaxAnnounceDoorNameLen <? strlen (dr_Name d)))) (AnnouncerNameLength (dr_Name d));
  require (bool_decide (dr_RequiredCapability d = []) || isKnownCapability (dr_RequiredCapability d)) (DoorCapability (dr_RequiredCapability d)).

(** ** The tables *)

(** State under the door, the scope, its owner and the key; the door and the owner are
    compared without regard to case. *)
Abbreviation state_key := (bytes * bytes * bytes * bytes)%type.
Record DoorTables := mkDoors { doors : list Door; door_state : gmap state_key bytes; door_notices : gset (bytes * bytes) }.
Definition no_doors : DoorTables := mkDoors [] ∅ ∅.
Definition with_state (m : gmap state_key bytes) (t : DoorTables) : DoorTables := mkDoors (doors t) m (door_notices t).

Definition is_door (name : bytes) (d : Door) : bool := bool_decide (nocase (dr_Name d) = nocase name).
Definition GetDoor (name : bytes) (t : DoorTables) : result door_error Door :=
  match List.find (is_door name) (doors t) with Some d => Ok d | None => Err (ErrNoDoor name) end.
Definition ListDoors (t : DoorTables) : list Door := sort_by (λ d, nocase (dr_Name d)) less_text (doors t).

(** [int64(d / time.Second)]. *)
Definition whole_seconds (d : Z) : Z := Z.quot d Leagues.Second.

(** What the table's checks ask beside what [validate] asked, of whole seconds. *)
Definition row_accepted (d : Door) : bool :=
  (1 <=? sql_length (dr_Name d)) && (sql_length (dr_Name d) <=? 32) && (0 <=? dr_MaxConcurrent d) && (0 <? whole_seconds (dr_WallClock d))
  && (0 <=? dr_AnnouncePerHour d) && (0 <=? dr_StateQuota d).

(** What is read back of a duration. *)
Definition stored_duration (d : Z) : Z := whole_seconds d * Leagues.Second.

(** A door replaced keeps its name as first spelled and its time of creation. *)
Definition replaced (d old : Door) : Door :=
  mkDoor (dr_Name old) (dr_Path d) (dr_Args d) (dr_Cwd d) (dr_EnvPassthrough d) (dr_DropfileType d)
    (dr_MaxConcurrent d) (dr_NodeLock d) (stored_duration (dr_WallClock d)) (stored_duration (dr_CPULimit d)) (dr_MemLimit d) (dr_RequiredCapability d) (dr_APILevel d)
    (dr_AnnounceArea d) (dr_AnnouncePerHour d) (dr_StateQuota d) (dr_LeagueArea d) (dr_LeaguePerHour d) (dr_Enabled d) (dr_CreatedAt old).
Definition created (now : Z) (d : Door) : Door :=
  mkDoor (dr_Name d) (dr_Path d) (dr_Args d) (dr_Cwd d) (dr_EnvPassthrough d) (dr_DropfileType d)
    (dr_MaxConcurrent d) (dr_NodeLock d) (stored_duration (dr_WallClock d)) (stored_duration (dr_CPULimit d)) (dr_MemLimit d) (dr_RequiredCapability d) (dr_APILevel d)
    (dr_AnnounceArea d) (dr_AnnouncePerHour d) (dr_StateQuota d) (dr_LeagueArea d) (dr_LeaguePerHour d) (dr_Enabled d)
    (if dr_CreatedAt d =? 0 then now else dr_CreatedAt d).

Definition level_text (n : Z) : bytes := str "api_level="%string ++ [z2b (0x30 + n)].

Definition PutDoor (now : Z) (d : Door) (actor : bytes) (b : Board) (t : DoorTables) : option door_error * Board * DoorTables :=
  match door_validate d with
  | Err e => (Some e, b, t)
  | Ok _ =>
      if negb (row_accepted d) then (Some DoorRowRefused, b, t)
      else
        let rows := if existsb (is_door (dr_Name d)) (doors t) then (λ old, if is_door (dr_Name d) old then replaced d old else old) <$> doors t
                    else doors t ++ [created now d] in
        let text := Text (level_text (dr_APILevel d)) in
        let b := if APIActAsUser <=? dr_APILevel d then Audit now actor (str "door.grant_act_as_user"%string) (dr_Name d) text b else b in
        (None, Audit now actor (str "door.save"%string) (dr_Name d) text b, mkDoors rows (door_state t) (door_notices t))
  end.

(** The state goes with the door; who was told stays. *)
Definition DeleteDoor (now : Z) (name actor : bytes) (b : Board) (t : DoorTables) : option door_error * Board * DoorTables :=
  if existsb (is_door name) (doors t) then
    (None, Audit now actor (str "door.delete"%string) name (Text []) b,
     mkDoors (filter (λ d, is_door name d = false) (doors t)) (filter (λ x : state_key * bytes, x.1.1.1.1 ≠ nocase name) (door_state t)) (door_notices t))
  else (Some (ErrNoDoor name), b, t).

(** ** State *)

Definition checkScope (scope owner : bytes) : result door_error unit :=
  if bool_decide (scope = ScopeGlobal) then require (bool_decide (owner = [])) (GlobalHasOwner owner)
  else if bool_decide (scope = ScopeUser) then require (negb (bool_decide (TrimSpace owner = []))) UserScopeOwner
  else Err (UnknownScope scope).

Definition key_of (door scope owner key : bytes) : state_key := (nocase door, scope, nocase owner, key).

Definition DoorStateGet (door scope owner key : bytes) (t : DoorTables) : result door_error (option bytes) :=
  _ ← checkScope scope owner;
  Ok (door_state t !! key_of door scope owner key).

(** What one entry counts for, and what a door uses. *)
Definition entry_size (key value : bytes) : Z := sql_length key + sql_length value.
Definition of_door (door : bytes) (m : gmap state_key bytes) : gmap state_key bytes := filter (λ x : state_key * bytes, x.1.1.1.1 = nocase door) m.
Definition DoorStateUsed (door : bytes) (t : DoorTables) : Z :=
  map_fold (λ (k : state_key) v n, entry_size k.2 v + n) 0 (of_door door (door_state t)).

Definition check_state (door scope owner key value : bytes) (quota : Z) (t : DoorTables) : result door_error unit :=
  _ ← checkScope scope owner;
  _ ← require (negb (bool_decide (TrimSpace key = [])) && (strlen key <=? MaxDoorStateKeyLen)) StateKeyLength;
  _ ← require (strlen value <=? MaxDoorStateValueLen) (StateValueLength (strlen value));
  let used := DoorStateUsed door t in
  let replacing := from_option (entry_size key) 0 (door_state t !! key_of door scope owner key) in
  _ ← require (negb ((0 <? quota) && (quota <? used - replacing + (strlen key + strlen value)))) (ErrStateQuota used quota);
  require ((1 <=? sql_length key) && (sql_length key <=? 64) && existsb (is_door door) (doors t)) StateRowRefused.

Definition DoorStateSet (door scope owner key value : bytes) (quota : Z) (t : DoorTables) : option door_error * DoorTables :=
  match check_state door scope owner key value quota t with
  | Err e => (Some e, t)
  | Ok _ => (None, with_state (<[key_of door scope owner key := value]> (door_state t)) t)
  end.

Definition DoorStateDelete (door scope owner key : bytes) (t : DoorTables) : option door_error * DoorTables :=
  match checkScope scope owner with
  | Err e => (Some e, t)
  | Ok _ => (None, with_state (delete (key_of door scope owner key) (door_state t)) t)
  end.

Definition DoorStateKeys (door scope owner : bytes) (t : DoorTables) : result door_error (list bytes) :=
  _ ← checkScope scope owner;
  Ok (sort_by (λ k, k) less_text ((λ x : state_key * bytes, x.1.2) <$> map_to_list (filter (λ x : state_key * bytes, x.1.1 = (nocase door, scope, nocase owner)) (door_state t)))).

(** True the first time it is asked for a door and a nick. *)
Definition DoorNoticeNeeded (door nick : bytes) (t : DoorTables) : bool * DoorTables :=
  let k := (nocase door, nocase nick) in
  if decide (k ∈ door_notices t) then (false, t) else (true, mkDoors (doors t) (door_state t) ({[k]} ∪ door_notices t)).
