(* ===== verification/DoorRun.v ===== *)
(** * Running doors (internal/door/door.go, limits.go, internal/sshd/doors.go, tui/doors.go)

    Who may run a door, what the door is launched with, the manager that holds how many
    run at once and how often each may announce or report, and when a run ends. The
    platform is a parameter: which paths are absolute and what they name, which limits it
    can apply, and how it compares the names of environment variables. The process is
    described by when it would end; the terminal is not modelled. Durations and times are
    nanoseconds, of one clock. *)

From stdpp Require Import strings relations.
From S2P Require Import Prelude Binary Identity Order Text GoStrings.
From S2P Require Import Board Doors.
From S2P Require Leagues.

Record Grant := mkGrant {
  g_Level : Z; g_AnnounceArea : bytes; g_AnnouncePerHour : Z; g_LeagueArea : bytes; g_LeaguePerHour : Z; g_StateQuota : Z
}.
Record Spec := mkSpec {
  s_Name : bytes; s_Path : bytes; s_Args : list bytes; s_Dir : bytes; s_Env : list bytes; s_Dropfile : bytes; s_Grant : Grant;
  s_MaxConcurrent : Z; s_NodeLock : bool; s_CPULimit : Z; s_MemLimit : Z; s_WallClock : Z
}.

(** The time left is asked for at a time. *)
Record Session := mkSession {
  ss_Nick : bytes; ss_RealName : bytes; ss_Node : Z; ss_Width : Z; ss_Height : Z; ss_Term : bytes; ss_ANSI : bool;
  ss_Encoding : bytes; ss_Sysop : bool; ss_Location : bytes; ss_BBSName : bytes; ss_SysopName : bytes;
  ss_TimeRemaining : option (Z → Z)
}.

(** What [os.Stat] finds: [Some true] for a directory. *)
Class Platform := {
  is_abs : bytes → bool; stat : bytes → option bool; cpu_supported : bool; mem_supported : bool;
  fold_env_key : bytes → bytes; base_env : list bytes; LookupEnv : bytes → option bytes
}.

(** ** Launching (sshd/doors.go, tui/doors.go) *)

Inductive refusal := GuestsMayNot | NoStore | NeedsCapability (capability : bytes) | CapabilityUnread (e : board_error).

Definition needs (nick : bytes) (b : Board) (capability : bytes) : result refusal unit :=
  if bool_decide (capability = []) then Ok tt
  else match HasCapability nick capability b with
       | Err e => Err (CapabilityUnread e)
       | Ok ok => require ok (NeedsCapability capability)
       end.

Definition mayRunDoor (guest has_store : bool) (nick : bytes) (d : Door) (b : Board) : result refusal unit :=
  _ ← require (negb guest) GuestsMayNot;
  _ ← require has_store NoStore;
  _ ← needs nick b CapRunDoors;
  needs nick b (dr_RequiredCapability d).

(** What the menu offers. *)
Definition offered (t : DoorTables) : list Door := filter (λ d, dr_Enabled d = true) (ListDoors t).

Section platform.
Context `{HP : Platform}.

Definition passthroughEnv (names : list bytes) : list bytes :=
  omap (λ n, (λ v, n ++ str "="%string ++ v) <$> LookupEnv n) names.

Definition specFor (d : Door) : Spec :=
  mkSpec (dr_Name d) (dr_Path d) (dr_Args d) (dr_Cwd d) (passthroughEnv (dr_EnvPassthrough d)) (dr_DropfileType d)
    (mkGrant (dr_APILevel d) (dr_AnnounceArea d) (dr_AnnouncePerHour d) (dr_LeagueArea d) (dr_LeaguePerHour d) (dr_StateQuota d))
    (dr_MaxConcurrent d) (dr_NodeLock d) (dr_CPULimit d) (dr_MemLimit d) (dr_WallClock d).

(** The session's own clock answers with the time left and whether there is a limit. *)
Definition sessionTimeRemaining (session : option (Z → Z * bool)) (wallClock : Z) (now : Z) : Z :=
  match session with
  | None => wallClock
  | Some remaining =>
      let '(rest, limited) := remaining now in
      if negb limited || (wallClock <? rest) then wallClock else rest
  end.

(** ** What a spec must be (door.go, limits.go) *)

Inductive run_error :=
| NeedsName | PathNotAbsolute (p : bytes) | PathMissing (p : bytes) | PathIsDirectory (p : bytes)
| DirNotAbsolute (p : bytes) | DirMissing (p : bytes) | NotADirectory (p : bytes) | NotKeyValue (kv : bytes) | NeedsWallClock
| Unsupported (cpu mem : bool) | ErrAtCapacity | ErrNodeBusy.

Definition has_equals (kv : bytes) : bool := bool_decide (Byte.x3d ∈ kv).

Definition validate (s : Spec) : result run_error unit :=
  _ ← require (negb (bool_decide (TrimSpace (s_Name s) = []))) NeedsName;
  _ ← require (is_abs (s_Path s)) (PathNotAbsolute (s_Path s));
  _ ← match stat (s_Path s) with None => Err (PathMissing (s_Path s)) | Some dir => require (negb dir) (PathIsDirectory (s_Path s)) end;
  _ ← require (is_abs (s_Dir s)) (DirNotAbsolute (s_Dir s));
  _ ← match stat (s_Dir s) with None => Err (DirMissing (s_Dir s)) | Some dir => require dir (NotADirectory (s_Dir s)) end;
  _ ← match List.find (λ kv, negb (has_equals kv)) (s_Env s) with Some kv => Err (NotKeyValue kv) | None => Ok tt end;
  require (0 <? s_WallClock s) NeedsWallClock.

Definition UnsupportedLimits (cpu mem : Z) : bool * bool := ((0 <? cpu) && negb cpu_supported, (0 <? mem) && negb mem_supported).
Definition checkLimits (s : Spec) : result run_error unit :=
  let '(cpu, mem) := UnsupportedLimits (s_CPULimit s) (s_MemLimit s) in require (negb (cpu || mem)) (Unsupported cpu mem).

(** ** The environment *)

(** The name before the first [=], if there is one. *)
Definition env_key (kv : bytes) : option bytes := if has_equals kv then Some (fold_env_key (Cut Byte.x3d kv).1.1) else None.

Fixpoint put_env (kv : bytes) (out : list bytes) : list bytes :=
  match out with
  | [] => [kv]
  | x :: out' => if bool_decide (env_key x = env_key kv) then kv :: out' else x :: put_env kv out'
  end.
Definition dedupEnv (env : list bytes) : list bytes :=
  foldl (λ out kv, match env_key kv with None => out ++ [kv] | Some _ => put_env kv out end) [] env.

Definition environ (s : Spec) (term : bytes) : list bytes :=
  dedupEnv (base_env ++ (if bool_decide (term = []) then [] else [str "TERM="%string ++ term]) ++ s_Env s).
End platform.

(** ** The manager *)

Record Manager := mkManager {
  running : gmap bytes Z; nodes : gset (bytes * Z); announces : gmap bytes (list Z); leagueEmits : gmap bytes (list Z)
}.
Definition NewManager : Manager := mkManager ∅ ∅ ∅ ∅.
Definition Running (name : bytes) (m : Manager) : Z := default 0 (running m !! name).
Definition with_slots (r : gmap bytes Z) (n : gset (bytes * Z)) (m : Manager) : Manager := mkManager r n (announces m) (leagueEmits m).

Definition reserve (s : Spec) (node : Z) (m : Manager) : result run_error Manager :=
  let key := (s_Name s, node) in
  _ ← require (negb ((0 <? s_MaxConcurrent s) && (s_MaxConcurrent s <=? Running (s_Name s) m))) ErrAtCapacity;
  _ ← require (negb (s_NodeLock s && bool_decide (key ∈ nodes m))) ErrNodeBusy;
  Ok (with_slots (<[s_Name s := Running (s_Name s) m + 1]> (running m)) (if s_NodeLock s then {[key]} ∪ nodes m else nodes m) m).

(** What [reserve] returns, called when the run is over. *)
Definition release (s : Spec) (node : Z) (m : Manager) : Manager :=
  let n := Running (s_Name s) m - 1 in
  with_slots (if n <=? 0 then delete (s_Name s) (running m) else <[s_Name s := n]> (running m))
    (if s_NodeLock s then nodes m ∖ {[(s_Name s, node)]} else nodes m) m.

Definition allowPerHour (now : Z) (buckets : gmap bytes (list Z)) (door : bytes) (perHour : Z) : bool * gmap bytes (list Z) :=
  if perHour <=? 0 then (false, buckets)
  else
    let kept := filter (λ t, now - Leagues.Hour < t) (default [] (buckets !! door)) in
    if perHour <=? Z.of_nat (length kept) then (false, <[door := kept]> buckets)
    else (true, <[door := kept ++ [now]]> buckets).

Definition allowAnnounce (now : Z) (door : bytes) (perHour : Z) (m : Manager) : bool * Manager :=
  let '(ok, b) := allowPerHour now (announces m) door perHour in (ok, mkManager (running m) (nodes m) b (leagueEmits m)).
Definition allowLeague (now : Z) (door : bytes) (perHour : Z) (m : Manager) : bool * Manager :=
  let '(ok, b) := allowPerHour now (leagueEmits m) door perHour in (ok, mkManager (running m) (nodes m) (announces m) b).

(** ** A run *)

Inductive Stop := StopExited | StopTimeLimit | StopSessionEnded.
Definition gracePeriod : Z := 5 * Leagues.Second.
Definition drainLimit : Z := 2 * Leagues.Second.

(** A process: when it would exit on its own, how long after it is asked to stop it
    exits, how long it takes to die when killed, and how long after it has stopped its
    output ends; [None] is never. *)
Record Process := mkProcess { exits : option Z; heeds : option Z; dies : Z; drains : option Z }.

Definition before (t : Z) (o : option Z) : Prop := match o with Some u => t ≤ u | None => True end.
Definition or_at (limit : Z) (o : option Z) : Z := match o with Some u => Z.min u limit | None => limit end.

(** How long halting takes. *)
Definition halt (p : Process) : Z :=
  match heeds p with
  | Some u => if u <=? gracePeriod then u else gracePeriod + dies p
  | None => gracePeriod + dies p
  end.

(** What ends a run first, and when the door has stopped; when two are ready at once,
    [select] takes either. Times count from the start of the run. *)
Inductive stopped (s : Spec) (hangup : option Z) (p : Process) : Stop → Z → Prop :=
| stop_exited t : exits p = Some t → t ≤ s_WallClock s → before t hangup → stopped s hangup p StopExited t
| stop_limit : before (s_WallClock s) (exits p) → before (s_WallClock s) hangup → stopped s hangup p StopTimeLimit (s_WallClock s + halt p)
| stop_hangup t : hangup = Some t → t ≤ s_WallClock s → before t (exits p) → stopped s hangup p StopSessionEnded (t + halt p).

(** The run returns once the output has ended or the wait for it has. *)
Definition Run_returns (s : Spec) (hangup : option Z) (p : Process) (why : Stop) (at_ : Z) : Prop :=
  ∃ t, stopped s hangup p why t ∧ at_ = t + or_at drainLimit (drains p).

(** ** The manager at work *)

(** The manager, the runs it let start and that are not over, and what it let through:
    who announced and reported, and when. *)
Record Hall := mkHall { mgr : Manager; live : list (Spec * Z); said : list (bytes * Z); reported : list (bytes * Z); clock : Z }.
Definition new_hall : Hall := mkHall NewManager [] [] [] 0.

Definition noted (ok : bool) (door : bytes) (now : Z) (l : list (bytes * Z)) : list (bytes * Z) := if ok then l ++ [(door, now)] else l.
Definition times (door : bytes) (l : list (bytes * Z)) : list Z := snd <$> filter (λ x : bytes * Z, x.1 = door) l.
Definition in_hour (t : Z) (ts : list Z) : Z := Z.of_nat (length (filter (λ a, t - Leagues.Hour < a ∧ a ≤ t) ts)).
Definition runs_of (name : bytes) (l : list (Spec * Z)) : list (Spec * Z) := filter (λ x : Spec * Z, s_Name x.1 = name) l.
Definition locked (name : bytes) (node : Z) (l : list (Spec * Z)) : list (Spec * Z) :=
  filter (λ x : Spec * Z, s_NodeLock x.1 = true ∧ (s_Name x.1, x.2) = (name, node)) l.

(** *** Slots *)

Section slots.
Variable cap : bytes → Z.

Definition slots_ok (m : Manager) (l : list (Spec * Z)) : Prop :=
  (∀ name, Running name m = Z.of_nat (length (runs_of name l))) ∧
  (∀ name node, ((name, node) ∈ nodes m ↔ locked name node l ≠ []) ∧ (length (locked name node l) ≤ 1)%nat) ∧
  (∀ name, 0 < cap name → Z.of_nat (length (runs_of name l)) ≤ cap name).

Lemma Running_insert name v m r n : Running name (with_slots (<[v := n]> (running m)) r m) = if decide (v = name) then n else Running name m.
Proof. unfold Running. cbn. destruct (decide (v = name)) as [->|]; [by rewrite lookup_insert_eq|by rewrite lookup_insert_ne]. Qed.

Lemma runs_of_cons name x l : runs_of name (x :: l) = (if decide (s_Name x.1 = name) then [x] else []) ++ runs_of name l.
Proof. unfold runs_of. rewrite filter_cons. by destruct (decide _). Qed.
Lemma locked_cons name node x l :
  locked name node (x :: l) = (if decide (s_NodeLock x.1 = true ∧ (s_Name x.1, x.2) = (name, node)) then [x] else []) ++ locked name node l.
Proof. unfold locked. rewrite filter_cons. by destruct (decide _). Qed.

Lemma reserve_Ok s node m m' : reserve s node m = Ok m' ↔
  ¬ (0 < s_MaxConcurrent s ∧ s_MaxConcurrent s ≤ Running (s_Name s) m) ∧ ¬ (s_NodeLock s = true ∧ (s_Name s, node) ∈ nodes m) ∧
  m' = with_slots (<[s_Name s := Running (s_Name s) m + 1]> (running m)) (if s_NodeLock s then {[(s_Name s, node)]} ∪ nodes m else nodes m) m.
Proof.
  unfold reserve. rewrite !bind_unit_Ok, !require_Ok, !negb_true_iff, Ok_inj, <- !not_true_iff_false, !andb_true_iff, Z.ltb_lt, Z.leb_le, bool_decide_eq_true. naive_solver.
Qed.

Lemma slots_start s node m m' l : s_MaxConcurrent s = cap (s_Name s) → reserve s node m = Ok m' → slots_ok m l → slots_ok m' ((s, node) :: l).
Proof.
  intros Hcap (Hc & Hn & ->)%reserve_Ok (Hr & Hl & Hb). split_and!.
  - intros name. rewrite Running_insert, runs_of_cons, length_app. cbn [fst]. destruct (decide (s_Name s = name)) as [<-|]; cbn; rewrite Hr; lia.
  - intros name k. rewrite locked_cons. cbn [fst snd]. destruct (Hl name k) as [Hin Hle]. cbn [nodes with_slots].
    destruct (decide (s_NodeLock s = true ∧ (s_Name s, node) = (name, k))) as [[Hlk Heq]|Hno]; cbn [app].
    + rewrite Hlk, Heq in *. split; [split; [done|set_solver]|].
      destruct (locked name k l) eqn:E; [cbn; lia|]. exfalso. apply Hn. split; [done|]. apply Hin. done.
    + split; [|done]. rewrite <- Hin. destruct (s_NodeLock s); [|done]. split; [|set_solver]. intros [He%elem_of_singleton|?]%elem_of_union; [|done]. by destruct Hno.
  - intros name Hpos. rewrite runs_of_cons, length_app. cbn [fst]. specialize (Hb name Hpos). destruct (decide (s_Name s = name)) as [<-|]; cbn; [|lia].
    rewrite Hcap, Hr in Hc. lia.
Qed.

Lemma slots_finish s node m l1 l2 : slots_ok m (l1 ++ (s, node) :: l2) → slots_ok (release s node m) (l1 ++ l2).
Proof.
  intros (Hr & Hl & Hb).
  assert (Hruns : ∀ name, Z.of_nat (length (runs_of name (l1 ++ (s, node) :: l2))) = Z.of_nat (length (runs_of name (l1 ++ l2))) + if decide (s_Name s = name) then 1 else 0).
  { intros name. unfold runs_of. rewrite !filter_app, filter_cons, !length_app. cbn [fst]. destruct (decide _); cbn; lia. }
  assert (Hlock : ∀ name k, length (locked name k (l1 ++ (s, node) :: l2)) = (length (locked name k (l1 ++ l2)) + if decide (s_NodeLock s = true ∧ (s_Name s, node) = (name, k)) then 1 else 0)%nat).
  { intros name k. unfold locked. rewrite !filter_app, filter_cons, !length_app. cbn [fst snd]. destruct (decide _); cbn; lia. }
  split_and!.
  - intros name. unfold release. specialize (Hr name) as Hn. specialize (Hr (s_Name s)). rewrite Hruns in Hn, Hr. rewrite decide_True in Hr by done.
    destruct (decide (s_Name s = name)) as [<-|Hne].
    + destruct (Z.leb_spec (Running (s_Name s) m - 1) 0); [unfold Running; cbn; rewrite lookup_delete_eq; cbn; lia|].
      rewrite Running_insert, decide_True by done. lia.
    + rewrite Z.add_0_r in Hn. rewrite <- Hn. unfold Running. cbn. destruct (_ <=? 0); by rewrite ?lookup_delete_ne, ?lookup_insert_ne by done.
  - intros name k. destruct (Hl name k) as [Hin Hle]. rewrite Hlock in Hle. split; [|lia].
    assert (Hnil : ∀ x, locked name k x ≠ [] ↔ length (locked name k x) ≠ 0%nat) by (intros x; by destruct (locked name k x)).
    rewrite Hnil in *. rewrite Hlock in Hin. unfold release. cbn [nodes with_slots].
    destruct (decide (s_NodeLock s = true ∧ (s_Name s, node) = (name, k))) as [[Hlk Heq]|Hno]; [rewrite Hlk, Heq; set_unfold; split; [tauto|lia]|].
    rewrite Nat.add_0_r in Hin. rewrite <- Hin. destruct (s_NodeLock s); [|done]. set_unfold. split; [tauto|]. intros. split; [done|]. intros He. by destruct Hno.
  - intros name Hpos. specialize (Hb name Hpos). rewrite Hruns in Hb. case_decide; lia.
Qed.
End slots.

(** *** Hours *)

Definition bucket_ok (now limit : Z) (ts bucket : list Z) : Prop :=
  (∃ cut, cut ≤ now - Leagues.Hour ∧ bucket = filter (λ t, cut < t) ts) ∧ Forall (λ t, t ≤ now) ts ∧ ∀ t, in_hour t ts ≤ Z.max 0 limit.

Lemma bucket_later now now' limit ts bucket : now ≤ now' → bucket_ok now limit ts bucket → bucket_ok now' limit ts bucket.
Proof. intros Hle ((cut & Hcut & ->) & Hts & Hw). split_and!; [exists cut; split; [lia|done]| |done]. eapply Forall_impl; [exact Hts|]. cbn. lia. Qed.

Lemma kept_is now limit ts bucket : bucket_ok now limit ts bucket → ∀ now', now ≤ now' →
  filter (λ t, now' - Leagues.Hour < t) bucket = filter (λ t, now' - Leagues.Hour < t) ts ∧
  Z.of_nat (length (filter (λ t, now' - Leagues.Hour < t) bucket)) = in_hour now' ts.
Proof.
  intros ((cut & Hcut & ->) & Hts & _) now' Hle.
  assert (E : filter (λ t, now' - Leagues.Hour < t) (filter (λ t, cut < t) ts) = filter (λ t, now' - Leagues.Hour < t) ts).
  { rewrite list_filter_filter. apply list_filter_iff. intros t. lia. }
  split; [exact E|]. rewrite E. unfold in_hour. do 2 f_equal. revert Hts. clear -Hle. intros Hts. induction Hts as [|t ts Ht _ IH]; [done|].
  rewrite !filter_cons, IH. destruct (decide (now' - Leagues.Hour < t)); [rewrite decide_True by lia|rewrite decide_False by lia]; done.
Qed.

(** A door is let through exactly when it has not used up the hour before. *)
Lemma allowPerHour_spec now0 now buckets door perHour ts : now0 ≤ now → bucket_ok now0 perHour ts (default [] (buckets !! door)) →
  let '(ok, b) := allowPerHour now buckets door perHour in
  (ok = true ↔ 0 < perHour ∧ in_hour now ts < perHour) ∧ (∀ d, d ≠ door → b !! d = buckets !! d) ∧
  bucket_ok now perHour (if ok then ts ++ [now] else ts) (default [] (b !! door)).
Proof.
  intros Hle Hb. pose proof (bucket_later _ _ _ _ _ Hle Hb) as Hb'. pose proof (kept_is _ _ _ _ Hb now Hle) as [Hk Hlen]. unfold allowPerHour.
  destruct (Z.leb_spec perHour 0) as [Hp|Hp]; [split; [split; [done|lia]|done]|]. cbv zeta. rewrite Hlen.
  destruct Hb' as (_ & Hts & Hw). destruct (Z.leb_spec perHour (in_hour now ts)) as [Hfull|Hroom].
  - split; [split; [done|lia]|]. split; [intros; by rewrite lookup_insert_ne|]. rewrite lookup_insert_eq. split_and!; [|done|done]. exists (now - Leagues.Hour). by rewrite Hk.
  - split; [done|]. split; [intros; by rewrite lookup_insert_ne|]. rewrite lookup_insert_eq. cbn [default from_option]. split_and!.
    + exists (now - Leagues.Hour). split; [lia|]. rewrite Hk, filter_app, filter_cons, decide_True by (unfold Leagues.Hour, Leagues.Minute, Leagues.Second; lia). done.
    + apply Forall_app. split; [done|by constructor].
    + intros t. specialize (Hw t). unfold in_hour in *. rewrite filter_app, length_app, filter_cons. destruct (decide _) as [Ht|]; [|cbn; lia].
      assert (Hsub : (length (filter (λ a, t - Leagues.Hour < a ∧ a ≤ t)%Z ts) ≤ length (filter (λ a, now - Leagues.Hour < a ∧ a ≤ now)%Z ts))%nat).
      { clear -Ht Hts. induction Hts as [|a ts Ha _ IH]; [done|]. rewrite !filter_cons. destruct (decide (t - Leagues.Hour < a ∧ a ≤ t)); [rewrite decide_True by lia; cbn; lia|]. case_decide; cbn; lia. }
      cbn. lia.
Qed.

Definition hours_ok (now : Z) (limit : bytes → Z) (l : list (bytes * Z)) (buckets : gmap bytes (list Z)) : Prop :=
  ∀ door, bucket_ok now (limit door) (times door l) (default [] (buckets !! door)).

Lemma times_noted ok door now l d : times d (noted ok door now l) = times d l ++ if decide (ok = true ∧ door = d) then [now] else [].
Proof.
  unfold times, noted. destruct ok; [|rewrite decide_False by (by intros [? _]); by rewrite app_nil_r].
  rewrite filter_app, fmap_app, filter_cons. cbn [fst]. destruct (decide (door = d)); [rewrite decide_True by done|rewrite decide_False by naive_solver]; done.
Qed.

Lemma hours_next now0 now limit l buckets door : now0 ≤ now → hours_ok now0 limit l buckets →
  let '(ok, b) := allowPerHour now buckets door (limit door) in hours_ok now limit (noted ok door now l) b.
Proof.
  intros Hle Hh. pose proof (allowPerHour_spec now0 now buckets door (limit door) (times door l) Hle (Hh door)) as Hs.
  destruct (allowPerHour _ _ _ _) as [ok b]. destruct Hs as (_ & Hne & Hb). intros d. rewrite times_noted. destruct (decide (door = d)) as [<-|Hd].
  - destruct ok; [by rewrite decide_True|]. rewrite decide_False by (by intros [? _]). by rewrite app_nil_r.
  - rewrite decide_False by (by intros [_ ?]). rewrite app_nil_r, (Hne d) by done. by eapply bucket_later.
Qed.

(** *** Histories *)

Section hall.
(** What each door's row says. *)
Variables cap announce_limit report_limit : bytes → Z.

Inductive hall_step : Hall → Hall → Prop :=
| hall_start h s node m : s_MaxConcurrent s = cap (s_Name s) → reserve s node (mgr h) = Ok m →
    hall_step h (mkHall m ((s, node) :: live h) (said h) (reported h) (clock h))
| hall_finish h l1 s node l2 : live h = l1 ++ (s, node) :: l2 →
    hall_step h (mkHall (release s node (mgr h)) (l1 ++ l2) (said h) (reported h) (clock h))
| hall_announce h now door : clock h ≤ now →
    let x := allowAnnounce now door (announce_limit door) (mgr h) in
    hall_step h (mkHall x.2 (live h) (noted x.1 door now (said h)) (reported h) now)
| hall_report h now door : clock h ≤ now →
    let x := allowLeague now door (report_limit door) (mgr h) in
    hall_step h (mkHall x.2 (live h) (said h) (noted x.1 door now (reported h)) now).

Definition hall_ok (h : Hall) : Prop :=
  slots_ok cap (mgr h) (live h) ∧ hours_ok (clock h) announce_limit (said h) (announces (mgr h)) ∧
  hours_ok (clock h) report_limit (reported h) (leagueEmits (mgr h)).

Lemma hours_later now now' limit l buckets : now ≤ now' → hours_ok now limit l buckets → hours_ok now' limit l buckets.
Proof. intros Hle H door. by eapply bucket_later. Qed.

Lemma hall_step_ok h h' : hall_step h h' → hall_ok h → hall_ok h'.
Proof.
  intros Hs (Hsl & Ha & Hr). destruct Hs as [h s node m Hcap Hres|h l1 s node l2 El|h now door Hle x|h now door Hle x].
  - pose proof (slots_start _ _ _ _ _ _ Hcap Hres Hsl). apply reserve_Ok in Hres as (_ & _ & ->). by split_and!.
  - rewrite El in Hsl. split_and!; [by apply slots_finish|done|done].
  - subst x. unfold allowAnnounce. pose proof (hours_next _ now _ _ _ door Hle Ha) as H. destruct (allowPerHour _ _ _ _) as [ok b]. split_and!; [done|exact H|by eapply hours_later].
  - subst x. unfold allowLeague. pose proof (hours_next _ now _ _ _ door Hle Hr) as H. destruct (allowPerHour _ _ _ _) as [ok b]. split_and!; [done|by eapply hours_later|exact H].
Qed.

Lemma new_hall_ok : hall_ok new_hall.
Proof.
  assert (Hh : ∀ limit, hours_ok 0 limit [] ∅).
  { intros limit door. unfold times, bucket_ok. cbn. split_and!; [exists (- Leagues.Hour); by split|done|]. intros t. unfold in_hour. cbn. lia. }
  split_and!; [|apply Hh|apply Hh]. split_and!; cbn; [done| |intros; lia]. intros name node. split; [|cbn; lia]. split; [by intros ?%not_elem_of_empty|done].
Qed.

Lemma reachable_hall_ok h : rtc hall_step new_hall h → hall_ok h.
Proof. intros Hs. pose proof new_hall_ok as H. revert H. induction Hs; eauto using hall_step_ok. Qed.

(** C22: the limits that span runs hold in every history of runs starting and ending and
    of doors announcing and reporting. A door never runs in more copies than its row
    allows, and never twice on one node when it is locked to it; what the manager counts
    is what runs, so a run is refused only when a slot is really taken and every slot
    comes back. In no hour does a door announce, or report, more often than its row
    allows, and it is refused only when the last hour is used up. *)
Theorem manager_limits h :
  rtc hall_step new_hall h →
  (∀ name, Running name (mgr h) = Z.of_nat (length (runs_of name (live h))) ∧
     (0 < cap name → Z.of_nat (length (runs_of name (live h))) ≤ cap name) ∧
     ∀ node, (length (locked name node (live h)) ≤ 1)%nat) ∧
  (∀ s node, is_ok (reserve s node (mgr h)) = true ↔
     ¬ (0 < s_MaxConcurrent s ≤ Z.of_nat (length (runs_of (s_Name s) (live h)))) ∧ ¬ (s_NodeLock s = true ∧ locked (s_Name s) node (live h) ≠ [])) ∧
  (∀ door t, in_hour t (times door (said h)) ≤ Z.max 0 (announce_limit door) ∧ in_hour t (times door (reported h)) ≤ Z.max 0 (report_limit door)) ∧
  (∀ door now, clock h ≤ now →
     ((allowAnnounce now door (announce_limit door) (mgr h)).1 = true ↔ in_hour now (times door (said h)) < announce_limit door) ∧
     ((allowLeague now door (report_limit door) (mgr h)).1 = true ↔ in_hour now (times door (reported h)) < report_limit door)).
Proof.
  intros Hs. destruct (reachable_hall_ok h Hs) as ((Hr & Hl & Hb) & Ha & Hp). split_and!.
  - intros name. split_and!; [done|auto|]. intros node. apply Hl.
  - intros s node. rewrite <- Hr, <- (proj1 (Hl (s_Name s) node)). split; [destruct (reserve s node (mgr h)) as [m|] eqn:E; [|done]; intros _; apply reserve_Ok in E as (H1 & H2 & _); split; [lia|done]|].
    intros [H1 H2]. assert (E : ∃ m, reserve s node (mgr h) = Ok m); [|by destruct E as [m ->]]. eexists. apply reserve_Ok. split_and!; [lia|done|done].
  - intros door t. split; [apply Ha|apply Hp].
  - intros door now Hle. unfold allowAnnounce, allowLeague. split.
    + pose proof (allowPerHour_spec _ now _ door _ _ Hle (Ha door)) as H. destruct (allowPerHour _ _ _ _) as [ok b]. destruct H as (-> & _). unfold in_hour. lia.
    + pose proof (allowPerHour_spec _ now _ door _ _ Hle (Hp door)) as H. destruct (allowPerHour _ _ _ _) as [ok b]. destruct H as (-> & _). unfold in_hour. lia.
Qed.
End hall.

(** ** The environment and the end of a run *)

Section platform_facts.
Context `{HP : Platform}.

(** What a variable is set to: by the last entry that sets it. *)
Definition settings (k : bytes) (env : list bytes) : list bytes := filter (λ kv, env_key kv = Some k) env.

Lemma put_env_settings kv k out c : env_key kv = Some c → (length (settings c out) ≤ 1)%nat →
  settings k (put_env kv out) = if decide (c = k) then [kv] else settings k out.
Proof.
  intros Hc. induction out as [|x out IH]; intros Hle; unfold settings in *; cbn [put_env].
  - rewrite filter_cons, filter_nil, Hc. destruct (decide (c = k)) as [->|]; [by rewrite decide_True|by rewrite decide_False by naive_solver].
  - rewrite filter_cons in Hle. rewrite bool_decide_decide, Hc. destruct (decide (env_key x = Some c)) as [Hx|Hx].
    + rewrite !filter_cons, Hc, Hx. destruct (decide (c = k)) as [->|]; [|by rewrite !decide_False by naive_solver]. rewrite decide_True by done.
      cbn in Hle. destruct (filter _ out); [done|cbn in Hle; lia].
    + rewrite !filter_cons, IH by done. destruct (decide (c = k)) as [->|]; [by rewrite decide_False by naive_solver|done].
Qed.

(** Every variable is set once, to what set it last. *)
Lemma dedupEnv_last env k : settings k (dedupEnv env) = option_list (last (settings k env)).
Proof.
  unfold dedupEnv. assert (H : ∀ out pre, (∀ k, settings k out = option_list (last (settings k pre))) →
    ∀ k, settings k (foldl (λ out kv, match env_key kv with None => out ++ [kv] | Some _ => put_env kv out end) out env) = option_list (last (settings k (pre ++ env)))); [|by apply (H [] [])].
  induction env as [|kv env IH]; intros out pre Hpre k'; [by rewrite app_nil_r|]. cbn [foldl]. replace (pre ++ kv :: env) with ((pre ++ [kv]) ++ env) by (by rewrite <- app_assoc). apply IH. clear k' IH.
  intros k'. assert (E : settings k' (pre ++ [kv]) = settings k' pre ++ if decide (env_key kv = Some k') then [kv] else []).
  { unfold settings. by rewrite filter_app, filter_cons, filter_nil. }
  rewrite E. destruct (env_key kv) as [c|] eqn:Hc.
  - rewrite (put_env_settings kv k' out c Hc) by (rewrite Hpre; destruct (last (settings c pre)); cbn; lia).
    destruct (decide (c = k')) as [->|]; [rewrite decide_True by done; by rewrite last_snoc|rewrite decide_False by naive_solver; by rewrite app_nil_r].
  - rewrite decide_False by done. rewrite app_nil_r, <- Hpre. unfold settings. rewrite filter_app, filter_cons, Hc, decide_False by done. by rewrite filter_nil, app_nil_r.
Qed.

(** A door of a session without a limit is told the whole of its own at any time, how
    long it has run being left out; otherwise never more than either. *)
Lemma sessionTimeRemaining_spec session wallClock now :
  sessionTimeRemaining session wallClock now ≤ wallClock ∧
  (session = None → sessionTimeRemaining session wallClock now = wallClock) ∧
  (∀ f t, session = Some f → f now = (t, true) → sessionTimeRemaining session wallClock now = Z.min t wallClock).
Proof.
  unfold sessionTimeRemaining. destruct session as [f|]; [|split_and!; done || lia].
  destruct (f now) as [t limited] eqn:E. destruct limited, (Z.ltb_spec wallClock t); cbn [negb orb]; split_and!; try done; try lia; intros g t' [= <-]; rewrite E; naive_solver lia.
Qed.
End platform_facts.

(** A run always ends, within its limit and the seconds that stopping it takes, and
    within those seconds of the user hanging up. *)
Lemma Run_ends s hangup p :
  0 < s_WallClock s → 0 ≤ dies p → (∀ t, heeds p = Some t → 0 ≤ t) →
  (∃ why t, Run_returns s hangup p why t) ∧
  ∀ why t, Run_returns s hangup p why t →
    t ≤ s_WallClock s + gracePeriod + dies p + drainLimit ∧
    (∀ u, hangup = Some u → t ≤ u + gracePeriod + dies p + drainLimit).
Proof.
  intros Hw Hd Hh. assert (Hhalt : 0 ≤ halt p ≤ gracePeriod + dies p).
  { unfold halt, gracePeriod, Leagues.Second in *. destruct (heeds p) as [u|]; [|lia]. specialize (Hh u eq_refl). destruct (Z.leb_spec u (5 * 1000000000)); lia. }
  assert (Hor : or_at drainLimit (drains p) ≤ drainLimit) by (unfold or_at; destruct (drains p); lia).
  unfold Run_returns. split.
  - destruct (exits p) as [e|] eqn:He, hangup as [u|].
    all: try (destruct (Z.le_gt_cases e (s_WallClock s))). all: try (destruct (Z.le_gt_cases u (s_WallClock s))). all: try (destruct (Z.le_gt_cases e u)).
    all: first [ by (eexists StopExited, _, e; split; [|done]; constructor; cbn; done || lia)
               | by (eexists StopTimeLimit, _, _; split; [|done]; constructor; rewrite ?He; cbn; done || lia)
               | by (eexists StopSessionEnded, _, _; split; [|done]; constructor; rewrite ?He; cbn; done || lia) ].
  - intros why t (t' & Hs & ->). unfold gracePeriod, Leagues.Second in *. split.
    + destruct Hs; lia.
    + intros u ->. destruct Hs as [t He Hle Hb|He Hb|t [= <-] Hle He]; cbn in *; lia.
Qed.
