(* ===== verification/Dropfile.v ===== *)
(** * Dropfiles (internal/door/dropfile.go)

    The plain text files that tell an old door who is calling: the fields of each format,
    what is made of the values that people type, and the lines a door reads back. A path
    is taken apart as on Unix. *)

From Stdlib Require Import DecimalString DecimalZ.
From stdpp Require Import strings.
From S2P Require Import Prelude Binary Identity Order Text GoStrings.
From S2P Require Import Doors DoorRun.

(** ** strconv *)

Definition Itoa (n : Z) : bytes := str (NilZero.string_of_int (Z.to_int n)).

(** ** Fields *)

Definition CR : byte := Byte.x0d.
Definition LF : byte := Byte.x0a.
Definition blank_rune (r : Z) : bool := (r =? 0x0a) || (r =? 0x0d) || (r =? 0x09) || (r =? 0x20).

(** What is written so far, and whether a space is due. *)
Definition sanitize_rune (x : bytes * bool) (r : Z) : bytes * bool :=
  let '(out, space) := x in
  if blank_rune r then (out, true)
  else if (r <? 0x20) || (r =? 0x7f) then (out, space)
  else ((if space && negb (bool_decide (out = [])) then out ++ [Byte.x20] else out) ++ write_rune r, false).
Definition sanitizeField (v : bytes) : bytes := (foldl sanitize_rune ([], false) ((λ x : Z * Z * bool, x.1.2) <$> runes v)).1.

Definition levelGuest : Z := 10.
Definition levelUser : Z := 50.
Definition levelSysop : Z := 100.
Definition unknownDate : bytes := str "01/01/00"%string.

Definition securityLevel (s : Session) : Z :=
  if ss_Sysop s then levelSysop else if bool_decide (ss_Nick s = []) then levelGuest else levelUser.

(** [int(d.Minutes())]: toward zero. *)
Definition noLimit : Z := 32000.
Definition minutesLeft (now : Z) (s : Session) : Z :=
  match ss_TimeRemaining s with
  | None => noLimit
  | Some f => Z.min (Z.max (Z.quot (f now) Leagues.Minute) 0) noLimit
  end.

Definition firstLast (name : bytes) : bytes * bytes :=
  let name := sanitizeField name in
  let '(first, rest, ok) := Cut Byte.x20 name in
  if ok then (first, TrimSpace rest) else (name, []).

Definition graphicsFlag (ansi : bool) (yes no : bytes) : bytes := if ansi then yes else no.

(** ** The formats *)

Definition full_name (s : Session) : bytes :=
  let name := sanitizeField (ss_RealName s) in if bool_decide (name = []) then sanitizeField (ss_Nick s) else name.

Section formats.
Local Abbreviation L x := (str x%string) (only parsing).

Definition doorSys (now : Z) (spec : Spec) (s : Session) : list bytes :=
  let mins := minutesLeft now s in
  [ L "COM0:"; L "0"; L "8"; Itoa (ss_Node s); L "0"; L "Y"; L "N"; L "Y"; L "Y"; full_name s;
    sanitizeField (ss_Location s); []; []; []; Itoa (securityLevel s); L "1"; unknownDate; Itoa (mins * 60); Itoa mins; graphicsFlag (ss_ANSI s) (L "GR") (L "NG");
    Itoa (Z.max (ss_Height s) 24); L "N"; []; []; unknownDate; L "1"; L "Z"; L "0"; L "0"; L "0";
    L "0"; unknownDate; sanitizeField (s_Dir spec); sanitizeField (s_Dir spec); sanitizeField (ss_SysopName s); sanitizeField (ss_Nick s); L "00:00"; L "Y"; graphicsFlag (ss_ANSI s) (L "Y") (L "N"); L "N";
    L "7"; Itoa mins; unknownDate; L "00:00"; L "00:00"; L "0"; L "0"; L "0"; L "0"; [];
    L "0"; L "0" ].

Definition door32Sys (now : Z) (s : Session) : list bytes :=
  [ L "0"; L "0"; L "0"; sanitizeField (ss_BBSName s); L "1"; full_name s; sanitizeField (ss_Nick s); Itoa (securityLevel s);
    Itoa (minutesLeft now s); if ss_ANSI s then L "1" else L "0"; Itoa (ss_Node s) ].

Definition dorinfo1 (now : Z) (s : Session) : list bytes :=
  let '(sysopFirst, sysopLast) := firstLast (ss_SysopName s) in
  let '(userFirst, userLast) := firstLast (ss_RealName s) in
  let userFirst := if bool_decide (userFirst = []) then sanitizeField (ss_Nick s) else userFirst in
  [ sanitizeField (ss_BBSName s); sysopFirst; sysopLast; L "COM0"; L "0 BAUD,N,8,1"; L "0"; userFirst; userLast; sanitizeField (ss_Location s);
    graphicsFlag (ss_ANSI s) (L "1") (L "0"); Itoa (securityLevel s); Itoa (minutesLeft now s); L "-1" ].
End formats.

Definition DropfileDoorSys : bytes := str "door.sys"%string.
Definition DropfileDoor32 : bytes := str "door32.sys"%string.
Definition DropfileDorinfo1 : bytes := str "dorinfo1.def"%string.

(** The fields, and [lines]: each with its end. *)
Definition dropfile_fields (now : Z) (spec : Spec) (s : Session) : option (list bytes) :=
  if bool_decide (s_Dropfile spec = DropfileDoorSys) then Some (doorSys now spec s)
  else if bool_decide (s_Dropfile spec = DropfileDoor32) then Some (door32Sys now s)
  else if bool_decide (s_Dropfile spec = DropfileDorinfo1) then Some (dorinfo1 now s)
  else None.
Definition lines (fields : list bytes) : bytes := fields ≫= λ f, f ++ [CR; LF].
Definition dropfileBody (now : Z) (spec : Spec) (s : Session) : option bytes := lines <$> dropfile_fields now spec s.

Definition dropfileName (format : bytes) : bytes :=
  if bool_decide (format = DropfileDoorSys) then str "DOOR.SYS"%string
  else if bool_decide (format = DropfileDoor32) then str "DOOR32.SYS"%string
  else if bool_decide (format = DropfileDorinfo1) then str "DORINFO1.DEF"%string
  else [].
Definition dropfileLineCount (format : bytes) : Z :=
  if bool_decide (format = DropfileDoorSys) then 52
  else if bool_decide (format = DropfileDoor32) then 11
  else if bool_decide (format = DropfileDorinfo1) then 13
  else 0.

(** ** Telling the door where it is *)

(** [strings.ReplaceAll] of a token, which is not empty. *)
Fixpoint ReplaceAll (fuel : nat) (old new s : bytes) : bytes :=
  match fuel, s with
  | S fuel', c :: s' => if bool_decide (take (length old) s = old) then new ++ ReplaceAll fuel' old new (drop (length old) s) else c :: ReplaceAll fuel' old new s'
  | _, _ => s
  end.

(** The directory of a path below one, [filepath.Join(dir, name)]. *)
Definition expandDropfileTokens (args : list bytes) (dir path : bytes) : list bytes :=
  if bool_decide (path = []) then args
  else (λ a, let a := ReplaceAll (length a) (str "{dropfile}"%string) path a in
             ReplaceAll (length a) (str "{dropfile_dir}"%string) dir a) <$> args.
Definition dropfileEnv (dir path : bytes) : list bytes :=
  if bool_decide (path = []) then []
  else [str "MESHBBS_DROPFILE="%string ++ path; str "MESHBBS_DROPFILE_DIR="%string ++ dir].

(** ** What a door reads *)

(** Lines as a door reads them: up to a line feed, without the carriage return. *)
Fixpoint read_lines (cur : bytes) (s : bytes) : list bytes :=
  match s with
  | [] => match cur with [] => [] | _ => [cur] end
  | c :: s' =>
      if bool_decide (c = LF) then (if bool_decide (last cur = Some CR) then removelast cur else cur) :: read_lines [] s'
      else read_lines (cur ++ [c]) s'
  end.

(** ** Lemmas *)

(** Neither a control character nor DEL. *)
Definition clean (c : byte) : Prop := 0x20 ≤ b2z c ∧ b2z c ≠ 0x7f.

Lemma high_bit z : Z.testbit z 7 = true → clean (z2b z).
Proof.
  intros H. unfold clean. rewrite b2z_z2b. assert (0x80 ≤ z mod 256); [|lia].
  destruct (Z.lt_ge_cases (z mod 256) 128) as [Hlt|]; [|done]. exfalso.
  assert (Ht : Z.testbit (z mod 256) 7 = true) by (change 256 with (2 ^ 8); by rewrite Z.mod_pow2_bits_low).
  assert (Hf : Z.testbit (z mod 256) 7 = false); [|congruence]. rewrite <- (Z.mod_small (z mod 256) (2 ^ 7)); [by apply Z.mod_pow2_bits_high|].
  pose proof (Z.mod_pos_bound z 256). change (2 ^ 7) with 128. lia.
Qed.

Lemma write_rune_clean r : 0x20 ≤ r → r ≠ 0x7f → Forall clean (write_rune r).
Proof.
  intros Hlo Hne. unfold write_rune. set (r' := if _ : bool then RuneError else r).
  assert (Hr : 0x20 ≤ r' ∧ r' ≠ 0x7f) by (subst r'; destruct (_ || _ || _); unfold RuneError; lia). clearbody r'.
  destruct (Z.ltb_spec r' 0x80); [constructor; [|done]; unfold clean; rewrite b2z_z2b, Z.mod_small; lia|].
  repeat case_match; repeat constructor; apply high_bit; by rewrite Z.lor_spec.
Qed.

Lemma sanitizeField_clean v : Forall clean (sanitizeField v).
Proof.
  unfold sanitizeField. assert (H : ∀ (rs : list Z) (x : bytes * bool), Forall clean x.1 → Forall clean (foldl sanitize_rune x rs).1); [|by apply H].
  intros rs. induction rs as [|r rs IH]; intros [out space] Hx; [done|]. cbn [foldl]. apply IH. unfold sanitize_rune.
  destruct (blank_rune r); [done|]. destruct (Z.ltb_spec r 0x20); [done|]. destruct (Z.eqb_spec r 0x7f); [done|]. cbn [orb fst].
  apply Forall_app. split; [|by apply write_rune_clean]. destruct (_ && _); [|done]. apply Forall_app. split; [done|]. by repeat constructor.
Qed.

Lemma Itoa_clean n : Forall clean (Itoa n).
Proof.
  unfold Itoa. assert (Hu : ∀ d : Decimal.uint, Forall clean (str (NilEmpty.string_of_uint d))) by (intros d; induction d; cbn; [constructor|constructor; [by repeat constructor|done]..]).
  assert (Hz : ∀ d : Decimal.uint, Forall clean (str (NilZero.string_of_uint d))).
  { intros [| | | | | | | | | |]; first [apply (Hu (_ _))|by repeat constructor]. }
  destruct (Z.to_int n) as [d|d]; cbn [NilZero.string_of_int]; [apply Hz|]. cbn. constructor; [by repeat constructor|apply Hz].
Qed.

(** A door that reads the number finds the one written. *)
Definition Atoi (s : bytes) : option Z := Z.of_int <$> NilZero.int_of_string (String.string_of_list_byte s).
Lemma Atoi_Itoa n : Atoi (Itoa n) = Some n.
Proof.
  unfold Atoi, Itoa, str. rewrite String.string_of_list_byte_of_string, NilZero.isi; [cbn; by rewrite DecimalZ.of_to| |].
  all: destruct n; cbn; try done; intros [= E]; by destruct (DecimalPos.Unsigned.to_uint_nonnil p).
Qed.

Lemma drop_Forall {A} (P : A → Prop) k l : Forall P l → Forall P (drop k l).
Proof. rewrite <- (take_drop k l) at 1. by intros [_ ?]%Forall_app. Qed.
Lemma take_Forall {A} (P : A → Prop) k l : Forall P l → Forall P (take k l).
Proof. rewrite <- (take_drop k l) at 1. by intros [? _]%Forall_app. Qed.

Lemma TrimSpace_Forall P s : Forall P s → Forall P (TrimSpace s).
Proof.
  intros H. unfold TrimSpace. destruct (TrimRight_prefix (TrimLeft s)) as [k ->]. apply take_Forall. unfold TrimLeft.
  destruct (strip_suffix (length s) space_runes s) as [j ->]. by apply drop_Forall.
Qed.

Lemma Cut_Forall P sep s : Forall P s → let '(a, b, _) := Cut sep s in Forall P a ∧ Forall P b.
Proof.
  intros H. induction H as [|c s Hc Hs IH]; cbn; [done|]. case_bool_decide; [done|]. destruct (Cut sep s) as [[a b] f]. destruct IH. split; [by constructor|done].
Qed.

Lemma firstLast_clean v : Forall clean (firstLast v).1 ∧ Forall clean (firstLast v).2.
Proof.
  unfold firstLast. pose proof (sanitizeField_clean v) as H. pose proof (Cut_Forall clean Byte.x20 _ H) as Hc.
  destruct (Cut _ _) as [[a b] []]; [|done]. destruct Hc. split; [done|]. by apply TrimSpace_Forall.
Qed.

Lemma full_name_clean s : Forall clean (full_name s).
Proof. unfold full_name. case_bool_decide; apply sanitizeField_clean. Qed.

Lemma graphicsFlag_clean a y n : Forall clean y → Forall clean n → Forall clean (graphicsFlag a y n).
Proof. by destruct a. Qed.

#[local] Instance clean_dec c : Decision (clean c).
Proof. unfold clean. apply _. Defined.

(** The fields one by one: a literal, or one of the values above. *)
Ltac literal_clean := apply (bool_decide_unpack _); vm_compute; exact I.
Ltac field_clean :=
  lazymatch goal with
  | |- Forall clean (sanitizeField _) => apply sanitizeField_clean
  | |- Forall clean (Itoa _) => apply Itoa_clean
  | |- Forall clean (full_name _) => apply full_name_clean
  | |- Forall clean (graphicsFlag _ _ _) => apply graphicsFlag_clean; literal_clean
  | |- Forall clean (if ?b then _ else _) => destruct b; field_clean
  | |- _ => first [assumption|literal_clean]
  end.
Ltac fields_clean :=
  lazymatch goal with
  | |- Forall _ (_ :: _) => apply Forall_cons_2; [field_clean|fields_clean]
  | |- _ => apply Forall_nil_2
  end.

Lemma dropfile_fields_clean now spec s fields : dropfile_fields now spec s = Some fields → Forall (Forall clean) fields.
Proof.
  unfold dropfile_fields. repeat case_bool_decide; intros [= <-].
  - unfold doorSys. fields_clean.
  - unfold door32Sys. fields_clean.
  - unfold dorinfo1. pose proof (firstLast_clean (ss_SysopName s)) as [Ha Hb]. pose proof (firstLast_clean (ss_RealName s)) as [Hc Hd].
    destruct (firstLast (ss_SysopName s)) as [a b]. destruct (firstLast (ss_RealName s)) as [c d]. cbn [fst snd] in *. fields_clean.
Qed.

Lemma read_lines_field cur f rest : Forall clean f → read_lines cur (f ++ [CR; LF] ++ rest) = (cur ++ f) :: read_lines [] rest.
Proof.
  intros H. revert cur. induction H as [|c f Hc Hf IH]; intros cur.
  - cbn [app read_lines]. rewrite bool_decide_false by done. rewrite bool_decide_true by done. rewrite last_snoc, bool_decide_true by done.
    by rewrite removelast_last, app_nil_r.
  - cbn [app read_lines]. rewrite bool_decide_false by (intros ->; destruct Hc as [Hc _]; by vm_compute in Hc). specialize (IH (cur ++ [c])). cbn [app] in IH. rewrite IH. by rewrite <- app_assoc.
Qed.

Lemma read_lines_of fields : Forall (Forall clean) fields → read_lines [] (lines fields) = fields.
Proof.
  intros H. induction H as [|f fields Hf _ IH]; [done|]. unfold lines in *. cbn [mbind list_bind]. rewrite <- app_assoc, read_lines_field by done. by rewrite IH.
Qed.

