(* ===== verification/DoorApi.v ===== *)
(** * The door API (internal/door/api.go, internal/bbs/doorhost.go)

    What a door may ask of the board over its socket, level by level, and the board's
    side of it. One server serves one run of a door; each line is handled in one step,
    lines of several connections in any order. JSON is a parameter: the request a line
    holds, if it holds one. The clock is read once for each line, in nanoseconds. *)

From stdpp Require Import strings relations.
From S2P Require Import Prelude Binary Identity Order Text GoStrings NodeNames.
From S2P Require Import Records RecordLog Board Areas Service Base64 Keyring Mail Doors DoorRun.
From S2P Require GossipStore DoorEvent Leagues.

(** ** Requests and answers *)

Record request := mkReq {
  rq_ID : Z; rq_Op : bytes; rq_Token : bytes; rq_Scope : bytes; rq_Key : bytes; rq_Value : bytes; rq_Area : bytes; rq_To : bytes;
  rq_Subject : bytes; rq_Text : bytes; rq_Game : bytes; rq_Kind : byte; rq_Payload : bytes; rq_After : Z
}.
Class RequestJson := parse_request : bytes → option request.

Inductive code := codeBadRequest | codeForbidden | codeRateLimit | codeQuota | codeInternal.
Inductive api_error :=
| NotARequest | SayHello | UnknownOperation (op : bytes) | NeedsLevel (op : bytes) (need have : Z)
| NoAccount | UnknownApiScope (scope : bytes) | FromStore (e : door_error)
| NoAnnounceArea | NothingToAnnounce | FederatedArea (area : bytes) | AnnounceLimit (n : Z) | NameTooLong (door : bytes) | FromBoard (e : board_error)
| NoLeagueArea | NoGame | NotBase64 | LeagueLimit (n : Z) | FromHost (e : Leagues.host_error) | NegativeCursor | FromMail (e : mail_error).

Record SessionInfo := mkInfo {
  si_Handle : bytes; si_RealName : bytes; si_Node : Z; si_Width : Z; si_Height : Z; si_Terminal : bytes; si_ANSI : bool; si_Encoding : bytes;
  si_TimeLimited : bool; si_TimeRemainingSecs : Z
}.
Record PolledDoorEvent := mkPolled {
  pe_Origin : bytes; pe_At : Z; pe_Kind : byte; pe_Actor : bytes; pe_Target : bytes; pe_TargetNode : bytes; pe_Payload : bytes
}.

(** The answer's fields by kind; an empty notice is none. *)
Inductive response :=
| Failed (c : code) (why : api_error)
| HelloAnswer (level : Z) | SessionAnswer (info : SessionInfo) | ValueAnswer (value : bytes) (found : bool) | Done | KeysAnswer (keys : list bytes)
| RecordAnswer (record notice : bytes) | QueuedAnswer (notice : bytes) | EventsAnswer (cursor : Z) (events : list PolledDoorEvent) (truncated : bool).

(** ** Reading lines *)

Definition maxRequestLine : Z := 64 * 1024.
Inductive line_read := GotLine (line rest : bytes) | LineTooLong | NoMore.

(** Up to the first line feed, or to the end of what was sent; a carriage return before
    the line feed goes with it. *)
Fixpoint split_line (s : bytes) : bytes * bytes * bool :=
  match s with
  | [] => ([], [], false)
  | c :: s' =>
      if bool_decide (c = Byte.x0a) then ([], s', true)
      else let '(a, b, found) := split_line s' in (c :: a, b, found)
  end.
Definition readLine (s : bytes) : line_read :=
  match s with
  | [] => NoMore
  | _ =>
      let '(a, rest, found) := split_line s in
      let a := if found && bool_decide (last a = Some Byte.x0d) then removelast a else a in
      if maxRequestLine <? strlen a then LineTooLong else GotLine a rest
  end.

(** ** The board behind a door *)

Record World (P E : Type) := mkWorld { service : Service P E; mail : MailTables; tables : DoorTables; aliases : list Alias; manager : Manager }.
Arguments mkWorld {P E} _ _ _ _ _.
Arguments service {P E} _.
Arguments mail {P E} _.
Arguments tables {P E} _.
Arguments aliases {P E} _.
Arguments manager {P E} _.

(** One server: its door, the session it serves and its token. *)
Record apiServer := mkApi { a_spec : Spec; a_sess : Session; a_token : bytes }.

Section api.
Context {P E : Type} `{HB : Blake3, HX : DmCrypto, HE : Ed25519, HD : SqlDriver, HP : !Publisher P E, HJ : RequestJson} (key : NodeKey).

Definition with_service (s : Service P E) (w : World P E) : World P E := mkWorld s (mail w) (tables w) (aliases w) (manager w).
Definition with_mail (m : MailTables) (w : World P E) : World P E := mkWorld (service w) m (tables w) (aliases w) (manager w).
Definition with_tables (t : DoorTables) (w : World P E) : World P E := mkWorld (service w) (mail w) t (aliases w) (manager w).
Definition with_manager (m : Manager) (w : World P E) : World P E := mkWorld (service w) (mail w) (tables w) (aliases w) m.
Definition world_board (w : World P E) : Board := board (service w).

(** *** doorhost.go *)

Definition AreaIsFederated (area : bytes) (w : World P E) : result board_error bool := a ← GetArea area (world_board w); Ok (ar_Federated a).

Definition host_post (now : Z) (author area subject text : bytes) (w : World P E) : result board_error ID * World P E :=
  let '(r, s) := Post key now author area subject text (service w) in (r, with_service s w).

Definition Announce (now : Z) (d area subject text : bytes) (w : World P E) : result api_error ID * World P E :=
  let author := DoorAuthor d in
  if MaxAnnounceDoorNameLen + 1 <? strlen author then (Err (NameTooLong d), w)
  else let '(r, w) := host_post now author area subject text w in (wrap_err FromBoard r, w).

Definition SendDMAs (now : Z) (random : arr 32) (nick to subject text : bytes) (w : World P E) : result mail_error ID * World P E :=
  let '(r, b, t) := SendDM key now random nick to subject text (aliases w) (world_board w) (mail w) in
  (r, with_mail t (with_service (with_board b (service w)) w)).

Definition host_audit (now : Z) (actor action target : bytes) (d : bytes) (w : World P E) : World P E :=
  with_service (with_board (Audit now actor action target (Text d) (world_board w)) (service w)) w.

Definition polled (e : Leagues.DeliveredDoorEvent) : PolledDoorEvent :=
  let ev := Leagues.de_Event e in
  mkPolled (NodeID_Compact (Leagues.de_Origin e)) (Leagues.de_At e) (DoorEvent.Kind ev) (DoorEvent.Actor ev) (DoorEvent.Target ev)
    (if bool_decide (DoorEvent.Target ev = []) then [] else NodeID_Compact (DoorEvent.TargetNode ev))
    (if bool_decide (DoorEvent.Payload ev = []) then [] else StdEncode (DoorEvent.Payload ev)).

(** *** api.go *)

Context (a : apiServer).
Definition door_name : bytes := s_Name (a_spec a).
Definition nick : bytes := ss_Nick (a_sess a).
Definition grant : Grant := s_Grant (a_spec a).
Definition seconds (now : Z) : Z := now / Leagues.Second.

(** The scope and whose it is: the player's own, or the door's. *)
Definition owner (scope : bytes) : result api_error (bytes * bytes) :=
  if bool_decide (scope = []) || bool_decide (scope = ScopeUser) then
    if bool_decide (nick = []) then Err NoAccount else Ok (ScopeUser, nick)
  else if bool_decide (scope = ScopeGlobal) then Ok (ScopeGlobal, [])
  else Err (UnknownApiScope scope).

Definition with_owner (req : request) (w : World P E) (k : bytes → bytes → response * World P E) : response * World P E :=
  match owner (rq_Scope req) with Err e => (Failed codeBadRequest e, w) | Ok (scope, who) => k scope who end.

Definition stateGet (req : request) (w : World P E) : response * World P E :=
  with_owner req w (λ scope who,
    (match DoorStateGet door_name scope who (rq_Key req) (tables w) with
     | Err e => Failed codeInternal (FromStore e)
     | Ok v => ValueAnswer (default [] v) (bool_decide (is_Some v))
     end, w)).

Definition is_quota (e : door_error) : bool := match e with ErrStateQuota _ _ => true | _ => false end.

Definition stateSet (req : request) (w : World P E) : response * World P E :=
  with_owner req w (λ scope who,
    match DoorStateSet door_name scope who (rq_Key req) (rq_Value req) (g_StateQuota grant) (tables w) with
    | (Some e, t) => (Failed (if is_quota e then codeQuota else codeBadRequest) (FromStore e), with_tables t w)
    | (None, t) => (Done, with_tables t w)
    end).

Definition stateDelete (req : request) (w : World P E) : response * World P E :=
  with_owner req w (λ scope who,
    match DoorStateDelete door_name scope who (rq_Key req) (tables w) with
    | (Some e, t) => (Failed codeInternal (FromStore e), with_tables t w)
    | (None, t) => (Done, with_tables t w)
    end).

Definition stateKeys (req : request) (w : World P E) : response * World P E :=
  with_owner req w (λ scope who,
    (match DoorStateKeys door_name scope who (tables w) with
     | Err e => Failed codeInternal (FromStore e)
     | Ok ks => KeysAnswer ks
     end, w)).

Definition announce (now : Z) (req : request) (w : World P E) : response * World P E :=
  let area := TrimSpace (g_AnnounceArea grant) in
  if bool_decide (area = []) then (Failed codeForbidden NoAnnounceArea, w)
  else if bool_decide (TrimSpace (rq_Text req) = []) then (Failed codeBadRequest NothingToAnnounce, w)
  else match AreaIsFederated area w with
  | Err e => (Failed codeInternal (FromBoard e), w)
  | Ok true => (Failed codeForbidden (FederatedArea area), w)
  | Ok false =>
      let '(ok, m) := allowAnnounce now door_name (g_AnnouncePerHour grant) (manager w) in
      let w := with_manager m w in
      if negb ok then (Failed codeRateLimit (AnnounceLimit (g_AnnouncePerHour grant)), w)
      else match Announce (seconds now) door_name area (rq_Subject req) (rq_Text req) w with
      | (Err e, w) => (Failed codeInternal e, w)
      | (Ok i, w) => (RecordAnswer (EncodeBase32 (vec_to_list i)) [], w)
      end
  end.

Definition notice_text : bytes :=
  door_name ++ str " is posting and sending messages as you, "%string ++ nick ++
  str ". The sysop granted it that. Every time it does, it is recorded against your name in the audit log."%string.

(** The notice, the first time. *)
Definition noticeFor (w : World P E) : bytes * World P E :=
  let '(need, t) := DoorNoticeNeeded door_name nick (tables w) in
  (if need then notice_text else [], with_tables t w).

Definition host_code (e : Leagues.host_error) : code :=
  match e with
  | Leagues.ErrNotALeague _ => codeForbidden
  | Leagues.ErrUnknownTarget _ | Leagues.ErrInvalidEvent _ => codeBadRequest
  | Leagues.HostError (ErrDoorEventQueueFull _) => codeQuota
  | Leagues.HostError _ => codeInternal
  end.

Definition decode_payload (p : bytes) : option bytes := if bool_decide (p = []) then Some [] else StdDecode p.

Definition eventEmit (now : Z) (req : request) (w : World P E) : response * World P E :=
  let area := TrimSpace (g_LeagueArea grant) in
  if bool_decide (area = []) then (Failed codeForbidden NoLeagueArea, w)
  else if bool_decide (nick = []) then (Failed codeForbidden NoAccount, w)
  else if bool_decide (TrimSpace (rq_Game req) = []) then (Failed codeBadRequest NoGame, w)
  else match decode_payload (rq_Payload req) with
  | None => (Failed codeBadRequest NotBase64, w)
  | Some payload =>
      let '(ok, m) := allowLeague now door_name (g_LeaguePerHour grant) (manager w) in
      let w := with_manager m w in
      if negb ok then (Failed codeRateLimit (LeagueLimit (g_LeaguePerHour grant)), w)
      else
        let ev := Leagues.mkRequested door_name area (TrimSpace (rq_Game req)) (rq_Kind req) nick (TrimSpace (rq_To req)) payload in
        let '(r, b) := Leagues.QueueDoorEvent key (seconds now) (aliases w) ev (world_board w) in
        let w := with_service (with_board b (service w)) w in
        match r with
        | Err e => (Failed (host_code e) (FromHost e), w)
        | Ok _ => let '(notice, w) := noticeFor w in (QueuedAnswer notice, w)
        end
  end.

Definition poll_code (e : Leagues.host_error) : code := match e with Leagues.ErrNotALeague _ => codeForbidden | _ => codeInternal end.

Definition eventPoll (req : request) (w : World P E) : response * World P E :=
  let area := TrimSpace (g_LeagueArea grant) in
  (if bool_decide (area = []) then Failed codeForbidden NoLeagueArea
   else if rq_After req <? 0 then Failed codeBadRequest NegativeCursor
   else match Leagues.PollDoorEvents area (TrimSpace (rq_Game req)) (rq_After req) (world_board w) with
   | Err e => Failed (poll_code e) (FromHost e)
   | Ok batch => EventsAnswer (Leagues.db_Cursor batch) (polled <$> Leagues.db_Events batch) (Leagues.db_Truncated batch)
   end, w).

Definition act_detail (i : ID) : bytes := str "door="%string ++ door_name ++ str " record="%string ++ EncodeBase32 (vec_to_list i).
Definition recordActAsUser (now : Z) (action target : bytes) (i : ID) (w : World P E) : World P E := host_audit now nick action target (act_detail i) w.

Definition PostAsUser : bytes := str "door.post_as_user"%string.
Definition DMAsUser : bytes := str "door.dm_as_user"%string.

Definition acted (now : Z) (action target : bytes) (i : ID) (w : World P E) : response * World P E :=
  let w := recordActAsUser (seconds now) action target i w in
  let '(notice, w) := noticeFor w in
  (RecordAnswer (EncodeBase32 (vec_to_list i)) notice, w).

Definition userPost (now : Z) (req : request) (w : World P E) : response * World P E :=
  if bool_decide (nick = []) then (Failed codeForbidden NoAccount, w)
  else match host_post (seconds now) nick (rq_Area req) (rq_Subject req) (rq_Text req) w with
  | (Err e, w) => (Failed codeForbidden (FromBoard e), w)
  | (Ok i, w) => acted now PostAsUser (rq_Area req) i w
  end.

Definition userDM (now : Z) (random : arr 32) (req : request) (w : World P E) : response * World P E :=
  if bool_decide (nick = []) then (Failed codeForbidden NoAccount, w)
  else match SendDMAs (seconds now) random nick (rq_To req) (rq_Subject req) (rq_Text req) w with
  | (Err e, w) => (Failed codeForbidden (FromMail e), w)
  | (Ok i, w) => acted now DMAsUser (rq_To req) i w
  end.

Definition sessionInfo (now : Z) : SessionInfo :=
  let s := a_sess a in
  mkInfo (ss_Nick s) (ss_RealName s) (ss_Node s) (ss_Width s) (ss_Height s) (ss_Term s) (ss_ANSI s) (ss_Encoding s)
    (bool_decide (is_Some (ss_TimeRemaining s))) (from_option (λ f, Z.quot (f now) Leagues.Second) 0 (ss_TimeRemaining s)).

Inductive op := opSession | opStateGet | opStateSet | opStateDelete | opStateKeys | opAnnounce | opEventEmit | opEventPoll | opUserPost | opUserDM.
Definition op_names : list (bytes * op) :=
  [ (str "session.get"%string, opSession); (str "state.get"%string, opStateGet); (str "state.set"%string, opStateSet);
    (str "state.delete"%string, opStateDelete); (str "state.keys"%string, opStateKeys); (str "announce"%string, opAnnounce);
    (str "event.emit"%string, opEventEmit); (str "event.poll"%string, opEventPoll); (str "user.post"%string, opUserPost); (str "user.dm"%string, opUserDM) ].
Definition op_named (name : bytes) : option op := snd <$> List.find (λ x : bytes * op, bool_decide (x.1 = name)) op_names.
Definition levelFor (o : op) : Z :=
  match o with
  | opSession => 1
  | opStateGet | opStateSet | opStateDelete | opStateKeys => 2
  | opAnnounce | opEventEmit | opEventPoll => 3
  | opUserPost | opUserDM => 4
  end.
Definition opHello : bytes := str "hello"%string.

Definition perform (o : op) (now : Z) (random : arr 32) (req : request) (w : World P E) : response * World P E :=
  match o with
  | opSession => (SessionAnswer (sessionInfo now), w)
  | opStateGet => stateGet req w
  | opStateSet => stateSet req w
  | opStateDelete => stateDelete req w
  | opStateKeys => stateKeys req w
  | opAnnounce => announce now req w
  | opEventEmit => eventEmit now req w
  | opEventPoll => eventPoll req w
  | opUserPost => userPost now req w
  | opUserDM => userDM now random req w
  end.

Definition dispatch (now : Z) (random : arr 32) (req : request) (w : World P E) : response * World P E :=
  match op_named (rq_Op req) with
  | None => (Failed codeBadRequest (UnknownOperation (rq_Op req)), w)
  | Some o =>
      if g_Level grant <? levelFor o then (Failed codeForbidden (NeedsLevel (rq_Op req) (levelFor o) (g_Level grant)), w)
      else perform o now random req w
  end.

(** ** Connections *)

(** Whether each open connection has said hello, and whether the server is closing. *)
Record Server := mkServer { conns : gmap nat bool; closing : bool; world : World P E }.

Inductive api_event :=
| Accepted (n : nat) | Line (n : nat) (now : Z) (random : arr 32) (line : bytes) | Oversized (n : nat) | HungUp (n : nat)
| HelloTimedOut (n : nat) | CloseServer.

Definition drop_conn (n : nat) (s : Server) : Server := mkServer (delete n (conns s)) (closing s) (world s).
Definition says_hello (req : request) : bool := bool_decide (rq_Op req = opHello) && bool_decide (rq_Token req = a_token a).

Definition serve_line (n : nat) (greeted : bool) (now : Z) (random : arr 32) (line : bytes) (s : Server) : option (Z * response) * Server :=
  if bool_decide (TrimSpace line = []) then (None, s)
  else match parse_request line with
  | None => (Some (0, Failed codeBadRequest NotARequest), s)
  | Some req =>
      if greeted then
        let '(r, w) := dispatch now random req (world s) in (Some (rq_ID req, r), mkServer (conns s) (closing s) w)
      else if says_hello req then (Some (rq_ID req, HelloAnswer (g_Level grant)), mkServer (<[n := true]> (conns s)) (closing s) (world s))
      else (Some (rq_ID req, Failed codeForbidden SayHello), drop_conn n s)
  end.

Definition serve (ev : api_event) (s : Server) : option (Z * response) * Server :=
  match ev with
  | Accepted n => (None, if closing s then s else if decide (is_Some (conns s !! n)) then s else mkServer (<[n := false]> (conns s)) false (world s))
  | Line n now random line => match conns s !! n with None => (None, s) | Some greeted => serve_line n greeted now random line s end
  | Oversized n | HungUp n => (None, drop_conn n s)
  | HelloTimedOut n => (None, match conns s !! n with Some false => drop_conn n s | _ => s end)
  | CloseServer => (None, mkServer ∅ true (world s))
  end.

Fixpoint serve_all (evs : list api_event) (s : Server) : list (option (Z * response)) * Server :=
  match evs with
  | [] => ([], s)
  | ev :: evs => let '(r, s) := serve ev s in let '(rs, s) := serve_all evs s in (r :: rs, s)
  end.
End api.
