(* ===== verification/DoorApiFacts.v ===== *)
(** * What a door can do to a board (internal/door/api.go, internal/bbs/doorhost.go, internal/store/doors.go)

    The quota of a door's state, and the confinement of a server: whatever a door sends
    over its socket, what can have changed on the board afterwards. *)

From stdpp Require Import strings relations.
From S2P Require Import Prelude Binary Identity Order Text GoStrings NodeNames.
From S2P Require Import Records RecordLog Board Areas Service Base64 Keyring Mail Doors DoorRun DoorApi.
From S2P Require GossipStore DoorEvent Leagues LeaguesFacts MailFacts.

(** ** The quota *)

Lemma sql_length_bound s : 0 ≤ sql_length s ≤ strlen s.
Proof. apply LeaguesFacts.text_length_bound. Qed.

Lemma entry_size_bound k v : 0 ≤ entry_size k v ≤ strlen k + strlen v.
Proof. unfold entry_size. pose proof (sql_length_bound k). pose proof (sql_length_bound v). lia. Qed.

Definition used (door : bytes) (m : gmap state_key bytes) : Z := map_fold (λ (k : state_key) v n, entry_size k.2 v + n) 0 (of_door door m).

Lemma used_split door k m :
  used door m = used door (delete k m) + if decide (k.1.1.1 = nocase door) then from_option (entry_size k.2) 0 (m !! k) else 0.
Proof.
  destruct (m !! k) as [v|] eqn:Hk; cbn [from_option].
  2:{ rewrite delete_id by done. destruct (decide _); cbn; lia. }
  rewrite <- (insert_delete_id m k v) at 1 by done. unfold used, of_door. destruct (decide (k.1.1.1 = nocase door)) as [Hd|Hd].
  - rewrite map_filter_insert_True by done. rewrite map_fold_insert_L; [lia|intros; lia|]. apply map_lookup_filter_None. left. apply lookup_delete_eq.
  - rewrite map_filter_insert_False by done. rewrite delete_delete_eq. lia.
Qed.

Lemma used_insert door k v m :
  used door (<[k := v]> m) = used door m - (if decide (k.1.1.1 = nocase door) then from_option (entry_size k.2) 0 (m !! k) - entry_size k.2 v else 0).
Proof.
  rewrite (used_split door k (<[k := v]> m)), (used_split door k m), delete_insert_eq, lookup_insert_eq. cbn [from_option]. destruct (decide _); lia.
Qed.

Lemma used_delete door k m : used door (delete k m) ≤ used door m.
Proof.
  rewrite (used_split door k m). destruct (decide _); [|lia]. destruct (m !! k) as [v|]; cbn; [pose proof (entry_size_bound k.2 v)|]; lia.
Qed.

(** ** What writing a record leaves alone *)

(** The users, their capabilities, the areas, the files and the requests. *)
Definition settled (b b' : Board) : Prop :=
  users b' = users b ∧ capabilities b' = capabilities b ∧ areas b' = areas b ∧ files b' = files b ∧ blobs b' = blobs b ∧ requests b' = requests b.

Lemma settled_refl b : settled b b.
Proof. done. Qed.
Lemma settled_trans b1 b2 b3 : settled b1 b2 → settled b2 b3 → settled b1 b3.
Proof. unfold settled. intuition congruence. Qed.
Lemma settled_GetAnyArea b b' name : settled b b' → GetAnyArea name b' = GetAnyArea name b.
Proof. intros (_ & _ & H & _). unfold GetAnyArea. by rewrite H. Qed.
Lemma settled_GetArea b b' name : settled b b' → GetArea name b' = GetArea name b.
Proof. intros H. unfold GetArea, get_kind. by rewrite (settled_GetAnyArea b b'). Qed.
Lemma settled_HasCapability b b' nick c : settled b b' → HasCapability nick c b' = HasCapability nick c b.
Proof. intros (H1 & H2 & _). unfold HasCapability, Capabilities, GetUser. by rewrite H1, H2. Qed.
Lemma settled_may_post b b' nick a : settled b b' → may_post nick a b' = may_post nick a b.
Proof. intros H. unfold may_post. by rewrite (settled_HasCapability b b'). Qed.

(** The whole of what stays when a record of this node's is minted, stored and indexed. *)
Definition wrote (b b' : Board) : Prop := settled b b' ∧ audit b' = audit b ∧ queue b' = queue b ∧ last_queued b' = last_queued b.

Section writing.
Context {P E : Type} `{HB : Blake3, HE : Ed25519, HD : SqlDriver, HP : !Publisher P E} (key : NodeKey).

(** A new record of this node's, with its type, area and body. *)
Definition own (typ : byte) (area : AreaTag) (body : bytes) (f : Fields) : Prop :=
  Origin f = self key ∧ Type_ f = typ ∧ Area f = area ∧ Body f = body.
Definition own_row (typ : byte) (area : AreaTag) (body : bytes) (w : Row) : Prop := own typ area body (columns w).

Lemma with_log_wrote l b : wrote b (with_log l b).
Proof. done. Qed.

(** Minting and storing: at most one row more, and then no error. *)
Lemma minted_rows now typ area body b :
  let '(r, b1) := newRecord key now typ area body b in
  (∃ l, b1 = with_log l b ∧ rows l = rows (log b)) ∧
  ∀ rec, r = Ok rec → own typ area body (fields rec) ∧ let '(e, b2) := put now rec b1 in
    ∃ l, b2 = with_log l b ∧ ∀ w, w ∈ rows l → w ∈ rows (log b) ∨ e = None ∧ row_id w = id rec ∧ own_row typ area body w.
Proof.
  unfold newRecord. pose proof (NextSeq_spec area (log b)) as Hn. destruct (NextSeq area (log b)) as [[seq|e] l1].
  2:{ destruct Hn as (Hr & _). split; [by eexists|done]. }
  destruct Hn as (Hr & _). split; [by eexists|]. intros rec Hrec. apply wrap_err_Ok in Hrec. apply New_Ok in Hrec. cbv zeta in Hrec.
  destruct Hrec as (Hf & Ho & _). assert (Hown : own typ area body (fields rec)) by (rewrite Hf; unfold own, self; by destruct (IsZero _)).
  split; [exact Hown|]. unfold put. pose proof (PutRecord_spec now rec l1) as Hp. cbn [log with_log]. destruct (PutRecord now rec l1) as [[e|] l2].
  - destruct Hp as (-> & _). exists l1. split; [done|]. intros w Hw. rewrite Hr in Hw. by left.
  - destruct Hp as [[_ ->]|(_ & _ & ->)]; eexists; (split; [done|]); cbn [rows insert_row]; rewrite Hr; [by left|].
    intros w [Hw| ->%list_elem_of_singleton]%elem_of_app; [by left|right]. split; [done|]. done.
Qed.

Lemma Post_rows now author areaName subject text s :
  let '(r, s') := Post key now author areaName subject text s in
  let b := board s in let b' := board s' in
  wrote b b' ∧
  (∀ w, w ∈ rows (log b') → w ∈ rows (log b) ∨ ∃ i ar, r = Ok i ∧ row_id w = i ∧ GetArea areaName b = Ok ar ∧ may_post author ar b = Ok tt ∧
     own_row TypePost (ar_Tag ar) (post_wire (mkPostBody author subject (TrimRight_newlines text))) w) ∧
  (publisher s' = publisher s ∧ reports s' = reports s ∨ ∃ ar, GetArea areaName b = Ok ar ∧ ar_Federated ar = true ∧ HasCapability author CapPostFederated b = Ok true).
Proof.
  unfold Post. destruct (post_body author areaName subject text (board s)) as [[ar body]|e] eqn:Hpb; cycle 1.
  { split; [done|]. split; [by left|by left]. }
  apply post_body_Ok in Hpb as [(Hg & Hro & Hcap & _) ->]. assert (Hm : may_post author ar (board s) = Ok tt) by (by apply may_post_Ok).
  set (body := post_wire _). pose proof (minted_rows now TypePost (ar_Tag ar) body (board s)) as H.
  destruct (newRecord key now TypePost (ar_Tag ar) body (board s)) as [[rec|e] b1].
  2:{ destruct H as [(l & -> & Hl) _]. cbn [board with_board]. split; [done|]. split; [intros w Hw; left; cbn in Hw; by rewrite Hl in Hw|by left]. }
  destruct H as [_ H]. destruct (H rec eq_refl) as [_ Hput]. clear H. cbn [board with_board]. destruct (put now rec b1) as [[e|] b2]; destruct Hput as (l & -> & Hrows).
  - split; [done|]. split; [|by left]. intros w Hw. cbn in Hw. destruct (Hrows w Hw) as [?|(? & _)]; [by left|done].
  - set (b3 := IndexPost (id rec) author subject (with_log l (board s))). set (s3 := with_board b3 _).
    assert (H3 : wrote (board s) b3 ∧ log b3 = l) by (unfold b3, IndexPost; by destruct (_ !! _)). destruct H3 as [Hw3 Hl3].
    assert (Hb : board (if ar_Federated ar then publish (ar_Tag ar) rec s3 else s3) = b3) by (destruct (ar_Federated ar); [by rewrite publish_board|done]).
    cbv zeta. rewrite Hb, Hl3. split; [exact Hw3|]. split.
    + intros w Hw. destruct (Hrows w Hw) as [?|(_ & Hi & Ho)]; [by left|right]. by exists (id rec), ar.
    + destruct (ar_Federated ar) eqn:Hf; [right; exists ar; by auto|by left].
Qed.

Context `{HX : DmCrypto}.

Lemma SendDM_rows now random sender ref subject text al b t :
  let '(r, b', t') := SendDM key now random sender ref subject text al b t in
  wrote b b' ∧ dm_public_key t' = dm_public_key t ∧ dm_wrapped_key t' = dm_wrapped_key t ∧
  (∀ w, w ∈ rows (log b') → w ∈ rows (log b) ∨ ∃ i nick sealed, r = Ok i ∧ row_id w = i ∧ own_row TypeDM DMArea (MailFacts.dm_wire (mkDMBody sender nick sealed)) w) ∧
  (dm_index t' = dm_index t ∨ ∃ i d, r = Ok i ∧ d_ID d = i ∧ d_Sender d = sender ∧ dm_index t' = dm_index t ++ [d]).
Proof.
  unfold SendDM. destruct (dm_body key random sender ref subject text al b t) as [body|e] eqn:Hbody; cycle 1.
  { split; [done|]. split; [done|]. split; [done|]. split; by left. }
  assert (Hw : ∃ nick sealed, strlen sender ≤ 16 ∧ strlen nick ≤ 16 ∧ body = MailFacts.dm_wire (mkDMBody sender nick sealed)).
  { unfold dm_body in Hbody. apply bind_Ok in Hbody as ([nick node] & _ & H). apply bind_unit_Ok in H as [_ H].
    apply bind_Ok in H as (pub & _ & H). apply bind_Ok in H as (payload & _ & H). apply bind_Ok in H as (sealed & _ & H).
    apply MailFacts.MarshalDMBody_Ok in H as (H1 & H2 & ->). by exists nick, sealed. }
  destruct Hw as (nick & sealed & H1 & H2 & ->). set (body := MailFacts.dm_wire _).
  pose proof (minted_rows now TypeDM DMArea body b) as H. destruct (newRecord key now TypeDM DMArea body b) as [[rec|e] b1].
  2:{ destruct H as [(l & -> & Hl) _]. split; [done|]. split; [done|]. split; [done|]. split; [|by left]. intros w Hw. left. cbn in Hw. by rewrite Hl in Hw. }
  destruct H as [_ H]. destruct (H rec eq_refl) as [(_ & _ & _ & Hb) Hput]. destruct (put now rec b1) as [[e|] b2]; destruct Hput as (l & -> & Hrows).
  - split; [done|]. split; [done|]. split; [done|]. split; [|by left]. intros w Hw. cbn in Hw. destruct (Hrows w Hw) as [?|(? & _)]; [by left|done].
  - rewrite Hb. unfold body at 1. rewrite MailFacts.UnmarshalDMBody_wire by done. split; [done|].
    destruct (MailFacts.IndexDM_keys (id rec) (mkDMBody sender nick sealed) (NodeKey_ID key) now t) as [-> ->]. split; [done|]. split; [done|]. split.
    + intros w Hw. destruct (Hrows w Hw) as [?|(_ & Hi & Ho)]; [by left|right]. by exists (id rec), nick, sealed.
    + unfold IndexDM. destruct (existsb _ _); [by left|right]. eexists (id rec), _. split_and!; [done| | |reflexivity]; done.
Qed.
End writing.

(** ** Confinement *)

Section confined.
Context {P E : Type} `{HB : Blake3, HX : DmCrypto, HE : Ed25519, HD : SqlDriver, HP : !Publisher P E, HJ : RequestJson} (key : NodeKey) (a : apiServer).
Implicit Types (w : World P E).

Abbreviation level := (g_Level (grant a)).
Abbreviation me := (nick a).

(** An action for the user, on the audit log under the user's name. *)
Definition recorded (au : list AuditRow) (action target : bytes) (i : ID) : Prop :=
  ∃ ts, mkAudit ts me action target (Text (act_detail a i)) ∈ au.

(** Where a record that a door caused comes from. *)
Inductive written (b : Board) (au : list AuditRow) (w : Row) : Prop :=
| by_door ar subject text : 3 ≤ level → TrimSpace (g_AnnounceArea (grant a)) ≠ [] → GetArea (TrimSpace (g_AnnounceArea (grant a))) b = Ok ar → ar_Federated ar = false →
    own_row key TypePost (ar_Tag ar) (post_wire (mkPostBody (DoorAuthor (door_name a)) subject text)) w → written b au w
| by_user area ar subject text : 4 ≤ level → me ≠ [] → GetArea area b = Ok ar → may_post me ar b = Ok tt →
    own_row key TypePost (ar_Tag ar) (post_wire (mkPostBody me subject text)) w → recorded au PostAsUser area (row_id w) → written b au w
| mailed ref to sealed : 4 ≤ level → me ≠ [] → own_row key TypeDM DMArea (MailFacts.dm_wire (mkDMBody me to sealed)) w →
    recorded au DMAsUser ref (row_id w) → written b au w.

(** State under the door's own name: the player's, or the one all its players share. *)
Definition own_state (k : state_key) : Prop :=
  k.1.1.1 = nocase (door_name a) ∧ (k.1.1.2 = ScopeUser ∧ me ≠ [] ∧ k.1.2 = nocase me ∨ k.1.1.2 = ScopeGlobal ∧ k.1.2 = []).

(** An event in the user's name, on the league of the grant. *)
Definition own_event (b : Board) (q : Queued) : Prop :=
  3 ≤ level ∧ me ≠ [] ∧ q_Door q = door_name a ∧ DoorEvent.Actor (q_Event q) = me ∧
  ∃ ar, GetAnyArea (TrimSpace (g_LeagueArea (grant a))) b = Ok ar ∧ ar_Kind ar = GossipStore.KindDoor ∧ ar_Federated ar = true ∧ q_Area q = ar_Name ar.

Definition appended {A} (Q : A → Prop) (l l' : list A) : Prop := ∃ new, l' = l ++ new ∧ Forall Q new.

Record confined (w w' : World P E) : Prop := {
  cf_settled : settled (world_board w) (world_board w');
  cf_aliases : aliases w' = aliases w;
  cf_doors : doors (tables w') = doors (tables w);
  cf_state k : door_state (tables w') !! k ≠ door_state (tables w) !! k → 2 ≤ level ∧ own_state k;
  cf_quota : 0 < g_StateQuota (grant a) →
    DoorStateUsed (door_name a) (tables w') ≤ Z.max (DoorStateUsed (door_name a) (tables w)) (g_StateQuota (grant a));
  cf_notices x : x ∈ door_notices (tables w') → x ∈ door_notices (tables w) ∨ x = (nocase (door_name a), nocase me);
  cf_rows r : r ∈ rows (log (world_board w')) → r ∈ rows (log (world_board w)) ∨ written (world_board w) (audit (world_board w')) r;
  cf_audit : appended (λ x, 4 ≤ level ∧ au_Actor x = me ∧ (au_Action x = PostAsUser ∨ au_Action x = DMAsUser)) (audit (world_board w)) (audit (world_board w'));
  cf_queue : appended (own_event (world_board w)) (queue (world_board w)) (queue (world_board w'));
  cf_federation : level < 4 ∨ HasCapability me CapPostFederated (world_board w) ≠ Ok true →
    publisher (service w') = publisher (service w) ∧ reports (service w') = reports (service w);
  cf_keys : dm_public_key (mail w') = dm_public_key (mail w) ∧ dm_wrapped_key (mail w') = dm_wrapped_key (mail w);
  cf_mail : appended (λ d, 4 ≤ level ∧ me ≠ [] ∧ d_Sender d = me) (dm_index (mail w)) (dm_index (mail w'));
  cf_manager : running (manager w') = running (manager w) ∧ nodes (manager w') = nodes (manager w) ∧
    ∀ d, d ≠ door_name a → announces (manager w') !! d = announces (manager w) !! d ∧ leagueEmits (manager w') !! d = leagueEmits (manager w) !! d
}.

Lemma appended_refl {A} (Q : A → Prop) l : appended Q l l.
Proof. exists []. by rewrite app_nil_r. Qed.
Lemma appended_trans {A} (Q Q' : A → Prop) l1 l2 l3 : (∀ x, Q' x → Q x) → appended Q l1 l2 → appended Q' l2 l3 → appended Q l1 l3.
Proof.
  intros Hq (n1 & -> & H1) (n2 & -> & H2). exists (n1 ++ n2). rewrite app_assoc. split; [done|]. apply Forall_app. split; [done|]. eapply Forall_impl; eauto.
Qed.

Lemma written_later b b' (au au' : list AuditRow) r : settled b b' → (∀ x, x ∈ au → x ∈ au') → written b' au r → written b au' r.
Proof.
  intros Hs Hau [ar subject text H1 H2 H3 H4 H5|area ar subject text H1 H2 H3 H4 H5 [ts H6]|ref to sealed H1 H2 H3 [ts H4]].
  - rewrite (settled_GetArea b b') in H3 by done. by apply (by_door _ _ _ ar subject text).
  - rewrite (settled_GetArea b b') in H3 by done. rewrite (settled_may_post b b') in H4 by done. apply (by_user _ _ _ area ar subject text); try done. exists ts. auto.
  - apply (mailed _ _ _ ref to sealed); try done. exists ts. auto.
Qed.

Lemma own_event_later b b' q : settled b b' → own_event b' q → own_event b q.
Proof. intros Hs (H1 & H2 & H3 & H4 & ar & H5 & H). rewrite (settled_GetAnyArea b b') in H5 by done. split_and!; try done. by exists ar. Qed.

Lemma confined_refl w : confined w w.
Proof. split; try done; try apply appended_refl; [lia|by left|by left]. Qed.

Lemma confined_trans w1 w2 w3 : confined w1 w2 → confined w2 w3 → confined w1 w3.
Proof.
  intros [] []. split; try congruence.
  - by eapply settled_trans.
  - intros k Hk. destruct (decide (door_state (tables w2) !! k = door_state (tables w1) !! k)) as [E1|?]; [|auto]. apply cf_state1. congruence.
  - intros Hq. specialize (cf_quota0 Hq). specialize (cf_quota1 Hq). lia.
  - intros x [Hx| ->]%cf_notices1; auto.
  - intros r [[Hr|Hr]%cf_rows0|Hr]%cf_rows1; [by left|right|right].
    + destruct cf_audit1 as (new & -> & _). eapply written_later; [apply settled_refl| |done]. intros x Hx. apply elem_of_app. by left.
    + by eapply written_later.
  - eapply appended_trans; [|exact cf_audit0|exact cf_audit1]; done.
  - eapply appended_trans; [|exact cf_queue0|exact cf_queue1]. intros q. by apply own_event_later.
  - intros H. destruct (cf_federation0 H) as [<- <-]. apply cf_federation1. by rewrite (settled_HasCapability (world_board w1)).
  - intuition congruence.
  - eapply appended_trans; [|exact cf_mail0|exact cf_mail1]; done.
  - destruct cf_manager0 as (<- & <- & H0), cf_manager1 as (<- & <- & H1). split_and!; try done. intros d Hd. destruct (H0 d Hd) as [<- <-]. by apply H1.
Qed.

(** *** One operation *)

Lemma confined_tables w t :
  doors t = doors (tables w) → (∀ k, door_state t !! k ≠ door_state (tables w) !! k → 2 ≤ level ∧ own_state k) →
  (0 < g_StateQuota (grant a) → DoorStateUsed (door_name a) t ≤ Z.max (DoorStateUsed (door_name a) (tables w)) (g_StateQuota (grant a))) →
  (∀ x, x ∈ door_notices t → x ∈ door_notices (tables w) ∨ x = (nocase (door_name a), nocase me)) → confined w (with_tables t w).
Proof. intros. split; try done; try apply appended_refl. by left. Qed.

Lemma confined_service w s :
  settled (world_board w) (board s) → (∀ r, r ∈ rows (log (board s)) → r ∈ rows (log (world_board w)) ∨ written (world_board w) (audit (board s)) r) →
  appended (λ x, 4 ≤ level ∧ au_Actor x = me ∧ (au_Action x = PostAsUser ∨ au_Action x = DMAsUser)) (audit (world_board w)) (audit (board s)) →
  appended (own_event (world_board w)) (queue (world_board w)) (queue (board s)) →
  (level < 4 ∨ HasCapability me CapPostFederated (world_board w) ≠ Ok true → publisher s = publisher (service w) ∧ reports s = reports (service w)) →
  confined w (with_service s w).
Proof. intros. split; try done; try apply appended_refl; [cbn; lia|by left]. Qed.

Lemma confined_manager w m :
  running m = running (manager w) → nodes m = nodes (manager w) →
  (∀ d, d ≠ door_name a → announces m !! d = announces (manager w) !! d ∧ leagueEmits m !! d = leagueEmits (manager w) !! d) → confined w (with_manager m w).
Proof. intros. split; try done; try apply appended_refl; [cbn; lia|by left|by left]. Qed.

Lemma allowPerHour_other now buckets door n d : d ≠ door → (allowPerHour now buckets door n).2 !! d = buckets !! d.
Proof. intros Hd. unfold allowPerHour. destruct (_ <=? 0); [done|]. cbv zeta. by destruct (_ <=? _); cbn; rewrite lookup_insert_ne. Qed.

Lemma announce_limit_confined now n w : confined w (with_manager (allowAnnounce now (door_name a) n (manager w)).2 w).
Proof.
  unfold allowAnnounce. pose proof (allowPerHour_other now (announces (manager w)) (door_name a) n) as H.
  destruct (allowPerHour _ _ _ _) as [ok b]. apply confined_manager; try done. intros d Hd. split; [by apply H|done].
Qed.
Lemma league_limit_confined now n w : confined w (with_manager (allowLeague now (door_name a) n (manager w)).2 w).
Proof.
  unfold allowLeague. pose proof (allowPerHour_other now (leagueEmits (manager w)) (door_name a) n) as H.
  destruct (allowPerHour _ _ _ _) as [ok b]. apply confined_manager; try done. intros d Hd. split; [done|by apply H].
Qed.

Lemma noticeFor_confined w : confined w (noticeFor a w).2.
Proof.
  unfold noticeFor, DoorNoticeNeeded. destruct (decide _); cbn [snd]; apply confined_tables; try done; cbn [doors door_state door_notices]; try (unfold DoorStateUsed; cbn; lia); [by left|].
  intros x. rewrite elem_of_union, elem_of_singleton. tauto.
Qed.

Lemma owner_own scope s o k : owner a scope = Ok (s, o) → own_state (key_of (door_name a) s o k).
Proof.
  unfold owner, own_state, key_of. cbn. destruct (_ || _); [case_bool_decide|case_bool_decide]; intros [= <- <-]; (split; [done|]); [left|right]; done.
Qed.

Lemma stateSet_confined req w : 2 ≤ level → confined w (stateSet a req w).2.
Proof.
  intros Hl. unfold stateSet, with_owner. destruct (owner a (rq_Scope req)) as [[scope who]|] eqn:Ho; [|apply confined_refl].
  set (k := key_of (door_name a) scope who (rq_Key req)). unfold DoorStateSet.
  destruct (check_state _ _ _ _ _ _ _) as [u|e] eqn:Hc; cbn [snd]; [|apply confined_tables; try done; lia || by left].
  apply confined_tables; cbn [doors door_state door_notices with_state].
  - done.
  - intros k' Hk. split; [done|]. fold k in Hk. destruct (decide (k' = k)) as [->|]; [by eapply owner_own|]. by rewrite lookup_insert_ne in Hk.
  - intros Hq. unfold check_state in Hc. rewrite !bind_unit_Ok, !require_Ok in Hc. destruct Hc as (_ & _ & _ & Hroom%negb_true_iff & _).
    fold k in Hroom. fold (used (door_name a) (door_state (tables w))) in Hroom. change (DoorStateUsed (door_name a) (tables w)) with (used (door_name a) (door_state (tables w))) in *.
    change (DoorStateUsed _ (with_state _ _)) with (used (door_name a) (<[k := rq_Value req]> (door_state (tables w)))).
    rewrite used_insert, decide_True by done. change k.2 with (rq_Key req). pose proof (entry_size_bound (rq_Key req) (rq_Value req)).
    apply andb_false_iff in Hroom as [?|?]; lia.
  - by left.
Qed.

Lemma stateDelete_confined req w : 2 ≤ level → confined w (stateDelete a req w).2.
Proof.
  intros Hl. unfold stateDelete, with_owner. destruct (owner a (rq_Scope req)) as [[scope who]|] eqn:Ho; [|apply confined_refl].
  set (k := key_of (door_name a) scope who (rq_Key req)). unfold DoorStateDelete.
  destruct (checkScope scope who); cbn [snd]; [|apply confined_tables; try done; lia || by left]. apply confined_tables; cbn [doors door_state door_notices with_state].
  - done.
  - intros k' Hk. split; [done|]. fold k in Hk. destruct (decide (k' = k)) as [->|]; [by eapply owner_own|]. by rewrite lookup_delete_ne in Hk.
  - intros _. change (DoorStateUsed _ (with_state _ _)) with (used (door_name a) (delete k (door_state (tables w)))).
    pose proof (used_delete (door_name a) k (door_state (tables w))). change (DoorStateUsed (door_name a) (tables w)) with (used (door_name a) (door_state (tables w))). lia.
  - by left.
Qed.

Lemma announce_confined now req w : 3 ≤ level → confined w (announce key a now req w).2.
Proof.
  intros Hl. unfold announce. destruct (bool_decide_reflect (TrimSpace (g_AnnounceArea (grant a)) = [])) as [|Hne]; [apply confined_refl|].
  case_bool_decide; [apply confined_refl|].
  destruct (AreaIsFederated _ w) as [[]|e] eqn:Hf; [apply confined_refl| |apply confined_refl].
  unfold AreaIsFederated in Hf. apply bind_Ok in Hf as (ar & Hg & [= Har]).
  pose proof (announce_limit_confined now (g_AnnouncePerHour (grant a)) w) as Hm. destruct (allowAnnounce _ _ _ _) as [ok m]. cbn [snd] in Hm.
  destruct ok; cbn [negb]; [|exact Hm]. eapply confined_trans; [exact Hm|]. unfold Announce. destruct (_ <? _); [apply confined_refl|].
  unfold host_post. cbn [service with_manager].
  pose proof (Post_rows key (seconds now) (DoorAuthor (door_name a)) (TrimSpace (g_AnnounceArea (grant a))) (rq_Subject req) (rq_Text req) (service w)) as Hp.
  destruct (Post _ _ _ _ _ _ _) as [r s]. destruct Hp as ((Hs & Ha & Hq & _) & Hr & Hpub).
  assert (Hc : confined (with_manager m w) (with_service s (with_manager m w))); [|by destruct r].
  apply confined_service; [exact Hs| |rewrite Ha; apply appended_refl|rewrite Hq; apply appended_refl|].
  - intros x Hx. destruct (Hr x Hx) as [?|(i & ar' & _ & _ & Hg' & _ & Ho)]; [by left|right].
    assert (ar' = ar) as -> by (unfold world_board in *; congruence). by apply (by_door _ _ _ ar (rq_Subject req) (TrimRight_newlines (rq_Text req))).
  - intros _. destruct Hpub as [Hpub|(ar' & Hg' & Hfed & _)]; [done|]. unfold world_board in *. congruence.
Qed.

Lemma eventEmit_confined now req w : 3 ≤ level → confined w (eventEmit key a now req w).2.
Proof.
  intros Hl. unfold eventEmit. case_bool_decide; [apply confined_refl|]. destruct (bool_decide_reflect (me = [])) as [|Hne]; [apply confined_refl|].
  case_bool_decide; [apply confined_refl|]. destruct (decode_payload _) as [payload|]; [|apply confined_refl].
  pose proof (league_limit_confined now (g_LeaguePerHour (grant a)) w) as Hm. destruct (allowLeague _ _ _ _) as [ok m]. cbn [snd] in Hm.
  destruct ok; cbn [negb]; [|exact Hm]. eapply confined_trans; [exact Hm|]. set (w1 := with_manager m w). set (ev := Leagues.mkRequested _ _ _ _ _ _ _).
  pose proof (LeaguesFacts.QueueDoorEvent_spec key (seconds now) (aliases w1) ev (world_board w1)) as Hq.
  destruct (Leagues.QueueDoorEvent _ _ _ _ _) as [r b]. destruct Hq as [_ Hq].
  assert (Hc : confined w1 (with_service (with_board b (service w1)) w1)).
  { destruct r as [u|e]; [|subst b; apply confined_service; try done; [by left|apply appended_refl..]]. destruct Hq as (ar & e & (Hg & Hk & Hf & He & _) & ->).
    apply confined_service; try done; [by left|apply appended_refl|]. eexists. split; [done|]. constructor; [|done].
    split_and!; try done; [|by exists ar]. cbn. unfold Leagues.league_event in He. destruct (if bool_decide _ then _ else _) as [[tg nd]|]; cbn in He; [|done].
    apply bind_Ok in He as (? & _ & [= <-]). done. }
  destruct r as [u|e]; [|exact Hc]. eapply confined_trans; [exact Hc|]. pose proof (noticeFor_confined (with_service (with_board b (service w1)) w1)) as Hn.
  by destruct (noticeFor a _) as [notice w2].
Qed.

(** Acting for the user: what was written, the row of the audit log, the notice. *)
Lemma acted_confined now action target i w w1 : 4 ≤ level → (action = PostAsUser ∨ action = DMAsUser) →
  confined w (recordActAsUser a (seconds now) action target i w1) → confined w (acted a now action target i w1).2.
Proof.
  intros Hl Ha Hc. unfold acted. eapply confined_trans; [exact Hc|]. pose proof (noticeFor_confined (recordActAsUser a (seconds now) action target i w1)) as Hn.
  by destruct (noticeFor a _) as [notice w2].
Qed.

Lemma userPost_confined now req w : 4 ≤ level → confined w (userPost key a now req w).2.
Proof.
  intros Hl. unfold userPost. destruct (bool_decide_reflect (me = [])) as [|Hne]; [apply confined_refl|]. unfold host_post.
  pose proof (Post_rows key (seconds now) me (rq_Area req) (rq_Subject req) (rq_Text req) (service w)) as Hp.
  destruct (Post _ _ _ _ _ _ _) as [r s]. destruct Hp as ((Hs & Ha & Hq & _) & Hr & Hpub).
  assert (Hfed : level < 4 ∨ HasCapability me CapPostFederated (world_board w) ≠ Ok true → publisher s = publisher (service w) ∧ reports s = reports (service w)).
  { intros H. destruct Hpub as [?|(ar & _ & _ & Hcap)]; [done|]. destruct H; [lia|]. done. }
  destruct r as [i|e].
  - apply acted_confined; [done|by left|]. unfold recordActAsUser, host_audit. cbn [world_board service with_service].
    apply (confined_service w (with_board (Audit (seconds now) me PostAsUser (rq_Area req) (Text (act_detail a i)) (board s)) s)); [exact Hs| |cbn; rewrite Ha; eexists; split; [done|]; constructor; [by auto|done]|cbn; rewrite Hq; apply appended_refl|exact Hfed].
    intros x Hx. destruct (Hr x Hx) as [?|(i' & ar & [= <-] & Hi & Hg & Hm & Ho)]; [by left|right].
    apply (by_user _ _ _ (rq_Area req) ar (rq_Subject req) (TrimRight_newlines (rq_Text req))); try done. eexists. cbn. apply elem_of_app. right. rewrite Hi. by apply list_elem_of_singleton.
  - cbn [snd]. apply confined_service; [exact Hs| |rewrite Ha; apply appended_refl|rewrite Hq; apply appended_refl|exact Hfed].
    intros x Hx. destruct (Hr x Hx) as [?|(i & ar & [=] & _)]. by left.
Qed.

Lemma confined_mail w t :
  dm_public_key t = dm_public_key (mail w) ∧ dm_wrapped_key t = dm_wrapped_key (mail w) →
  appended (λ d, 4 ≤ level ∧ me ≠ [] ∧ d_Sender d = me) (dm_index (mail w)) (dm_index t) → confined w (with_mail t w).
Proof. intros. split; try done; try apply appended_refl; [cbn; lia|by left|by left]. Qed.

Lemma userDM_confined now random req w : 4 ≤ level → confined w (userDM key a now random req w).2.
Proof.
  intros Hl. unfold userDM. destruct (bool_decide_reflect (me = [])) as [|Hne]; [apply confined_refl|]. unfold SendDMAs.
  pose proof (SendDM_rows key (seconds now) random me (rq_To req) (rq_Subject req) (rq_Text req) (aliases w) (world_board w) (mail w)) as Hp.
  destruct (SendDM _ _ _ _ _ _ _ _ _ _) as [[r b] t]. destruct Hp as ((Hs & Ha & Hq & _) & Hk1 & Hk2 & Hr & Hi).
  assert (Hmail : appended (λ d, 4 ≤ level ∧ me ≠ [] ∧ d_Sender d = me) (dm_index (mail w)) (dm_index t)).
  { destruct Hi as [->|(i & d & _ & _ & Hd & ->)]; [apply appended_refl|]. exists [d]. split; [done|]. by constructor. }
  destruct r as [i|e].
  - apply acted_confined; [done|by right|]. set (s := with_board (Audit (seconds now) me DMAsUser (rq_To req) (Text (act_detail a i)) b) (service w)).
    change (recordActAsUser _ _ _ _ _ _) with (with_mail t (with_service s w)).
    eapply confined_trans; [apply (confined_service w s)|by apply (confined_mail (with_service s w) t)]; [exact Hs| | |cbn; rewrite Hq; apply appended_refl|done].
    + intros x Hx. destruct (Hr x Hx) as [?|(i' & to & sealed & [= <-] & Hid & Ho)]; [by left|right].
      apply (mailed _ _ _ (rq_To req) to sealed); try done. eexists. cbn. apply elem_of_app. right. rewrite Hid. by apply list_elem_of_singleton.
    + cbn. rewrite Ha. eexists. split; [done|]. constructor; [by auto|done].
  - set (s := with_board b (service w)). change (confined w (with_mail t (with_service s w))).
    eapply confined_trans; [apply (confined_service w s)|by apply (confined_mail (with_service s w) t)]; [exact Hs| |cbn; rewrite Ha; apply appended_refl|cbn; rewrite Hq; apply appended_refl|done].
    intros x Hx. destruct (Hr x Hx) as [?|(i & to & sealed & [=] & _)]. by left.
Qed.

Lemma dispatch_confined now random req w : confined w (dispatch key a now random req w).2.
Proof.
  unfold dispatch. destruct (op_named (rq_Op req)) as [o|]; [|apply confined_refl]. destruct (Z.ltb_spec level (levelFor o)) as [|Hl]; [apply confined_refl|].
  destruct o; cbn [levelFor perform] in *; try apply confined_refl.
  - unfold stateGet, with_owner. destruct (owner a _) as [[]|]; apply confined_refl.
  - by apply stateSet_confined.
  - by apply stateDelete_confined.
  - unfold stateKeys, with_owner. destruct (owner a _) as [[]|]; apply confined_refl.
  - by apply announce_confined.
  - by apply eventEmit_confined.
  - by apply userPost_confined.
  - by apply userDM_confined.
Qed.

(** What is set is what is found afterwards, by the scope and the key; a write refused
    leaves the state as it was. *)
Lemma state_set_get req w :
  let '(r, w') := stateSet a req w in
  (r ≠ Done → door_state (tables w') = door_state (tables w)) ∧
  (r = Done → ∀ get, owner a (rq_Scope get) = owner a (rq_Scope req) → rq_Key get = rq_Key req → stateGet a get w' = (ValueAnswer (rq_Value req) true, w')).
Proof.
  unfold stateSet, stateGet, with_owner. destruct (owner a (rq_Scope req)) as [[scope who]|e]; [|by split]. unfold DoorStateSet.
  destruct (check_state _ _ _ _ _ _ _) as [u|e] eqn:Hc; [|by split]. split; [done|]. intros _ get -> ->. unfold DoorStateGet.
  unfold check_state in Hc. apply bind_Ok in Hc as (v & -> & _). cbn. by rewrite lookup_insert_eq.
Qed.

(** *** A server *)

Lemma serve_confined ev (s : Server) : confined (world s) (world (serve key a ev s).2).
Proof.
  destruct ev as [n|n now random line|n|n|n|]; cbn [serve]; try apply confined_refl.
  - destruct (closing s); [apply confined_refl|]. destruct (decide _); apply confined_refl.
  - destruct (conns s !! n) as [greeted|]; [|apply confined_refl]. unfold serve_line. case_bool_decide; [apply confined_refl|].
    destruct (parse_request line) as [req|]; [|apply confined_refl]. destruct greeted; [|destruct (says_hello a req); apply confined_refl].
    pose proof (dispatch_confined now random req (world s)) as Hd. by destruct (dispatch _ _ _ _ _ _) as [r w].
  - destruct (conns s !! n) as [[]|]; apply confined_refl.
Qed.

Lemma serve_all_confined evs (s : Server) : confined (world s) (world (serve_all key a evs s).2).
Proof.
  revert s. induction evs as [|ev evs IH]; intros s; [apply confined_refl|]. cbn [serve_all]. pose proof (serve_confined ev s) as H.
  destruct (serve key a ev s) as [r s1]. specialize (IH s1). destruct (serve_all key a evs s1) as [rs s2]. by eapply confined_trans.
Qed.

(** A connection that has said hello did so with the token. *)
Definition hello_in (evs : list api_event) : Prop :=
  ∃ n now random line req, Line n now random line ∈ evs ∧ parse_request line = Some req ∧ says_hello a req = true.

Lemma serve_greets ev (s : Server) n : conns (serve key a ev s).2 !! n = Some true → conns s !! n = Some true ∨ hello_in [ev].
Proof.
  destruct ev as [m|m now random line|m|m|m|]; cbn [serve].
  - destruct (closing s); [by left|]. destruct (decide _); [by left|]. cbn. destruct (decide (m = n)) as [->|]; [by rewrite lookup_insert_eq|rewrite lookup_insert_ne by done; by left].
  - destruct (conns s !! m) as [greeted|] eqn:Hm; [|by left]. unfold serve_line. case_bool_decide; [by left|].
    destruct (parse_request line) as [req|] eqn:Hreq; [|by left]. destruct greeted; [destruct (dispatch _ _ _ _ _ _); by left|].
    destruct (says_hello a req) eqn:Hh; [intros _; right; exists m, now, random, line, req; split; [by left|done]|].
    cbn. rewrite lookup_delete_Some. intros [_ ?]. by left.
  - cbn. rewrite lookup_delete_Some. intros [_ ?]. by left.
  - cbn. rewrite lookup_delete_Some. intros [_ ?]. by left.
  - destruct (conns s !! m) as [[]|] eqn:Hm; [by left| |by left]. cbn. rewrite lookup_delete_Some. intros [_ ?]. by left.
  - cbn. by rewrite lookup_empty.
Qed.

(** Without one, nothing happens. *)
Lemma serve_all_silent evs (s : Server) : (∀ n, conns s !! n ≠ Some true) → ¬ hello_in evs → world (serve_all key a evs s).2 = world s.
Proof.
  revert s. induction evs as [|ev evs IH]; intros s Hc Hno; [done|]. cbn [serve_all]. pose proof (serve_greets ev s) as Hg.
  assert (Hw : world (serve key a ev s).2 = world s).
  { destruct ev as [n|n now random line|n|n|n|]; cbn [serve]; try done.
    - destruct (closing s); [done|]. by destruct (decide _).
    - specialize (Hc n). destruct (conns s !! n) as [[]|]; [done| |done]. unfold serve_line. case_bool_decide; [done|]. destruct (parse_request line) as [req|]; [|done].
      by destruct (says_hello a req).
    - by destruct (conns s !! n) as [[]|]. }
  destruct (serve key a ev s) as [r s1]. cbn [snd] in *. specialize (IH s1). destruct (serve_all key a evs s1) as [rs s2]. cbn [snd] in *. rewrite <- Hw. apply IH.
  - intros n Hn. destruct (Hg n Hn) as [?|(m & now & random & line & req & Hin & H)]; [by apply (Hc n)|]. apply Hno. exists m, now, random, line, req. split; [|done].
    apply list_elem_of_singleton in Hin as ->. by left.
  - intros (m & now & random & line & req & Hin & H). apply Hno. exists m, now, random, line, req. split; [by right|done].
Qed.

Lemma serve_all_closed evs (s : Server) : closing s = true → conns s = ∅ → world (serve_all key a evs s).2 = world s.
Proof.
  revert s. induction evs as [|ev evs IH]; intros s Hcl He; [done|]. cbn [serve_all].
  assert (Hs : serve key a ev s = (None, s) ∨ ∃ s1, serve key a ev s = (None, s1) ∧ closing s1 = true ∧ conns s1 = ∅ ∧ world s1 = world s).
  { destruct ev as [n|n now random line|n|n|n|]; cbn [serve]; rewrite ?He, ?lookup_empty, ?Hcl; try (by left); right; eexists; (split; [reflexivity|]); cbn; rewrite ?He, ?delete_empty; done. }
  destruct Hs as [->|(s1 & -> & Hc1 & He1 & <-)].
  - specialize (IH s Hcl He). by destruct (serve_all key a evs s).
  - specialize (IH s1 Hc1 He1). by destruct (serve_all key a evs s1).
Qed.

(** No account can have the name a door announces under. *)
Lemma DoorAuthor_is_no_nick name nick : ValidateNick nick = Ok tt → DoorAuthor name ≠ nick.
Proof.
  unfold ValidateNick. rewrite !bind_unit_Ok, !require_Ok. intros (_ & H & _) <-. by vm_compute in H.
Qed.

End confined.
