(* ===== verification/Terminal.v ===== *)
(** * Text for terminals (internal/term/cp437.go)

    Code page 437 to Unicode and back, what a client is taken to want, and what is left
    of untrusted text before it reaches a screen. *)

From stdpp Require Import strings.
From S2P Require Import Prelude Binary Identity Text GoStrings.

(** ** Code page 437 *)

Definition cp437 : list Z := [
  0x00C7; 0x00FC; 0x00E9; 0x00E2; 0x00E4; 0x00E0; 0x00E5; 0x00E7;
  0x00EA; 0x00EB; 0x00E8; 0x00EF; 0x00EE; 0x00EC; 0x00C4; 0x00C5;
  0x00C9; 0x00E6; 0x00C6; 0x00F4; 0x00F6; 0x00F2; 0x00FB; 0x00F9;
  0x00FF; 0x00D6; 0x00DC; 0x00A2; 0x00A3; 0x00A5; 0x20A7; 0x0192;
  0x00E1; 0x00ED; 0x00F3; 0x00FA; 0x00F1; 0x00D1; 0x00AA; 0x00BA;
  0x00BF; 0x2310; 0x00AC; 0x00BD; 0x00BC; 0x00A1; 0x00AB; 0x00BB;
  0x2591; 0x2592; 0x2593; 0x2502; 0x2524; 0x2561; 0x2562; 0x2556;
  0x2555; 0x2563; 0x2551; 0x2557; 0x255D; 0x255C; 0x255B; 0x2510;
  0x2514; 0x2534; 0x252C; 0x251C; 0x2500; 0x253C; 0x255E; 0x255F;
  0x255A; 0x2554; 0x2569; 0x2566; 0x2560; 0x2550; 0x256C; 0x2567;
  0x2568; 0x2564; 0x2565; 0x2559; 0x2558; 0x2552; 0x2553; 0x256B;
  0x256A; 0x2518; 0x250C; 0x2588; 0x2584; 0x258C; 0x2590; 0x2580;
  0x03B1; 0x00DF; 0x0393; 0x03C0; 0x03A3; 0x03C3; 0x00B5; 0x03C4;
  0x03A6; 0x0398; 0x03A9; 0x03B4; 0x221E; 0x03C6; 0x03B5; 0x2229;
  0x2261; 0x00B1; 0x2265; 0x2264; 0x2320; 0x2321; 0x00F7; 0x2248;
  0x00B0; 0x2219; 0x00B7; 0x221A; 0x207F; 0x00B2; 0x25A0; 0x00A0].

(** [reverse]: the byte of a rune. *)
Definition cp437_reverse (r : Z) : option byte :=
  (λ i : nat * Z, z2b (Z.of_nat i.1 + 128)) <$> list_find (λ x, x = r) cp437.

Inductive Encoding := EncodingUTF8 | EncodingCP437.

Definition codes (s : bytes) : list Z := (λ x : Z * Z * bool, x.1.2) <$> runes s.

Definition cp437_rune (c : byte) : Z := if b2z c <? 128 then b2z c else nth (Z.to_nat (b2z c - 128)) cp437 0.
Definition ToUnicode (b : bytes) : bytes := b ≫= λ c, if b2z c <? 128 then [c] else write_rune (nth (Z.to_nat (b2z c - 128)) cp437 0).
Definition question : byte := Byte.x3f.
Definition ToCP437 (s : bytes) : bytes :=
  (λ r, if r <? 128 then z2b r else default question (cp437_reverse r)) <$> codes s.

Definition Encode (s : bytes) (enc : Encoding) : bytes := match enc with EncodingCP437 => ToCP437 s | EncodingUTF8 => s end.

(** [strings.Contains(strings.ToUpper(v), …)]: no other rune's upper case is one of these. *)
Definition ToUpper_byte (c : byte) : byte := if is_lower (b2z c) then z2b (b2z c - 32) else c.
Definition contains_upper (needle v : bytes) : bool :=
  existsb (λ i, bool_decide (take (length needle) (drop i (ToUpper_byte <$> v)) = needle)) (seq 0 (S (length v))).
Definition says_utf8 (v : bytes) : bool := contains_upper (str "UTF-8"%string) v || contains_upper (str "UTF8"%string) v.

Definition locale_keys : list bytes := [str "LC_ALL"%string; str "LC_CTYPE"%string; str "LANG"%string].
Definition legacy_terminals : list bytes :=
  [str "ansi"%string; str "ansi-bbs"%string; str "syncterm"%string; str "pcansi"%string; str "avatar"%string].
Definition DetectEncoding (termType : bytes) (env : gmap bytes bytes) : Encoding :=
  match List.find (λ v, negb (bool_decide (v = []))) (omap (λ k, env !! k) locale_keys) with
  | Some v => if says_utf8 v then EncodingUTF8 else EncodingCP437
  | None => match ToLower_ascii termType with Some t => if bool_decide (t ∈ legacy_terminals) then EncodingCP437 else EncodingUTF8 | None => EncodingUTF8 end
  end.

(** ** Untrusted text *)

(** [strings.ToValidUTF8(s, "?")]: one mark for a run of bytes that are no rune. Every
    round consumes a byte. *)
Fixpoint to_valid (fuel : nat) (invalid : bool) (s : bytes) : bytes :=
  match fuel, s with
  | S fuel, _ :: _ =>
      let '(_, w, ok) := decode_rune s in
      if ok then take w s ++ to_valid fuel false (drop w s)
      else (if invalid then [] else [question]) ++ to_valid fuel true (drop w s)
  | _, _ => []
  end.
Definition ToValidUTF8 (s : bytes) : bytes := to_valid (length s) false s.

Definition shown (r : Z) : bool :=
  if (r =? 0x0a) || (r =? 0x09) then true
  else if r =? 0x0d then false
  else if (r <? 0x20) || (r =? 0x7f) then false
  else negb ((0x80 <=? r) && (r <=? 0x9f)).

Definition SanitizeForDisplay (s : bytes) : bytes :=
  let s := if ValidString s then s else ToValidUTF8 s in
  codes s ≫= λ r, if shown r then write_rune r else [].

Definition blank (c : byte) : byte := if bool_decide (c = Byte.x0a) || bool_decide (c = Byte.x09) then Byte.x20 else c.
Definition SanitizeLine (s : bytes) : bytes := blank <$> SanitizeForDisplay s.

(** ** Runes written and read *)

Definition spell (rs : list Z) : bytes := rs ≫= write_rune.
(** What is written of a rune that is none. *)
Definition fixed (r : Z) : Z := if (r <? 0) || (0x10FFFF <? r) || ((0xD800 <=? r) && (r <=? 0xDFFF)) then RuneError else r.

Lemma fixed_scalar r : scalar (fixed r).
Proof. unfold fixed, scalar, RuneError. destruct (_ || _) eqn:E; lia. Qed.
Lemma fixed_id r : scalar r → fixed r = r.
Proof. unfold fixed, scalar. intros H. destruct (_ || _) eqn:E; lia. Qed.
Lemma write_fixed r : write_rune (fixed r) = write_rune r.
Proof.
  pose proof (fixed_id _ (fixed_scalar r)) as E. unfold write_rune. change (if _ || _ || _ then RuneError else fixed r) with (fixed (fixed r)). rewrite E. done.
Qed.
Lemma shown_fixed r : shown r = true → shown (fixed r) = true.
Proof. unfold fixed. by destruct (_ || _). Qed.

Lemma length_write r : (0 < length (write_rune r))%nat.
Proof. unfold write_rune. repeat case_match; cbn; lia. Qed.

Lemma runes_spell rs fuel i : Forall scalar rs → (length (spell rs) ≤ fuel)%nat →
  (λ x : Z * Z * bool, (x.1.2, x.2)) <$> runes_from fuel i (spell rs) = (λ r, (r, true)) <$> rs.
Proof.
  intros Hrs. revert fuel i. induction Hrs as [|r rs Hr _ IH]; intros fuel i Hf; [by destruct fuel|].
  change (spell (r :: rs)) with (write_rune r ++ spell rs) in *. rewrite length_app in Hf. pose proof (length_write r) as Hl.
  destruct fuel as [|fuel]; [lia|]. pose proof (decode_write r (spell rs) Hr) as Hd. destruct (write_rune r ++ spell rs) as [|c s] eqn:E.
  { apply (f_equal length) in E. rewrite length_app in E. cbn in E. lia. }
  cbn [runes_from]. rewrite Hd. cbn [fmap list_fmap]. f_equal. rewrite <- E, drop_app_length. apply IH. lia.
Qed.

Lemma codes_spell rs : Forall scalar rs → codes (spell rs) = rs ∧ ValidString (spell rs) = true.
Proof.
  intros Hrs. pose proof (runes_spell rs (length (spell rs)) 0 Hrs ltac:(lia)) as H. fold (runes (spell rs)) in H. split.
  - unfold codes. apply (f_equal (fmap fst)) in H. rewrite <- !list_fmap_compose in H. etrans; [exact H|]. apply list_fmap_id.
  - unfold ValidString. apply (f_equal (fmap snd)) in H. rewrite <- !list_fmap_compose in H. apply forallb_forall. intros x Hx%list_elem_of_In.
    assert (Hin : x.2 ∈ (λ _ : Z, true) <$> rs) by (change (λ _ : Z, true) with (snd ∘ λ r : Z, (r, true)); rewrite <- H; by apply (list_elem_of_fmap_2 (snd ∘ λ x : Z * Z * bool, (x.1.2, x.2)))).
    apply list_elem_of_fmap in Hin as (? & -> & _). done.
Qed.

(** What is left of a text, rune by rune. *)
Lemma Sanitize_spell s : ∃ rs, Forall (λ r, scalar r ∧ shown r = true) rs ∧ SanitizeForDisplay s = spell rs.
Proof.
  unfold SanitizeForDisplay. generalize (codes (if ValidString s then s else ToValidUTF8 s)). intros cs.
  exists (fixed <$> filter (λ r, shown r = true) cs). split.
  - apply Forall_forall. intros x (r & -> & [Hr _]%list_elem_of_filter)%list_elem_of_fmap. split; [apply fixed_scalar|by apply shown_fixed].
  - induction cs as [|r cs IH]; [done|]. rewrite filter_cons. cbn [mbind list_bind]. change (list_bind _ _ _ cs) with (cs ≫= λ r, if shown r then write_rune r else []). rewrite IH.
    destruct (shown r) eqn:E; [rewrite decide_True by done|by rewrite decide_False by congruence]. cbn [fmap list_fmap].
    change (spell (fixed r :: ?x)) with (write_rune (fixed r) ++ spell x). by rewrite write_fixed.
Qed.

Lemma Sanitize_shown rs : Forall (λ r, scalar r ∧ shown r = true) rs → SanitizeForDisplay (spell rs) = spell rs.
Proof.
  intros Hrs. destruct (codes_spell rs) as [Hc Hv]; [eapply Forall_impl; [exact Hrs|naive_solver]|]. unfold SanitizeForDisplay. rewrite Hv, Hc. clear Hc Hv.
  induction Hrs as [|r rs [_ Hr] _ IH]; [done|]. cbn. rewrite Hr. f_equal. exact IH.
Qed.

(** ** Bytes a screen may get *)

Definition screen_byte (b : byte) : Prop := (0x20 ≤ b2z b ∧ b2z b ≠ 0x7f) ∨ b = Byte.x0a ∨ b = Byte.x09.

Lemma write_screen r : scalar r → shown r = true → Forall screen_byte (write_rune r).
Proof.
  intros Hr Hs. pose proof (decode_write r [] Hr) as Hd. rewrite app_nil_r in Hd. apply decode_rune_bytes in Hd as [_ [(b & E & -> & Hlt)|Hall]].
  - rewrite firstn_all in E. rewrite E. constructor; [|done]. unfold shown in Hs. unfold screen_byte.
    destruct (Z.eqb_spec (b2z b) 0x0a) as [E1|]; [right; left; by apply b2z_inj|]. destruct (Z.eqb_spec (b2z b) 0x09) as [E1|]; [right; right; by apply b2z_inj|].
    cbn [orb] in Hs. left. destruct (b2z b =? 0x0d); [done|]. destruct ((b2z b <? 0x20) || (b2z b =? 0x7f)) eqn:E0; [done|]. lia.
  - rewrite firstn_all in Hall. eapply Forall_impl; [exact Hall|]. cbn. intros b Hb. left. lia.
Qed.

Definition entry_good (n : Z) : bool :=
  let r := nth (Z.to_nat (n - 128)) cp437 0 in
  (0x80 <=? r) && (r <=? 0x25A0) && bool_decide (cp437_reverse r = Some (z2b n)).
Lemma table_good : forallb entry_good (seqZ 128 128) = true.
Proof. vm_compute. reflexivity. Qed.

Lemma reverse_high r b : cp437_reverse r = Some b → 0x80 ≤ b2z b.
Proof.
  unfold cp437_reverse. destruct (list_find _ cp437) as [[i x]|] eqn:E; [|done]. intros [= <-]. apply list_find_Some in E as (Hi%lookup_lt_Some & _).
  change (length cp437) with 128%nat in Hi. cbn [fst]. rewrite b2z_z2b_small; lia.
Qed.

(** Code page 437 survives being shown as Unicode and sent back. *)
Lemma ToCP437_ToUnicode b : ToCP437 (ToUnicode b) = b.
Proof.
  assert (Ht : ∀ c, b2z c <? 128 = false → scalar (cp437_rune c) ∧ (cp437_rune c <? 128) = false ∧ cp437_reverse (cp437_rune c) = Some c).
  { intros c Hc. pose proof (b2z_range c) as Hr. pose proof (proj1 (forallb_forall entry_good (seqZ 128 128)) table_good (b2z c)) as H.
    specialize (H ltac:(apply list_elem_of_In, elem_of_seqZ; lia)). unfold entry_good in H. apply andb_true_iff in H as [H1 H2%bool_decide_eq_true]. unfold cp437_rune. rewrite Hc. rewrite z2b_b2z in H2. unfold scalar. split; [lia|]. split; [lia|done]. }
  assert (Hs : ToUnicode b = spell (cp437_rune <$> b)).
  { induction b as [|c b IH]; [done|]. cbn [ToUnicode mbind list_bind]. fold (ToUnicode b). change (spell (cp437_rune <$> c :: b)) with (write_rune (cp437_rune c) ++ spell (cp437_rune <$> b)).
    change (list_bind _ _ _ b) with (ToUnicode b). rewrite IH. f_equal. unfold cp437_rune. destruct (b2z c <? 128) eqn:E; [|done].
    pose proof (b2z_range c). unfold write_rune. replace ((b2z c <? 0) || (0x10FFFF <? b2z c) || ((0xD800 <=? b2z c) && (b2z c <=? 0xDFFF))) with false by lia.
    rewrite E. by rewrite z2b_b2z. }
  unfold ToCP437. rewrite Hs. destruct (codes_spell (cp437_rune <$> b)) as [-> _].
  { apply Forall_fmap, Forall_forall. intros c _. cbn. unfold cp437_rune. pose proof (b2z_range c). destruct (b2z c <? 128) eqn:E; [unfold scalar; lia|].
    destruct (Ht c E) as [H1 _]. unfold cp437_rune in H1. by rewrite E in H1. }
  rewrite <- list_fmap_compose. rewrite <- (list_fmap_id b) at 2. apply list_fmap_ext. intros i c _. unfold compose, id.
  destruct (b2z c <? 128) eqn:E; [unfold cp437_rune; rewrite E, E; by rewrite z2b_b2z|]. destruct (Ht c E) as (_ & -> & E2). by rewrite E2.
Qed.

(** C29: whatever text others sent, what is left of it for a screen is well-formed UTF-8
    without controls of either block but line feeds and tabs, in runes and, in either
    encoding, in bytes; sanitising it again changes nothing, and text without such
    controls is left as it is; a line has no line feed or tab; and code page 437 is read
    back as it was from its Unicode form. *)
Theorem display_safe s :
  (∃ rs, Forall (λ r, scalar r ∧ shown r = true) rs ∧ SanitizeForDisplay s = spell rs ∧ codes (SanitizeForDisplay s) = rs) ∧
  ValidString (SanitizeForDisplay s) = true ∧ SanitizeForDisplay (SanitizeForDisplay s) = SanitizeForDisplay s ∧
  (∀ rs, Forall (λ r, scalar r ∧ shown r = true) rs → s = spell rs → SanitizeForDisplay s = s) ∧
  (∀ enc, Forall screen_byte (Encode (SanitizeForDisplay s) enc)) ∧
  Forall (λ b, 0x20 ≤ b2z b ∧ b2z b ≠ 0x7f) (SanitizeLine s) ∧
  ToCP437 (ToUnicode s) = s.
Proof.
  destruct (Sanitize_spell s) as (rs & Hrs & E). assert (Hsc : Forall scalar rs) by (eapply Forall_impl; [exact Hrs|naive_solver]).
  destruct (codes_spell rs Hsc) as [Hc Hv].
  assert (Hb : Forall screen_byte (spell rs)) by (apply Forall_bind; eapply Forall_impl; [exact Hrs|]; intros r [H1 H2]; by apply write_screen).
  split_and!; rewrite ?E.
  - exists rs. done.
  - done.
  - by apply Sanitize_shown.
  - intros rs' Hrs' ->. rewrite <- E. by apply Sanitize_shown.
  - intros []; [exact Hb|]. cbn [Encode]. unfold ToCP437. rewrite Hc. apply Forall_fmap. eapply Forall_impl; [exact Hrs|]. intros r [Hr Hs]. unfold compose.
    destruct (Z.ltb_spec r 128) as [Hlt|].
    + pose proof (write_screen r Hr Hs) as Hw. unfold write_rune in Hw. destruct Hr. replace ((r <? 0) || (0x10FFFF <? r) || ((0xD800 <=? r) && (r <=? 0xDFFF))) with false in Hw by lia.
      replace (r <? 0x80) with true in Hw by lia. by apply Forall_cons in Hw as [? _].
    + destruct (cp437_reverse r) as [b|] eqn:Eb; [change (screen_byte b)|change (screen_byte question); left; split; [by_compute|by_compute]]. apply reverse_high in Eb. left. lia.
  - unfold SanitizeLine. rewrite E. apply Forall_fmap. eapply Forall_impl; [exact Hb|]. intros b Hsb. cbn. unfold blank.
    assert (Hsp : 0x20 ≤ b2z Byte.x20 ∧ b2z Byte.x20 ≠ 0x7f) by by_compute.
    destruct (bool_decide_reflect (b = Byte.x0a)); [done|]. destruct (bool_decide_reflect (b = Byte.x09)); [done|]. by destruct Hsb as [?|[?|?]].
  - apply ToCP437_ToUnicode.
Qed.
