(* ===== verification/Survey.v ===== *)
(** * Measuring the flood multiplier (internal/survey/survey.go, report.go, census.go, radio.go)

    The survey of a mesh: the check that a node can be measured, the silent and the
    loaded phases, what is estimated from them and priced, and the census of what was
    heard. The radio and the clock are the interface [Radio]: what they report, how long
    a wait takes and what becomes of a transmission is theirs. Every attempt to transmit
    is kept, with when and at what hop limit. Times are nanoseconds; progress reports,
    the texts of the report and the context's deadline are not modelled. *)

From stdpp Require Import strings.
From Stdlib Require Import Floats.SpecFloat.
From S2P Require Import Prelude Binary Identity Order GoStrings Float64.
From S2P Require Import Airtime.
From S2P Require MeshSession.

Definition Second : Z := 1000000000.
Definition Minute : Z := 60 * Second.

(** ** Readings *)

Record Metrics := mkMetrics { ChannelUtilization : float64; AirUtilTx : float64; Uptime : Z; At : Z }.
Definition fresh (m prev : Metrics) : bool := negb (Uptime m =? Uptime prev).
Definition no_metrics : Metrics := mkMetrics f0 f0 0 0.

Definition DefaultTelemetryInterval : Z := 30 * Minute.
Definition maxPlausibleInterval : Z := 24 * 60 * Minute.
Definition TelemetryCadence (secs : Z) : Z * bool :=
  if secs =? 0 then (DefaultTelemetryInterval, false)
  else if maxPlausibleInterval <? secs * Second then (DefaultTelemetryInterval, false)
  else (secs * Second, true).

(** The radio, its clock, and a context that may be cancelled: [wait] tells whether it was. *)
Class Radio (S : Type) := {
  metrics : S → option Metrics;
  now : S → Z;
  wait : Z → S → bool * S;
  transmit : Z → Z → S → bool * S;
}.

(** ** Configuration *)

Record Config := mkConfig {
  Baseline : Z; Load : Z; Sample : Z; Probe : Z; HopLimits : list Z; TargetDuty : float64; PayloadBytes : Z;
  MaxAmbient : float64; AbortRise : float64; TransmitRetries : Z; TransmitBackoff : Z
}.

Definition minPhaseSamples : Z := 5.
Definition or_else (x d : Z) : Z := if x <=? 0 then d else x.
Definition f_or_else (x d : float64) : float64 := if fle x f0 then d else x.

Definition applyDefaults (c : Config) : Config :=
  let baseline := or_else (Baseline c) (30 * Minute) in
  let load := or_else (Load c) (30 * Minute) in
  let sample := or_else (Sample c) Minute in
  let shortest := if load <? baseline then load else baseline in
  let probe := Z.quot shortest minPhaseSamples in
  mkConfig baseline load sample (if Probe c <=? 0 then (if probe <? 2 * sample then 2 * sample else probe) else Probe c)
    (if bool_decide (HopLimits c = []) then [1; 3; 5] else HopLimits c) (f_or_else (TargetDuty c) (of_int 1)) (or_else (PayloadBytes c) 200)
    (f_or_else (MaxAmbient c) (of_int 25)) (f_or_else (AbortRise c) (of_int 15)) (or_else (TransmitRetries c) 3) (or_else (TransmitBackoff c) (5 * Second)).

(** ** Statistics *)

Definition fsqrt : float64 → float64 := SFsqrt 53 1024.
Definition sqr (x : float64) : float64 := fmul x x.
Definition fsum (xs : list float64) : float64 := foldl fadd f0 xs.
Definition count (xs : list float64) : float64 := of_int (Z.of_nat (length xs)).
Definition mean (xs : list float64) : float64 := if bool_decide (xs = []) then f0 else fdiv (fsum xs) (count xs).
Definition stddev (xs : list float64) : float64 :=
  if (length xs <? 2)%nat then f0
  else
    let m := mean xs in
    fsqrt (fdiv (fsum ((λ x, sqr (fsub x m)) <$> xs)) (of_int (Z.of_nat (length xs) - 1))).
Definition sem (xs : list float64) : float64 := if (length xs <? 2)%nat then f0 else fdiv (stddev xs) (fsqrt (count xs)).

(** [Duration.Seconds]. *)
Definition seconds (d : Z) : float64 := fadd (of_int (Z.quot d Second)) (fdiv (of_int (Z.rem d Second)) (of_int Second)).

(** ** Phases *)

Record Phase := mkPhase {
  ph_HopLimit : Z; Started : Z; Ended : Z; Samples : list Metrics; Stale : Z; Sent : Z; Airtime : Z; Retries : Z
}.
Definition percent (part whole : Z) : float64 := fmul (fdiv (seconds part) (seconds whole)) (of_int 100).
Definition DutyCycle (p : Phase) : float64 := let span := Ended p - Started p in if span <=? 0 then f0 else percent (Airtime p) span.
Definition channelSeries (p : Phase) : list float64 := ChannelUtilization <$> Samples p.
Definition txSeries (p : Phase) : list float64 := AirUtilTx <$> Samples p.
Definition MeanChannel (p : Phase) : float64 := mean (channelSeries p).
Definition MeanTx (p : Phase) : float64 := mean (txSeries p).
Definition SDChannel (p : Phase) : float64 := stddev (channelSeries p).

Definition channelSettle : Z := 2 * Minute.
Definition afterSettling (d : Z) (p : Phase) : Phase :=
  let kept := filter (λ m, Started p + d ≤ At m) (Samples p) in
  if bool_decide (kept = []) then p
  else mkPhase (ph_HopLimit p) (Started p) (Ended p) kept (Stale p) (Sent p) (Airtime p) (Retries p).

Definition sampled (m : Metrics) (prev : Metrics) (p : Phase) : Metrics * Phase :=
  if fresh m prev then (m, mkPhase (ph_HopLimit p) (Started p) (Ended p) (Samples p ++ [m]) (Stale p) (Sent p) (Airtime p) (Retries p))
  else (prev, mkPhase (ph_HopLimit p) (Started p) (Ended p) (Samples p) (Stale p + 1) (Sent p) (Airtime p) (Retries p)).
Definition retried (p : Phase) : Phase := mkPhase (ph_HopLimit p) (Started p) (Ended p) (Samples p) (Stale p) (Sent p) (Airtime p) (Retries p + 1).
Definition sent (one : Z) (p : Phase) : Phase := mkPhase (ph_HopLimit p) (Started p) (Ended p) (Samples p) (Stale p) (Sent p + 1) (Airtime p + one) (Retries p).
Definition ended (t : Z) (p : Phase) : Phase := mkPhase (ph_HopLimit p) (Started p) t (Samples p) (Stale p) (Sent p) (Airtime p) (Retries p).

Inductive survey_error := ErrMetricsTooSlow | ErrChannelBusy | ErrAborted | ErrNoFreshMetrics | Cancelled | TransmitFailed | OutOfFuel.

(** Whether somebody else seems to need the channel: our own share is discounted from
    what was sent. *)
Definition crowded (cfg : Config) (base : option Phase) (t : Z) (p : Phase) : bool :=
  match base with
  | None => false
  | Some base =>
      if Z.of_nat (length (Samples p)) <? minPhaseSamples then false
      else
        let elapsed := t - Started p in
        let ours := if 0 <? elapsed then percent (Airtime p) elapsed else f0 in
        flt (fadd (MeanChannel base) (AbortRise cfg)) (fsub (MeanChannel p) ours)
  end.

(** ** Estimates *)

Inductive explanation := NothingSent | InsideNoise | NotPhysical | Rose (delta tx : float64).
Record REstimate := mkEstimate {
  es_HopLimit : Z; R : float64; Low : float64; High : float64; Confident : bool; Explain : explanation; DeltaBusy : float64; OurTransmit : float64; ReportedTx : float64
}.

Definition estimate (base load : Phase) (hop : Z) : REstimate :=
  let delta := fsub (MeanChannel load) (MeanChannel base) in
  let tx := DutyCycle load in
  let reported := fsub (MeanTx load) (MeanTx base) in
  if fle tx f0 then mkEstimate hop f0 f0 f0 false NothingSent delta tx reported
  else
    let r := fdiv delta tx in
    let se := fsqrt (fadd (sqr (sem (channelSeries base))) (sqr (sem (channelSeries load)))) in
    let low := fdiv (fsub delta (fmul (dec 196 100) se)) tx in
    let high := fdiv (fadd delta (fmul (dec 196 100) se)) tx in
    let low := if flt low f0 then f0 else low in
    if flt delta (fmul (of_int 2) se) then mkEstimate hop r low high false InsideNoise delta tx reported
    else if flt r (of_int 1) then mkEstimate hop r low high false NotPhysical delta tx reported
    else mkEstimate hop r low high true (Rose delta tx) delta tx reported.

Record Report := mkReport {
  rp_Started : Z; rp_Ended : Z; Cadence : Z; rp_HopLimit : Z; rp_Baseline : Phase; BaselineEnd : Phase; Loads : list Phase; Estimates : list REstimate
}.
Definition no_phase : Phase := mkPhase 0 0 0 [] 0 0 0 0.
Definition Drift (r : Report) : option float64 :=
  if bool_decide (Samples (BaselineEnd r) = []) then None else Some (fsub (MeanChannel (BaselineEnd r)) (MeanChannel (rp_Baseline r))).

(** ** What a sysop is told *)

Record Budget := mkBudget { bg_R : float64; Instances : Z; CeilingPercent : float64; ChannelSecondsPerDay : float64; FullPackets : float64; ShortPosts : float64 }.
Definition DeriveBudget (p : Preset) (r : float64) (instances : Z) (ceiling : float64) : Budget :=
  let instances := if instances <? 1 then 1 else instances in
  let r := if flt r (of_int 1) then of_int 1 else r in
  let perDay := fdiv (fmul (of_int 86400) (fdiv ceiling (of_int 100))) (of_int instances) in
  mkBudget r instances ceiling perDay (fdiv perDay (seconds (Cost p 233 r))) (fdiv perDay (seconds (Cost p 100 r))).

Fixpoint inverted (prev : option REstimate) (es : list REstimate) : bool :=
  match es with
  | [] => false
  | e :: es =>
      if negb (Confident e) then inverted prev es
      else match prev with
      | Some p => ((es_HopLimit p <? es_HopLimit e) && flt (High e) (R p)) || inverted (Some e) es
      | None => inverted (Some e) es
      end
  end.
Definition CurveInverted (r : Report) : bool := inverted None (Estimates r).
Definition Best (r : Report) : option REstimate := List.find (λ e, Confident e && (es_HopLimit e =? rp_HopLimit r)) (Estimates r).
Definition better (best : option REstimate) (e : REstimate) : option REstimate :=
  if negb (Confident e) then best else match best with None => Some e | Some b => if flt (R b) (R e) then Some e else best end.
Definition Fallback (r : Report) : option REstimate := foldl better None (Estimates r).

(** ** The survey *)

Section survey.
Context {S : Type} `{!Radio S}.

(** The radio with the attempts made so far: when, and at what hop limit. *)
Record world := mkWorld { radio : S; attempts : list (Z * Z) }.
Definition clock (w : world) : Z := now (radio w).
Definition pause (d : Z) (w : world) : bool * world := let '(c, s) := wait d (radio w) in (c, mkWorld s (attempts w)).
Definition Transmit (n hopLimit : Z) (w : world) : bool * world :=
  let '(ok, s) := transmit n hopLimit (radio w) in (ok, mkWorld s (attempts w ++ [(clock w, hopLimit)])).

(** [more] attempts after this one. *)
Fixpoint transmitWithRetry (more : nat) (backoff : Z) (cfg : Config) (hopLimit : Z) (p : Phase) (w : world) : result survey_error Phase * world :=
  let '(ok, w) := Transmit (PayloadBytes cfg) hopLimit w in
  if ok then (Ok p, w)
  else match more with
  | O => (Err TransmitFailed, w)
  | Datatypes.S more =>
      let p := retried p in
      let '(cancelled, w) := pause backoff w in
      if cancelled then (Err Cancelled, w) else transmitWithRetry more (2 * backoff) cfg hopLimit p w
  end.

(** The packets that are due. *)
Fixpoint send_due (fuel : nat) (cfg : Config) (hop one txEvery txDeadline nextTx : Z) (p : Phase) (w : world) : result survey_error (Phase * Z) * world :=
  if negb (hop =? 0) && (clock w <? txDeadline) && (nextTx <=? clock w) then
    match fuel with
    | O => (Err OutOfFuel, w)
    | Datatypes.S fuel =>
        match transmitWithRetry (Z.to_nat (TransmitRetries cfg)) (TransmitBackoff cfg) cfg hop p w with
        | (Err e, w) => (Err e, w)
        | (Ok p, w) => send_due fuel cfg hop one txEvery txDeadline (nextTx + txEvery) (sent one p) w
        end
    end
  else (Ok (p, nextTx), w).

Definition txEvery (cfg : Config) (one : Z) : Z := to_int64 (fdiv (fmul (of_int one) (of_int 100)) (TargetDuty cfg)).
(** Packets that can fall due in a phase, and rounds it can have. *)
Definition due_fuel (cfg : Config) (one : Z) : nat := Z.to_nat (Load cfg / txEvery cfg one + 2).
Definition rounds_fuel (cfg : Config) (dur : Z) : nat := Z.to_nat (dur / Sample cfg + 2).

Fixpoint measure_rounds (fuel : nat) (cfg : Config) (hop one deadline txDeadline : Z) (base : option Phase) (prev : Metrics) (nextTx : Z) (p : Phase) (w : world) : result survey_error Phase * world :=
  if clock w <? deadline then
    match fuel with
    | O => (Err OutOfFuel, w)
    | Datatypes.S fuel =>
        let '(cancelled, w) := pause (Sample cfg) w in
        if cancelled then (Err Cancelled, w)
        else
          let '(prev, p) := match metrics (radio w) with Some m => sampled m prev p | None => (prev, p) end in
          if crowded cfg base (clock w) p then (Err ErrAborted, w)
          else match send_due (due_fuel cfg one) cfg hop one (txEvery cfg one) txDeadline nextTx p w with
          | (Err e, w) => (Err e, w)
          | (Ok (p, nextTx), w) => measure_rounds fuel cfg hop one deadline txDeadline base prev nextTx p w
          end
    end
  else (Ok p, w).

Definition measure (preset : Preset) (cfg : Config) (hop : Z) (base : option Phase) (w : world) : result survey_error Phase * world :=
  let dur := if hop =? 0 then Baseline cfg else Load cfg in
  let start := clock w in
  let deadline := start + dur in
  let one := Packet preset (PayloadBytes cfg) in
  let prev := default no_metrics (metrics (radio w)) in
  match measure_rounds (rounds_fuel cfg dur) cfg hop one deadline (deadline - channelSettle) base prev start (mkPhase hop start 0 [] 0 0 0 0) w with
  | (Err e, w) => (Err e, w)
  | (Ok p, w) =>
      let p := ended (clock w) p in
      if bool_decide (Samples p = []) then (Err ErrNoFreshMetrics, w) else (Ok p, w)
  end.

(** When the fresh readings of the probe came. *)
Fixpoint probe_rounds (fuel : nat) (cfg : Config) (deadline : Z) (prev : Metrics) (at_ : list Z) (w : world) : result survey_error (list Z) * world :=
  if clock w <? deadline then
    match fuel with
    | O => (Err OutOfFuel, w)
    | Datatypes.S fuel =>
        let '(cancelled, w) := pause (Sample cfg) w in
        if cancelled then (Err Cancelled, w)
        else match metrics (radio w) with
        | Some m => if fresh m prev then probe_rounds fuel cfg deadline m (at_ ++ [clock w]) w else probe_rounds fuel cfg deadline prev at_ w
        | None => probe_rounds fuel cfg deadline prev at_ w
        end
    end
  else (Ok at_, w).

Definition probeCadence (cfg : Config) (w : world) : result survey_error (Z * Z) * world :=
  match probe_rounds (rounds_fuel cfg (Probe cfg)) cfg (clock w + Probe cfg) (default no_metrics (metrics (radio w))) [] w with
  | (Err e, w) => (Err e, w)
  | (Ok at_, w) =>
      let n := Z.of_nat (length at_) in
      (Ok (if n <? 2 then 0 else Z.quot (List.last at_ 0 - hd 0 at_) (n - 1), n), w)
  end.

Definition shortest (cfg : Config) : Z := if Load cfg <? Baseline cfg then Load cfg else Baseline cfg.
(** A cadence of zero, two readings at one instant, would divide by zero; the clock
    moves between two rounds. *)
Definition preflight (cfg : Config) (w : world) : result survey_error Z * world :=
  match metrics (radio w) with
  | None => (Err ErrMetricsTooSlow, w)
  | Some _ =>
      match probeCadence cfg w with
      | (Err e, w) => (Err e, w)
      | (Ok (cadence, n), w) =>
          if n <? 2 then (Err ErrMetricsTooSlow, w)
          else if Z.quot (shortest cfg) cadence <? minPhaseSamples then (Err ErrMetricsTooSlow, w)
          else (Ok cadence, w)
      end
  end.
Definition Check_ (cfg : Config) (w : world) : result survey_error Z * world := preflight (applyDefaults cfg) w.

Definition with_load (p : Phase) (e : REstimate) (r : Report) : Report :=
  mkReport (rp_Started r) (rp_Ended r) (Cadence r) (rp_HopLimit r) (rp_Baseline r) (BaselineEnd r) (Loads r ++ [p]) (Estimates r ++ [e]).
Fixpoint sweep (preset : Preset) (cfg : Config) (base : Phase) (hops : list Z) (r : Report) (w : world) : option survey_error * Report * world :=
  match hops with
  | [] => (None, r, w)
  | hop :: hops =>
      match measure preset cfg hop (Some base) w with
      | (Err e, w) => (Some e, r, w)
      | (Ok load, w) => sweep preset cfg base hops (with_load load (estimate base load hop) r) w
      end
  end.

(** The report, if there is one, and why it stopped short, if it did. *)
Definition Run (preset : Preset) (configured : Z) (cfg : Config) (w : world) : option Report * option survey_error * world :=
  let cfg := applyDefaults cfg in
  match preflight cfg w with
  | (Err e, w) => (None, Some e, w)
  | (Ok cadence, w) =>
      let start := clock w in
      match measure preset cfg 0 None w with
      | (Err e, w) => (None, Some e, w)
      | (Ok base, w) =>
          if flt (MaxAmbient cfg) (MeanChannel base) then (None, Some ErrChannelBusy, w)
          else match sweep preset cfg base (HopLimits cfg) (mkReport start 0 cadence configured base no_phase [] []) w with
          | (Some e, r, w) => (Some r, Some e, w)
          | (None, r, w) =>
              match measure preset cfg 0 None w with
              | (Err e, w) => (Some r, Some e, w)
              | (Ok tail, w) =>
                  (Some (mkReport (rp_Started r) (clock w) cadence configured base (afterSettling channelSettle tail) (Loads r) (Estimates r)), None, w)
              end
          end
      end
  end.
End survey.

(** ** The census (census.go) *)

(** A signal-to-noise ratio is a float32, which binary64 holds. *)
Record Heard := mkHeard { hd_From : Z; HopStart : Z; HopLimit : Z; SNR : float64; Portnum : bytes; hd_At : Z }.
Definition Hops (h : Heard) : option Z := if HopStart h =? 0 then None else Some (HopStart h - HopLimit h).

Record Neighbour := mkNeighbour { nb_Radio : Z; nb_Packets : Z; BestSNR : float64; WorstSNR : float64; MinHops : Z; KnownHop : bool; LastAt : Z }.
Record census := mkCensus { packets : Z; byRadio : gmap Z Neighbour; byPort : gmap bytes Z; perMin : gmap Z Z; direct : Z; relayed : Z; unknown : Z }.
Definition newCensus : census := mkCensus 0 ∅ ∅ ∅ 0 0 0.
Definition bump `{Countable K} (k : K) (m : gmap K Z) : gmap K Z := <[k := default 0 (m !! k) + 1]> m.

Definition heard_again (h : Heard) (n : Neighbour) : Neighbour :=
  let closer := match Hops h with Some hops => hops <? MinHops n | None => false end in
  mkNeighbour (nb_Radio n) (nb_Packets n + 1) (if flt (BestSNR n) (SNR h) then SNR h else BestSNR n) (if flt (SNR h) (WorstSNR n) then SNR h else WorstSNR n)
    (if closer then default 0 (Hops h) else MinHops n) (KnownHop n || closer) (hd_At h).
(** [Unix() / 60]: the minute since the epoch. *)
Definition minute (at_ : Z) : Z := Z.quot (at_ / Second) 60.
Definition census_add (h : Heard) (c : census) : census :=
  let n := default (mkNeighbour (hd_From h) 0 (SNR h) (SNR h) 99 false 0) (byRadio c !! hd_From h) in
  mkCensus (packets c + 1) (<[hd_From h := heard_again h n]> (byRadio c)) (bump (Portnum h) (byPort c)) (bump (minute (hd_At h)) (perMin c))
    (direct c + match Hops h with Some 0 => 1 | _ => 0 end)
    (relayed c + match Hops h with Some 0 | None => 0 | _ => 1 end)
    (unknown c + match Hops h with None => 1 | _ => 0 end).

Record Census := mkSummary { cs_Packets : Z; Neighbours : list Neighbour; DirectCount : Z; RelayedCount : Z; UnknownHops : Z; ByPortnum : gmap bytes Z; PeakPerMinute : Z }.
Definition summarise (c : census) : Census :=
  mkSummary (packets c) (sort_by (λ n, (- nb_Packets n, nb_Radio n)) (less_pair Z.ltb Z.ltb) ((map_to_list (byRadio c)).*2))
    (direct c) (relayed c) (unknown c) (byPort c) (map_fold (λ _, Z.max) 0 (perMin c)).

Definition counted {K} `{Countable K} (m : gmap K Z) : Z := map_fold (λ _, Z.add) 0 m.
Lemma counted_bump `{Countable K} (k : K) m : counted (bump k m) = counted m + 1.
Proof.
  unfold counted, bump. destruct (m !! k) as [x|] eqn:E; cbn [default from_option id].
  - rewrite <- insert_delete_eq, map_fold_insert_L by (try apply lookup_delete_eq; intros; lia).
    rewrite <- (insert_delete_id m k x) at 2 by done. rewrite map_fold_insert_L by (try apply lookup_delete_eq; intros; lia). lia.
  - rewrite map_fold_insert_L by (try done; intros; lia). lia.
Qed.

(** The counts of a census agree: every packet is of one port, of one minute and of one
    kind of path, and each radio is listed once, under its own number. *)
Theorem census_adds_up hs : let c := foldl (λ c h, census_add h c) newCensus hs in
  packets c = Z.of_nat (length hs) ∧ counted (byPort c) = packets c ∧ counted (perMin c) = packets c ∧
  direct c + relayed c + unknown c = packets c ∧
  (∀ r, nb_Packets <$> byRadio c !! r = let n := length (filter (λ h, hd_From h = r) hs) in if (n =? 0)%nat then None else Some (Z.of_nat n)) ∧
  (∀ r n, byRadio c !! r = Some n → nb_Radio n = r).
Proof.
  cbv zeta. induction hs as [|h hs IH] using rev_ind; [by split_and!|]. rewrite foldl_app. cbn [foldl]. set (c := foldl _ newCensus hs) in *. destruct IH as (H1 & H2 & H3 & H4 & H5 & H6).
  cbn [packets byPort perMin direct relayed unknown byRadio census_add]. rewrite !counted_bump, length_app. cbn [length]. split_and!; [lia|lia|lia| | |].
  - destruct (Hops h) as [[]|]; lia.
  - intros r. rewrite filter_app, length_app. destruct (decide (hd_From h = r)) as [<-|Hne].
    + rewrite lookup_insert_eq, filter_cons, decide_True by done. cbn [length filter list_filter]. rewrite Nat.add_1_r. cbn [Nat.eqb]. cbn [fmap option_fmap option_map nb_Packets heard_again].
      specialize (H5 (hd_From h)). destruct (byRadio c !! hd_From h) as [n|]; cbn [default from_option id nb_Packets] in *; destruct (Nat.eqb_spec (length (filter (λ h', hd_From h' = hd_From h) hs)) 0) as [E|]; simplify_eq/=; f_equal; [lia|rewrite E; lia].
    + rewrite lookup_insert_ne by done. rewrite filter_cons, decide_False by done. cbn [length filter list_filter]. rewrite Nat.add_0_r. apply H5.
  - intros r n [[<- <-]|[_ Hr]]%lookup_insert_Some; [|by apply H6]. cbn. destruct (byRadio c !! hd_From h) as [n|] eqn:E; [by apply H6|done].
Qed.

(** ** Attaching (radio.go) *)

Definition PRIMARY : bytes := str "PRIMARY"%string.
Definition DISABLED : bytes := str "DISABLED"%string.
Definition channel_chosen (name : bytes) (ch : MeshSession.ChannelInfo) : bool :=
  negb (bool_decide (MeshSession.ch_Role ch = DISABLED)) &&
  if bool_decide (name = []) then bool_decide (MeshSession.ch_Role ch = PRIMARY) else bool_decide (MeshSession.ch_Name ch = name).
Definition channelIndex (info : MeshSession.RadioInfo) (name : bytes) : option Z :=
  (λ ch, u32 (MeshSession.ch_Index ch)) <$> List.find (channel_chosen name) (MeshSession.Channels info).
Definition presetFor (info : MeshSession.RadioInfo) : result airtime_error Preset :=
  let lora := MeshSession.Lora info in
  if MeshSession.lo_UsePreset lora then PresetByName (MeshSession.lo_ModemPreset lora)
  else Custom (MeshSession.lo_Bandwidth lora * 1000) (MeshSession.lo_SpreadFactor lora) (MeshSession.lo_CodingRate lora).
(** What [Attach] makes of a radio that answered: its modem, the channel's slot and the
    hop limit it sends with. *)
Inductive attach_error := NoPreset (e : airtime_error) | NoChannel | TransmitDisabled.
Definition Attach (info : MeshSession.RadioInfo) (name : bytes) : result attach_error (Preset * Z * Z) :=
  match presetFor info with
  | Err e => Err (NoPreset e)
  | Ok preset =>
      match channelIndex info name with
      | None => Err NoChannel
      | Some idx => if MeshSession.lo_TxEnabled (MeshSession.Lora info) then Ok (preset, idx, MeshSession.lo_HopLimit (MeshSession.Lora info)) else Err TransmitDisabled
      end
  end.

(** ** What a survey puts on the air *)

(** What is documented of the clock: a wait that was not cancelled is over no sooner, and
    nothing takes time back. *)
Class RadioLaws (S : Type) `{!Radio S} := {
  wait_over : ∀ d s, (wait d s).1 = false → now s + d ≤ now (wait d s).2;
  wait_on : ∀ d s, now s ≤ now (wait d s).2;
  transmit_on : ∀ n hop s, now s ≤ now (transmit n hop s).2
}.

#[local] Set Default Proof Using "All".

Section facts.
Context {S : Type} `{HR : !Radio S, HL : !RadioLaws S}.
Implicit Types (w : world (S := S)).

Lemma pause_facts d w : clock w ≤ clock (pause d w).2 ∧ attempts (pause d w).2 = attempts w ∧ ((pause d w).1 = false → clock w + d ≤ clock (pause d w).2).
Proof.
  unfold pause, clock. pose proof (wait_over d (radio w)) as H1. pose proof (wait_on d (radio w)) as H2. destruct (wait d (radio w)) as [c s]. done.
Qed.

(** What a stretch of the survey adds: attempts at one hop limit, made meanwhile. *)
Definition adds (hop : Z) (l : list (Z * Z)) w w' : Prop :=
  attempts w' = attempts w ++ l ∧ clock w ≤ clock w' ∧ Forall (λ a : Z * Z, a.2 = hop ∧ clock w ≤ a.1) l.

Lemma adds_nothing hop w w' : attempts w' = attempts w → clock w ≤ clock w' → adds hop [] w w'.
Proof. intros E H. split; [by rewrite app_nil_r|]. by split. Qed.
Lemma adds_trans hop l l' w w' w'' : adds hop l w w' → adds hop l' w' w'' → adds hop (l ++ l') w w''.
Proof.
  intros (E1 & H1 & F1) (E2 & H2 & F2). split; [by rewrite E2, E1, app_assoc|]. split; [lia|]. apply Forall_app. split; [done|].
  eapply Forall_impl; [exact F2|]. cbn. intros a [? ?]. split; [done|lia].
Qed.

Lemma Transmit_adds n hop w : adds hop [(clock w, hop)] w (Transmit n hop w).2.
Proof.
  unfold Transmit. pose proof (transmit_on n hop (radio w)) as H. destruct (transmit n hop (radio w)) as [ok s]. split; [done|]. split; [done|]. by repeat constructor.
Qed.

Definition same_but_retries (k : Z) (p p' : Phase) : Prop :=
  p' = mkPhase (ph_HopLimit p) (Started p) (Ended p) (Samples p) (Stale p) (Sent p) (Airtime p) (Retries p + k).

Lemma retry_spec more backoff cfg hop p w :
  let '(r, w') := transmitWithRetry more backoff cfg hop p w in
  ∃ l, adds hop l w w' ∧ match r with
  | Ok p' => same_but_retries (Z.of_nat (length l) - 1) p p' ∧ (0 < length l ≤ more + 1)%nat
  | Err e => e ≠ OutOfFuel
  end.
Proof.
  revert backoff p w. induction more as [|more IH]; intros backoff p w; cbn [transmitWithRetry];
    pose proof (Transmit_adds (PayloadBytes cfg) hop w) as Ht; destruct (Transmit (PayloadBytes cfg) hop w) as [ok w1]; cbn [snd] in Ht; destruct ok.
  - exists [(clock w, hop)]. split; [done|]. split; [|cbn; lia]. destruct p. unfold same_but_retries. cbn. f_equal. lia.
  - exists [(clock w, hop)]. done.
  - exists [(clock w, hop)]. split; [done|]. split; [|cbn; lia]. destruct p. unfold same_but_retries. cbn. f_equal. lia.
  - pose proof (pause_facts backoff w1) as (H1 & H2 & _). destruct (pause backoff w1) as [c w2]. cbn [fst snd] in H1, H2.
    assert (Ht2 : adds hop [(clock w, hop)] w w2) by (rewrite <- (app_nil_r [_]); eapply adds_trans; [exact Ht|by apply adds_nothing]).
    destruct c; [by exists [(clock w, hop)]|]. specialize (IH (2 * backoff) (retried p) w2). destruct (transmitWithRetry more (2 * backoff) cfg hop (retried p) w2) as [r w3].
    destruct IH as (l & Hl & Hr). exists ([(clock w, hop)] ++ l). split; [by eapply adds_trans|]. destruct r as [p'|e]; [|done]. destruct Hr as [-> Hk]. split; [|cbn; lia].
    unfold same_but_retries. cbn. f_equal. lia.
Qed.

(** ** One phase *)

Section phase.
Context (cfg : Config) (hop one txDeadline : Z).

(** Where the schedule of a phase is. *)
Definition on_schedule (p : Phase) (nextTx : Z) w : Prop :=
  0 ≤ Sent p ∧ 0 ≤ Retries p ≤ Sent p * Z.of_nat (Z.to_nat (TransmitRetries cfg)) ∧ Airtime p = Sent p * one ∧
  nextTx = Started p + Sent p * txEvery cfg one ∧ (0 < Sent p → nextTx - txEvery cfg one < txDeadline) ∧ (hop = 0 → Sent p = 0).
Definition same_phase (p p' : Phase) : Prop := ph_HopLimit p' = ph_HopLimit p ∧ Started p' = Started p ∧ Samples p' = Samples p.
Definition tries (p : Phase) : Z := Sent p + Retries p.

Lemma send_due_spec fuel p nextTx w :
  on_schedule p nextTx w → (hop ≠ 0 → txDeadline ≤ nextTx + Z.of_nat fuel * txEvery cfg one) →
  let '(r, w') := send_due fuel cfg hop one (txEvery cfg one) txDeadline nextTx p w in
  ∃ l, adds hop l w w' ∧ (hop = 0 → l = []) ∧ match r with
  | Ok (p', nextTx') => on_schedule p' nextTx' w' ∧ same_phase p p' ∧ tries p' = tries p + Z.of_nat (length l)
  | Err e => e ≠ OutOfFuel
  end.
Proof.
  revert p nextTx w. induction fuel as [|fuel IH]; intros p nextTx w Hs Hf; cbn [send_due].
  all: destruct (negb (hop =? 0) && (clock w <? txDeadline) && (nextTx <=? clock w)) eqn:E.
  all: try (exists []; split; [by apply adds_nothing|]; split; [done|]; split; [done|]; split; [done|cbn; lia]).
  all: apply andb_true_iff in E as [[E1%negb_true_iff%Z.eqb_neq E2%Z.ltb_lt]%andb_true_iff E3%Z.leb_le].
  { specialize (Hf E1). lia. }
  pose proof (retry_spec (Z.to_nat (TransmitRetries cfg)) (TransmitBackoff cfg) cfg hop p w) as Hr.
  destruct (transmitWithRetry (Z.to_nat (TransmitRetries cfg)) (TransmitBackoff cfg) cfg hop p w) as [[p1|e] w1]; destruct Hr as (l & Hl & Hr).
  2:{ exists l. split; [done|]. by split. }
  destruct Hr as [-> Hk]. set (p1 := sent one _). destruct Hs as (H1 & H2 & H3 & H4 & H5 & H6).
  assert (Hs1 : on_schedule p1 (nextTx + txEvery cfg one) w1).
  { unfold on_schedule, p1, sent. cbn. split_and!; [lia|lia| |lia|lia|lia|done]. nia. }
  specialize (IH p1 (nextTx + txEvery cfg one) w1 Hs1). destruct (send_due fuel cfg hop one (txEvery cfg one) txDeadline (nextTx + txEvery cfg one) p1 w1) as [r w2].
  destruct IH as (l' & Hl' & _ & Hr'); [intros Hh; specialize (Hf Hh); lia|]. exists (l ++ l'). split; [by eapply adds_trans|]. split; [done|].
  destruct r as [[p' nextTx']|e]; [|done]. destruct Hr' as (G1 & G2 & G3). split; [done|]. split; [done|]. rewrite G3, length_app. unfold tries, p1, sent. cbn. lia.
Qed.

(** Each sample is a new reading. *)
Definition all_fresh (l : list Metrics) : Prop := ∀ i a b, l !! i = Some a → l !! Datatypes.S i = Some b → Uptime a ≠ Uptime b.
Definition read_up_to (prev : Metrics) (p : Phase) : Prop := all_fresh (Samples p) ∧ (Samples p = [] ∨ last (Samples p) = Some prev).

Lemma sampled_spec m prev p nextTx w : read_up_to prev p → on_schedule p nextTx w →
  let '(prev', p') := sampled m prev p in
  read_up_to prev' p' ∧ on_schedule p' nextTx w ∧ ph_HopLimit p' = ph_HopLimit p ∧ Started p' = Started p ∧ tries p' = tries p.
Proof.
  intros [Hf Hl] Hs. unfold sampled, fresh. destruct (Z.eqb_spec (Uptime m) (Uptime prev)) as [|Hne]; cbn [negb]; [done|]. split; [|done].
  split; cbn [Samples]; [|right; by rewrite last_snoc]. intros i a b Ha Hb. destruct (decide (Datatypes.S i < length (Samples p))%nat) as [Hi|Hi].
  - rewrite lookup_app_l in Ha by lia. rewrite lookup_app_l in Hb by done. by eapply Hf.
  - pose proof (lookup_lt_Some _ _ _ Hb) as Hlt. rewrite length_app in Hlt. cbn in Hlt. assert (Ei : Datatypes.S i = length (Samples p)) by lia.
    rewrite Ei, list_lookup_middle in Hb by done. injection Hb as <-. rewrite lookup_app_l in Ha by lia. destruct Hl as [E|Hl]; [rewrite E in Ha; done|].
    rewrite last_lookup, <- Ei in Hl. cbn in Hl. congruence.
Qed.

Context (Hsample : 0 < Sample cfg) (deadline : Z) (base : option Phase).

Lemma measure_rounds_spec fuel prev nextTx p w :
  on_schedule p nextTx w → read_up_to prev p → (hop ≠ 0 → 0 < txEvery cfg one ∧ txDeadline ≤ Started p + Z.of_nat (due_fuel cfg one) * txEvery cfg one) →
  deadline ≤ clock w + Z.of_nat fuel * Sample cfg →
  let '(r, w') := measure_rounds fuel cfg hop one deadline txDeadline base prev nextTx p w in
  ∃ l, adds hop l w w' ∧ (hop = 0 → l = []) ∧ match r with
  | Ok p' => ∃ nextTx', on_schedule p' nextTx' w' ∧ all_fresh (Samples p') ∧ ph_HopLimit p' = ph_HopLimit p ∧ Started p' = Started p ∧
      tries p' = tries p + Z.of_nat (length l) ∧ deadline ≤ clock w'
  | Err e => e ≠ OutOfFuel
  end.
Proof.
  revert prev nextTx p w. induction fuel as [|fuel IH]; intros prev nextTx p w Hs Hr Hdue Hf; cbn [measure_rounds]; destruct (Z.ltb_spec (clock w) deadline) as [Hlt|Hge].
  - lia.
  - exists []. split; [by apply adds_nothing|]. split; [done|]. exists nextTx. do 4 (split; [apply Hs || apply Hr || done|]). split; [cbn; lia|done].
  - pose proof (pause_facts (Sample cfg) w) as (H1 & H2 & H3). destruct (pause (Sample cfg) w) as [c w1]. cbn [fst snd] in *.
    destruct c; [exists []; split; [by apply adds_nothing|done]|]. specialize (H3 eq_refl).
    assert (Hm : ∃ prev1 p1, (match metrics (radio w1) with Some m => sampled m prev p | None => (prev, p) end) = (prev1, p1) ∧
      read_up_to prev1 p1 ∧ on_schedule p1 nextTx w1 ∧ ph_HopLimit p1 = ph_HopLimit p ∧ Started p1 = Started p ∧ tries p1 = tries p).
    { destruct (metrics (radio w1)) as [m|]; [|by exists prev, p]. pose proof (sampled_spec m prev p nextTx w1 Hr Hs) as H. destruct (sampled m prev p) as [prev1 p1]. by exists prev1, p1. }
    destruct Hm as (prev1 & p1 & -> & Hr1 & Hs1 & E1 & E2 & E3). destruct (crowded cfg base (clock w1) p1); [exists []; split; [by apply adds_nothing|done]|].
    pose proof (send_due_spec (due_fuel cfg one) p1 nextTx w1 Hs1) as Hd.
    destruct (send_due (due_fuel cfg one) cfg hop one (txEvery cfg one) txDeadline nextTx p1 w1) as [r2 w2].
    destruct Hd as (l & Hl & Hl0 & Hr2).
    { intros Hh. destruct (Hdue Hh) as [Hpos Hd]. destruct Hs1 as (G1 & _ & _ & G4 & _). rewrite G4, E2. nia. }
    assert (Hl' : adds hop l w w2) by (rewrite <- (app_nil_l l); eapply adds_trans; [by apply adds_nothing|exact Hl]).
    destruct r2 as [[p2 nextTx2]|e]; [|by exists l]. destruct Hr2 as (Hs2 & (F1 & F2 & F3) & F4). destruct Hl as (_ & Hcl & _).
    assert (Hr2 : read_up_to prev1 p2) by (unfold read_up_to; by rewrite F3).
    specialize (IH prev1 nextTx2 p2 w2 Hs2 Hr2). destruct (measure_rounds fuel cfg hop one deadline txDeadline base prev1 nextTx2 p2 w2) as [r3 w3].
    destruct IH as (l' & Hl3 & Hl30 & Hr3); [by rewrite F2, E2|lia|]. exists (l ++ l'). split; [by eapply adds_trans|]. split; [intros Hh; by rewrite Hl0, Hl30|].
    destruct r3 as [p3|e]; [|done]. destruct Hr3 as (nextTx' & G1 & G2 & G3 & G4 & G5 & G6). exists nextTx'. split; [done|]. split; [done|].
    split; [by rewrite G3, F1, E1|]. split; [by rewrite G4, F2, E2|]. split; [rewrite length_app; lia|done].
  - exists []. split; [by apply adds_nothing|]. split; [done|]. exists nextTx. do 4 (split; [apply Hs || apply Hr || done|]). split; [cbn; lia|done].
Qed.
End phase.

Definition phase_length (cfg : Config) (hop : Z) : Z := if hop =? 0 then Baseline cfg else Load cfg.

(** What is true of a phase that was measured to its end. *)
Definition phase_ok (preset : Preset) (cfg : Config) (p : Phase) : Prop :=
  let one := Packet preset (PayloadBytes cfg) in
  Started p + phase_length cfg (ph_HopLimit p) ≤ Ended p ∧ Samples p ≠ [] ∧ all_fresh (Samples p) ∧
  0 ≤ Sent p ∧ (ph_HopLimit p = 0 → Sent p = 0) ∧ Airtime p = Sent p * one ∧
  (0 < Sent p → (Sent p - 1) * txEvery cfg one < Load cfg - channelSettle) ∧
  0 ≤ Retries p ≤ Sent p * Z.of_nat (Z.to_nat (TransmitRetries cfg)).

Lemma fuel_enough d step : 0 ≤ d → 0 < step → d < Z.of_nat (Z.to_nat (d / step + 2)) * step.
Proof. intros Hd Hs. rewrite Z2Nat.id by (pose proof (Z.div_pos d step); lia). pose proof (Z.mul_succ_div_gt d step Hs). nia. Qed.

Lemma measure_spec preset cfg hop base w :
  0 < Sample cfg → 0 ≤ Baseline cfg → 0 ≤ Load cfg → (hop ≠ 0 → 0 < txEvery cfg (Packet preset (PayloadBytes cfg))) →
  let '(r, w') := measure preset cfg hop base w in
  ∃ l, adds hop l w w' ∧ (hop = 0 → l = []) ∧ match r with
  | Ok p => phase_ok preset cfg p ∧ ph_HopLimit p = hop ∧ tries p = Z.of_nat (length l) ∧ clock w ≤ Started p ∧ Ended p = clock w'
  | Err e => e ≠ OutOfFuel
  end.
Proof.
  intros Hsm Hb Hl Hevery. unfold measure. set (one := Packet preset (PayloadBytes cfg)) in *. set (dur := if hop =? 0 then Baseline cfg else Load cfg).
  set (p0 := mkPhase hop (clock w) 0 [] 0 0 0 0). set (prev := default no_metrics (metrics (radio w))).
  assert (Hdur : 0 ≤ dur) by (unfold dur; by destruct (hop =? 0)).
  pose proof (measure_rounds_spec cfg hop one (clock w + dur - channelSettle) Hsm (clock w + dur) base (rounds_fuel cfg dur) prev (clock w) p0 w) as H.
  destruct (measure_rounds _ _ _ _ _ _ _ _ _ _ _) as [r w'].
  destruct H as (l & Hadd & Hl0 & Hr).
  - unfold on_schedule, p0. cbn. split_and!; lia || done.
  - split; [intros i a b Ha; done|by left].
  - intros Hh. split; [by apply Hevery|]. unfold due_fuel. pose proof (fuel_enough (Load cfg) (txEvery cfg one) Hl (Hevery Hh)).
    unfold dur, p0, channelSettle, Minute, Second. cbn [Started]. destruct (Z.eqb_spec hop 0); lia.
  - unfold rounds_fuel. pose proof (fuel_enough dur (Sample cfg) Hdur Hsm). lia.
  - destruct r as [p|e]; [|by exists l]. destruct Hr as (nextTx & (G1 & G2 & G3 & G4 & G5 & G6) & Hf & E1 & E2 & E3 & Hge).
    cbn [ph_HopLimit Started p0] in *. destruct (bool_decide_reflect (Samples (ended (clock w') p) = [])) as [|Hne]; [by exists l|].
    exists l. split; [done|]. split; [done|]. split; [|unfold tries in *; cbn in *; split_and!; lia || done].
    unfold phase_ok. cbn. rewrite E1, E2. assert (Hlen : clock w + phase_length cfg hop ≤ clock w') by (unfold phase_length; fold dur; lia).
    split_and!; try done; try lia.
    + intros Hp. specialize (G5 Hp). rewrite E2 in G4. assert (Hh : hop ≠ 0) by (intros ->; specialize (G6 eq_refl); lia). unfold dur in G5. destruct (Z.eqb_spec hop 0); [done|]. fold one. lia.
Qed.

Lemma probe_spec cfg fuel deadline prev at_ w : 0 < Sample cfg → deadline ≤ clock w + Z.of_nat fuel * Sample cfg →
  let '(r, w') := probe_rounds fuel cfg deadline prev at_ w in
  attempts w' = attempts w ∧ clock w ≤ clock w' ∧ match r with Ok _ => True | Err e => e ≠ OutOfFuel end.
Proof.
  intros Hs. revert prev at_ w. induction fuel as [|fuel IH]; intros prev at_ w Hf; cbn [probe_rounds]; destruct (Z.ltb_spec (clock w) deadline); [lia|done| |done].
  pose proof (pause_facts (Sample cfg) w) as (H1 & H2 & H3). destruct (pause (Sample cfg) w) as [c w1]. cbn [fst snd] in *. destruct c; [done|]. specialize (H3 eq_refl).
  assert (Hnext : ∀ prev at_, let '(r, w') := probe_rounds fuel cfg deadline prev at_ w1 in attempts w' = attempts w ∧ clock w ≤ clock w' ∧ match r with Ok _ => True | Err e => e ≠ OutOfFuel end).
  { intros prev' at'. specialize (IH prev' at' w1). destruct (probe_rounds fuel cfg deadline prev' at' w1) as [r w']. destruct IH as (I1 & I2 & I3); [lia|]. split; [congruence|]. split; [lia|done]. }
  destruct (metrics (radio w1)) as [m|]; [destruct (fresh m prev)|]; apply Hnext.
Qed.

Lemma preflight_spec cfg w : 0 < Sample cfg → 0 ≤ Probe cfg →
  let '(r, w') := preflight cfg w in attempts w' = attempts w ∧ clock w ≤ clock w' ∧ r ≠ Err OutOfFuel.
Proof.
  intros Hs Hp. unfold preflight. destruct (metrics (radio w)); [|done]. unfold probeCadence.
  pose proof (probe_spec cfg (rounds_fuel cfg (Probe cfg)) (clock w + Probe cfg) (default no_metrics (metrics (radio w))) [] w Hs) as H.
  destruct (probe_rounds _ _ _ _ _ _) as [r w']. destruct H as (H1 & H2 & H3); [unfold rounds_fuel; pose proof (fuel_enough (Probe cfg) (Sample cfg) Hp Hs); lia|].
  destruct r as [at_|e]; [|split; [done|]; split; [done|congruence]]. repeat case_match; by simplify_eq.
Qed.

Lemma applyDefaults_positive c : let c := applyDefaults c in 0 < Sample c ∧ 0 < Baseline c ∧ 0 < Load c ∧ 0 < Probe c ∧ HopLimits c ≠ [] ∧ 0 < TransmitRetries c ∧ 0 < TransmitBackoff c.
Proof.
  unfold applyDefaults, or_else, Minute, Second. cbn. split_and!; repeat case_match; try lia; try done.
  all: repeat match goal with H : bool_decide _ = false |- _ => apply bool_decide_eq_false in H end; done.
Qed.

Definition total (ps : list Phase) : Z := foldr (λ p n, tries p + n) 0 ps.
Definition estimates (base : Phase) (ps : list Phase) : list REstimate := (λ p, estimate base p (ph_HopLimit p)) <$> ps.

Lemma sweep_spec preset cfg base hops r w :
  0 < Sample cfg → 0 ≤ Baseline cfg → 0 ≤ Load cfg → 0 < txEvery cfg (Packet preset (PayloadBytes cfg)) →
  let '(e, r', w') := sweep preset cfg base hops r w in
  ∃ l ps, attempts w' = attempts w ++ l ∧ clock w ≤ clock w' ∧ Forall (λ a : Z * Z, a.2 ∈ hops ∧ a.2 ≠ 0 ∧ clock w ≤ a.1) l ∧
    Loads r' = Loads r ++ ps ∧ Estimates r' = Estimates r ++ estimates base ps ∧ rp_Baseline r' = rp_Baseline r ∧
    Forall (phase_ok preset cfg) ps ∧
    match e with None => ph_HopLimit <$> ps = hops ∧ total ps = Z.of_nat (length l) | Some e => e ≠ OutOfFuel ∧ (ph_HopLimit <$> ps) `prefix_of` hops end.
Proof.
  intros Hs Hb Hl He. revert r w. induction hops as [|hop hops IH]; intros r w; cbn [sweep].
  { exists [], []. rewrite !app_nil_r. split_and!; done. }
  pose proof (measure_spec preset cfg hop (Some base) w Hs Hb Hl (λ _, He)) as H. destruct (measure preset cfg hop (Some base) w) as [[p|e] w1].
  - destruct H as (l & (A1 & A2 & A3) & Hl0 & Hp & Eh & Et & _). specialize (IH (with_load p (estimate base p hop) r) w1).
    destruct (sweep preset cfg base hops (with_load p (estimate base p hop) r) w1) as [[e r'] w'].
    destruct IH as (l' & ps & B1 & B2 & B3 & B4 & B5 & B6 & B7 & B8). exists (l ++ l'), (p :: ps).
    split; [by rewrite B1, A1, app_assoc|]. split; [lia|]. split.
    { apply Forall_app. split; [|eapply Forall_impl; [exact B3|]; cbn; intros a (? & ? & ?); split; [by right|]; split; [done|lia]].
      destruct (decide (hop = 0)) as [->|Hne]; [rewrite Hl0 by done; constructor|]. eapply Forall_impl; [exact A3|]. cbn. intros a [-> ?]. split; [left|done]. }
    split; [rewrite B4; symmetry; apply (assoc_L (++) (Loads r) [p])|].
    split; [rewrite B5; unfold estimates; cbn [fmap list_fmap]; rewrite Eh; symmetry; apply (assoc_L (++) (Estimates r) [_])|]. split; [done|]. split; [by constructor|].
    destruct e as [e|]; cbn [fmap list_fmap]; rewrite Eh; [destruct B8 as [? ?]; split; [done|by apply prefix_cons]|].
    destruct B8 as [-> B8]. split; [done|]. cbn [total foldr]. fold (total ps). rewrite B8, length_app. lia.
  - destruct H as (l & (A1 & A2 & A3) & Hl0 & Hne). exists l, []. cbn. rewrite !app_nil_r. split; [done|]. split; [done|]. split.
    { destruct (decide (hop = 0)) as [->|Hh]; [rewrite Hl0 by done; constructor|]. eapply Forall_impl; [exact A3|]. cbn. intros a [-> ?]. split; [left|done]. }
    split_and!; try done. apply prefix_nil.
Qed.

(** C30: whatever the radio reports and however long anything takes, a survey ends. It
    transmits nothing before it has a baseline whose mean is within the ambient limit,
    and never at a hop limit it was not given. Every load it reports was measured to its
    end on samples that are each a new reading, with packets no faster than the duty
    asked for and none due in the time the channel needs to settle, and no more attempts
    than the retries allow; its estimate is that load's against the baseline; and a run
    that ends well made exactly the attempts its loads say. *)
Theorem survey_civil preset configured cfg0 w :
  let cfg := applyDefaults cfg0 in
  attempts w = [] → 0 < txEvery cfg (Packet preset (PayloadBytes cfg)) →
  let '(rep, e, w') := Run preset configured cfg0 w in
  e ≠ Some OutOfFuel ∧
  Forall (λ a : Z * Z, a.2 ∈ HopLimits cfg ∧ a.2 ≠ 0) (attempts w') ∧
  (attempts w' ≠ [] → ∃ r, rep = Some r ∧ flt (MaxAmbient cfg) (MeanChannel (rp_Baseline r)) = false ∧
     phase_ok preset cfg (rp_Baseline r) ∧ Sent (rp_Baseline r) = 0 ∧ Forall (λ a : Z * Z, Ended (rp_Baseline r) ≤ a.1) (attempts w')) ∧
  (∀ r, rep = Some r → Forall (phase_ok preset cfg) (Loads r) ∧ Estimates r = estimates (rp_Baseline r) (Loads r) ∧
     (ph_HopLimit <$> Loads r) `prefix_of` HopLimits cfg ∧
     (e = None → ph_HopLimit <$> Loads r = HopLimits cfg ∧ total (Loads r) = Z.of_nat (length (attempts w')))).
Proof.
  intros cfg Ha He. destruct (applyDefaults_positive cfg0) as (Hs & Hb & Hl & Hp & _). fold cfg in Hs, Hb, Hl, Hp. unfold Run. fold cfg.
  pose proof (preflight_spec cfg w Hs ltac:(lia)) as H1. destruct (preflight cfg w) as [[cadence|e] w1]; destruct H1 as (A1 & A2 & A3); rewrite Ha in A1.
  2:{ rewrite A1. split; [congruence|]. split; [constructor|]. by split. }
  pose proof (measure_spec preset cfg 0 None w1 Hs ltac:(lia) ltac:(lia) (λ _, He)) as H2. destruct (measure preset cfg 0 None w1) as [[base|e] w2];
    destruct H2 as (l & (B1 & B2 & _) & B3 & B4); rewrite (B3 eq_refl), app_nil_r, A1 in B1.
  2:{ rewrite B1. split; [congruence|]. split; [constructor|]. by split. }
  destruct B4 as (Hbase & Eh & _ & _ & Eend). destruct (flt (MaxAmbient cfg) (MeanChannel base)) eqn:Eb; [rewrite B1; split; [done|]; split; [constructor|]; by split|].
  pose proof (sweep_spec preset cfg base (HopLimits cfg) (mkReport (clock w1) 0 cadence configured base no_phase [] []) w2 Hs ltac:(lia) ltac:(lia) He) as H3.
  destruct (sweep _ _ _ _ _ _) as [[e r] w3]. destruct H3 as (l3 & ps & C1 & C2 & C3 & C4 & C5 & C6 & C7 & C8). rewrite B1 in C1. cbn [Loads Estimates rp_Baseline app] in C1, C4, C5, C6.
  assert (Hsent : Sent base = 0) by (destruct Hbase as (_ & _ & _ & _ & H & _); by apply H).
  assert (F1 : Forall (λ a : Z * Z, a.2 ∈ HopLimits cfg ∧ a.2 ≠ 0) l3) by (eapply Forall_impl; [exact C3|]; naive_solver).
  assert (F2 : Forall (λ a : Z * Z, Ended base ≤ a.1) l3) by (eapply Forall_impl; [exact C3|]; cbn; rewrite Eend; naive_solver).
  destruct e as [e|].
  { destruct C8 as [C8 C9]. rewrite C1. split; [congruence|]. split; [done|]. split; [intros _; exists r; rewrite C6; done|].
    intros r' [= <-]. rewrite C4, C5, C6. done. }
  destruct C8 as [C8 C9]. pose proof (measure_spec preset cfg 0 None w3 Hs ltac:(lia) ltac:(lia) (λ _, He)) as H4. destruct (measure preset cfg 0 None w3) as [[tail|e] w4];
    destruct H4 as (l4 & (D1 & _ & _) & D3 & D4); rewrite (D3 eq_refl), app_nil_r, C1 in D1; rewrite D1.
  - split; [done|]. split; [done|]. split; [intros _; eexists; split; [done|]; cbn; done|]. intros r' [= <-]. cbn. rewrite C4, C5. split; [done|]. split; [done|]. split; [by rewrite C8|done].
  - split; [congruence|]. split; [done|]. split; [intros _; exists r; rewrite C6; done|]. intros r' [= <-]. rewrite C4, C5, C6. split; [done|]. split; [done|]. split; [by rewrite C8|done].
Qed.
End facts.
