(* ===== verification/Telnet.v ===== *)
(** * Telnet input (internal/sshd/telnet.go)

    The reader that takes telnet's commands out of a byte stream, whatever pieces the
    stream comes in, and the grammar of such a stream. Sockets, the session cap and the
    greeting are not modelled. *)

From stdpp Require Import relations.
From S2P Require Import Prelude.

(** What one [Read] of a connection gives: bytes, and an error with or after them. *)
Definition arrival (E : Type) : Type := bytes * option E.

(** ** The reader (telnet.go) *)

Definition tnIAC : byte := Byte.xff.
Definition tnSE : byte := Byte.xf0.
Definition tnSB : byte := Byte.xfa.
Definition tnWILL : byte := Byte.xfb.
Definition tnWONT : byte := Byte.xfc.
Definition tnDO : byte := Byte.xfd.
Definition tnDONT : byte := Byte.xfe.

Inductive telnetState := tnData | tnSawIAC | tnAwaitOption | tnInSubneg | tnSubnegIAC.

Section reader.
Context {E : Type}.

(** The fields, and how often [onEnd] was called. What the connection will give is the
    list of its chunks; a read takes at most the room there is. *)
Record telnetReader := mkReader { conn : list (arrival E); state : telnetState; has_onEnd : bool; ended : bool; calls : nat }.

Definition conn_read (size : nat) (cs : list (arrival E)) : option (arrival E * list (arrival E)) :=
  match cs with
  | [] => None
  | (bs, e) :: cs' => Some (if (size <? length bs)%nat then ((take size bs, None), (drop size bs, e) :: cs') else ((bs, e), cs'))
  end.

(** One byte: the next state, and the byte handed on. *)
Definition tn_byte (s : telnetState) (c : byte) : telnetState * option byte :=
  match s with
  | tnData => if bool_decide (c = tnIAC) then (tnSawIAC, None) else (tnData, Some c)
  | tnSawIAC =>
      if bool_decide (c = tnIAC) then (tnData, Some tnIAC)
      else if bool_decide (c ∈ [tnWILL; tnWONT; tnDO; tnDONT]) then (tnAwaitOption, None)
      else if bool_decide (c = tnSB) then (tnInSubneg, None)
      else (tnData, None)
  | tnAwaitOption => (tnData, None)
  | tnInSubneg => (if bool_decide (c = tnIAC) then tnSubnegIAC else tnInSubneg, None)
  | tnSubnegIAC => (if bool_decide (c = tnSE) then tnData else tnInSubneg, None)
  end.

Fixpoint tn_scan (s : telnetState) (bs : bytes) : telnetState * bytes :=
  match bs with
  | [] => (s, [])
  | c :: bs' =>
      let '(s1, o) := tn_byte s c in
      let '(s2, out) := tn_scan s1 bs' in
      (s2, match o with Some b => b :: out | None => out end)
  end.

Definition readOnce (size : nat) (r : telnetReader) : option (arrival E * telnetReader) :=
  match conn_read size (conn r) with
  | None => None
  | Some ((bs, e), cs) =>
      let '(s, out) := tn_scan (state r) bs in
      Some ((out, e), mkReader cs s (has_onEnd r) (ended r) (calls r))
  end.

Definition signalEnd (r : telnetReader) : telnetReader :=
  if ended r || negb (has_onEnd r) then r else mkReader (conn r) (state r) (has_onEnd r) true (S (calls r)).

(** [Read]; no result while it waits for the connection. *)
Fixpoint tn_Read (fuel size : nat) (r : telnetReader) : option (arrival E * telnetReader) :=
  match fuel with
  | O => None
  | S fuel' =>
      match readOnce size r with
      | None => None
      | Some ((out, e), r) =>
          let r := match e with Some _ => signalEnd r | None => r end in
          match out, e with
          | [], None => tn_Read fuel' size r
          | _, _ => Some ((out, e), r)
          end
      end
  end.

(** Rounds enough: each takes a chunk or fills the room. *)
Definition tn_fuel (r : telnetReader) : nat := S (length (conn r) + length (concat (conn r).*1)).
Definition Read (size : nat) (r : telnetReader) : option (arrival E * telnetReader) := tn_Read (tn_fuel r) size r.

Definition newReader (cs : list (arrival E)) (onEnd : bool) : telnetReader := mkReader cs tnData onEnd false 0.
End reader.
Arguments telnetReader E : clear implicits.

(** ** What a telnet stream is made of (RFC 854) *)

(** Inside a subnegotiation: payload, or IAC and whatever follows it but SE. *)
Inductive elem := Plain (c : byte) | Pair (c : byte).
Inductive item :=
| Char (c : byte)
| Literal                      (** IAC IAC, a byte 255 *)
| Command (c : byte)           (** IAC NOP, AYT, ... *)
| Option_ (verb opt : byte)    (** IAC WILL, WONT, DO or DONT, and the option *)
| Subneg (payload : list elem). (** IAC SB ... IAC SE *)

Definition verbs : list byte := [tnWILL; tnWONT; tnDO; tnDONT].
Definition elem_ok (x : elem) : Prop := match x with Plain c => c ≠ tnIAC | Pair c => c ≠ tnSE end.
Definition item_ok (x : item) : Prop :=
  match x with
  | Char c => c ≠ tnIAC
  | Literal => True
  | Command c => c ≠ tnIAC ∧ c ∉ verbs ∧ c ≠ tnSB
  | Option_ v _ => v ∈ verbs
  | Subneg p => Forall elem_ok p
  end.

Definition elem_wire (x : elem) : bytes := match x with Plain c => [c] | Pair c => [tnIAC; c] end.
Definition item_wire (x : item) : bytes :=
  match x with
  | Char c => [c]
  | Literal => [tnIAC; tnIAC]
  | Command c => [tnIAC; c]
  | Option_ v o => [tnIAC; v; o]
  | Subneg p => [tnIAC; tnSB] ++ (p ≫= elem_wire) ++ [tnIAC; tnSE]
  end.

(** What of it is for the application. *)
Definition item_data (x : item) : bytes := match x with Char c => [c] | Literal => [tnIAC] | _ => [] end.

(** The beginning of an item that has not all arrived. *)
Inductive unfinished : bytes → Prop :=
| un_none : unfinished []
| un_iac : unfinished [tnIAC]
| un_verb v : v ∈ verbs → unfinished [tnIAC; v]
| un_subneg p : Forall elem_ok p → unfinished ([tnIAC; tnSB] ++ (p ≫= elem_wire))
| un_subneg_iac p : Forall elem_ok p → unfinished ([tnIAC; tnSB] ++ (p ≫= elem_wire) ++ [tnIAC]).

Lemma scan_app s a b : tn_scan s (a ++ b) = let '(s1, o1) := tn_scan s a in let '(s2, o2) := tn_scan s1 b in (s2, o1 ++ o2).
Proof.
  revert s. induction a as [|c a IH]; intros s; cbn [tn_scan app]; [by destruct (tn_scan s b)|].
  destruct (tn_byte s c) as [s1 o]. rewrite IH. destruct (tn_scan s1 a) as [s2 o1], (tn_scan s2 b) as [s3 o2]. by destruct o.
Qed.

Lemma scan_elem x : elem_ok x → tn_scan tnInSubneg (elem_wire x) = (tnInSubneg, []).
Proof.
  destruct x as [c|c]; cbn [elem_ok elem_wire]; intros Hc; cbn [tn_scan tn_byte]; [by rewrite bool_decide_false|].
  rewrite bool_decide_true by done. cbn [tn_byte]. by rewrite bool_decide_false.
Qed.

Lemma scan_elems p : Forall elem_ok p → tn_scan tnInSubneg (p ≫= elem_wire) = (tnInSubneg, []).
Proof. induction 1 as [|x p Hx _ IH]; [done|]. rewrite bind_cons, scan_app, scan_elem, IH by done. done. Qed.

Lemma verb_bytes v : v ∈ verbs → v ≠ tnIAC ∧ v ≠ tnSB.
Proof. intros Hv. unfold verbs in Hv. set_solver. Qed.

Lemma scan_item x : item_ok x → tn_scan tnData (item_wire x) = (tnData, item_data x).
Proof.
  destruct x as [c| |c|v o|p]; cbn [item_ok item_wire item_data]; intros Hx.
  - cbn [tn_scan tn_byte]. by rewrite bool_decide_false.
  - reflexivity.
  - destruct Hx as (H1 & H2 & H3). cbn [tn_scan tn_byte]. rewrite bool_decide_true by done. cbn [tn_scan tn_byte]. by rewrite !bool_decide_false.
  - destruct (verb_bytes v Hx) as [H1 H2]. cbn [tn_scan tn_byte]. rewrite bool_decide_true by done. cbn [tn_scan tn_byte]. rewrite bool_decide_false by done. by rewrite bool_decide_true.
  - change ([tnIAC; tnSB] ++ (p ≫= elem_wire) ++ [tnIAC; tnSE]) with ([tnIAC; tnSB] ++ ((p ≫= elem_wire) ++ [tnIAC; tnSE])).
    rewrite scan_app. change (tn_scan tnData [tnIAC; tnSB]) with (tnInSubneg, @nil byte). cbn beta iota. rewrite scan_app, scan_elems by done. reflexivity.
Qed.

Lemma scan_items xs : Forall item_ok xs → tn_scan tnData (xs ≫= item_wire) = (tnData, xs ≫= item_data).
Proof. induction 1 as [|x xs Hx _ IH]; [done|]. by rewrite !bind_cons, scan_app, scan_item, IH. Qed.

Lemma scan_unfinished t : unfinished t → (tn_scan tnData t).2 = [].
Proof.
  intros [| |v Hv|p Hp|p Hp]; [done|done| | |].
  - destruct (verb_bytes v Hv) as [H1 H2]. cbn [tn_scan tn_byte]. rewrite bool_decide_true by done. cbn [tn_scan tn_byte]. rewrite bool_decide_false by done. by rewrite bool_decide_true.
  - rewrite scan_app. change (tn_scan tnData [tnIAC; tnSB]) with (tnInSubneg, @nil byte). cbn beta iota. by rewrite scan_elems.
  - rewrite scan_app. change (tn_scan tnData [tnIAC; tnSB]) with (tnInSubneg, @nil byte). cbn beta iota. rewrite scan_app, scan_elems by done. reflexivity.
Qed.

(** Every stream is a sequence of items and perhaps the beginning of another. *)
Definition parts (s : bytes) (xs : list item) (t : bytes) : Prop := s = (xs ≫= item_wire) ++ t ∧ Forall item_ok xs ∧ unfinished t.

Lemma parts_snoc s xs t c : parts s xs t → ∃ xs' t', parts (s ++ [c]) xs' t'.
Proof.
  intros (-> & Hxs & Ht).
  assert (Hnext : ∀ x, item_ok x → item_wire x = t ++ [c] → ∃ xs' t', parts (((xs ≫= item_wire) ++ t) ++ [c]) xs' t').
  { intros x Hx E. exists (xs ++ [x]), []. split_and!; [|by apply Forall_app; split; [|constructor]|constructor].
    rewrite bind_app. cbn. by rewrite E, !app_nil_r, (assoc_L (++)). }
  assert (Hmore : unfinished (t ++ [c]) → ∃ xs' t', parts (((xs ≫= item_wire) ++ t) ++ [c]) xs' t').
  { intros Hu. exists xs, (t ++ [c]). by rewrite <- (assoc_L (++)). }
  destruct Ht as [| |v Hv|p Hp|p Hp].
  - destruct (decide (c = tnIAC)) as [->|Hc]; [apply Hmore; constructor|by apply (Hnext (Char c))].
  - destruct (decide (c = tnIAC)) as [->|Hc]; [by apply (Hnext Literal)|].
    destruct (decide (c ∈ verbs)) as [Hv|Hv]; [apply Hmore; by apply un_verb|].
    destruct (decide (c = tnSB)) as [->|Hs]; [apply Hmore; apply (un_subneg []); constructor|]. by apply (Hnext (Command c)).
  - by apply (Hnext (Option_ v c)).
  - destruct (decide (c = tnIAC)) as [->|Hc]; [apply Hmore; rewrite <- (assoc_L (++)); by apply un_subneg_iac|].
    apply Hmore. rewrite <- (assoc_L (++)). change [c] with ([Plain c] ≫= elem_wire).
    rewrite <- bind_app. apply un_subneg. apply Forall_app. split; [done|by constructor].
  - destruct (decide (c = tnSE)) as [->|Hc].
    + apply (Hnext (Subneg p)); [done|]. cbn [item_wire]. by rewrite <- !(assoc_L (++)).
    + apply Hmore. rewrite <- !(assoc_L (++)). change ([tnIAC] ++ [c]) with ([Pair c] ≫= elem_wire). rewrite <- bind_app. apply un_subneg. apply Forall_app. split; [done|by constructor].
Qed.

Lemma every_stream s : ∃ xs t, parts s xs t.
Proof.
  induction s as [|c s IH] using rev_ind; [exists [], []; split_and!; constructor|]. destruct IH as (xs & t & H). by eapply parts_snoc.
Qed.

Lemma scan_parts s xs t : parts s xs t → (tn_scan tnData s).2 = xs ≫= item_data.
Proof.
  intros (-> & Hxs & Ht). rewrite scan_app, scan_items by done. pose proof (scan_unfinished t Ht) as Hu. destruct (tn_scan tnData t) as [s2 o2]. cbn [snd] in *. subst o2. by rewrite app_nil_r.
Qed.

(** ** What the reader hands up *)

Section reading.
Context {E : Type}.

Definition left_ (cs : list (arrival E)) : bytes := concat cs.*1.
Definition measure (cs : list (arrival E)) : nat := length cs + length (left_ cs).

Lemma conn_read_spec size cs :
  (0 < size)%nat →
  match conn_read size cs with
  | None => cs = []
  | Some ((bs, e), cs') => left_ cs = bs ++ left_ cs' ∧ (measure cs' < measure cs)%nat ∧ (Forall (λ c, c.2 = None) cs → e = None ∧ Forall (λ c, c.2 = None) cs')
  end.
Proof.
  intros Hs. destruct cs as [|[bs e] cs]; [done|]. cbn [conn_read]. unfold measure, left_. destruct (Nat.ltb_spec size (length bs)); cbn [fmap list_fmap concat fst length].
  - rewrite (assoc_L (++)), take_drop. split; [done|]. rewrite !length_app, length_drop. split; [lia|]. intros [He Hc]%Forall_cons. split; [done|]. by constructor.
  - split; [done|]. rewrite length_app. split; [lia|]. by intros [He Hc]%Forall_cons.
Qed.

(** What a call leaves: how much it took in, what it gave for it, and [onEnd]. *)
Definition took (r : telnetReader E) (out : bytes) (e : option E) (r' : telnetReader E) : Prop :=
  (∃ bs, left_ (conn r) = bs ++ left_ (conn r') ∧ tn_scan (state r) bs = (state r', out)) ∧ has_onEnd r' = has_onEnd r ∧
  match e with
  | None => ended r' = ended r ∧ calls r' = calls r
  | Some _ => ended r' = ended r || has_onEnd r ∧ calls r' = (calls r + if ended r || negb (has_onEnd r) then 0 else 1)%nat
  end.

Lemma tn_Read_spec fuel size r :
  (0 < size)%nat → (measure (conn r) < fuel)%nat →
  match tn_Read fuel size r with
  | None => (tn_scan (state r) (left_ (conn r))).2 = [] ∧ Forall (λ c, c.2 = None) (conn r)
  | Some ((out, e), r') => took r out e r' ∧ (out ≠ [] ∨ is_Some e) ∧ (measure (conn r') < measure (conn r))%nat
  end.
Proof.
  intros Hs. revert r. induction fuel as [|fuel IH]; intros r Hf; [lia|]. cbn [tn_Read]. unfold readOnce.
  pose proof (conn_read_spec size (conn r) Hs) as Hc. destruct (conn_read size (conn r)) as [[[bs e] cs]|] eqn:Hcr; [|rewrite Hc; by split; [|constructor]].
  destruct Hc as (Hl & Hm & _). destruct (tn_scan (state r) bs) as [s out] eqn:Hsc.
  destruct e as [e|].
  - assert (Ht : took r out (Some e) (signalEnd (mkReader cs s (has_onEnd r) (ended r) (calls r)))).
    { unfold signalEnd. cbn [ended has_onEnd]. destruct (ended r) eqn:E1, (has_onEnd r) eqn:E2; cbn [orb negb];
        (split; [by exists bs|]); cbn [has_onEnd ended calls conn state]; rewrite ?E1, ?E2; cbn; (split; [done|]); split_and!; try done; lia. }
    assert (Hc : conn (signalEnd (mkReader cs s (has_onEnd r) (ended r) (calls r))) = cs) by (unfold signalEnd; by case_match).
    destruct out as [|c out]; (split; [exact Ht|]); rewrite Hc; (split; [right; by eexists|done]).
  - destruct out as [|c out].
    + specialize (IH (mkReader cs s (has_onEnd r) (ended r) (calls r)) ltac:(cbn [conn]; lia)).
      destruct (tn_Read fuel size _) as [[[out' e'] r']|]; cbn [conn state has_onEnd ended calls] in *.
      * destruct IH as (((bs' & Hl' & Hsc') & Hh & He) & Hne & Hm'). cbn [conn state has_onEnd ended calls] in *. split; [|split; [done|lia]]. split; [|done].
        exists (bs ++ bs'). rewrite Hl, Hl', (assoc_L (++)). split; [done|]. by rewrite scan_app, Hsc, Hsc'.
      * destruct IH as [Hsc' Hall]. rewrite Hl, scan_app, Hsc. destruct (tn_scan s (left_ cs)) as [s2 o2]. cbn [snd] in *. subst o2. split; [done|].
        clear -Hcr Hall. destruct (conn r) as [|[bs0 e0] cs0]; [done|]. cbn [conn_read] in Hcr. destruct (size <? length bs0)%nat.
        -- injection Hcr as _ <-. apply Forall_cons in Hall as [He0 Hall]. by constructor.
        -- injection Hcr as _ -> <-. by constructor.
    + split; [|split; [by left|exact Hm]]. split; [by exists bs|done].
Qed.

Lemma Read_spec size r :
  (0 < size)%nat →
  match Read size r with
  | None => (tn_scan (state r) (left_ (conn r))).2 = [] ∧ Forall (λ c, c.2 = None) (conn r)
  | Some ((out, e), r') => took r out e r' ∧ (out ≠ [] ∨ is_Some e)
  end.
Proof.
  intros Hs. unfold Read. pose proof (tn_Read_spec (tn_fuel r) size r Hs) as H. unfold tn_fuel in *. specialize (H (Nat.lt_succ_diag_r _)).
  destruct (tn_Read _ size r) as [[[out e] r']|]; [|done]. by destruct H as (? & ? & _).
Qed.

(** One read after another, with whatever room each has, until one has to wait. *)
Fixpoint reads (sizes : list nat) (r : telnetReader E) : list (arrival E) * telnetReader E :=
  match sizes with
  | [] => ([], r)
  | size :: sizes' =>
      match Read size r with
      | None => ([], r)
      | Some (c, r) => let '(cs, r) := reads sizes' r in (c :: cs, r)
      end
  end.

Definition failed (c : arrival E) : bool := match c.2 with Some _ => true | None => false end.

Lemma reads_spec sizes r :
  Forall (λ n, 0 < n)%nat sizes →
  let '(outs, r') := reads sizes r in
  (∃ bs, left_ (conn r) = bs ++ left_ (conn r') ∧ tn_scan (state r) bs = (state r', concat outs.*1)) ∧
  Forall (λ o, o.1 ≠ [] ∨ is_Some o.2) outs ∧ has_onEnd r' = has_onEnd r ∧ ended r' = (ended r || (has_onEnd r && existsb failed outs)) ∧
  calls r' = (calls r + if negb (ended r) && has_onEnd r && existsb failed outs then 1 else 0)%nat ∧
  ((length outs < length sizes)%nat → (tn_scan (state r') (left_ (conn r'))).2 = [] ∧ Forall (λ c, c.2 = None) (conn r')).
Proof.
  intros Hall. revert r. induction Hall as [|size sizes Hs _ IH]; intros r; cbn [reads].
  { split; [by exists []|]. cbn. rewrite !andb_false_r, orb_false_r. split_and!; [constructor|done|done|lia|lia]. }
  pose proof (Read_spec size r Hs) as Hr. destruct (Read size r) as [[[out e] r1]|]; cycle 1.
  { split; [by exists []|]. cbn. rewrite !andb_false_r, orb_false_r. split_and!; [constructor|done|done|lia|done]. }
  destruct Hr as [((bs1 & Hl1 & Hsc1) & Hh1 & He1) Hne]. specialize (IH r1). destruct (reads sizes r1) as [outs r2].
  destruct IH as ((bs2 & Hl2 & Hsc2) & Hall2 & Hh2 & He2 & Hc2 & Hw2). split.
  { exists (bs1 ++ bs2). rewrite Hl1, Hl2, (assoc_L (++)). split; [done|]. rewrite scan_app, Hsc1, Hsc2. done. }
  split; [by constructor|]. split; [congruence|]. cbn [existsb]. change (failed (out, e)) with (match e with Some _ => true | None => false end).
  split; [|split].
  - rewrite He2, Hh1. destruct e; destruct He1 as [-> _]; destruct (ended r), (has_onEnd r), (existsb failed outs); done.
  - rewrite Hc2, Hh1. destruct e; destruct He1 as [-> ->]; destruct (ended r), (has_onEnd r), (existsb failed outs); cbn; lia.
  - cbn [length]. intros H. apply Hw2. lia.
Qed.

(** C26: however the network cuts a telnet stream and however much room each read has, the
    application gets exactly its data. What the reads gave, put together, is the data of
    the items of the bytes they took in, with no command, option or subnegotiation and
    no byte of an item that has not all arrived; each read gives at least one byte or an
    error, and one that waits has nothing to give; the end of the stream is reported
    once, with its first error. *)
Theorem telnet_transparent (cs : list (arrival E)) (onEnd : bool) sizes :
  Forall (λ n, 0 < n)%nat sizes →
  let '(outs, r) := reads sizes (newReader cs onEnd) in
  ∃ taken xs t, concat cs.*1 = taken ++ concat (conn r).*1 ∧ parts taken xs t ∧ concat outs.*1 = (xs ≫= item_data) ∧
    Forall (λ o, o.1 ≠ [] ∨ is_Some o.2) outs ∧
    calls r = (if onEnd && existsb failed outs then 1 else 0)%nat ∧
    ((length outs < length sizes)%nat →
       Forall (λ c, c.2 = None) (conn r) ∧ ∃ ys u, parts (concat cs.*1) ys u ∧ concat outs.*1 = (ys ≫= item_data)).
Proof.
  intros Hall. pose proof (reads_spec sizes (newReader cs onEnd) Hall) as H. destruct (reads sizes (newReader cs onEnd)) as [outs r].
  destruct H as ((bs & Hl & Hsc) & Hne & _ & _ & Hc & Hw). cbn [conn state newReader has_onEnd ended calls] in *. destruct (every_stream bs) as (xs & t & Hp).
  exists bs, xs, t. split_and!; [exact Hl|exact Hp| |exact Hne|by destruct onEnd, (existsb failed outs)|].
  - rewrite <- (scan_parts bs xs t Hp). by rewrite Hsc.
  - intros Hlt. destruct (Hw Hlt) as [Hrest Hno]. split; [exact Hno|]. destruct (every_stream (left_ cs)) as (ys & u & Hpu). exists ys, u. split; [exact Hpu|].
    rewrite <- (scan_parts _ ys u Hpu), Hl, scan_app, Hsc. destruct (tn_scan (state r) (left_ (conn r))) as [s2 o2]. cbn [snd] in *. subst o2. by rewrite app_nil_r.
Qed.
End reading.
