(* ===== verification/Mux.v ===== *)
(** * Lending a connection (internal/sshd/mux.go)

    The multiplexer that hands a connection from the terminal interface to a door and
    back, as interleaved steps of its pump, the reads and writes of its ports, borrowing
    and closing. A step is what the code does under the mutex; a read that would wait is
    a step that cannot be taken. *)

From stdpp Require Import relations.
From S2P Require Import Prelude.
From S2P Require Import Telnet.

(** The terminal interface's port, and the port of the n-th borrow. *)
Inductive port := TUI | Lent (n : nat).
#[export] Instance port_eq_dec : EqDecision port.
Proof. solve_decision. Defined.

(** Where the pump's goroutine is: before its wait, inside [src.Read], or gone. *)
Inductive pump_at := AtTop | InRead | Gone.

Section mux.
Context {E : Type}.

Inductive mux_error := FromSource (e : E) | EOF | ErrClosedPipe | ErrMuxBusy | ErrBorrowEnded.

(** The multiplexer, what its source will still give, the next borrow's number, how often
    [onResume] ran, and what reached the connection. *)
Record connMux := mkMux {
  src : list (arrival E); pend : bytes; err : option E; closed : bool; active : port;
  pump : pump_at; borrows : nat; resumes : nat; dst : list (port * bytes)
}.

Definition newConnMux (cs : list (arrival E)) : connMux := mkMux cs [] None false TUI AtTop 0 0 [].

(** [pump]: it reads only when nothing is left to be consumed. *)
Definition pump_start (m : connMux) : option connMux :=
  match pump m with
  | AtTop =>
      if closed m then Some (mkMux (src m) (pend m) (err m) (closed m) (active m) Gone (borrows m) (resumes m) (dst m))
      else if bool_decide (pend m = []) then Some (mkMux (src m) (pend m) (err m) (closed m) (active m) InRead (borrows m) (resumes m) (dst m))
      else None
  | _ => None
  end.

Definition pump_read (m : connMux) : option connMux :=
  match pump m, src m with
  | InRead, (bs, e) :: src' =>
      let pend := if bool_decide (bs = []) then pend m else bs in
      let err := match e with Some e => Some e | None => err m end in
      let stop := match err with Some _ => true | None => closed m end in
      Some (mkMux src' pend err (closed m) (active m) (if stop then Gone else AtTop) (borrows m) (resumes m) (dst m))
  | _, _ => None
  end.

(** [Read] of a port: nothing while it would wait. *)
Definition port_Read (p : port) (size : nat) (m : connMux) : option (result mux_error bytes * connMux) :=
  if bool_decide (size = 0%nat) then Some (Ok [], m)
  else
    let mine := bool_decide (active m = p) in
    if mine && negb (bool_decide (pend m = [])) then
      Some (Ok (take size (pend m)), mkMux (src m) (drop size (pend m)) (err m) (closed m) (active m) (pump m) (borrows m) (resumes m) (dst m))
    else match err m with
    | Some e => Some (Err (FromSource e), m)
    | None =>
        if closed m then Some (Err EOF, m)
        else if negb mine && negb (bool_decide (p = TUI)) then Some (Err ErrBorrowEnded, m)
        else None
    end.

(** [Write]: what a port writes while it is not active is dropped. *)
Definition port_Write (p : port) (b : bytes) (m : connMux) : nat * connMux :=
  if bool_decide (active m = p) && negb (closed m)
  then (length b, mkMux (src m) (pend m) (err m) (closed m) (active m) (pump m) (borrows m) (resumes m) (dst m ++ [(p, b)]))
  else (length b, m).

(** [Borrow] up to the call of [fn], and after it. *)
Definition activate (m : connMux) : result mux_error port * connMux :=
  if closed m then (Err ErrClosedPipe, m)
  else if negb (bool_decide (active m = TUI)) then (Err ErrMuxBusy, m)
  else
    let p := Lent (borrows m) in
    (Ok p, mkMux (src m) (pend m) (err m) (closed m) p (pump m) (S (borrows m)) (resumes m) (dst m)).

Definition restore (m : connMux) : connMux :=
  mkMux (src m) (pend m) (err m) (closed m) TUI (pump m) (borrows m) (S (resumes m)) (dst m).

Definition Close (m : connMux) : connMux :=
  mkMux (src m) (pend m) (err m) true (active m) (pump m) (borrows m) (resumes m) (dst m).

(** What happens, with the bytes each step hands to a port. A borrow is ended by the
    call that began it, while it is the active one. *)
Inductive mux_step : connMux → list (port * bytes) → connMux → Prop :=
| step_start m m' : pump_start m = Some m' → mux_step m [] m'
| step_pump m m' : pump_read m = Some m' → mux_step m [] m'
| step_read p size m b m' : port_Read p size m = Some (Ok b, m') → mux_step m [(p, b)] m'
| step_read_err p size m e m' : port_Read p size m = Some (Err e, m') → mux_step m [] m'
| step_write p b m : mux_step m [] (port_Write p b m).2
| step_borrow m : mux_step m [] (activate m).2
| step_restore m n : active m = Lent n → mux_step m [] (restore m)
| step_close m : mux_step m [] (Close m).

(** A run, and what was handed out over it, in order. *)
Inductive mux_run (cs : list (arrival E)) : list (port * bytes) → connMux → Prop :=
| run_new : mux_run cs [] (newConnMux cs)
| run_step given m more m' : mux_run cs given m → mux_step m more m' → mux_run cs (given ++ more) m'.

Definition handed (given : list (port * bytes)) : bytes := concat given.*2.
Definition mux_ok (cs : list (arrival E)) (given : list (port * bytes)) (m : connMux) : Prop :=
  concat cs.*1 = handed given ++ pend m ++ concat (src m).*1 ∧
  (pump m = InRead → pend m = [] ) ∧
  (err m ≠ None → pump m = Gone) ∧ (pump m = Gone → err m = None → closed m = true) ∧
  (∀ n, active m = Lent n → S n = borrows m).
End mux.
Arguments connMux E : clear implicits.
Arguments mux_error E : clear implicits.

Section facts.
Context {E : Type}.

Lemma handed_app given more : handed (given ++ more) = handed given ++ handed more.
Proof. unfold handed. by rewrite fmap_app, concat_app. Qed.

Lemma mux_step_ok cs given (m m' : connMux E) more : mux_step m more m' → mux_ok cs given m → mux_ok cs (given ++ more) m'.
Proof.
  intros Hs (Hc & Hin & He & Hg & Ha). destruct Hs as [m m' Hs|m m' Hs|p size m b m' Hs|p size m e m' Hs|p b m|m|m n Hn|m]; unfold mux_ok; rewrite ?app_nil_r.
  - unfold pump_start in Hs. destruct (pump m) eqn:Hp; [|done..]. destruct (closed m); [|case_bool_decide as Hpe; [|done]]; injection Hs as <-; cbn [src pend err active pump borrows]; split_and!; try done.
    intros Hne. by specialize (He Hne).
  - unfold pump_read in Hs. destruct (pump m) eqn:Hp; [done| |done]. specialize (Hin eq_refl). destruct (src m) as [|[bs e] src'] eqn:Hsrc; [done|]. injection Hs as <-. cbn [src pend err active pump borrows].
    assert (Hno : err m = None) by (destruct (err m); [|done]; by specialize (He ltac:(done))). rewrite Hno, Hin in *. cbn [app] in Hc. split_and!; [| | | |done].
    + rewrite Hc. cbn [fmap list_fmap concat fst]. case_bool_decide as Hb; [subst bs|]; done.
    + destruct e; [done|]. by destruct (closed m).
    + by destruct e.
    + destruct e; [done|]. by destruct (closed m).
  - unfold port_Read in Hs. case_bool_decide as Hz; [injection Hs as <- <-; rewrite handed_app; cbn; rewrite !app_nil_r; done|].
    destruct (bool_decide (active m = p) && negb (bool_decide (pend m = []))) eqn:Hm.
    + injection Hs as <- <-. cbn [src pend err active pump borrows]. split_and!; [|intros Hp; specialize (Hin Hp); rewrite Hin; apply drop_nil|done..].
      rewrite handed_app. cbn [handed fmap list_fmap concat snd]. rewrite app_nil_r, <- (assoc_L (++)), (assoc_L (++) (take size (pend m))), take_drop. done.
    + destruct (err m); [done|]. destruct (closed m); [done|]. by destruct (negb _ && _).
  - assert (m' = m) as ->; [|done]. unfold port_Read in Hs. clear -Hs. repeat case_match; congruence.
  - unfold port_Write. destruct (_ && _); done.
  - assert (Hsame : mux_ok cs given m) by (unfold mux_ok; split_and!; assumption).
    unfold activate. destruct (closed m); [exact Hsame|]. destruct (negb _); [exact Hsame|]. cbn [snd src pend err active pump borrows]. split_and!; try done. by intros n [= <-].
  - cbn [restore src pend err active pump borrows]. split_and!; done.
  - done.
Qed.

Lemma mux_run_ok cs given (m : connMux E) : mux_run cs given m → mux_ok cs given m.
Proof.
  induction 1 as [|given m more m' _ IH Hs]; [|by eapply mux_step_ok]. unfold mux_ok, newConnMux. cbn. split_and!; done.
Qed.

(** C27: lending a connection loses no byte and gives none twice. In every interleaving of
    the pump, the ports, borrowing, ending borrows and closing, what was handed out so
    far, what waits and what the source still holds are the source's bytes in order; a
    port is handed bytes only while it is the active one; a write of any other port is
    reported as done and never reaches the connection. A read waits exactly while the
    connection is alive and its port is active with nothing there, or is the terminal
    interface's during a borrow: a finished borrow's read always returns. And nothing is
    stuck: while the connection is alive, the pump is in its read or can go to it, or
    bytes wait which the active port's read takes. *)
Theorem mux_loses_nothing cs given (m : connMux E) :
  mux_run cs given m →
  concat cs.*1 = handed given ++ pend m ++ concat (src m).*1 ∧
  (∀ p size b m', port_Read p size m = Some (Ok b, m') → b ≠ [] → active m = p ∧ pend m = b ++ pend m') ∧
  (∀ p b, active m ≠ p → port_Write p b m = (length b, m)) ∧
  (∀ p size, port_Read p size m = None ↔
     (0 < size)%nat ∧ err m = None ∧ closed m = false ∧ ((active m = p ∧ pend m = []) ∨ (p = TUI ∧ active m ≠ TUI))) ∧
  (err m = None → closed m = false →
     pump m = InRead ∨ (∃ m', pump_start m = Some m') ∨
     (∀ size, (0 < size)%nat → ∃ b m', port_Read (active m) size m = Some (Ok b, m') ∧ b ≠ [])) ∧
  (∀ n, active m = Lent n → ∃ k, borrows m = S k ∧ k = n).
Proof.
  intros Hr. destruct (mux_run_ok _ _ _ Hr) as (Hc & Hin & He & Hg & Ha). split; [exact Hc|]. split; [|split; [|split; [|split]]].
  - intros p size b m'. unfold port_Read. case_bool_decide; [by intros [= <- <-]|]. destruct (bool_decide (active m = p)) eqn:Hp; cbn [andb negb].
    + destruct (bool_decide (pend m = [])); cbn [negb]; [destruct (err m); [done|]; destruct (closed m); done|].
      intros [= <- <-] _. apply bool_decide_eq_true in Hp. split; [done|]. cbn [pend]. by rewrite take_drop.
    + destruct (err m); [done|]. destruct (closed m); [done|]. by destruct (negb _).
  - intros p b Hp. unfold port_Write. by rewrite bool_decide_false.
  - intros p size. unfold port_Read. case_bool_decide as Hz; [split; [done|]; intros (? & _); lia|].
    destruct (decide (active m = p)) as [Hp|Hp]; [rewrite bool_decide_true by done|rewrite bool_decide_false by done]; cbn [andb negb].
    + destruct (decide (pend m = [])) as [Hpe|Hpe]; [rewrite bool_decide_true by done|rewrite bool_decide_false by done]; cbn [negb].
      * destruct (err m); [naive_solver|]. destruct (closed m); [naive_solver|]. split; [|done]. intros _. split_and!; [lia|done|done|by left].
      * split; [done|]. intros (_ & _ & _ & [[_ ?]|[-> ?]]); done.
    + destruct (err m); [naive_solver|]. destruct (closed m); [naive_solver|].
      destruct (decide (p = TUI)) as [->|Ht]; [rewrite bool_decide_true by done|rewrite bool_decide_false by done]; cbn [negb].
      * split; [|done]. intros _. split_and!; [lia|done|done|by right].
      * split; [done|]. intros (_ & _ & _ & [[? _]|[? _]]); done.
  - intros Hno Hcl. destruct (pump m) eqn:Hp; [|by left|by specialize (Hg eq_refl Hno); congruence]. destruct (decide (pend m = [])) as [Hpe|Hpe].
    + right; left. unfold pump_start. rewrite Hp, Hcl, bool_decide_true by done. by eexists.
    + right; right. intros size Hs. unfold port_Read. rewrite bool_decide_false by lia. rewrite bool_decide_true, bool_decide_false by done. cbn [andb negb].
      eexists _, _. split; [done|]. destruct (pend m); [done|]. by destruct size; [lia|].
  - intros n Hn. exists n. by rewrite (Ha n Hn).
Qed.
End facts.
