(* ===== verification/Witness.v ===== *)
(** * Concrete instances

    Small concrete functions for the parameters of the development (a hash, a
    signature scheme, a random source, a log, a transmitter, a compressor) and,
    for each property that has hypotheses, an input at which they all hold. The
    instances are the simplest functions with the documented behaviour the
    properties rely on; nothing else depends on them. *)

From stdpp Require Import strings.
From S2P Require Import Prelude Binary Order Float64 Identity.
From S2P Require VersionVector Text Bodies FileBody DoorEvent Records.
From S2P Require GossipWire Schedule GossipEngine GossipFacts Fountain FountainCodec Bundle.

(** ** The parameters *)

#[local] Instance toy_blake3 : Blake3 := λ b,
  arr_of 32 ([z2b (be_val b mod 251 + 1); z2b (be_val b mod 241); z2b (strlen b)] ++ b).

#[local] Instance toy_ed25519 : Records.Ed25519 := {
  ed25519_sign priv msg := arr_of 64 (priv ++ msg);
  ed25519_verify pub msg sig := bool_decide (sig = arr_of 64 (pub ++ msg))
}.

#[local] Instance toy_zstd : Bundle.Zstd := {
  zstd_accepts _ := true;
  EncodeAll _ b := b;
  DecodeAll _ b := Some b
}.

#[local] Instance toy_rng : Schedule.Rng nat := λ n, (dec (Z.of_nat (n mod 10)) 10, S n).

(** A log that holds one area, and applies nothing. *)
Record toy_store := mkToyStore {
  toy_area : GossipWire.AreaTag;
  toy_vector : VersionVector.Vector;
  toy_recs : list Records.Rec
}.
#[local] Instance toy_Store : GossipEngine.Store toy_store unit := {
  st_Areas s := [toy_area s];
  st_Vector s a := if decide (a = toy_area s) then toy_vector s else VersionVector.New;
  st_Records s a _ := if decide (a = toy_area s) then toy_recs s else [];
  st_Apply s _ _ := (s, 0, None)
}.

(** A transmitter that records what it accepts, until its budget is spent. *)
Record toy_out := mkToyOut { toy_log : list GossipEngine.emission; toy_budget : nat }.
Definition toy_emit (o : toy_out) (x : GossipEngine.emission) : toy_out * option unit :=
  match toy_budget o with
  | O => (o, Some tt)
  | S n => (mkToyOut (toy_log o ++ [x]) n, None)
  end.
#[local] Instance toy_Outbox : GossipEngine.Outbox toy_out unit := {
  SendMessage o to p := toy_emit o (GossipEngine.Message to p);
  SendRecords o a rs := toy_emit o (GossipEngine.Bundle a rs);
  CanSend _ := true;
  SetLossRate o _ := o;
  LossRate _ := None
}.
#[local] Instance toy_OutboxLog : GossipEngine.OutboxLog toy_out unit.
Proof.
  refine {| GossipEngine.sent_log := toy_log |};
    cbn; unfold toy_emit; [intros o to p o'|intros o a rs o'|intros o to p o' e|intros o a rs o' e|done];
    destruct (toy_budget o); intros [= <-]; done.
Defined.

(** [evaluates] proves an equation whose sides compute to the same value. *)
Ltac evaluates := match goal with |- _ = ?b => vm_cast_no_check (eq_refl b) end.

(** ** Values *)

Definition ident (b : byte) : NodeID := arr_of 8 (replicate 8 b).
Definition toy_area_tag : arr 4 := arr_of 4 [Byte.x61; Byte.x62; Byte.x63; Byte.x64].
Definition toy_pub : bytes := replicate 32 Byte.x07.
Definition toy_key : Records.NodeKey := Records.mkNodeKey toy_pub toy_pub.

Lemma toy_key_valid : Records.valid_key toy_key.
Proof. split; [done|]. intros msg. by apply bool_decide_eq_true. Defined.

(** The value of a run that succeeds. *)
Definition the {E A : Type} (d : A) (m : result E A) : A := match m with Ok a => a | Err _ => d end.

Definition no_rec : Records.Rec :=
  Records.mkRec (Records.mkFields zero_id 0 0 Byte.x00 toy_area_tag Records.zero_record_id [])
    Records.zero_record_id [] (zero_arr 64).

Definition toy_fields : Records.Fields :=
  Records.mkFields (Records.NodeKey_ID toy_key) 5 1700000000 Records.TypePost toy_area_tag
    Records.zero_record_id (str "hello"%string).
Definition toy_post : Records.Rec := the no_rec (Records.New toy_key toy_fields).

Lemma toy_post_New : Records.New toy_key toy_fields = Ok toy_post.
Proof. split_and?; evaluates. Defined.

Definition vec1 : VersionVector.Vector := {[ ident Byte.x01 := 3 ]}.
Definition vec2 : VersionVector.Vector := {[ ident Byte.x01 := 2; ident Byte.x02 := 9 ]}.

Lemma vec1_wf : VersionVector.wf_vector vec1 ∧ VersionVector.positive_vector vec1.
Proof. unfold VersionVector.wf_vector, VersionVector.positive_vector. by_compute. Defined.
Lemma vec2_wf : VersionVector.wf_vector vec2 ∧ VersionVector.positive_vector vec2.
Proof. unfold VersionVector.wf_vector, VersionVector.positive_vector. by_compute. Defined.

(** ** Identity, version vectors, labels *)

Lemma base32_roundtrip_witness :
  DecodeBase32 (EncodeBase32 [Byte.x01; Byte.xff]) = Ok [Byte.x01; Byte.xff] ∧
  length (EncodeBase32 [Byte.x01; Byte.xff]) = base32Len 2.
Proof. exact (base32_roundtrip [Byte.x01; Byte.xff] ltac:(done)). Defined.

Lemma merge_semilattice_witness :
  VersionVector.Merged vec1 vec2 = VersionVector.Merged vec2 vec1 ∧ vec1 ≠ vec2.
Proof.
  split; [|by_compute]. destruct vec1_wf, vec2_wf.
  by apply (VersionVector.merge_semilattice vec1 vec2 vec1).
Defined.

Lemma Missing_exact_witness :
  VersionVector.Missing vec1 (Some vec2) = [VersionVector.mkRange (ident Byte.x02) 1 9] ∧
  ∀ o, VersionVector.Get (VersionVector.fill vec1 (VersionVector.Missing vec1 (Some vec2))) o =
       VersionVector.Get (VersionVector.Merged vec1 vec2) o.
Proof.
  split; [evaluates|]. apply (VersionVector.Missing_exact vec1 vec2); [apply vec1_wf|apply vec2_wf].
Defined.

Lemma validateLabel_no_control_witness :
  Text.validateLabel Text.LNick (str "Ada") 24 = Ok tt ∧
  Forall (λ b, 0x20 ≤ b2z b ∧ b2z b ≠ 0x7f) (str "Ada").
Proof.
  split; [evaluates|].
  apply (Text.validateLabel_no_control Text.LNick (str "Ada") 24). evaluates.
Defined.

(** ** Records *)

Lemma New_Marshal_Unmarshal_Verify_witness :
  Records.valid_key toy_key ∧
  Records.Unmarshal (Records.Marshal toy_post) = Ok toy_post ∧
  Records.Verify toy_post (Records.Public toy_key) = Ok tt ∧
  Records.Origin (Records.fields toy_post) = Records.NodeKey_ID toy_key.
Proof.
  split; [apply toy_key_valid|].
  apply (Records.New_Marshal_Unmarshal_Verify toy_key toy_fields toy_post);
    [apply toy_key_valid|by_compute|by_compute|apply toy_post_New].
Defined.

Definition toy_node : Records.Rec :=
  the no_rec (Records.NewNodeRecord toy_key 1 1700000000 (str "hill") (str "ada") 3).

Lemma NewNodeRecord_verifies_witness :
  Records.VerifyNodeRecord toy_node =
    Ok (Bodies.Node.mkNodeBody toy_pub (str "hill") (str "ada") 3).
Proof.
  apply (Records.NewNodeRecord_verifies toy_key 1 1700000000 (str "hill") (str "ada") 3 toy_node);
    [apply toy_key_valid|by_compute|by_compute|by_compute|evaluates].
Defined.

Lemma Unmarshal_body_bounds_witness :
  Records.Type_ (Records.fields toy_node) ∈ Records.known_types ∧
  strlen (Records.Body (Records.fields toy_node)) ≤ 8192.
Proof.
  assert (H : Records.Unmarshal (Records.Marshal toy_node) = Ok toy_node) by evaluates.
  destruct (Records.Unmarshal_body_bounds (Records.Marshal toy_node) toy_node H) as (Ht & Hb & _).
  exact (conj Ht Hb).
Defined.

Definition toy_profile : Bodies.Profile.ProfileBody :=
  Bodies.Profile.mkProfileBody (str "ada") (arr_of 32 toy_pub) Byte.x01.
Definition toy_file : FileBody.FileBody :=
  FileBody.mkFileBody (str "readme.txt") 1234 (arr_of 16 [Byte.x09]) (str "notes") [str "doc"].
Definition toy_game : DoorEvent.DoorEventBody :=
  DoorEvent.mkDoorEventBody (str "lord")
    [DoorEvent.mkDoorEvent Byte.x01 (str "ada") [] zero_id [Byte.x05]].

Definition toy_rp : Records.Rec := the no_rec (Records.NewProfileRecord toy_key 1 2 toy_profile).
Definition toy_rf : Records.Rec := the no_rec (Records.NewFileRecord toy_key 1 2 toy_area_tag toy_file).
Definition toy_rd : Records.Rec := the no_rec (Records.NewDoorEventRecord toy_key 1 2 toy_area_tag toy_game).

Lemma toy_records_New :
  Records.NewProfileRecord toy_key 1 2 toy_profile = Ok toy_rp ∧
  Records.NewFileRecord toy_key 1 2 toy_area_tag toy_file = Ok toy_rf ∧
  Records.NewDoorEventRecord toy_key 1 2 toy_area_tag toy_game = Ok toy_rd.
Proof. split_and?; evaluates. Defined.

Lemma NewRecords_verify_witness :
  Records.VerifyProfileRecord toy_rp (Records.Public toy_key) = Ok toy_profile ∧
  Records.VerifyFileRecord toy_rf (Records.Public toy_key) = Ok toy_file ∧
  Records.VerifyDoorEventRecord toy_rd (Records.Public toy_key) = Ok toy_game.
Proof.
  destruct toy_records_New as (Hnp & Hnf & Hnd).
  assert (Hfl : Bodies.Profile.flags_known toy_profile) by (unfold Bodies.Profile.flags_known; by_compute).
  destruct (Records.NewRecords_verify toy_key 1 2 toy_area_tag toy_profile toy_file toy_game
    toy_rp toy_rf toy_rd toy_key_valid ltac:(by_compute) ltac:(by_compute) ltac:(by_compute)
    Hfl Hnp Hnf Hnd) as ([_ Hp] & [_ Hf] & [_ Hd]).
  exact (conj Hp (conj Hf Hd)).
Defined.

(** ** Gossip *)

Definition toy_vectors : gmap GossipWire.AreaTag VersionVector.Vector := {[ toy_area_tag := vec2 ]}.

Lemma NewDigest_wire_witness :
  GossipWire.DecodeDigest (GossipWire.Digest_Encode (GossipWire.NewDigest toy_vectors)) =
    Ok (GossipWire.NewDigest toy_vectors) ∧
  strlen (GossipWire.Digest_Encode (GossipWire.NewDigest toy_vectors)) = 14.
Proof.
  split; [|evaluates].
  apply (GossipWire.NewDigest_wire toy_vectors). by_compute.
Defined.

Definition toy_cfg : GossipEngine.Config :=
  GossipEngine.mkConfig Schedule.DefaultSchedule 0 30 64 (24 * Schedule.Hour) 1.

Lemma no_second_digest_witness :
  let s := Schedule.mkScheduler 0 0 false 0 0 in
  let '(s1, r1) := Schedule.MarkSent Schedule.DefaultSchedule 3 0 40 s O in
  0 + Schedule.Second ≤ Schedule.due s1.
Proof.
  cbv zeta. destruct (Schedule.MarkSent _ _ _ _ _ _) as [s1 r1] eqn:E1.
  destruct (Schedule.Due Schedule.DefaultSchedule 3 (Schedule.due s1) s1 r1) as [[b s2] r2] eqn:E2.
  assert (b = true) as ->.
  { vm_compute in E1. injection E1 as <- <-. vm_compute in E2. by injection E2 as <- _ _. }
  apply (Schedule.no_second_digest_within_a_second Schedule.DefaultSchedule
    (Schedule.mkScheduler 0 0 false 0 0, O) (Schedule.EvSent 0 40) (s1, r1) []
    (Schedule.due s1) (s1, r1) (s2, r2) 0 40).
  - by left.
  - by apply (Schedule.step_sent _ 3).
  - constructor.
  - done.
  - by apply (Schedule.step_due _ 3).
Defined.

Lemma Due_suppression_witness :
  ∃ s' rnd', Schedule.Due Schedule.DefaultSchedule 3 7 (Schedule.mkScheduler 0 5 true 0 0) O
      = (false, s', rnd') ∧ Schedule.suppressed s' = 1.
Proof.
  destruct (Schedule.Due_suppression Schedule.DefaultSchedule 3 7
    (Schedule.mkScheduler 0 5 true 0 0) O ltac:(done) ltac:(done)) as (s' & r' & E & _ & Hs & _).
  exists s', r'. by split.
Defined.

Definition toy_peer : GossipEngine.peerState :=
  GossipEngine.mkPeerState (ident Byte.x02) 0 ∅ ∅ ∅ 0 true.

Lemma DictionaryFloor_witness :
  ∃ k p, ({[ ident Byte.x02 := toy_peer ]} : gmap NodeID GossipEngine.peerState) !! k = Some p ∧
    GossipFacts.votes toy_cfg 5 p ∧ GossipEngine.dictionary p = 0.
Proof.
  destruct (GossipFacts.DictionaryFloor_spec toy_cfg 5 {[ ident Byte.x02 := toy_peer ]} 0
    (Some (ident Byte.x02)) true) as (_ & _ & _ & H); [evaluates|].
  destruct (H eq_refl) as (k & p & Hk & Hv & _ & Hd). exists k, p. by split_and!.
Defined.


Abbreviation toy_engine := (GossipEngine.Engine toy_store toy_out nat).
Definition alice : NodeID := ident Byte.x01.
Definition bob : NodeID := ident Byte.x02.
Definition alice_store : toy_store := mkToyStore toy_area_tag vec1 [toy_post].
Definition bob_store : toy_store := mkToyStore toy_area_tag vec2 [toy_post].
Definition fresh (s : toy_store) (budget : nat) : toy_engine :=
  GossipEngine.New toy_cfg s (mkToyOut [] budget) O 0.

(** Bob's digest reaches Alice, who is behind. *)
Definition alice_heard : toy_engine :=
  (GossipEngine.Receive (SE := unit) (OE := unit) alice toy_cfg 10 bob
     (GossipWire.Digest_Encode (GossipEngine.OwnDigest toy_cfg bob_store)) (fresh alice_store 9)).2.

Lemma reachable_wf_witness :
  length (GossipEngine.pending alice_heard) = 1%nat ∧ GossipFacts.wf_engine alice_heard.
Proof.
  split; [evaluates|].
  apply (GossipFacts.reachable_wf alice toy_cfg alice_store (mkToyOut [] 9) O 0 alice_heard).
  apply rtc_once. by apply (GossipFacts.step_receive alice toy_cfg 10 bob).
Defined.

(** A run of a handler that reported no error. *)
Lemma run_ok {E A X : Type} (m : result E A * X) : is_ok m.1 = true → ∃ a, m = (Ok a, m.2).
Proof. destruct m as [[a|e] x]; [by exists a|done]. Defined.

Abbreviation alice_fired :=
  (GossipEngine.firePending (SE := unit) (OE := unit) 20 alice_heard).

Lemma firePending_spec_witness :
  length (toy_log (GossipEngine.out alice_fired.2)) = 1%nat ∧
  ∃ fs, Forall2 (GossipFacts.fate_ok alice_store 20) (GossipEngine.pending alice_heard) fs ∧
    GossipFacts.log_of alice_fired.2 =
      GossipFacts.log_of alice_heard ++ GossipFacts.asked (GossipEngine.pending alice_heard) fs.
Proof.
  split; [evaluates|].
  assert (Hok : is_ok alice_fired.1 = true) by evaluates.
  pose proof (run_ok alice_fired Hok) as Hrun. destruct Hrun as [u E].
  destruct (GossipFacts.firePending_spec 20 alice_heard u alice_fired.2 E) as (fs & Hf & _ & Hl & _).
  exists fs. exact (conj Hf Hl).
Defined.

Definition alice_fresh : toy_engine := fresh alice_store 9.
Definition bob_fresh : toy_engine := fresh bob_store 9.

Lemma divergence_is_asked_about_witness :
  GossipFacts.is_asking bob toy_area_tag
    (GossipEngine.on_area toy_cfg 10 bob (GossipWire.AreaStateFrom toy_area_tag vec2) (0, 0, alice_fresh)).2 = true.
Proof.
  assert (Hf : GossipEngine.federates (GossipEngine.store alice_fresh) toy_area_tag = true) by evaluates.
  assert (Hg : GossipEngine.federates (GossipEngine.store bob_fresh) toy_area_tag = true) by evaluates.
  assert (Hh : VersionVector.Hash (GossipEngine.st_Vector (GossipEngine.store alice_fresh) toy_area_tag) ≠
               VersionVector.Hash (GossipEngine.st_Vector (GossipEngine.store bob_fresh) toy_area_tag))
    by by_compute.
  destruct (GossipFacts.divergence_is_asked_about toy_cfg 10 10 alice bob toy_area_tag
    alice_fresh bob_fresh 0 0 0 0 Hf Hg Hh) as [_ H].
  apply H. by_compute.
Defined.

Abbreviation alice_vector :=
  (GossipEngine.onVector (SE := unit) (OE := unit) toy_cfg bob
  (GossipWire.VectorMsg_Encode (GossipWire.mkVectorMsg toy_area_tag vec2)) alice_fresh).

Lemma onVector_witness :
  toy_log (GossipEngine.out alice_vector.2) =
    [GossipEngine.Message bob (GossipWire.RangeReq_Encode
       (GossipWire.mkRangeReq toy_area_tag [VersionVector.mkRange bob 1 9]))].
Proof.
  assert (Hok : is_ok alice_vector.1 = true) by evaluates.
  pose proof (run_ok alice_vector Hok) as Hrun. destruct Hrun as [u E].
  assert (Hl : VersionVector.Len vec2 ≤ VersionVector.MaxOrigins) by by_compute.
  assert (Hc : 1 ≤ GossipEngine.MaxRangesPerRequest toy_cfg) by by_compute.
  assert (Hm : VersionVector.wf_vector (GossipEngine.st_Vector (GossipEngine.store alice_fresh) toy_area_tag))
    by (unfold VersionVector.wf_vector; by_compute).
  destruct (GossipFacts.onVector_asks_for_what_is_missing toy_cfg bob vec2 toy_area_tag alice_fresh
    (Ok u) alice_vector.2 (proj1 vec2_wf) Hl Hm Hc E) as [H _].
  match type of H with if ?c then _ else _ => replace c with true in H by (symmetry; evaluates) end.
  destruct H as [[_ H]|(x & H & _)]; [|discriminate H]. etransitivity; [exact H|]. evaluates.
Defined.

Definition bob_request : bytes :=
  GossipWire.RangeReq_Encode (GossipWire.mkRangeReq toy_area_tag [VersionVector.mkRange bob 1 9]).
Abbreviation bob_answer :=
  (GossipEngine.onRangeReq (SE := unit) (OE := unit) toy_cfg 10 alice bob_request bob_fresh).

Lemma onRangeReq_witness :
  toy_log (GossipEngine.out bob_answer.2) = [GossipEngine.Bundle toy_area_tag [toy_post]].
Proof.
  assert (Hok : is_ok bob_answer.1 = true) by evaluates.
  pose proof (run_ok bob_answer Hok) as Hrun. destruct Hrun as [u E].
  assert (Hd : GossipWire.DecodeRangeReq bob_request =
    Ok (GossipWire.mkRangeReq toy_area_tag [VersionVector.mkRange bob 1 9])) by evaluates.
  assert (Hc : 0 ≤ GossipEngine.MaxRecordsPerPush toy_cfg) by by_compute.
  pose proof (GossipFacts.onRangeReq_answers toy_cfg 10 alice bob_request
    (GossipWire.mkRangeReq toy_area_tag [VersionVector.mkRange bob 1 9]) bob_fresh (Ok u) bob_answer.2
    Hd Hc E) as H.
  cbv zeta in H.
  match type of H with if ?c then _ else _ => replace c with true in H by (symmetry; evaluates) end.
  destruct H as [[_ H]|(x & H & _)]; [|discriminate H]. etransitivity; [exact H|]. evaluates.
Defined.

(** A failed transmission leaves the list of pending asks half rewritten: of
    three asks the first is due and sent, the second is kept, the third is due
    and fails. The error returns before the filtered list replaces the old one,
    whose front the filter has already overwritten, so the kept ask is queued
    twice and will be asked twice. *)
Definition due_ask (area : arr 4) (at_ : Z) : GossipEngine.pendingAsk :=
  GossipEngine.mkPendingAsk bob area at_ (zero_arr 4).
Definition area_b : arr 4 := arr_of 4 [Byte.x62].
Definition area_c : arr 4 := arr_of 4 [Byte.x63].

Lemma firePending_error_duplicates :
  let asks := [due_ask toy_area_tag 1; due_ask area_b 99; due_ask area_c 1] in
  let e := GossipEngine.set_pending asks O (fresh alice_store 1) in
  let r := GossipEngine.firePending (SE := unit) (OE := unit) 20 e in
  is_ok r.1 = false ∧
  GossipEngine.pending r.2 = [due_ask area_b 99; due_ask area_b 99; due_ask area_c 1] ∧
  toy_log (GossipEngine.out r.2) =
    [GossipEngine.Message bob (GossipWire.VectorReq_Encode [toy_area_tag])].
Proof. split_and!; evaluates. Defined.

(** ** Fountain codes and bundles *)

Lemma mask_nonzero_witness :
  true ∈ Fountain.mask alice 7 9 5.
Proof. apply (Fountain.mask_nonzero alice 7 9 5). lia. Defined.

Definition toy_payload : bytes := str "reed, tide and stone".
Definition no_encoder : FountainCodec.Encoder := FountainCodec.mkEncoder alice 0 0 0 [] 0.
Definition no_decoder : FountainCodec.Decoder :=
  FountainCodec.mkDecoder alice 0 0 0 0 [] ∅ [] false.
Definition toy_encoder : FountainCodec.Encoder := the no_encoder (FountainCodec.NewEncoder alice 7 toy_payload 6).
Definition toy_decoder : FountainCodec.Decoder :=
  the no_decoder (FountainCodec.NewDecoder alice 7 4 6 (strlen toy_payload)).

Definition toy_indices : list Z := [3; 0; 6; 0; 2; 1].

Lemma toy_codec :
  FountainCodec.NewEncoder alice 7 toy_payload 6 = Ok toy_encoder ∧
  FountainCodec.NewDecoder alice 7 (Z.of_nat (FountainCodec.e_k toy_encoder)) 6 (strlen toy_payload)
    = Ok toy_decoder ∧
  Forall (λ i, 0 ≤ i) toy_indices.
Proof. split_and!; [evaluates|evaluates|by_compute]. Defined.

Lemma decode_sound_witness :
  FountainCodec.Payload (FountainCodec.feed toy_decoder (FountainCodec.Symbol_ toy_encoder <$> toy_indices))
    = Ok toy_payload.
Proof.
  destruct toy_codec as (He & Hd & Hi).
  destruct (FountainCodec.decode_sound alice 7 toy_payload 6 toy_encoder toy_decoder toy_indices He Hd Hi)
    as [_ H]. apply H. evaluates.
Defined.

(** Two symbols of four leave another block possible. *)
Lemma decode_complete_witness :
  ∃ ys, FountainCodec.block 4 6 ys ∧ ys ≠ FountainCodec.source toy_encoder.
Proof.
  destruct toy_codec as (He & Hd & _). assert (Hi : Forall (λ i, 0 ≤ i) [1; 9]) by by_compute.
  destruct (FountainCodec.decode_complete alice 7 toy_payload 6 toy_encoder toy_decoder [1; 9] He Hd Hi)
    as [H _].
  destruct H as (ys & Hb & Hne & _); [evaluates|]. exists ys. exact (conj Hb Hne).
Defined.

Lemma RepairCount_least_witness :
  1 ≤ FountainCodec.RepairCount (λ x, x) 10 (dec 2 10) ≤ 126.
Proof.
  destruct (FountainCodec.RepairCount_least (λ x, x) 10 (dec 2 10) ltac:(lia)) as (H1 & H2 & _).
  specialize (H2 ltac:(lia)). lia.
Defined.

Definition toy_dict : Bundle.Dictionary := Bundle.mkDictionary Byte.x01 (str "corpus") (Bundle.TrainedDict (str "corpus")).
Definition toy_dicts : gmap byte Bundle.Dictionary := {[ Byte.x01 := toy_dict ]}.
Definition toy_bundle : Bundle.Bundle := Bundle.mkBundle toy_area_tag 1700000000 Byte.x00 [toy_post; toy_post].

Lemma toy_bundle_wf : Bundle.wf_bundle toy_bundle.
Proof.
  assert (Records.wf_rec toy_post) as Hw.
  { apply (Records.Unmarshal_sound (Records.Marshal toy_post)). evaluates. }
  split; [by_compute|]. split; [reflexivity|]. split; [by_compute|]. split; [by_compute|].
  exact (Forall_cons_2 _ _ _ Hw (Forall_cons_2 _ _ _ Hw (Forall_nil_2 _))).
Defined.

Lemma Pack_Unpack_witness :
  ∃ payload data, Bundle.encodeBody toy_bundle = Ok payload ∧ Bundle.Pack toy_bundle toy_dict = Ok data ∧
    (strlen payload < 2 ^ 63 →
     Bundle.Unpack data toy_dicts = if strlen payload <=? Bundle.MaxDecompressed then Ok toy_bundle
                                    else Err (Bundle.ErrBomb (strlen payload))).
Proof.
  assert (Hz : Bundle.zstd_roundtrips (Bundle.codec toy_dict)) by (intros payload; reflexivity).
  assert (Hd : toy_dicts !! Bundle.dict_id toy_dict = Some toy_dict) by evaluates.
  exact (Bundle.Pack_Unpack toy_bundle toy_dict toy_dicts toy_bundle_wf Hz Hd).
Defined.

Lemma Unpack_sound_witness : Bundle.wf_bundle toy_bundle.
Proof.
  apply (Bundle.Unpack_sound (the [] (Bundle.Pack toy_bundle toy_dict)) toy_dicts toy_bundle).
  evaluates.
Defined.
