(* ===== verification/TransportWitness.v ===== *)
(** * Concrete instances for the transport

    A link that records what it sends, an engine that records what it is asked to
    apply, and an input for each property of the governor, the outbox and the
    inbox that has hypotheses. *)

From stdpp Require Import strings.
From S2P Require Import Prelude Binary Float64 Identity Schedule.
From S2P Require Records GossipWire Fountain FountainCodec Bundle.
From S2P Require Airtime Governor BsmpOutbox BsmpInbox MeshSession Survey.
From S2P Require Import Witness.

#[local] Existing Instances toy_blake3 toy_ed25519 toy_zstd toy_rng.

(** ** The governor *)

Definition eu_config : Governor.Config :=
  Governor.mkConfig Airtime.LongFast (str "EU_868") f0 0 f0 false [] 0 0 ∅.
Definition no_governor : Governor.Governor :=
  Governor.mkGovernor eu_config 0 0 0 f0 f0 f0 false [] ∅ 0 0 f0 ∅ ∅ (Governor.mkStats 0 (λ _, 0) 0 0).
Definition eu_governor : Governor.Governor := the no_governor (Governor.New eu_config 0).
Definition noon : Z → Z := λ _, 12 * Hour.
Definition forum : Governor.Charge := Governor.mkCharge Governor.ClassForum toy_area_tag.
Definition eu_later : Governor.Governor := (Governor.AllowCharge noon Second 200 forum true eu_governor).2.

Lemma eu_allowed : Governor.AllowCharge noon Second 200 forum true eu_governor = (None, eu_later).
Proof. evaluates. Defined.

Lemma AllowCharge_iff_witness : Governor.may_send noon Second 200 Governor.ClassForum eu_governor.
Proof.
  destruct (Governor.AllowCharge_iff noon Second 200 forum true eu_governor None eu_later eu_allowed)
    as [[H _] _].
  exact (proj1 (H eq_refl)).
Defined.

Lemma eu_life :
  Governor.life noon eu_config [Governor.mkTx Second (Airtime.Packet Airtime.LongFast 200)] Second
    (0 + Governor.earned Second eu_governor) eu_later.
Proof.
  apply (Governor.life_step noon eu_config [] 0 0 eu_governor Second
    [Governor.mkTx Second (Airtime.Packet Airtime.LongFast 200)]).
  - apply Governor.life_new. evaluates.
  - by_compute.
  - apply (Governor.step_allow noon Second eu_governor 200 forum true); [lia|exact eu_allowed].
Defined.

Lemma duty_cycle_witness :
  Airtime.Packet Airtime.LongFast 200 ≤ Hour / 10.
Proof.
  assert (Hp : Airtime.LongFast ∈ Airtime.presets) by left.
  assert (Hl : Governor.dutyCycleLimit (Governor.Region eu_config) = Some (dec 10 100)) by evaluates.
  destruct (Governor.duty_cycle noon eu_config _ Second _ eu_later (dec 10 100) Second Hp Hl eu_life) as [H He].
  rewrite <- He. etransitivity; [|exact H]. by_compute.
Defined.

Lemma spending_is_bounded_witness :
  Governor.ChargedChannel (Governor.stats eu_later) + Governor.tokens eu_later ≤
  Governor.burst (Governor.normalise eu_config) (Governor.FloodMultiplier (Governor.normalise eu_config))
    + (0 + Governor.earned Second eu_governor).
Proof.
  assert (Hp : Airtime.LongFast ∈ Airtime.presets) by left.
  exact (proj1 (Governor.spending_is_bounded noon eu_config _ Second _ eu_later Hp eu_life)).
Defined.

Definition default_governor : Governor.Governor :=
  the no_governor (Governor.New (Governor.default_config Airtime.LongFast) 0).
Definition door : Governor.Charge := Governor.mkCharge Governor.ClassDoorEvent toy_area_tag.
Definition door_answer := Governor.AllowCharge noon (24 * Hour) 225 door false default_governor.

Lemma door_events_starve_witness : door_answer.1 ≠ None.
Proof.
  assert (H1 : Airtime.LongFast ∈ Governor.slow_presets) by left.
  assert (H2 : Governor.cfg default_governor = Governor.default_config Airtime.LongFast) by evaluates.
  assert (H3 : Governor.r default_governor = Governor.DefaultFloodMultiplier) by evaluates.
  assert (H4 : Governor.capacity default_governor = Governor.default_capacity Airtime.LongFast) by evaluates.
  assert (H5 : Governor.tokens default_governor ≤ Governor.capacity default_governor) by by_compute.
  exact (proj1 (Governor.door_events_starve noon (24 * Hour) Airtime.LongFast 225 door false
    default_governor door_answer.1 door_answer.2 H1 ltac:(lia) eq_refl H2 H3 H4 H5 (surjective_pairing _))).
Defined.

(** ** A link and an engine *)

(** Sends until its budget is spent. *)
Record toy_link := mkToyLink { tl_air : list (NodeID * bytes); tl_budget : nat }.
Definition tl_send (l : toy_link) (to : NodeID) (p : bytes) : toy_link * option (BsmpOutbox.link_error unit) :=
  match tl_budget l with
  | O => (l, Some BsmpOutbox.ErrNoBudget)
  | S n => (mkToyLink (tl_air l ++ [(to, p)]) n, None)
  end.
#[local] Instance toy_Sender : BsmpOutbox.Sender toy_link unit := {
  link_Send := tl_send;
  link_SendCharged := None;
  link_MTU _ := 200;
  link_Budget l := Governor.mkBudget (Z.of_nat (tl_budget l)) 1 false
}.
#[local] Instance toy_SenderLog : BsmpOutbox.SenderLog toy_link unit.
Proof.
  refine {| BsmpOutbox.on_air := tl_air |}; cbn; [|done].
  unfold tl_send. intros l to p l' e. destruct (tl_budget l); intros [= <- <-]; done.
Defined.

#[local] Instance toy_Applier : BsmpInbox.Applier (list (arr 4 * list Records.Rec)) unit := {
  ap_Receive g _ _ := (g, None);
  ap_ApplyRecords g a rs := (g ++ [(a, rs)], Z.of_nat (length rs), None)
}.
#[local] Instance toy_ApplierLog : BsmpInbox.ApplierLog (list (arr 4 * list Records.Rec)) unit.
Proof. refine {| BsmpInbox.applied := id |}; done. Defined.

Definition toy_outbox (budget : nat) : BsmpOutbox.Outbox toy_link :=
  BsmpOutbox.mkOutbox alice (mkToyLink [] budget) (λ _, Governor.ClassForum) None ∅ (dec 2 10) toy_dict (λ _, 0).
Definition toy_recs : list Records.Rec := [toy_post; toy_post].
Definition batch (budget : nat) : FountainCodec.Encoder :=
  default no_encoder (BsmpOutbox.batch_encoder (toy_outbox budget) toy_area_tag toy_recs).

Lemma batch_encoder_2 : BsmpOutbox.batch_encoder (toy_outbox 2) toy_area_tag toy_recs = Some (batch 2).
Proof. evaluates. Defined.

(** Offered twice with a budget of two frames: they are the first two symbols. *)
Abbreviation toy_resent :=
  (BsmpOutbox.resend (λ x, x) toy_area_tag toy_recs (toy_outbox 2) [dec 1 10; dec 3 10]).

Lemma retries_resume_witness :
  BsmpOutbox.air toy_resent = BsmpOutbox.frames (batch 2) 0 2 ∧
  length (BsmpOutbox.air toy_resent) = 2%nat.
Proof.
  assert (Hs : 0 ≤ BsmpOutbox.progress (toy_outbox 2) (FountainCodec.e_bundleID (batch 2)) ≤
    BsmpOutbox.maxSymbolsPerBundle) by by_compute.
  destruct (BsmpOutbox.retries_resume (λ x, x) (toy_outbox 2) toy_area_tag toy_recs (batch 2)
    [dec 1 10; dec 3 10] batch_encoder_2 Hs) as (_ & Ha & _).
  split; [|evaluates]. etransitivity; [exact Ha|]. evaluates.
Defined.

Lemma SendMessage_one_frame_witness :
  BsmpOutbox.air (BsmpOutbox.SendMessage (toy_outbox 2) bob [Byte.x05]).1 =
    [(bob, [BsmpOutbox.FrameControl; Byte.x05])].
Proof.
  pose proof (BsmpOutbox.SendMessage_one_frame (λ x, x) (toy_outbox 2) bob [Byte.x05] _ _ (surjective_pairing _)) as H.
  destruct H as [(_ & _ & _ & H)|(Hn & _)]; [exact H|]. vm_compute in Hn. discriminate Hn.
Defined.

(** ** Delivery *)

Definition toy_payload_bytes : bytes := the [] (Bundle.encodeBody (Bundle.mkBundle toy_area_tag 0 Byte.x00 toy_recs)).
Definition sym_at (t j : Z) : Z * BsmpInbox.Datagram :=
  (t, BsmpInbox.mkDatagram alice (BsmpOutbox.symbol_frame (batch 2) j)).
(** The last systematic symbols first, one twice, and noise. *)
Definition toy_deliveries : list (Z * BsmpInbox.Datagram) :=
  [sym_at 10 1; (20, BsmpInbox.mkDatagram bob [Byte.x09]); sym_at 30 1; sym_at 40 0].
Definition toy_block : BsmpInbox.decKey := (alice, FountainCodec.e_bundleID (batch 2)).
Definition empty_inbox : BsmpInbox.Inbox (list (arr 4 * list Records.Rec)) := BsmpInbox.NewInbox [].

Lemma toy_delivery_shape : FountainCodec.e_k (batch 2) = 2%nat ∧
  BsmpInbox.block_of (sym_at 10 1).2 = Some toy_block ∧ BsmpInbox.block_of (sym_at 40 0).2 = Some toy_block.
Proof. split_and!; evaluates. Defined.

Lemma toy_channel : BsmpInbox.channel toy_block (batch 2) 0 {[ toy_block ]} toy_deliveries.
Proof.
  assert (Hs : ∀ t j, 0 ≤ t ≤ 0 + BsmpInbox.decoderTTL → is_u16 j →
    BsmpInbox.block_of (sym_at t j).2 = Some toy_block →
    0 ≤ (sym_at t j).1 ≤ 0 + BsmpInbox.decoderTTL ∧
    (∀ k', BsmpInbox.block_of (sym_at t j).2 = Some k' →
       k' ∈ ({[ toy_block ]} : gset BsmpInbox.decKey)) ∧
    (BsmpInbox.block_of (sym_at t j).2 = Some toy_block →
       ∃ j', is_u16 j' ∧ (sym_at t j).2 = BsmpInbox.mkDatagram toy_block.1 (BsmpOutbox.symbol_frame (batch 2) j'))).
  { intros t j Ht Hj Hb. split; [exact Ht|]. rewrite Hb. split.
    - intros k' [= <-]. by apply elem_of_singleton.
    - intros _. exists j. split; [exact Hj|reflexivity]. }
  destruct toy_delivery_shape as (_ & H1 & H0).
  constructor; [apply Hs; [by_compute|widths|exact H1]|].
  constructor; [split; [by_compute|split; intros; discriminate]|].
  constructor; [apply Hs; [by_compute|widths|exact H1]|].
  constructor; [apply Hs; [by_compute|widths|exact H0]|constructor].
Defined.

Lemma toy_delivered j : 0 ≤ j < 2 → BsmpInbox.delivered alice (batch 2) toy_deliveries j.
Proof.
  intros Hj. split; [widths|]. assert (j = 1 ∨ j = 0) as [->| ->] by lia.
  - exists 10. left.
  - exists 40. right; right; right; left.
Defined.


Lemma only_genuine_bundles_witness :
  ∃ log, BsmpInbox.applied_by (BsmpInbox.deliver_all toy_dicts toy_deliveries empty_inbox) =
    BsmpInbox.contents <$> log.
Proof.
  assert (Hs : StronglySorted Z.le (0 :: toy_deliveries.*1))
    by (cbn; repeat (constructor; try lia)).
  assert (Hc : BsmpInbox.capped empty_inbox) by (unfold BsmpInbox.capped; by_compute).
  destruct (BsmpInbox.only_genuine_bundles toy_dicts toy_deliveries 0 empty_inbox Hs Hc) as (log & Ha & _).
  exists log. exact Ha.
Defined.

(** ** The survey *)

(** A radio on a channel that is a percent busy, which takes a second for a packet; its
    state is the time. *)
#[local] Instance still_radio : Survey.Radio Z := {|
  Survey.metrics t := Some (Survey.mkMetrics (of_int 1) f0 t t);
  Survey.now t := t;
  Survey.wait d t := (false, t + Z.max 0 d);
  Survey.transmit _ _ t := (true, t + Survey.Second)
|}.
#[local] Instance still_laws : Survey.RadioLaws Z.
Proof. split; [intros d t _|intros d t|intros n hop t]; cbn -[Z.add Z.max]; unfold Survey.Second; lia. Qed.

Definition short_survey : Survey.Config := Survey.mkConfig (6 * Survey.Minute) (6 * Survey.Minute) 0 0 [1] f0 0 f0 f0 0 0.
Definition survey_start : Survey.world (S := Z) := Survey.mkWorld 0 [].
Definition surveyed := Survey.Run Airtime.LongFast 3 short_survey survey_start.

Lemma survey_civil_witness : ∃ r, surveyed.1.1 = Some r ∧ Forall (Survey.phase_ok Airtime.LongFast (Survey.applyDefaults short_survey)) (Survey.Loads r) ∧
  Survey.attempts surveyed.2 ≠ [].
Proof.
  assert (Hsome : (length (Survey.attempts surveyed.2) =? 1)%nat = true) by evaluates.
  assert (He : (0 <? Survey.txEvery (Survey.applyDefaults short_survey) (Airtime.Packet Airtime.LongFast (Survey.PayloadBytes (Survey.applyDefaults short_survey)))) = true) by evaluates.
  revert Hsome. unfold surveyed. pose proof (Survey.survey_civil (S := Z) Airtime.LongFast 3 short_survey survey_start) as H. cbv zeta in H.
  specialize (H eq_refl (proj1 (Z.ltb_lt _ _) He)). revert H. generalize (Survey.Run (S := Z) Airtime.LongFast 3 short_survey survey_start). intros [[rep e] w'] H Hsome.
  cbn [fst snd] in *. destruct H as (_ & _ & Hbase & Hloads).
  assert (Hne : Survey.attempts w' ≠ []) by (intros E; rewrite E in Hsome; discriminate Hsome). destruct (Hbase Hne) as (r & -> & _).
  exists r. split; [reflexivity|]. split; [exact (proj1 (Hloads r eq_refl))|exact Hne].
Defined.

(** The survey asks nothing about amateur rules: it attaches to the channel the mesh link
    would refuse, and sends its load there. *)
Definition licensed_radio : MeshSession.RadioInfo :=
  MeshSession.mkRadio 1 [] [] (MeshSession.mkLora (str "US"%string) (str "LONG_FAST"%string) true 0 0 0 3 true)
    [MeshSession.mkChannel 0 (str "mesh"%string) Survey.PRIMARY true] true None 0.
Lemma survey_skips_ham_mode :
  MeshSession.CheckChannel (MeshSession.FromRadioInfo (Some licensed_radio) false) (MeshSession.Channels licensed_radio) (str "mesh"%string) = Some 0 ∧
  Survey.Attach licensed_radio (str "mesh"%string) = Ok (Airtime.LongFast, 0, 3).
Proof. split; reflexivity. Qed.
