(* ===== verification/MeshWitness.v ===== *)
(** * Concrete instances for the mesh

    A radio connection that records what it is handed, a packet-identifier source,
    a link that connects, learns a neighbour, hears from it and answers it under
    the real governor, and an input for each property of the frames, the peers,
    the link and the stack that has hypotheses. *)

From stdpp Require Import strings relations.
From S2P Require Import Prelude Binary Float64 Identity Schedule.
From S2P Require Records GossipWire Fountain FountainCodec Bundle.
From S2P Require Airtime Governor BsmpOutbox BsmpInbox.
From S2P Require Import MeshFrame MeshPeers MeshSession MeshLink MeshLinkFacts MeshStack.
From S2P Require Import Witness TransportWitness.

#[local] Existing Instances toy_blake3 toy_ed25519 toy_zstd.

(** ** A radio *)

(** What it was handed; it takes everything. *)
#[local] Instance toy_Conn : Conn (list MeshPacket) unit := { conn_Send c p := (c ++ [p], None) }.
#[local] Instance toy_ConnLog : ConnLog (list MeshPacket) unit.
Proof. refine {| transmitted := id |}. intros c p c' e. cbn. intros [= <- <-]. done. Defined.
#[local] Instance toy_ids : Uint64Source Z := λ n, (n, n + 1).

Definition neighbour_pub : bytes := replicate 32 Byte.x09.
Definition neighbour_key : Records.NodeKey := Records.mkNodeKey neighbour_pub neighbour_pub.
Definition neighbour : NodeID := Records.NodeKey_ID neighbour_key.

Definition bbs : bytes := str "bbs".
Definition toy_cfg : Config := normalise (mkConfig toy_key bbs false 0 0 0 0 0 0 0 0 2 0 0).

Lemma eu_preset : Governor.cfg_Preset eu_config ∈ Airtime.presets.
Proof. left. Defined.
#[local] Instance toy_gov : LinkGovernor metered := metered_governor noon.
#[local] Instance toy_gov_log : GovernorLog metered := metered_log noon eu_config eu_preset.

Abbreviation toy_mesh := (Link (list MeshPacket) metered Z).
Definition link0 : toy_mesh := fresh_link toy_cfg (Some (mkMetered 0 eu_governor [])) 5.
Definition dump : list (FromRadio RxPacket) :=
  [MyInfo 1; NodeInfo 1 None true; ChannelMsg 2 bbs (str "SECONDARY") []; ConfigCompleteId 5].
Definition dialed : option (@Dialed (list MeshPacket)) := Some (mkDialed [] dump true).
Definition link1 : toy_mesh := (connect toy_cfg Second false dialed link0).2.
Definition hello : RxPacket :=
  mkRx 7 broadcastAddr 2 false (Some (PRIVATE_APP, EncodeAnnounce neighbour_key 7 (2 * Second))).
Definition link2 : toy_mesh := receive toy_cfg (3 * Second) false (Packet hello) link1.
Definition word : RxPacket := mkRx 7 1 2 false (Some (PRIVATE_APP, [Byte.x01; Byte.x2a])).
Definition answer : bytes := [BsmpOutbox.FrameControl; Byte.x2b].
Definition link3 : toy_mesh :=
  (SendCharged false neighbour answer (Governor.mkCharge Governor.ClassControl (zero_arr 4)) link2).2.

Lemma eu_new : Governor.New eu_config 0 = Ok eu_governor.
Proof. evaluates. Defined.

Lemma link_steps : rtc (step toy_cfg) link0 link3.
Proof.
  apply rtc_l with link1; [|apply rtc_l with link2; [|apply rtc_once]].
  - apply (step_connect toy_cfg). intros c [= <-]. reflexivity.
  - apply (step_receive toy_cfg).
  - apply (step_send toy_cfg).
Defined.

Lemma link3_reachable : reachable toy_cfg link3.
Proof.
  exists (Some (mkMetered 0 eu_governor [])), 5. split; [|exact link_steps].
  intros g' [= <-]. split; [|reflexivity]. exists 0, 0. split; [by_compute|]. apply Governor.life_new. exact eu_new.
Defined.

Lemma nothing_unpaid_witness : sizes (air link3) `sublist_of` [2].
Proof. exact (proj2 (nothing_unpaid toy_cfg link3 link3_reachable)). Defined.


Lemma attributed_delivery_witness :
  inbox (deliver toy_cfg 0 word link3) = inbox link3 ++ [BsmpInbox.mkDatagram neighbour [Byte.x01; Byte.x2a]].
Proof.
  assert (Hs : 0 ≤ InboxSize toy_cfg) by by_compute.
  destruct (attributed_delivery toy_cfg 0 word link3 link3_reachable Hs) as (_ & _ & H). apply H.
  - split; [reflexivity|]. split; [evaluates|]. split; [by_compute|]. split; [|evaluates].
    exists Byte.x01. split; [reflexivity|]. by_compute.
  - evaluates.
  - by_compute.
Defined.

(** Two refusals, then a connection. *)
Definition attempts (n : nat) : Z * option connect_error :=
  (100, match n with O => Some DialFailed | S O => Some ConfigureTimedOut | _ => None end).

Lemma connectWithRetry_terminates_witness :
  ∃ e t k, connectWithRetry 46 0 attempts None (45 * Second) 0 Second = Some (e, t, S k) ∧ (k ≤ 5)%nat.
Proof.
  assert (Hd : ∀ i, 0 ≤ (attempts i).1) by (intros i; by_compute).
  assert (Hb : 0 < Second) by by_compute. assert (Hw : 0 ≤ 45 * Second) by by_compute.
  destruct (connectWithRetry_terminates attempts None 0 (45 * Second) Second Hd Hb Hw) as (e & t & k & Hr & _ & _ & Hk).
  exists e, t, k. split; [exact Hr|exact (Hk eq_refl eq_refl)].
Defined.

(** With the defaults: a timeout of five minutes, looked at every 100 seconds. *)
Lemma silence_is_noticed_witness :
  ∃ k t' l', keepalive toy_cfg 4 (3 * Second) (λ _, true) (mkTimers Hour Minute) link2 = (Some (k, t'), l') ∧
    t' - lastRx link2 ≤ 400 * Second.
Proof.
  assert (H1 : 0 < RxTimeout toy_cfg) by by_compute. assert (H2 : lastRx link2 ≠ 0) by by_compute.
  assert (H3 : 0 ≤ 3 * Second - lastRx link2 ≤ RxTimeout toy_cfg) by by_compute.
  destruct (silence_is_noticed toy_cfg (3 * Second) (λ _, true) (mkTimers Hour Minute) link2 H1 H2 H3)
    as (k & t' & l' & Hk & Ht & _).
  exists k, t', l'. split; [exact Hk|exact Ht].
Defined.

(** ** The stack *)

Definition toy_stack : BsmpOutbox.Outbox toy_mesh :=
  BsmpOutbox.mkOutbox (Records.NodeKey_ID toy_key) link0 (λ _, Governor.ClassForum) None ∅ (dec 2 10) toy_dict (λ _, 0).
#[local] Instance toy_mesh_Sender : BsmpOutbox.Sender toy_mesh (MeshLink.error unit) := mesh_Sender noon.
Definition stack1 := BsmpOutbox.with_link link1 toy_stack.
Definition stack2 := (BsmpOutbox.SendRecords id stack1 toy_area_tag [toy_post]).1.


(** ** A roster cap and the link's control traffic *)

(** A sysop who gives the roster one percent of the budget. [Send] bills control
    frames, which belong to no area, as the roster's: the second is refused on the
    cap although [Allow], which has no area, would let it out. *)
Definition capped_config : Governor.Config :=
  Governor.mkConfig Airtime.ShortTurbo [] f0 0 f0 false [] 0 0 {[ Governor.zero_tag := dec 1 100 ]}.
Definition capped_governor : Governor.Governor := the no_governor (Governor.New capped_config 0).
Definition capped_link : toy_mesh :=
  (connect toy_cfg Second false dialed (fresh_link toy_cfg (Some (mkMetered Second capped_governor [])) 5)).2.
Definition digest : bytes := BsmpOutbox.FrameControl :: replicate 200 Byte.x00.
Definition once_sent := Send false BsmpOutbox.Broadcast digest capped_link.

Lemma Send_inherits_roster_cap :
  once_sent.1 = None ∧
  (Send false BsmpOutbox.Broadcast digest once_sent.2).1 = Some OverBudget ∧
  (λ m, (Governor.Allow noon (clock m) (strlen digest) Governor.ClassControl (governor m)).1) <$> gov once_sent.2
    = Some None.
Proof. split_and!; evaluates. Defined.

(** ** Frames *)

Definition noisy : list (bytes * bytes) :=
  [(str "boot: ok", [Byte.x01; Byte.x02]); ([start1], [Byte.x94]); ([], [])].
Definition line_reader : FrameReader := NewFrameReader (wire noisy ++ [Byte.x41]).

Lemma frames_roundtrip_witness :
  ∃ fr, read_frames true EndOfFile 3 line_reader = Some ([[Byte.x01; Byte.x02]; [Byte.x94]; []], fr) ∧ Skipped fr = 9.
Proof.
  assert (Hs : Forall (λ s, harmless s.1 ∧ strlen s.2 ≤ MaxFrame) noisy).
  { assert (Ht : ∀ noise, Forall (λ b, b ≠ start1) noise → harmless noise) by (intros n Hn; by apply harmless_text).
    assert (Hc : harmless ([] ++ [start1])) by (apply harmless_text; constructor).
    constructor; [split; [apply Ht; by_compute|by_compute]|].
    constructor; [split; [exact Hc|by_compute]|].
    constructor; [split; [apply Ht; by_compute|by_compute]|constructor]. }
  destruct (frames_roundtrip true EndOfFile noisy [Byte.x41] line_reader Hs eq_refl) as (_ & _ & fr & H1 & _ & _ & H2).
  exists fr. split; [exact H1|exact H2].
Defined.

(** What is left after the first frame, with the line before it in the log. *)
Definition after_read : FrameReader := mkReader (drop 14 (unread line_reader)) 8 1 [] [str "boot: ok"].
Lemma device_log_is_safe_witness : Forall (λ t, t ≠ [] ∧ strlen t ≤ maxLogLine ∧ Forall printable t) (texts after_read).
Proof.
  apply (device_log_is_safe true EndOfFile (wire noisy ++ [Byte.x41])). apply rtc_once. exists (Ok [Byte.x01; Byte.x02]).
  evaluates.
Defined.
