(* ===== verification/BoardWitness.v ===== *)
(** * Concrete instances for key rotation, carriers and the log *)

From stdpp Require Import strings relations.
From S2P Require Import Prelude Binary Identity.
From S2P Require Records Schedule Bodies.
From S2P Require Import Succession.
From S2P Require Import Witness.

#[local] Existing Instances toy_blake3 toy_ed25519 toy_zstd.

(** ** Key rotation *)

Definition key_n (n : Z) : Records.NodeKey :=
  Records.mkNodeKey (replicate 32 (z2b n)) (replicate 32 (z2b n)).
Definition node_n (n : Z) : NodeID := Records.NodeKey_ID (key_n n).
(** Node [n] becomes node [n + 1] at second [100]. *)
Definition rotation (n : Z) : Records.Rec :=
  the no_rec (Records.NewSuccessionRecord (key_n n) 1 100 (node_n (n + 1)) (Records.Public (key_n (n + 1))) 100).

Definition introduced : Registry :=
  foldl (λ r n, LearnKey (node_n n) (Records.Public (key_n n)) r) New [1; 2; 3; 4; 5; 6; 7; 8; 9].
Definition offer_all (ns : list Z) (r : Registry) : Registry :=
  foldl (λ r n, (Offer (100 * Schedule.Second) (Some (rotation n)) r).2) r ns.

(** The chain limit is only looked at on the predecessor's side: nine rotations that
    arrive last first are all followed, and then resolving the first node stops one
    hop short, at a node that has itself been succeeded. Arriving first to last, the
    ninth is refused. *)
Lemma long_chain_resolves_short :
  let back := offer_all [9; 8; 7; 6; 5; 4; 3; 2; 1] introduced in
  let forth := offer_all [1; 2; 3; 4; 5; 6; 7; 8; 9] introduced in
  Resolve back (node_n 1) = node_n 9 ∧ Superseded back (node_n 9) = Some (node_n 10) ∧
  Superseded forth (node_n 9) = None ∧
  (ev_Kind <$> events back) = replicate 9 Followed ∧ (ev_Kind <$> events forth) = replicate 8 Followed ++ [Refused].
Proof. split_and!; evaluates. Defined.

Definition rotated : Registry := offer_all [1; 2] introduced.

Lemma learn_reachable ns r : rtc Succession.step New r → rtc Succession.step New
  (foldl (λ r n, LearnKey (node_n n) (Records.Public (key_n n)) r) r ns).
Proof.
  revert r. induction ns as [|n ns IH]; intros r Hr; [exact Hr|]. cbn [foldl]. apply IH.
  eapply rtc_r; [exact Hr|]. apply step_learn.
Qed.
Lemma offer_reachable ns r : rtc Succession.step New r → rtc Succession.step New (offer_all ns r).
Proof.
  unfold offer_all. revert r. induction ns as [|n ns IH]; intros r Hr; [exact Hr|]. cbn [foldl]. apply IH.
  eapply rtc_r; [exact Hr|]. apply step_offer.
Qed.
Lemma rotated_reachable : rtc Succession.step New rotated.
Proof. exact (offer_reachable [1; 2] introduced (learn_reachable [1; 2; 3; 4; 5; 6; 7; 8; 9] New (rtc_refl _ _))). Defined.

Lemma registry_sound_witness : ∃ e, byPredecessor rotated !! node_n 1 = Some e ∧ genuine (node_n 1) e.
Proof.
  assert (Hs : is_Some (byPredecessor rotated !! node_n 1)) by by_compute. destruct Hs as [e He]. exists e.
  destruct (registry_sound rotated rotated (node_n 1) e rotated_reachable He (rtc_refl _ _)) as (H & Hg & _).
  split; [exact H|exact Hg].
Defined.

Lemma Resolve_ends_witness : ∃ k y, nsteps (hops rotated) k (node_n 1) y ∧ Superseded rotated y = None.
Proof.
  destruct (Resolve_ends rotated (node_n 1) rotated_reachable) as (k & y & H1 & H2 & _). exists k, y. split; [exact H1|exact H2].
Defined.
