(* ===== verification/CarrierWitness.v ===== *)
(** * Concrete instances for the blob store and for carriers *)

From stdpp Require Import strings relations.
From S2P Require Import Prelude Binary Identity.
From S2P Require VersionVector Records Bundle.
From S2P Require Import BlobStore Sneakernet Exchange.
From S2P Require Import Witness.

#[local] Existing Instances toy_blake3 toy_ed25519 toy_zstd.

(** ** The blob store *)

Definition manual : bytes := str "read me".
Definition upload : bytes := str "incoming-1".
Definition stocked : Store := (Put upload [str "read "; str "me"] Open_).2.
Definition manual_hash : Hash := sum manual.

Lemma stocked_reachable : rtc step (mkWorld Open_ ∅) (mkWorld stocked ∅).
Proof. exact (Put_steps 0 upload [str "read "; str "me"] Open_ ∅ eq_refl eq_refl). Defined.

Lemma names_tell_contents_witness : ∃ f, stocked !! blob_path manual_hash = Some f ∧ Open manual_hash stocked = Ok manual.
Proof.
  exists (mkFile manual true). assert (Hf : stocked !! blob_path manual_hash = Some (mkFile manual true)) by evaluates.
  destruct (names_tell_contents (mkWorld stocked ∅) manual_hash (mkFile manual true) stocked_reachable Hf) as (_ & Ho & _).
  split; [exact Hf|exact Ho].
Defined.

Lemma empty_blobs : blobs_ok Open_.
Proof. intros h f Hf. exfalso. unfold Open_ in Hf. by rewrite lookup_empty in Hf. Qed.

Lemma Put_Open_witness : (Put upload [manual] Open_).1 = (manual_hash, 7).
Proof.
  pose proof (Put_Open upload [manual] Open_ empty_blobs eq_refl) as H. cbv zeta in H.
  destruct (Put upload [manual] Open_) as [[h n] d']. destruct H as (Hh & Hn & _). cbn [fst]. rewrite Hh, Hn. evaluates.
Defined.

(** ** A carrier with a file *)

Definition stick : Carrier :=
  mkCarrier (ident Byte.x01) 1700000000 Byte.x00 {[ toy_area_tag := {[ ident Byte.x02 := 3 ]} ]} []
    [mkBlobRef manual_hash 7] [arr_of 16 [Byte.x09]].
Definition stick_manifest : bytes := the [] (Encode stick).

Lemma stick_wf : wf_carrier stick.
Proof.
  split_and!; [by_compute| |repeat constructor; by_compute].
  apply map_Forall_singleton. split; [apply map_Forall_singleton; by_compute|by_compute].
Defined.

Lemma stocked_ok : blobs_ok stocked.
Proof. destruct (reachable_world _ stocked_reachable) as (H & _). exact H. Qed.

Lemma stick_bodies :
  Forall2 (λ ref b, Open (ref_Hash ref) stocked = Ok b ∧ strlen b = ref_Size ref) (Blobs stick) [manual].
Proof. constructor; [split; evaluates|constructor]. Defined.

Lemma Write_Read_witness : ∃ d', Read (stick_manifest ++ manual) (Some Open_) = (Ok stick, Some d').
Proof.
  assert (He : Encode stick = Ok stick_manifest) by evaluates.
  destruct (Write_Read stick stick_manifest stocked Open_ [manual] stick_wf He stocked_ok empty_blobs stick_bodies) as (_ & H & _).
  assert (Hm : strlen (stick_manifest ++ concat [manual]) ≤ MaxCarrierBytes) by by_compute.
  destruct (H Hm) as (d' & Hr & _). exists d'. exact Hr.
Defined.

Definition read_back : result read_error Carrier * option Store := Read (stick_manifest ++ manual) (Some Open_).
Definition filled : Store := default Open_ read_back.2.

Lemma Read_sound_witness : wf_carrier stick ∧ blobs_ok filled.
Proof.
  assert (Hr : Read (stick_manifest ++ manual) (Some Open_) = (Ok stick, Some filled)).
  { unfold filled, read_back. destruct Write_Read_witness as [d' Hd]. rewrite Hd. reflexivity. }
  destruct (Read_sound (stick_manifest ++ manual) Open_ (Ok stick) filled empty_blobs Hr) as (Hb & _ & Hc).
  destruct (Hc stick eq_refl) as (Hwf & _). split; [exact Hwf|exact Hb].
Defined.

(** ** An exchange *)

#[local] Instance toy_Exporter : Exporter toy_store := {
  ex_Areas s := [toy_area s];
  ex_Vector s a := if decide (a = toy_area s) then toy_vector s else VersionVector.New;
  ex_Records s a r :=
    if decide (a = toy_area s)
    then filter (λ rec, Records.Origin (Records.fields rec) = VersionVector.Origin r ∧
      VersionVector.From r ≤ Records.Seq (Records.fields rec) ≤ VersionVector.To r) (toy_recs s)
    else []
}.
#[local] Instance toy_Importer : Importer (list (AreaTag * list Rec)) unit := λ s a rs, (s ++ [(a, rs)], 0, None).
#[local] Instance toy_ImporterLog : ImporterLog (list (AreaTag * list Rec)) unit.
Proof. by refine {| im_log := λ s, s |}. Defined.

Definition board : toy_store :=
  mkToyStore toy_area_tag {[ Records.NodeKey_ID toy_key := 5 ]} [toy_post].
Definition plain_dict : Bundle.Dictionary := Bundle.mkDictionary Byte.x00 [] Bundle.PlainZstd.
Definition plain_dicts : DictionarySet := {[ Byte.x00 := plain_dict ]}.
Definition outward : ExportOptions := mkExportOptions (ident Byte.x01) 1700000000 None [] [] [].
Definition packed_stick : Carrier := the stick (Export board plain_dict outward).

Lemma toy_post_wf : Records.wf_rec toy_post.
Proof.
  assert (Hm : Records.Unmarshal (Records.Marshal toy_post) = Ok toy_post) by evaluates.
  by apply Records.Unmarshal_sound in Hm as [Hw _].
Qed.


(** A batch of an export is cut by its number of records alone, but a bundle names at
    most 64 origins: 65 nodes that posted once each cannot be exported at all. *)
Definition many_key (n : Z) : Records.NodeKey := Records.mkNodeKey (replicate 32 (z2b n)) (replicate 32 (z2b n)).
Definition many_post (n : Z) : Records.Rec :=
  the no_rec (Records.New (many_key n) (Records.mkFields (Records.NodeKey_ID (many_key n)) 1 1700000000 Records.TypePost
    toy_area_tag Records.zero_record_id (str "hello"%string))).
Definition crowd : toy_store :=
  mkToyStore toy_area_tag (list_to_map ((λ n, (Records.NodeKey_ID (many_key n), 1)) <$> seqZ 1 65)) (many_post <$> seqZ 1 65).

Lemma Export_many_origins : Export crowd plain_dict outward = Err (PackFailed toy_area_tag (Bundle.ErrTooMany 65)).
Proof. evaluates. Defined.
