(* ===== verification/LogWitness.v ===== *)
(** * Concrete instances for the record log and its adapter *)

From stdpp Require Import strings relations.
From S2P Require Import Prelude Binary Identity.
From S2P Require VersionVector.
From S2P Require Import Records RecordLog GossipStore.
From S2P Require Import Witness.

#[local] Existing Instances toy_blake3 toy_ed25519.

(** Numbers of 63 bits are accepted, and nil is NULL. *)
#[local] Instance toy_sql : SqlDriver := {| binds z := z <? 2 ^ 63; nil_is_null := true |}.

Definition author : NodeKey := mkNodeKey (replicate 32 Byte.x05) (replicate 32 Byte.x05).
Definition author_id : NodeID := NodeKey_ID author.
Definition intro : Rec := the no_rec (NewNodeRecord author 1 100 (str "oak"%string) (str "sysop"%string) 0).
Definition posted (seq : Z) (text : bytes) : Rec :=
  the no_rec (Records.New author (mkFields author_id seq 200 TypePost toy_area_tag zero_record_id text)).
Definition first_post : Rec := posted 1 (str "one"%string).
Definition second_post : Rec := posted 2 (str "two"%string).

Lemma made_wf (r : Rec) : Unmarshal (Marshal r) = Ok r → wf_rec r.
Proof. intros H. by apply Unmarshal_sound in H as [Hw _]. Qed.
Lemma first_wf : wf_rec first_post.
Proof. apply made_wf. evaluates. Qed.
Lemma second_wf : wf_rec second_post.
Proof. apply made_wf. evaluates. Qed.
Lemma intro_wf : wf_rec intro.
Proof. apply made_wf. evaluates. Qed.

(** A log that knows the author, and one with two of its posts besides. *)
Definition self_row : Node := mkNode author_id (Public author) (str "oak"%string) [] 0 false 0 0.
Definition known : Db := (PutNode 1 self_row empty_db).2.
Definition one_post : Db := (PutRecord 2 first_post known).2.
Definition two_posts : Db := (PutRecord 3 second_post one_post).2.

Lemma known_reachable : rtc RecordLog.step empty_db known.
Proof. apply rtc_once. apply step_node. Defined.
Lemma one_post_reachable : rtc RecordLog.step empty_db one_post.
Proof. eapply rtc_r; [exact known_reachable|]. apply step_put, first_wf. Defined.
Lemma two_posts_reachable : rtc RecordLog.step empty_db two_posts.
Proof. eapply rtc_r; [exact one_post_reachable|]. apply step_put, second_wf. Defined.

Lemma PutRecord_keeps_witness : GetRecord (id second_post) two_posts = Ok second_post.
Proof.
  pose proof (PutRecord_keeps 3 second_post one_post one_post_reachable second_wf) as H.
  assert (He : (PutRecord 3 second_post one_post).1 = None) by evaluates.
  unfold two_posts. destruct (PutRecord 3 second_post one_post) as [e db']. cbn [fst] in He. subst e. destruct H as (_ & _ & r' & Hg & _ & Hr).
  cbn [snd]. rewrite Hg. f_equal. apply Hr. evaluates.
Defined.


Definition tables : list AreaRow := [mkArea toy_area_tag KindMessage true].
Definition newcomer : GossipStore := NewGossipStore tables known.
Definition veteran : GossipStore := NewGossipStore tables two_posts.

Lemma newcomer_ok : store_ok newcomer.
Proof. split; [exact (reachable_log_ok _ known_reachable)|]. intros o pub Hk. exfalso. cbn in Hk. by rewrite lookup_empty in Hk. Qed.

Definition whole : VersionVector.Range := VersionVector.mkRange author_id 1 2.

Lemma promised_is_served_witness : (λ rec, Seq (fields rec)) <$> Records_ veteran toy_area_tag whole = [1; 2].
Proof.
  pose proof (promised_is_served veteran toy_area_tag author_id two_posts_reachable) as H. cbv zeta in H.
  assert (Hn : VersionVector.Get (Vector_ veteran toy_area_tag) author_id = 2) by evaluates. rewrite Hn in H.
  destruct H as (_ & _ & _ & H).
  destruct (H whole) as [Hs _]; [reflexivity|by_compute|by_compute|split; evaluates|]. rewrite Hs. evaluates.
Defined.

Definition sent : list Rec := answers newcomer veteran toy_area_tag.
Lemma sent_posts : sent = [first_post; second_post].
Proof. evaluates. Qed.

(** What [sent_admissible] needs of a post by the author. *)
Lemma post_admissible r :
  misplaced newcomer toy_area_tag r = None → Type_ (fields r) = TypePost → Origin (fields r) = author_id →
  Verify r (Public author) = Ok tt → fits r → admissible newcomer toy_area_tag r ∧ fits r.
Proof.
  intros Hm Ht Ho Hv Hf. split; [|exact Hf]. split; [exact Hm|]. unfold genuine. rewrite Ht, bool_decide_false by done.
  exists (Public author). split; [|exact Hv]. rewrite Ho. evaluates.
Qed.

Lemma body_fits r : bool_decide (binds (Seq (fields r)) = true ∧ Body (fields r) ≠ []) = true → fits r.
Proof. intros [Hb Hn]%bool_decide_eq_true. split; [exact Hb|]. by intros [? _]. Qed.

Lemma sent_admissible r : r ∈ sent → admissible newcomer toy_area_tag r ∧ fits r.
Proof.
  rewrite sent_posts. intros [->|[->|[]%not_elem_of_nil]%elem_of_cons]%elem_of_cons; apply post_admissible;
    [evaluates|evaluates|evaluates|evaluates|apply body_fits; evaluates|evaluates|evaluates|evaluates|evaluates|apply body_fits; evaluates].
Qed.


Lemma ids_differ : id first_post ≠ id second_post.
Proof.
  assert (H : bool_decide (id first_post = id second_post) = false) by evaluates. by apply bool_decide_eq_false in H.
Qed.

