(* ===== verification/ServiceWitness.v ===== *)
(** * Concrete instances for the names, the areas and the service *)

From stdpp Require Import strings relations.
From S2P Require Import Prelude Binary Identity Order Text GoStrings Float64.
From S2P Require Import NodeNames Records RecordLog.
From S2P Require GossipStore VersionVector.
From S2P Require Import Board Areas Service.
From S2P Require Import Witness.

#[local] Existing Instances toy_blake3 toy_ed25519.
#[local] Instance toy_sql : SqlDriver := {| binds z := z <? 2 ^ 63; nil_is_null := true |}.
#[local] Instance toy_sum : SqlSum := foldl fadd f0.
(** A federation that keeps what it is given, and one that refuses. *)
#[local] Instance toy_publisher : Publisher (list Rec) bool := λ p _ recs, (p ++ recs, None).

Definition oak : NodeKey := mkNodeKey (replicate 32 Byte.x05) (replicate 32 Byte.x05).
Definition oak_id : NodeID := NodeKey_ID oak.

(** ** Names *)

Definition aliased : list Alias := (SetAlias (str " Oak "%string) oak_id []).2.
Lemma aliased_reachable : rtc alias_step [] aliased.
Proof. apply rtc_once. apply alias_set. Defined.

Lemma names_resolve_witness : ResolveNodeRef (str "oAK  "%string) aliased = Ok oak_id.
Proof.
  destruct (names_resolve aliased aliased_reachable) as (_ & H & _).
  apply (H (mkAlias (str "Oak"%string) oak_id)); [apply list_elem_of_lookup; exists 0%nat; evaluates|evaluates].
Defined.

(** ** Areas *)

Definition b_general : Board := (CreateArea 1 (str " General "%string) [] false new_board).2.
Definition b_games : Board := (CreateDoorArea 2 (str "games"%string) [] true b_general).2.
Definition b_open : Board := (SetAreaFederated 3 (str "GENERAL"%string) true (str "sysop"%string) b_games).2.

Lemma b_general_reachable : rtc area_step new_board b_general.
Proof. apply rtc_once. apply step_create. Defined.
Lemma b_open_reachable : rtc area_step new_board b_open.
Proof.
  eapply rtc_r; [eapply rtc_r; [exact b_general_reachable|]|]; [apply (step_create 2 (str "games"%string) [] true GossipStore.KindDoor)|].
  apply step_federate.
Defined.

Lemma areas_sound_witness :
  ∃ a, GetAnyArea (str "gENERAL"%string) b_open = Ok a ∧ ar_Federated a = true ∧
    ar_Tag a ∈ GossipStore.Areas (GossipStore.NewGossipStore (area_rows b_open) empty_db) ∧
    DMArea ∉ GossipStore.Areas (GossipStore.NewGossipStore (area_rows b_open) empty_db).
Proof.
  assert (Hne : DMArea ≠ GossipStore.RosterArea).
  { assert (H : bool_decide (DMArea = GossipStore.RosterArea) = false) by evaluates. exact (proj1 (bool_decide_eq_false _) H). }
  destruct (areas_sound b_open empty_db b_open_reachable Hne) as (_ & _ & _ & _ & Hget & _ & Hdm & Hin & _).
  exists (mkArea 1 (str "General"%string) (AreaTagFor (str "General"%string)) GossipStore.KindMessage [] true false 0 f0 1).
  assert (Ha : mkArea 1 (str "General"%string) (AreaTagFor (str "General"%string)) GossipStore.KindMessage [] true false 0 f0 1 ∈ areas b_open).
  { apply list_elem_of_lookup. exists 0%nat. evaluates. }
  split; [apply Hget; split; [exact Ha|evaluates]|]. split; [reflexivity|]. split; [|exact Hdm]. apply Hin. right.
  eexists. split; [exact Ha|]. split; reflexivity.
Defined.

(** Two shares that the budget was never asked about: set while an area is local, they
    count once it is federated. *)
Definition b_shares : Board :=
  let b := (CreateArea 1 (str "one"%string) [] false new_board).2 in
  let b := (CreateArea 2 (str "two"%string) [] false b).2 in
  let b := (SetAreaShare 3 (str "one"%string) f1 [] b).2 in
  let b := (SetAreaShare 4 (str "two"%string) f1 [] b).2 in
  let b := (SetAreaFederated 5 (str "one"%string) true [] b).2 in
  (SetAreaFederated 6 (str "two"%string) true [] b).2.

(** Federating an area does not ask whether its share still fits, and the shares of the
    federated areas exceed the whole. *)
Lemma federating_skips_the_budget : flt f1 (totalAirtimeShare 0 b_shares) = true ∧ size (AreaShares b_shares) = 2%nat.
Proof. split; evaluates. Qed.

(** ** Posting *)

Definition ann : bytes := str "ann"%string.
Definition b_ann : Board :=
  (GrantCapability 5 ann CapPostFederated (str "sysop"%string) (CreateUser 4 (mkUserOptions ann ann [] false true None) b_open).2).2.
Definition serving : Service (list Rec) bool := mkService b_ann (Some []) [].

Lemma serving_own : own_ok oak (log b_ann).
Proof.
  assert (H : log b_ann = empty_db) by evaluates. rewrite H. split.
  - apply reachable_log_ok. apply rtc_refl.
  - intros w Hw. destruct (not_elem_of_nil _ Hw).
Qed.
Lemma oak_named : key_named oak.
Proof. assert (H : bool_decide (self oak = zero_id) = false) by evaluates. exact (proj1 (bool_decide_eq_false _) H). Qed.
Lemma driver_is_63 : driver_limit.
Proof. intros z. cbn. apply Z.ltb_lt. Qed.
Lemma oak_valid : valid_key oak.
Proof. split; [reflexivity|]. intros msg. by apply bool_decide_eq_true. Qed.

Definition hello : result board_error ID * Service (list Rec) bool := Post oak 200 ann (str "general"%string) (str "hi"%string) (str "hello"%string) serving.

Lemma Post_decides_witness : ∃ i s', hello = (Ok i, s') ∧ length (rows (log (board s'))) = 1%nat.
Proof.
  pose proof (Post_decides oak 200 ann (str "general"%string) (str "hi"%string) (str "hello"%string) serving serving_own oak_named oak_valid driver_is_63) as H.
  assert (Ho : is_ok hello.1 = true) by evaluates. fold hello in H. destruct hello as [[i|e] s']; [|discriminate Ho].
  exists i, s'. split; [reflexivity|]. destruct H as (_ & _ & a & rec & _ & _ & _ & _ & Hr & _). rewrite Hr.
  assert (Hl : log (board serving) = empty_db) by evaluates. rewrite Hl. reflexivity.
Defined.
