(* ===== verification/FileWitness.v ===== *)
(** * Concrete instances for files, requests and the catalog *)

From stdpp Require Import strings relations.
From S2P Require Import Prelude Binary Identity Order Text GoStrings.
From S2P Require Import FileBody Records RecordLog.
From S2P Require GossipStore BlobStore.
From S2P Require Import Board Areas Service Files FilesFacts FileRequests FileRequestsFacts FileService Sftp.
From S2P Require Import Witness ServiceWitness.

#[local] Existing Instances toy_blake3 toy_ed25519 toy_sql toy_sum toy_publisher.

Definition song : arr 32 := arr_of 32 [Byte.x01].
Definition wire_song : arr 16 := arr_of 16 [Byte.x01].
Definition share : bytes := str "share"%string.
Definition a_file (name : bytes) (h : arr 32) : File := mkFile 0 [] name h 7 [] [] 0 zero_record_id.

(** A federated file area, a file in it, and a request there for another's content. *)
Definition b_share : Board := (CreateFileArea 1 share [] true new_board).2.
Definition b_file : Board := (PutFile 2 share (a_file (str "tune"%string) (arr_of 32 [Byte.x02])) b_share).2.
Definition b_asked : Board := (RequestFile 3 share (str " song "%string) wire_song zero_id ann b_file).2.

Lemma b_share_step : file_step new_board b_share.
Proof. apply step_area, step_create. Defined.
Lemma b_file_reachable : rtc file_step new_board b_file.
Proof. eapply rtc_r; [apply rtc_once, b_share_step|]. apply step_putfile. Defined.
Lemma b_asked_reachable : rtc request_step new_board b_asked.
Proof.
  eapply rtc_r; [eapply rtc_r; [apply rtc_once|]|]; [apply ask_files; [exact b_share_step|reflexivity|reflexivity]| |apply ask_request].
  apply ask_files; [apply step_putfile|evaluates|evaluates].
Defined.

Lemma catalog_refines_witness : ∃ saved b', PutFile 4 share (a_file (str " song"%string) song) b_file = (Ok saved, b') ∧ GetFile share (str "song"%string) b' = Ok saved.
Proof.
  destruct (catalog_refines b_file b_file_reachable) as (_ & _ & _ & Hput & _). specialize (Hput 4 share (a_file (str " song"%string) song)).
  assert (Hok : is_ok (PutFile 4 share (a_file (str " song"%string) song) b_file).1 = true) by evaluates.
  assert (Hnew : blobs b_file !! song = None) by evaluates.
  destruct (PutFile 4 share (a_file (str " song"%string) song) b_file) as [[saved|e] b']; [|discriminate Hok].
  exists saved, b'. split; [reflexivity|]. destruct Hput as (a & _ & _ & Hget). cbn [a_file fl_Hash fl_Size fl_Name] in Hget. rewrite Hnew in Hget. exact (Hget eq_refl).
Defined.

Lemma requests_sound_witness : wire_song ∈ open_hashes b_asked ∧ Z.of_nat (length (open_of ann (requests b_asked))) ≤ 16.
Proof.
  destruct (requests_sound b_asked b_asked_reachable) as (_ & _ & Hmax & _ & _ & _ & _ & Hin & _). split; [|exact (Hmax ann)].
  apply Hin. exists (mkRequest 1 1 (str "song"%string) wire_song zero_id ann 3 0 0 NoNote).
  split; [apply list_elem_of_lookup; exists 0%nat; evaluates|]. split; reflexivity.
Defined.

Lemma arrival_settles_witness : ∃ y out b', SatisfyFileRequests 9 song 7 b_asked = (y :: out, b') ∧ y ∈ UnnotifiedFileRequests ann b'.
Proof.
  assert (Hs : song ≠ zero_arr 32).
  { assert (H : bool_decide (song = zero_arr 32) = false) by evaluates. exact (proj1 (bool_decide_eq_false _) H). }
  pose proof (arrival_settles b_asked 9 song 7 b_asked_reachable Hs ltac:(lia) ltac:(lia)) as H.
  assert (Hone : match (SatisfyFileRequests 9 song 7 b_asked).1 with y :: _ => asked_by (TrimSpace ann) y.2 | [] => false end = true) by evaluates.
  destruct (SatisfyFileRequests 9 song 7 b_asked) as [out b']. cbn [fst] in Hone. destruct out as [|y out]; [discriminate Hone|].
  exists y, out, b'. split; [reflexivity|]. destruct H as (_ & _ & _ & _ & Htold & _). apply Htold.
  - assert (Ht : bool_decide (TrimSpace ann = []) = false) by evaluates. exact (proj1 (bool_decide_eq_false _) Ht).
  - right. split; [left|exact Hone].
Defined.

(** ** Through the service *)

Definition sharing : Service (list Rec) bool := mkService b_share (Some []) [].

Lemma sharing_store : store_ok (board sharing).
Proof. apply store_reachable, rtc_once, b_share_step. Qed.
Lemma sharing_own : own_ok oak (log (board sharing)).
Proof. split; [apply reachable_log_ok, rtc_refl|]. intros w Hw. destruct (not_elem_of_nil _ Hw). Qed.

Lemma AddFile_decides_witness : ∃ saved s', AddFile oak 5 share (a_file (str "song"%string) song) sharing = (Ok saved, s') ∧ fl_Record saved ≠ zero_record_id.
Proof.
  pose proof (AddFile_decides oak 5 share (a_file (str "song"%string) song) sharing sharing_store sharing_own oak_named oak_valid driver_is_63) as H.
  assert (Hok : is_ok (AddFile oak 5 share (a_file (str "song"%string) song) sharing).1 = true) by evaluates.
  assert (Hrec : match (AddFile oak 5 share (a_file (str "song"%string) song) sharing).1 with Ok saved => bool_decide (fl_Record saved = zero_record_id) | Err _ => true end = false) by evaluates.
  destruct (AddFile _ _ _ _ _) as [[saved|e] s']; [|discriminate Hok]. cbn [fst] in Hrec. exists saved, s'. split; [reflexivity|].
  destruct H as (_ & _ & _ & a & row & s1 & _ & _ & _ & _ & _ & Hr & _). exact (proj1 (bool_decide_eq_false _) Hrec).
Defined.

(** A file described anew is announced by a second record, and the listing shows both. *)
Definition described : Service (list Rec) bool :=
  (DescribeFile oak 6 share (str "song"%string) (str "loud"%string) ann (AddFile oak 5 share (a_file (str "song"%string) song) sharing).2).2.
Lemma described_twice :
  match ListAreaContents [] share (board described) with Ok es => (λ e, (ce_Name e, ce_Description e)) <$> es | Err _ => [] end =
  [(str "song"%string, []); (str "song"%string, str "loud"%string)].
Proof. evaluates. Qed.

(** A name the catalog takes and no record can carry: the file is there, the area's
    number is spent, and the network never hears of either. *)
Definition odd_name : bytes := [Byte.xff].
Definition odd : result board_error File * Service (list Rec) bool := AddFile oak 5 share (a_file odd_name song) sharing.
Lemma odd_name_burns : is_ok odd.1 = true ∧ rows (log (board odd.2)) = [] ∧ AreaHighWater (AreaTagFor share) (log (board odd.2)) = 1.
Proof. split; [evaluates|]. split; evaluates. Qed.

(** ** File transfer *)

(** A local area, a federated one, and two users who may upload. *)
Definition attic : bytes := str "attic"%string.
Definition commons : bytes := str "commons"%string.
Definition bob : bytes := str "bob"%string.
Definition b_areas : Board := (CreateFileArea 2 commons [] true (CreateFileArea 1 attic [] false new_board).2).2.
Definition a_user (i : Z) (nick : bytes) : User := mkUser i nick nick [] true false true (str "active"%string) 3 0.
Definition b_users : Board := with_users [a_user 1 ann; a_user 2 bob] 2 {[(1, CapUploadFiles); (2, CapUploadFiles)]} b_areas.

Abbreviation TheWorld := (World (P := list Rec) (E := bool)).
Definition at_rest : TheWorld := mkWorld (mkService b_users (Some []) []) ∅ ∅ ∅.

Lemma at_rest_ok : sftp_ok oak at_rest.
Proof.
  assert (Hst : store_ok b_areas) by (apply store_reachable; eapply rtc_l; [apply step_area, (step_create 1 attic [] false GossipStore.KindFile)|];
    apply rtc_once, step_area, (step_create 2 commons [] true GossipStore.KindFile)).
  assert (Hlog : log b_users = empty_db) by reflexivity. split.
  - split; [exact Hst|]. cbn [catalogue svc at_rest board]. rewrite Hlog. split; [apply reachable_log_ok, rtc_refl|]. intros x Hx. destruct (not_elem_of_nil _ Hx).
  - split; [intros h f Hf; cbn [disk at_rest] in Hf; by rewrite lookup_empty in Hf|]. split; [intros k f Hf|].
    + assert (E0 : catalog (catalogue at_rest) = ∅) by reflexivity. by rewrite E0, lookup_empty in Hf.
    + split; [apply map_Forall_empty|]. split; [intros ? ? ? ? Hi; cbn [uploads at_rest] in Hi; by rewrite lookup_empty in Hi|apply map_Forall_empty].
Qed.

(** Ann uploads in two pieces, the second first. *)
Definition ann_may : session := mkSession ann false.
Definition w1 : TheWorld := sftpHandler 0 ann at_rest.
Definition w2 : TheWorld := (Filewrite ann_may (str "/attic/./tune"%string) 0 (str "s1"%string) w1).2.
Definition w3 : TheWorld := (WriteAt 0 (str "lo"%string) 3 w2).2.
Definition w4 : TheWorld := (WriteAt 0 (str "hel"%string) 0 w3).2.
Definition w5 : TheWorld := (Close oak 7 0 w4).2.

Lemma w5_reached : rtc (sftp_step oak) at_rest w5.
Proof.
  assert (Hs : sessions w1 !! 0%nat = Some ann_may) by evaluates.
  eapply rtc_l; [apply (sf_session oak 0 ann); reflexivity|]. eapply rtc_l; [apply (sf_write oak 0 ann_may (str "/attic/./tune"%string) 0 (str "s1"%string)); [exact Hs|reflexivity|reflexivity]|].
  eapply rtc_l; [apply (sf_bytes oak 0 (str "lo"%string) 3)|]. eapply rtc_l; [apply (sf_bytes oak 0 (str "hel"%string) 0)|]. apply rtc_once, (sf_close oak 7 0).
Defined.

Definition hello : bytes := str "hello"%string.
Definition tune_path : bytes := str "/nowhere/../attic//tune"%string.


(** Paths are spelled in many ways; none leads out. *)
Lemma paths_stay_inside :
  parsePath (str "/../../etc/passwd"%string) = Ok (mkVpath (str "etc"%string) (str "passwd"%string)) ∧
  parsePath (str "/attic/../.."%string) = Ok (mkVpath [] []) ∧ parsePath (str "a/b/c"%string) = Err TooDeep.
Proof. split; [|split]; reflexivity. Qed.

(** Bob uploads the same bytes under another name. Between the two halves of his [Close]
    Ann removes her file: nothing else names the content, so it goes, and the row
    written then promises bytes that are gone. *)
Definition bob_may : session := mkSession bob false.
Definition bob_up : upload := mkUpload bob attic (str "copy"%string) (BlobStore.tmp_path (str "s2"%string)) false false [(0%nat, hello)].
Definition w6 : World :=
  (WriteAt 1 hello 0 (Filewrite bob_may (str "attic/copy"%string) 1 (str "s2"%string) (sftpHandler 1 bob w5)).2).2.
Definition w7 := adopt 1 bob_up w6.
Definition w8 : TheWorld := (Filecmd ann_may Remove (str "attic/tune"%string) w7.2).2.
Definition w9 := match w7.1 with Ok (h, n) => file_upload oak 8 bob_up h n w8 | Err e => (Err e, w8) end.

Lemma removed_meanwhile : uploads w6 !! 1%nat = Some bob_up ∧ is_ok w9.1 = true ∧ Fileread (str "attic/copy"%string) w9.2 = Err (NotHeld (str "attic/copy"%string)).
Proof. split; [|split]; evaluates. Qed.

(** Ann may not upload to the federated area, but may move a file there, and nobody is
    told of it; and Bob may take her file away, or to another name. *)
Definition moved := Filecmd ann_may (Rename (str "commons/tune"%string)) (str "attic/tune"%string) w5.
Lemma rename_skips_the_gate :
  (Filewrite ann_may (str "commons/tune"%string) 1 (str "s2"%string) w5).1 = Err (UploadDenied (NotPermitted commons)) ∧
  moved.1 = Ok tt ∧ is_ok (GetFile commons (str "tune"%string) (catalogue moved.2)) = true ∧ publisher (svc moved.2) = Some [].
Proof. split; [evaluates|]. split; [evaluates|]. split; evaluates. Qed.
Lemma anyone_removes :
  MayDescribe (uploaded bob_up (zero_arr 32) 0) ann false = Some false ∧ (Filecmd bob_may Remove (str "attic/tune"%string) w5).1 = Ok tt.
Proof. split; evaluates. Qed.
