(* ===== verification/LeagueWitness.v ===== *)
(** * Concrete instances for door leagues *)

From stdpp Require Import strings relations.
From S2P Require Import Prelude Binary Identity Order Text GoStrings Float64.
From S2P Require Airtime Governor.
From S2P Require Import NodeNames Records RecordLog.
From S2P Require DoorEvent GossipStore VersionVector.
From S2P Require Import Board Areas Service Leagues LeaguesFacts.
From S2P Require Import Witness ServiceWitness.
From S2P Require TransportWitness.

#[local] Existing Instances toy_blake3 toy_ed25519 toy_sql toy_sum toy_publisher.

Definition opening : Service (list Rec) bool := mkService b_open (Some []) [].
Definition a_kill (actor : bytes) : DoorEventRequest :=
  mkRequested (str "lord"%string) (str "GAMES"%string) (str "lord"%string) Byte.x07 actor (str "bob @ oak"%string) [Byte.x01].
Definition one_waits : Service (list Rec) bool := with_board (QueueDoorEvent oak 100 aliased (a_kill ann) (board opening)).2 opening.

Lemma opening_opened : opened oak opening.
Proof.
  split; [exact (areas_reachable b_open b_open_reachable)|]. split; [evaluates|].
  assert (H : log (board opening) = empty_db) by evaluates. rewrite H. split; [apply reachable_log_ok, rtc_refl|].
  intros w Hw. destruct (not_elem_of_nil _ Hw).
Qed.

Lemma one_waits_reachable : rtc (league_step oak) opening one_waits.
Proof. apply rtc_once. apply step_queue. Defined.

Lemma events_queued_witness : ∃ b', QueueDoorEvent oak 101 aliased (a_kill (str "carol"%string)) (board one_waits) = (Ok tt, b') ∧
  ∀ q, q ∈ queue b' → q_ID q ≤ 2.
Proof.
  pose proof (events_queued oak opening one_waits 101 aliased (a_kill (str "carol"%string)) oak_named oak_valid driver_is_63 opening_opened one_waits_reachable) as H.
  cbv zeta in H. assert (Ho : is_ok (QueueDoorEvent oak 101 aliased (a_kill (str "carol"%string)) (board one_waits)).1 = true) by evaluates.
  assert (Hl : last_queued (QueueDoorEvent oak 101 aliased (a_kill (str "carol"%string)) (board one_waits)).2 = 2) by evaluates.
  destruct (QueueDoorEvent oak 101 aliased (a_kill (str "carol"%string)) (board one_waits)) as [[[]|e] b']; [|discriminate Ho]. exists b'. split; [reflexivity|].
  cbn [snd] in Hl. rewrite Hl in H. destruct H as (_ & _ & _ & H). intros q Hq. exact (proj1 (H q Hq)).
Defined.

(** Six minutes later the window of five is over, and the event goes out. *)
Definition later : Z := 100 * Leagues.Second + 6 * Leagues.Minute.
Definition settled : Service (list Rec) bool := flushDoorEvents oak later 0 (Some Leagues.Minute) TransportWitness.eu_governor one_waits.
Definition games : bytes * bytes := (str "games"%string, str "lord"%string).
Definition due_now : list Queued := batch later (policyFor 0 (Some Leagues.Minute) TransportWitness.eu_governor games.1) games (queue (board one_waits)).

Lemma due_is_all : due_now = queue (board one_waits).
Proof. evaluates. Qed.

Lemma events_settled_witness : ∃ rec l, board settled = with_queue [] 1 (with_log l (board one_waits)) ∧
  carries oak 460 (AreaTagFor (str "games"%string)) (str "lord"%string) (queue (board one_waits)) rec ∧ HasRecord (id rec) l = true.
Proof.
  pose proof (events_settled oak opening one_waits later 0 (Some Leagues.Minute) TransportWitness.eu_governor oak_named oak_valid driver_is_63 opening_opened one_waits_reachable) as H.
  cbv zeta in H. fold settled in H. destruct H as (sent & l & new & _ & Hb & _ & _ & Hsent & _ & _ & _ & Hlive).
  pose (a := mkArea 2 (str "games"%string) (AreaTagFor (str "games"%string)) GossipStore.KindDoor [] true false 0 f0 2).
  assert (Hne : queue (board one_waits) ≠ []).
  { assert (Hl : length (queue (board one_waits)) = 1%nat) by evaluates. intros E. rewrite E in Hl. discriminate Hl. }
  fold due_now in Hlive. assert (Hin : games ∈ sent.*1).
  { apply (Hlive games a); [exact (eq_ind_r (λ x, x ≠ []) Hne due_is_all)|split; evaluates|].
    assert (Hlen : length (DoorEventGroups (board one_waits)) = 1%nat) by evaluates. rewrite Hlen.
    assert (Hm : AreaHighWater (ar_Tag a) (log (board one_waits)) = 0) by evaluates. rewrite Hm. intros k Hk. apply Z.ltb_lt. lia. }
  apply list_elem_of_fmap in Hin as ([g [tag rec]] & E & Hin). cbn [fst] in E. subst g.
  rewrite Forall_forall in Hsent. destruct (Hsent _ Hin) as (_ & _ & (a' & [Ho _] & Ht) & Hc & Hh). cbn [fst snd] in *.
  assert (Ha : GetDoorArea games.1 (board one_waits) = Ok a) by evaluates. rewrite Ha in Ho. injection Ho as <-. subst tag.
  exists rec, l. split; [|split; [|exact Hh]].
  - assert (Hq : queue (board settled) = []) by evaluates. rewrite Hq in Hb. assert (Hl : last_queued (board one_waits) = 1) by evaluates. rewrite Hl in Hb. exact Hb.
  - assert (Hd : later / Leagues.Second = 460) by evaluates. rewrite Hd in Hc. fold due_now in Hc. rewrite due_is_all in Hc. exact Hc.
Defined.

(** ** Polling *)

Definition a_batch : Rec := the no_rec (NewDoorEventRecord oak 1 460 toy_area_tag (event_body (str "lord"%string) (queue (board one_waits)))).
Lemma a_batch_wf : wf_rec a_batch.
Proof. assert (H : Unmarshal (Marshal a_batch) = Ok a_batch) by evaluates. apply Unmarshal_sound in H as [Hw _]. exact Hw. Qed.
Definition heard : Db := (PutRecord 470 a_batch empty_db).2.

(** A door that asks before the record arrives, and after. *)
Lemma polled_history : history empty_db [empty_db; heard] heard.
Proof.
  eapply history_poll; [apply rtc_refl|]. eapply history_poll; [apply rtc_once; apply step_put, a_batch_wf|apply history_end].
Defined.

Lemma polling_delivers_once_witness : length (poll_run toy_area_tag (str "lord"%string) 0 [empty_db; heard]).1.1 = 1%nat.
Proof.
  pose proof (polling_delivers_once toy_area_tag (str "lord"%string) [empty_db; heard] heard polled_history) as H.
  assert (Hc : (poll_run toy_area_tag (str "lord"%string) 0 [empty_db; heard]).1.2 = 1) by evaluates.
  destruct (poll_run toy_area_tag (str "lord"%string) 0 [empty_db; heard]) as [[events cursor] tr]. cbn [fst snd] in *. subst cursor.
  cbv zeta in H. destruct H as (_ & -> & _). evaluates.
Defined.
