(* ===== verification/SessionWitness.v ===== *)
(** * Concrete instances for the link over IP, telnet input and lent connections *)

From stdpp Require Import strings relations.
From S2P Require Import Prelude Binary Identity.
From S2P Require Import BsmpOutbox BsmpInbox IpLink.
From S2P Require Telnet Mux.
From S2P Require Import Witness.

(** ** The link over IP *)

#[local] Existing Instance toy_blake3.
(** A certificate is its key. *)
#[local] Instance toy_certificates : Certificates := λ c, Some (Ed25519Key c).

Definition ash : bytes := replicate 32 Byte.x0a.
Definition elm : bytes := replicate 32 Byte.x0e.
Definition ash_id : NodeID := Eval vm_compute in NodeIDFromPublicKey ash.
Definition elm_id : NodeID := Eval vm_compute in NodeIDFromPublicKey elm.
Definition no_failure (_ : nat) : bool := false.
Definition no_conn : conn := new_conn [] None zero_id.
Definition at_conn (c : nat) (l : Link) : conn := default no_conn (conns l !! c).

(** Ash dials Elm and sends twice; Elm, who allows Ash, gets it in three pieces. *)
Definition one : bytes := str "one"%string.
Definition two : bytes := str "three"%string.
Definition a1 : Link := (dialled elm_id 0 [elm] (New None 0)).2.
Definition a2 : Link := (Send elm_id one None 5 no_failure a1).2.
Definition a3 : Link := (Send Broadcast two None 6 no_failure a2).2.

Definition wire : bytes := Eval vm_compute in cn_Out (at_conn 0 a3).
Definition e1 : Link := serve 4 [ash] (New (Some (AllowList [ash_id])) 8).
Definition e2 : Link := on_conn (arrived (take 3 wire) false) 4 e1.
Definition e3 : Link := read_round 7 4 (on_conn (arrived (take 6 (drop 3 wire)) false) 4 (read_round 7 4 e2)).
Definition e4 : Link := read_round 9 4 (on_conn (arrived (drop 9 wire) true) 4 e3).

Lemma a_run : rtc ip_step (New None 0) a3.
Proof.
  eapply rtc_l; [apply (ip_dial elm_id 0 [elm]); reflexivity|]. eapply rtc_l; [apply (ip_send elm_id one None 5 no_failure)|].
  apply rtc_once. apply (ip_send Broadcast two None 6 no_failure).
Qed.
Lemma e_run : rtc ip_step (New (Some (AllowList [ash_id])) 8) e4.
Proof.
  eapply rtc_l; [apply (ip_serve 4 [ash]); reflexivity|]. eapply rtc_l; [apply (ip_arrive 4 (take 3 wire) false)|]. eapply rtc_l; [apply (ip_read 7 4)|].
  eapply rtc_l; [apply (ip_arrive 4 (take 6 (drop 3 wire)) false)|]. eapply rtc_l; [apply (ip_read 7 4)|].
  eapply rtc_l; [apply (ip_arrive 4 (drop 9 wire) true)|]. apply rtc_once. apply (ip_read 9 4).
Qed.

Definition x4 : conn := Eval vm_compute in at_conn 4 e4.
Definition y3 : conn := Eval vm_compute in at_conn 0 a3.


(** An empty payload is sent without complaint, and the reader hangs up on it. *)
Lemma empty_payload_hangs_up :
  (Send elm_id [] None 7 no_failure a3).1 = None ∧ next_frame (frame []) = BadLength ∧
  let e := read_round 10 4 (on_conn (arrived (frame []) false) 4 e1) in cn_Open (at_conn 4 e) = false ∧ map_to_list (peers e) = [].
Proof. split; [|split; [|split]]; evaluates. Qed.

(** A send with a deadline that was kept makes a later one without any fail, and all
    after it; the peer stays in the table. *)
Definition bounded : Link := (Send elm_id one (Some 10) 5 no_failure a1).2.
Definition late := Send elm_id two None 20 no_failure bounded.
Lemma stale_deadline :
  (Send elm_id one (Some 10) 5 no_failure a1).1 = None ∧ late.1 = Some WriteFailed ∧
  (Send elm_id two (Some 100) 21 no_failure late.2).1 = Some WriteFailed ∧ map_to_list (peers late.2) = [(elm_id, 0%nat)].
Proof. split; [|split; [|split]]; evaluates. Qed.

(** Two nodes that dial each other at once: each sees its own connection ready first and
    takes the other's for its successor, so each closes the one the other keeps. *)
Lemma crossed_dials :
  let a := serve 2 [elm] (dialled elm_id 1 [elm] (New (Some (AllowList [elm_id])) 8)).2 in
  let e := serve 1 [ash] (dialled ash_id 2 [ash] (New (Some (AllowList [ash_id])) 8)).2 in
  cn_Open (at_conn 1 a) = false ∧ map_to_list (peers a) = [(elm_id, 2%nat)] ∧ cn_Open (at_conn 2 e) = false ∧ map_to_list (peers e) = [(ash_id, 1%nat)].
Proof. cbv zeta. split; [|split; [|split]]; evaluates. Qed.

(** ** Telnet and lending *)

Import Telnet Mux.

(** A handshake cut between IAC and its command and inside a window size, an escaped 255,
    and the end of the stream. *)
Definition cut_up : list (arrival unit) :=
  [([tnIAC], None); ([tnDO; Byte.x01; tnIAC; tnSB; Byte.x1f], None); ([Byte.x00; Byte.x50; tnIAC], None); ([tnSE; Byte.x68; tnIAC], None);
   ([tnIAC; Byte.x69], None); ([], Some tt)].

Lemma telnet_transparent_witness :
  (reads [2; 4; 4; 1; 4]%nat (newReader cut_up true)).1 = [([Byte.x68], None); ([tnIAC; Byte.x69], None); ([], Some tt)] ∧
  calls (reads [2; 4; 4]%nat (newReader cut_up true)).2 = 1%nat.
Proof.
  assert (Hs : Forall (λ n, (0 < n)%nat) [2; 4; 4]%nat) by (constructor; [lia|constructor; [lia|constructor; [lia|constructor]]]).
  pose proof (telnet_transparent cut_up true [2; 4; 4]%nat Hs) as H.
  assert (He : existsb failed (reads [2; 4; 4]%nat (newReader cut_up true)).1 = true) by evaluates. split; [evaluates|].
  destruct (reads [2; 4; 4]%nat (newReader cut_up true)) as [outs r]. destruct H as (taken & xs & t & _ & _ & _ & _ & Hc & _). cbn [fst snd] in *.
  rewrite Hc, He. reflexivity.
Defined.

(** Bytes arrive, a door borrows, and reads them. *)
Definition mux0 : connMux unit := newConnMux [([Byte.x61; Byte.x62], None)].
Definition mux1 : connMux unit := mkMux [([Byte.x61; Byte.x62], None)] [] None false TUI InRead 0 0 [].
Definition mux2 : connMux unit := mkMux [] [Byte.x61; Byte.x62] None false TUI AtTop 0 0 [].
Definition mux3 : connMux unit := mkMux [] [Byte.x61; Byte.x62] None false (Lent 0) AtTop 1 0 [].
Definition mux4 : connMux unit := mkMux [] [Byte.x62] None false (Lent 0) AtTop 1 0 [].

Lemma lent_run : mux_run [([Byte.x61; Byte.x62], None)] [(Lent 0, [Byte.x61])] mux4.
Proof.
  apply (run_step _ [] mux3 [(Lent 0, [Byte.x61])] mux4); [|apply (step_read (Lent 0) 1); evaluates].
  apply (run_step _ [] mux2 [] mux3); [|exact (step_borrow mux2)].
  apply (run_step _ [] mux1 [] mux2); [|apply step_pump; evaluates].
  apply (run_step _ [] mux0 [] mux1); [apply run_new|apply step_start; evaluates].
Defined.

Lemma mux_loses_nothing_witness : port_Write TUI [Byte.x63] mux4 = (1%nat, mux4) ∧ ∃ b m', port_Read (active mux4) 8 mux4 = Some (Ok b, m') ∧ b ≠ [].
Proof.
  destruct (mux_loses_nothing _ _ _ lent_run) as (_ & _ & Hw & _ & Hp & _). split.
  - apply Hw. discriminate.
  - destruct (Hp eq_refl eq_refl) as [H|[(m' & H)|H]]; [discriminate H|vm_compute in H; discriminate H|]. apply H. lia.
Defined.
