(* ===== verification/WebWitness.v ===== *)
(** * Concrete instances for signing in from a browser *)

From stdpp Require Import strings relations.
From S2P Require Import Prelude Binary Identity Order Text GoStrings Float64.
From S2P Require Import Records RecordLog Board Passkeys WebLogin WebLoginFacts.
From S2P Require Import Witness.

#[local] Existing Instance toy_blake3.
#[local] Instance toy_upper : UpperHigh := λ r, r.

(** A library that believes what it is told: a body is a credential and a handle, and
    a login is by the account's credential of that ID, with the count offered. *)
#[local] Instance toy_webauthn : WebAuthn bytes (lib_credential * bytes) (lib_credential * bytes) := {
  begin_login rnd := Some rnd;
  begin_registration _ rnd := Some rnd;
  parse_assertion := Some;
  names a := (lc_ID a.1, a.2);
  validate_login wu _ a :=
    c ← List.find (λ c, bool_decide (lc_ID c = lc_ID a.1)) (wu_creds wu);
    Some (mkLib (lc_ID c) (lc_PublicKey c) (lc_SignCount a.1) (lc_AAGUID c) (lc_Transport c));
  finish_registration _ _ b := Some b.1
}.

Lemma toy_login_sound : login_sound (D := bytes) (B := lib_credential * bytes) (A := lib_credential * bytes).
Proof.
  intros wu d a c. cbn. destruct (List.find _ _) as [x|] eqn:E; [|done]. intros [= <-]. cbn.
  apply List.find_some in E as [Hx%list_elem_of_In _]. by apply list_elem_of_fmap_2.
Qed.

Definition ann : User := mkUser 7 (str "Ann"%string) [] [] true false true (str "active"%string) 1 0.
Definition small_board : Board := with_users [ann] 7 ∅ new_board.
Lemma small_board_ok : accounts_ok small_board.
Proof. split; apply (bool_decide_unpack _); by vm_compute. Defined.

Definition limits3 : session_limits := mkLimits (60 * Nanos) 0 0 4 1.
Definition code : bytes * bytes := NewEnrolmentCode (Vector.const Byte.x07 8).
Definition key : lib_credential := mkLib (str "key"%string) (str "public"%string) 5 [] [str "usb"%string].
Definition key_later : lib_credential := mkLib (str "key"%string) (str "public"%string) 6 [] [].
Definition handle : bytes := str "handle"%string.
Definition call (ceremony : option bytes) (b : lib_credential * bytes) : request (lib_credential * bytes) := mkRequest (str "10.0.0.9"%string) None ceremony b.

Definition s0 : WebServer bytes := starting small_board (newLimiter 30) (newLimiter 600) (newLimiter 30) (newLimiter 600).
Definition s1 : WebServer bytes := with_tables (PutEnrolmentCode 10 (str "ANN"%string) code.2 1000 (w_board s0) (w_tables s0)).2 s0.
Definition s2 := handleEnrolBegin (20 * Nanos) (str "t1"%string) handle (Some code.1) (call None (key, [])) s1.
Definition s3 := handleEnrolFinish (30 * Nanos) handle (call (Some (str "t1"%string)) (key, [])) s2.2.
Definition s4 := handleLoginBegin (40 * Nanos) (str "t2"%string) (str "c"%string) (call None (key, [])) s3.2.
Definition s5 := handleLoginFinish limits3 (50 * Nanos) (str "t3"%string) (call (Some (str "t2"%string)) (key_later, handle)) s4.2.

Lemma s_replies : (s2.1, s3.1, s4.1, s5.1) =
  (EnrolmentBegan (str "Ann"%string) (str "t1"%string), EnrolledPasskey (str "Ann"%string), Began (str "t2"%string), SignedIn (str "Ann"%string) (str "t3"%string)).
Proof. evaluates. Qed.

Definition s_events : list web_event :=
  (((([] ++ [Issued (str "Ann"%string)]) ++ events_of s2.1) ++ events_of s3.1) ++ events_of s4.1) ++ events_of s5.1.

Lemma s_run : web_run limits3 s0 s_events s5.2.
Proof.
  unfold s_events. eapply run_snoc; [|apply web_login_finish]. eapply run_snoc; [|apply web_login_begin].
  eapply run_snoc; [|apply web_enrol_finish]. eapply run_snoc; [|apply web_enrol_begin].
  eapply run_snoc; [apply run_nil|]. exact (web_issue limits3 10 (str "ANN"%string) code.2 1000 s0).
Qed.

Lemma signin_sound_witness : s_events = [Issued (str "Ann"%string); Redeemed (str "Ann"%string); Enrolled (str "Ann"%string); In (str "Ann"%string) (str "t3"%string)] ∧
  size (w_sessions s5.2) = 1%nat ∧ Enrolled (str "Ann"%string) ∈ [Issued (str "Ann"%string); Redeemed (str "Ann"%string); Enrolled (str "Ann"%string)].
Proof.
  assert (E : s_events = [Issued (str "Ann"%string); Redeemed (str "Ann"%string); Enrolled (str "Ann"%string); In (str "Ann"%string) (str "t3"%string)]) by evaluates.
  split; [exact E|]. split; [evaluates|].
  destruct (signin_sound limits3 small_board _ _ _ _ s_events s5.2 toy_login_sound small_board_ok s_run) as (_ & H & _).
  exact (H [Issued (str "Ann"%string); Redeemed (str "Ann"%string); Enrolled (str "Ann"%string)] (str "Ann"%string) (str "t3"%string) [] E).
Defined.

(** A count of zero after another is no clone: it is written over it, and the copy that
    offers the old count again is let in. *)
Lemma zero_resets :
  SignCount ∘ pk_Cred <$> passkeys (w_tables s5.2) = [6] ∧
  let t := UseWebAuthnCredential 60 (str "key"%string) 0 (w_tables s5.2) in
  t.1 = None ∧ (UseWebAuthnCredential 61 (str "key"%string) 6 (w_tables s5.2)).1 = Some ErrCloned ∧
  (UseWebAuthnCredential 61 (str "key"%string) 6 t.2).1 = None.
Proof. split; [|split; [|split]]; evaluates. Qed.

(** An O read for a zero is the same code to the decoder, and another to the check. *)
Lemma o_is_not_zero :
  let c := NewEnrolmentCode (Vector.const Byte.x00 8) in
  let typed := str "OOOO-0000-00000"%string in
  CheckEnrolmentCode c.1 c.2 = Ok tt ∧
  DecodeBase32 (NormaliseEnrolmentCode c.1) = Ok (replicate 8 Byte.x00) ∧ DecodeBase32 (NormaliseEnrolmentCode typed) = Ok (replicate 8 Byte.x00) ∧
  CheckEnrolmentCode typed c.2 = Err ErrMismatch.
Proof. split; [|split; [|split]]; evaluates. Qed.

(** The wait reported is cut to whole seconds: who comes back after it is refused. *)
Lemma wait_too_short :
  let l := (allow 0 [] (allow 0 [] (allow 0 [] (allow 0 [] (allow 0 [] (allow 0 [] (allow 0 [] (newLimiter 7)).2).2).2).2).2).2).2 in
  (allow 0 [] l).1 = Some (514 * Nanos) ∧ is_Some (allow (514 * Nanos) [] (allow 0 [] l).2).1.
Proof. split; [evaluates|]. apply (bool_decide_unpack _). by vm_compute. Qed.
