(* ===== verification/MailWitness.v ===== *)
(** * Concrete instances for mail *)

From stdpp Require Import strings relations.
From S2P Require Import Prelude Binary Identity Order Text GoStrings NodeNames.
From S2P Require Import Records RecordLog Board Areas Service Base64 Armour Keyring Mail MailFacts.
From S2P Require Import Witness ServiceWitness.

#[local] Existing Instances toy_blake3 toy_ed25519 toy_sql toy_sum toy_publisher.

(** ** Primitives that satisfy the laws *)

(** Public keys are the private ones, two of them agree on their exclusive or, and a
    ciphertext is the message behind sixteen bytes of its key. *)
Definition xor_arr {n} (a b : arr n) : arr n := vzip_with (λ x y, z2b (Z.lxor (b2z x) (b2z y))) a b.

#[local] Instance toy_dm : DmCrypto := {
  X25519 k p := Some (xor_arr k p);
  Basepoint := zero_arr 32;
  IDKey pass salt _ _ _ := arr_of 32 (z2b (strlen pass) :: pass ++ salt);
  aead_Seal k _ m _ := take 16 (vec_to_list k) ++ m;
  aead_Open k _ c _ := if decide (take 16 c = take 16 (vec_to_list k)) then Some (drop 16 c) else None
}.

Lemma xor_zero n (k : arr n) : xor_arr k (zero_arr n) = k.
Proof.
  induction k as [|x n k IH]; [done|]. unfold xor_arr, zero_arr in *. cbn. f_equal; [|exact IH].
  change (b2z Byte.x00) with 0. by rewrite Z.lxor_0_r, z2b_b2z.
Qed.
Lemma xor_comm n (a b : arr n) : xor_arr a b = xor_arr b a.
Proof. induction a as [|x n a IH]; inv_vec b; [done|]. intros y b. unfold xor_arr in *. cbn. by rewrite Z.lxor_comm, IH. Qed.

#[local] Instance toy_dm_laws : DmCryptoLaws.
Proof.
  split; cbn.
  - intros k. by eexists.
  - intros a b A B s [= <-] [= <-] [= <-]. by rewrite !(xor_zero 32), xor_comm.
  - intros k n m ad. assert (Hl : length (take 16 (vec_to_list k)) = 16%nat) by (rewrite length_take, length_vec_to_list; done).
    rewrite take_app_length' by done. by rewrite decide_True, drop_app_length' by done.
  - intros k k' n m ad m'. assert (Hl : length (take 16 (vec_to_list k)) = 16%nat) by (rewrite length_take, length_vec_to_list; done).
    rewrite drop_app_length' by done. case_decide; congruence.
  - intros k n m ad. unfold strlen. rewrite length_app, length_take, length_vec_to_list. cbn. lia.
Qed.

(** ** A message, read after the passphrase changed *)

Definition b_mail : Board := b_ann.
Lemma b_mail_ok : accounts_ok b_mail.
Proof. split; apply (bool_decide_unpack _); by vm_compute. Defined.

Definition salt1 : arr 16 := Vector.const Byte.x11 16.
Definition salt2 : arr 16 := Vector.const Byte.x22 16.
Definition rnd1 : arr 32 := Vector.const Byte.x31 32.
Definition rnd2 : arr 32 := Vector.const Byte.x43 32.
Definition subject : bytes := str "hi"%string.
Definition text : bytes := str "see you at eight"%string.

Definition t1 : MailTables := (EnsureDMKey rnd1 salt1 (str "Ann"%string) (str "one"%string) b_mail no_mail).2.
Definition sent := SendDM oak 500 rnd2 (str "bob"%string) (str " ANN "%string) subject text [] b_mail t1.
Definition changed := ChangePasswordAndRewrapDMKey salt2 true (str "ann"%string) (str "one"%string) (Some (str "hash"%string)) (str "two"%string) sent.1.2 sent.2.
Definition passes : gmap Z bytes := {[ 1 := str "two"%string ]}.
Definition dm_id : ID := Eval vm_compute in match sent.1.1 with Ok i => i | Err _ => zero_record_id end.

Lemma sent_ok : sent.1.1 = Ok dm_id.
Proof. evaluates. Qed.

Definition pass1 : gmap Z bytes := {[ 1 := str "one"%string ]}.

Lemma step1 : mail_step oak (mkMS b_mail no_mail ∅) [] (mkMS b_mail t1 pass1).
Proof.
  pose proof (ms_ensure oak rnd1 salt1 (str "Ann"%string) (str "one"%string) b_mail no_mail ∅) as H. cbv zeta in H. fold t1 in H.
  match type of H with mail_step _ _ _ (mkMS _ _ ?q) => assert (E : q = pass1) by evaluates end.
  rewrite E in H. exact H.
Qed.

Lemma step2 : mail_step oak (mkMS b_mail t1 pass1) [Sent dm_id 1 subject text] (mkMS sent.1.2 sent.2 pass1).
Proof.
  pose proof (ms_send oak 500 rnd2 (str "bob"%string) (str " ANN "%string) subject text [] b_mail t1 pass1) as H. cbv zeta in H. fold sent in H.
  match type of H with mail_step _ _ ?ev _ => assert (E : ev = [Sent dm_id 1 subject text]) by evaluates end.
  rewrite E in H. exact H.
Qed.

Lemma step3 : mail_step oak (mkMS sent.1.2 sent.2 pass1) [] (mkMS changed.1.2 changed.2 passes).
Proof.
  pose proof (ms_change oak salt2 true (str "ann"%string) (str "one"%string) (Some (str "hash"%string)) (str "two"%string) sent.1.2 sent.2 pass1) as H.
  cbv zeta in H. fold changed in H.
  match type of H with mail_step _ _ _ (mkMS _ _ ?q) => assert (E : q = passes) by evaluates end.
  rewrite E in H. exact H.
Qed.

Lemma mail_history : mail_run oak (mkMS b_mail no_mail ∅) [Sent dm_id 1 subject text] (mkMS changed.1.2 changed.2 passes).
Proof.
  change [Sent dm_id 1 subject text] with ((([] ++ []) ++ [Sent dm_id 1 subject text]) ++ []).
  eapply mail_snoc; [eapply mail_snoc; [eapply mail_snoc; [apply mail_nil|apply step1]|apply step2]|apply step3].
Qed.

Lemma mail_opens_witness : ∃ sealed, OpenDM (str "ann"%string) (str "two"%string) sealed changed.1.2 changed.2 = Ok (mkPayload subject text).
Proof.
  assert (Hlive : live [Sent dm_id 1 subject text] dm_id 1 subject text).
  { exists [], []. split; [reflexivity|]. intros H. by apply elem_of_nil in H. }
  destruct (mail_opens oak b_mail _ _ dm_id 1 subject text oak_named driver_is_63 b_mail_ok serving_own mail_history Hlive)
    as (a & m & Ha & Hu & _ & _ & Hopen & _).
  exists (SealedBytes m). specialize (Hopen (str "two"%string)). 
  assert (E : users changed.1.2 = [mkUser 1 (str "ann"%string) (str "ann"%string) (str "hash"%string) true false true (str "active"%string) 4 0]) by evaluates.
  cbn [ms_board] in Ha, Hopen. rewrite E in Ha. apply list_elem_of_singleton in Ha as ->. apply Hopen. evaluates.
Defined.

(** An account without a wrapped key, or whose owner keeps the private half, cannot change
    its password this way, though the old one is right. *)
Lemma no_key_no_change :
  (ChangePasswordAndRewrapDMKey salt2 true (str "ann"%string) (str "one"%string) (Some (str "hash"%string)) (str "two"%string) b_mail no_mail).1.1 = Some (NoDMKey (str "ann"%string)) ∧
  let held := (SetClientHeldDMKey 1 (str "ann"%string) rnd1 true b_mail no_mail).2 in
  (ChangePasswordAndRewrapDMKey salt2 true (str "ann"%string) (str "one"%string) (Some (str "hash"%string)) (str "two"%string) b_mail held).1.1 = Some (NoDMKey (str "ann"%string)).
Proof. cbv zeta. split; evaluates. Qed.

(** ** A paste *)

Definition paste : bytes :=
  str "prompt> show"%string ++ [Byte.x0d; Byte.x0a] ++ str "  -----BEGIN MESHBBS DM-----"%string ++ [Byte.x0d; Byte.x0a] ++
  str "AQID "%string ++ [Byte.x0d; Byte.x0a] ++ str "-----END MESHBBS DM-----"%string ++ [Byte.x0d; Byte.x0a] ++ [Byte.x0a] ++ str "-- more --"%string.

Lemma armour_roundtrip_witness : Unarmour paste = Ok [Byte.x01; Byte.x02; Byte.x03].
Proof.
  destruct (armour_roundtrip paste [Byte.x01; Byte.x02; Byte.x03]) as [H _].
  apply (H [str "prompt> show"%string] [str "-- more --"%string]); [done|vm_compute; discriminate| | |evaluates].
  - split; apply (bool_decide_unpack _); by vm_compute.
  - split; apply (bool_decide_unpack _); by vm_compute.
Defined.
