(* ===== verification/DoorWitness.v ===== *)
(** * Concrete instances for doors *)

From stdpp Require Import strings relations.
From S2P Require Import Prelude Binary Identity Order Text GoStrings.
From S2P Require Import Records RecordLog Board Areas Service Keyring Mail Doors DoorRun Dropfile DoorApi DoorApiFacts.
From S2P Require DoorEvent GossipStore Leagues.
From S2P Require Import Witness ServiceWitness.

#[local] Existing Instances toy_blake3 toy_ed25519 toy_sql toy_publisher.

(** ** Rows and runs *)

Definition lord : Door :=
  mkDoor (str "Lord"%string) (str "/doors/lord"%string) [] (str "/doors"%string) [] (str "door.sys"%string)
    1 true (1800 * Leagues.Second) (Leagues.Second / 2) 0 [] 3 (str "general"%string) 1 5000 (str "games"%string) 1 true 0.
Definition put := PutDoor 5 lord (str "sysop"%string) b_open no_doors.

(** A processor limit below a second is saved as no limit at all, and the change is
    accepted. *)
Lemma short_limit_lost : put.1.1 = None ∧ dr_CPULimit lord = 500000000 ∧ dr_CPULimit <$> doors put.2 = [0] ∧ dr_WallClock <$> doors put.2 = [1800 * Leagues.Second].
Proof. split; [|split; [|split]]; evaluates. Qed.

Definition a_spec : Spec :=
  mkSpec (str "Lord"%string) (str "/doors/lord"%string) [] (str "/doors"%string) [] (str "door.sys"%string)
    (mkGrant 3 (str "general"%string) 1 (str "games"%string) 1 5000) 2 true 0 0 (1800 * Leagues.Second).
Definition two (_ : bytes) : Z := 2.
Definition one (_ : bytes) : Z := 1.

Definition running1 : Manager := mkManager {[ str "Lord"%string := 1 ]} {[ (str "Lord"%string, 7) ]} ∅ ∅.
Definition playing : Hall := mkHall running1 [(a_spec, 7)] [] [] 0.
Definition told : Hall :=
  mkHall (mkManager (running running1) (nodes running1) {[ str "Lord"%string := [10] ]} ∅) [(a_spec, 7)] [(str "Lord"%string, 10)] [] 10.

Lemma played : rtc (hall_step two one one) new_hall told.
Proof.
  eapply rtc_l; [|eapply rtc_l; [|apply rtc_refl]].
  - apply (hall_start two one one new_hall a_spec 7 running1); reflexivity.
  - apply (hall_announce two one one playing 10 (str "Lord"%string)). cbn. lia.
Qed.

(** While it runs on node 7 it starts on no such node again but on another, and within the
    hour it has said what it may. *)
Lemma manager_limits_witness :
  is_ok (reserve a_spec 7 (mgr told)) = false ∧ is_ok (reserve a_spec 8 (mgr told)) = true ∧
  (allowAnnounce 11 (str "Lord"%string) 1 (mgr told)).1 = false ∧ (allowAnnounce (10 + Leagues.Hour) (str "Lord"%string) 1 (mgr told)).1 = true.
Proof.
  destruct (manager_limits two one one told played) as (_ & Hstart & _ & Hsay).
  split; [apply not_true_iff_false; intros [_ H]%Hstart; by apply H|]. split.
  - apply Hstart. split; [intros [_ H]; by vm_compute in H|intros [_ H]; by apply H].
  - split; [apply not_true_iff_false; intros H%(proj1 (Hsay (str "Lord"%string) 11 ltac:(done))); by vm_compute in H|].
    apply (proj1 (Hsay (str "Lord"%string) (10 + Leagues.Hour) ltac:(done))). by vm_compute.
Defined.

(** ** Dropfiles *)

(** A caller who types lines is one line; C1 controls, two bytes in UTF-8, pass. *)
Lemma typed_lines :
  sanitizeField (str "Bob"%string ++ [Byte.x0d; Byte.x0a] ++ str "255"%string) = str "Bob 255"%string ∧
  sanitizeField [Byte.xc2; Byte.x9b] = [Byte.xc2; Byte.x9b] ∧ runes [Byte.xc2; Byte.x9b] = [(0, 0x9b, true)].
Proof. split; [|split]; evaluates. Qed.

(** ** A session of a door *)

#[local] Instance no_dm : DmCrypto := {
  X25519 _ _ := None; Basepoint := zero_arr 32; IDKey _ _ _ _ _ := zero_arr 32; aead_Seal _ _ m _ := m; aead_Open _ _ c _ := Some c
}.

Definition no_request : request := mkReq 0 [] [] [] [] [] [] [] [] [] [] Byte.x00 [] 0.
Definition hello : request := mkReq 1 opHello (str "token"%string) [] [] [] [] [] [] [] [] Byte.x00 [] 0.
Definition zeros : bytes := Eval vm_compute in replicate 4096 Byte.x00.
Definition set_state (n : Z) (k v : bytes) : request := mkReq n (str "state.set"%string) [] ScopeGlobal k v [] [] [] [] [] Byte.x00 [] 0.
Definition emit : request := mkReq 4 (str "event.emit"%string) [] [] [] [] [] [] [] [] (str "lord"%string) Byte.x01 [] 0.
Definition post : request := mkReq 5 (str "user.post"%string) [] [] [] [] (str "general"%string) [] (str "hi"%string) (str "won"%string) [] Byte.x00 [] 0.

(** Lines of one letter stand for the requests. *)
#[local] Instance toy_json : RequestJson := λ line,
  if bool_decide (line = str "h"%string) then Some hello
  else if bool_decide (line = str "a"%string) then Some (set_state 2 (str "a"%string) zeros)
  else if bool_decide (line = str "b"%string) then Some (set_state 3 (str "b"%string) zeros)
  else if bool_decide (line = str "e"%string) then Some emit
  else if bool_decide (line = str "p"%string) then Some post
  else None.

Definition ann_session : Session :=
  mkSession (str "ann"%string) [] 7 80 24 [] true [] false [] [] [] None.
Definition lord_api (level : Z) : apiServer :=
  mkApi (mkSpec (str "Lord"%string) (str "/doors/lord"%string) [] (str "/doors"%string) [] (str "door.sys"%string)
    (mkGrant level [] 1 (str "games"%string) 1 5000) 2 true 0 0 (1800 * Leagues.Second)) ann_session (str "token"%string).
Definition w0 : World (list Rec) bool := mkWorld serving no_mail put.2 [] NewManager.
Definition rnd0 : arr 32 := zero_arr 32.
Definition types (s : bytes) : api_event := Line 0 (20 * Leagues.Second) rnd0 s.
Definition fresh (w : World (list Rec) bool) : Server := mkServer ∅ false w.

(** Two values of 4096 bytes fit a quota of 5000: what begins with a NUL is measured as
    empty when it is stored. *)
Definition kept := serve_all oak (lord_api 3) [Accepted 0; types (str "h"%string); types (str "a"%string); types (str "b"%string)] (fresh w0).
Lemma quota_exceeded :
  kept.1 = [None; Some (1, HelloAnswer 3); Some (2, Done); Some (3, Done)] ∧
  (λ x : state_key * bytes, strlen x.1.2 + strlen x.2) <$> map_to_list (door_state (tables (world kept.2))) = [4097; 4097] ∧
  DoorStateUsed (str "lord"%string) (tables (world kept.2)) = 2.
Proof. split; [|split]; evaluates. Qed.

(** A door of level 3 that reports an event has the player told that it posts as them and
    that the audit log says so, where nothing is recorded; when it does act for them, at
    level 4, the notice is spent. *)
Definition emitted := serve_all oak (lord_api 3) [Accepted 0; types (str "h"%string); types (str "e"%string); types (str "p"%string)] (fresh w0).
Definition posted := serve_all oak (lord_api 4) [Accepted 0; types (str "h"%string); types (str "p"%string)] (fresh (world emitted.2)).
Lemma notice_spent :
  emitted.1 = [None; Some (1, HelloAnswer 3); Some (4, QueuedAnswer (notice_text (lord_api 3)));
               Some (5, Failed codeForbidden (NeedsLevel (str "user.post"%string) 4 3))] ∧
  length (audit (world_board (world emitted.2))) = length (audit (world_board w0)) ∧
  match posted.1 with [_; _; Some (_, RecordAnswer _ notice)] => notice | _ => [Byte.x00] end = [] ∧
  length (audit (world_board (world posted.2))) = S (length (audit (world_board w0))).
Proof. split; [|split; [|split]]; evaluates. Qed.
